(* ===== verification/_CoqProject ===== *)
-Q . S2P
Prelude.v
GoMonad.v
Model.v
Lock.v
LockUsers.v
Cache.v
KeyedLock.v
Random.v
Naming.v
GoStrings.v
Retry.v
Helpers.v
FixLease.v
Query.v
MqErrors.v
MqPool.v
MqPublish.v
MqConfirms.v
MqConsume.v
MqLoop.v
MqExclusive.v
Json.v
Watch.v
WatchSpecs.v
Routing.v
MqBroker.v
Sequence.v
Validation.v
Database.v
Focus.v
Store.v
PsqlStore.v
Listener.v
PsqlLaws.v
Catalogue.v
Integrity.v
CatalogueSpec.v
PsqlCatalogueSpecs.v
Inmem.v
InmemSpecs.v
Messages.v
World.v
Executor.v
Builders.v
Wire.v
Submitter.v
SubSaga.v
Coordinator.v
Inputs.v
Results.v
ExecutorPool.v
Rules.v
Polling.v
Startup.v
Lifecycle.v
Serving.v
Transit.v
Protocol.v
HandlerSpecs.v
Invariant.v
Building.v
SubmissionSpecs.v
Locked.v
ResultSpecs.v
Progress.v
Liveness.v
Demo.v
Guarantees.v
WireSpecs.v
CliService.v
CliServiceSpecs.v
ApiTypes.v
Api.v
ApiSpecs.v
WatchFetch.v
Cli.v
CliSpecs.v
CliUpdate.v
CliCommands.v
Templates.v
