(* ===== verification/Prelude.v ===== *)
(** * TRAX: a saga orchestrator, modelled and verified

    TRAX runs sagas: sequences of steps that remote services execute, each
    with a compensation that undoes it.  A _coordinator_ keeps the sagas in a
    database.  It creates a saga when a _submitter_ asks for one, sends the
    request of one step at a time to the step's _executor_ through a message
    broker, takes the results, and moves the saga forward or, once a step has
    failed, back through the compensations of the steps that were done.  Several
    coordinators may share a database; a lock per saga keeps them apart.  The
    program's core is [pkg/trax]; this library models the coordinator
    ([coordinator.go]) and the PostgreSQL store ([store_psql.go]) it works on,
    and proves what sagas and databases they can lead to.

    Around this core stand the message client ([pkg/mq]), the locks
    ([pkg/cache]), a control service over HTTP ([pkg/daemons/traxctrl]), a
    watcher ([pkg/trax/watch]), a command line ([pkg/clis/traxcli],
    [cmd/traxcli]) and shared helpers ([pkg/common]).

    ** The model

    A Go function that touches shared state is a state transformer [M S A] that
    ends in a value, a panic or an endless loop (GoMonad.v); an error is a value
    of the type [result].  The coordinator runs over a [World]: a store, the
    messages published, the goroutines started, and a counter of the questions
    it has asked its surroundings.  The [Env] answers them: what the clock says,
    what is drawn at random, whether the broker takes a message, whether the
    deadline has passed, whether the lock is had (World.v).  Nothing is assumed
    of the answers but where a theorem says so.  Processes and goroutines that
    run at once are step relations, one critical section a step.

    ** Data and texts

    - Model.v ([const.go], [types.go]): states, sagas, steps, execution logs,
      templates, as records and inductive types; an [int64] is a [Z], with the
      wrap-around written out where a sum is taken; a Go map of strings is a
      [gmap].  Messages.v ([messages.go]): messages and payloads.  Naming.v
      ([common.go], the table names of [store_psql.go]): names and keys.
      Random.v ([pkg/common/random.go]): identifiers.
    - GoStrings.v: what the program uses of [strings], [strconv], [fmt] and
      [time] on texts.  Json.v: JSON values, their text, and what
      [encoding/json] reads and writes for structures.  Query.v
      ([pkg/common/query*.go]): the clauses of a listing.
    - Sequence.v: [OrderSagaStepsInSequence], which follows the links between
      steps and does not end on a cycle, and [getPreviousStepsInOrder].
      Validation.v: the two validators of [isSagaStateValid].

    ** Stores

    - Store.v ([store.go]): the class [Store] of operations and the class
      [StoreLaws] of what the coordinator relies on: a _view_ of a store is a
      committed database and perhaps a working copy; a law relates the views
      before and after a call and its answer, and lets statements fail whenever
      the store is [faulty].  Database.v: the tables and the effect of each SQL
      statement.  PsqlStore.v ([store_psql.go]): the operations with their
      transactions per goroutine ([txMap]), on a server that may refuse, lose,
      garble or cut short any statement.  PsqlLaws.v: they satisfy the laws, and
      transactions are kept apart.  Listener.v: the goroutine that forwards
      notifications, which loses none as long as nothing is torn down.
    - Catalogue.v: the rest of the store: templates, clusters, annexes, tables,
      listings.  Integrity.v: whatever goroutines ask of it, the database stays
      well-formed.  CatalogueSpec.v: the catalogue as three maps, an interface
      ([CatalogueStore]) that the PostgreSQL store and the in-memory store
      (Inmem.v, [store_inmem.go]; InmemSpecs.v) both satisfy, so that they
      answer alike.  PsqlCatalogueSpecs.v: what else becomes of the control
      plane's operations.

    ** The coordinator

    - Coordinator.v ([coordinator.go]): [processSagaStep], one definition per
      step state and transaction body, the validation, the compensation of a
      committed saga, and what the polling loop ([processPolledStep]) and the
      goroutine after a result ([processStepWithMutex]) run under the lock.
      Results.v: the processing of a result and of a submission.  Polling.v: a
      round of the polling loop with the circuit breaker.  Inputs.v: the data
      sent to the participants.
    - Startup.v: [Start], [Stop] and [Restart], the reload of templates, the
      announcements of submitters, the control bus and the fan-out of
      notifications, on the broker of MqBroker.v; Lifecycle.v and Serving.v:
      the life of a coordinator as a transition system, and that those who are
      to be served are.  Routing.v: who gets which message.
    - Protocol.v is the abstract specification: a saga is a row and the sequence
      of its steps, each handler a relation between the saga before and after.
      Focus.v, Transit.v and Rules.v relate a saga to the database and give the
      rules by which calls of a store are reasoned about, from the laws alone.
      HandlerSpecs.v shows that the handlers implement the protocol.
    - Invariant.v: the four shapes of a saga (going forward; done; being
      compensated; compensated), which every effect of the protocol preserves,
      first for a saga and then for the database ([db_ok]).
    - Locked.v, ResultSpecs.v, Building.v, SubmissionSpecs.v: the invariant and
      the effect of each entry point, faults included.  Progress.v: the entry
      points as a transition system and its reachable databases; Liveness.v:
      when nothing gets in the way, a saga comes to its end after finitely many
      polls and results.  Guarantees.v: the properties of the system, and the
      round trip of a step through coordinator and executor.  Demo.v: a server,
      a database and whole runs from submission to the end, evaluated; they are
      also where the hypotheses of the theorems are shown to hold.

    ** Participants

    - Executor.v ([executor.go], [step_configuration.go],
      [idempotent_service.go], [saga_context.go]): the callback of the inbox and
      the goroutine detached for sub-sagas as trees of actions; ExecutorPool.v:
      any number of goroutines taking turns, and that the service never runs
      twice at once for a key.
    - Submitter.v ([submitter.go]): announcements, consumers, submissions;
      SubSaga.v ([sub_saga_executor.go]): waiting for a saga to end.
    - Builders.v, Wire.v, WireSpecs.v: the builders of [messages.go], the JSON of
      every structure, and that a message arrives as it was sent.

    ** Messages and locks

    - MqErrors.v, MqPool.v, MqPublish.v, MqConfirms.v, MqConsume.v, MqLoop.v,
      MqExclusive.v ([pkg/mq/common]): errors and retry headers, the pool of
      channels, publishing, publisher confirms, what becomes of a delivery, the
      life of a consumer, exclusive queues; MqBroker.v: declarations and
      reconnection.  The methods of the pool are cut where they let go of its
      mutex, and any number of goroutines take turns between the sections; an
      ack only sends, and is void when the channel is lost before the broker has
      seen it.
    - Lock.v ([pkg/cache/redis_impl.go]): [Mutex] and [MultiMutex] alone,
      LockUsers.v: with any number of processes, the end of a callback and the
      deletion of its key being steps of their own; Cache.v: reading through the
      cache.  KeyedLock.v ([pgsql_keyed_lock.go]): locks as rows of a table.
    - Retry.v, Helpers.v, FixLease.v ([pkg/common]): retries of database calls,
      helpers and hashes, the leases of FIX sessions.

    ** What people see

    - ApiTypes.v, Api.v, ApiSpecs.v ([pkg/daemons/traxctrl/api/v1]): requests,
      responses, handlers, over the interface [ControlStore].
    - Watch.v, WatchSpecs.v, WatchFetch.v ([pkg/trax/watch]): the watcher, its
      reports and what it is shown of the control service.
    - CliService.v, CliServiceSpecs.v ([pkg/clis/traxcli/executor.go]): the
      executor of the command line, with calls that overlap between their
      look-up, their work and the storing of its result; Cli.v, CliSpecs.v
      ([main.go]): the session and its commands; CliUpdate.v: an update of a
      template from the command line down to the row; CliCommands.v
      ([cmd/traxcli/cmd]): subcommands and flags; Templates.v: the templates
      that are written past the store.

    ** Bounds and fuel

    A loop that ends for a reason of its own has fuel enough for it, and a
    theorem says so: [OrderSagaStepsInSequence] is given one step more than
    there are steps, and running out means that the loop of the code never ends
    ([OrderSagaStepsInSequence_endless]); [Mutex] and [MultiMutex] wait at most
    for their timeouts; the loops of SubSaga.v end after as many ticks as fit in
    the maximal waiting time ([waiting_ends]), those of Watch.v at their
    deadline ([Watch_ends]); [get_channel] takes at most one turn for each
    channel in the buffer, and its creation of a channel waits at most twice;
    retries are counted.  Loops over a text have its length as fuel,
    and each turn takes at least one character.  [StartAnnouncement] and
    [WaitUntilReady] need not end: their fuel is the number of turns looked at.
    The follow-up loop of the coordinator is bounded by eleven turns, as in the
    code.

    ** What is not modelled

    Runs of the coordinator's entry points do not overlap: a run is one step of
    the system.  Two runs on one saga are kept apart by its lock and its row
    lock; the processing of a result reads its step before it has the row lock,
    so a finer interleaving of it is outside the model.  The isolation level is
    READ COMMITTED; the locks of the server are not modelled as such: a
    statement of another goroutine that a lock would have kept off is let
    through, and the transaction it interferes with is aborted instead, as with
    the victim of a deadlock (PsqlStore.v).  An access of a Go map or of a
    channel's buffer is one step.  Names of tables are as long as they are,
    while the server cuts them to 63 bytes; the results about the listing's
    statements are about identifiers of clusters that are plain names
    ([plain_cluster]), since the code pastes them into the text.  To the coordinator the broker takes a
    message once or not at all, while a publication of MqPublish.v may hand over
    up to three copies, of which the later ones are duplicates in the sense of
    Guarantees.v.  Errors of the database server have short texts.  In the
    control service nil maps and slices are taken for empty ones, and the texts
    of gin's binding errors and base64 are parameters; so are the texts of
    floating-point numbers, SHA-2 and the generators of random numbers, the HTTP
    client, the terminal and the shell.

    Left out: logging, the middlewares of the HTTP and gRPC servers, the
    wiring of the daemons, the connections of [pkg/mq/init.go] and
    [rabbitmq.go], the DDL of the keyed lock, the pass-through wrappers of Redis
    commands on lists, sets, hashes and JSON, [big.Int] and [float64] helpers,
    the message types of the execution plane ([pkg/execpl]), and the end-to-end
    test framework. *)

From stdpp Require Export base option list gmap strings sorting.
From Stdlib Require Export ZArith Lia.

#[global] Set Default Goal Selector "!".

(** ** Lists *)

Section lists.
Context {A B : Type}.
Implicit Types (l k : list A) (P : A → Prop) (f : A → A).

(** The first position at which a boolean test holds, the way a Go loop
    with a [break] finds it. *)
Fixpoint find_index (p : A → bool) (l : list A) : option nat :=
  match l with
  | [] => None
  | x :: l => if p x then Some 0 else S <$> find_index p l
  end.

Lemma find_index_app_r (p : A → bool) l x k :
  Forall (λ y, p y = false) l → p x = true →
  find_index p (l ++ x :: k) = Some (length l).
Proof.
  intros Hl Hx. induction Hl as [|y l Hy _ IH]; simpl; [by rewrite Hx|].
  by rewrite Hy, IH.
Qed.

Lemma find_index_Some (p : A → bool) l i :
  find_index p l = Some i →
  ∃ x, l !! i = Some x ∧ p x = true.
Proof.
  revert i. induction l as [|y l IH]; intros i; simpl; [done|].
  destruct (p y) eqn:Hy; [intros [= <-]; by exists y|].
  destruct (find_index p l) as [j|] eqn:Hj; simpl; [|done].
  intros [= <-]. by apply IH.
Qed.

Lemma find_index_None (p : A → bool) l :
  find_index p l = None → Forall (λ y, p y = false) l.
Proof.
  induction l as [|y l IH]; simpl; [constructor|].
  destruct (p y) eqn:Hy; [done|].
  destruct (find_index p l); [done|]. intros _. constructor; auto.
Qed.

Lemma Forall_map_id P f l :
  (∀ x, P x → f x = x) → Forall P l → f <$> l = l.
Proof. intros Hf. induction 1 as [|x l Hx _ IH]; csimpl; [done|]. by rewrite Hf, IH. Qed.
End lists.

(** ** Maps *)

Lemma alter_absent {A} (f : A → A) (k : string) (m : gmap string A) :
  m !! k = None → alter f k m = m.
Proof.
  intros Hk. apply map_eq. intros i. rewrite lookup_alter.
  case_decide as Hi; [|done]. by rewrite <-Hi, Hk.
Qed.
