(* ===== verification/GoMonad.v ===== *)
(** * Go functions as state transformers

    A Go function that touches shared state is a function of type [M S A]: it
    takes the state and gives back an outcome and the new state.  The outcome
    of a call is its return value, a panic that unwinds the goroutine, or
    nothing at all (a loop that never ends).  A Go [(T, error)] pair is a
    value of type [result T]; [error] alone is [result unit].  [defer] is
    [with_defer]: the deferred function runs on a normal return and on a
    panic, not when the body never returns. *)

From S2P Require Import Prelude.

Declare Scope go_scope.
Delimit Scope go_scope with go.

(** ** Errors *)

(** The errors the code tells apart with [errors.Is] are constructors of
    their own; every other error is its message. *)
Inductive goerror :=
  | ErrSagaInstanceNotFound
  | ErrSagaStepInstanceNotFound
  | Errorf (msg : string).

#[export] Instance goerror_eq_dec : EqDecision goerror.
Proof. solve_decision. Defined.

(** [err.Error()] *)
Definition error_text (err : goerror) : string :=
  match err with
  | ErrSagaInstanceNotFound => "saga instance not found"
  | ErrSagaStepInstanceNotFound => "saga step instance not found"
  | Errorf msg => msg
  end.

Inductive result (A : Type) :=
  | Ok (a : A)
  | Err (e : goerror).
Arguments Ok {A} a.
Arguments Err {A} e.

Definition is_ok {A} (r : result A) : bool :=
  match r with Ok _ => true | Err _ => false end.

Definition result_map {A B} (f : A → B) (r : result A) : result B :=
  match r with Ok a => Ok (f a) | Err e => Err e end.

(** ** Outcomes and the monad *)

Inductive outcome (A : Type) :=
  | Ret (a : A)
  | Panic (msg : string)
  | Hang.
Arguments Ret {A} a.
Arguments Panic {A} msg.
Arguments Hang {A}.

Definition M (S A : Type) : Type := S → outcome A * S.

Section monad.
Context {S : Type}.

Definition ret {A} (a : A) : M S A := λ s, (Ret a, s).
Definition panic {A} (msg : string) : M S A := λ s, (Panic msg, s).
Definition hang {A} : M S A := λ s, (Hang, s).

Definition bind {A B} (m : M S A) (k : A → M S B) : M S B := λ s,
  match m s with
  | (Ret a, s') => k a s'
  | (Panic msg, s') => (Panic msg, s')
  | (Hang, s') => (Hang, s')
  end.

Definition get_state : M S S := λ s, (Ret s, s).
Definition modify (f : S → S) : M S unit := λ s, (Ret tt, f s).

(** [if err != nil { return early }; k v] *)
Definition or_else {A B} (m : M S (result A)) (early : goerror → M S B)
    (k : A → M S B) : M S B :=
  bind m (λ r, match r with Ok a => k a | Err e => early e end).

(** [defer]: when the body returns [a], the deferred call [d a] runs and
    gives what the function returns (it may change an object the caller
    sees); when the body panics, [p] runs and the panic goes on, unless [p]
    panics itself. *)
Definition with_defer {A B} (body : M S A) (d : A → M S B) (p : M S unit) : M S B := λ s,
  match body s with
  | (Ret a, s') => d a s'
  | (Panic msg, s') => bind p (λ _, panic msg) s'
  | (Hang, s') => (Hang, s')
  end.

(** [for _, x := range l { body }], the loop stopping at the first
    [Some] (an early return from inside the loop). *)
Fixpoint range_loop {X B} (l : list X) (body : X → M S (option B)) : M S (option B) :=
  match l with
  | [] => ret None
  | x :: l => bind (body x) (λ r,
      match r with Some b => ret (Some b) | None => range_loop l body end)
  end.
End monad.

Notation "x <- m ;; k" := (bind m (λ x, k))
  (at level 100, m at next level, right associativity) : go_scope.
Notation "' x <- m ;; k" := (bind m (λ x, k))
  (at level 100, x pattern, m at next level, right associativity) : go_scope.
Notation "m ;;; k" := (bind m (λ _, k))
  (at level 100, right associativity) : go_scope.
Notation "x <-? m 'else' e => b ;; k" := (or_else m (λ e, b) (λ x, k))
  (at level 100, m at next level, e name, b at next level, right associativity) : go_scope.

(** ** Weakest preconditions

    [wp m Q s]: running [m] from [s] ends in an outcome and a state that
    satisfy [Q].  The rules below are the ones the client proofs use. *)

Section wp.
Context {S : Type}.
Implicit Types (s : S).

Definition wp {A} (m : M S A) (Q : outcome A → S → Prop) : S → Prop :=
  λ s, Q (m s).1 (m s).2.

Lemma wp_ret {A} (a : A) (Q : outcome A → S → Prop) s :
  Q (Ret a) s → wp (ret a) Q s.
Proof. done. Qed.

Lemma wp_mono {A} (m : M S A) (Q Q' : outcome A → S → Prop) s :
  (∀ o s', Q o s' → Q' o s') → wp m Q s → wp m Q' s.
Proof. unfold wp. auto. Qed.

Lemma wp_bind {A B} (m : M S A) (k : A → M S B) (Q : outcome B → S → Prop) s :
  wp m (λ o s', match o with
                | Ret a => wp (k a) Q s'
                | Panic msg => Q (Panic msg) s'
                | Hang => Q Hang s'
                end) s →
  wp (bind m k) Q s.
Proof. unfold wp, bind. destruct (m s) as [[a|msg|] s']; done. Qed.

(** The rule for calls known to return: no panic and no hang to carry. *)
Definition returns {A} (Q : A → S → Prop) : outcome A → S → Prop :=
  λ o s, match o with Ret a => Q a s | _ => False end.

Lemma wp_bind_ret {A B} (m : M S A) (k : A → M S B) (Q : outcome B → S → Prop) s :
  wp m (returns (λ a s', wp (k a) Q s')) s →
  wp (bind m k) Q s.
Proof.
  intros H. apply wp_bind. revert H. apply wp_mono. by intros [a|msg|] s'.
Qed.

Lemma wp_or_else {A B} (m : M S (result A)) early (k : A → M S B)
    (Q : outcome B → S → Prop) s :
  wp m (returns (λ r s', match r with
                         | Ok a => wp (k a) Q s'
                         | Err e => wp (early e) Q s'
                         end)) s →
  wp (or_else m early k) Q s.
Proof.
  intros H. apply wp_bind_ret. revert H. apply wp_mono.
  by intros [[a|e]|msg|] s'.
Qed.

Lemma wp_returns_mono {A} (m : M S A) (Q Q' : A → S → Prop) s :
  (∀ a s', Q a s' → Q' a s') → wp m (returns Q) s → wp m (returns Q') s.
Proof. intros H. apply wp_mono. intros [a|msg|] s'; simpl; auto. Qed.

Lemma wp_with_defer {A B} (body : M S A) (d : A → M S B) p (Q : outcome B → S → Prop) s :
  wp body (returns (λ a s', wp (d a) Q s')) s → wp (with_defer body d p) Q s.
Proof. unfold wp, with_defer. destruct (body s) as [[a|msg|] s']; simpl; done. Qed.

Lemma wp_if {A} (b : bool) (m1 m2 : M S A) (Q : outcome A → S → Prop) s :
  (b = true → wp m1 Q s) → (b = false → wp m2 Q s) →
  wp (if b then m1 else m2) Q s.
Proof. destruct b; auto. Qed.
End wp.

Lemma ret_wp {S A} (m : M S A) (Q : A → S → Prop) s :
  wp m (returns Q) s → ∃ a s', m s = (Ret a, s') ∧ Q a s'.
Proof. unfold wp. destruct (m s) as [[a|msg|] s']; simpl; [eauto|done|done]. Qed.
