(* ===== verification/Model.v ===== *)
(** * The data of [pkg/trax/const.go] and [pkg/trax/types.go]

    The two state enumerations, the execution-result status, and the records
    that the stores hold and the coordinator moves about, field by field.  A
    Go [int64] or [int] is a [Z] (machine arithmetic is written out where a
    sum is taken, see [int64_add]); a Go map from strings to strings is a
    [gmap], which identifies the nil map with the empty one, as every use in
    the code does. *)

From S2P Require Import Prelude.
From Stdlib Require Import Strings.Byte.

(** ** Machine integers *)

(** Two's-complement wrap-around of Go's [int64]. *)
Definition wrap64 (z : Z) : Z := ((z + 2 ^ 63) mod 2 ^ 64 - 2 ^ 63)%Z.
Definition int64_add (a b : Z) : Z := wrap64 (a + b).

Definition in_int64 (z : Z) : Prop := (- 2 ^ 63 ≤ z < 2 ^ 63)%Z.

Lemma wrap64_id z : in_int64 z → wrap64 z = z.
Proof. unfold in_int64, wrap64. intros ?. rewrite Z.mod_small; lia. Qed.

Lemma wrap64_range z : in_int64 (wrap64 z).
Proof.
  unfold in_int64, wrap64. pose proof (Z.mod_pos_bound (z + 2 ^ 63) (2 ^ 64)). lia.
Qed.

(** ** The enumerations *)

Inductive SagaStateEnum :=
  | SagaStateEnum_Unknown
  | SagaStateEnum_Running
  | SagaStateEnum_Committed
  | SagaStateEnum_Compensated
  | SagaStateEnum_Blocked
  | SagaStateEnum_InvalidState
  | SagaStateEnum_CompensationRequested
  | SagaStateEnum_Paused
  | SagaStateEnum_Cancelled.

Inductive SagaStepStateEnum :=
  | SagaStepStateEnum_Unknown
  | SagaStepStateEnum_ExecutionPending
  | SagaStepStateEnum_ExecutionCandidate
  | SagaStepStateEnum_ExecutionRunning
  | SagaStepStateEnum_ExecutionSucceeded
  | SagaStepStateEnum_ExecutionDone
  | SagaStepStateEnum_ExecutionFailed
  | SagaStepStateEnum_ExecutionBlocked
  | SagaStepStateEnum_ExecutionAborted
  | SagaStepStateEnum_CompensationPending
  | SagaStepStateEnum_CompensationCandidate
  | SagaStepStateEnum_CompensationRunning
  | SagaStepStateEnum_CompensationSucceeded
  | SagaStepStateEnum_CompensationDone
  | SagaStepStateEnum_CompensationFailed
  | SagaStepStateEnum_CompensationBlocked.

(** The status is a string that arrives in a message, so a value the code
    does not know is a value of the type too. *)
Inductive ExecutionResultStatusEnum :=
  | ExecutionResultStatusEnum_Unknown
  | ExecutionResultStatusEnum_Success
  | ExecutionResultStatusEnum_InExecution
  | ExecutionResultStatusEnum_Failed
  | ExecutionResultStatusEnum_Retry
  | ExecutionResultStatusEnum_Error
  | ExecutionResultStatusEnum_Other (s : string).

#[export] Instance SagaStateEnum_eq_dec : EqDecision SagaStateEnum.
Proof. solve_decision. Defined.
#[export] Instance SagaStepStateEnum_eq_dec : EqDecision SagaStepStateEnum.
Proof. solve_decision. Defined.
#[export] Instance ExecutionResultStatusEnum_eq_dec : EqDecision ExecutionResultStatusEnum.
Proof. solve_decision. Defined.

(** The value each constant has in the source, which is what the database
    columns and the messages hold. *)
Definition SagaStateEnum_string (s : SagaStateEnum) : string :=
  match s with
  | SagaStateEnum_Unknown => "UNKNOWN"
  | SagaStateEnum_Running => "SAGA_STATE_ENUM_RUNNING"
  | SagaStateEnum_Committed => "SAGA_STATE_ENUM_COMMITTED"
  | SagaStateEnum_Compensated => "SAGA_STATE_ENUM_COMPENSATED"
  | SagaStateEnum_Blocked => "SAGA_STATE_ENUM_BLOCKED"
  | SagaStateEnum_InvalidState => "SAGA_STATE_ENUM_INVALID_STATE"
  | SagaStateEnum_CompensationRequested => "SAGA_STATE_ENUM_COMPENSATION_REQUESTED"
  | SagaStateEnum_Paused => "SAGA_STATE_ENUM_PAUSED"
  | SagaStateEnum_Cancelled => "SAGA_STATE_ENUM_CANCELLED"
  end.

Definition SagaStepStateEnum_string (s : SagaStepStateEnum) : string :=
  match s with
  | SagaStepStateEnum_Unknown => "UNKNOWN"
  | SagaStepStateEnum_ExecutionPending => "SAGA_STEP_STATE_ENUM_EXECUTION_PENDING"
  | SagaStepStateEnum_ExecutionCandidate => "SAGA_STEP_STATE_ENUM_EXECUTION_CANDIDATE"
  | SagaStepStateEnum_ExecutionRunning => "SAGA_STEP_STATE_ENUM_EXECUTION_RUNNING"
  | SagaStepStateEnum_ExecutionSucceeded => "SAGA_STEP_STATE_ENUM_EXECUTION_SUCCEEDED"
  | SagaStepStateEnum_ExecutionDone => "SAGA_STEP_STATE_ENUM_EXECUTION_DONE"
  | SagaStepStateEnum_ExecutionFailed => "SAGA_STEP_STATE_ENUM_EXECUTION_FAILED"
  | SagaStepStateEnum_ExecutionBlocked => "SAGA_STEP_STATE_ENUM_EXECUTION_BLOCKED"
  | SagaStepStateEnum_ExecutionAborted => "SAGA_STEP_STATE_ENUM_EXECUTION_ABORTED"
  | SagaStepStateEnum_CompensationPending => "SAGA_STEP_STATE_ENUM_COMPENSATION_PENDING"
  | SagaStepStateEnum_CompensationCandidate => "SAGA_STEP_STATE_ENUM_COMPENSATION_CANDIDATE"
  | SagaStepStateEnum_CompensationRunning => "SAGA_STEP_STATE_ENUM_COMPENSATION_RUNNING"
  | SagaStepStateEnum_CompensationSucceeded => "SAGA_STEP_STATE_ENUM_COMPENSATION_SUCCEEDED"
  | SagaStepStateEnum_CompensationDone => "SAGA_STEP_STATE_ENUM_COMPENSATION_DONE"
  | SagaStepStateEnum_CompensationFailed => "SAGA_STEP_STATE_ENUM_COMPENSATION_FAILED"
  | SagaStepStateEnum_CompensationBlocked => "SAGA_STEP_STATE_ENUM_COMPENSATION_BLOCKED"
  end.

#[export] Instance SagaStateEnum_string_inj : Inj (=) (=) SagaStateEnum_string.
Proof. intros [] []; simpl; congruence. Qed.
#[export] Instance SagaStepStateEnum_string_inj : Inj (=) (=) SagaStepStateEnum_string.
Proof. intros [] []; simpl; congruence. Qed.

(** Go's [==] on the enumerations. *)
Definition saga_state_eqb (a b : SagaStateEnum) : bool := bool_decide (a = b).
Definition step_state_eqb (a b : SagaStepStateEnum) : bool := bool_decide (a = b).

(** ** The records *)

#[export] Instance byte_eq_dec : EqDecision Byte.byte := Byte.byte_eq_dec.

(** A cluster: one execution namespace. *)
Record Cluster := mkCluster {
  cl_Id : string;
  cl_DisplayName : string;
  cl_Description : string;
  cl_Labels : gmap string string;
  cl_Tags : list string;
  cl_Metadata : gmap string string;
}.

#[export] Instance Cluster_eq_dec : EqDecision Cluster.
Proof. solve_decision. Defined.

(** A saga template and the ordered identifiers of its steps. *)
Record SagaTemplate := mkSagaTemplate {
  st_TemplateId : string;
  st_DisplayName : string;
  st_Description : string;
  st_Labels : gmap string string;
  st_Tags : list string;
  st_Metadata : gmap string string;
  st_SagaStepTemplateIds : list string;
}.

#[export] Instance SagaTemplate_eq_dec : EqDecision SagaTemplate.
Proof. solve_decision. Defined.

(** A step template. *)
Record SagaStepTemplate := mkSagaStepTemplate {
  sst_TemplateId : string;
  sst_SagaTemplateId : string;
  sst_DisplayName : string;
  sst_Description : string;
  sst_Labels : gmap string string;
  sst_Tags : list string;
  sst_Metadata : gmap string string;
}.

#[export] Instance SagaStepTemplate_eq_dec : EqDecision SagaStepTemplate.
Proof. solve_decision. Defined.

(** One saga; [si_AnnexIids] is [None] for nil, which the database keeps as the
    JSON [null] and not as an empty list. *)
Record SagaInstance := mkSagaInstance {
  si_InstanceId : string;
  si_ClusterId : string;
  si_ZoneId : string;
  si_TraceId : string;
  si_ExecutionId : string;
  si_SagaSubmitterId : string;
  si_Origin : string;
  si_OriginIdempotencyKey : string;
  si_Labels : gmap string string;
  si_Tags : list string;
  si_Metadata : gmap string string;
  si_State : SagaStateEnum;
  si_SagaTemplateId : string;
  si_Input : gmap string string;
  si_SagaInstanceIds : list string;
  si_ParentSagaInstanceId : string;
  si_ParentSagaStepInstanceId : string;
  si_RootSagaInstanceId : string;
  si_SagaDepth : Z;
  si_CompensationReason : string;
  si_AnnexIids : option (list string);
  si_CreatedAt : Z;
  si_UpdatedAt : Z;
}.

#[export] Instance SagaInstance_eq_dec : EqDecision SagaInstance.
Proof. solve_decision. Defined.

(** A byte attachment of a saga. *)
Record SagaAnnex := mkSagaAnnex {
  an_Iid : string;
  an_ClusterId : string;
  an_SagaInstanceId : string;
  an_ContentType : string;
  an_ContentLength : Z;
  an_Notes : string;
  an_ContentData : list Byte.byte;
  an_CreatedAt : Z;
  an_UpdatedAt : Z;
}.

#[export] Instance SagaAnnex_eq_dec : EqDecision SagaAnnex.
Proof. solve_decision. Defined.

(** One attempt to execute or compensate a step; times are Unix milliseconds, [0] when the event has not happened. *)
Record SagaStepExecutionLog := mkSagaStepExecutionLog {
  log_NextExecutionTs : Z;
  log_ExecutionRequestSentTs : Z;
  log_ExecutionTimeoutTs : Z;
  log_ExecutionResultReceivedTs : Z;
  log_LogConclusionTs : Z;
  log_ExecutionResult : gmap string string;
  log_ExecutionError : string;
  log_IsCompensation : bool;
  log_Metadata : gmap string string;
}.

#[export] Instance SagaStepExecutionLog_eq_dec : EqDecision SagaStepExecutionLog.
Proof. solve_decision. Defined.

(** One step of a saga; [Previous...] and [Next...] chain the steps of a saga in execution order. *)
Record SagaStepInstance := mkSagaStepInstance {
  ssi_InstanceId : string;
  ssi_ClusterId : string;
  ssi_ZoneId : string;
  ssi_SagaInstanceId : string;
  ssi_TraceId : string;
  ssi_ExecutionId : string;
  ssi_Labels : gmap string string;
  ssi_Tags : list string;
  ssi_Metadata : gmap string string;
  ssi_Affinity : string;
  ssi_State : SagaStepStateEnum;
  ssi_Result : gmap string string;
  ssi_CompensationResult : gmap string string;
  ssi_SagaTemplateId : string;
  ssi_SagaStepTemplateId : string;
  ssi_PreviousSagaStepInstanceId : string;
  ssi_NextSagaStepInstanceId : string;
  ssi_ExecutionHistory : list SagaStepExecutionLog;
  ssi_CreatedAt : Z;
  ssi_UpdatedAt : Z;
}.

#[export] Instance SagaStepInstance_eq_dec : EqDecision SagaStepInstance.
Proof. solve_decision. Defined.

Definition set_si_ClusterId (v : string) (x : SagaInstance) : SagaInstance :=
  mkSagaInstance (si_InstanceId x) v (si_ZoneId x) (si_TraceId x)
    (si_ExecutionId x) (si_SagaSubmitterId x) (si_Origin x)
    (si_OriginIdempotencyKey x) (si_Labels x) (si_Tags x) (si_Metadata x)
    (si_State x) (si_SagaTemplateId x) (si_Input x) (si_SagaInstanceIds x)
    (si_ParentSagaInstanceId x) (si_ParentSagaStepInstanceId x)
    (si_RootSagaInstanceId x) (si_SagaDepth x) (si_CompensationReason x)
    (si_AnnexIids x) (si_CreatedAt x) (si_UpdatedAt x).

Definition set_si_State (v : SagaStateEnum) (x : SagaInstance) : SagaInstance :=
  mkSagaInstance (si_InstanceId x) (si_ClusterId x) (si_ZoneId x)
    (si_TraceId x) (si_ExecutionId x) (si_SagaSubmitterId x) (si_Origin x)
    (si_OriginIdempotencyKey x) (si_Labels x) (si_Tags x) (si_Metadata x) v
    (si_SagaTemplateId x) (si_Input x) (si_SagaInstanceIds x)
    (si_ParentSagaInstanceId x) (si_ParentSagaStepInstanceId x)
    (si_RootSagaInstanceId x) (si_SagaDepth x) (si_CompensationReason x)
    (si_AnnexIids x) (si_CreatedAt x) (si_UpdatedAt x).

Definition set_si_SagaInstanceIds (v : list string) (x : SagaInstance) : SagaInstance :=
  mkSagaInstance (si_InstanceId x) (si_ClusterId x) (si_ZoneId x)
    (si_TraceId x) (si_ExecutionId x) (si_SagaSubmitterId x) (si_Origin x)
    (si_OriginIdempotencyKey x) (si_Labels x) (si_Tags x) (si_Metadata x)
    (si_State x) (si_SagaTemplateId x) (si_Input x) v
    (si_ParentSagaInstanceId x) (si_ParentSagaStepInstanceId x)
    (si_RootSagaInstanceId x) (si_SagaDepth x) (si_CompensationReason x)
    (si_AnnexIids x) (si_CreatedAt x) (si_UpdatedAt x).

Definition set_si_RootSagaInstanceId (v : string) (x : SagaInstance) : SagaInstance :=
  mkSagaInstance (si_InstanceId x) (si_ClusterId x) (si_ZoneId x)
    (si_TraceId x) (si_ExecutionId x) (si_SagaSubmitterId x) (si_Origin x)
    (si_OriginIdempotencyKey x) (si_Labels x) (si_Tags x) (si_Metadata x)
    (si_State x) (si_SagaTemplateId x) (si_Input x) (si_SagaInstanceIds x)
    (si_ParentSagaInstanceId x) (si_ParentSagaStepInstanceId x) v
    (si_SagaDepth x) (si_CompensationReason x) (si_AnnexIids x)
    (si_CreatedAt x) (si_UpdatedAt x).

Definition set_si_CompensationReason (v : string) (x : SagaInstance) : SagaInstance :=
  mkSagaInstance (si_InstanceId x) (si_ClusterId x) (si_ZoneId x)
    (si_TraceId x) (si_ExecutionId x) (si_SagaSubmitterId x) (si_Origin x)
    (si_OriginIdempotencyKey x) (si_Labels x) (si_Tags x) (si_Metadata x)
    (si_State x) (si_SagaTemplateId x) (si_Input x) (si_SagaInstanceIds x)
    (si_ParentSagaInstanceId x) (si_ParentSagaStepInstanceId x)
    (si_RootSagaInstanceId x) (si_SagaDepth x) v (si_AnnexIids x)
    (si_CreatedAt x) (si_UpdatedAt x).

Definition set_si_AnnexIids (v : option (list string)) (x : SagaInstance) : SagaInstance :=
  mkSagaInstance (si_InstanceId x) (si_ClusterId x) (si_ZoneId x)
    (si_TraceId x) (si_ExecutionId x) (si_SagaSubmitterId x) (si_Origin x)
    (si_OriginIdempotencyKey x) (si_Labels x) (si_Tags x) (si_Metadata x)
    (si_State x) (si_SagaTemplateId x) (si_Input x) (si_SagaInstanceIds x)
    (si_ParentSagaInstanceId x) (si_ParentSagaStepInstanceId x)
    (si_RootSagaInstanceId x) (si_SagaDepth x) (si_CompensationReason x) v
    (si_CreatedAt x) (si_UpdatedAt x).

Definition set_si_CreatedAt (v : Z) (x : SagaInstance) : SagaInstance :=
  mkSagaInstance (si_InstanceId x) (si_ClusterId x) (si_ZoneId x)
    (si_TraceId x) (si_ExecutionId x) (si_SagaSubmitterId x) (si_Origin x)
    (si_OriginIdempotencyKey x) (si_Labels x) (si_Tags x) (si_Metadata x)
    (si_State x) (si_SagaTemplateId x) (si_Input x) (si_SagaInstanceIds x)
    (si_ParentSagaInstanceId x) (si_ParentSagaStepInstanceId x)
    (si_RootSagaInstanceId x) (si_SagaDepth x) (si_CompensationReason x)
    (si_AnnexIids x) v (si_UpdatedAt x).

Definition set_si_UpdatedAt (v : Z) (x : SagaInstance) : SagaInstance :=
  mkSagaInstance (si_InstanceId x) (si_ClusterId x) (si_ZoneId x)
    (si_TraceId x) (si_ExecutionId x) (si_SagaSubmitterId x) (si_Origin x)
    (si_OriginIdempotencyKey x) (si_Labels x) (si_Tags x) (si_Metadata x)
    (si_State x) (si_SagaTemplateId x) (si_Input x) (si_SagaInstanceIds x)
    (si_ParentSagaInstanceId x) (si_ParentSagaStepInstanceId x)
    (si_RootSagaInstanceId x) (si_SagaDepth x) (si_CompensationReason x)
    (si_AnnexIids x) (si_CreatedAt x) v.

Definition set_an_ClusterId (v : string) (x : SagaAnnex) : SagaAnnex :=
  mkSagaAnnex (an_Iid x) v (an_SagaInstanceId x) (an_ContentType x)
    (an_ContentLength x) (an_Notes x) (an_ContentData x) (an_CreatedAt x)
    (an_UpdatedAt x).

Definition set_an_CreatedAt (v : Z) (x : SagaAnnex) : SagaAnnex :=
  mkSagaAnnex (an_Iid x) (an_ClusterId x) (an_SagaInstanceId x)
    (an_ContentType x) (an_ContentLength x) (an_Notes x) (an_ContentData x) v
    (an_UpdatedAt x).

Definition set_an_UpdatedAt (v : Z) (x : SagaAnnex) : SagaAnnex :=
  mkSagaAnnex (an_Iid x) (an_ClusterId x) (an_SagaInstanceId x)
    (an_ContentType x) (an_ContentLength x) (an_Notes x) (an_ContentData x)
    (an_CreatedAt x) v.

Definition set_an_ContentLength (v : Z) (x : SagaAnnex) : SagaAnnex :=
  mkSagaAnnex (an_Iid x) (an_ClusterId x) (an_SagaInstanceId x)
    (an_ContentType x) v (an_Notes x) (an_ContentData x) (an_CreatedAt x)
    (an_UpdatedAt x).

Definition set_an_ContentData (v : list Byte.byte) (x : SagaAnnex) : SagaAnnex :=
  mkSagaAnnex (an_Iid x) (an_ClusterId x) (an_SagaInstanceId x)
    (an_ContentType x) (an_ContentLength x) (an_Notes x) v (an_CreatedAt x)
    (an_UpdatedAt x).

Definition set_log_ExecutionRequestSentTs (v : Z) (x : SagaStepExecutionLog) : SagaStepExecutionLog :=
  mkSagaStepExecutionLog (log_NextExecutionTs x) v (log_ExecutionTimeoutTs
    x) (log_ExecutionResultReceivedTs x) (log_LogConclusionTs x)
    (log_ExecutionResult x) (log_ExecutionError x) (log_IsCompensation x)
    (log_Metadata x).

Definition set_log_ExecutionTimeoutTs (v : Z) (x : SagaStepExecutionLog) : SagaStepExecutionLog :=
  mkSagaStepExecutionLog (log_NextExecutionTs x) (log_ExecutionRequestSentTs
    x) v (log_ExecutionResultReceivedTs x) (log_LogConclusionTs x)
    (log_ExecutionResult x) (log_ExecutionError x) (log_IsCompensation x)
    (log_Metadata x).

Definition set_log_ExecutionResultReceivedTs (v : Z) (x : SagaStepExecutionLog) : SagaStepExecutionLog :=
  mkSagaStepExecutionLog (log_NextExecutionTs x) (log_ExecutionRequestSentTs
    x) (log_ExecutionTimeoutTs x) v (log_LogConclusionTs x)
    (log_ExecutionResult x) (log_ExecutionError x) (log_IsCompensation x)
    (log_Metadata x).

Definition set_log_LogConclusionTs (v : Z) (x : SagaStepExecutionLog) : SagaStepExecutionLog :=
  mkSagaStepExecutionLog (log_NextExecutionTs x) (log_ExecutionRequestSentTs
    x) (log_ExecutionTimeoutTs x) (log_ExecutionResultReceivedTs x) v
    (log_ExecutionResult x) (log_ExecutionError x) (log_IsCompensation x)
    (log_Metadata x).

Definition set_log_ExecutionResult (v : gmap string string) (x : SagaStepExecutionLog) : SagaStepExecutionLog :=
  mkSagaStepExecutionLog (log_NextExecutionTs x) (log_ExecutionRequestSentTs
    x) (log_ExecutionTimeoutTs x) (log_ExecutionResultReceivedTs x)
    (log_LogConclusionTs x) v (log_ExecutionError x) (log_IsCompensation x)
    (log_Metadata x).

Definition set_ssi_ClusterId (v : string) (x : SagaStepInstance) : SagaStepInstance :=
  mkSagaStepInstance (ssi_InstanceId x) v (ssi_ZoneId x) (ssi_SagaInstanceId
    x) (ssi_TraceId x) (ssi_ExecutionId x) (ssi_Labels x) (ssi_Tags x)
    (ssi_Metadata x) (ssi_Affinity x) (ssi_State x) (ssi_Result x)
    (ssi_CompensationResult x) (ssi_SagaTemplateId x)
    (ssi_SagaStepTemplateId x) (ssi_PreviousSagaStepInstanceId x)
    (ssi_NextSagaStepInstanceId x) (ssi_ExecutionHistory x) (ssi_CreatedAt
    x) (ssi_UpdatedAt x).

Definition set_ssi_ExecutionId (v : string) (x : SagaStepInstance) : SagaStepInstance :=
  mkSagaStepInstance (ssi_InstanceId x) (ssi_ClusterId x) (ssi_ZoneId x)
    (ssi_SagaInstanceId x) (ssi_TraceId x) v (ssi_Labels x) (ssi_Tags x)
    (ssi_Metadata x) (ssi_Affinity x) (ssi_State x) (ssi_Result x)
    (ssi_CompensationResult x) (ssi_SagaTemplateId x)
    (ssi_SagaStepTemplateId x) (ssi_PreviousSagaStepInstanceId x)
    (ssi_NextSagaStepInstanceId x) (ssi_ExecutionHistory x) (ssi_CreatedAt
    x) (ssi_UpdatedAt x).

Definition set_ssi_State (v : SagaStepStateEnum) (x : SagaStepInstance) : SagaStepInstance :=
  mkSagaStepInstance (ssi_InstanceId x) (ssi_ClusterId x) (ssi_ZoneId x)
    (ssi_SagaInstanceId x) (ssi_TraceId x) (ssi_ExecutionId x) (ssi_Labels
    x) (ssi_Tags x) (ssi_Metadata x) (ssi_Affinity x) v (ssi_Result x)
    (ssi_CompensationResult x) (ssi_SagaTemplateId x)
    (ssi_SagaStepTemplateId x) (ssi_PreviousSagaStepInstanceId x)
    (ssi_NextSagaStepInstanceId x) (ssi_ExecutionHistory x) (ssi_CreatedAt
    x) (ssi_UpdatedAt x).

Definition set_ssi_Result (v : gmap string string) (x : SagaStepInstance) : SagaStepInstance :=
  mkSagaStepInstance (ssi_InstanceId x) (ssi_ClusterId x) (ssi_ZoneId x)
    (ssi_SagaInstanceId x) (ssi_TraceId x) (ssi_ExecutionId x) (ssi_Labels
    x) (ssi_Tags x) (ssi_Metadata x) (ssi_Affinity x) (ssi_State x) v
    (ssi_CompensationResult x) (ssi_SagaTemplateId x)
    (ssi_SagaStepTemplateId x) (ssi_PreviousSagaStepInstanceId x)
    (ssi_NextSagaStepInstanceId x) (ssi_ExecutionHistory x) (ssi_CreatedAt
    x) (ssi_UpdatedAt x).

Definition set_ssi_CompensationResult (v : gmap string string) (x : SagaStepInstance) : SagaStepInstance :=
  mkSagaStepInstance (ssi_InstanceId x) (ssi_ClusterId x) (ssi_ZoneId x)
    (ssi_SagaInstanceId x) (ssi_TraceId x) (ssi_ExecutionId x) (ssi_Labels
    x) (ssi_Tags x) (ssi_Metadata x) (ssi_Affinity x) (ssi_State x)
    (ssi_Result x) v (ssi_SagaTemplateId x) (ssi_SagaStepTemplateId x)
    (ssi_PreviousSagaStepInstanceId x) (ssi_NextSagaStepInstanceId x)
    (ssi_ExecutionHistory x) (ssi_CreatedAt x) (ssi_UpdatedAt x).

Definition set_ssi_PreviousSagaStepInstanceId (v : string) (x : SagaStepInstance) : SagaStepInstance :=
  mkSagaStepInstance (ssi_InstanceId x) (ssi_ClusterId x) (ssi_ZoneId x)
    (ssi_SagaInstanceId x) (ssi_TraceId x) (ssi_ExecutionId x) (ssi_Labels
    x) (ssi_Tags x) (ssi_Metadata x) (ssi_Affinity x) (ssi_State x)
    (ssi_Result x) (ssi_CompensationResult x) (ssi_SagaTemplateId x)
    (ssi_SagaStepTemplateId x) v (ssi_NextSagaStepInstanceId x)
    (ssi_ExecutionHistory x) (ssi_CreatedAt x) (ssi_UpdatedAt x).

Definition set_ssi_NextSagaStepInstanceId (v : string) (x : SagaStepInstance) : SagaStepInstance :=
  mkSagaStepInstance (ssi_InstanceId x) (ssi_ClusterId x) (ssi_ZoneId x)
    (ssi_SagaInstanceId x) (ssi_TraceId x) (ssi_ExecutionId x) (ssi_Labels
    x) (ssi_Tags x) (ssi_Metadata x) (ssi_Affinity x) (ssi_State x)
    (ssi_Result x) (ssi_CompensationResult x) (ssi_SagaTemplateId x)
    (ssi_SagaStepTemplateId x) (ssi_PreviousSagaStepInstanceId x) v
    (ssi_ExecutionHistory x) (ssi_CreatedAt x) (ssi_UpdatedAt x).

Definition set_ssi_ExecutionHistory (v : list SagaStepExecutionLog) (x : SagaStepInstance) : SagaStepInstance :=
  mkSagaStepInstance (ssi_InstanceId x) (ssi_ClusterId x) (ssi_ZoneId x)
    (ssi_SagaInstanceId x) (ssi_TraceId x) (ssi_ExecutionId x) (ssi_Labels
    x) (ssi_Tags x) (ssi_Metadata x) (ssi_Affinity x) (ssi_State x)
    (ssi_Result x) (ssi_CompensationResult x) (ssi_SagaTemplateId x)
    (ssi_SagaStepTemplateId x) (ssi_PreviousSagaStepInstanceId x)
    (ssi_NextSagaStepInstanceId x) v (ssi_CreatedAt x) (ssi_UpdatedAt x).

Definition set_ssi_CreatedAt (v : Z) (x : SagaStepInstance) : SagaStepInstance :=
  mkSagaStepInstance (ssi_InstanceId x) (ssi_ClusterId x) (ssi_ZoneId x)
    (ssi_SagaInstanceId x) (ssi_TraceId x) (ssi_ExecutionId x) (ssi_Labels
    x) (ssi_Tags x) (ssi_Metadata x) (ssi_Affinity x) (ssi_State x)
    (ssi_Result x) (ssi_CompensationResult x) (ssi_SagaTemplateId x)
    (ssi_SagaStepTemplateId x) (ssi_PreviousSagaStepInstanceId x)
    (ssi_NextSagaStepInstanceId x) (ssi_ExecutionHistory x) v (ssi_UpdatedAt
    x).

Definition set_ssi_UpdatedAt (v : Z) (x : SagaStepInstance) : SagaStepInstance :=
  mkSagaStepInstance (ssi_InstanceId x) (ssi_ClusterId x) (ssi_ZoneId x)
    (ssi_SagaInstanceId x) (ssi_TraceId x) (ssi_ExecutionId x) (ssi_Labels
    x) (ssi_Tags x) (ssi_Metadata x) (ssi_Affinity x) (ssi_State x)
    (ssi_Result x) (ssi_CompensationResult x) (ssi_SagaTemplateId x)
    (ssi_SagaStepTemplateId x) (ssi_PreviousSagaStepInstanceId x)
    (ssi_NextSagaStepInstanceId x) (ssi_ExecutionHistory x) (ssi_CreatedAt
    x) v.

(** ** Concrete sagas

    The data on which the examples of the development run: a saga of one
    cluster with steps in given states. *)

Definition sample_step (id prev next : string) (state : SagaStepStateEnum)
    (history : list SagaStepExecutionLog) : SagaStepInstance :=
  mkSagaStepInstance id "main" "z1" "s1" "t1" "" ∅ [] ∅ "default" state ∅ ∅
    "order" ("order_" +:+ id) prev next history 0 0.

Definition sample_saga (state : SagaStateEnum) (reason : string) : SagaInstance :=
  mkSagaInstance "s1" "main" "z1" "t1" "e1" "sub1" "" "" ∅ [] ∅ state "order"
    (<["amount" := "10"]> ∅) ["a"; "b"; "c"] "" "" "s1" 0 reason None 0 0.

Definition sample_log (sentTs timeoutTs : Z) (isCompensation : bool) : SagaStepExecutionLog :=
  mkSagaStepExecutionLog 0 sentTs timeoutTs 0 0 ∅ "" isCompensation ∅.

(** The three steps [a], [b] and [c] in the given states, with no history. *)
Definition sample_steps (sa sb sc : SagaStepStateEnum) : list SagaStepInstance :=
  [sample_step "a" "" "b" sa []; sample_step "b" "a" "c" sb []; sample_step "c" "b" "" sc []].
