(* ===== verification/Lock.v ===== *)
(** * The distributed lock

    [Mutex], [MultiMutex], [AcquireMultiLock] and [ReleaseMultiLock] of
    [pkg/cache/redis_impl.go], and what a group of processes that use [Mutex] at
    the same time can do.  Of Redis only the documented behaviour of [SET NX]
    with a time to live and of [DEL] is used (class [RedisLaws]); a request or
    its reply may be lost. *)

From S2P Require Import Prelude GoMonad Model.

Local Open Scope go_scope.

(** ** Redis *)

(** Times are milliseconds.  [held t key r]: [key] is there at time [t]. *)
Class Redis (R : Type) := {
  SetNX : Z → string → Z → R → bool * R;
  Del : string → R → R;
  held : Z → string → R → bool;
}.

(** A key with a time to live of zero stays; no key comes back by itself. *)
Class RedisLaws (R : Type) `{!Redis R} : Prop := {
  held_mono now t key (r : R) : (now ≤ t)%Z → held t key r = true → held now key r = true;
  SetNX_taken now key ttl (r : R) : held now key r = true →
    (SetNX now key ttl r).1 = false ∧
    ∀ t k, (now ≤ t)%Z → held t k (SetNX now key ttl r).2 = held t k r;
  SetNX_free now key ttl (r : R) : held now key r = false →
    (SetNX now key ttl r).1 = true ∧
    ∀ t k, (now ≤ t)%Z → held t k (SetNX now key ttl r).2 =
      if decide (k = key) then bool_decide (ttl = 0 ∨ t < now + ttl)%Z else held t k r;
  held_Del t k key (r : R) :
    held t k (Del key r) = if decide (k = key) then false else held t k r;
}.

(** ** The world of a lock user *)

Inductive Fault := NoFault | RequestLost | ReplyLost.

(** What happened, in order: keys taken, keys given back, the callback. *)
Inductive LockEvent := Locked (key : string) | Unlocked (key : string).

Record LockWorld (R S : Type) := mkLockWorld {
  lw_redis : R;
  lw_tick : nat;
  lw_events : list LockEvent;
  lw_user : S;
}.
Arguments mkLockWorld {R S}.
Arguments lw_redis {R S}.
Arguments lw_tick {R S}.
Arguments lw_events {R S}.
Arguments lw_user {R S}.

(** The clock and the network, as answers to the questions asked so far. *)
Record LockEnv := mkLockEnv {
  le_now : nat → Z;
  le_fault : nat → Fault;
}.

(** One look at the answer of the lock: it is had, or the attempt is given
    up, or it is repeated after a pause. *)
Inductive Attempt := AttemptAcquired | AttemptFailed (msg : string) | AttemptRetry.

(** What a function says when it gives up: on an error, because the lock is
    taken, because of the time. *)
Record LockTexts := mkLockTexts { lt_error : string; lt_taken : string; lt_timeout : string }.

Definition mutex_texts : LockTexts :=
  mkLockTexts "error while locking mutex " "lock already held by another coordinator for mutex "
    "timeout while locking mutex ".
Definition acquire_texts : LockTexts :=
  mkLockTexts "AcquireMultiLock: error while locking " "AcquireMultiLock: lock already held for "
    "AcquireMultiLock: timeout while locking ".

(** The loop body of [Mutex] after [lockMutex].  Times are in seconds. *)
Definition judge (texts : LockTexts) (key : string) (timeoutSec startTs nowTs : Z)
    (acquired : result bool) : Attempt :=
  match acquired with
  | Ok true => AttemptAcquired
  | Err _ | Ok false =>
      if decide (timeoutSec = 0)%Z then
        AttemptFailed (match acquired with Err _ => lt_error texts | Ok _ => lt_taken texts end +:+ key)
      else if (0 <? timeoutSec)%Z && (timeoutSec <=? wrap64 (nowTs - startTs))%Z
      then AttemptFailed (lt_timeout texts +:+ key)
      else AttemptRetry
  end.

Definition unix (ms : Z) : Z := (ms `div` 1000)%Z.

Section mutex.
Context {R S : Type} `{!Redis R} (env : LockEnv).

#[local] Notation Go := (M (LockWorld R S)).
Implicit Types (w : LockWorld R S).

Definition ask : Go nat := λ w,
  (Ret (lw_tick w), mkLockWorld (lw_redis w) (1 + lw_tick w) (lw_events w) (lw_user w)).

Definition with_redis (f : R → R) : Go unit :=
  modify (λ w, mkLockWorld (f (lw_redis w)) (lw_tick w) (lw_events w) (lw_user w)).

Definition record (ev : LockEvent) : Go unit :=
  modify (λ w, mkLockWorld (lw_redis w) (lw_tick w) (lw_events w ++ [ev]) (lw_user w)).

Definition now_unix : Go Z := n <- ask ;; ret (unix (le_now env n)).

(** [SETNX key "locked" EX ttl] *)
Definition lockMutex (key : string) (ttlSec : Z) : Go (result bool) :=
  n <- ask ;;
  match le_fault env n with
  | RequestLost => ret (Err (Errorf "network error"))
  | ReplyLost =>
      with_redis (λ r, (SetNX (le_now env n) key (ttlSec * 1000) r).2) ;;;
      ret (Err (Errorf "network error"))
  | NoFault =>
      w <- get_state ;;
      with_redis (λ r, (SetNX (le_now env n) key (ttlSec * 1000) r).2) ;;;
      ret (Ok (SetNX (le_now env n) key (ttlSec * 1000) (lw_redis w)).1)
  end.

(** [DEL key] *)
Definition unlockMutex (key : string) : Go (result unit) :=
  n <- ask ;;
  match le_fault env n with
  | RequestLost => ret (Err (Errorf "network error"))
  | ReplyLost => with_redis (Del key) ;;; ret (Err (Errorf "network error"))
  | NoFault => with_redis (Del key) ;;; ret (Ok tt)
  end.

(** [for { ... time.Sleep }]; out of fuel is out of time to wait. *)
Fixpoint lockLoop (texts : LockTexts) (fuel : nat) (key : string) (ttlSec timeoutSec startTs : Z) : Go (result unit) :=
  match fuel with
  | O => hang
  | Datatypes.S fuel =>
      acquired <- lockMutex key ttlSec ;;
      nowTs <- (match acquired with Ok true => ret 0%Z | _ => now_unix end) ;;
      match judge texts key timeoutSec startTs nowTs acquired with
      | AttemptAcquired => record (Locked key) ;;; ret (Ok tt)
      | AttemptFailed msg => ret (Err (Errorf msg))
      | AttemptRetry => lockLoop texts fuel key ttlSec timeoutSec startTs
      end
  end.

Definition unlock (key : string) : Go unit :=
  unlockMutex key ;;; record (Unlocked key).

Definition Mutex (fuel : nat) (key : string) (ttlSec timeoutSec : Z) (cb : Go unit) :
    Go (result unit) :=
  startTs <- now_unix ;;
  r <- lockLoop mutex_texts fuel key ttlSec timeoutSec startTs ;;
  match r with
  | Err err => ret (Err err)
  | Ok _ => with_defer cb (λ _, unlock key ;;; ret (Ok tt)) (unlock key)
  end.

(** ** Several locks *)

(** [sortStrings], one exchange after the other: [inner i j n s] runs the
    inner loop from [j] for [n] turns. *)
Definition exchange_step (i j : nat) (s : list string) : list string :=
  match s !! i, s !! j with
  | Some a, Some b => if String.leb a b then s else <[j := a]> (<[i := b]> s)
  | _, _ => s
  end.

Fixpoint sort_inner (i j n : nat) (s : list string) : list string :=
  match n with
  | O => s
  | Datatypes.S n => sort_inner i (Datatypes.S j) n (exchange_step i j s)
  end.

Fixpoint sort_outer (i n : nat) (s : list string) : list string :=
  match n with
  | O => s
  | Datatypes.S n => sort_outer (Datatypes.S i) n (sort_inner i (Datatypes.S i) (length s - Datatypes.S i) s)
  end.

Definition sortStrings (s : list string) : list string := sort_outer 0 (length s - 1) s.

(** Each key but those equal to the one before. *)
Fixpoint drop_repeats (last : option string) (l : list string) : list string :=
  match l with
  | [] => []
  | k :: l =>
      if bool_decide (last = Some k) then drop_repeats (Some k) l else k :: drop_repeats (Some k) l
  end.

Definition uniqueKeys (keys : list string) : list string := drop_repeats None (sortStrings keys).

(** The locks had so far are given back, the last one first. *)
Fixpoint releaseAll (acquired : list string) : Go unit :=
  match acquired with
  | [] => ret tt
  | key :: acquired => unlock key ;;; releaseAll acquired
  end.

(** [acquired] is the list of locks had, the last one first. *)
Fixpoint acquireAll (texts : LockTexts) (fuel : nat) (ttlSec timeoutSec startTs : Z)
    (keys acquired : list string) : Go (result (list string)) :=
  match keys with
  | [] => ret (Ok acquired)
  | key :: keys =>
      r <- lockLoop texts fuel key ttlSec timeoutSec startTs ;;
      match r with
      | Ok _ => acquireAll texts fuel ttlSec timeoutSec startTs keys (key :: acquired)
      | Err err => releaseAll acquired ;;; ret (Err err)
      end
  end.

Definition MultiMutex (fuel : nat) (keys : list string) (ttlSec timeoutSec : Z) (cb : Go unit) :
    Go (result unit) :=
  match keys with
  | [] => cb ;;; ret (Ok tt)
  | _ =>
      startTs <- now_unix ;;
      r <- acquireAll mutex_texts fuel ttlSec timeoutSec startTs (uniqueKeys keys) [] ;;
      match r with
      | Err err => ret (Err err)
      | Ok acquired => with_defer cb (λ _, releaseAll acquired ;;; ret (Ok tt)) (releaseAll acquired)
      end
  end.

Definition AcquireMultiLock (fuel : nat) (keys : list string) (ttlSec timeoutSec : Z) :
    Go (result unit) :=
  match keys with
  | [] => ret (Ok tt)
  | _ =>
      startTs <- now_unix ;;
      r <- acquireAll acquire_texts fuel ttlSec timeoutSec startTs (uniqueKeys keys) [] ;;
      ret (result_map (λ _, tt) r)
  end.

(** Every key is given back; the last error is reported. *)
Fixpoint releaseEach (keys : list string) (lastErr : result unit) : Go (result unit) :=
  match keys with
  | [] => ret lastErr
  | key :: keys =>
      r <- unlockMutex key ;;
      releaseEach keys (match r with Ok _ => lastErr | Err err => Err err end)
  end.

Definition ReleaseMultiLock (keys : list string) : Go (result unit) := releaseEach keys (Ok tt).
End mutex.

(** ** What the locks do

    The order in which several locks are taken, what a call leaves behind, and
    when [Mutex] gives up. *)

Local Open Scope go_scope.

(** ** Sorting *)

(** What an exchange of two places does to a list. *)
Lemma exchange_step_perm i j s : exchange_step i j s ≡ₚ s.
Proof.
  unfold exchange_step. destruct (s !! i) as [a|] eqn:Hi; [|done].
  destruct (s !! j) as [b|] eqn:Hj; [|done]. destruct (String.leb a b); [done|].
  destruct (decide (i = j)) as [->|Hij].
  { rewrite list_insert_insert_eq. by rewrite list_insert_id. }
  apply Permutation_inj. split; [by rewrite !length_insert|].
  exists (λ n, if decide (n = i) then j else if decide (n = j) then i else n). split.
  - intros n m. repeat case_decide; intros; subst; congruence.
  - intros n. pose proof (lookup_lt_Some _ _ _ Hi). pose proof (lookup_lt_Some _ _ _ Hj).
    repeat case_decide; subst.
    + rewrite list_lookup_insert_ne, list_lookup_insert_eq by done. done.
    + rewrite list_lookup_insert_eq by (by rewrite length_insert). done.
    + by rewrite !list_lookup_insert_ne by done.
Qed.

Lemma exchange_step_length i j s : length (exchange_step i j s) = length s.
Proof. by rewrite exchange_step_perm. Qed.

(** The places of [s] after an exchange, for two different places within. *)
Lemma exchange_step_lookup i j s a b n :
  i ≠ j → s !! i = Some a → s !! j = Some b →
  exchange_step i j s !! n =
    if String.leb a b then s !! n
    else if decide (n = i) then Some b else if decide (n = j) then Some a else s !! n.
Proof.
  intros Hij Hi Hj. unfold exchange_step. rewrite Hi, Hj. destruct (String.leb a b); [done|].
  pose proof (lookup_lt_Some _ _ _ Hi). pose proof (lookup_lt_Some _ _ _ Hj).
  repeat case_decide; subst.
  - by rewrite list_lookup_insert_ne, list_lookup_insert_eq.
  - by rewrite list_lookup_insert_eq by (by rewrite length_insert).
  - by rewrite !list_lookup_insert_ne.
Qed.

(** The first [i] places are in order and no greater than what follows. *)
Definition settled (i : nat) (s : list string) : Prop :=
  ∀ a b x y, a < i → a < b → s !! a = Some x → s !! b = Some y → String.le x y.

(** The string at [i] is no greater than those between [i] and [j]. *)
Definition least_until (i j : nat) (s : list string) : Prop :=
  ∀ b x y, i < b < j → s !! i = Some x → s !! b = Some y → String.le x y.

Lemma leb_le a b : String.leb a b = true → String.le a b.
Proof. unfold String.le. intros ->. done. Qed.

Lemma leb_gt a b : String.leb a b = false → String.le b a.
Proof. intros Hab. destruct (String.leb_total a b) as [?|?]; [congruence|by apply leb_le]. Qed.

Lemma exchange_step_settled i j s :
  i < j < length s → settled i s → least_until i j s →
  settled i (exchange_step i j s) ∧ least_until i (S j) (exchange_step i j s).
Proof.
  intros Hj Hs Hl.
  destruct (lookup_lt_is_Some_2 s i) as [a Ha]; [lia|].
  destruct (lookup_lt_is_Some_2 s j) as [b Hb]; [lia|].
  pose proof (λ n, exchange_step_lookup i j s a b n ltac:(lia) Ha Hb) as Hn.
  destruct (String.leb a b) eqn:Hab.
  - split.
    + intros p q x y Hp Hq. rewrite !Hn. by apply Hs.
    + intros q x y Hq. rewrite !Hn, Ha. intros [= <-] Hy.
      destruct (decide (q = j)) as [->|]; [|by apply (Hl q); [lia|..]].
      simplify_eq. by apply leb_le.
  - apply leb_gt in Hab. split.
    + intros p q x y Hp Hq. rewrite !Hn. repeat case_decide; intros; simplify_eq; try lia;
        (eapply Hs; [| |eassumption|eassumption]; lia).
    + intros q x y Hq. rewrite !Hn. repeat case_decide; intros; simplify_eq; try lia; [done|].
      trans a; [done|]. by apply (Hl q); [lia|..].
Qed.

Lemma sort_inner_settled i n : ∀ j s,
  i < j → j + n = length s → settled i s → least_until i j s →
  settled (S i) (sort_inner i j n s) ∧ sort_inner i j n s ≡ₚ s.
Proof.
  induction n as [|n IH]; intros j s Hij Hlen Hs Hl; simpl.
  - split; [|done]. intros a b x y Ha Hb Hx Hy.
    destruct (decide (a = i)) as [->|]; [|eapply Hs; [| |eassumption|eassumption]; lia].
    apply lookup_lt_Some in Hy as Hlt. by apply (Hl b); [lia|..].
  - destruct (exchange_step_settled i j s) as [Hs' Hl']; [lia|done..|].
    destruct (IH (S j) (exchange_step i j s)) as [Hs'' Hp]; [lia| |done..|].
    { rewrite exchange_step_length. lia. }
    split; [done|]. by rewrite Hp, exchange_step_perm.
Qed.

Lemma sort_outer_settled n : ∀ i s,
  i + n ≤ length s → settled i s → settled (i + n) (sort_outer i n s) ∧ sort_outer i n s ≡ₚ s.
Proof.
  induction n as [|n IH]; intros i s Hlen Hs; simpl; [by rewrite Nat.add_0_r|].
  destruct (sort_inner_settled i (length s - S i) (S i) s) as [Hs' Hp]; [lia|lia|done| |].
  { intros b x y ?. lia. }
  destruct (IH (S i) (sort_inner i (S i) (length s - S i) s)) as [Hs'' Hp'];
    [rewrite Hp; lia|done|].
  split; [by rewrite Nat.add_succ_r|]. by rewrite Hp'.
Qed.

Lemma settled_sorted s : settled (length s - 1) s → StronglySorted String.le s.
Proof.
  induction s as [|x s IH]; intros Hs; constructor.
  - apply IH. intros a b u v Ha Hb Hu Hv.
    apply lookup_lt_Some in Hv as Hlt. eapply (Hs (S a) (S b)); simpl; [lia|lia|done|done].
  - apply Forall_lookup_2. intros b y Hy. apply lookup_lt_Some in Hy as Hlt.
    eapply (Hs 0 (S b)); simpl; [lia|lia|done|done].
Qed.

Lemma sortStrings_sorts s : StronglySorted String.le (sortStrings s) ∧ sortStrings s ≡ₚ s.
Proof.
  unfold sortStrings. destruct (sort_outer_settled (length s - 1) 0 s) as [Hs Hp]; [lia|intros a b x y ?; lia|].
  split; [|done]. apply settled_sorted. by rewrite (Permutation_length Hp).
Qed.

(** Strictly increasing. *)
Definition str_lt (a b : string) : Prop := String.le a b ∧ a ≠ b.

Lemma drop_repeats_sorted o l :
  StronglySorted String.le l → (∀ k, o = Some k → Forall (String.le k) l) →
  StronglySorted str_lt (drop_repeats o l) ∧
  (∀ k, o = Some k → Forall (str_lt k) (drop_repeats o l)) ∧
  ∀ k, k ∈ drop_repeats o l ↔ k ∈ l ∧ o ≠ Some k.
Proof.
  intros Hs. revert o. induction Hs as [|x l Hs IH Hx]; intros o Ho; simpl.
  { split; [constructor|]. split; [constructor|]. set_solver. }
  destruct (IH (Some x)) as (Hso & Hlt & Hin); [by intros ? [= <-]|].
  case_bool_decide as Ho'.
  - split_and!; [done| |].
    + intros k ->. injection Ho' as ->. by apply Hlt.
    + intros k. rewrite Hin, elem_of_cons. subst o. split; [tauto|]. intros [[->|?] ?]; done.
  - split_and!.
    + constructor; [done|by apply Hlt].
    + intros k ->. specialize (Ho k eq_refl). apply Forall_cons in Ho as [Hkx Hkl].
      assert (k ≠ x) by congruence. constructor; [by split|].
      eapply Forall_impl; [by apply Hlt|]. intros y [Hxy Hne]. split; [by trans x|].
      intros ->. by apply H, (anti_symm String.le).
    + intros k. rewrite !elem_of_cons, Hin. split.
      * intros [->|[Hk Hne]]; [by split; [left|]|]. split; [by right|]. intros ->.
        specialize (Ho k eq_refl). apply Forall_cons in Ho as [Hkx _].
        by apply Hne; f_equal; apply (anti_symm String.le); [eapply Forall_forall|].
      * intros [[->|Hk] Hne]; [by left|]. destruct (decide (x = k)) as [->|]; [by left|].
        right. split; [done|]. congruence.
Qed.

Lemma uniqueKeys_spec keys :
  StronglySorted str_lt (uniqueKeys keys) ∧ ∀ k, k ∈ uniqueKeys keys ↔ k ∈ keys.
Proof.
  destruct (sortStrings_sorts keys) as [Hs Hp].
  destruct (drop_repeats_sorted None (sortStrings keys)) as (Hso & _ & Hin); [done|done|].
  split; [done|]. intros k. unfold uniqueKeys. rewrite Hin, Hp. set_solver.
Qed.

(** Whatever keys [MultiMutex] is given, in whatever order and with
    whatever repetitions, it takes each of them once and in increasing order:
    [sortStrings] sorts, and the loop after it leaves out exactly the repeated
    ones.  So two callers can never wait for each other. *)
Theorem locks_taken_in_order keys :
  (StronglySorted String.le (sortStrings keys) ∧ sortStrings keys ≡ₚ keys) ∧
  StronglySorted str_lt (uniqueKeys keys) ∧ ∀ k, k ∈ uniqueKeys keys ↔ k ∈ keys.
Proof. split; [apply sortStrings_sorts|apply uniqueKeys_spec]. Qed.

(** ** All or nothing *)

Section specs.
Context {R S : Type} `{!Redis R, !RedisLaws R} (env : LockEnv).
Context (clock : ∀ n m, n ≤ m → (le_now env n ≤ le_now env m)%Z).
Context (no_fault : ∀ n, le_fault env n = NoFault).
Implicit Types (w : LockWorld R S) (r : R).

(** The time at which a world stands. *)
Definition time_of w : Z := le_now env (lw_tick w).

(** Nobody can tell [r'] from [r] from time [t0] on. *)
Definition same_from (t0 : Z) r r' : Prop := ∀ t k, (t0 ≤ t)%Z → held t k r' = held t k r.

Lemma same_from_refl t0 r : same_from t0 r r.
Proof. done. Qed.

Lemma same_from_trans t0 t1 r1 r2 r3 :
  (t0 ≤ t1)%Z → same_from t0 r1 r2 → same_from t1 r2 r3 → same_from t1 r1 r3.
Proof. intros Ht H12 H23 t k Hk. rewrite H23 by done. apply H12. lia. Qed.

(** [w'] comes after [w], as far as the clock and the user's data go. *)
Definition later w w' : Prop := lw_tick w ≤ lw_tick w' ∧ lw_user w' = lw_user w.

Lemma later_time w w' : later w w' → (time_of w ≤ time_of w')%Z.
Proof. intros [Ht _]. by apply clock. Qed.

(** [key] was free and has been taken at some time in between. *)
Definition taken (key : string) (ttlSec : Z) w w' : Prop :=
  ∃ n, lw_tick w ≤ n ≤ lw_tick w' ∧ held (le_now env n) key (lw_redis w) = false ∧
    ∀ t k, (time_of w' ≤ t)%Z → held t k (lw_redis w') =
      if decide (k = key) then bool_decide (ttlSec = 0 ∨ t < le_now env n + ttlSec * 1000)%Z
      else held t k (lw_redis w).

Definition lock_post (key : string) (ttlSec : Z) w (o : outcome (result unit)) w' : Prop :=
  later w w' ∧
  match o with
  | Ret (Ok _) => taken key ttlSec w w' ∧ lw_events w' = lw_events w ++ [Locked key]
  | Ret (Err _) => same_from (time_of w') (lw_redis w) (lw_redis w') ∧ lw_events w' = lw_events w
  | Panic _ => False
  | Hang => True
  end.

Lemma lockLoop_spec texts fuel key ttlSec timeoutSec startTs w :
  wp (lockLoop env texts fuel key ttlSec timeoutSec startTs) (lock_post key ttlSec w) w.
Proof.
  revert w. induction fuel as [|fuel IH]; intros w.
  { by repeat split. }
  cbn [lockLoop]. apply wp_bind_ret. unfold lockMutex, ask, with_redis, get_state, modify, bind, ret, wp.
  rewrite no_fault. simpl.
  destruct (held (time_of w) key (lw_redis w)) eqn:Hh; unfold time_of in Hh.
  - destruct (SetNX_taken _ key (ttlSec * 1000) _ Hh) as [-> Hsame]. simpl.
    set (w1 := mkLockWorld _ _ _ _).
    assert (Hl : later w w1) by (split; simpl; [lia|done]).
    assert (Hs : same_from (time_of w1) (lw_redis w) (lw_redis w1)).
    { intros t k Ht. apply Hsame. unfold time_of in Ht. pose proof (clock (lw_tick w) (lw_tick w1)).
      simpl in *. lia. }
    assert (Hagain : wp (lockLoop env texts fuel key ttlSec timeoutSec startTs)
      (lock_post key ttlSec w) w1).
    { specialize (IH w1). revert IH. apply wp_mono. intros o w2 [Hl2 Ho].
      assert (Hl' : later w w2) by (destruct Hl, Hl2; split; [lia|congruence]).
      split; [done|]. destruct o as [[[]|err]|msg|]; [|destruct Ho as [Ho ->]|done|done].
      - destruct Ho as [(n & Hn & Hfree & Hheld) ->]. split; [|done]. exists n.
        destruct Hl as [Hl _], Hl2 as [Hl2 _].
        pose proof (clock (lw_tick w1) n). pose proof (clock (lw_tick w1) (lw_tick w2)).
        assert (Hf : held (le_now env n) key (lw_redis w) = false).
        { rewrite <-Hfree. symmetry. apply Hs. apply clock. lia. }
        split; [lia|]. split; [exact Hf|].
        intros t k Ht. rewrite Hheld by done. destruct (decide (k = key)); [done|]. apply Hs.
        unfold time_of in *. lia.
      - split; [|done]. eapply same_from_trans; [by apply later_time|done|done]. }
    unfold judge. assert (Hstop : ∀ e, lock_post key ttlSec w (Ret (Err e)) w1) by (intros e; split; [exact Hl|by split]).
    destruct (decide (timeoutSec = 0)%Z); [apply Hstop|].
    destruct (_ && _)%bool; [apply Hstop|exact Hagain].
  - destruct (SetNX_free _ key (ttlSec * 1000) _ Hh) as [-> Hfree]. simpl. unfold record, bind, modify, ret. simpl.
    split; [split; simpl; [lia|done]|]. split; [|done]. exists (lw_tick w). simpl.
    split; [lia|]. split; [done|]. intros t k Ht. unfold time_of in Ht. simpl in Ht.
    pose proof (clock (lw_tick w) (Datatypes.S (lw_tick w))).
    rewrite Hfree by lia. destruct (decide (k = key)); [|done]. apply bool_decide_ext.
    split; intros [?|?]; [left|right|left|right]; lia.
Qed.

Lemma unlock_spec key w :
  wp (unlock env key) (λ o w', o = Ret tt ∧ later w w' ∧
    lw_events w' = lw_events w ++ [Unlocked key] ∧
    ∀ t k, held t k (lw_redis w') = if decide (k = key) then false else held t k (lw_redis w)) w.
Proof.
  unfold unlock, unlockMutex, ask, with_redis, modify, record, bind, ret, wp. rewrite no_fault. simpl.
  split; [done|]. split; [split; simpl; [lia|done]|]. split; [done|]. intros t k. apply held_Del.
Qed.

Lemma releaseAll_spec acquired w :
  wp (releaseAll env acquired) (λ o w', o = Ret tt ∧ later w w' ∧
    lw_events w' = lw_events w ++ (Unlocked <$> acquired) ∧
    ∀ t k, held t k (lw_redis w') = if decide (k ∈ acquired) then false else held t k (lw_redis w)) w.
Proof.
  revert w. induction acquired as [|key acquired IH]; intros w.
  { unfold wp. simpl. split; [done|]. split; [done|]. by rewrite app_nil_r. }
  cbn [releaseAll]. apply wp_bind. pose proof (unlock_spec key w) as Hu. revert Hu.
  apply wp_mono. intros o w1 (-> & Hl & He & Hr). specialize (IH w1). revert IH.
  apply wp_mono. intros o w2 (-> & Hl2 & He2 & Hr2). split; [done|].
  split; [destruct Hl, Hl2; split; [lia|congruence]|]. split.
  { rewrite He2, He, <-(assoc_L (++)). done. }
  intros t k. rewrite Hr2, Hr. repeat case_decide; set_solver.
Qed.

(** While several locks are being taken: [acquired] have been taken since
    [w0], the rest is as it was. *)
Record acquiring (ttlSec : Z) w0 (acquired : list string) w : Prop := {
  acq_later : later w0 w;
  acq_events : lw_events w = lw_events w0 ++ (Locked <$> reverse acquired);
  acq_free k t : k ∈ acquired → (time_of w ≤ t)%Z → held t k (lw_redis w0) = false;
  acq_rest k t : k ∉ acquired → (time_of w ≤ t)%Z → held t k (lw_redis w) = held t k (lw_redis w0);
  acq_held k : k ∈ acquired → ∃ n, lw_tick w0 ≤ n ≤ lw_tick w ∧
    ∀ t, (time_of w ≤ t)%Z →
      held t k (lw_redis w) = bool_decide (ttlSec = 0 ∨ t < le_now env n + ttlSec * 1000)%Z;
}.

Lemma later_trans w1 w2 w3 : later w1 w2 → later w2 w3 → later w1 w3.
Proof. intros [] []. split; [lia|congruence]. Qed.

Lemma acquiring_more ttlSec w0 acquired w key w' :
  acquiring ttlSec w0 acquired w → key ∉ acquired → later w w' → taken key ttlSec w w' →
  lw_events w' = lw_events w ++ [Locked key] → acquiring ttlSec w0 (key :: acquired) w'.
Proof.
  intros [Hl He Hf Hr Hh] Hni Hl' (n & Hn & Hfree & Htaken) He'.
  pose proof (later_time _ _ Hl') as Ht.
  assert (Hwn : (time_of w ≤ le_now env n)%Z) by (apply clock; lia).
  assert (Hnw : (le_now env n ≤ time_of w')%Z) by (apply clock; lia).
  split.
  - by eapply later_trans.
  - rewrite He', He, reverse_cons, fmap_app, <-(assoc_L (++)). done.
  - intros k t [->|Hk]%elem_of_cons Hkt; [|apply Hf; [done|lia]].
    destruct (held t key (lw_redis w0)) eqn:Ho; [|done].
    rewrite <-Hr in Ho by (done || lia). apply (held_mono (le_now env n)) in Ho; [congruence|lia].
  - intros k t [Hne Hk]%not_elem_of_cons Hkt. rewrite Htaken by done.
    destruct (decide (k = key)); [done|]. apply Hr; [done|lia].
  - intros k Hk. destruct (decide (k = key)) as [->|Hne].
    + exists n. destruct Hl, Hl'. split; [lia|]. intros t Hkt. rewrite Htaken by done.
      by destruct (decide (key = key)).
    + destruct (Hh k) as (n' & Hn' & Hk'); [by apply elem_of_cons in Hk as [?|?]|].
      exists n'. destruct Hl'. split; [lia|]. intros t Hkt. rewrite Htaken by done.
      destruct (decide (k = key)); [done|]. apply Hk'. lia.
Qed.

Lemma acquireAll_spec texts fuel ttlSec timeoutSec startTs w0 keys : ∀ acquired w,
  acquiring ttlSec w0 acquired w → NoDup keys → (∀ k, k ∈ keys → k ∉ acquired) →
  wp (acquireAll env texts fuel ttlSec timeoutSec startTs keys acquired) (λ o w',
    match o with
    | Ret (Ok acquired') =>
        acquired' = reverse keys ++ acquired ∧ acquiring ttlSec w0 acquired' w'
    | Ret (Err _) => later w0 w' ∧ same_from (time_of w') (lw_redis w0) (lw_redis w')
    | Panic _ => False
    | Hang => True
    end) w.
Proof.
  induction keys as [|key keys IH]; intros acquired w Ha Hnd Hdis; cbn [acquireAll].
  { by apply wp_ret. }
  apply NoDup_cons in Hnd as [Hni Hnd]. apply wp_bind.
  pose proof (lockLoop_spec texts fuel key ttlSec timeoutSec startTs w) as Hspec. revert Hspec.
  apply wp_mono. intros [[[]|err]|msg|] w1; [|intros [Hl [Hsame He]]|by intros []|done].
  - intros [Hl [Ht He]].
    assert (Ha1 : acquiring ttlSec w0 (key :: acquired) w1)
      by (eapply acquiring_more; [done|set_solver|done..]).
    eapply wp_mono; [|apply (IH (key :: acquired) w1 Ha1 Hnd); set_solver].
    intros [[acq'|err]|msg|] w2; [|done..]. intros [-> Ha2].
    by rewrite reverse_cons, <-(assoc_L (++)).
  - apply wp_bind. pose proof (releaseAll_spec acquired w1) as Hrel. revert Hrel. apply wp_mono.
    intros o w2 (-> & Hl2 & _ & Hr2). apply wp_ret.
    pose proof (acq_later _ _ _ _ Ha). pose proof (later_time _ _ Hl). pose proof (later_time _ _ Hl2).
    split; [by eapply later_trans; [|eapply later_trans]|].
    intros t k Hkt. rewrite Hr2. case_decide as Hk.
    + symmetry. eapply acq_free; [done|done|lia].
    + rewrite Hsame by lia. eapply acq_rest; [done|done|lia].
Qed.

Lemma acquiring_start ttlSec w : acquiring ttlSec w [] w.
Proof.
  split.
  - by split.
  - by rewrite app_nil_r.
  - set_solver.
  - done.
  - set_solver.
Qed.

Lemma str_lt_nodup l : StronglySorted str_lt l → NoDup l.
Proof.
  induction 1 as [|x l Hs IH Hx]; constructor; [|done]. intros Hin.
  rewrite Forall_forall in Hx. by destruct (Hx x Hin).
Qed.

Lemma acquire_unique texts fuel ttlSec timeoutSec startTs keys w :
  wp (acquireAll env texts fuel ttlSec timeoutSec startTs (uniqueKeys keys) []) (λ o w',
    match o with
    | Ret (Ok acquired) =>
        acquired = reverse (uniqueKeys keys) ∧ acquiring ttlSec w acquired w'
    | Ret (Err _) => later w w' ∧ same_from (time_of w') (lw_redis w) (lw_redis w')
    | Panic _ => False
    | Hang => True
    end) w.
Proof.
  eapply wp_mono; [|apply acquireAll_spec; [apply acquiring_start| |set_solver]].
  - intros [[acq|err]|msg|] w'; [|done..]. by rewrite app_nil_r.
  - apply str_lt_nodup, uniqueKeys_spec.
Qed.

(** What a call of [MultiMutex] amounts to: no lock is had, the callback has
    not run, and no one can tell that the call was made; or the callback ran
    once with every lock taken in between, and however it ended, the locks have
    been given back, the last one first. *)
Definition multi_post (keys : list string) (ttlSec : Z) (cb : M (LockWorld R S) unit) w
    (o : outcome (result unit)) w' : Prop :=
  match o with Ret (Err _) => later w w' ∧ same_from (time_of w') (lw_redis w) (lw_redis w') | _ =>
    o = Hang ∨ ∃ w0 w1, later w w0 ∧ lw_redis w0 = lw_redis w ∧ lw_events w0 = lw_events w ∧
      acquiring ttlSec w0 (reverse (uniqueKeys keys)) w1 ∧
      match cb w1 with
      | (Hang, _) => o = Hang
      | (Ret _, w2) | (Panic _, w2) =>
          match (cb w1).1 with Panic msg => o = Panic msg | _ => o = Ret (Ok tt) end ∧
          lw_events w' = lw_events w2 ++ (Unlocked <$> reverse (uniqueKeys keys)) ∧
          ∀ t k, held t k (lw_redis w') =
            if decide (k ∈ keys) then false else held t k (lw_redis w2)
      end
  end.

Lemma MultiMutex_spec fuel keys ttlSec timeoutSec cb w :
  keys ≠ [] →
  wp (MultiMutex env fuel keys ttlSec timeoutSec cb) (multi_post keys ttlSec cb w) w.
Proof.
  intros Hne. unfold MultiMutex. destruct keys as [|key0 keys0]; [done|].
  set (keys := key0 :: keys0). apply wp_bind.
  set (w0 := mkLockWorld (lw_redis w) (1 + lw_tick w) (lw_events w) (lw_user w)).
  change (wp (r <- acquireAll env mutex_texts fuel ttlSec timeoutSec
                (unix (le_now env (lw_tick w))) (uniqueKeys keys) [] ;;
              match r with
              | Err err => ret (Err err)
              | Ok acquired =>
                  with_defer cb (λ _, releaseAll env acquired ;;; ret (Ok tt)) (releaseAll env acquired)
              end) (multi_post keys ttlSec cb w) w0).
  assert (Hl0 : later w w0) by (split; simpl; [lia|done]). apply wp_bind.
  pose proof (acquire_unique mutex_texts fuel ttlSec timeoutSec
    (unix (le_now env (lw_tick w))) keys w0) as Hacq. revert Hacq. apply wp_mono.
  intros [[acq|err]|msg|] w1; [| | |]. 3: { intros []. } 3: { intros _. by left. }
  - intros [-> Ha]. unfold wp, with_defer. unfold multi_post.
    assert (Hrel : ∀ w2, ∃ w3, releaseAll env (reverse (uniqueKeys keys)) w2 = (Ret tt, w3) ∧
      lw_events w3 = lw_events w2 ++ (Unlocked <$> reverse (uniqueKeys keys)) ∧
      ∀ t k, held t k (lw_redis w3) = if decide (k ∈ keys) then false else held t k (lw_redis w2)).
    { intros w2. pose proof (releaseAll_spec (reverse (uniqueKeys keys)) w2) as Hr. unfold wp in Hr.
      destruct (releaseAll _ _ w2) as [o w3] eqn:Ho. simpl in Hr. destruct Hr as (-> & _ & He & Hr).
      exists w3. split; [done|]. split; [done|]. intros t k. rewrite Hr.
      assert (Hin : k ∈ reverse (uniqueKeys keys) ↔ k ∈ keys)
        by (rewrite elem_of_reverse; apply uniqueKeys_spec).
      repeat case_decide; tauto. }
    destruct (cb w1) as [[[]|msg|] w2] eqn:Hcb; simpl.
    + destruct (Hrel w2) as (w3 & Hr & He & Hh).
      assert ((releaseAll env (reverse (uniqueKeys keys)) ;;; ret (Ok tt)) w2 = (Ret (Ok tt), w3)) as ->
        by (unfold bind; by rewrite Hr).
      simpl. right. exists w0, w1. rewrite Hcb. by split_and!.
    + destruct (Hrel w2) as (w3 & Hr & He & Hh).
      assert (bind (releaseAll env (reverse (uniqueKeys keys))) (λ _, @panic _ (result unit) msg) w2 =
        (Panic msg, w3)) as -> by (unfold bind; by rewrite Hr).
      simpl. right. exists w0, w1. rewrite Hcb. by split_and!.
    + by left.
  - intros [Hl Hs]. apply wp_ret. split; [by eapply later_trans|]. done.
Qed.
End specs.


(** ** Giving up *)

Section termination.
Context {R S : Type} `{!Redis R} (env : LockEnv).
(** Two questions are asked in each turn, and a turn takes a second. *)
Context (pause : ∀ n, (le_now env n + 1000 ≤ le_now env (2 + n))%Z).
Context (last : nat) (sane : ∀ n, n ≤ last → (0 ≤ le_now env n < 2 ^ 62)%Z).
Implicit Types (w : LockWorld R S).

Lemma unix_range n : n ≤ last → (0 ≤ unix (le_now env n) < 2 ^ 62)%Z.
Proof.
  intros Hn. specialize (sane n Hn). unfold unix. split; [by apply Z.div_pos; lia|].
  apply Z.div_lt_upper_bound; lia.
Qed.

Lemma unix_pause n : (unix (le_now env n) + 1 ≤ unix (le_now env (2 + n)))%Z.
Proof.
  unfold unix. rewrite <-(Z.div_add _ 1 1000) by lia. apply Z.div_le_mono; [lia|].
  specialize (pause n). lia.
Qed.

Lemma lockMutex_tick key ttlSec w :
  wp (lockMutex env key ttlSec) (returns (λ _ w', lw_tick w' = Datatypes.S (lw_tick w))) w.
Proof.
  unfold lockMutex, ask, with_redis, modify, get_state, bind, ret, wp. simpl.
  by destruct (le_fault env (lw_tick w)).
Qed.

Lemma lockLoop_ends texts fuel key ttlSec timeoutSec startTs w :
  (0 ≤ timeoutSec)%Z → (0 ≤ startTs < 2 ^ 62)%Z → 0 < fuel → lw_tick w + 2 * fuel ≤ last + 1 →
  (timeoutSec ≤ unix (le_now env (Datatypes.S (lw_tick w))) - startTs + Z.of_nat (fuel - 1))%Z →
  wp (lockLoop env texts fuel key ttlSec timeoutSec startTs) (returns (λ _ _, True)) w.
Proof.
  intros Ht Hstart. revert w. induction fuel as [|fuel IH]; intros w Hf Hlast Hd; [lia|].
  cbn [lockLoop]. apply wp_bind_ret. eapply wp_returns_mono; [|apply lockMutex_tick].
  intros acquired w1 Hw1. destruct acquired as [[]|err]; [done|..];
    apply wp_bind_ret; unfold now_unix, ask, bind, ret, wp, returns; cbn -[lockLoop Z.pow];
    rewrite Hw1; (destruct (decide (timeoutSec = 0)%Z); [done|]);
    pose proof (unix_range (Datatypes.S (lw_tick w)) ltac:(lia)) as Hu;
    rewrite wrap64_id by (unfold in_int64; lia);
    (destruct (0 <? timeoutSec)%Z eqn:Hpos; [|by apply Z.ltb_ge in Hpos; lia]);
    (destruct (timeoutSec <=? _)%Z eqn:Hle; [done|]); apply Z.leb_gt in Hle;
    pose proof (unix_pause (Datatypes.S (lw_tick w))) as Hp;
    (apply IH; [lia|cbn [lw_tick]; lia|]); cbn [lw_tick]; simpl in Hp; lia.
Qed.
End termination.

(** [Mutex] does not wait longer than it is told to: with a timeout of zero it
    tries once, with a timeout of [n] seconds at most [n] times more, whatever
    requests and replies are lost, as long as the clock moves on with each
    pause; it comes back unless its callback never does. *)
Theorem Mutex_gives_up {R S} `{!Redis R} env key ttlSec timeoutSec
    (cb : M (LockWorld R S) unit) w :
  (∀ n, (le_now env n + 1000 ≤ le_now env (2 + n))%Z) →
  (∀ n, n ≤ lw_tick w + 2 + 2 * Z.to_nat timeoutSec → (0 ≤ le_now env n < 2 ^ 62)%Z) →
  (∀ n, (le_now env n ≤ le_now env (1 + n))%Z) →
  (0 ≤ timeoutSec)%Z → (∀ w, (cb w).1 ≠ Hang) →
  (Mutex env (1 + Z.to_nat timeoutSec) key ttlSec timeoutSec cb w).1 ≠ Hang.
Proof.
  intros Hpause Hsane Hmono Ht Hcb. unfold Mutex.
  set (startTs := unix (le_now env (lw_tick w))).
  set (w0 := mkLockWorld (lw_redis w) (1 + lw_tick w) (lw_events w) (lw_user w)).
  unfold bind at 1. unfold now_unix at 1. cbn [ask bind ret]. fold startTs. fold w0.
  pose proof (unix_range env _ Hsane (lw_tick w) ltac:(lia)) as Hr. fold startTs in Hr.
  assert (Hge : (startTs ≤ unix (le_now env (2 + lw_tick w)))%Z).
  { unfold startTs, unix. apply Z.div_le_mono; [lia|].
    pose proof (Hmono (lw_tick w)). pose proof (Hmono (1 + lw_tick w)). simpl in *. lia. }
  pose proof (lockLoop_ends env Hpause _ Hsane mutex_texts (1 + Z.to_nat timeoutSec) key ttlSec
    timeoutSec startTs w0 Ht Hr ltac:(lia) ltac:(cbn [w0 lw_tick]; lia) ltac:(simpl in *; lia)) as Hl.
  apply ret_wp in Hl as (r & w1 & Hl & _). unfold bind at 1. rewrite Hl.
  destruct r as [[]|err]; [|done]. unfold with_defer. specialize (Hcb w1).
  destruct (cb w1) as [[[]|msg|] w2]; [| |done].
  - unfold unlock, unlockMutex, ask, with_redis, modify, record, bind, ret. simpl.
    by destruct (le_fault env (lw_tick w2)).
  - unfold unlock, unlockMutex, ask, with_redis, modify, record, bind, ret, panic. simpl.
    by destruct (le_fault env (lw_tick w2)).
Qed.
