(* ===== verification/LockUsers.v ===== *)
(** * Processes that share a lock

    Any number of calls of [Mutex] from [pkg/cache/redis_impl.go], in different
    processes, on one Redis: each call tries for its key with [lockMutex], runs
    its callback when it has it, and deletes the key with [unlockMutex] when the
    callback is over, at once or with a delay.  Requests and replies may be
    lost, requests may arrive after their caller has given up, and processes may
    die.

    The lock keeps its promise as long as every callback, together with the
    request that deletes its key, is done within the time to live, and that
    request is carried out at most once.  The coordinator's deadline of fifty
    seconds under a lock of sixty sees to the first; the second is up to the
    Redis client, which by its defaults sends a command again whose reply it
    has missed.  One call that does not keep to it breaks the lock for others,
    since [unlockMutex] deletes the key of whoever holds it. *)

From S2P Require Import Prelude GoMonad Model Lock.

(** ** The system *)

(** A call of [Mutex]: waiting for its key, in its callback, or past it with
    the deletion still to come, both since a given time; or over. *)
Inductive Call :=
  | Waiting (key : string) (ttlSec timeoutSec startTs : Z)
  | Inside (key : string) (ttlSec since : Z)
  | Releasing (key : string) (ttlSec since : Z)
  | Over.

Record Users (R : Type) := mkUsers { u_redis : R; u_now : Z; u_calls : list Call }.
Arguments mkUsers {R}.
Arguments u_redis {R}.
Arguments u_now {R}.
Arguments u_calls {R}.

(** A key taken at [since] is still there at [t]; a time to live of zero is
    no limit. *)
Definition lives (ttlSec since t : Z) : Prop := (ttlSec = 0 ∨ t < since + ttlSec * 1000)%Z.

(** At time [t] the call [c], if it has its key, is within its time. *)
Definition in_time (t : Z) (c : Call) : Prop :=
  match c with
  | Inside _ ttlSec since | Releasing _ ttlSec since => lives ttlSec since t
  | _ => True
  end.

(** One request at one moment, with a fault or without. *)
Definition moment (now : Z) (f : Fault) : LockEnv := mkLockEnv (λ _, now) (λ _, f).
Definition on_redis {R} (r : R) : LockWorld R unit := mkLockWorld r 0 [] tt.

(** What becomes of a call that has tried: the loop body of [Mutex]; the
    clock it reads is that of its process. *)
Definition after_attempt (key : string) (ttlSec timeoutSec startTs now nowTs : Z)
    (answer : result bool) : Call :=
  match judge mutex_texts key timeoutSec startTs nowTs answer with
  | AttemptAcquired => Inside key ttlSec now
  | AttemptFailed _ => Over
  | AttemptRetry => Waiting key ttlSec timeoutSec startTs
  end.

Section users.
Context {R : Type} `{!Redis R}.
Implicit Types (u : Users R) (r : R).

(** One step.  [timely] systems let time pass only as far as every call that
    has its key stays within its time; in [once] systems no deletion is carried
    out twice. *)
Inductive users_step (timely once : bool) : Users R → Users R → Prop :=
  | step_call u key ttlSec timeoutSec startTs :
      (0 ≤ ttlSec)%Z →
      users_step timely once u (mkUsers (u_redis u) (u_now u)
        (u_calls u ++ [Waiting key ttlSec timeoutSec startTs]))
  | step_attempt r now l key ttlSec timeoutSec startTs k f nowTs answer w :
      lockMutex (moment now f) key ttlSec (on_redis r) = (Ret answer, w) →
      users_step timely once (mkUsers r now (l ++ Waiting key ttlSec timeoutSec startTs :: k))
        (mkUsers (lw_redis w) now
           (l ++ after_attempt key ttlSec timeoutSec startTs now nowTs answer :: k))
  | step_stray r now l key ttlSec f answer w :
      (0 ≤ ttlSec)%Z →
      lockMutex (moment now f) key ttlSec (on_redis r) = (Ret answer, w) →
      users_step timely once (mkUsers r now l) (mkUsers (lw_redis w) now l)
  | step_end r now l key ttlSec since k :
      users_step timely once (mkUsers r now (l ++ Inside key ttlSec since :: k))
        (mkUsers r now (l ++ Releasing key ttlSec since :: k))
  | step_unlock r now l key ttlSec since k f answer w :
      unlockMutex (moment now f) key (on_redis r) = (Ret answer, w) →
      users_step timely once (mkUsers r now (l ++ Releasing key ttlSec since :: k))
        (mkUsers (lw_redis w) now (l ++ Over :: k))
  | step_unlock_again r now l key ttlSec since k f answer w :
      once = false →
      unlockMutex (moment now f) key (on_redis r) = (Ret answer, w) →
      users_step timely once (mkUsers r now (l ++ Releasing key ttlSec since :: k))
        (mkUsers (lw_redis w) now (l ++ Releasing key ttlSec since :: k))
  | step_die r now l c k :
      users_step timely once (mkUsers r now (l ++ c :: k)) (mkUsers r now (l ++ Over :: k))
  | step_time u t :
      (u_now u ≤ t)%Z → (timely = true → Forall (in_time t) (u_calls u)) →
      users_step timely once u (mkUsers (u_redis u) t (u_calls u)).

Definition users_reachable (timely once : bool) r0 now0 : Users R → Prop :=
  rtc (users_step timely once) (mkUsers r0 now0 []).
End users.

(** ** Exclusion *)

(** The call has the key, in its callback or past it. *)
Definition inside (key : string) (c : Call) : bool :=
  match c with Inside k _ _ | Releasing k _ _ => bool_decide (k = key) | _ => false end.

Section exclusion.
Context {R : Type} `{!Redis R, !RedisLaws R}.
Implicit Types (u : Users R) (r : R).

(** Redis will say that the key of a call is taken until its time is up. *)
Definition guarded r now (c : Call) : Prop :=
  match c with
  | Inside key ttlSec since | Releasing key ttlSec since =>
      lives ttlSec since now ∧
      ∀ t, (now ≤ t)%Z → lives ttlSec since t → held t key r = true
  | Waiting _ ttlSec _ _ => (0 ≤ ttlSec)%Z
  | Over => True
  end.

Definition count_inside (key : string) (cs : list Call) : nat :=
  length (filter (λ c, inside key c = true) cs).

Definition users_ok u : Prop :=
  Forall (guarded (u_redis u) (u_now u)) (u_calls u) ∧
  ∀ key, count_inside key (u_calls u) ≤ 1.

Lemma count_inside_mid key l c k :
  count_inside key (l ++ c :: k) = (if inside key c then 1 else 0) + count_inside key (l ++ k).
Proof.
  unfold count_inside. rewrite !filter_app, filter_cons, !length_app.
  destruct (inside key c) eqn:Hc.
  - rewrite decide_True by done. simpl. lia.
  - rewrite decide_False by done. lia.
Qed.

Lemma guarded_inside r now key c :
  guarded r now c → inside key c = true →
  ∃ ttlSec since, lives ttlSec since now ∧
    ∀ t, (now ≤ t)%Z → lives ttlSec since t → held t key r = true.
Proof.
  destruct c as [|key' ttl since|key' ttl since|]; simpl; try done;
    (intros [Hl Hg] ->%bool_decide_eq_true; by exists ttl, since).
Qed.

Lemma count_inside_free r now key cs :
  Forall (guarded r now) cs → held now key r = false → count_inside key cs = 0.
Proof.
  intros Hg Hf. unfold count_inside. apply length_zero_iff_nil.
  destruct (filter _ cs) as [|c l] eqn:Hl; [done|].
  assert (Hc : c ∈ filter (λ c, inside key c = true) cs) by (rewrite Hl; left).
  apply list_elem_of_filter in Hc as [Hi Hc]. rewrite Forall_forall in Hg.
  destruct (guarded_inside _ _ _ _ (Hg c Hc) Hi) as (ttl & since & Ht & Hh).
  rewrite Hh in Hf; [done|lia|done].
Qed.

(** What is taken stays taken when somebody tries. *)
Lemma SetNX_keeps now key ttl r t k :
  (now ≤ t)%Z → held t k r = true → held t k (SetNX now key ttl r).2 = true.
Proof.
  intros Ht Hh. destruct (held now key r) eqn:Hk.
  - destruct (SetNX_taken now key ttl r Hk) as [_ Hs]. by rewrite Hs.
  - destruct (SetNX_free now key ttl r Hk) as [_ Hs]. rewrite Hs by done.
    destruct (decide (k = key)) as [->|]; [|done].
    rewrite (held_mono now t) in Hk; done.
Qed.

(** An attempt frees no key; one that is told that it has its key has found
    it free. *)
Lemma lockMutex_effect now f key ttlSec r answer w :
  lockMutex (moment now f) key ttlSec (on_redis r) = (Ret answer, w) →
  (∀ t k, (now ≤ t)%Z → held t k r = true → held t k (lw_redis w) = true) ∧
  (answer = Ok true → held now key r = false ∧
     ∀ t, (now ≤ t)%Z → lives ttlSec now t → held t key (lw_redis w) = true).
Proof.
  unfold lockMutex, ask, bind, with_redis, modify, get_state, ret. simpl.
  destruct f; intros [= <- <-]; simpl; (split; [auto using SetNX_keeps|]); [|done..].
  intros [= Hs]. destruct (held now key r) eqn:Hk.
  { destruct (SetNX_taken now key (ttlSec * 1000) r Hk). congruence. }
  split; [done|]. intros t Ht Hl. destruct (SetNX_free now key (ttlSec * 1000) r Hk) as [_ Hfree].
  rewrite Hfree, decide_True by done. apply bool_decide_eq_true. unfold lives in Hl. lia.
Qed.

Lemma unlockMutex_effect now f key r answer w t k :
  unlockMutex (moment now f) key (on_redis r) = (Ret answer, w) → k ≠ key →
  held t k (lw_redis w) = held t k r.
Proof.
  unfold unlockMutex, ask, bind, with_redis, modify, ret. simpl.
  intros Hrun Hk. destruct f; injection Hrun as <- <-; simpl;
    rewrite ?held_Del, ?decide_False by done; done.
Qed.

Lemma guarded_keeps r r' now c :
  (∀ t k, (now ≤ t)%Z → inside k c = true → held t k r = true → held t k r' = true) →
  guarded r now c → guarded r' now c.
Proof.
  destruct c as [|key ttl since|key ttl since|]; simpl; try done;
    (intros Hk [Hl Hg]; split; [done|]; intros; apply Hk; auto; by apply bool_decide_eq_true).
Qed.

Lemma after_attempt_cases key ttlSec timeoutSec startTs now nowTs answer :
  after_attempt key ttlSec timeoutSec startTs now nowTs answer = Inside key ttlSec now ∧
    answer = Ok true ∨
  after_attempt key ttlSec timeoutSec startTs now nowTs answer =
    Waiting key ttlSec timeoutSec startTs ∨
  after_attempt key ttlSec timeoutSec startTs now nowTs answer = Over.
Proof. unfold after_attempt, judge. repeat case_match; simplify_eq; auto. Qed.

Lemma step_guards_rest r r' now l k :
  (∀ t key, (now ≤ t)%Z → held t key r = true → held t key r' = true) →
  Forall (guarded r now) (l ++ k) → Forall (guarded r' now) (l ++ k).
Proof. intros Hk Hg. eapply Forall_impl; [exact Hg|]. intros c. apply guarded_keeps. auto. Qed.

Lemma Forall_mid {A} (P : A → Prop) l c k : Forall P (l ++ c :: k) ↔ P c ∧ Forall P (l ++ k).
Proof. rewrite !Forall_app, Forall_cons. tauto. Qed.

Lemma users_step_ok u u' : users_step true true u u' → users_ok u → users_ok u'.
Proof.
  destruct 1 as [u key ttlSec timeoutSec startTs Httl
    |r now l key ttlSec timeoutSec startTs k f nowTs answer w Hrun
    |r now l key ttlSec f answer w Httl Hrun|r now l key ttlSec since k
    |r now l key ttlSec since k f answer w Hrun|r now l key ttlSec since k f answer w Hoff
    |r now l c k|u t Ht Htimely]; intros [Hg Hc]; simpl in *.
  - split; [apply Forall_app; split; [done|by constructor]|]. intros key'.
    specialize (Hc key'). simpl. rewrite (count_inside_mid key' (u_calls u) _ []), app_nil_r.
    simpl. lia.
  - apply Forall_mid in Hg as [Hw Hg]. destruct (lockMutex_effect _ _ _ _ _ _ _ Hrun) as [Hkeep Hin].
    pose proof (step_guards_rest _ _ _ _ _ Hkeep Hg) as Hg'.
    destruct (after_attempt_cases key ttlSec timeoutSec startTs now nowTs answer)
      as [[-> Hans]|[->| ->]]; split; simpl; try apply Forall_mid; try (by split);
      try (intros key'; specialize (Hc key'); rewrite count_inside_mid in Hc |- *; simpl in *; lia).
    + destruct (Hin Hans) as [_ Hh]. split; [|done]. split; [unfold lives; simpl in Hw; lia|done].
    + destruct (Hin Hans) as [Hfree _]. intros key'. specialize (Hc key').
      rewrite count_inside_mid in Hc |- *. simpl in *. case_bool_decide as Hk; [|lia]. subst key'.
      rewrite (count_inside_free r now); [lia|done|done].
  - destruct (lockMutex_effect _ _ _ _ _ _ _ Hrun) as [Hkeep _]. split; [|done]. simpl.
    eapply Forall_impl; [exact Hg|]. intros c. apply guarded_keeps. auto.
  - apply Forall_mid in Hg as [Hw Hg]. split; [apply Forall_mid; by split|]. intros key'.
    specialize (Hc key'). simpl. by rewrite count_inside_mid in Hc |- *.
  - apply Forall_mid in Hg as [_ Hg].
    assert (Hcount : ∀ key', inside key' (Releasing key ttlSec since) = true →
      count_inside key' (l ++ k) = 0).
    { intros key' Hi. specialize (Hc key'). rewrite count_inside_mid, Hi in Hc. lia. }
    split; simpl.
    + apply Forall_mid. split; [done|]. rewrite Forall_forall in *. intros c Hcin.
      apply (guarded_keeps r); [|by apply Hg]. intros t key' _ Hi Hh.
      destruct (decide (key' = key)) as [->|Hne];
        [|by rewrite (unlockMutex_effect _ _ _ _ _ _ t key' Hrun Hne)].
      exfalso. specialize (Hcount key ltac:(by apply bool_decide_eq_true)).
      apply list_elem_of_split in Hcin as (l1 & l2 & Heq). rewrite Heq, count_inside_mid, Hi in Hcount.
      lia.
    + intros key'. specialize (Hc key'). rewrite count_inside_mid in Hc |- *. simpl. lia.
  - done.
  - apply Forall_mid in Hg as [_ Hg]. split; simpl; [by apply Forall_mid|].
    intros key'. specialize (Hc key'). rewrite count_inside_mid in Hc |- *. simpl. lia.
  - split; [|done]. specialize (Htimely eq_refl). simpl.
    rewrite Forall_forall in *. intros c Hin. specialize (Hg c Hin). specialize (Htimely c Hin).
    destruct c; simpl in *; try done; (destruct Hg as [_ Hg]; split; [done|]; intros; apply Hg; auto; lia).
Qed.

Lemma users_reachable_ok r0 now0 u : users_reachable true true r0 now0 u → users_ok u.
Proof.
  assert (Hinv : ∀ u1 u2, rtc (users_step true true) u1 u2 → users_ok u1 → users_ok u2)
    by (induction 1; eauto using users_step_ok).
  intros Hr. apply (Hinv _ _ Hr). split; [constructor|]. intros key. unfold count_inside. simpl. lia.
Qed.
End exclusion.

Lemma count_inside_two key cs i j c c' :
  cs !! i = Some c → cs !! j = Some c' → inside key c = true → inside key c' = true →
  count_inside key cs ≤ 1 → i = j.
Proof.
  intros Hi Hj Hc Hc' Hle. destruct (decide (i = j)) as [|Hne]; [done|]. exfalso.
  assert (Hcount : ∀ i j c c', i < j → cs !! i = Some c → cs !! j = Some c' →
    inside key c = true → inside key c' = true → 2 ≤ count_inside key cs).
  { clear. intros i j c c' Hij Hi Hj Hc Hc'. rewrite <-(take_drop_middle _ _ _ Hi).
    rewrite count_inside_mid, Hc. pose proof (take_drop_middle _ _ _ Hj) as Hs.
    assert (Hd : drop (S i) cs !! (j - S i) = Some c').
    { rewrite lookup_drop. by replace (S i + (j - S i)) with j by lia. }
    rewrite <-(take_drop_middle _ _ _ Hd), (assoc_L (++)), count_inside_mid, Hc'. lia. }
  assert (2 ≤ count_inside key cs); [|lia].
  destruct (decide (i < j)); [by eapply (Hcount i j)|by eapply (Hcount j i); [lia|..]].
Qed.

(** C23: any number of calls of [Mutex], in any processes, with requests and
    replies lost, attempts that arrive late and processes dying at any point: as
    long as every call that has its key is done with its callback and with the
    deletion within its time to live, and no deletion is carried out twice, two
    callbacks never run for the same key, and none runs while the deletion of
    another is still to come. *)
Theorem Mutex_excludes {R} `{!Redis R, !RedisLaws R} r0 now0 u i j key ttl since c :
  users_reachable true true r0 now0 u →
  u_calls u !! i = Some (Inside key ttl since) → u_calls u !! j = Some c → inside key c = true →
  i = j.
Proof.
  intros [_ Hc]%users_reachable_ok Hi Hj Hin.
  eapply (count_inside_two key); [exact Hi|exact Hj| |done|apply Hc]. by apply bool_decide_eq_true.
Qed.

(** ** A small Redis *)

(** Keys and the time at which they are gone, if there is one. *)
Record TestRedis := mkTestRedis { tr_keys : gmap string (option Z) }.

Definition test_live (t : Z) (v : option (option Z)) : bool :=
  match v with Some (Some e) => (t <? e)%Z | Some None => true | None => false end.

#[export] Instance test_redis : Redis TestRedis := {
  SetNX now key ttl r :=
    if test_live now (tr_keys r !! key) then (false, r)
    else (true, mkTestRedis
      (<[key := if decide (ttl = 0)%Z then None else Some (now + ttl)%Z]> (tr_keys r)));
  Del key r := mkTestRedis (delete key (tr_keys r));
  held t key r := test_live t (tr_keys r !! key);
}.

#[export] Instance test_redis_laws : RedisLaws TestRedis.
Proof.
  split.
  - intros now t key r Ht. simpl. unfold test_live. destruct (tr_keys r !! key) as [[e|]|]; [|done..].
    rewrite !Z.ltb_lt. lia.
  - intros now key ttl r Hh. simpl in *. by rewrite Hh.
  - intros now key ttl r Hh. simpl in *. rewrite Hh. split; [done|]. intros t k Ht. simpl.
    destruct (decide (k = key)) as [->|].
    + rewrite lookup_insert_eq. unfold test_live. destruct (decide (ttl = 0)%Z) as [->|Hne].
      * symmetry. apply bool_decide_eq_true. by left.
      * apply eq_bool_prop_intro. rewrite !Is_true_true, bool_decide_eq_true, Z.ltb_lt. lia.
    + by rewrite lookup_insert_ne.
  - intros t k key r. simpl. destruct (decide (k = key)) as [->|].
    + by rewrite lookup_delete_eq.
    + by rewrite lookup_delete_ne.
Qed.

Definition no_redis : TestRedis := mkTestRedis ∅.

(** Two calls at the same time: the first has the key, the second is to wait. *)
Definition two_callers : Users TestRedis :=
  mkUsers (SetNX 0 "saga" 60000 no_redis).2 0
    [Inside "saga" 60 0; Waiting "saga" 60 30 0].

Lemma two_callers_reachable timely once : users_reachable timely once no_redis 0 two_callers.
Proof.
  eapply rtc_l; [apply (step_call timely once _ "saga" 60 30 0); simpl; lia|].
  eapply rtc_l; [apply (step_call timely once _ "saga" 60 30 0); simpl; lia|].
  eapply rtc_l; [eapply (step_attempt timely once _ _ [] "saga" 60 30 0 _ NoFault 0); vm_compute; reflexivity|].
  eapply rtc_l; [eapply (step_attempt timely once _ _ [_] "saga" 60 30 0 [] NoFault 0); vm_compute; reflexivity|].
  apply rtc_refl.
Qed.

Lemma Mutex_excludes_witness :
  users_reachable true true no_redis 0 two_callers ∧
  u_calls two_callers !! 0 = Some (Inside "saga" 60 0) ∧ 0 = 0.
Proof.
  split; [apply two_callers_reachable|]. split; [reflexivity|].
  apply (Mutex_excludes no_redis 0 two_callers 0 0 "saga" 60 0 (Inside "saga" 60 0));
    [apply two_callers_reachable|reflexivity..].
Defined.

(** Two calls in their callbacks for the same key, both within their time. *)
Definition both_inside (u : Users TestRedis) : Prop :=
  Forall (in_time (u_now u)) (u_calls u) ∧ ∃ i j since since',
    i ≠ j ∧ u_calls u !! i = Some (Inside "saga" 60 since) ∧
    u_calls u !! j = Some (Inside "saga" 60 since').

(** A callback that is over in no time, with a deletion that arrives after 62
    seconds: the key is that of the second call by then, and a third call gets
    it. *)
Theorem late_deletion_lets_others_in :
  ∃ u, users_reachable false true no_redis 0 u ∧ both_inside u.
Proof.
  exists (mkUsers (SetNX 62000 "saga" 60000 no_redis).2 62000
    [Over; Inside "saga" 60 61000; Inside "saga" 60 62000]). split.
  - eapply rtc_l; [apply (step_call false true _ "saga" 60 30 0); simpl; lia|].
    eapply rtc_l; [eapply (step_attempt false true _ _ [] "saga" 60 30 0 _ NoFault 0); vm_compute; reflexivity|].
    eapply rtc_l; [apply (step_end false true _ _ [])|].
    eapply rtc_l; [apply (step_time false true _ 61000); simpl; [lia|done]|].
    eapply rtc_l; [apply (step_call false true _ "saga" 60 30 61); simpl; lia|].
    eapply rtc_l; [eapply (step_attempt false true _ _ [_] "saga" 60 30 61 [] NoFault 61); vm_compute; reflexivity|].
    eapply rtc_l; [apply (step_time false true _ 62000); simpl; [lia|done]|].
    eapply rtc_l; [eapply (step_unlock false true _ _ [] "saga" 60 0 _ NoFault); vm_compute; reflexivity|].
    eapply rtc_l; [apply (step_call false true _ "saga" 60 30 62); simpl; lia|].
    eapply rtc_l; [eapply (step_attempt false true _ _ [_; _] "saga" 60 30 62 [] NoFault 62); vm_compute; reflexivity|].
    apply rtc_refl.
  - split; [repeat constructor; simpl; unfold lives; lia|].
    exists 1, 2, 61000%Z, 62000%Z. split_and!; [done|reflexivity..].
Qed.

(** Everything happens within a second, but the reply to the deletion is
    lost and the client sends it again: it deletes the key of the second
    call. *)
Theorem repeated_deletion_lets_others_in :
  ∃ u, users_reachable true false no_redis 0 u ∧ both_inside u.
Proof.
  exists (mkUsers (SetNX 0 "saga" 60000 no_redis).2 0
    [Over; Inside "saga" 60 0; Inside "saga" 60 0]). split.
  - eapply rtc_l; [apply (step_call true false _ "saga" 60 30 0); simpl; lia|].
    eapply rtc_l; [eapply (step_attempt true false _ _ [] "saga" 60 30 0 _ NoFault 0); vm_compute; reflexivity|].
    eapply rtc_l; [apply (step_end true false _ _ [])|].
    eapply rtc_l; [eapply (step_unlock_again true false _ _ [] "saga" 60 0 _ ReplyLost); vm_compute; reflexivity|].
    eapply rtc_l; [apply (step_call true false _ "saga" 60 30 0); simpl; lia|].
    eapply rtc_l; [eapply (step_attempt true false _ _ [_] "saga" 60 30 0 [] NoFault 0); vm_compute; reflexivity|].
    eapply rtc_l; [eapply (step_unlock true false _ _ [] "saga" 60 0 _ NoFault); vm_compute; reflexivity|].
    eapply rtc_l; [apply (step_call true false _ "saga" 60 30 0); simpl; lia|].
    eapply rtc_l; [eapply (step_attempt true false _ _ [_; _] "saga" 60 30 0 [] NoFault 0); vm_compute; reflexivity|].
    apply rtc_refl.
  - split; [repeat constructor; simpl; unfold lives; lia|].
    exists 1, 2, 0%Z, 0%Z. split_and!; [done|reflexivity..].
Qed.

(** ** A call on its own *)

Definition calm_lock : LockEnv := mkLockEnv (λ n, Z.of_nat n * 600)%Z (λ _, NoFault).

Definition idle_world : LockWorld TestRedis nat := mkLockWorld no_redis 0 [] 0.

(** A callback that counts its runs. *)
Definition count_run : M (LockWorld TestRedis nat) unit :=
  modify (λ w, mkLockWorld (lw_redis w) (lw_tick w) (lw_events w) (S (lw_user w))).

Definition three_keys : list string := ["saga-b"; "saga-a"; "saga-b"].


(** The key is taken for good: the call gives up after its time. *)
Definition taken_world : LockWorld TestRedis nat :=
  mkLockWorld (mkTestRedis {["saga" := None]}) 0 [] 0.

Lemma Mutex_gives_up_witness :
  (Mutex calm_lock 3 "saga" 60 2 count_run taken_world).1 =
    Ret (Err (Errorf "timeout while locking mutex saga")) ∧
  (Mutex calm_lock (1 + Z.to_nat 2) "saga" 60 2 count_run taken_world).1 ≠ Hang.
Proof.
  split; [vm_compute; reflexivity|].
  apply (Mutex_gives_up calm_lock "saga" 60 2 count_run taken_world).
  - intros n. simpl. lia.
  - intros n Hn. cbn in Hn. simpl. lia.
  - intros n. simpl. lia.
  - lia.
  - intros w. discriminate.
Defined.
