(* ===== verification/Cache.v ===== *)
(** * Reading through the cache

    The strings in Redis and [CacheRead] with its variants, of
    [pkg/cache/redis_impl.go]: a value that is there is used, a value that is
    not is made by a callback and put there.  Of Redis only the documented
    behaviour of [GET], [SET] with a time to live and [DEL] is used (class
    [RedisTextLaws]); a request or its reply may be lost. *)

From S2P Require Import Prelude GoMonad Model Lock.

Local Open Scope go_scope.

(** ** Redis *)

(** Times are milliseconds; a database has a number.  A time to live of zero
    means for ever. *)
Class RedisText (R : Type) := {
  GetAt : Z → Z → string → R → option string;
  SetAt : Z → Z → string → string → Z → R → R;
  DelAt : Z → string → R → R;
}.

Class RedisTextLaws (R : Type) `{!RedisText R} : Prop := {
  Get_Set now t db db' key key' value ttl (r : R) : (now ≤ t)%Z →
    GetAt t db' key' (SetAt now db key value ttl r) =
      if decide (db' = db ∧ key' = key) then
        if decide (ttl = 0 ∨ t < now + ttl)%Z then Some value else None
      else GetAt t db' key' r;
  Get_Del t db db' key key' (r : R) :
    GetAt t db' key' (DelAt db key r) = if decide (db' = db ∧ key' = key) then None else GetAt t db' key' r;
}.

(** The server, the questions asked of clock and network so far, and what the
    callbacks work on. *)
Record CacheWorld (R S : Type) := mkCacheWorld {
  cw_redis : R;
  cw_tick : nat;
  cw_user : S;
}.
Arguments mkCacheWorld {R S}.
Arguments cw_redis {R S}.
Arguments cw_tick {R S}.
Arguments cw_user {R S}.

(** What a callback makes of a value that was found: whether it only looked,
    what the value should become, and whether it should go. *)
Definition HitAnswer : Type := bool * string * bool.

(** ** Commands *)

Section cache.
Context {R S : Type} `{!RedisText R} (env : LockEnv).
#[local] Notation Go := (M (CacheWorld R S)).
Implicit Types (w : CacheWorld R S) (r : R).

(** A request to the server: [f] is what it does and answers. *)
Definition command {A} (f : Z → R → A * R) : Go (result A) := λ w,
  let now := le_now env (cw_tick w) in
  let done := f now (cw_redis w) in
  match le_fault env (cw_tick w) with
  | RequestLost => (Ret (Err (Errorf "network error")), mkCacheWorld (cw_redis w) (1 + cw_tick w) (cw_user w))
  | ReplyLost => (Ret (Err (Errorf "network error")), mkCacheWorld done.2 (1 + cw_tick w) (cw_user w))
  | NoFault => (Ret (Ok done.1), mkCacheWorld done.2 (1 + cw_tick w) (cw_user w))
  end.

(** [redis.Nil] is the empty string. *)
Definition Get (db : Z) (key : string) : Go (result string) :=
  command (λ now r, (default "" (GetAt now db key r), r)).

Definition Exists (db : Z) (key : string) : Go (result bool) :=
  command (λ now r, (bool_decide (is_Some (GetAt now db key r)), r)).

(** [time.Duration(ttlSec) * time.Second] is taken to fit. *)
Definition Set_ (db : Z) (key value : string) (ttlSec : Z) : Go (result unit) :=
  command (λ now r, (tt, SetAt now db key value (ttlSec * 1000) r)).

Definition Del_ (db : Z) (key : string) : Go (result unit) := command (λ now r, (tt, DelAt db key r)).

(** [Init]: a value is written to each of the sixteen databases. *)
Fixpoint init_each (dbs : list Z) : Go (result unit) :=
  match dbs with
  | [] => ret (Ok tt)
  | db :: dbs =>
      _ <-? Set_ db "test-key" "test-value" 300 else e => ret (Err e) ;;
      init_each dbs
  end.

Definition Init (RedisAddr REDIS_ADDRESS : string) : Go (result unit) :=
  if String.eqb RedisAddr "" && String.eqb REDIS_ADDRESS "" then panic "REDIS_ADDRESS is not set"
  else init_each (Z.of_nat <$> seq 0 16).

(** What is done after a hit, as the callback has answered. *)
Definition after_hit (db : Z) (key value : string) (ttlSec : Z) (answer : HitAnswer) : Go (result string) :=
  let '(readOnly, newValue, invalidate) := answer in
  if readOnly : bool then ret (Ok value)
  else
    (if invalidate : bool then _ <- Del_ db key ;; ret tt else ret tt) ;;;
    if negb (String.eqb value newValue) then
      _ <-? Set_ db key value ttlSec else e => ret (Err e) ;;
      ret (Ok value)
    else ret (Ok value).

Definition cacheRead (db : Z) (key : string) (ttlSec : Z) (missCb : Go (result string))
    (hitCb : option (string → Go (result HitAnswer))) : Go (result string) :=
  value <-? Get db key else e => ret (Err e) ;;
  if negb (String.eqb value "") then
    match hitCb with
    | None => ret (Ok value)
    | Some hitCb =>
        answer <-? hitCb value else e => ret (Err e) ;;
        after_hit db key value ttlSec answer
    end
  else
    value <-? missCb else e => ret (Err e) ;;
    _ <-? Set_ db key value ttlSec else e => ret (Err e) ;;
    ret (Ok value).

Definition CacheRead (db : Z) (key : string) (ttlSec : Z) (missCb : Go (result string)) : Go (result string) :=
  cacheRead db key ttlSec missCb None.
Definition CacheRead2 (key : string) (missCb : Go (result string)) : Go (result string) :=
  CacheRead 0 key 0 missCb.
Definition CacheRead3 (db : Z) (key : string) (ttlSec : Z) (missCb : Go (result string))
    (hitCb : string → Go (result HitAnswer)) : Go (result string) :=
  cacheRead db key ttlSec missCb (Some hitCb).
End cache.

(** ** Reading through *)

Section reads.
Context {R S : Type} `{!RedisText R, !RedisTextLaws R} (env : LockEnv).
Implicit Types (w : CacheWorld R S) (miss : M (CacheWorld R S) (result string)).

(** The value under a key at the time of the next question. *)
Definition stored (db : Z) (key : string) w : option string :=
  GetAt (le_now env (cw_tick w)) db key (cw_redis w).

(** The world after a question that changes nothing, and after a [SET]. *)
Definition asked w : CacheWorld R S := mkCacheWorld (cw_redis w) (1 + cw_tick w) (cw_user w).
Definition written (db : Z) (key value : string) (ttlSec : Z) w : CacheWorld R S :=
  mkCacheWorld (SetAt (le_now env (cw_tick w)) db key value (ttlSec * 1000) (cw_redis w)) (1 + cw_tick w) (cw_user w).

(** A read whose value is not a string that is empty. *)
Definition usable (o : option string) : option string :=
  match o with Some v => if String.eqb v "" then None else Some v | None => None end.

Lemma usable_default o : negb (String.eqb (default "" o) "") = bool_decide (is_Some (usable o)).
Proof. destruct o as [v|]; [|done]. simpl. by destruct (String.eqb_spec v ""). Qed.

Lemma usable_Some o v : usable o = Some v ↔ o = Some v ∧ v ≠ "".
Proof.
  destruct o as [u|]; simpl; [|naive_solver]. destruct (String.eqb_spec u ""); naive_solver.
Qed.

Lemma after_hit_answers db key value ttlSec answer w v w' :
  after_hit env db key value ttlSec answer w = (Ret (Ok v), w') → v = value.
Proof.
  destruct answer as [[[] newValue] []]; unfold after_hit, or_else, bind, Del_, Set_, command, ret; cbn [fst snd];
    repeat case_match; intros; by simplify_eq/=.
Qed.

(** Whatever the network does: a value that is returned was in the cache, or has
    been made by the callback in this very call because the cache had none; an
    empty value is never taken from the cache. *)
Theorem value_read_or_made db key ttlSec miss hit w v w' :
  cacheRead env db key ttlSec miss hit w = (Ret (Ok v), w') →
  usable (stored db key w) = Some v ∨
  usable (stored db key w) = None ∧ ∃ w2, miss (asked w) = (Ret (Ok v), w2).
Proof.
  unfold cacheRead, or_else, bind, Get, command. intros Hrun.
  destruct (le_fault env (cw_tick w)); [|done..]. cbn [fst snd] in Hrun.
  fold (stored db key w) (asked w) in Hrun. rewrite usable_default in Hrun. case_bool_decide as Hu.
  - left. destruct Hu as [u Hu]. pose proof (proj1 (usable_Some _ _) Hu) as [Hs _]. rewrite Hu. f_equal.
    rewrite Hs in Hrun. cbn [default] in Hrun. change (id u) with u in Hrun.
    destruct hit as [hit|]; [|unfold ret in Hrun; by simplify_eq].
    destruct (hit u (asked w)) as [[[answer|e]| |] w1]; try done.
    symmetry. by eapply after_hit_answers.
  - right. split; [by apply eq_None_not_Some|].
    destruct (miss (asked w)) as [[[u|e]| |] w2] eqn:Hm; try done.
    unfold Set_, command, ret in Hrun. exists w2. by destruct (le_fault env (cw_tick w2)); simplify_eq/=.
Qed.

Context (Hquiet : ∀ n, le_fault env n = NoFault).

Lemma CacheRead_hit db key ttlSec miss w v :
  usable (stored db key w) = Some v → CacheRead env db key ttlSec miss w = (Ret (Ok v), asked w).
Proof.
  intros Hu. unfold CacheRead, cacheRead, or_else, bind, Get, command. rewrite Hquiet. cbn [fst snd].
  fold (stored db key w) (asked w). rewrite usable_default, Hu.
  apply usable_Some in Hu as [-> _]. done.
Qed.

Lemma CacheRead_miss db key ttlSec miss w v w2 :
  usable (stored db key w) = None → miss (asked w) = (Ret (Ok v), w2) →
  CacheRead env db key ttlSec miss w = (Ret (Ok v), written db key v ttlSec w2).
Proof.
  intros Hu Hm. unfold CacheRead, cacheRead, or_else, bind, Get, command. rewrite Hquiet. cbn [fst snd].
  fold (stored db key w) (asked w). rewrite usable_default, Hu. cbn. rewrite Hm.
  unfold Set_, command. by rewrite Hquiet.
Qed.

(** A value that was made is used until its time is over: the callback of a
    later read is not called, as long as nobody else has written to the cache. *)
Theorem value_is_made_once db key ttlSec miss w v w2 :
  usable (stored db key w) = None → miss (asked w) = (Ret (Ok v), w2) → v ≠ "" →
  ∃ w', CacheRead env db key ttlSec miss w = (Ret (Ok v), w') ∧
  ∀ miss' w3, cw_redis w3 = cw_redis w' →
    (le_now env (cw_tick w2) ≤ le_now env (cw_tick w3))%Z →
    (ttlSec = 0 ∨ le_now env (cw_tick w3) < le_now env (cw_tick w2) + ttlSec * 1000)%Z →
    CacheRead env db key ttlSec miss' w3 = (Ret (Ok v), asked w3).
Proof.
  intros Hu Hm Hv. eexists. split; [by apply CacheRead_miss|].
  intros miss' w3 Hr Hlater Hfresh. apply CacheRead_hit, usable_Some. split; [|done].
  unfold stored. rewrite Hr. unfold written. cbn [cw_redis]. rewrite Get_Set by done.
  rewrite decide_True by done. rewrite decide_True; [done|lia].
Qed.

(** An empty value is put into the cache, and made again by every read. *)
Theorem empty_value_is_made_again db key ttlSec miss w w2 v w3 :
  usable (stored db key w) = None → miss (asked w) = (Ret (Ok ""), w2) →
  (le_now env (cw_tick w2) ≤ le_now env (1 + cw_tick w2))%Z →
  miss (asked (written db key "" ttlSec w2)) = (Ret (Ok v), w3) →
  CacheRead env db key ttlSec miss w = (Ret (Ok ""), written db key "" ttlSec w2) ∧
  CacheRead env db key ttlSec miss (written db key "" ttlSec w2) = (Ret (Ok v), written db key v ttlSec w3).
Proof.
  intros Hu Hm Hmono Hm'. split; [by apply CacheRead_miss|]. apply CacheRead_miss; [|done].
  unfold stored, written. cbn [cw_redis cw_tick]. rewrite Get_Set by done.
  rewrite decide_True by done. by destruct (decide _).
Qed.

(** [CacheRead3] gives a value that was found to a callback that may change it or
    have it removed; but what is written is the value that was found.  So the
    new value never gets into the cache, and a value that is to be removed and
    changed stays, for another time to live. *)
Theorem found_value_cannot_be_changed db key ttlSec miss hit w v w1 newValue invalidate :
  usable (stored db key w) = Some v → hit v (asked w) = (Ret (Ok (false, newValue, invalidate)), w1) →
  ∃ w', CacheRead3 env db key ttlSec miss hit w = (Ret (Ok v), w') ∧
    (newValue ≠ v → let now := le_now env (if invalidate then 1 + cw_tick w1 else cw_tick w1) in
       ∀ t, (now ≤ t)%Z → (ttlSec = 0 ∨ t < now + ttlSec * 1000)%Z → GetAt t db key (cw_redis w') = Some v) ∧
    (newValue = v → ∀ t, GetAt t db key (cw_redis w') = if invalidate then None else GetAt t db key (cw_redis w1)).
Proof.
  intros Hu Hhit. unfold CacheRead3, cacheRead, or_else, bind, Get, command.
  rewrite Hquiet. cbn [fst snd]. fold (stored db key w) (asked w). rewrite usable_default, Hu.
  rewrite bool_decide_eq_true_2 by by eexists.
  apply usable_Some in Hu as [Hs Hv]. rewrite Hs. cbn [default]. change (id v) with v. rewrite Hhit.
  unfold after_hit, or_else, bind, Del_, Set_, command, ret.
  destruct invalidate, (String.eqb_spec v newValue); cbn [fst snd negb]; rewrite ?Hquiet;
    cbn [fst snd cw_tick]; rewrite ?Hquiet; cbn [fst snd];
    eexists; (split; [reflexivity|]); cbn [cw_redis]; (split; [|try done]).
  all: try (by intros).
  - intros _ t. rewrite Get_Del. by rewrite decide_True.
  - intros _ t Hn Ht. rewrite Get_Set by done. rewrite !decide_True; [done|lia|done].
  - intros _ t Hn Ht. rewrite Get_Set by done. rewrite !decide_True; [done|lia|done].
Qed.
End reads.

(** ** A server that keeps what it is told *)

#[export] Instance text_server : RedisText (gmap (Z * string) (string * option Z)) := {
  GetAt t db key r :=
    match r !! (db, key) with
    | Some (v, None) => Some v
    | Some (v, Some until) => if decide (t < until)%Z then Some v else None
    | None => None
    end;
  SetAt now db key value ttl r :=
    <[(db, key) := (value, if decide (ttl = 0)%Z then None else Some (now + ttl)%Z)]> r;
  DelAt db key r := delete (db, key) r;
}.

#[export] Instance text_server_laws : RedisTextLaws (gmap (Z * string) (string * option Z)).
Proof.
  split; intros; simpl.
  - destruct (decide (db' = db ∧ key' = key)) as [[-> ->]|Hne].
    + rewrite lookup_insert_eq. repeat case_decide; intuition (try lia; done).
    + rewrite lookup_insert_ne; [done|]. intros [= <- <-]. by apply Hne.
  - destruct (decide (db' = db ∧ key' = key)) as [[-> ->]|Hne].
    + by rewrite lookup_delete_eq.
    + rewrite lookup_delete_ne; [done|]. intros [= <- <-]. by apply Hne.
Qed.

(** A quiet network and a clock that ticks a second per question; the callback
    counts its calls. *)
Definition ticking_env : LockEnv := mkLockEnv (λ n, 1000 * Z.of_nat n)%Z (λ _, NoFault).
Definition counting (v : string) : M (CacheWorld (gmap (Z * string) (string * option Z)) nat) (result string) :=
  λ w, (Ret (Ok v), mkCacheWorld (cw_redis w) (cw_tick w) (1 + cw_user w)).
Definition empty_cache : CacheWorld (gmap (Z * string) (string * option Z)) nat := mkCacheWorld ∅ 0 0.

(** Two reads within the time to live make the value once, a third after it
    makes it again. *)
Example made_again_when_over :
  let read := CacheRead ticking_env 0 "k" 3 (counting "v") in
  let w1 := (read empty_cache).2 in let w2 := (read w1).2 in let w3 := (read w2).2 in
  (cw_user w1, cw_user w2, cw_user w3, cw_user (read w3).2) = (1, 1, 1, 2).
Proof. by vm_compute. Qed.

(** The callback asks for the new value, and the old one is read again. *)
Example new_value_is_dropped :
  let w1 := (CacheRead ticking_env 0 "k" 60 (counting "old") empty_cache).2 in
  let hit v w := (Ret (Ok (false, "new", true)), w) in
  let w2 := (CacheRead3 ticking_env 0 "k" 60 (counting "old") hit w1).2 in
  (CacheRead ticking_env 0 "k" 60 (counting "other") w2).1 = Ret (Ok "old").
Proof. by vm_compute. Qed.
