(* ===== verification/KeyedLock.v ===== *)
(** * The keyed lock of [pkg/cache/pgsql_keyed_lock.go]

    [PgsqlKeyedLockStore]: a lock is a row of [shared.distributed_locks] with
    a holder and a time at which it expires.  Unlike the lock in Redis, a row
    is only deleted by its holder or once it has expired.  A statement may be
    refused, its reply lost, or the number of its rows be unknown.  Times are
    microseconds, as in PostgreSQL; a Go [time.Duration] is in nanoseconds. *)

From S2P Require Import Prelude.

(** ** The table and the statements *)

Record LockRow := mkLockRow { holder_id : string; acquired_at : Z; expires_at : Z }.

(** The rows by [lock_key], the primary key. *)
Notation LockTable := (gmap string LockRow).

Definition DefaultKeyedLockTTL : Z := 5 * 60 * 1000000000.

(** [ttl.Milliseconds()], and the interval PostgreSQL makes of it. *)
Definition Milliseconds (ttl : Z) : Z := Z.quot ttl 1000000.
Definition milliseconds_interval (ms : Z) : Z := ms * 1000.

Definition expired (now : Z) (row : LockRow) : bool := (expires_at row <=? now)%Z.

(** Every statement gives the number of rows it affects. *)
Definition sqlKeyedLockAcquire (now : Z) (key holderID : string) (ms : Z) (t : LockTable) :
    nat * LockTable :=
  let row := mkLockRow holderID now (now + milliseconds_interval ms) in
  match t !! key with
  | None => (1, <[key := row]> t)
  | Some old => if expired now old then (1, <[key := row]> t) else (0, t)
  end.

Definition held_by (holderID : string) (kr : string * LockRow) : Prop := holder_id kr.2 = holderID.

#[export] Instance held_by_dec holderID kr : Decision (held_by holderID kr).
Proof. unfold held_by. apply _. Defined.

Definition sqlKeyedLockRelease (holderID : string) (t : LockTable) : nat * LockTable :=
  (size (filter (held_by holderID) t), filter (λ kr, ¬ held_by holderID kr) t).

Definition sqlKeyedLockRefresh (now : Z) (holderID : string) (ms : Z) (t : LockTable) :
    nat * LockTable :=
  (size (filter (held_by holderID) t),
   (λ row, if decide (holder_id row = holderID)
           then mkLockRow holderID (acquired_at row) (now + milliseconds_interval ms)
           else row) <$> t).

Definition sqlKeyedLockIsHeldBy (now : Z) (holderID : string) (t : LockTable) : bool :=
  negb (bool_decide (filter (λ kr, held_by holderID kr ∧ expired now kr.2 = false) t = ∅)).

Definition sqlKeyedLockReapExpired (now : Z) (t : LockTable) : nat * LockTable :=
  (size (filter (λ kr, expired now kr.2 = true) t), filter (λ kr, expired now kr.2 = false) t).

(** ** The store *)

(** What becomes of a statement: it is done; it is refused with a code of
    PostgreSQL or with another error; it is done and the answer is lost; it
    is done and [RowsAffected] fails. *)
Inductive DbAnswer :=
  | DbDone
  | DbRefused (code : option string)
  | DbReplyLost
  | DbRowsUnknown.

Inductive KeyedError := ErrKeyedLockHeld (key : string) | BackendError (msg : string).

Inductive keyed_result (A : Type) := Had (a : A) | Failed (err : KeyedError).
Arguments Had {A}.
Arguments Failed {A}.

(** [db.ExecContext] followed by [res.RowsAffected()]. *)
Definition exec_rows (what : string) (ans : DbAnswer) (stmt : nat * LockTable) (t : LockTable) :
    keyed_result nat * LockTable :=
  match ans with
  | DbDone => (Had stmt.1, stmt.2)
  | DbRefused _ => (Failed (BackendError what), t)
  | DbReplyLost => (Failed (BackendError what), stmt.2)
  | DbRowsUnknown => (Failed (BackendError (what +:+ ": rows-affected")), stmt.2)
  end.

(** [if ttl <= 0 { ttl = DefaultKeyedLockTTL }] *)
Definition effective_ttl (ttl : Z) : Z := if (ttl <=? 0)%Z then DefaultKeyedLockTTL else ttl.

Definition Acquire (now : Z) (ans : DbAnswer) (key holderID : string) (ttl : Z) (t : LockTable) :
    keyed_result unit * LockTable :=
  let stmt := sqlKeyedLockAcquire now key holderID (Milliseconds (effective_ttl ttl)) t in
  match ans with
  | DbRefused (Some code) =>
      (Failed (if decide (code = "23505") then ErrKeyedLockHeld key
               else BackendError "cache.PgsqlKeyedLockStore.Acquire"), t)
  | _ =>
      match exec_rows "cache.PgsqlKeyedLockStore.Acquire" ans stmt t with
      | (Had O, t') => (Failed (ErrKeyedLockHeld key), t')
      | (Had _, t') => (Had tt, t')
      | (Failed err, t') => (Failed err, t')
      end
  end.

Definition Release (ans : DbAnswer) (holderID : string) (t : LockTable) :
    keyed_result nat * LockTable :=
  exec_rows "cache.PgsqlKeyedLockStore.Release" ans (sqlKeyedLockRelease holderID t) t.

Definition Refresh (now : Z) (ans : DbAnswer) (holderID : string) (ttl : Z) (t : LockTable) :
    keyed_result nat * LockTable :=
  exec_rows "cache.PgsqlKeyedLockStore.Refresh" ans
    (sqlKeyedLockRefresh now holderID (Milliseconds (effective_ttl ttl)) t) t.

(** A query: it changes nothing. *)
Definition IsHeldBy (now : Z) (ans : DbAnswer) (holderID : string) (t : LockTable) :
    keyed_result bool :=
  match ans with
  | DbDone => Had (sqlKeyedLockIsHeldBy now holderID t)
  | _ => Failed (BackendError "cache.PgsqlKeyedLockStore.IsHeldBy")
  end.

Definition ReapExpired (now : Z) (ans : DbAnswer) (t : LockTable) : keyed_result nat * LockTable :=
  exec_rows "cache.PgsqlKeyedLockStore.ReapExpired" ans (sqlKeyedLockReapExpired now t) t.

(** ** Who has a lock *)

(** The row of a live lock. *)
Definition live (now : Z) (key : string) (t : LockTable) : option LockRow :=
  match t !! key with Some row => if expired now row then None else Some row | None => None end.

Lemma exec_rows_table what ans stmt t :
  (exec_rows what ans stmt t).2 = t ∨ (exec_rows what ans stmt t).2 = stmt.2.
Proof. destruct ans; auto. Qed.

Lemma Acquire_table now ans key holder ttl t :
  (Acquire now ans key holder ttl t).2 = t ∨
  (Acquire now ans key holder ttl t).2 =
    (sqlKeyedLockAcquire now key holder (Milliseconds (effective_ttl ttl)) t).2.
Proof.
  unfold Acquire. destruct (sqlKeyedLockAcquire _ _ _ _ _) as [n t'].
  destruct ans as [|[]| |]; simpl; auto. destruct n; auto.
Qed.

Lemma Acquire_live now ans key holder ttl t row :
  live now key t = Some row →
  (Acquire now ans key holder ttl t).1 ≠ Had tt ∧ (Acquire now ans key holder ttl t).2 = t ∧
  (ans = DbDone → (Acquire now ans key holder ttl t).1 = Failed (ErrKeyedLockHeld key)).
Proof.
  unfold live, Acquire, sqlKeyedLockAcquire. intros Hl.
  destruct (t !! key) as [old|]; [|done]. destruct (expired now old) eqn:He; [done|].
  destruct ans as [|[]| |]; done.
Qed.

Lemma Acquire_free now ans key holder ttl t :
  live now key t = None →
  sqlKeyedLockAcquire now key holder (Milliseconds (effective_ttl ttl)) t =
    (1, <[key := mkLockRow holder now
           (now + milliseconds_interval (Milliseconds (effective_ttl ttl)))]> t) ∧
  (ans = DbDone → (Acquire now ans key holder ttl t).1 = Had tt) ∧
  ((Acquire now ans key holder ttl t).1 = Had tt → ans = DbDone).
Proof.
  unfold live, Acquire, sqlKeyedLockAcquire. intros Hl.
  assert (match t !! key with None => true | Some old => expired now old end = true) as Hfree
    by (destruct (t !! key); [by destruct (expired now l)|done]).
  destruct (t !! key) as [old|]; [rewrite Hfree|]; split; try done; destruct ans as [|[]| |]; done.
Qed.

(** ** Other holders

    What can happen while [holder] does nothing but perhaps acquire further
    locks: time passes, the others use the store, and expired rows are
    reaped. *)

Inductive keyed_step (holder : string) : Z * LockTable → Z * LockTable → Prop :=
  | keyed_acquire now ans key h ttl t :
      keyed_step holder (now, t) (now, (Acquire now ans key h ttl t).2)
  | keyed_release now ans h t :
      h ≠ holder → keyed_step holder (now, t) (now, (Release ans h t).2)
  | keyed_refresh now ans h ttl t :
      h ≠ holder → keyed_step holder (now, t) (now, (Refresh now ans h ttl t).2)
  | keyed_reap now ans t : keyed_step holder (now, t) (now, (ReapExpired now ans t).2)
  | keyed_time now now' t : (now ≤ now')%Z → keyed_step holder (now, t) (now', t).

(** The row of [key] stays, as long as it is live. *)
Definition stays (holder key : string) (row : LockRow) (s : Z * LockTable) : Prop :=
  (s.1 < expires_at row)%Z → s.2 !! key = Some row.

Lemma keyed_step_stays holder key row s s' :
  holder_id row = holder → keyed_step holder s s' → stays holder key row s → stays holder key row s'.
Proof.
  intros Hrow Hstep. unfold stays.
  destruct Hstep as [now ans k h ttl t|now ans h t Hh|now ans h ttl t Hh|now ans t|now now' t Hle];
    simpl; intros Hs Hlive; [specialize (Hs Hlive)..|apply Hs; lia].
  - destruct (Acquire_table now ans k h ttl t) as [->| ->]; [done|].
    destruct (decide (k = key)) as [->|Hne].
    + unfold sqlKeyedLockAcquire, expired. rewrite Hs.
      destruct (expires_at row <=? now)%Z eqn:He; [apply Z.leb_le in He; lia|done].
    + unfold sqlKeyedLockAcquire. destruct (t !! k) as [old|];
        [destruct (expired now old); [|done]|]; simpl; by rewrite lookup_insert_ne.
  - unfold Release. match goal with |- (exec_rows ?a ?b ?c ?d).2 !! _ = _ =>
      destruct (exec_rows_table a b c d) as [->| ->] end; [done|].
    simpl. apply map_lookup_filter_Some. split; [done|]. unfold held_by. simpl. congruence.
  - unfold Refresh. match goal with |- (exec_rows ?a ?b ?c ?d).2 !! _ = _ =>
      destruct (exec_rows_table a b c d) as [->| ->] end; [done|].
    simpl. rewrite lookup_fmap, Hs. simpl. by rewrite decide_False by congruence.
  - unfold ReapExpired. match goal with |- (exec_rows ?a ?b ?c ?d).2 !! _ = _ =>
      destruct (exec_rows_table a b c d) as [->| ->] end; [done|].
    simpl. apply map_lookup_filter_Some. split; [done|]. unfold expired. simpl. apply Z.leb_gt. lia.
Qed.

Lemma keyed_steps_stay holder key row s s' :
  holder_id row = holder → rtc (keyed_step holder) s s' → stays holder key row s →
  stays holder key row s'.
Proof. intros Hrow. induction 1; eauto using keyed_step_stays. Qed.

(** C25: once [Acquire] has returned nil, no [Acquire] of the same key succeeds
    before the time to live, cut to milliseconds, is over, whatever the other
    holders do and whichever statements fail: late releases and refreshes of
    other holders, a release of an expired holder among them, and the reaper
    leave the lock alone. *)
Theorem keyed_lock_excludes now0 ans0 key holder ttl t0 now t ans h' ttl' :
  (Acquire now0 ans0 key holder ttl t0).1 = Had tt →
  rtc (keyed_step holder) (now0, (Acquire now0 ans0 key holder ttl t0).2) (now, t) →
  (now < now0 + milliseconds_interval (Milliseconds (effective_ttl ttl)))%Z →
  (Acquire now ans key h' ttl' t).1 ≠ Had tt ∧ (Acquire now ans key h' ttl' t).2 = t.
Proof.
  intros Hacq Hsteps Hnow.
  destruct (live now0 key t0) as [row|] eqn:Hl; [by destruct (Acquire_live now0 ans0 key holder ttl t0 row)|].
  destruct (Acquire_free now0 ans0 key holder ttl t0 Hl) as (Hstmt & _ & Hans).
  specialize (Hans Hacq) as ->. unfold Acquire in Hsteps at 1. rewrite Hstmt in Hsteps. simpl in Hsteps.
  apply (keyed_steps_stay holder key (mkLockRow holder now0
    (now0 + milliseconds_interval (Milliseconds (effective_ttl ttl))))) in Hsteps; [|done|].
  - unfold stays in Hsteps. simpl in Hsteps. specialize (Hsteps Hnow).
    edestruct (Acquire_live now ans key h' ttl' t) as (? & ? & _); [|done].
    unfold live. rewrite Hsteps. unfold expired. simpl.
    by rewrite (proj2 (Z.leb_gt _ _)) by done.
  - intros _. simpl. apply lookup_insert_eq.
Qed.

(** Alice takes the lock of a vault for a second; Bob releases and refreshes
    what is his, the reaper runs, and Bob cannot have the lock. *)
Lemma keyed_lock_excludes_witness :
  let t1 := (Acquire 0 DbDone "vault" "alice" 1000000000 ∅).2 in
  let t2 := (ReapExpired 900000 DbDone (Release DbDone "bob" t1).2).2 in
  (Acquire 900000 DbDone "vault" "bob" 1000000000 t2).1 = Failed (ErrKeyedLockHeld "vault") ∧
  (Acquire 1000000 DbDone "vault" "bob" 1000000000 t2).1 = Had tt ∧
  (Acquire 900000 DbDone "vault" "bob" 1000000000 t2).1 ≠ Had tt ∧
  (Acquire 900000 DbDone "vault" "bob" 1000000000 t2).2 = t2.
Proof.
  split; [vm_compute; reflexivity|]. split; [vm_compute; reflexivity|].
  apply (keyed_lock_excludes 0 DbDone "vault" "alice" 1000000000 ∅ 900000); [vm_compute; reflexivity| |].
  - eapply rtc_l; [apply (keyed_release _ 0 DbDone "bob"); discriminate|].
    eapply rtc_l; [apply (keyed_time _ 0 900000); lia|].
    eapply rtc_l; [apply (keyed_reap _ 900000 DbDone)|]. apply rtc_refl.
  - vm_compute. reflexivity.
Defined.

(** [Acquire] tells the truth about the lock: nil means that the row is the
    caller's, [ErrKeyedLockHeld] without an error of the server that a live row
    is there and nothing has changed; after any other error the lock may have
    been taken (the reply was lost), and a [Release] that goes through deletes
    all rows of the holder, so that a failed operation can be cleaned up. *)
Theorem Acquire_answers now ans key holder ttl t :
  let out := Acquire now ans key holder ttl t in
  (out.1 = Had tt → ans = DbDone ∧ live now key t = None ∧
     out.2 !! key = Some (mkLockRow holder now
       (now + milliseconds_interval (Milliseconds (effective_ttl ttl))))) ∧
  (out.1 = Failed (ErrKeyedLockHeld key) → out.2 = t ∧
     (ans = DbRefused (Some "23505") ∨ ∃ row, live now key t = Some row)) ∧
  (∀ k, k ≠ key → out.2 !! k = t !! k) ∧
  ∀ k row, (Release DbDone holder out.2).2 !! k = Some row → holder_id row ≠ holder ∧ t !! k = Some row.
Proof.
  intros out. unfold out. destruct (live now key t) as [row|] eqn:Hl.
  - destruct (Acquire_live now ans key holder ttl t row Hl) as (Hno & -> & Hheld).
    split_and!; [done|by eauto|done|].
    intros k r Hr. by apply map_lookup_filter_Some in Hr as [? ?].
  - destruct (Acquire_free now ans key holder ttl t Hl) as (Hstmt & Hdone & Hans).
    split_and!.
    + intros Ha. specialize (Hans Ha) as ->. split_and!; [done..|].
      unfold Acquire. rewrite Hstmt. simpl. apply lookup_insert_eq.
    + unfold Acquire. rewrite Hstmt. destruct ans as [|[code|]| |]; simpl; try done.
      case_decide; [|done]. intros _. subst. auto.
    + intros k Hk. destruct (Acquire_table now ans key holder ttl t) as [->| ->]; [done|].
      rewrite Hstmt. simpl. by rewrite lookup_insert_ne.
    + intros k r Hr. apply map_lookup_filter_Some in Hr as [Hr Hh]. split; [done|].
      destruct (Acquire_table now ans key holder ttl t) as [Heq|Heq]; rewrite Heq in Hr; [done|].
      rewrite Hstmt in Hr. simpl in Hr. destruct (decide (k = key)) as [->|].
      * rewrite lookup_insert_eq in Hr. by simplify_eq.
      * by rewrite lookup_insert_ne in Hr.
Qed.

(** A time to live below a millisecond is cut to nothing: the lock is given,
    and given again at once. *)
Theorem submillisecond_lock_is_no_lock :
  let t1 := (Acquire 0 DbDone "vault" "alice" 999999 ∅).2 in
  (Acquire 0 DbDone "vault" "alice" 999999 ∅).1 = Had tt ∧
  (Acquire 0 DbDone "vault" "bob" 999999 t1).1 = Had tt.
Proof. by vm_compute. Qed.
