(* ===== verification/Random.v ===== *)
(** * Random identifiers

    [pkg/common/random.go].  [crypto/rand] is a parameter: the numbers that
    [rand.Int] returns, one per call, each below the bound it is given. *)

From Stdlib Require Import Strings.Ascii Strings.String.
From S2P Require Import Prelude.
Local Open Scope string_scope.
#[local] Arguments String.append !_ _ / : simpl nomatch.

(** ** The code *)

(** The [i]-th call of [rand.Int(rand.Reader, big.NewInt(max))]. *)
Definition rand_Int (draws : nat → nat) (max i : nat) : nat := draws i mod max.

(** [alphabet[i]] *)
Definition char_at (alphabet : string) (i : nat) : ascii :=
  default "0"%char (String.get i alphabet).

(** [for i := range b { b[i] = alphabet[rand.Int(len(alphabet))] }], from
    index [i] on. *)
Fixpoint random_chars (alphabet : string) (draws : nat → nat) (i n : nat) : string :=
  match n with
  | 0 => ""
  | S n => String (char_at alphabet (rand_Int draws (String.length alphabet) i))
             (random_chars alphabet draws (S i) n)
  end.

Definition alphanumericAlphabet : string :=
  "abcdefghijklmnopqrstuvwxyzABCDEFGHIJKLMNOPQRSTUVWXYZ0123456789".

Definition random_string (draws : nat → nat) (n : nat) : string :=
  random_chars alphanumericAlphabet draws 0 n.

Definition alphanumericNoSimilarAlphabet : string :=
  "23456789ABCDEFGHJKLMNPQRSTUVWXYZabcdefghjkmnpqrstuvwxyz".

Definition SecureRandomStringNoSimilar (draws : nat → nat) (n : nat) : string :=
  random_chars alphanumericNoSimilarAlphabet draws 0 n.

(** [out] is filled in order; a hyphen follows the third and the sixth
    digit. *)
Fixpoint random_digits (draws : nat → nat) (i n : nat) : string :=
  match n with
  | 0 => ""
  | S n =>
      String (char_at "123456789" (rand_Int draws 9 i))
        ((if decide (i = 2 ∨ i = 5) then "-" else "") ++ random_digits draws (S i) n)
  end.

Definition SecureRandomId (draws : nat → nat) : string := random_digits draws 0 9.

Definition is_alphanumeric (c : ascii) : bool :=
  let n := N_of_ascii c in
  ((97 <=? n)%N && (n <=? 122)%N) || ((65 <=? n)%N && (n <=? 90)%N) ||
  ((48 <=? n)%N && (n <=? 57)%N).

(** A rune outside ASCII is made of bytes outside ASCII, all dropped. *)
Fixpoint sanitizeIidPrefix (prefix : string) : string :=
  match prefix with
  | "" => ""
  | String r prefix =>
      if is_alphanumeric r then String r (sanitizeIidPrefix prefix)
      else sanitizeIidPrefix prefix
  end.

Definition GenerateTaggedIid (draws : nat → nat) (category prefix : string) : string :=
  let tag := sanitizeIidPrefix prefix in
  if decide (tag = "") then category ++ "_" ++ SecureRandomId draws
  else category ++ "_" ++ tag ++ "_" ++ SecureRandomId draws.

Definition GenerateAccountIid draws prefix := GenerateTaggedIid draws "acc" prefix.
Definition GenerateLegalStructureIid draws prefix := GenerateTaggedIid draws "legstr" prefix.
Definition GenerateLegalMechanismIid draws prefix := GenerateTaggedIid draws "legmech" prefix.
Definition GenerateLegalMechanismDeploymentIid draws prefix :=
  GenerateTaggedIid draws "legmechdep" prefix.

(** ** Facts *)

(** Every character satisfies a test. *)
Fixpoint all_chars (p : ascii → bool) (s : string) : bool :=
  match s with "" => true | String c s => p c && all_chars p s end.

Lemma random_chars_length alphabet draws i n :
  String.length (random_chars alphabet draws i n) = n.
Proof. revert i. induction n as [|n IH]; intros i; simpl; auto. Qed.

Lemma all_chars_get p s i c :
  all_chars p s = true → String.get i s = Some c → p c = true.
Proof.
  revert i. induction s as [|a s IH]; intros [|i]; simpl; try done;
    intros [Ha Hs]%andb_true_iff.
  - by intros [= <-].
  - by apply IH.
Qed.

Lemma get_length s i : i < String.length s → is_Some (String.get i s).
Proof.
  revert i. induction s as [|a s IH]; intros [|i]; simpl; try lia; [by eexists|].
  intros ?. apply IH. lia.
Qed.

Lemma char_at_all p alphabet i :
  all_chars p alphabet = true → i < String.length alphabet → p (char_at alphabet i) = true.
Proof.
  intros Ha Hi. unfold char_at. destruct (get_length _ _ Hi) as [c Hc]. rewrite Hc. simpl.
  by eapply all_chars_get.
Qed.

(** The characters of a random string are characters of its alphabet. *)
Lemma random_chars_all p alphabet draws i n :
  all_chars p alphabet = true → 0 < String.length alphabet →
  all_chars p (random_chars alphabet draws i n) = true.
Proof.
  intros Ha Hl. revert i. induction n as [|n IH]; intros i; simpl; [done|].
  apply andb_true_iff. split; [|apply IH]. apply char_at_all; [done|].
  unfold rand_Int. apply Nat.mod_upper_bound. lia.
Qed.

Lemma random_string_alphanumeric draws n :
  all_chars is_alphanumeric (random_string draws n) = true.
Proof. apply random_chars_all; [done|simpl; lia]. Qed.

Lemma random_string_nonempty draws n : 0 < n → random_string draws n ≠ "".
Proof.
  intros Hn Heq. apply (f_equal String.length) in Heq. unfold random_string in Heq.
  rewrite random_chars_length in Heq. simpl in Heq. lia.
Qed.

Lemma sanitizeIidPrefix_alphanumeric s : all_chars is_alphanumeric (sanitizeIidPrefix s) = true.
Proof.
  induction s as [|c s IH]; simpl; [done|].
  destruct (is_alphanumeric c) eqn:Hc; simpl; [by rewrite Hc|done].
Qed.

Lemma sanitizeIidPrefix_id s : all_chars is_alphanumeric s = true → sanitizeIidPrefix s = s.
Proof.
  induction s as [|c s IH]; simpl; [done|]. intros [Hc Hs]%andb_true_iff.
  by rewrite Hc, IH.
Qed.

(** ** Properties *)

Lemma string_app_length (s t : string) :
  String.length (s ++ t) = String.length s + String.length t.
Proof. induction s as [|c s IH]; simpl; auto. Qed.

Lemma random_digits_length draws i n :
  String.length (random_digits draws i n) =
  n + (if decide (i ≤ 2 < i + n) then 1 else 0) + (if decide (i ≤ 5 < i + n) then 1 else 0).
Proof.
  revert i. induction n as [|n IH]; intros i; [by repeat case_decide; simpl; lia|].
  simpl. rewrite string_app_length, IH. repeat case_decide; simpl; lia.
Qed.

Lemma SecureRandomId_length draws : String.length (SecureRandomId draws) = 11.
Proof. apply random_digits_length. Qed.

Lemma string_app_split (s s' t t' : string) :
  String.length t = String.length t' → s ++ t = s' ++ t' → s = s' ∧ t = t'.
Proof.
  intros Ht. revert s'. induction s as [|c s IH]; intros [|c' s'] Heq; simpl in *.
  - done.
  - apply (f_equal String.length) in Heq. simpl in Heq. rewrite string_app_length in Heq. lia.
  - apply (f_equal String.length) in Heq. simpl in Heq. rewrite string_app_length in Heq. lia.
  - injection Heq as -> Heq. by destruct (IH _ Heq) as [-> ->].
Qed.

(** A random string has the length asked for and holds nothing but letters
    and digits, whatever the random source draws. *)
Theorem random_string_shape draws n :
  String.length (random_string draws n) = n ∧
  all_chars is_alphanumeric (random_string draws n) = true.
Proof. split; [apply random_chars_length|apply random_string_alphanumeric]. Qed.

(** A tagged identifier determines its tag and its random part: two of the
    same category are equal only if both are. *)
Theorem GenerateTaggedIid_determines category draws draws' prefix prefix' :
  GenerateTaggedIid draws category prefix = GenerateTaggedIid draws' category prefix' →
  sanitizeIidPrefix prefix = sanitizeIidPrefix prefix' ∧
  SecureRandomId draws = SecureRandomId draws'.
Proof.
  unfold GenerateTaggedIid.
  assert (∀ s t, category ++ s = category ++ t → s = t) as Hcat.
  { intros s t. induction category as [|c l IH]; simpl; [done|]. intros [= ?]. auto. }
  pose proof (SecureRandomId_length draws) as Hl. pose proof (SecureRandomId_length draws') as Hl'.
  revert Hl Hl'. generalize (SecureRandomId draws) (SecureRandomId draws'). intros r r' Hl Hl'.
  assert (∀ tag tag' d d', String.length d = 11 → String.length d' = 11 →
    tag ++ "_" ++ d = tag' ++ "_" ++ d' → tag = tag' ∧ d = d') as Hsplit.
  { intros tag tag' d d' Hd Hd' Heq. apply string_app_split in Heq as [-> Heq].
    - by injection Heq.
    - rewrite !string_app_length. lia. }
  destruct (decide (sanitizeIidPrefix prefix = "")) as [Htag|Htag],
    (decide (sanitizeIidPrefix prefix' = "")) as [Htag'|Htag'];
    intros Heq%Hcat; simpl in Heq; injection Heq as Heq.
  - by rewrite Htag, Htag', Heq.
  - exfalso. apply (f_equal String.length) in Heq. rewrite string_app_length in Heq. simpl in Heq.
    rewrite Hl, Hl' in Heq. destruct (sanitizeIidPrefix prefix'); [done|simpl in Heq; lia].
  - exfalso. apply (f_equal String.length) in Heq. rewrite string_app_length in Heq. simpl in Heq.
    rewrite Hl, Hl' in Heq. destruct (sanitizeIidPrefix prefix); [done|simpl in Heq; lia].
  - by apply Hsplit.
Qed.

Lemma GenerateTaggedIid_determines_witness :
  sanitizeIidPrefix "a-b" = sanitizeIidPrefix "ab" ∧
  SecureRandomId (λ i, i) = SecureRandomId (λ i, 9 + i).
Proof. apply (GenerateTaggedIid_determines "acc"). vm_compute. reflexivity. Defined.
