(* ===== verification/Naming.v ===== *)
(** * Names derived from identifiers

    The format strings of [pkg/trax/common.go] (idempotency keys, exchange,
    queue and routing-key names), the key of the coordinator's map of
    initialised steps, and the table names of [pkg/trax/store_psql.go] with
    the case mask that makes them case-insensitive.  [fmt.Sprintf] with only
    [%s] verbs is concatenation.  Two identifiers that collide here share a
    row, a queue or a table, so the theorems of this part say when the names
    are injective. *)

From S2P Require Import Prelude Model.
From Stdlib Require Import Strings.Ascii Strings.String.
Local Open Scope string_scope.
#[local] Arguments String.append !_ _ / : simpl nomatch.

(** ** [common.go] *)

Definition getSagaIdempotencyKey (clusterId zoneId sagaTemplateId sagaInstanceId : string) : string :=
  "sidk:" ++ clusterId ++ "." ++ zoneId ++ "." ++ sagaTemplateId ++ "." ++ sagaInstanceId.

Definition getSagaStepIdempotencyKey
    (clusterId zoneId sagaTemplateId sagaStepTemplateId sagaInstanceId : string) : string :=
  "ssidk:" ++ clusterId ++ "." ++ zoneId ++ "." ++ sagaTemplateId ++ "." ++
    sagaStepTemplateId ++ "." ++ sagaInstanceId.

Definition saga_submitter_inbox_key (clusterId sagaSubmitterId : string) : string :=
  clusterId ++ "_traxcoord_saga_submitter_" ++ sagaSubmitterId ++ "_inbox".

Definition saga_submitter_outbox_key (clusterId sagaSubmitterId : string) : string :=
  clusterId ++ "_traxcoord_saga_submitter_" ++ sagaSubmitterId ++ "_outbox".

Definition getStepTopicExchangeName (clusterId : string) : string :=
  "x_" ++ clusterId ++ "_trax_saga_steps".

Definition getStepRequestRoutingKey
    (clusterId affinityGroup sagaTemplateId sagaStepTemplateId : string) : string :=
  clusterId ++ "." ++ affinityGroup ++ "." ++ sagaTemplateId ++ "." ++
    sagaStepTemplateId ++ ".request".

Definition getStepResponseRoutingKey
    (clusterId affinityGroup sagaTemplateId sagaStepTemplateId : string) : string :=
  clusterId ++ "." ++ affinityGroup ++ "." ++ sagaTemplateId ++ "." ++
    sagaStepTemplateId ++ ".response".

Definition getExecutorInboxBindingKey
    (clusterId sagaTemplateId sagaStepTemplateId : string) : string :=
  clusterId ++ ".*." ++ sagaTemplateId ++ "." ++ sagaStepTemplateId ++ ".request".

Definition getCoordinatorResultsBindingKey (clusterId affinityGroup : string) : string :=
  clusterId ++ "." ++ affinityGroup ++ ".*.*.response".

Definition getExecutorInboxQueueName
    (clusterId sagaTemplateId sagaStepTemplateId : string) : string :=
  "q_" ++ clusterId ++ "_trax_executor_" ++ sagaTemplateId ++ "_" ++ sagaStepTemplateId ++ "_inbox".

Definition getCoordinatorResultsQueueName (clusterId affinityGroup : string) : string :=
  "q_" ++ clusterId ++ "_trax_coordinator_" ++ affinityGroup ++ "_results".

(** ** The methods of [types.go] *)

Definition saga_SagaIdempotencyKey (si : SagaInstance) : string :=
  getSagaIdempotencyKey (si_ClusterId si) (si_ZoneId si) (si_SagaTemplateId si) (si_InstanceId si).

Definition step_SagaIdempotencyKey (ssi : SagaStepInstance) : string :=
  getSagaStepIdempotencyKey (ssi_ClusterId ssi) (ssi_ZoneId ssi) (ssi_SagaTemplateId ssi)
    (ssi_SagaStepTemplateId ssi) (ssi_InstanceId ssi).

(** ** Table names *)

(** [unicode.IsUpper] and [unicode.ToLower] on the ASCII range. *)
Definition is_upper (c : ascii) : bool := (65 <=? N_of_ascii c)%N && (N_of_ascii c <=? 90)%N.
Definition to_lower (c : ascii) : ascii :=
  if is_upper c then ascii_of_N (N_of_ascii c + 32) else c.

Fixpoint map_string (f : ascii → ascii) (s : string) : string :=
  match s with
  | EmptyString => EmptyString
  | String c s => String (f c) (map_string f s)
  end.

Definition case_mask (c : ascii) : ascii := if is_upper c then "u"%char else "l"%char.

Definition transformStringWithCaseMask (s : string) : string :=
  map_string to_lower s ++ "_" ++ map_string case_mask s.

Definition getSagaInstancesTableName (clusterId : string) : string :=
  "trax." ++ transformStringWithCaseMask clusterId ++ "_saga_instances".

Definition getSagaStepInstancesTableName (clusterId : string) : string :=
  "trax." ++ transformStringWithCaseMask clusterId ++ "_saga_step_instances".

Definition getSagaAnnexesTableName (clusterId : string) : string :=
  "trax." ++ transformStringWithCaseMask clusterId ++ "_saga_annexes".

(** ** Strings *)

Lemma string_app_cons c s t : String c s ++ t = String c (s ++ t).
Proof. done. Qed.

Lemma string_app_assoc (s t u : string) : (s ++ t) ++ u = s ++ t ++ u.
Proof. induction s as [|c s IH]; simpl; [done|]. by rewrite IH. Qed.

Lemma string_app_inj_l (s t u : string) : s ++ t = s ++ u → t = u.
Proof. induction s as [|c s IH]; simpl; [done|]. intros [= ?]. auto. Qed.

Lemma string_app_inj_len (s s' t t' : string) :
  String.length s = String.length s' → s ++ t = s' ++ t' → s = s' ∧ t = t'.
Proof.
  revert s'. induction s as [|c s IH]; intros [|c' s']; simpl; try done.
  intros [= Hlen] [= -> Heq]. by destruct (IH s' Hlen Heq) as [-> ->].
Qed.

Lemma string_length_app (s t : string) :
  String.length (s ++ t) = String.length s + String.length t.
Proof. induction s as [|c s IH]; simpl; [done|]. by rewrite IH. Qed.

Lemma string_app_inj_r (s t u : string) : s ++ u = t ++ u → s = t.
Proof.
  intros Heq. apply (f_equal String.length) in Heq as Hlen.
  rewrite !string_length_app in Hlen.
  by apply string_app_inj_len in Heq as [-> _]; [|lia].
Qed.

Lemma map_string_length f s : String.length (map_string f s) = String.length s.
Proof. induction s as [|c s IH]; simpl; [done|]. by rewrite IH. Qed.

(** [no_dot s]: the separator of the dotted keys does not occur in [s]. *)
Fixpoint no_char (d : ascii) (s : string) : bool :=
  match s with
  | EmptyString => true
  | String c s => if decide (c = d) then false else no_char d s
  end.
Abbreviation no_dot := (no_char "."%char).

(** A separator splits a string in one way only. *)
Lemma split_at_char d (s s' t t' : string) :
  no_char d s = true → no_char d s' = true →
  s ++ String d t = s' ++ String d t' → s = s' ∧ t = t'.
Proof.
  revert s'. induction s as [|c s IH]; intros [|c' s']; simpl.
  - by intros _ _ [= ->].
  - case_decide; [done|]. intros _ _ [= ??]. congruence.
  - case_decide; [done|]. intros _ _ [= ??]. congruence.
  - repeat case_decide; try done. intros H1 H2 [= -> Heq].
    by destruct (IH s' H1 H2 Heq) as [-> ->].
Qed.

Lemma split_at_dot (s s' t t' : string) :
  no_dot s = true → no_dot s' = true →
  s ++ "." ++ t = s' ++ "." ++ t' → s = s' ∧ t = t'.
Proof. apply split_at_char. Qed.

Lemma getSagaIdempotencyKey_inj_aux c z t i c' z' t' i' :
  no_dot c = true → no_dot z = true → no_dot t = true →
  no_dot c' = true → no_dot z' = true → no_dot t' = true →
  getSagaIdempotencyKey c z t i = getSagaIdempotencyKey c' z' t' i' →
  c = c' ∧ z = z' ∧ t = t' ∧ i = i'.
Proof.
  intros Hc Hz Ht Hc' Hz' Ht' Heq. apply string_app_inj_l in Heq.
  apply split_at_dot in Heq as [-> Heq]; [|done..].
  apply split_at_dot in Heq as [-> Heq]; [|done..].
  by apply split_at_dot in Heq as [-> ->].
Qed.

Lemma to_lower_mask_inj c c' :
  to_lower c = to_lower c' → case_mask c = case_mask c' → c = c'.
Proof.
  unfold to_lower, case_mask. destruct (is_upper c) eqn:Hc, (is_upper c') eqn:Hc';
    try done; try (intros _ ?; discriminate).
  intros Heq _. unfold is_upper in *. apply andb_true_iff in Hc as [H1 H2].
  apply andb_true_iff in Hc' as [H1' H2']. apply N.leb_le in H1, H2, H1', H2'.
  apply (f_equal N_of_ascii) in Heq. rewrite !N_ascii_embedding in Heq by lia.
  rewrite <-(ascii_N_embedding c), <-(ascii_N_embedding c'). f_equal. lia.
Qed.

Lemma masked_inj s s' :
  map_string to_lower s = map_string to_lower s' →
  map_string case_mask s = map_string case_mask s' → s = s'.
Proof.
  revert s'. induction s as [|c s IH]; intros [|c' s']; simpl; try done.
  intros [= Hl Hls] [= Hm Hms]. f_equal; [|by apply IH]. by apply to_lower_mask_inj.
Qed.

#[export] Instance transformStringWithCaseMask_inj : Inj (=) (=) transformStringWithCaseMask.
Proof.
  intros s s' Heq. unfold transformStringWithCaseMask in Heq.
  apply (f_equal String.length) in Heq as Hlen. rewrite !string_length_app in Hlen.
  rewrite !map_string_length in Hlen. simpl in Hlen.
  apply string_app_inj_len in Heq as [Hl Hm]; [|rewrite !map_string_length; lia].
  apply (string_app_inj_l "_") in Hm. by apply masked_inj.
Qed.

#[export] Instance getSagaInstancesTableName_inj : Inj (=) (=) getSagaInstancesTableName.
Proof.
  intros s s' Heq. apply string_app_inj_l, string_app_inj_r in Heq. by simplify_eq.
Qed.

#[export] Instance getSagaStepInstancesTableName_inj :
  Inj (=) (=) getSagaStepInstancesTableName.
Proof.
  intros s s' Heq. apply string_app_inj_l, string_app_inj_r in Heq. by simplify_eq.
Qed.

#[export] Instance getSagaAnnexesTableName_inj : Inj (=) (=) getSagaAnnexesTableName.
Proof.
  intros s s' Heq. apply string_app_inj_l, string_app_inj_r in Heq. by simplify_eq.
Qed.

(** ** The properties *)

(** Two clusters never share a table: the case mask makes up for the
    database folding table names to lower case. *)
Theorem table_names_distinct c c' :
  c ≠ c' →
  getSagaInstancesTableName c ≠ getSagaInstancesTableName c' ∧
  getSagaStepInstancesTableName c ≠ getSagaStepInstancesTableName c' ∧
  getSagaAnnexesTableName c ≠ getSagaAnnexesTableName c'.
Proof.
  intros Hne. split; [|split]; intros Heq; apply Hne.
  - by apply getSagaInstancesTableName_inj.
  - by apply getSagaStepInstancesTableName_inj.
  - by apply getSagaAnnexesTableName_inj.
Qed.

Lemma table_names_distinct_witness :
  getSagaInstancesTableName "Main" ≠ getSagaInstancesTableName "main" ∧
  getSagaStepInstancesTableName "Main" ≠ getSagaStepInstancesTableName "main" ∧
  getSagaAnnexesTableName "Main" ≠ getSagaAnnexesTableName "main".
Proof. apply table_names_distinct. done. Defined.

(** The names are lower case, whatever the cluster is called. *)
Example table_name_mixed :
  getSagaInstancesTableName "ABcDe" = "trax.abcde_uulul_saga_instances".
Proof. vm_compute. reflexivity. Qed.

(** The idempotency key of a saga tells its cluster, zone, template and
    identifier as long as the first three contain no dot... *)
Theorem saga_key_identifies si si' :
  no_dot (si_ClusterId si) = true → no_dot (si_ZoneId si) = true →
  no_dot (si_SagaTemplateId si) = true →
  no_dot (si_ClusterId si') = true → no_dot (si_ZoneId si') = true →
  no_dot (si_SagaTemplateId si') = true →
  saga_SagaIdempotencyKey si = saga_SagaIdempotencyKey si' →
  si_ClusterId si = si_ClusterId si' ∧ si_ZoneId si = si_ZoneId si' ∧
  si_SagaTemplateId si = si_SagaTemplateId si' ∧ si_InstanceId si = si_InstanceId si'.
Proof. apply getSagaIdempotencyKey_inj_aux. Qed.

Lemma saga_key_identifies_witness :
  si_InstanceId (sample_saga SagaStateEnum_Running "") = "s1" ∧
  saga_SagaIdempotencyKey (sample_saga SagaStateEnum_Running "") = "sidk:main.z1.order.s1" ∧
  si_InstanceId (sample_saga SagaStateEnum_Running "") =
  si_InstanceId (sample_saga SagaStateEnum_Blocked "").
Proof.
  split; [reflexivity|]. split; [reflexivity|].
  apply (saga_key_identifies (sample_saga SagaStateEnum_Running "")
    (sample_saga SagaStateEnum_Blocked "")); reflexivity.
Defined.

(** ... and with dots two sagas share a key, so that the second one counts
    as submitted already. *)
Example saga_key_collision :
  getSagaIdempotencyKey "main" "eu.west" "order" "1" =
  getSagaIdempotencyKey "main" "eu" "west.order" "1".
Proof. reflexivity. Qed.
