(* ===== verification/GoStrings.v ===== *)
(** * Strings of the Go standard library

    The functions of the package [strings] that several components call.  A
    string is a sequence of bytes; what a function does to characters outside
    ASCII is written out where it can produce an ASCII one. *)

From stdpp Require Import pretty numbers.
From S2P Require Import Prelude Naming.
From Stdlib Require Import Strings.Ascii.

(** [strings.Contains] *)
Fixpoint contains (pattern s : string) : bool :=
  String.prefix pattern s ||
  match s with EmptyString => false | String _ s => contains pattern s end.

(** Every character passes the test. *)
Fixpoint all_chars (p : ascii → bool) (s : string) : bool :=
  match s with EmptyString => true | String c s => p c && all_chars p s end.

Lemma all_chars_app p a b : all_chars p (a +:+ b) = all_chars p a && all_chars p b.
Proof.
  induction a as [|c a IH]; [done|]. change (String c a +:+ b) with (String c (a +:+ b)).
  cbn [all_chars]. by rewrite IH, andb_assoc.
Qed.

(** [strings.ToLower], as far as ASCII goes. *)
Definition lower (s : string) : string := map_string to_lower s.

Definition to_upper (c : ascii) : ascii :=
  if (97 <=? N_of_ascii c)%N && (N_of_ascii c <=? 122)%N then ascii_of_N (N_of_ascii c - 32) else c.

(** The characters beyond ASCII that have an ASCII letter as their upper
    case, the long s and the dotless i, as they are encoded; and those that
    [strings.EqualFold] takes for an ASCII letter, the long s and the Kelvin
    sign. *)
Definition long_s : string := String "197" (String "191" "").
Definition dotless_i : string := String "196" (String "177" "").
Definition kelvin_sign : string := String "226" (String "132" (String "170" "")).

(** Every occurrence, from left to right, of the first of the keys found is
    replaced; the rest is mapped byte by byte. *)
Fixpoint rewrite_bytes (keys : list (string * string)) (f : ascii → ascii) (skip : nat) (s : string) :
    string :=
  match s with
  | EmptyString => EmptyString
  | String c rest =>
      match skip with
      | S skip => rewrite_bytes keys f skip rest
      | O =>
          match List.find (λ k, String.prefix k.1 s) keys with
          | Some (key, value) => value +:+ rewrite_bytes keys f (String.length key - 1) rest
          | None => String (f c) (rewrite_bytes keys f 0 rest)
          end
      end
  end.

(** [strings.ToUpper], as far as an ASCII result can tell. *)
Definition ToUpper (s : string) : string :=
  rewrite_bytes [(long_s, "S"); (dotless_i, "I")] to_upper 0 s.

(** [strings.EqualFold] with an ASCII string on its right. *)
Definition EqualFold (s t : string) : bool :=
  String.eqb (rewrite_bytes [(long_s, "s"); (kelvin_sign, "k")] to_lower 0 s) (lower t).

(** [strings.ReplaceAll] with a string to look for that is not empty. *)
Definition ReplaceAll (s old new : string) : string := rewrite_bytes [(old, new)] (λ c, c) 0 s.

(** [strings.Join] *)
Definition Join (l : list string) (sep : string) : string := String.concat sep l.

(** The [unicode.IsSpace] characters, as they are encoded. *)
Definition spaces : list string :=
  let enc3 a b := (λ n, String (ascii_of_nat a) (String (ascii_of_nat b) (String (ascii_of_nat n) ""))) in
  ((λ n, String (ascii_of_nat n) "") <$> [9; 10; 11; 12; 13; 32]) ++
  [String "194" (String "133" ""); String "194" (String "160" "")] ++
  [enc3 225 154 128] ++ (enc3 226 128 <$> seq 128 11) ++ (enc3 226 128 <$> [168; 169; 175]) ++
  [enc3 226 129 159; enc3 227 128 128].

Fixpoint drop_string (n : nat) (s : string) : string :=
  match n, s with
  | O, _ => s
  | S n, String _ s => drop_string n s
  | S _, EmptyString => EmptyString
  end.

(** One space after another is taken off the front; a string has at most as
    many of them as bytes. *)
Fixpoint trim_front (enc : list string) (fuel : nat) (s : string) : string :=
  match fuel with
  | O => s
  | S fuel =>
      match List.find (λ k, String.prefix k s) enc with
      | Some k => trim_front enc fuel (drop_string (String.length k) s)
      | None => s
      end
  end.

Fixpoint rev_string (s : string) : string :=
  match s with EmptyString => EmptyString | String c s => rev_string s +:+ String c "" end.

(** [strings.TrimSpace] *)
Definition TrimSpace (s : string) : string :=
  let front := trim_front spaces (String.length s) s in
  rev_string (trim_front (rev_string <$> spaces) (String.length front) (rev_string front)).

(** [strings.LastIndex] of one byte. *)
Fixpoint last_index (d : ascii) (s : string) : option nat :=
  match s with
  | EmptyString => None
  | String c s =>
      match last_index d s with
      | Some i => Some (S i)
      | None => if decide (c = d) then Some 0 else None
      end
  end.

(** [strings.Split] by one byte, and [strings.SplitN] into two by a string:
    [None] when the string does not contain it. *)
Fixpoint Split (s : string) (d : ascii) : list string :=
  match s with
  | EmptyString => [EmptyString]
  | String c s =>
      if decide (c = d) then EmptyString :: Split s d
      else match Split s d with [] => [] | p :: ps => String c p :: ps end
  end.

Fixpoint cut (s sep : string) : option (string * string) :=
  if String.prefix sep s then Some ("", drop_string (String.length sep) s)
  else
    match s with
    | EmptyString => None
    | String c s => match cut s sep with Some (a, b) => Some (String c a, b) | None => None end
    end.

(** A string between double quotes, as the format strings of the JSON
    payloads have it: nothing is escaped. *)
Definition quoted (s : string) : string := String "034" (s +:+ String "034" "").

(** [%q]: [strconv.Quote]; the characters beyond ASCII are taken for
    printable ones. *)
Definition quote_char (c : ascii) : string :=
  let n := nat_of_ascii c in
  let hex k := String (ascii_of_nat (if k <? 10 then 48 + k else 87 + k)) "" in
  if (n =? 34) || (n =? 92) then String "092" (String c "")
  else if n =? 7 then "\a" else if n =? 8 then "\b" else if n =? 9 then "\t"
  else if n =? 10 then "\n" else if n =? 11 then "\v" else if n =? 12 then "\f"
  else if n =? 13 then "\r"
  else if (n <? 32) || (n =? 127) then "\x" +:+ hex (n / 16) +:+ hex (n mod 16)
  else String c "".

Fixpoint quote_chars (s : string) : string :=
  match s with EmptyString => "" | String c s => quote_char c +:+ quote_chars s end.

Definition Quote (s : string) : string := quoted (quote_chars s).

(** [{"key":"value",...}] *)
Definition json_text (fields : list (string * string)) : string :=
  "{" +:+ Join ((λ f : string * string, quoted f.1 +:+ ":" +:+ quoted f.2) <$> fields) "," +:+ "}".

Example strings_examples :
  ToUpper ("de" +:+ long_s +:+ "c") = "DESC" ∧ EqualFold ("De" +:+ long_s +:+ "C") "desc" = true ∧
  ReplaceAll "a $1 b $12 $1" "$1" "$2" = "a $2 b $22 $2" ∧
  TrimSpace (String "194" (String "160" "") +:+ "  x y " +:+ String "227" (String "128" (String "128" ""))) = "x y" ∧
  last_index "." "a.b.c" = Some 3.
Proof. vm_compute. repeat split; reflexivity. Qed.

(** ** Widths *)

Fixpoint spaces_of (n : nat) : string := match n with O => "" | S n => String " " (spaces_of n) end.

(** [utf8.RuneCountInString] of valid UTF-8: the bytes that begin a character. *)
Fixpoint rune_count (s : string) : nat :=
  match s with
  | EmptyString => 0
  | String c s => (if (128 <=? nat_of_ascii c) && (nat_of_ascii c <? 192) then 0 else 1) + rune_count s
  end.

(** [%ns] and [%-ns], which count characters. *)
Definition pad_left (n : nat) (s : string) : string := spaces_of (n - rune_count s) +:+ s.
Definition pad_right (n : nat) (s : string) : string := s +:+ spaces_of (n - rune_count s).

Fixpoint Repeat (s : string) (n : nat) : string :=
  match n with O => "" | S n => s +:+ Repeat s n end.

(** [s[len(s)-n:]] and [s[:n]] *)
Definition last_chars (n : nat) (s : string) : string := drop_string (String.length s - n) s.
Definition first_chars (n : nat) (s : string) : string := String.substring 0 n s.

Lemma contains_prefix (p s : string) : String.prefix p s = true → contains p s = true.
Proof. intros H. by destruct s; cbn [contains]; rewrite H. Qed.

Lemma prefix_app (p s : string) : String.prefix p (p +:+ s) = true.
Proof.
  induction p as [|c p IH]; [by destruct s|]. simpl. by destruct (Ascii.ascii_dec c c).
Qed.

Lemma contains_app (p t s : string) : contains p s = true → contains p (t +:+ s) = true.
Proof.
  intros H. induction t as [|c t IH]; [done|]. change (String c t +:+ s) with (String c (t +:+ s)). cbn [contains].
  by rewrite IH, orb_true_r.
Qed.

(** ** Durations as texts

    [time.ParseDuration] and [Duration.String], as the program uses them.  A
    duration is a number of nanoseconds; the fraction of a number is computed
    exactly, where Go goes through a float. *)

Definition FormatInt (z : Z) : string := pretty z.

Fixpoint zeros (n : nat) : string := match n with O => "" | S n => String "0" (zeros n) end.

(** [%02d] and [%03d] of a number that is not negative. *)
Definition padded_digits (n : nat) (z : Z) : string :=
  zeros (n - String.length (FormatInt z)) +:+ FormatInt z.

Definition second : Z := 1000000000.

Fixpoint strip_zeros (fuel : nat) (z : Z) : Z :=
  match fuel with
  | O => z
  | S fuel => if (Z.modulo z 10 =? 0)%Z then strip_zeros fuel (Z.div z 10) else z
  end.

(** The digits of [u] below [10^prec] after a point, without zeros at the end. *)
Definition fraction (prec : nat) (u : Z) : string :=
  let f := Z.modulo u (10 ^ Z.of_nat prec) in
  if (f =? 0)%Z then ""
  else
    let digits := padded_digits prec f in
    let stripped := FormatInt (strip_zeros prec f) in
    "." +:+ String.substring 0 (String.length digits - String.length (FormatInt f) + String.length stripped) digits.

(** [%v] of a duration. *)
Definition DurationString (d : Z) : string :=
  let u := Z.abs d in
  (if (d <? 0)%Z then "-" else "") +:+
  if (u =? 0)%Z then "0s"
  else if (u <? 1000)%Z then FormatInt u +:+ "ns"
  else if (u <? 1000000)%Z then FormatInt (Z.div u 1000) +:+ fraction 3 u +:+ "µs"
  else if (u <? second)%Z then FormatInt (Z.div u 1000000) +:+ fraction 6 u +:+ "ms"
  else
    let s := Z.div u second in
    let m := Z.div s 60 in
    let h := Z.div m 60 in
    (if (0 <? h)%Z then FormatInt h +:+ "h" else "") +:+
    (if (0 <? m)%Z then FormatInt (Z.modulo m 60) +:+ "m" else "") +:+
    FormatInt (Z.modulo s 60) +:+ fraction 9 u +:+ "s".

(** ** Parsing *)

Definition digit_value (c : ascii) : option Z :=
  let n := Z.of_N (N_of_ascii c) in if (48 <=? n)%Z && (n <=? 57)%Z then Some (n - 48)%Z else None.

Definition max_uint63 : Z := 2 ^ 63.

(** Digits at the front; [None] when the number is above [2^63]. *)
Fixpoint leadingInt (x : Z) (s : string) : option (Z * string) :=
  match s with
  | EmptyString => Some (x, s)
  | String c s' =>
      match digit_value c with
      | None => Some (x, s)
      | Some d =>
          if (max_uint63 / 10 <? x)%Z || (max_uint63 <? x * 10 + d)%Z then None
          else leadingInt (x * 10 + d) s'
      end
  end.

(** Digits after the point with their scale; those that do not fit are left
    out. *)
Fixpoint leadingFraction (overflow : bool) (x scale : Z) (s : string) : Z * Z * string :=
  match s with
  | EmptyString => (x, scale, s)
  | String c s' =>
      match digit_value c with
      | None => (x, scale, s)
      | Some d =>
          if overflow || ((max_uint63 - 1) / 10 <? x)%Z || (max_uint63 <? x * 10 + d)%Z
          then leadingFraction true x scale s'
          else leadingFraction false (x * 10 + d) (scale * 10) s'
      end
  end.

(** What stands before the next digit or point. *)
Fixpoint leading_unit (s : string) : string * string :=
  match s with
  | EmptyString => ("", "")
  | String c s' =>
      match digit_value c with
      | Some _ => ("", s)
      | None =>
          if Ascii.eqb c "." then ("", s)
          else let '(u, rest) := leading_unit s' in (String c u, rest)
      end
  end.

(** The two ways to write a micro sign. *)
Definition unit_value (u : string) : option Z :=
  match List.find (λ p, String.eqb p.1 u)
          [("ns", 1%Z); ("us", 1000%Z); ("µs", 1000%Z); ("μs", 1000%Z); ("ms", 1000000%Z); ("s", second);
           ("m", (60 * second)%Z); ("h", (3600 * second)%Z)] with
  | Some p => Some p.2
  | None => None
  end.

(** One number with its unit. *)
Definition parse_part (s : string) : option (Z * string) :=
  match leadingInt 0 s with
  | None => None
  | Some (v, s1) =>
      let pre := negb (String.length s =? String.length s1) in
      let '(f, scale, s2, post) :=
        match s1 with
        | String "." s' =>
            let '(f, scale, s2) := leadingFraction false 0 1 s' in
            (f, scale, s2, negb (String.length s' =? String.length s2))
        | _ => (0%Z, 1%Z, s1, false)
        end in
      if negb pre && negb post then None
      else
        let '(u, rest) := leading_unit s2 in
        match unit_value u with
        | None => None
        | Some unit =>
            if (max_uint63 / unit <? v)%Z then None
            else
              let v := (v * unit + f * unit / scale)%Z in
              if (max_uint63 <? v)%Z then None else Some (v, rest)
        end
  end.

Fixpoint parse_parts (fuel : nat) (d : Z) (s : string) : option Z :=
  match s with
  | EmptyString => Some d
  | _ =>
      match fuel with
      | O => None
      | S fuel =>
          match parse_part s with
          | Some (v, rest) => if (max_uint63 <? d + v)%Z then None else parse_parts fuel (d + v) rest
          | None => None
          end
      end
  end.

Definition ParseDuration (s : string) : option Z :=
  let '(neg, s) := match s with
                   | String "-" s => (true, s)
                   | String "+" s => (false, s)
                   | _ => (false, s)
                   end in
  match s with
  | EmptyString => None
  | _ =>
      if String.eqb s "0" then Some 0%Z
      else
        match parse_parts (String.length s) 0 s with
        | Some d => if neg then Some (- d)%Z else if (max_uint63 - 1 <? d)%Z then None else Some d
        | None => None
        end
  end.

Example durations_as_texts :
  DurationString <$> [600000000000; 2000000000; 1500000000; 3661001000000; 0; 1200000; 10; 60050000000]%Z =
    ["10m0s"; "2s"; "1.5s"; "1h1m1.001s"; "0s"; "1.2ms"; "10ns"; "1m0.05s"].
Proof. by vm_compute. Qed.

Example durations_parsed :
  ParseDuration <$> ["10m0s"; "1.5s"; "1h1m1.001s"; "0"; "-2ms"; ".5s"; "1"; "s"; ""; "3 s"; "9223372036854775807ns";
                     "9223372036854775808ns"; "-9223372036854775808ns"] =
    [Some 600000000000; Some 1500000000; Some 3661001000000; Some 0; Some (-2000000); Some 500000000; None; None;
     None; None; Some 9223372036854775807; None; Some (-9223372036854775808)]%Z.
Proof. by vm_compute. Qed.
