(* ===== verification/Retry.v ===== *)
(** * Retries and windows of time

    [IsRetryableDBError] and [RetryOnTransient] of [pkg/common/dbretry.go], and
    [FIXResetWindowAllows] of [pkg/common/fix_reset_window.go]. *)

From stdpp Require Import numbers.
From Stdlib Require Import Strings.Ascii.
From S2P Require Import Prelude GoMonad Model GoStrings.

(** ** Which errors are worth a retry *)

(** An error: whether it wraps [sql.ErrNoRows], and its text. *)
Record DbError := mkDbError { db_no_rows : bool; db_text : string }.

Definition retryableDBPatterns : list string :=
  ["connection reset by peer"; "broken pipe"; "driver: bad connection"; "i/o timeout";
   "connection refused"; "unexpected parse response"; "unexpected describe response";
   "unexpected commandcomplete"].

(** [strings.ToLower], as far as an ASCII result can tell: besides the capitals
    of ASCII, the Kelvin sign and the dotted I have small letters there. *)
Definition dotted_I : string := String "196" (String "176" "").
Definition ToLower (s : string) : string :=
  rewrite_bytes [(kelvin_sign, "k"); (dotted_I, "i")] Naming.to_lower 0 s.

Definition IsRetryableDBError (err : option DbError) : bool :=
  match err with
  | None => false
  | Some err =>
      if db_no_rows err then false
      else
        let errMsg := ToLower (db_text err) in
        existsb (λ pattern, contains pattern errMsg) retryableDBPatterns || contains "eof" errMsg
  end.

#[global] Arguments IsRetryableDBError : simpl never.

(** ** The retries *)

Section retry.
Context {T : Type}.

(** The answers: of the function that is called, by attempt; whether the
    context is done after it ([ctx.Err()]), and before the pause after it is
    over. *)
Record RetryEnv := mkRetryEnv {
  re_call : nat → T + DbError;
  re_done : nat → bool;
  re_done_in_pause : nat → option DbError;
}.

Context (env : RetryEnv) (maxRetries backoff : Z).

(** [backoff * (1 << uint(attempt))], a [time.Duration]. *)
Definition retry_delay (attempt : nat) : Z := wrap64 (backoff * wrap64 (2 ^ Z.of_nat attempt)).

(** The loop: what is returned, and the pauses made. *)
Fixpoint retry_loop (fuel attempt : nat) : option (T + DbError) * list Z :=
  match fuel with
  | O => (None, [])
  | S fuel =>
      match re_call env attempt with
      | inl result => (Some (inl result), [])
      | inr err =>
          if re_done env attempt then (Some (inr err), [])
          else if negb (IsRetryableDBError (Some err)) then (Some (inr err), [])
          else if (maxRetries <=? Z.of_nat attempt)%Z then (Some (inr err), [])
          else
            match re_done_in_pause env attempt with
            | Some ctxErr => (Some (inr ctxErr), [retry_delay attempt])
            | None =>
                let '(r, delays) := retry_loop fuel (S attempt) in
                (r, retry_delay attempt :: delays)
            end
      end
  end.

(** One turn more than there are retries is enough. *)
Definition RetryOnTransient : option (T + DbError) * list Z :=
  retry_loop (S (Z.to_nat maxRetries)) 0.

(** An attempt after which there is another one. *)
Definition goes_on (attempt : nat) : Prop :=
  ∃ err, re_call env attempt = inr err ∧ IsRetryableDBError (Some err) = true ∧
    re_done env attempt = false ∧ re_done_in_pause env attempt = None ∧
    (Z.of_nat attempt < maxRetries)%Z.

#[export] Instance goes_on_dec attempt : Decision (goes_on attempt).
Proof.
  unfold goes_on. destruct (re_call env attempt) as [|err]; [right; by intros (? & ? & _)|].
  destruct (IsRetryableDBError (Some err)) eqn:H1; [|right; intros (? & [= <-] & ? & _); congruence].
  destruct (re_done env attempt) eqn:H2; [right; by intros (? & _ & _ & ? & _)|].
  destruct (re_done_in_pause env attempt) eqn:H3; [right; by intros (? & _ & _ & _ & ? & _)|].
  destruct (decide (Z.of_nat attempt < maxRetries)%Z); [left; by exists err|].
  right. by intros (? & _ & _ & _ & _ & ?).
Defined.

(** What the last attempt comes to. *)
Definition conclusion (attempt : nat) : T + DbError :=
  match re_call env attempt with
  | inl result => inl result
  | inr err =>
      match re_done env attempt, IsRetryableDBError (Some err) && (Z.of_nat attempt <? maxRetries)%Z,
            re_done_in_pause env attempt with
      | false, true, Some ctxErr => inr ctxErr
      | _, _, _ => inr err
      end
  end.

Definition paused (attempt : nat) : bool :=
  match re_call env attempt with
  | inl _ => false
  | inr err =>
      negb (re_done env attempt) && IsRetryableDBError (Some err) &&
      (Z.of_nat attempt <? maxRetries)%Z
  end.

Lemma retry_loop_on fuel attempt :
  goes_on attempt →
  retry_loop (S fuel) attempt =
    ((retry_loop fuel (S attempt)).1, retry_delay attempt :: (retry_loop fuel (S attempt)).2).
Proof.
  intros (err & Hc & Hr & Hd & Hp & Hm). simpl. rewrite Hc, Hd, Hr, Hp. simpl.
  destruct (Z.leb_spec maxRetries (Z.of_nat attempt)); [lia|]. by destruct (retry_loop fuel (S attempt)).
Qed.

Lemma retry_loop_last fuel attempt :
  ¬ goes_on attempt →
  retry_loop (S fuel) attempt =
    (Some (conclusion attempt), if paused attempt then [retry_delay attempt] else []).
Proof.
  intros Hn. simpl. unfold conclusion, paused.
  destruct (re_call env attempt) as [r|err] eqn:Hc; [done|].
  destruct (re_done env attempt) eqn:Hd; simpl; [done|].
  destruct (IsRetryableDBError (Some err)) eqn:Hr; simpl; [|done].
  rewrite Z.leb_antisym. destruct (Z.ltb_spec (Z.of_nat attempt) maxRetries); simpl; [|done].
  destruct (re_done_in_pause env attempt) eqn:Hp; [done|].
  destruct Hn. by exists err.
Qed.

Lemma retry_loop_until fuel attempt k :
  k ≤ fuel → (∀ i, attempt ≤ i < attempt + k → goes_on i) → ¬ goes_on (attempt + k) →
  retry_loop (S fuel) attempt =
    (Some (conclusion (attempt + k)),
     (retry_delay <$> seq attempt k) ++ if paused (attempt + k) then [retry_delay (attempt + k)] else []).
Proof.
  revert fuel attempt. induction k as [|k IH]; intros fuel attempt Hk Hgo Hn.
  { rewrite Nat.add_0_r in *. by rewrite retry_loop_last. }
  destruct fuel as [|fuel]; [lia|].
  rewrite retry_loop_on by (apply Hgo; lia).
  rewrite IH; [| lia | intros i Hi; apply Hgo; lia | by rewrite Nat.add_succ_comm].
  rewrite Nat.add_succ_comm. done.
Qed.

(** The function is called until an attempt ends it: with success, with an error
    that is not transient, when the context is done, or when the retries are
    used up.  That happens after [maxRetries] retries at most, and the pause
    before each retry is twice the one before. *)
Theorem RetryOnTransient_runs :
  ∃ k, (Z.of_nat k ≤ Z.max 0 maxRetries)%Z ∧ (∀ i, i < k → goes_on i) ∧ ¬ goes_on k ∧
    RetryOnTransient =
      (Some (conclusion k), (retry_delay <$> seq 0 k) ++ if paused k then [retry_delay k] else []).
Proof.
  assert (Hex : ∃ k, ¬ goes_on k ∧ ∀ i, i < k → goes_on i).
  { assert (Hend : ¬ goes_on (Z.to_nat maxRetries)).
    { intros (_ & _ & _ & _ & _ & Hlt). lia. }
    revert Hend. generalize (Z.to_nat maxRetries) as n. intros n.
    induction n as [n IH] using lt_wf_ind. intros Hn.
    destruct (decide (Exists (λ i, ¬ goes_on i) (seq 0 n))) as [H|H].
    - apply Exists_exists in H as (i & Hi & Hgo). apply elem_of_seq in Hi.
      apply (IH i); [lia|done].
    - exists n. split; [done|]. intros i Hi. destruct (decide (goes_on i)) as [|Hgo]; [done|].
      destruct H. apply Exists_exists. exists i. split; [apply elem_of_seq; lia|done]. }
  destruct Hex as (k & Hn & Hgo). exists k.
  assert (Hk : k ≤ Z.to_nat maxRetries).
  { destruct k as [|k]; [lia|]. destruct (Hgo k) as (_ & _ & _ & _ & _ & Hlt); lia. }
  split_and!; [lia|done|done|]. unfold RetryOnTransient.
  apply (retry_loop_until _ 0 k); [done|intros i Hi; apply Hgo; lia|done].
Qed.

(** Without overflow the pauses double. *)
Lemma retry_delay_doubles attempt :
  (0 ≤ backoff * 2 ^ Z.of_nat attempt < 2 ^ 63)%Z → (0 < backoff)%Z →
  retry_delay attempt = (backoff * 2 ^ Z.of_nat attempt)%Z.
Proof.
  intros [H0 H] Hb. unfold retry_delay, wrap64.
  assert (Hp : (0 < 2 ^ Z.of_nat attempt)%Z) by (apply Z.pow_pos_nonneg; lia).
  assert (Hle : (2 ^ Z.of_nat attempt ≤ backoff * 2 ^ Z.of_nat attempt)%Z) by nia.
  rewrite (Z.mod_small (2 ^ Z.of_nat attempt + 2 ^ 63)) by lia.
  rewrite Z.add_simpl_r. rewrite Z.mod_small by lia. lia.
Qed.
End retry.
Arguments RetryEnv T : clear implicits.

(** ** The window for sequence resets *)

(** [time.Parse] with the layout [15:04]: one or two digits for the hour, two
    for the minute, nothing else; minutes since midnight. *)
Definition digit (c : ascii) : option Z :=
  let n := Z.of_N (N_of_ascii c) in
  if ((48 <=? n) && (n <=? 57))%Z then Some (n - 48)%Z else None.

Definition parse_minute (hour : Z) (s : string) : option Z :=
  match s with
  | String ":" (String c (String d "")) =>
      t ← digit c; u ← digit d;
      if ((hour <? 24) && (10 * t + u <? 60))%Z then Some (hour * 60 + (10 * t + u))%Z else None
  | _ => None
  end.

Definition parse_clock (s : string) : option Z :=
  match s with
  | String a rest =>
      h ← digit a;
      match rest with
      | String b rest' =>
          match digit b with
          | Some k => parse_minute (10 * h + k) rest'
          | None => parse_minute h rest
          end
      | _ => None
      end
  | _ => None
  end.

(** [strings.SplitN(spec, "-", 2)] and the parsing of both parts. *)
Definition parse_window (env_value : string) : option (Z * Z) :=
  let spec := TrimSpace env_value in
  parts ← cut spec "-";
  let '(a, b) := parts : string * string in
  start ← parse_clock (TrimSpace a);
  finish ← parse_clock (TrimSpace b);
  Some (start, finish).

(** The hour and minute of a time in seconds, in UTC. *)
Definition minute_of_day (unix : Z) : Z := ((unix / 60) mod 1440)%Z.

Definition FIXResetWindowAllows (env_value : string) (unix : Z) : bool :=
  match parse_window env_value with
  | None => false
  | Some (startMins, endMins) =>
      let nowMins := minute_of_day unix in
      if (startMins =? endMins)%Z then false
      else if (startMins <? endMins)%Z then ((startMins <=? nowMins) && (nowMins <? endMins))%Z
      else ((startMins <=? nowMins) || (nowMins <? endMins))%Z
  end.

Definition FIXResetWindowSpec (env_value : string) : string := TrimSpace env_value.

Lemma digit_range c d : digit c = Some d → (0 ≤ d ≤ 9)%Z.
Proof.
  unfold digit. destruct (Z.leb_spec 48 (Z.of_N (N_of_ascii c))); [|done].
  destruct (Z.leb_spec (Z.of_N (N_of_ascii c)) 57); [|done]. simpl. intros [= <-]. lia.
Qed.

Lemma parse_minute_range hour s m :
  (0 ≤ hour)%Z → parse_minute hour s = Some m → (0 ≤ m < 1440)%Z.
Proof.
  intros Hh. unfold parse_minute.
  destruct s as [|c0 [|c [|d [|? ?]]]]; try done; destruct c0 as [[][][][][][][][]]; try done.
  destruct (digit c) as [t|] eqn:Ht; simpl; [|done].
  destruct (digit d) as [u|] eqn:Hu; simpl; [|done].
  apply digit_range in Ht, Hu. destruct (Z.ltb_spec hour 24); [|done].
  destruct (Z.ltb_spec (10 * t + u) 60); [|done]. intros [= <-]. lia.
Qed.

Lemma parse_clock_range s m : parse_clock s = Some m → (0 ≤ m < 1440)%Z.
Proof.
  destruct s as [|a rest]; simpl; [done|]. destruct (digit a) as [h|] eqn:Ha; simpl; [|done].
  apply digit_range in Ha. destruct rest as [|b rest']; [done|].
  destruct (digit b) as [k|] eqn:Hb; [apply digit_range in Hb|]; apply parse_minute_range; lia.
Qed.

Lemma parse_window_range env_value start finish :
  parse_window env_value = Some (start, finish) → (0 ≤ start < 1440 ∧ 0 ≤ finish < 1440)%Z.
Proof.
  unfold parse_window. destruct (cut _ _) as [[a b]|]; simpl; [|done].
  destruct (parse_clock (TrimSpace a)) as [s|] eqn:Hs; simpl; [|done].
  destruct (parse_clock (TrimSpace b)) as [f|] eqn:Hf; simpl; [|done].
  intros [= <- <-]. apply parse_clock_range in Hs, Hf. lia.
Qed.

(** The window is a stretch of the circle of the day: a time is in it when it is
    less far past the start than the end is, midnight or not. *)
Theorem reset_window_is_an_arc env_value start finish unix :
  parse_window env_value = Some (start, finish) →
  FIXResetWindowAllows env_value unix = true ↔
    ((minute_of_day unix - start) mod 1440 < (finish - start) mod 1440)%Z.
Proof.
  intros Hp. pose proof (parse_window_range _ _ _ Hp) as [Hs Hf].
  unfold FIXResetWindowAllows. rewrite Hp.
  assert (Hn : (0 ≤ minute_of_day unix < 1440)%Z) by (unfold minute_of_day; apply Z.mod_pos_bound; lia).
  generalize dependent (minute_of_day unix). intros t Hn.
  assert (Hmod : (∀ z : Z, (0 ≤ z < 1440 → z mod 1440 = z) ∧ (-1440 ≤ z < 0 → z mod 1440 = z + 1440))%Z).
  { intros z. split; intros Hz; [by rewrite Z.mod_small|].
    symmetry. apply (Z.mod_unique_pos z 1440 (-1)); lia. }
  destruct (Hmod (t - start)%Z) as [Hn1 Hn2], (Hmod (finish - start)%Z) as [Hf1 Hf2].
  destruct (Z.eqb_spec start finish) as [->|Hne].
  { rewrite (Hf1 ltac:(lia)). split; [done|].
    pose proof (Z.mod_pos_bound (t - finish) 1440). lia. }
  destruct (Z.ltb_spec start finish), (Z.leb_spec start t), (Z.ltb_spec t finish); simpl;
    split; intros H'; try done;
    pose proof (Z.mod_pos_bound (t - start) 1440); pose proof (Z.mod_pos_bound (finish - start) 1440);
    lia.
Qed.

(** ** Examples *)

(** Two attempts that end in a lost connection, and a third. *)
Definition third_time_lucky : RetryEnv nat :=
  mkRetryEnv (λ n, if n <? 2 then inr (mkDbError false "write: Broken pipe") else inl 7)
    (λ _, false) (λ _, None).

Example three_attempts :
  RetryOnTransient third_time_lucky 3 1000000 = (Some (inl 7), [1000000; 2000000]%Z) ∧
  RetryOnTransient third_time_lucky 1 1000000 =
    (Some (inr (mkDbError false "write: Broken pipe")), [1000000]%Z).
Proof. by vm_compute. Qed.

(** A mistake in a query is retried when it mentions [pg_typeof]. *)
Example typeof_is_retried :
  IsRetryableDBError (Some (mkDbError false "pq: function pg_typeof(unknown, unknown) does not exist")) = true.
Proof. by vm_compute. Qed.

(** With sixty-four doublings there is no pause left. *)
Example delay_vanishes : retry_delay 1000000000 64 = 0%Z ∧ (retry_delay 1000000000 35 < 0)%Z.
Proof. by vm_compute. Qed.

Lemma reset_window_is_an_arc_witness :
  FIXResetWindowAllows " 23:30 - 0:30 " 1700006400 = true ↔ ((0 - 1410) mod 1440 < (30 - 1410) mod 1440)%Z.
Proof. apply (reset_window_is_an_arc " 23:30 - 0:30 " 1410 30 1700006400). by vm_compute. Defined.
