(* ===== verification/Helpers.v ===== *)
(** * Helpers

    The functions of [pkg/common/helpers.go] and [pkg/common/hash.go], and the
    identifiers of [pkg/common/random.go] that Random.v does not have.  The
    environment of the process is a map, in which a variable that is not set
    and one that is empty are the same; SHA-2 and the pseudo-random generator
    are parameters.  [big.Int] and [float64] are left out. *)

From stdpp Require Import pretty numbers gmap.
From Stdlib Require Import Strings.Ascii.
From S2P Require Import Prelude GoMonad Model GoStrings Retry.

(** ** Slices *)

(** [items[skip:end]]: [None] is a panic. *)
Definition slice_of {T} (items : list T) (skip finish : Z) : option (list T) :=
  if (0 <=? skip)%Z && (skip <=? finish)%Z && (finish <=? Z.of_nat (length items))%Z then
    Some (take (Z.to_nat (finish - skip)) (drop (Z.to_nat skip) items))
  else None.

Definition Paginate {T} (items : list T) (page pageSize : Z) : option (list T) :=
  let len := Z.of_nat (length items) in
  let skip := wrap64 (wrap64 (page - 1) * pageSize) in
  let skip := if (len <? skip)%Z then len else skip in
  let finish := wrap64 (skip + pageSize) in
  let finish := if (len <? finish)%Z then len else finish in
  slice_of items skip finish.

(** [s[i], s[j] = s[j], s[i]] *)
Definition swap {E} (i j : nat) (s : list E) : list E :=
  match s !! i, s !! j with
  | Some x, Some y => <[j := x]> (<[i := y]> s)
  | _, _ => s
  end.

(** The loop [for i < j]; the distance between them is enough fuel. *)
Fixpoint reverse_loop {E} (fuel i j : nat) (s : list E) : list E :=
  match fuel with
  | O => s
  | S fuel => if i <? j then reverse_loop fuel (S i) (j - 1) (swap i j s) else s
  end.

Definition Reverse {E} (s : list E) : list E := reverse_loop (length s) 0 (length s - 1) s.

(** ** Numbers in text *)

(** [strconv.ParseInt] and [strconv.ParseUint] in base 10. *)
Fixpoint parse_digits (acc : Z) (s : string) : option Z :=
  match s with
  | EmptyString => Some acc
  | String c s => d ← digit c; parse_digits (10 * acc + d)%Z s
  end.

Definition parse_natural (s : string) : option Z :=
  match s with EmptyString => None | _ => parse_digits 0 s end.

Definition ParseInt (s : string) : option Z :=
  z ← match s with
      | String "-" s => Z.opp <$> parse_natural s
      | String "+" s => parse_natural s
      | _ => parse_natural s
      end;
  if ((- 2 ^ 63 <=? z) && (z <? 2 ^ 63))%Z then Some z else None.

Definition ParseUint (s : string) : option Z :=
  z ← parse_natural s;
  if (z <? 2 ^ 64)%Z then Some z else None.

(** [None] is a panic. *)
Definition MustStrToInt64 : string → option Z := ParseInt.
Definition MustStrToUint64 : string → option Z := ParseUint.

(** ** Hexadecimal *)

Definition hex_value (c : ascii) : option Z :=
  let n := Z.of_N (N_of_ascii c) in
  if ((48 <=? n) && (n <=? 57))%Z then Some (n - 48)%Z
  else if ((97 <=? n) && (n <=? 102))%Z then Some (n - 87)%Z
  else if ((65 <=? n) && (n <=? 70))%Z then Some (n - 55)%Z
  else None.

(** [hex.DecodeString] *)
Fixpoint hex_decode (s : string) : option (list Z) :=
  match s with
  | EmptyString => Some []
  | String a (String b s) =>
      x ← hex_value a; y ← hex_value b;
      cons (16 * x + y)%Z <$> hex_decode s
  | String _ EmptyString => None
  end.

Definition hex_char (n : Z) : ascii :=
  ascii_of_N (Z.to_N (if (n <? 10)%Z then 48 + n else 87 + n)%Z).

(** [hex.EncodeToString] *)
Fixpoint hex_encode (bytes : list Z) : string :=
  match bytes with
  | [] => ""
  | b :: bytes => String (hex_char (b / 16)) (String (hex_char (b mod 16)) (hex_encode bytes))
  end.

(** [strings.TrimPrefix] *)
Definition TrimPrefix (s prefix : string) : string :=
  if String.prefix prefix s then drop_string (String.length prefix) s else s.

Definition SanitizeHexStr (hexStr : string) : string :=
  let hexStr := ToLower hexStr in
  if bool_decide (hexStr ∈ [""; "0x"; "0x0"; "0"]) then ""
  else TrimPrefix hexStr "0x".

Definition IsEVMAccountAddress (address : string) : bool :=
  if negb (String.length address =? 42) then false
  else if negb (String.prefix "0x" address) then false
  else match hex_decode (drop_string 2 address) with Some _ => true | None => false end.

(** The slice expression panics on a text of less than two bytes, and so does
    the function on one that is no hexadecimal; the rest of the array is 0. *)
Definition MustHexStrToBytes32 (hexStrWith0x : string) : option (list Z) :=
  if String.length hexStrWith0x <? 2 then None
  else
    decodedBuff ← hex_decode (drop_string 2 hexStrWith0x);
    Some (take 32 (decodedBuff ++ replicate 32 0%Z)).

Definition ToMilliSecTimestamp (timestamp : string) : string :=
  if (String.length timestamp =? 0) || String.eqb timestamp "0" then "0" else timestamp +:+ "000".

(** ** The environment *)

Definition Environment : Type := gmap string string.
Definition Getenv (env : Environment) (name : string) : string := default "" (env !! name).

Definition GetServiceBaseURL (env : Environment) (serviceName : string) : option string :=
  let name := ToLower serviceName in
  envVarName ←
    (if bool_decide (name ∈ ["traxcoord"; "traxcoord1"; "traxcoord2"; "traxcoord3"]) then
       Some "TRAX_COORDINATOR_BASE_URL"
     else if String.eqb name "test.traxcoord1" then Some "TRAX_COORDINATOR1_BASE_URL"
     else if String.eqb name "test.traxcoord2" then Some "TRAX_COORDINATOR2_BASE_URL"
     else if String.eqb name "test.traxcoord3" then Some "TRAX_COORDINATOR3_BASE_URL"
     else if String.eqb name "traxctrl" then Some "TRAX_CONTROLLER_BASE_URL"
     else None);
  if String.eqb (Getenv env envVarName) "" then None else Some (Getenv env envVarName).

Definition optional_services : list (string * string) :=
  [("csdmsggw", "CSD_MESSAGE_GATEWAY_BASE_URL"); ("csd_accmgr", "CSD_ACCOUNT_MANAGER_BASE_URL");
   ("tradeidxer", "TRADE_INDEXER_BASE_URL"); ("treasidxer", "TREASURY_INDEXER_BASE_URL");
   ("marketmgr", "MARKET_MANAGER_BASE_URL")].

Definition GetOptionalServiceBaseURL (env : Environment) (serviceName : string) : option string :=
  match List.find (λ s, String.eqb s.1 (ToLower serviceName)) optional_services with
  | Some (_, envVarName) => Some (Getenv env envVarName)
  | None => GetServiceBaseURL env serviceName
  end.

Definition AccountUidPrefix (env : Environment) : string :=
  if String.eqb (Getenv env "TRAX_CLUSTER_ID") "EXCHANGE" then "agora_exch_accuid_"
  else if String.eqb (Getenv env "TRAX_CLUSTER_ID") "PRTAGENT" then "agora_prta_accuid_"
  else "agora_sd_accuid_".

(** ** Texts in several languages *)

Definition GetLocalizedString (localizedMap : gmap string string) (currentLocale fallbackValue : string) :
    string :=
  match map_to_list localizedMap with
  | [] => fallbackValue
  | [(_, value)] => value
  | _ =>
      match (if String.eqb currentLocale "" then None else localizedMap !! currentLocale) with
      | Some value => value
      | None => default fallbackValue (localizedMap !! "en-US")
      end
  end.

Definition GetBestDescription (description : string) (descriptions : gmap string string)
    (currentLocale fallbackValue : string) : string :=
  if negb (String.eqb description "") then description
  else GetLocalizedString descriptions currentLocale fallbackValue.

(** ** Hashes

    Each hash is taken of its kind and its fields, with bars between them. *)

Inductive HashInput :=
  | OnChainOrder (chainId chainName engineAddr pairId orderId : string)
  | OffChainOrder (participantOrderId : string)
  | Trade (chainId chainName engineAddr pairId tradeId : string)
  | Activity (chainId chainName trezorAddr activityId : string)
  | OrderEvent (orderEventType : Z) (orderExchangeHash otherOrderExchangeHash tradeHash : string)
  | DirectOrder (chainId chainName engineAddr pairId orderId externalOid exchangeOid : string).

Definition hash_fields (input : HashInput) : list string :=
  match input with
  | OnChainOrder a b c d e => "agora-onchain-order" :: (ToLower <$> [a; b; c; d; e])
  | OffChainOrder a => ["agora-offchain-order"; a]
  | Trade a b c d e => "agora-trade" :: (ToLower <$> [a; b; c; d; e])
  | Activity a b c d => "trezor-activity" :: (ToLower <$> [a; b; c; d])
  | OrderEvent n a b c => "agora-order-event" :: pretty n :: (ToLower <$> [a; b; c])
  | DirectOrder a b c d e f g => "agora-direct-order" :: (ToLower <$> [a; b; c; d; e; f; g])
  end.

Definition hash_text (input : HashInput) : string := Join (hash_fields input) "|".

Section hashes.
Context (sha384 sha512 : string → list Z).

Definition hash_of (input : HashInput) : string := "0x" +:+ hex_encode (sha384 (hash_text input)).

Definition GetOnChainOrderHash a b c d e : string := hash_of (OnChainOrder a b c d e).
Definition GetOffChainOrderHash a : string := hash_of (OffChainOrder a).
Definition GetTradeHash a b c d e : string := hash_of (Trade a b c d e).
Definition GetActivityHash a b c d : string := hash_of (Activity a b c d).
Definition GetOrderEventHash n a b c : string := hash_of (OrderEvent n a b c).
Definition GetDirectOrderHash a b c d e f g : string := hash_of (DirectOrder a b c d e f g).

(** The last bytes; a negative number of them is a panic. *)
Definition HashSHA256 (input : string) (outputBytes : Z) : option string :=
  let hash := sha512 input in
  let len := Z.of_nat (length hash) in
  let outputBytes := if (len <? outputBytes)%Z then len else outputBytes in
  truncated ← slice_of hash (len - outputBytes) len;
  Some ("0x" +:+ hex_encode truncated).
End hashes.

(** [RandomHexString]: [None] when the source of randomness fails. *)
Definition RandomHexString (bytes : option (list Z)) : option string :=
  (λ b, "0x" +:+ hex_encode b) <$> bytes.

(** The seed of the generator: the first eight bytes of the digest, most
    significant first, as an [int64]; the generator is a parameter. *)
Definition numeric_seed (digest : list Z) : Z :=
  foldl (λ seed b, Z.lor (wrap64 (Z.shiftl seed 8)) b) 0%Z (take 8 digest).

Definition SeededRandomHexString (sha256 : string → list Z) (generate : Z → nat → list Z)
    (seed : string) (numBytes : nat) : string :=
  "0x" +:+ hex_encode (generate (numeric_seed (sha256 seed)) numBytes).

(** ** Laws *)

Lemma slice_of_inside {T} (items : list T) (skip finish : Z) :
  (0 ≤ skip ≤ finish)%Z → (finish ≤ Z.of_nat (length items))%Z →
  slice_of items skip finish = Some (take (Z.to_nat (finish - skip)) (drop (Z.to_nat skip) items)).
Proof.
  intros H1 H2. unfold slice_of. destruct (Z.leb_spec 0 skip); [|lia].
  destruct (Z.leb_spec skip finish); [|lia]. by destruct (Z.leb_spec finish (Z.of_nat (length items))); [|lia].
Qed.

(** Page by page, as long as the numbers fit. *)
Theorem Paginate_pages {T} (items : list T) page pageSize :
  (1 ≤ page)%Z → (0 ≤ pageSize)%Z → (page * pageSize + Z.of_nat (length items) < 2 ^ 63)%Z →
  Paginate items page pageSize =
    Some (take (Z.to_nat pageSize) (drop (Z.to_nat ((page - 1) * pageSize)) items)).
Proof.
  intros Hp Hs Hfit. destruct (decide (pageSize = 0)%Z) as [->|Hne].
  { unfold Paginate. cbv zeta. rewrite !Z.mul_0_r, !(wrap64_id 0) by done.
    rewrite (proj2 (Z.ltb_ge _ _)) by lia. rewrite !(wrap64_id (0 + 0)) by done. simpl Z.add.
    rewrite (proj2 (Z.ltb_ge _ _)) by lia. by rewrite slice_of_inside by lia. }
  assert (Hskip : (0 ≤ (page - 1) * pageSize)%Z) by nia.
  assert (Hpage : (page - 1 ≤ page * pageSize)%Z) by nia.
  unfold Paginate. rewrite (wrap64_id (page - 1)) by (unfold in_int64; lia).
  rewrite wrap64_id by (unfold in_int64; nia).
  destruct (Z.ltb_spec (Z.of_nat (length items)) ((page - 1) * pageSize)).
  - rewrite wrap64_id by (unfold in_int64; nia).
    destruct (Z.ltb_spec (Z.of_nat (length items)) (Z.of_nat (length items) + pageSize)); [|lia].
    rewrite slice_of_inside by lia. rewrite Z.sub_diag, Nat2Z.id, drop_all. simpl.
    f_equal. rewrite drop_ge by lia. by rewrite take_nil.
  - rewrite wrap64_id by (unfold in_int64; nia).
    destruct (Z.ltb_spec (Z.of_nat (length items)) ((page - 1) * pageSize + pageSize)).
    + rewrite slice_of_inside by lia. f_equal. rewrite !take_ge; [done|rewrite length_drop; lia|].
      rewrite length_drop. lia.
    + rewrite slice_of_inside by lia. do 2 f_equal. lia.
Qed.

(** A page before the first is a panic. *)
Lemma Paginate_panics {T} (items : list T) page pageSize :
  (- 2 ^ 31 ≤ page < 1)%Z → (0 < pageSize < 2 ^ 31)%Z → Paginate items page pageSize = None.
Proof.
  intros Hp Hs. unfold Paginate. rewrite (wrap64_id (page - 1)) by (unfold in_int64; lia).
  rewrite (wrap64_id ((page - 1) * pageSize)) by (unfold in_int64; nia).
  destruct (Z.ltb_spec (Z.of_nat (length items)) ((page - 1) * pageSize)); [nia|].
  unfold slice_of. by destruct (Z.leb_spec 0 ((page - 1) * pageSize)); [nia|].
Qed.

Lemma swap_ends {E} (a b : list E) x y m :
  swap (length a) (length a + S (length m)) (a ++ x :: m ++ y :: b) = a ++ y :: m ++ x :: b.
Proof.
  unfold swap. rewrite list_lookup_middle by done.
  assert (H : (a ++ x :: m ++ y :: b) !! (length a + S (length m)) = Some y).
  { rewrite lookup_app_r by lia. replace (length a + S (length m) - length a) with (S (length m)) by lia.
    simpl. by apply list_lookup_middle. }
  rewrite H. rewrite insert_app_r_alt by lia. rewrite Nat.sub_diag. simpl.
  rewrite insert_app_r_alt by lia. replace (length a + S (length m) - length a) with (S (length m)) by lia.
  simpl. rewrite insert_app_r_alt by lia. by rewrite Nat.sub_diag.
Qed.

Lemma reverse_loop_middle {E} fuel (a m b : list E) :
  length m ≤ fuel →
  reverse_loop fuel (length a) (length a + length m - 1) (a ++ m ++ b) = a ++ reverse m ++ b.
Proof.
  revert a m b. induction fuel as [|fuel IH]; intros a m b Hf.
  { by destruct m; simpl in Hf; [|lia]. }
  destruct m as [|x m]; simpl.
  { rewrite Nat.add_0_r. destruct (Nat.ltb_spec (length a) (length a - 1)); [lia|done]. }
  destruct m as [|y m _] using rev_ind; simpl.
  { destruct (Nat.ltb_spec (length a) (length a + 1 - 1)); [lia|done]. }
  rewrite length_app. simpl.
  destruct (Nat.ltb_spec (length a) (length a + S (length m + 1) - 1)); [|lia].
  replace (length a + S (length m + 1) - 1) with (length a + S (length m)) by lia.
  rewrite <- app_assoc. simpl. rewrite swap_ends.
  specialize (IH (a ++ [y]) m (x :: b)). rewrite length_app in IH. simpl in IH.
  rewrite <- !app_assoc in IH. simpl in IH.
  replace (S (length a)) with (length a + 1) by lia.
  replace (length a + S (length m) - 1) with (length a + 1 + length m - 1) by lia.
  rewrite IH by (simpl in Hf; rewrite length_app in Hf; simpl in Hf; lia).
  rewrite reverse_cons, reverse_app. simpl. by rewrite <- !app_assoc.
Qed.

(** The loop of swaps turns the slice round. *)
Theorem Reverse_reverses {E} (s : list E) : Reverse s = reverse s.
Proof.
  unfold Reverse. pose proof (reverse_loop_middle (length s) [] s [] ltac:(lia)) as H.
  rewrite !app_nil_r in H. exact H.
Qed.

(** *** Numbers *)

Lemma digit_pretty (n : N) : (n < 10)%N → digit (pretty_N_char n) = Some (Z.of_N n).
Proof.
  intros Hn. assert (H : (n = 0 ∨ n = 1 ∨ n = 2 ∨ n = 3 ∨ n = 4 ∨ n = 5 ∨ n = 6 ∨ n = 7 ∨ n = 8 ∨ n = 9)%N)
    by lia.
  by repeat (destruct H as [->|H]); subst.
Qed.

Lemma parse_digits_pretty (n : N) (s : string) :
  (0 < n)%N → parse_digits 0 (pretty_N_go n s) = parse_digits (Z.of_N n) s.
Proof.
  revert s. induction (N.lt_wf_0 n) as [n _ IH]. intros s Hn. rewrite pretty_N_go_step by done.
  assert (Hq : (n = 10 * (n `div` 10) + n `mod` 10)%N) by apply N.div_mod'.
  assert (Hr : (n `mod` 10 < 10)%N) by by apply N.mod_lt.
  pose proof (N.le_0_l (n `mod` 10)). pose proof (N.le_0_l (n `div` 10)).
  destruct (decide (0 < n `div` 10)%N) as [Hd|Hd].
  - rewrite IH by lia. cbn [parse_digits]. rewrite digit_pretty by done. simpl. f_equal. lia.
  - assert (Hz : (n `div` 10 = 0)%N) by lia. rewrite Hz, pretty_N_go_0. cbn [parse_digits].
    rewrite digit_pretty by done. simpl. f_equal. lia.
Qed.

Lemma pretty_N_go_cons (n : N) (s : string) :
  (0 < n)%N → ∃ c t d, pretty_N_go n s = String c t ∧ digit c = Some d.
Proof.
  revert s. induction (N.lt_wf_0 n) as [n _ IH]. intros s Hn. rewrite pretty_N_go_step by done.
  assert (Hq : (n = 10 * (n `div` 10) + n `mod` 10)%N) by apply N.div_mod'.
  assert (Hr : (n `mod` 10 < 10)%N) by by apply N.mod_lt.
  pose proof (N.le_0_l (n `mod` 10)). pose proof (N.le_0_l (n `div` 10)).
  destruct (decide (0 < n `div` 10)%N) as [Hd|Hd]; [apply IH; lia|].
  assert (Hz : (n `div` 10 = 0)%N) by lia. rewrite Hz, pretty_N_go_0.
  eexists _, _, _. split; [done|]. by apply digit_pretty.
Qed.

Lemma parse_natural_pretty (n : N) :
  parse_natural (pretty n) = Some (Z.of_N n) ∧ ∃ c t d, pretty n = String c t ∧ digit c = Some d.
Proof.
  unfold pretty, pretty_N. destruct (decide (n = 0)%N) as [->|Hn]; [by repeat eexists|].
  destruct (pretty_N_go_cons n "" ltac:(lia)) as (c & t & d & Hs & Hd). split; [|by repeat eexists].
  unfold parse_natural. pose proof (parse_digits_pretty n "" ltac:(lia)) as H. rewrite Hs in *. exact H.
Qed.

(** What [FormatInt] writes is read back. *)
Theorem MustStrToInt64_pretty (z : Z) : in_int64 z → MustStrToInt64 (pretty z) = Some z.
Proof.
  intros [Hlo Hhi]. unfold MustStrToInt64, ParseInt.
  assert (Hz : match pretty z with
               | String "-" s => Z.opp <$> parse_natural s
               | String "+" s => parse_natural s
               | _ => parse_natural (pretty z)
               end = Some z).
  { destruct z as [|p|p]; [done| |].
    - change (pretty (Z.pos p)) with (pretty (N.pos p)).
      destruct (parse_natural_pretty (N.pos p)) as [H (c & t & d & Hs & Hd)]. rewrite Hs in *.
      destruct c as [[][][][][][][][]]; try discriminate Hd; exact H.
    - change (pretty (Z.neg p)) with (String "-" (pretty (N.pos p))).
      destruct (parse_natural_pretty (N.pos p)) as [H _]. simpl. rewrite H. done. }
  rewrite Hz. simpl. rewrite (proj2 (Z.leb_le _ _)), (proj2 (Z.ltb_lt _ _)) by lia. done.
Qed.

(** *** Hashes *)

#[local] Abbreviation no_bar := (Naming.no_char "|"%char).

Lemma Split_bar (s t : string) :
  no_bar s = true → Split (s +:+ String "|" t) "|" = s :: Split t "|".
Proof.
  intros Hs. induction s as [|c s IH]; [done|].
  change (String c s +:+ String "|" t) with (String c (s +:+ String "|" t)).
  cbn [Split Naming.no_char] in *. destruct (decide (c = "|"%char)); [done|]. by rewrite IH.
Qed.

Lemma Split_no_bar (s : string) : no_bar s = true → Split s "|" = [s].
Proof.
  intros Hs. induction s as [|c s IH]; [done|]. cbn [Split Naming.no_char] in *.
  destruct (decide (c = "|"%char)); [done|]. by rewrite IH.
Qed.

Lemma Split_Join (l : list string) :
  l ≠ [] → Forall (λ s, no_bar s = true) l → Split (Join l "|") "|" = l.
Proof.
  intros Hne Hl. induction Hl as [|s l Hs Hl IH]; [done|].
  destruct l as [|t l]; [by apply Split_no_bar|].
  change (Join (s :: t :: l) "|") with (s +:+ ("|" +:+ Join (t :: l) "|")).
  change ("|" +:+ Join (t :: l) "|") with (String "|" (Join (t :: l) "|")).
  rewrite Split_bar by done. by rewrite IH.
Qed.

(** No field holds the bar that stands between the fields. *)
Definition barless (input : HashInput) : Prop :=
  Forall (λ s, no_bar s = true) (hash_fields input).

Definition same_kind (i j : HashInput) : Prop :=
  match i, j with
  | OnChainOrder _ _ _ _ _, OnChainOrder _ _ _ _ _ | OffChainOrder _, OffChainOrder _
  | Trade _ _ _ _ _, Trade _ _ _ _ _ | Activity _ _ _ _, Activity _ _ _ _
  | OrderEvent _ _ _ _, OrderEvent _ _ _ _ | DirectOrder _ _ _ _ _ _ _, DirectOrder _ _ _ _ _ _ _ => True
  | _, _ => False
  end.

(** What is hashed tells the kind and every field, up to the case that is folded
    away, as long as no field holds a bar. *)
Theorem hash_texts_tell_inputs i j :
  barless i → barless j → hash_text i = hash_text j →
  same_kind i j ∧ hash_fields i = hash_fields j.
Proof.
  intros Hi Hj Ht.
  assert (Hf : hash_fields i = hash_fields j).
  { rewrite <- (Split_Join (hash_fields i)), <- (Split_Join (hash_fields j)); [|by destruct j|done|by destruct i|done].
    by unfold hash_text in Ht; rewrite Ht. }
  split; [|done]. by destruct i, j.
Qed.

(** Two trades on different chains and pairs with one hash. *)
Example bars_collide sha384 :
  GetTradeHash sha384 "1" "a|b" "c" "d" "e" = GetTradeHash sha384 "1" "a" "b|c" "d" "e" ∧
  ¬ barless (Trade "1" "a|b" "c" "d" "e").
Proof.
  split; [by unfold GetTradeHash, hash_of; vm_compute (hash_text _)|].
  unfold barless. intros H. apply (bool_decide_pack _) in H. by vm_compute in H.
Qed.

Lemma hash_texts_tell_inputs_witness :
  let i := Activity "0x1" "Polygon" "0xAB" "7" in
  let j := Activity "0x1" "POLYGON" "0xab" "7" in
  same_kind i j ∧ hash_fields i = hash_fields j.
Proof.
  apply (hash_texts_tell_inputs (Activity "0x1" "Polygon" "0xAB" "7") (Activity "0x1" "POLYGON" "0xab" "7"));
    [by apply (bool_decide_unpack _); vm_compute..|by vm_compute].
Defined.

Lemma length_hex_encode (bytes : list Z) : String.length (hex_encode bytes) = 2 * length bytes.
Proof. induction bytes as [|b bytes IH]; simpl; [done|]. rewrite IH. lia. Qed.

Lemma length_0x (s : string) : String.length ("0x" +:+ s) = S (S (String.length s)).
Proof. done. Qed.

(** [HashSHA256], which is SHA-512: two digits for each byte asked for, sixty-four
    bytes at most, and a panic when less than none is asked for. *)
Theorem HashSHA256_length (sha512 : string → list Z) input outputBytes :
  length (sha512 input) = 64 →
  match HashSHA256 sha512 input outputBytes with
  | Some h => (0 ≤ outputBytes)%Z ∧ Z.of_nat (String.length h) = (2 + 2 * Z.min outputBytes 64)%Z
  | None => (outputBytes < 0)%Z
  end.
Proof.
  intros Hlen. unfold HashSHA256. rewrite Hlen. change (Z.of_nat 64) with 64%Z.
  destruct (Z.ltb_spec 64 outputBytes).
  - rewrite slice_of_inside by (rewrite ?Hlen; lia). cbn [mbind option_bind].
    rewrite length_0x, length_hex_encode, length_take, length_drop, Hlen. lia.
  - destruct (Z.ltb_spec outputBytes 0).
    + unfold slice_of. by destruct (Z.leb_spec (64 - outputBytes) 64); [lia|]; rewrite andb_false_r.
    + rewrite slice_of_inside by (rewrite ?Hlen; lia). cbn [mbind option_bind].
      rewrite length_0x, length_hex_encode, length_take, length_drop, Hlen. lia.
Qed.

Lemma HashSHA256_length_witness :
  match HashSHA256 (λ _, replicate 64 171%Z) "x" 4 with
  | Some h => (0 ≤ 4)%Z ∧ Z.of_nat (String.length h) = (2 + 2 * Z.min 4 64)%Z
  | None => (4 < 0)%Z
  end.
Proof. apply (HashSHA256_length (λ _, replicate 64 171%Z) "x" 4). done. Defined.

(** *** Hexadecimal *)

Definition is_byte (b : Z) : Prop := (0 ≤ b < 256)%Z.

Lemma hex_value_char (n : Z) : (0 ≤ n < 16)%Z → hex_value (hex_char n) = Some n.
Proof.
  intros Hn. assert (H : ∃ k, k < 16 ∧ n = Z.of_nat k) by (exists (Z.to_nat n); lia).
  destruct H as (k & Hk & ->). by do 16 (destruct k as [|k]; [reflexivity|]); lia.
Qed.

Lemma hex_round_trip (bytes : list Z) :
  Forall is_byte bytes → hex_decode (hex_encode bytes) = Some bytes.
Proof.
  induction 1 as [|b bytes Hb _ IH]; [done|]. unfold is_byte in Hb. cbn [hex_encode hex_decode].
  rewrite (hex_value_char (b / 16)) by (split; [apply Z.div_pos; lia|apply Z.div_lt_upper_bound; lia]).
  rewrite (hex_value_char (b mod 16)) by (apply Z.mod_pos_bound; lia). cbn [mbind option_bind].
  rewrite IH. simpl. do 2 f_equal. rewrite <- Z.div_mod; lia.
Qed.

(** The address of an account is twenty bytes. *)
Theorem IsEVMAccountAddress_bytes (bytes : list Z) :
  Forall is_byte bytes →
  IsEVMAccountAddress ("0x" +:+ hex_encode bytes) = true ↔ length bytes = 20.
Proof.
  intros Hb. unfold IsEVMAccountAddress. rewrite length_0x, length_hex_encode.
  change (drop_string 2 ("0x" +:+ hex_encode bytes)) with (hex_encode bytes).
  rewrite hex_round_trip, prefix_app by done. simpl.
  destruct (Nat.eqb_spec (length bytes + (length bytes + 0)) 40); simpl; split; intros; try done; first [lia|exfalso; lia].
Qed.

(** Thirty-two bytes come back as they were, fewer are filled up with zeros, and
    what is beyond them is dropped. *)
Theorem MustHexStrToBytes32_bytes (bytes : list Z) :
  Forall is_byte bytes →
  MustHexStrToBytes32 ("0x" +:+ hex_encode bytes) = Some (take 32 bytes ++ replicate (32 - length bytes) 0%Z).
Proof.
  intros Hb. unfold MustHexStrToBytes32. rewrite length_0x.
  change (drop_string 2 ("0x" +:+ hex_encode bytes)) with (hex_encode bytes).
  rewrite hex_round_trip, length_hex_encode by done. cbn [mbind option_bind].
  destruct (Nat.ltb_spec (S (S (2 * length bytes))) 2); [lia|]. f_equal.
  rewrite take_app, take_replicate. f_equal. f_equal. lia.
Qed.

Lemma IsEVMAccountAddress_bytes_witness :
  IsEVMAccountAddress ("0x" +:+ hex_encode (replicate 20 171%Z)) = true.
Proof.
  apply (IsEVMAccountAddress_bytes (replicate 20 171%Z)); [|done].
  apply (bool_decide_unpack _). by vm_compute.
Defined.

Lemma MustHexStrToBytes32_bytes_witness :
  MustHexStrToBytes32 "0xff" = Some (255%Z :: replicate 31 0%Z).
Proof.
  apply (MustHexStrToBytes32_bytes [255%Z]). apply (bool_decide_unpack _). by vm_compute.
Defined.

(** Zero is empty only in four spellings. *)
Example sanitized :
  SanitizeHexStr "0X0" = "" ∧ SanitizeHexStr "0xAbC" = "abc" ∧ SanitizeHexStr "0x00" = "00".
Proof. by vm_compute. Qed.

(** *** Texts in several languages *)

(** The text is one of the map's or the one to fall back on; the current
    language comes before English. *)
Theorem GetLocalizedString_choice m locale fallback :
  (∃ k, m !! k = Some (GetLocalizedString m locale fallback)) ∨
  GetLocalizedString m locale fallback = fallback ∧ (m = ∅ ∨ m !! "en-US" = None).
Proof.
  unfold GetLocalizedString. destruct (map_to_list m) as [|[k v] [|kv l]] eqn:Hm.
  - right. split; [done|left]. by apply map_to_list_empty_iff.
  - left. exists k. apply elem_of_map_to_list. rewrite Hm. by apply list_elem_of_singleton.
  - destruct (if String.eqb locale "" then None else m !! locale) as [v'|] eqn:Hl.
    + left. exists locale. by destruct (String.eqb locale "").
    + destruct (m !! "en-US") as [v'|] eqn:He; [left; by exists "en-US"|right; by split; [|right]].
Qed.

Theorem GetLocalizedString_prefers m locale fallback value :
  locale ≠ "" → m !! locale = Some value → GetLocalizedString m locale fallback = value.
Proof.
  intros Hl Hm. unfold GetLocalizedString. apply elem_of_map_to_list in Hm as Hin.
  destruct (map_to_list m) as [|[k v] [|kv l]].
  - by apply elem_of_nil in Hin.
  - apply list_elem_of_singleton in Hin. by injection Hin as _ ->.
  - rewrite (proj2 (String.eqb_neq _ _)) by done. by rewrite Hm.
Qed.

Lemma GetLocalizedString_prefers_witness :
  GetLocalizedString {["fa-IR" := "a"; "en-US" := "b"]} "fa-IR" "c" = "a".
Proof. by apply (GetLocalizedString_prefers {["fa-IR" := "a"; "en-US" := "b"]} "fa-IR" "c" "a"). Defined.

(** Of two texts, none for the language and none in English: neither is shown. *)
Example no_language : GetLocalizedString {["fa-IR" := "a"; "de-DE" := "b"]} "fr-FR" "c" = "c".
Proof. by vm_compute. Qed.

(** Services of the optional kind are an empty text when they are not set up; any
    other name that is not set up is a panic. *)
Lemma GetOptionalServiceBaseURL_optional env service var :
  (service, var) ∈ optional_services → GetOptionalServiceBaseURL env service = Some (Getenv env var).
Proof. intros H. repeat (apply elem_of_cons in H as [[= -> ->]|H]; [done|]). by apply elem_of_nil in H. Qed.
