(* ===== verification/FixLease.v ===== *)
(** * The lease of a FIX session

    [pkg/common/fix_session_lease.go]: a daemon works on a FIX session while it
    owns the row of [public.fix_session_lock] for it.  Any number of daemons
    acquire, renew and release; statements may be refused and replies lost.  The
    time at which a lease expires comes from the daemon's clock and is compared
    with the clock of the database.  Times are nanoseconds. *)

From stdpp Require Import relations.
From S2P Require Import Prelude GoMonad Helpers.

(** ** The row and its statements *)

Record LeaseRow := mkLeaseRow {
  lr_role : string;
  lr_owner : string;
  lr_expires : Z;
  lr_updated : Z;
}.

(** By [session_id], the key that [ON CONFLICT] names. *)
Notation LeaseTable := (gmap string LeaseRow).

Inductive LeaseAnswer := LeaseDone | LeaseRefused | LeaseReplyLost.

(** The statement of [acquireOnce]: the owner it returns, if it returns a row. *)
Definition lease_upsert (now : Z) (sessionID role owner : string) (expiresAt : Z) (t : LeaseTable) :
    option string * LeaseTable :=
  let mine := (Some owner, <[sessionID := mkLeaseRow role owner expiresAt now]> t) in
  match t !! sessionID with
  | None => mine
  | Some old => if (lr_expires old <? now)%Z || String.eqb (lr_owner old) owner then mine else (None, t)
  end.

Definition lease_delete (sessionID owner : string) (t : LeaseTable) : LeaseTable :=
  match t !! sessionID with
  | Some row => if String.eqb (lr_owner row) owner then delete sessionID t else t
  | None => t
  end.

(** ** The handle *)

Inductive Renewer := NeverStarted | Renewing | GaveUp.

Record FixSessionLease := mkFixSessionLease {
  fl_sessionID : string;
  fl_role : string;
  fl_ownerID : string;
  fl_ttl : Z;
  fl_renewer : Renewer;     (* [renewerCancel], and whether its goroutine runs *)
}.

Definition DefaultFIXLeaseTTL : Z := 30000000000.

(** [hostname] and [random]: [None] when they cannot be had. *)
Definition buildLeaseOwnerID (hostname : option string) (random : option (list Z)) : string :=
  let host := match hostname with
              | Some host => if String.eqb host "" then "unknown-host" else host
              | None => "unknown-host"
              end in
  match random with
  | None => host +:+ "-norand"
  | Some b => host +:+ "-" +:+ hex_encode b
  end.

Definition NewFixSessionLease (sessionID role : string) (ttl : Z) (hostname : option string)
    (random : option (list Z)) : FixSessionLease :=
  mkFixSessionLease sessionID role (buildLeaseOwnerID hostname random)
    (if (ttl <=? 0)%Z then DefaultFIXLeaseTTL else ttl) NeverStarted.

Definition set_renewer (r : Renewer) (l : FixSessionLease) : FixSessionLease :=
  mkFixSessionLease (fl_sessionID l) (fl_role l) (fl_ownerID l) (fl_ttl l) r.

(** [queryHolder], for the text of the error. *)
Definition queryHolder (ans : LeaseAnswer) (l : FixSessionLease) (t : LeaseTable) : option LeaseRow :=
  match ans with LeaseDone => t !! fl_sessionID l | _ => None end.

Definition lease_error (l : FixSessionLease) (what : string) : goerror :=
  Errorf ("fix lease " +:+ GoStrings.Quote (fl_sessionID l) +:+ ": " +:+ what).

(** [local] is the daemon's clock, [now] the database's; [held] answers the
    query for the holder. *)
Definition acquireOnce (local now : Z) (ans held : LeaseAnswer) (l : FixSessionLease) (t : LeaseTable) :
    result unit * LeaseTable :=
  let expiresAt := (local + fl_ttl l)%Z in
  let '(returned, t') := lease_upsert now (fl_sessionID l) (fl_role l) (fl_ownerID l) expiresAt t in
  match ans with
  | LeaseRefused => (Err (lease_error l "acquire failed"), t)
  | LeaseReplyLost => (Err (lease_error l "acquire failed"), t')
  | LeaseDone =>
      match returned with
      | None =>
          (Err (lease_error l match queryHolder held l t' with
                              | None => "held by another owner; lookup failed"
                              | Some h => "held by " +:+ GoStrings.Quote (lr_owner h) +:+ "; refusing to start"
                              end), t')
      | Some ownerOut =>
          if String.eqb ownerOut (fl_ownerID l) then (Ok tt, t')
          else (Err (lease_error l "acquire raced"), t')
      end
  end.

Definition renew_interval (l : FixSessionLease) : Z := Z.max (Z.quot (fl_ttl l) 3) 1000000000.

(** A renewer that has given up is still there for [StartRenewer]. *)
Definition StartRenewer (l : FixSessionLease) : FixSessionLease :=
  match fl_renewer l with NeverStarted => set_renewer Renewing l | _ => l end.

(** A tick of the renewer: any error ends it. *)
Definition renew (local now : Z) (ans held : LeaseAnswer) (l : FixSessionLease) (t : LeaseTable) :
    result unit * FixSessionLease * LeaseTable :=
  let '(r, t') := acquireOnce local now ans held l t in
  (r, match r with Ok _ => l | Err _ => set_renewer GaveUp l end, t').

Definition Release (ans : LeaseAnswer) (l : FixSessionLease) (t : LeaseTable) :
    result unit * FixSessionLease * LeaseTable :=
  let l := set_renewer NeverStarted l in
  let t' := lease_delete (fl_sessionID l) (fl_ownerID l) t in
  match ans with
  | LeaseDone => (Ok tt, l, t')
  | LeaseRefused => (Err (lease_error l "release failed"), l, t)
  | LeaseReplyLost => (Err (lease_error l "release failed"), l, t')
  end.

(** ** Daemons

    A daemon has its handle, and, between [Acquire] and [Release], the time up to
    which its last success goes, by its own clock. *)

Record Daemon := mkDaemon { dm_lease : FixSessionLease; dm_until : option Z }.

Record LeaseWorld := mkLeaseWorld {
  lw_now : Z;
  lw_table : LeaseTable;
  lw_daemons : gmap string Daemon;   (* by owner *)
}.

Section world.
(** The clock of each daemon when the database's shows a time. *)
Context (clock : string → Z → Z).

Definition with_daemon (o : string) (d : Daemon) (t : LeaseTable) (w : LeaseWorld) : LeaseWorld :=
  mkLeaseWorld (lw_now w) t (<[o := d]> (lw_daemons w)).

(** After [Acquire] or a renewal: what the daemon knows. *)
Definition known (local : Z) (r : result unit) (d : Daemon) : option Z :=
  match r with Ok _ => Some (local + fl_ttl (dm_lease d))%Z | Err _ => dm_until d end.

Inductive lease_step : LeaseWorld → LeaseWorld → Prop :=
  | lease_time w now' :
      (lw_now w ≤ now')%Z → lease_step w (mkLeaseWorld now' (lw_table w) (lw_daemons w))
  | lease_acquire w o d ans held r t' :
      lw_daemons w !! o = Some d →
      acquireOnce (clock o (lw_now w)) (lw_now w) ans held (dm_lease d) (lw_table w) = (r, t') →
      lease_step w (with_daemon o (mkDaemon (dm_lease d) (known (clock o (lw_now w)) r d)) t' w)
  | lease_start w o d :
      lw_daemons w !! o = Some d →
      lease_step w (with_daemon o (mkDaemon (StartRenewer (dm_lease d)) (dm_until d)) (lw_table w) w)
  | lease_renew w o d ans held r l' t' :
      lw_daemons w !! o = Some d → fl_renewer (dm_lease d) = Renewing →
      renew (clock o (lw_now w)) (lw_now w) ans held (dm_lease d) (lw_table w) = (r, l', t') →
      lease_step w (with_daemon o (mkDaemon l' (known (clock o (lw_now w)) r d)) t' w)
  | lease_release w o d ans r l' t' :
      lw_daemons w !! o = Some d → Release ans (dm_lease d) (lw_table w) = (r, l', t') →
      lease_step w (with_daemon o (mkDaemon l' None) t' w).

(** Daemons on one session, none of which has acquired it. *)
Definition lease_start_state (sid : string) (w : LeaseWorld) : Prop :=
  ∀ o d, lw_daemons w !! o = Some d →
    dm_until d = None ∧ fl_ownerID (dm_lease d) = o ∧ fl_sessionID (dm_lease d) = sid ∧
    (0 < fl_ttl (dm_lease d))%Z.

Definition lease_reachable (sid : string) (w : LeaseWorld) : Prop :=
  ∃ w0, lease_start_state sid w0 ∧ rtc lease_step w0 w.

(** A daemon's success holds in the database, or is over there. *)
Definition covered (sid o : string) (u : Z) (w : LeaseWorld) : Prop :=
  (u < lw_now w)%Z ∨
  ∃ row, lw_table w !! sid = Some row ∧ lr_owner row = o ∧ (u ≤ lr_expires row)%Z.

Record lease_ok (sid : string) (w : LeaseWorld) : Prop := {
  lo_handles o d : lw_daemons w !! o = Some d →
    fl_ownerID (dm_lease d) = o ∧ fl_sessionID (dm_lease d) = sid;
  lo_covered o d u : lw_daemons w !! o = Some d → dm_until d = Some u → covered sid o u w;
  lo_past o d u : lw_daemons w !! o = Some d → dm_until d = Some u →
    (u ≤ clock o (lw_now w) + fl_ttl (dm_lease d))%Z;
}.

Hypothesis clocks_advance : ∀ o t t', (t ≤ t')%Z → (clock o t ≤ clock o t')%Z.

(** What the statement of an acquisition or a renewal does to the row. *)
Lemma acquireOnce_table local now ans held l t r t' :
  acquireOnce local now ans held l t = (r, t') →
  (r = Ok tt → t' !! fl_sessionID l =
     Some (mkLeaseRow (fl_role l) (fl_ownerID l) (local + fl_ttl l) now)) ∧
  (t' = t ∨
   t' !! fl_sessionID l = Some (mkLeaseRow (fl_role l) (fl_ownerID l) (local + fl_ttl l) now) ∧
   match t !! fl_sessionID l with
   | None => True
   | Some old => (lr_expires old < now)%Z ∨ lr_owner old = fl_ownerID l
   end).
Proof.
  unfold acquireOnce, lease_upsert.
  destruct (t !! fl_sessionID l) as [old|] eqn:Ho;
    [destruct (Z.ltb_spec (lr_expires old) now); simpl;
      [|destruct (String.eqb_spec (lr_owner old) (fl_ownerID l)) as [He|He]]|].
  all: destruct ans; simpl; rewrite ?String.eqb_refl; intros [= <- <-].
  all: split; try done; rewrite ?lookup_insert_eq; auto.
Qed.

Lemma covered_after sid o u w d ans held l t' r :
  fl_sessionID l = sid → covered sid o u w →
  acquireOnce (clock (fl_ownerID l) (lw_now w)) (lw_now w) ans held l (lw_table w) = (r, t') →
  (fl_ownerID l = o → (u ≤ clock o (lw_now w) + fl_ttl l)%Z) →
  covered sid o u (with_daemon (fl_ownerID l) d t' w).
Proof.
  intros <- Hc Ha Hu. destruct (acquireOnce_table _ _ _ _ _ _ _ _ Ha) as [_ [->|[Hrow Hold]]];
    [by destruct Hc as [|Hc]; [left|right]|].
  destruct (decide (fl_ownerID l = o)) as [<-|Hne].
  - right. simpl. eexists. split; [exact Hrow|]. split; [done|]. simpl. by apply Hu.
  - left. destruct Hc as [?|(row & Hr & Hown & Hle)]; [done|]. rewrite Hr in Hold. simpl.
    destruct Hold as [?|Heq]; [lia|congruence].
Qed.

Lemma lease_attempt_ok sid w o d ans held r t' l' :
  lease_ok sid w → lw_daemons w !! o = Some d →
  acquireOnce (clock o (lw_now w)) (lw_now w) ans held (dm_lease d) (lw_table w) = (r, t') →
  fl_ownerID l' = fl_ownerID (dm_lease d) → fl_sessionID l' = fl_sessionID (dm_lease d) →
  fl_ttl l' = fl_ttl (dm_lease d) →
  lease_ok sid (with_daemon o (mkDaemon l' (known (clock o (lw_now w)) r d)) t' w).
Proof.
  intros [Hh Hc Hp] Hd Ha Ho Hs Ht. destruct (Hh _ _ Hd) as [Hown Hsid].
  assert (Hknown : ∀ u, known (clock o (lw_now w)) r d = Some u →
    (u ≤ clock o (lw_now w) + fl_ttl (dm_lease d))%Z).
  { intros u. destruct r as [[]|e]; simpl; [intros [= <-]; lia|by apply Hp]. }
  split; simpl; intros o1 d1; (destruct (decide (o1 = o)) as [->|Hne];
    [rewrite lookup_insert_eq|rewrite lookup_insert_ne by done]).
  - intros [= <-]. simpl. by rewrite Ho, Hs.
  - by apply Hh.
  - intros u [= <-]. simpl. intros Hk. destruct r as [[]|e]; simpl in Hk.
    + injection Hk as <-. right. simpl. eexists. rewrite <- Hsid.
      split; [by apply (acquireOnce_table _ _ _ _ _ _ _ _ Ha)|]. split; [done|]. simpl. lia.
    + rewrite <- Hown in Ha |- *. eapply covered_after; [exact Hsid|rewrite Hown; by eapply Hc|exact Ha|].
      intros _. rewrite Hown. by apply Hknown.
  - intros u Hd1 Hk. rewrite <- Hown in Ha |- *. eapply covered_after; [exact Hsid|by eapply Hc|exact Ha|].
    intros Heq. destruct (Hne). congruence.
  - intros u [= <-]. simpl. rewrite Ht. apply Hknown.
  - by apply Hp.
Qed.

Lemma lease_delete_other sid o o' t row :
  t !! sid = Some row → lr_owner row = o → o ≠ o' → lease_delete sid o' t = t.
Proof.
  intros Ht Ho Hne. unfold lease_delete. rewrite Ht. by rewrite (proj2 (String.eqb_neq _ _)) by congruence.
Qed.

Lemma lease_step_ok sid w w' : lease_step w w' → lease_ok sid w → lease_ok sid w'.
Proof.
  destruct 1 as [w now' Hle|w o d ans held r t' Hd Ha|w o d Hd|w o d ans held r l' t' Hd Hr Ha
    |w o d ans r l' t' Hd Ha]; intros Hok.
  - destruct Hok as [Hh Hc Hp]. split; simpl; [done| |].
    + intros o d u Hd Hu. destruct (Hc _ _ _ Hd Hu) as [?|Hrow]; [left; simpl; lia|by right].
    + intros o d u Hd Hu. etrans; [by eapply Hp|]. pose proof (clocks_advance o _ _ Hle). lia.
  - by eapply lease_attempt_ok.
  - destruct Hok as [Hh Hc Hp].
    assert (Hst : ∀ l, fl_ownerID (StartRenewer l) = fl_ownerID l ∧ fl_sessionID (StartRenewer l) = fl_sessionID l
      ∧ fl_ttl (StartRenewer l) = fl_ttl l) by (intros l; unfold StartRenewer; by destruct (fl_renewer l)).
    destruct (Hst (dm_lease d)) as (H1 & H2 & H3).
    split; simpl; intros o1 d1; (destruct (decide (o1 = o)) as [->|Hne];
      [rewrite lookup_insert_eq; intros * [= <-]|rewrite lookup_insert_ne by done]); simpl;
      rewrite ?H1, ?H2, ?H3; eauto.
  - unfold renew in Ha. destruct (acquireOnce _ _ _ _ _ _) as [r0 t0] eqn:Ha0. injection Ha as <- <- <-.
    eapply lease_attempt_ok; [done..|by destruct r0|by destruct r0|by destruct r0].
  - destruct Hok as [Hh Hc Hp]. destruct (Hh _ _ Hd) as [Hown Hsid].
    assert (Hl : l' = set_renewer NeverStarted (dm_lease d) ∧
      (t' = lw_table w ∨ t' = lease_delete sid o (lw_table w))).
    { unfold Release in Ha. simpl in Ha. rewrite Hown, Hsid in Ha.
      destruct ans; injection Ha as <- <- <-; auto. }
    destruct Hl as [-> Ht].
    split; simpl; intros o1 d1; (destruct (decide (o1 = o)) as [->|Hne];
      [rewrite lookup_insert_eq; intros * [= <-]|rewrite lookup_insert_ne by done]); simpl; eauto; try done.
    intros u Hd1 Hu. destruct (Hc _ _ _ Hd1 Hu) as [?|(row & Hrow & Ho & Hle)]; [by left|right].
    exists row. destruct Ht as [->| ->]; [done|]. simpl. by rewrite (lease_delete_other sid o1 o _ row).
Qed.

Lemma lease_reachable_ok sid w : lease_reachable sid w → lease_ok sid w.
Proof.
  intros (w0 & H0 & Hs). assert (Hok : lease_ok sid w0).
  { split; intros o d; [intros Hd; by destruct (H0 _ _ Hd) as (_ & ? & ? & _)|..];
      intros u Hd Hu; destruct (H0 _ _ Hd) as (Hn & _); congruence. }
  clear H0. induction Hs as [|w0 w1 w2 Hst _ IH]; [done|]. by apply IH, (lease_step_ok _ _ _ Hst).
Qed.

(** Two daemons never have the lease at once, as far as the database's clock
    goes; and if no daemon's clock is more than [lag] behind the database's, two
    daemons that stop in time, by their own clocks and with that margin, never
    work on the session at once. *)
Theorem lease_excludes sid lag w o1 o2 d1 d2 u1 u2 :
  lease_reachable sid w → (∀ o t, t - lag ≤ clock o t)%Z → o1 ≠ o2 →
  lw_daemons w !! o1 = Some d1 → lw_daemons w !! o2 = Some d2 →
  dm_until d1 = Some u1 → dm_until d2 = Some u2 →
  (u1 < lw_now w ∨ u2 < lw_now w)%Z ∧
  ¬ (clock o1 (lw_now w) + lag ≤ u1 ∧ clock o2 (lw_now w) + lag ≤ u2)%Z.
Proof.
  intros [Hh Hc Hp]%lease_reachable_ok Hlag Hne Hd1 Hd2 Hu1 Hu2.
  assert (Hex : (u1 < lw_now w ∨ u2 < lw_now w)%Z).
  { destruct (Hc _ _ _ Hd1 Hu1) as [?|(r1 & Hr1 & Ho1 & _)]; [by left|].
    destruct (Hc _ _ _ Hd2 Hu2) as [?|(r2 & Hr2 & Ho2 & _)]; [by right|]. congruence. }
  split; [done|]. pose proof (Hlag o1 (lw_now w)). pose proof (Hlag o2 (lw_now w)). lia.
Qed.
End world.

Lemma attempt_step clock w o d ans held :
  lw_daemons w !! o = Some d →
  let out := acquireOnce (clock o (lw_now w)) (lw_now w) ans held (dm_lease d) (lw_table w) in
  lease_step clock w (with_daemon o (mkDaemon (dm_lease d) (known (clock o (lw_now w)) out.1 d)) out.2 w).
Proof. intros Hd. apply (lease_acquire _ _ _ _ ans held); [done|]. apply surjective_pairing. Qed.

Lemma renewal_step clock w o d ans held :
  lw_daemons w !! o = Some d → fl_renewer (dm_lease d) = Renewing →
  let out := renew (clock o (lw_now w)) (lw_now w) ans held (dm_lease d) (lw_table w) in
  lease_step clock w
    (with_daemon o (mkDaemon out.1.2 (known (clock o (lw_now w)) out.1.1 d)) out.2 w).
Proof.
  intros Hd Hr. apply (lease_renew _ _ _ d ans held); [done|done|]. cbv zeta.
  by destruct (renew _ _ _ _ _ _) as [[? ?] ?].
Qed.

(** ** Two daemons *)

Definition seconds (n : Z) : Z := n * 1000000000.

Definition daemon_a : FixSessionLease :=
  mkFixSessionLease "FIX.4.2:BROKER->EXCHANGE" "fixclient" "pod-a" DefaultFIXLeaseTTL NeverStarted.
Definition daemon_b : FixSessionLease :=
  mkFixSessionLease "FIX.4.2:BROKER->EXCHANGE" "fixclient" "pod-b" DefaultFIXLeaseTTL NeverStarted.

Definition two_daemons : LeaseWorld :=
  mkLeaseWorld 0 ∅ {["pod-a" := mkDaemon daemon_a None; "pod-b" := mkDaemon daemon_b None]}.

(** The first acquires the session and renews; one statement of the renewal is
    refused, the renewer gives up, and half a minute later the second daemon is
    let in.  Nothing has told the first: it is between [Acquire] and [Release]. *)
Definition both_at_work : LeaseWorld :=
  mkLeaseWorld (seconds 41)
    {["FIX.4.2:BROKER->EXCHANGE" := mkLeaseRow "fixclient" "pod-b" (seconds 71) (seconds 41)]}
    {["pod-a" := mkDaemon (set_renewer GaveUp daemon_a) (Some (seconds 30));
      "pod-b" := mkDaemon daemon_b (Some (seconds 71))]}.

Lemma rtc_eq {A} (R : relation A) x y : x = y → rtc R x y.
Proof. intros ->. apply rtc_refl. Qed.

Ltac by_computation := vm_compute; first [reflexivity | discriminate].

Lemma both_at_work_reachable :
  lease_reachable (λ _ t, t) "FIX.4.2:BROKER->EXCHANGE" both_at_work.
Proof.
  exists two_daemons. split.
  { intros o d. unfold two_daemons. simpl. intros Hd.
    apply lookup_insert_Some in Hd as [[<- <-]|[_ Hd]]; [done|].
    by apply lookup_singleton_Some in Hd as [<- <-]. }
  set (da := mkDaemon daemon_a None). set (db := mkDaemon daemon_b None).
  eapply rtc_l; [apply (attempt_step _ _ "pod-a" da LeaseDone LeaseDone); by_computation|].
  set (da1 := mkDaemon daemon_a (Some (seconds 30))).
  eapply rtc_l; [apply (lease_start _ _ "pod-a" da1); by_computation|].
  eapply rtc_l; [apply (lease_time _ _ (seconds 10)); by_computation|].
  set (da2 := mkDaemon (set_renewer Renewing daemon_a) (Some (seconds 30))).
  eapply rtc_l; [apply (renewal_step _ _ "pod-a" da2 LeaseRefused LeaseDone); by_computation|].
  eapply rtc_l; [apply (lease_time _ _ (seconds 41)); by_computation|].
  eapply rtc_l; [apply (attempt_step _ _ "pod-b" db LeaseDone LeaseDone); by_computation|].
  apply rtc_eq. by vm_compute.
Qed.

Lemma lease_excludes_witness :
  (seconds 30 < seconds 41 ∨ seconds 71 < seconds 41)%Z ∧
  ¬ (seconds 41 + 0 ≤ seconds 30 ∧ seconds 41 + 0 ≤ seconds 71)%Z.
Proof.
  apply (lease_excludes (λ _ t, t) (λ _ t t' H, H) "FIX.4.2:BROKER->EXCHANGE" 0 both_at_work "pod-a" "pod-b"
    (mkDaemon (set_renewer GaveUp daemon_a) (Some (seconds 30))) (mkDaemon daemon_b (Some (seconds 71)))
    (seconds 30) (seconds 71) both_at_work_reachable); [intros _ t; lia|done|done|done|done|done].
Defined.

(** A renewer that has given up is not started again. *)
Example renewer_stays_down :
  fl_renewer (StartRenewer (set_renewer GaveUp daemon_a)) = GaveUp.
Proof. done. Qed.

(** A daemon whose clock is a minute behind is given a lease that is over. *)
Example late_clock :
  let '(r, t) := acquireOnce (seconds 0) (seconds 60) LeaseDone LeaseDone daemon_a ∅ in
  r = Ok tt ∧ (acquireOnce (seconds 60) (seconds 60) LeaseDone LeaseDone daemon_b t).1 = Ok tt.
Proof. by vm_compute. Qed.

(** With a time to live of less than a second, the lease is over before it is
    renewed. *)
Example short_lease :
  let l := NewFixSessionLease "s" "r" 500000000 (Some "pod") (Some [1; 2; 3; 255]%Z) in
  fl_ownerID l = "pod-010203ff" ∧ (fl_ttl l < renew_interval l)%Z.
Proof. by vm_compute. Qed.
