(* ===== verification/Query.v ===== *)
(** * Building the listing queries

    The clauses of [pkg/common/query_helpers.go] and how
    [ListSagaInstancesPaginated] of [pkg/trax/store_psql.go] puts them
    together: the texts with their placeholders [$1], [$2], ... and the list
    of arguments that go with them.  A Go map is ranged over in an order of
    its own, a parameter here.

    The PostgreSQL protocol numbers the parameters of a statement by the
    placeholders in its text; a statement runs when the placeholders are
    exactly [$1] to [$n] for its [n] arguments ([bound]). *)

From stdpp Require Import pretty.
From S2P Require Import Prelude Naming GoStrings.
From Stdlib Require Import Strings.Ascii.

(** ** [query.go] *)

Record SortColumn := mkSortColumn {
  sc_Column : string;
  sc_Direction : string;
}.

#[export] Instance SortColumn_eq_dec : EqDecision SortColumn.
Proof. solve_decision. Defined.

Record QueryOptions := mkQueryOptions {
  qo_Offset : Z;
  qo_Limit : Z;
  qo_Cursor : string;
  qo_ResultCacheKey : string;
  qo_SortBy : list SortColumn;
  qo_Search : string;
  qo_Filters : gmap string string;
}.

Definition no_options : QueryOptions := mkQueryOptions 0 0 "" "" [] "" ∅.

Definition set_qo_SortBy (v : list SortColumn) (o : QueryOptions) : QueryOptions :=
  mkQueryOptions (qo_Offset o) (qo_Limit o) (qo_Cursor o) (qo_ResultCacheKey o) v
    (qo_Search o) (qo_Filters o).

(** ** [query_helpers.go] *)

Definition sort_clause (prefix : string) (sort : SortColumn) : string :=
  let direction := ToUpper (sc_Direction sort) in
  let direction :=
    if negb (String.eqb direction "ASC") && negb (String.eqb direction "DESC")
    then "ASC" else direction in
  prefix +:+ sc_Column sort +:+ " " +:+ direction.

Definition BuildOrderByClause (options : option QueryOptions) (tableAlias : string) : string :=
  let prefix := if String.eqb tableAlias "" then "" else tableAlias +:+ "." in
  match options with
  | Some (mkQueryOptions _ _ _ _ (sort :: sorts) _ _) =>
      "ORDER BY " +:+ Join (sort_clause prefix <$> sort :: sorts) ", "
  | _ => "ORDER BY " +:+ prefix +:+ "created_at DESC, " +:+ prefix +:+ "iid ASC"
  end.

Definition BuildPaginationClause (options : option QueryOptions) : string :=
  match options with
  | None => ""
  | Some options =>
      if (qo_Limit options <=? 0)%Z then ""
      else
        "LIMIT " +:+ pretty (qo_Limit options) +:+
        (if (0 <? qo_Offset options)%Z then " OFFSET " +:+ pretty (qo_Offset options) else "")
  end.

(** The conditions of the columns that are allowed, numbered from
    [argIndex], and their arguments. *)
Fixpoint filter_conditions (allowedColumns : string → bool) (argIndex : nat)
    (filters : list (string * string)) : list string * list string :=
  match filters with
  | [] => ([], [])
  | (col, val) :: filters =>
      if allowedColumns col then
        let '(conditions, args) := filter_conditions allowedColumns (S argIndex) filters in
        ((col +:+ " = $" +:+ pretty argIndex) :: conditions, val :: args)
      else filter_conditions allowedColumns argIndex filters
  end.

Definition BuildFilterClause (range : gmap string string → list (string * string))
    (options : option QueryOptions) (allowedColumns : string → bool) (startArgIndex : nat) :
    string * list string :=
  match options with
  | None => ("", [])
  | Some options =>
      match filter_conditions allowedColumns startArgIndex (range (qo_Filters options)) with
      | ([], _) => ("", [])
      | (conditions, args) => ("WHERE " +:+ Join conditions " AND ", args)
      end
  end.

Definition jsonbColumns : list string :=
  ["display_names"; "descriptions"; "labels"; "tags"; "metadata"; "identifiers"; "classes";
   "deployment_details"].

Definition base_column (column : string) : string :=
  match last_index "." column with
  | Some dotIndex => drop_string (S dotIndex) column
  | None => column
  end.

Definition search_condition (column : string) (argIndex : nat) : string :=
  if contains "->" column || existsb (String.eqb (base_column column)) jsonbColumns
  then "CAST(" +:+ column +:+ " AS TEXT) ILIKE $" +:+ pretty argIndex
  else column +:+ " ILIKE $" +:+ pretty argIndex.

Definition search_conditions (searchColumns : list string) : list string :=
  zip_with search_condition searchColumns (seq 1 (length searchColumns)).

Definition BuildSearchClause (options : option QueryOptions) (searchColumns : list string) :
    string * list string :=
  match options, searchColumns with
  | None, _ | _, [] => ("", [])
  | Some options, _ =>
      if String.eqb (qo_Search options) "" then ("", [])
      else
        ("WHERE (" +:+ Join (search_conditions searchColumns) " OR " +:+ ")",
         (λ _, "%" +:+ qo_Search options +:+ "%") <$> searchColumns)
  end.

(** ** The clauses of [ListSagaInstancesPaginated] *)

Definition SagaInstancesSearchColumns : list string :=
  ["instance_id"; "zone_id"; "trace_id"; "execution_id"; "saga_submitter_id"; "origin";
   "origin_idempotency_key"; "labels"; "tags"; "metadata"; "state"; "saga_template_id";
   "input_data"; "saga_instance_ids"; "parent_saga_instance_id"; "parent_saga_step_instance_id";
   "root_saga_instance_id"; "compensation_reason"; "annex_iids"].

(** The map from the names a client sorts by to the columns. *)
Definition SagaInstancesSortableFields : list (string * string) :=
  (λ c, (c, c)) <$>
    ["instance_id"; "created_at"; "updated_at"; "state"; "saga_template_id"; "saga_submitter_id";
     "trace_id"; "execution_id"; "zone_id"; "saga_depth"; "compensation_reason"].

Definition allowed_columns : list string := ["state"; "saga_template_id"; "saga_submitter_id"].

Definition sagaInstancesAllowedFilters (col : string) : bool :=
  existsb (String.eqb col) allowed_columns.

Definition SagaInstancesDefaultSort : list SortColumn :=
  [mkSortColumn "created_at" "DESC"; mkSortColumn "instance_id" "ASC"].

(** The copy of the caller's options with the default order filled in. *)
Definition local_options (opts : option QueryOptions) : QueryOptions :=
  let local := default no_options opts in
  match qo_SortBy local with
  | [] => set_qo_SortBy SagaInstancesDefaultSort local
  | _ => local
  end.

(** [renumber i shift s]: from [$i] down to [$1], every occurrence of the
    text is replaced by that of the number moved up by [shift]. *)
Fixpoint renumber (i shift : nat) (s : string) : string :=
  match i with
  | O => s
  | S n => renumber n shift (ReplaceAll s ("$" +:+ pretty i) ("$" +:+ pretty (i + shift)))
  end.

Definition drop_where (clause : string) : string := drop_string (String.length "WHERE ") clause.

Definition where_clause (range : gmap string string → list (string * string))
    (local : QueryOptions) : string * list string :=
  let '(filterClause, filterArgs) :=
    BuildFilterClause range (Some local) sagaInstancesAllowedFilters 1 in
  let '(searchClause, searchArgs) := BuildSearchClause (Some local) SagaInstancesSearchColumns in
  let filterParts := if String.eqb filterClause "" then [] else [drop_where filterClause] in
  let filterArgs' := if String.eqb filterClause "" then [] else filterArgs in
  let searchParts :=
    if String.eqb searchClause "" then []
    else ["(" +:+ drop_where (renumber (length searchArgs) (length filterArgs) searchClause) +:+ ")"] in
  let searchArgs' := if String.eqb searchClause "" then [] else searchArgs in
  (match filterParts ++ searchParts with
   | [] => ""
   | whereParts => "WHERE " +:+ Join whereParts " AND "
   end, filterArgs' ++ searchArgs').

(** ** The placeholders of a statement *)

Definition digit_of (c : ascii) : option nat :=
  let n := nat_of_ascii c in if (48 <=? n) && (n <=? 57) then Some (n - 48) else None.

(** The numbers of the placeholders, in the order of the text; [cur] is the
    number being read. *)
Fixpoint scan_placeholders (cur : option nat) (s : string) : list nat :=
  match s with
  | EmptyString => option_list cur
  | String c s =>
      match cur, digit_of c with
      | Some n, Some d => scan_placeholders (Some (10 * n + d)) s
      | _, _ =>
          option_list cur ++
          scan_placeholders (if decide (c = "$"%char) then Some 0 else None) s
      end
  end.

Definition placeholders (s : string) : list nat := scan_placeholders None s.

(** The server can bind [n] arguments to a statement: their numbers are those
    of the placeholders. *)
Definition bound (text : string) (n : nat) : bool :=
  forallb (λ i, existsb (Nat.eqb i) (placeholders text)) (seq 1 n) &&
  forallb (λ p, (1 <=? p) && (p <=? n)) (placeholders text).

(** The filters that are applied. *)
Definition applied_filters (range : gmap string string → list (string * string))
    (options : QueryOptions) : list (string * string) :=
  List.filter (λ f, sagaInstancesAllowedFilters f.1) (range (qo_Filters options)).

(** ** The types of the columns

    The columns of a cluster's saga table as [createClusterTables] declares
    them; only those of type [JSONB] matter here. *)

Definition jsonb_saga_columns : list string :=
  ["labels"; "tags"; "metadata"; "saga_instance_ids"; "annex_iids"].

Fixpoint words (cur : string) (s : string) : list string :=
  match s with
  | EmptyString => [cur]
  | String c s => if decide (c = " "%char) then cur :: words "" s else words (cur +:+ String c "") s
  end.

(** The words in front of [ILIKE]; a cast ends in [TEXT)]. *)
Fixpoint ilike_operands (ws : list string) : list string :=
  match ws with
  | w :: (w' :: _) as ws => if String.eqb w' "ILIKE" then w :: ilike_operands ws else ilike_operands ws
  | _ => []
  end.

Fixpoint drop_parens (s : string) : string :=
  match s with String "(" s => drop_parens s | _ => s end.

(** There is no operator [ILIKE] on [JSONB]. *)
Definition typed (text : string) : bool :=
  forallb (λ w, negb (existsb (String.eqb (drop_parens w)) jsonb_saga_columns))
    (ilike_operands (words "" text)).

(** The server can run a statement with this condition and that many
    arguments. *)
Definition accepts (text : string) (n : nat) : bool := bound text n && typed text.

(** ** The two statements of [ListSagaInstancesPaginated]

    The name of the table is made of the cluster's identifier and stands in
    the text as it is; the values of the filters and the search are
    arguments.  The line breaks and tabs of the source's raw string are single
    blanks here. *)

Definition countQuery (clusterId whereClause : string) : string :=
  "SELECT COUNT(*) FROM " +:+ getSagaInstancesTableName clusterId +:+ " " +:+ whereClause.

Definition listing_columns : string :=
  "instance_id, zone_id, trace_id, execution_id, saga_submitter_id, origin, origin_idempotency_key, " +:+
  "labels, tags, metadata, state, saga_template_id, input_data, saga_instance_ids, " +:+
  "parent_saga_instance_id, parent_saga_step_instance_id, root_saga_instance_id, saga_depth, " +:+
  "compensation_reason, annex_iids, CAST(EXTRACT(EPOCH FROM created_at) * 1000 AS BIGINT), " +:+
  "CAST(EXTRACT(EPOCH FROM updated_at) * 1000 AS BIGINT)".

Definition pageQuery (clusterId whereClause orderByClause paginationClause : string) : string :=
  "SELECT " +:+ listing_columns +:+ " FROM " +:+ getSagaInstancesTableName clusterId +:+ " " +:+
  whereClause +:+ " " +:+ orderByClause +:+ " " +:+ paginationClause.

(** An identifier that PostgreSQL reads as (a part of) one name and does not
    cut: letters, digits and underscores, no digit in front, and so short that
    the longest of the cluster's table names has at most 63 bytes. *)
Definition name_char (c : ascii) : bool :=
  let n := nat_of_ascii c in
  (48 <=? n) && (n <=? 57) || (65 <=? n) && (n <=? 90) || (n =? 95) || (97 <=? n) && (n <=? 122).

Definition plain_cluster (clusterId : string) : bool :=
  all_chars name_char clusterId && (String.length clusterId <=? 21) &&
  match clusterId with
  | EmptyString => false
  | String c _ => match digit_of c with Some _ => false | None => true end
  end.

(** ** The text of the condition

    It depends on the columns that are filtered by, in their order, and on
    whether there is a search, not on the values. *)

Definition where_text (cols : list string) (searching : bool) : string :=
  (where_clause (λ _, (λ c, (c, "")) <$> cols)
     (mkQueryOptions 0 0 "" "" [] (if searching then "x" else "") ∅)).1.

Section clauses.
Context (range : gmap string string → list (string * string)).

Lemma filter_conditions_filter allowed k (l : list (string * string)) :
  filter_conditions allowed k l = filter_conditions (λ _, true) k (List.filter (λ f, allowed f.1) l).
Proof.
  revert k. induction l as [|[col val] l IH]; intros k; simpl; [done|].
  destruct (allowed col); simpl; [|done]. by rewrite (IH (S k)).
Qed.

Lemma filter_conditions_values k (l : list (string * string)) :
  filter_conditions (λ _, true) k l =
    ((filter_conditions (λ _, true) k ((λ c, (c, "")) <$> l.*1)).1, l.*2).
Proof.
  revert k. induction l as [|[col val] l IH]; intros k; csimpl; [done|].
  rewrite (IH (S k)). by destruct (filter_conditions _ _ _).
Qed.

Lemma all_allowed (cols : list string) :
  Forall (λ c, sagaInstancesAllowedFilters c = true) cols →
  List.filter (λ f : string * string, sagaInstancesAllowedFilters f.1) ((λ c, (c, "")) <$> cols) =
    (λ c, (c, "")) <$> cols.
Proof. induction 1 as [|c cols Hc _ IH]; csimpl; [done|]. by rewrite Hc, IH. Qed.

Lemma applied_allowed o :
  Forall (λ c, sagaInstancesAllowedFilters c = true) (applied_filters range o).*1.
Proof.
  apply Forall_fmap, Forall_forall. intros f Hf%list_elem_of_In.
  by apply filter_In in Hf as [_ Hf].
Qed.
Definition searching (o : QueryOptions) : bool := negb (String.eqb (qo_Search o) "").

Lemma filter_clause_shape o k :
  ∃ clause, BuildFilterClause range (Some o) sagaInstancesAllowedFilters k =
              (clause, (applied_filters range o).*2) ∧
    BuildFilterClause (λ _, (λ c, (c, "")) <$> (applied_filters range o).*1) (Some no_options)
      sagaInstancesAllowedFilters k = (clause, (λ _, "") <$> (applied_filters range o).*1) ∧
    (clause = "" ↔ applied_filters range o = []).
Proof.
  pose proof (applied_allowed o) as Hall. unfold BuildFilterClause.
  rewrite !(filter_conditions_filter sagaInstancesAllowedFilters), all_allowed by done.
  fold (applied_filters range o).
  rewrite (filter_conditions_values _ (applied_filters range o)).
  rewrite (filter_conditions_values _ ((λ c, (c, "")) <$> _)).
  rewrite <-!list_fmap_compose. unfold compose. simpl.
  destruct (applied_filters range o) as [|[c v] fs]; csimpl; [by exists ""|].
  destruct (filter_conditions _ (S k) _) as [cs args]; simpl. by eexists.
Qed.

Lemma where_clause_shape o :
  where_clause range o =
    (where_text (applied_filters range o).*1 (searching o),
     (applied_filters range o).*2 ++
       if searching o then (λ _, "%" +:+ qo_Search o +:+ "%") <$> SagaInstancesSearchColumns else []).
Proof.
  unfold where_text, where_clause, searching.
  destruct (filter_clause_shape o 1) as (clause & -> & Hc & Hnil).
  set (o' := mkQueryOptions _ _ _ _ _ _ _).
  replace (BuildFilterClause _ (Some o') _ _)
    with (BuildFilterClause (λ _, (λ c, (c, "")) <$> (applied_filters range o).*1) (Some no_options)
            sagaInstancesAllowedFilters 1) by reflexivity.
  rewrite Hc. subst o'.
  destruct (String.eqb_spec clause "") as [->|Hne].
  - rewrite (proj1 Hnil eq_refl). unfold BuildSearchClause. cbn [qo_Search SagaInstancesSearchColumns].
    by destruct (String.eqb (qo_Search o) "").
  - unfold BuildSearchClause. cbn [qo_Search SagaInstancesSearchColumns].
    destruct (String.eqb (qo_Search o) "") eqn:Hs; cbn [negb String.eqb]; [done|].
    by rewrite !length_fmap.
Qed.
End clauses.

(** ** The properties *)

Section properties.
Context (range : gmap string string → list (string * string)).
Context (Hrange : ∀ m, range m ≡ₚ map_to_list m).

(** The lists of at most [n] of the columns that are allowed. *)
Fixpoint column_lists (n : nat) : list (list string) :=
  match n with
  | O => [[]]
  | S n => [] :: (allowed_columns ≫= λ c, cons c <$> column_lists n)
  end.

Lemma elem_of_column_lists n cols :
  Forall (λ c, sagaInstancesAllowedFilters c = true) cols → length cols ≤ n →
  cols ∈ column_lists n.
Proof.
  intros Hall. revert n. induction Hall as [|c cols Hc _ IH]; intros [|n] Hn; simpl in *;
    try lia; [left|left|].
  right.
  apply (list_elem_of_bind (λ c, cons c <$> column_lists n) (c :: cols) allowed_columns). exists c. split.
  - apply list_elem_of_fmap. exists cols. split; [done|]. apply IH. lia.
  - unfold sagaInstancesAllowedFilters in Hc. apply existsb_exists in Hc as (c' & Hin & Heq).
    apply String.eqb_eq in Heq as ->. by apply list_elem_of_In.
Qed.

Lemma List_filter_sublist {A} (p : A → bool) (l : list A) : List.filter p l `sublist_of` l.
Proof.
  induction l as [|x l IH]; simpl; [done|]. destruct (p x); by constructor.
Qed.

Lemma applied_columns o : (applied_filters range o).*1 ∈ column_lists 3.
Proof.
  pose proof (applied_allowed range o) as Hall. apply elem_of_column_lists; [done|].
  change 3 with (length allowed_columns). apply submseteq_length, NoDup_submseteq.
  - eapply sublist_NoDup; [|apply fmap_sublist, List_filter_sublist].
    rewrite Hrange. apply NoDup_fst_map_to_list.
  - intros c Hc. rewrite Forall_forall in Hall. specialize (Hall c Hc).
    apply existsb_exists in Hall as (c' & Hin & ->%String.eqb_eq). by apply list_elem_of_In.
Qed.

Lemma text_check (P : list string → bool) o :
  forallb P (column_lists 3) = true → P (applied_filters range o).*1 = true.
Proof.
  intros Hall. rewrite forallb_forall in Hall. apply Hall, list_elem_of_In, applied_columns.
Qed.

Lemma searching_true o : qo_Search o ≠ "" → searching o = true.
Proof. unfold searching. intros Hs. by rewrite (proj2 (String.eqb_neq _ _) Hs). Qed.

Lemma length_search_args o :
  length (if searching o then (λ _ : string, "%" +:+ qo_Search o +:+ "%") <$> SagaInstancesSearchColumns
          else []) = if searching o then 19 else 0.
Proof. by destruct (searching o). Qed.

(** Without a search, the condition is bound and typed: the statement runs,
    whatever the filters. *)
Lemma unsearched_accepted o :
  qo_Search o = "" →
  let '(text, args) := where_clause range o in
  accepts text (length args) = true ∧ args = (applied_filters range o).*2.
Proof.
  intros Hs. rewrite where_clause_shape. unfold searching. rewrite Hs. simpl.
  rewrite app_nil_r, length_fmap, <-(length_fmap fst). split; [|done].
  by apply (text_check (λ cols, accepts (where_text cols false) (length cols))).
Qed.

(** With a search, the condition compares columns of type [JSONB] with
    [ILIKE]; the server refuses the statement. *)
Lemma searched_untyped o :
  qo_Search o ≠ "" → typed (where_clause range o).1 = false.
Proof.
  intros Hs. rewrite where_clause_shape, searching_true by done. simpl.
  apply negb_true_iff. by apply (text_check (λ cols, negb (typed (where_text cols true)))).
Qed.

(** With a search alone the placeholders are right; with a search and a
    filter they are not: a number that has been moved up already is taken for
    a shorter one that begins alike. *)
Lemma searched_bound o :
  qo_Search o ≠ "" →
  let '(text, args) := where_clause range o in
  bound text (length args) = bool_decide (applied_filters range o = []).
Proof.
  intros Hs. rewrite where_clause_shape, searching_true by done. simpl.
  rewrite length_app, !length_fmap, <-(length_fmap fst).
  pose proof (text_check (λ cols, Bool.eqb (bound (where_text cols true) (length cols + 19))
    match cols with [] => true | _ => false end) o) as Hc.
  apply Bool.eqb_prop in Hc; [|by vm_compute]. simpl in *. rewrite Hc.
  by destruct (applied_filters range o).
Qed.
End properties.
