(* ===== verification/MqErrors.v ===== *)
(** * Errors and retry headers of the message queue client

    The errors that publishing can end with and [IsRetryableError] of
    [pkg/mq/common/errors.go], and the headers in which a republished message
    carries the number of its retries, of [pkg/mq/common/helpers.go]. *)

From stdpp Require Import pretty.
From S2P Require Import Prelude Naming GoStrings.

(** ** Errors

    [fmt.Errorf] with [%w] wraps an error; [errors.Is] and [errors.As] look
    through the wrapping.  An [*amqp.Error] of the library has a code;
    [amqp.ErrClosed] is one of them, told apart by its identity. *)
Inductive mqerror :=
  | ErrPublishTimeout
  | ErrPublishNacked
  | ErrChannelClosed
  | ErrConnectionClosed
  | AmqpError (isErrClosed : bool) (code : Z) (text : string)
  | MqErrorf (text : string)
  | Wrap (prefix : string) (inner : mqerror) (suffix : string).

#[export] Instance mqerror_eq_dec : EqDecision mqerror.
Proof. solve_decision. Defined.

(** [err.Error()] *)
Fixpoint mq_text (e : mqerror) : string :=
  match e with
  | ErrPublishTimeout => "publish confirmation timeout"
  | ErrPublishNacked => "message nacked by broker"
  | ErrChannelClosed => "channel closed"
  | ErrConnectionClosed => "connection closed"
  | AmqpError _ _ text | MqErrorf text => text
  | Wrap prefix inner suffix => prefix +:+ mq_text inner +:+ suffix
  end.

(** What [errors.Is] and [errors.As] end at. *)
Fixpoint mq_cause (e : mqerror) : mqerror :=
  match e with Wrap _ inner _ => mq_cause inner | _ => e end.

Definition retryable_code (code : Z) : bool :=
  existsb (Z.eqb code) [320; 504; 505; 506]%Z.

Definition retryablePatterns : list string :=
  ["channel/connection is not open"; "connection closed"; "channel closed"; "broken pipe";
   "connection reset"; "eof"].

Definition IsRetryableError (err : option mqerror) : bool :=
  match err with
  | None => false
  | Some err =>
      match mq_cause err with
      | ErrPublishTimeout | ErrChannelClosed | ErrConnectionClosed => true
      | AmqpError isErrClosed code _ => isErrClosed || retryable_code code
      | _ => false
      end ||
      existsb (λ pattern, contains pattern (lower (mq_text err))) retryablePatterns
  end.

(** ** Headers *)

(** The values an [amqp.Table] may hold, as far as they matter here. *)
Inductive HeaderValue :=
  | HInt32 (z : Z)
  | HInt64 (z : Z)
  | HInt (z : Z)
  | HString (s : string).

(** A nil table reads like an empty one. *)
Abbreviation Headers := (gmap string HeaderValue).

Definition RetryCountHeader : string := "x-retry-count".
Definition RetryReasonHeader : string := "x-retry-reason".
Definition FirstFailureHeader : string := "x-first-failure-time".

Definition MaxMessageRetries : Z := 5.

Definition GetRetryCount (headers : Headers) : Z :=
  match headers !! RetryCountHeader with
  | Some (HInt32 count) | Some (HInt64 count) | Some (HInt count) => count
  | _ => 0
  end.

(** [int32(currentCount + 1)]: the sum is an [int], the conversion keeps its
    low 32 bits. *)
Definition to_int32 (z : Z) : Z :=
  let m := (z mod 4294967296)%Z in if (m <? 2147483648)%Z then m else (m - 4294967296)%Z.

Definition IncrementRetryCount (now : Z) (headers : Headers) (reason : string) : Headers :=
  let newHeaders :=
    <[RetryReasonHeader := HString reason]>
      (<[RetryCountHeader := HInt32 (to_int32 (GetRetryCount headers + 1))]> headers) in
  match headers !! FirstFailureHeader with
  | Some _ => newHeaders
  | None => <[FirstFailureHeader := HInt64 now]> newHeaders
  end.

Definition ShouldRetryMessage (headers : Headers) : bool :=
  (GetRetryCount headers <? MaxMessageRetries)%Z.

(** ** Laws *)

Lemma GetRetryCount_Increment now headers reason :
  GetRetryCount (IncrementRetryCount now headers reason) = to_int32 (GetRetryCount headers + 1).
Proof.
  unfold IncrementRetryCount, GetRetryCount at 1.
  destruct (headers !! FirstFailureHeader); [|rewrite lookup_insert_ne by done];
    by rewrite lookup_insert_ne, lookup_insert_eq by done.
Qed.

Lemma to_int32_small z : (-2147483648 ≤ z < 2147483648)%Z → to_int32 z = z.
Proof.
  intros Hz. unfold to_int32. destruct (Z.ltb_spec (z mod 4294967296) 2147483648).
  - destruct (Z.lt_ge_cases z 0).
    + rewrite <- (Z_mod_plus_full z 1), Z.mod_small in * by lia. lia.
    + by rewrite Z.mod_small by lia.
  - destruct (Z.lt_ge_cases z 0).
    + rewrite <- (Z_mod_plus_full z 1), Z.mod_small in * by lia. lia.
    + rewrite Z.mod_small in * by lia. lia.
Qed.

(** The first failure is never forgotten. *)
Lemma first_failure_kept now headers reason t :
  headers !! FirstFailureHeader = Some t →
  IncrementRetryCount now headers reason !! FirstFailureHeader = Some t.
Proof.
  intros Ht. unfold IncrementRetryCount. rewrite Ht.
  by rewrite !lookup_insert_ne by done.
Qed.

(** Wrapping does not hide an error from the decision to retry. *)
Lemma retryable_wrapped e prefix suffix :
  IsRetryableError (Some (mq_cause e)) = true →
  existsb (λ pattern, contains pattern (lower (mq_text (mq_cause e)))) retryablePatterns = false →
  IsRetryableError (Some (Wrap prefix e suffix)) = true.
Proof.
  intros He Ht. unfold IsRetryableError in *. rewrite Ht, orb_false_r in He.
  assert (Hc : mq_cause (mq_cause e) = mq_cause e) by (clear; by induction e).
  rewrite Hc in He. simpl mq_cause. by rewrite He.
Qed.

Example timeout_is_retried :
  IsRetryableError (Some (Wrap "" ErrPublishTimeout ": after 30s (seq 7)")) = true.
Proof. reflexivity. Qed.

Example nack_is_not_retried : IsRetryableError (Some ErrPublishNacked) = false.
Proof. reflexivity. Qed.
