(* ===== verification/MqPool.v ===== *)
(** * The channel pool and publishing

    [pkg/mq/common/channelpool.go], and the two publishing loops of
    [pkg/mq/common/helpers.go] that take their channels from it.  A channel of
    the AMQP library is a number; which channels are open, what a new channel
    or a publication meets, is the surroundings' business.

    [GetChannel] and [ReturnChannel] are made of sections, each of which is
    one step: what is done under the mutex, or a channel that enters or leaves
    the buffer.  The creation of a channel lets go of the mutex while it waits
    for the connection.  [GetChannel] here is the run of its sections by one
    goroutine that has the pool to itself; [goroutine_step] below lets the
    sections of any number of goroutines alternate. *)

From stdpp Require Import pretty.
From S2P Require Import Prelude GoMonad MqErrors.

#[local] Open Scope go_scope.

Record ChannelPool := mkChannelPool {
  cp_channels : list nat;       (* the buffered channel, oldest first *)
  cp_maxChannels : Z;
  cp_closed : bool;
  cp_created : Z;
  cp_acquiredCount : Z;
  cp_releasedCount : Z;
  cp_currentlyInUse : Z;
}.

(** Besides the pool: the channels that are open, the number of the next one,
    the channels with a cached publisher, what has been handed to the broker
    on which channel, the sleeps, and the questions asked. *)
Record PoolWorld := mkPoolWorld {
  pw_pool : ChannelPool;
  pw_open : gset nat;
  pw_next : nat;
  pw_publishers : gset nat;
  pw_sent : list nat;
  pw_sleeps : list Z;
  pw_tick : nat;
}.

(** [conn.Channel()], followed by [conn.IsClosed()] when it fails. *)
Inductive ChannelAnswer := ChannelOpened | ChannelRefused | ConnectionIsClosed.

(** A publication: whether the broker takes it, and what the caller learns. *)
Record PublishAnswer := mkPublishAnswer { pb_taken : bool; pb_error : option mqerror }.

Record PoolEnv := mkPoolEnv {
  pe_channel : nat → ChannelAnswer;
  pe_confirm : nat → option mqerror;    (* [ch.Confirm(false)] *)
  pe_publish : nat → PublishAnswer;
  pe_no_pool : nat → bool;              (* [RabbitMQChannelPool == nil] *)
}.

Section pool.
Context (env : PoolEnv).
#[local] Notation Go := (M PoolWorld).

Definition with_pool (f : ChannelPool → ChannelPool) : Go unit :=
  modify (λ w, mkPoolWorld (f (pw_pool w)) (pw_open w) (pw_next w) (pw_publishers w) (pw_sent w)
    (pw_sleeps w) (pw_tick w)).
Definition pool_tick : Go nat := λ w,
  (Ret (pw_tick w), mkPoolWorld (pw_pool w) (pw_open w) (pw_next w) (pw_publishers w) (pw_sent w)
    (pw_sleeps w) (S (pw_tick w))).
Definition mq_sleep (ns : Z) : Go unit :=
  modify (λ w, mkPoolWorld (pw_pool w) (pw_open w) (pw_next w) (pw_publishers w) (pw_sent w)
    (pw_sleeps w ++ [ns]) (pw_tick w)).
Definition set_publishers (f : gset nat → gset nat) : Go unit :=
  modify (λ w, mkPoolWorld (pw_pool w) (pw_open w) (pw_next w) (f (pw_publishers w)) (pw_sent w)
    (pw_sleeps w) (pw_tick w)).
Definition hand_over (ch : nat) : Go unit :=
  modify (λ w, mkPoolWorld (pw_pool w) (pw_open w) (pw_next w) (pw_publishers w) (pw_sent w ++ [ch])
    (pw_sleeps w) (pw_tick w)).
Definition close_channel (ch : nat) : Go unit :=
  modify (λ w, mkPoolWorld (pw_pool w) (pw_open w ∖ {[ch]}) (pw_next w) (pw_publishers w) (pw_sent w)
    (pw_sleeps w) (pw_tick w)).
Definition open_channel : Go nat := λ w,
  (Ret (pw_next w), mkPoolWorld (pw_pool w) ({[pw_next w]} ∪ pw_open w) (S (pw_next w))
    (pw_publishers w) (pw_sent w) (pw_sleeps w) (pw_tick w)).
Definition IsClosedChannel (ch : nat) : Go bool :=
  w <- get_state ;; ret (bool_decide (ch ∉ pw_open w)).

Definition set_channels (l : list nat) (p : ChannelPool) : ChannelPool :=
  mkChannelPool l (cp_maxChannels p) (cp_closed p) (cp_created p) (cp_acquiredCount p)
    (cp_releasedCount p) (cp_currentlyInUse p).
Definition set_closed (p : ChannelPool) : ChannelPool :=
  mkChannelPool [] (cp_maxChannels p) true (cp_created p) (cp_acquiredCount p)
    (cp_releasedCount p) (cp_currentlyInUse p).
Definition add_created (n : Z) (p : ChannelPool) : ChannelPool :=
  mkChannelPool (cp_channels p) (cp_maxChannels p) (cp_closed p) (cp_created p + n)
    (cp_acquiredCount p) (cp_releasedCount p) (cp_currentlyInUse p).
Definition add_acquired (p : ChannelPool) : ChannelPool :=
  mkChannelPool (cp_channels p) (cp_maxChannels p) (cp_closed p) (cp_created p)
    (cp_acquiredCount p + 1) (cp_releasedCount p) (cp_currentlyInUse p).
Definition add_released (p : ChannelPool) : ChannelPool :=
  mkChannelPool (cp_channels p) (cp_maxChannels p) (cp_closed p) (cp_created p)
    (cp_acquiredCount p) (cp_releasedCount p + 1) (cp_currentlyInUse p).
Definition add_in_use (n : Z) (p : ChannelPool) : ChannelPool :=
  mkChannelPool (cp_channels p) (cp_maxChannels p) (cp_closed p) (cp_created p)
    (cp_acquiredCount p) (cp_releasedCount p) (cp_currentlyInUse p + n).

(** [p.created -= n; if p.created < 0 { p.created = 0 }] *)
Definition uncount (n : Z) (p : ChannelPool) : ChannelPool :=
  add_created (Z.max 0 (cp_created p - n) - cp_created p) p.

Definition ClearPublisherForChannel (ch : nat) : Go unit := set_publishers (λ s, s ∖ {[ch]}).
Definition ClearAllPublishers : Go unit := set_publishers (λ _, ∅).

(** ** The pool *)

Definition pool_is_closed {A} : result A := Err (Errorf "channel pool is closed").

(** The first section of [GetChannel]. *)
Definition get_enter : Go (result unit) :=
  w <- get_state ;;
  if cp_closed (pw_pool w) then ret pool_is_closed
  else with_pool add_acquired ;;; ret (Ok tt).

(** [select { case ch := <-p.channels: ... default: ... }]; a closed buffer
    gives nil. *)
Inductive Received := GotChannel (ch : nat) | GotNil | GotNothing.

Definition get_receive : Go Received :=
  w <- get_state ;;
  match cp_channels (pw_pool w) with
  | ch :: channels => with_pool (set_channels channels) ;;; ret (GotChannel ch)
  | [] => ret (if cp_closed (pw_pool w) then GotNil else GotNothing)
  end.

(** A channel that was received: [false] when it is closed, and then it is no
    longer counted. *)
Definition get_check (ch : nat) : Go bool :=
  closed <- IsClosedChannel ch ;;
  if closed : bool then
    with_pool (uncount 1) ;;;
    ClearPublisherForChannel ch ;;;
    ret false
  else
    with_pool (add_in_use 1) ;;;
    ret true.

(** What the creation of a channel comes to: a channel, an error, or a sleep
    of two seconds without the mutex, with a number of attempts left. *)
Inductive Creation := Created (r : result nat) | Asleep (attempts : nat).

Definition create_attempt (attempts : nat) : Go Creation :=
  n <- pool_tick ;;
  match pe_channel env n with
  | ChannelOpened =>
      ch <- open_channel ;;
      with_pool (λ p, add_in_use 1 (add_created 1 p)) ;;;
      ret (Created (Ok ch))
  | ChannelRefused => ret (Created (Err (Errorf "failed to create new channel")))
  | ConnectionIsClosed =>
      match attempts with
      | O => ret (Created (Err (Errorf "failed to create new channel")))
      | S attempts => mq_sleep 2000000000 ;;; ret (Asleep attempts)
      end
  end.

Definition pool_exhausted : string := "[ChannelPool] FATAL: channel pool exhausted!".

(** The section that begins the creation, and the one after a sleep: it looks
    whether the pool is closed, and not again how many channels there are. *)
Definition create_enter : Go Creation :=
  w <- get_state ;;
  if cp_closed (pw_pool w) then ret (Created pool_is_closed)
  else if (cp_maxChannels (pw_pool w) <=? cp_created (pw_pool w))%Z then panic pool_exhausted
  else create_attempt 2.

Definition create_resume (attempts : nat) : Go Creation :=
  w <- get_state ;;
  if cp_closed (pw_pool w) then ret (Created pool_is_closed)
  else create_attempt attempts.

Fixpoint create_rest (fuel : nat) (c : Creation) : Go (result nat) :=
  match c, fuel with
  | Created r, _ => ret r
  | Asleep _, O => hang
  | Asleep attempts, S fuel => c <- create_resume attempts ;; create_rest fuel c
  end.

(** The method calls itself when the channel it took is closed. *)
Fixpoint get_channel (fuel : nat) : Go (result nat) :=
  match fuel with
  | O => hang
  | S fuel =>
      _ <-? get_enter else e => ret (Err e) ;;
      received <- get_receive ;;
      match received with
      | GotChannel ch =>
          taken <- get_check ch ;;
          if taken : bool then ret (Ok ch) else get_channel fuel
      | GotNil => panic "invalid memory address or nil pointer dereference"
      | GotNothing => c <- create_enter ;; create_rest 2 c
      end
  end.

(** A turn per buffered channel is enough. *)
Definition GetChannel : Go (result nat) := λ w,
  get_channel (S (length (cp_channels (pw_pool w)))) w.

(** The first section of [ReturnChannel]: [true] when the channel is still
    to go back into the buffer. *)
Definition return_count (ch : nat) : Go bool :=
  with_pool add_released ;;;
  w <- get_state ;;
  if cp_closed (pw_pool w) then
    ClearPublisherForChannel ch ;;;
    close_channel ch ;;;
    ret false
  else
    closed <- IsClosedChannel ch ;;
    if closed : bool then
      with_pool (uncount 1) ;;;
      ClearPublisherForChannel ch ;;;
      ret false
    else
      with_pool (add_in_use (-1)) ;;;
      ret true.

(** [select { case p.channels <- ch: default: ... }]; [false] when the buffer
    is full.  A buffer that was closed in the meantime cannot be sent to. *)
Definition return_send (ch : nat) : Go bool :=
  w <- get_state ;;
  if cp_closed (pw_pool w) then panic "send on closed channel"
  else if (Z.of_nat (length (cp_channels (pw_pool w))) <? cp_maxChannels (pw_pool w))%Z then
    with_pool (λ p, set_channels (cp_channels p ++ [ch]) p) ;;;
    ret true
  else
    ClearPublisherForChannel ch ;;;
    close_channel ch ;;;
    ret false.

Definition ReturnChannel (ch : nat) : Go unit :=
  go_on <- return_count ch ;;
  if go_on : bool then return_send ch ;;; ret tt else ret tt.

(** The loops over the channels of the pool, in [Close] and [DrainPool]. *)
Fixpoint close_channels (channels : list nat) : Go unit :=
  match channels with
  | [] => ret tt
  | ch :: channels =>
      closed <- IsClosedChannel ch ;;
      (if closed : bool then ret tt else ClearPublisherForChannel ch ;;; close_channel ch) ;;;
      close_channels channels
  end.

Definition Close : Go unit :=
  w <- get_state ;;
  if cp_closed (pw_pool w) then ret tt
  else
    with_pool set_closed ;;;
    close_channels (cp_channels (pw_pool w)).

(** The channels are closed by a goroutine; unlike [Close] it clears the
    publishers of closed channels too. *)
Fixpoint drain_channels (channels : list nat) : Go unit :=
  match channels with
  | [] => ret tt
  | ch :: channels =>
      ClearPublisherForChannel ch ;;;
      closed <- IsClosedChannel ch ;;
      (if closed : bool then ret tt else close_channel ch) ;;;
      drain_channels channels
  end.

Definition DrainPool : Go unit :=
  w <- get_state ;;
  if cp_closed (pw_pool w) then ret tt
  else
    let channels := cp_channels (pw_pool w) in
    with_pool (λ p, uncount (Z.of_nat (length channels)) (set_channels [] p)) ;;;
    drain_channels channels.

Record PoolStats := mkPoolStats {
  st_max : Z;
  st_created : Z;
  st_available : Z;
  st_in_use : Z;
}.

Definition Stats (p : ChannelPool) : PoolStats :=
  let available := Z.of_nat (length (cp_channels p)) in
  mkPoolStats (cp_maxChannels p) (cp_created p) available (cp_created p - available).

Definition IsClosed (p : ChannelPool) : bool := cp_closed p.

(** The channels a new pool opens; [false] when one cannot be opened. *)
Fixpoint open_initial (n : nat) : Go bool :=
  match n with
  | O => ret true
  | S n =>
      t <- pool_tick ;;
      match pe_channel env t with
      | ChannelOpened =>
          ch <- open_channel ;;
          with_pool (λ p, add_created 1 (set_channels (cp_channels p ++ [ch]) p)) ;;;
          open_initial n
      | _ => ret false
      end
  end.

(** [NewChannelPool]; the world's pool is the new one. *)
Definition NewChannelPool (conn_nil : bool) (maxChannels : Z) : Go (result unit) :=
  if conn_nil then ret (Err (Errorf "connection is nil"))
  else
    let maxChannels := if (maxChannels <=? 0)%Z then 500%Z else maxChannels in
    with_pool (λ _, mkChannelPool [] maxChannels false 0 0 0 0) ;;;
    let initialChannels := Z.quot maxChannels 5 in
    ok <- open_initial (if (initialChannels <? 1)%Z then 1 else Z.to_nat initialChannels) ;;
    if ok : bool then ret (Ok tt)
    else
      Close ;;;
      ret (Err (Errorf "failed to create initial channel")).

(** ** Publishing *)

Definition sleep_second : Z := 1000000000.

(** A publication and what the broker makes of it. *)
Definition broker_publish (ch : nat) : Go (option mqerror) :=
  n <- pool_tick ;;
  (if pb_taken (pe_publish env n) then hand_over ch else ret tt) ;;;
  ret (pb_error (pe_publish env n)).

(** [publishWithConfirms] and [publishWithConfirmsRK]: one publisher for each
    channel, made when there is none yet. *)
Definition publishWithConfirms (ch : nat) : Go (option mqerror) :=
  w <- get_state ;;
  if decide (ch ∈ pw_publishers w) then broker_publish ch
  else
    n <- pool_tick ;;
    match pe_confirm env n with
    | Some err => ret (Some (Wrap "failed to enable confirms: " err ""))
    | None =>
        set_publishers (λ s, {[ch]} ∪ s) ;;;
        broker_publish ch
    end.

Definition publishDirect (ch : nat) : Go (option mqerror) := broker_publish ch.

(** The loop over the attempts.  [discard]: after an error that can be
    retried the channel is thrown away; it is not given back.  [lastErr] is
    the error of the attempt before. *)
Fixpoint publish_attempts (useConfirms discard : bool) (failure : string) (tries attempt : nat)
    (lastErr : option mqerror) : Go (option mqerror) :=
  match tries with
  | O =>
      ret (Some (match lastErr with
                 | Some e => Wrap failure e ""
                 | None => MqErrorf failure
                 end))
  | S tries =>
      let again e :=
        mq_sleep (sleep_second * Z.of_nat (S attempt)) ;;;
        publish_attempts useConfirms discard failure tries (S attempt) (Some e) in
      n <- pool_tick ;;
      if pe_no_pool env n then again (MqErrorf "rabbitmq channel pool not initialized")
      else
        r <- GetChannel ;;
        match r with
        | Err err => again (MqErrorf ("failed to get channel from pool: " +:+ error_text err))
        | Ok ch =>
            err <- (if useConfirms then publishWithConfirms ch else publishDirect ch) ;;
            let give_back := ReturnChannel ch in
            match err with
            | None => give_back ;;; ret None
            | Some e =>
                if IsRetryableError (Some e) then
                  (if discard then ClearPublisherForChannel ch else give_back) ;;;
                  again e
                else give_back ;;; ret (Some e)
            end
        end
  end.

Definition publish_retries : nat := 3.

Definition PublishWithHeaders (useConfirms : bool) : Go (option mqerror) :=
  publish_attempts useConfirms true "publish failed after 3 attempts: " publish_retries 0 None.
Definition PublishWithRoutingKey (useConfirms : bool) : Go (option mqerror) :=
  publish_attempts useConfirms false "publish with routing key failed after 3 attempts: "
    publish_retries 0 None.
Definition Publish : bool → Go (option mqerror) := PublishWithHeaders.
End pool.

(** ** What the channel pool guarantees

    The pool is used by any number of goroutines, which take channels, give
    them back or throw them away, while channels and connections close at any
    time.  A channel is never in two hands, the counter of channels is exact,
    and it never exceeds its maximum; what is thrown away is never made up
    for. *)

#[local] Open Scope go_scope.

(** [held]: the channels that callers have; [lost]: those that a publisher
    threw away. *)
Record pool_ok (w : PoolWorld) (held lost : list nat) : Prop := {
  ok_nodup : NoDup (cp_channels (pw_pool w) ++ held ++ lost);
  ok_fresh : Forall (λ ch, ch < pw_next w) (cp_channels (pw_pool w) ++ held ++ lost);
  ok_count : cp_closed (pw_pool w) = false →
    cp_created (pw_pool w) = Z.of_nat (length (cp_channels (pw_pool w) ++ held ++ lost)) ∧
    (cp_created (pw_pool w) ≤ cp_maxChannels (pw_pool w))%Z;
  ok_closed : cp_closed (pw_pool w) = true → cp_channels (pw_pool w) = [];
}.

(** Nothing but clocks, publishers and open channels differs. *)
Definition same_pool (w w' : PoolWorld) : Prop :=
  pw_pool w' = pw_pool w ∧ pw_next w ≤ pw_next w'.

Lemma same_pool_ok w w' held lost : same_pool w w' → pool_ok w held lost → pool_ok w' held lost.
Proof.
  intros [Hp Hn] [H1 H2 H3 H4]. split; rewrite Hp; try done.
  eapply Forall_impl; [exact H2|]. simpl. lia.
Qed.

Lemma pool_ok_perm w held held' lost :
  held ≡ₚ held' → pool_ok w held lost → pool_ok w held' lost.
Proof.
  intros Hh [H1 H2 H3 H4].
  assert (Hp : cp_channels (pw_pool w) ++ held ++ lost ≡ₚ cp_channels (pw_pool w) ++ held' ++ lost)
    by by rewrite Hh.
  split; [by rewrite <- Hp|by rewrite <- Hp| |done].
  intros Hc. by rewrite <- (Permutation_length Hp); apply H3.
Qed.

(** ** Single operations *)

Section specs.
Context (env : PoolEnv).

(** What an attempt to create a channel does. *)
Definition attempted (w w' : PoolWorld) (c : Creation) : Prop :=
  match c with
  | Created (Ok ch) =>
      pw_pool w' = add_in_use 1 (add_created 1 (pw_pool w)) ∧ ch = pw_next w ∧
      pw_next w' = S (pw_next w) ∧ ch ∈ pw_open w'
  | Created (Err _) | Asleep _ => same_pool w w'
  end.

Lemma create_attempt_spec attempts w :
  wp (create_attempt env attempts) (returns (λ c w', attempted w w' c ∧
    match c with Asleep n => n < attempts | _ => True end)) w.
Proof.
  unfold create_attempt, wp, bind, pool_tick. simpl.
  destruct (pe_channel env (pw_tick w)); simpl; [|by split|destruct attempts; simpl; split; done || lia].
  split_and!; [done..|set_solver|done].
Qed.

Lemma create_resume_spec attempts w :
  wp (create_resume env attempts) (returns (λ c w', attempted w w' c ∧
    match c with Asleep n => n < attempts | _ => True end)) w.
Proof.
  unfold create_resume. apply wp_bind_ret. unfold wp at 1. simpl.
  destruct (cp_closed (pw_pool w)); [by split|apply create_attempt_spec].
Qed.

Lemma same_pool_trans w1 w2 w3 : same_pool w1 w2 → same_pool w2 w3 → same_pool w1 w3.
Proof. intros [H1 N1] [H2 N2]. split; [congruence|lia]. Qed.

Lemma create_rest_spec fuel c w w1 :
  attempted w w1 c → match c with Asleep n => n < fuel | _ => True end →
  wp (create_rest env fuel c) (returns (λ r w',
    match r with
    | Ok ch => ∃ w2, same_pool w w2 ∧ attempted w2 w' (Created (Ok ch))
    | Err _ => same_pool w w'
    end)) w1.
Proof.
  revert c w1. induction fuel as [|fuel IH]; intros [r|n] w1 Hc Hn; simpl; [|lia|..].
  1, 2: unfold wp; simpl; destruct r as [ch|e]; [by exists w|done].
  apply wp_bind_ret. eapply wp_returns_mono; [|apply create_resume_spec].
  intros c w2 [Hc2 Hn2]. simpl in Hc.
  assert (match c with Asleep n => n < fuel | _ => True end) as Hlt by (destruct c; [done|lia]).
  destruct c as [[ch|e]|n2].
  - destruct fuel; unfold wp; simpl; by exists w1.
  - destruct fuel; unfold wp; simpl; by eapply same_pool_trans.
  - apply IH; [|done]. by eapply same_pool_trans.
Qed.

#[local] Arguments create_rest : simpl never.

(** A closed channel that is taken out of the pool is no longer counted. *)
Lemma pool_ok_pop w ch channels held lost :
  cp_channels (pw_pool w) = ch :: channels →
  pool_ok w held lost →
  ∀ w', pw_pool w' = uncount 1 (set_channels channels (add_acquired (pw_pool w))) →
  pw_next w' = pw_next w →
  pool_ok w' held lost.
Proof.
  intros Hch [H1 H2 H3 H4] w' Hw' Hn. rewrite Hch in *. simpl in *.
  apply NoDup_cons in H1 as [_ H1]. apply Forall_cons in H2 as [_ H2].
  destruct (cp_closed (pw_pool w)) eqn:Hcl; [by specialize (H4 eq_refl)|].
  destruct (H3 eq_refl) as [Hc Hm].
  split; rewrite Hw'; simpl; rewrite ?Hn; [done|done| |by rewrite Hcl].
  intros _. split; lia.
Qed.

Lemma get_channel_spec fuel w held lost :
  pool_ok w held lost → length (cp_channels (pw_pool w)) < fuel →
  wp (get_channel env fuel) (λ o w',
    match o with
    | Ret (Ok ch) => pool_ok w' (ch :: held) lost ∧ ch ∈ pw_open w'
    | Ret (Err _) => pool_ok w' held lost
    | Panic msg =>
        msg = pool_exhausted ∧ cp_closed (pw_pool w) = false ∧
        Forall (λ ch, ch ∉ pw_open w) (cp_channels (pw_pool w)) ∧
        cp_maxChannels (pw_pool w) = Z.of_nat (length (held ++ lost))
    | Hang => False
    end) w.
Proof.
  revert w. induction fuel as [|fuel IH]; intros w Hok Hf; [lia|].
  simpl. unfold get_enter. unfold wp, or_else, bind, get_state, with_pool, modify; simpl.
  destruct (cp_closed (pw_pool w)) eqn:Hcl; simpl; [done|].
  unfold get_receive, bind, get_state, with_pool, modify; simpl.
  destruct (cp_channels (pw_pool w)) as [|ch channels] eqn:Hch; simpl.
  - rewrite Hcl. simpl. destruct Hok as [H1 H2 H3 H4]. rewrite Hch in *. destruct (H3 Hcl) as [Hc Hm].
    unfold create_enter, bind, get_state; simpl. rewrite Hcl.
    destruct (Z.leb_spec (cp_maxChannels (pw_pool w)) (cp_created (pw_pool w))); simpl.
    + split_and!; [done..|constructor|]. simpl in Hc. lia.
    + match goal with |- context [create_attempt env 2 ?w1] =>
        pose proof (create_attempt_spec 2 w1) as Hcr end.
      unfold wp in Hcr. destruct (create_attempt _ _ _) as [[c|msg|] w2]; simpl in Hcr; [|done..].
      destruct Hcr as [Hcr Hlt].
      pose proof (create_rest_spec 2 c _ w2 Hcr Hlt) as Hr.
      unfold wp in Hr. destruct (create_rest _ _ _ _) as [[[ch|e]|msg|] w']; simpl in Hr; [|..|done|done].
      * destruct Hr as (w3 & [Hp3 Hn3] & Hp & -> & Hn & Ho). split; [|done]. simpl in *.
        split; simpl; rewrite ?Hp, ?Hn; simpl; rewrite ?Hp3; simpl; rewrite ?Hch; simpl.
        -- constructor; [|done]. intros Hin. eapply Forall_forall in H2; [|exact Hin]. lia.
        -- constructor; [lia|]. eapply Forall_impl; [exact H2|]. simpl. lia.
        -- intros _. simpl in Hc. lia.
        -- by rewrite Hcl.
      * destruct Hr as [Hp Hn]. simpl in Hp, Hn |- *.
        split; rewrite ?Hp; simpl; rewrite ?Hch; simpl; [done| |done|by rewrite Hcl].
        eapply Forall_impl; [exact H2|]. simpl in *. lia.
  - unfold get_check, IsClosedChannel, bind, get_state, with_pool, modify; simpl.
    destruct (bool_decide_reflect (ch ∉ pw_open w)) as [Hclosed|Hopen]; simpl.
    + match goal with |- context [get_channel env fuel ?w1] =>
        specialize (IH w1); assert (Hok1 : pool_ok w1 held lost)
          by (eapply (pool_ok_pop w); [exact Hch|exact Hok|done|done]) end.
      specialize (IH Hok1). unfold wp in IH. simpl in IH, Hf.
      destruct (get_channel _ _ _) as [[[c|e]|msg|] w']; simpl in *; try (apply IH; lia).
      destruct IH as (-> & Hcl' & Hall & Hm); [lia|]. split_and!; try done. by constructor.
    + apply dec_stable in Hopen. split; [|done].
      destruct Hok as [H1 H2 H3 H4]. rewrite Hch in *.
      assert (Hp : (ch :: channels) ++ held ++ lost ≡ₚ channels ++ (ch :: held) ++ lost)
        by (simpl; by rewrite Permutation_middle).
      split; simpl; rewrite ?Hcl.
      * by rewrite <- Hp.
      * by rewrite <- Hp.
      * intros _. destruct (H3 Hcl) as [Hc Hm]. rewrite (Permutation_length Hp) in Hc.
        simpl in Hc. lia.
      * done.
Qed.

Lemma GetChannel_spec w held lost :
  pool_ok w held lost →
  wp (GetChannel env) (λ o w',
    match o with
    | Ret (Ok ch) => pool_ok w' (ch :: held) lost ∧ ch ∈ pw_open w'
    | Ret (Err _) => pool_ok w' held lost
    | Panic msg =>
        msg = pool_exhausted ∧ cp_closed (pw_pool w) = false ∧
        Forall (λ ch, ch ∉ pw_open w) (cp_channels (pw_pool w)) ∧
        cp_maxChannels (pw_pool w) = Z.of_nat (length (held ++ lost))
    | Hang => False
    end) w.
Proof. intros Hok. apply (get_channel_spec _ _ _ _ Hok). lia. Qed.

Lemma ReturnChannel_spec w ch held held' lost :
  pool_ok w held lost → held ≡ₚ ch :: held' →
  wp (ReturnChannel ch) (returns (λ _ w', pool_ok w' held' lost)) w.
Proof.
  intros Hok Hh. apply (pool_ok_perm _ _ _ _ Hh) in Hok as [H1 H2 H3 H4].
  assert (Hp : cp_channels (pw_pool w) ++ (ch :: held') ++ lost ≡ₚ
    ch :: cp_channels (pw_pool w) ++ held' ++ lost)
    by by rewrite (Permutation_middle (cp_channels (pw_pool w)) (held' ++ lost) ch).
  rewrite Hp in H1, H2. rewrite (Permutation_length Hp) in H3. simpl in H3.
  pose proof (NoDup_cons_1_2 _ _ H1) as Hnd. pose proof (Forall_inv_tail H2) as Hfr.
  unfold ReturnChannel, return_count, wp, bind, get_state, with_pool, modify, IsClosedChannel; simpl.
  destruct (cp_closed (pw_pool w)) eqn:Hcl; simpl.
  - split; simpl; [done|done| |by intros _; apply H4]. rewrite Hcl. done.
  - destruct (H3 eq_refl) as [Hc Hm].
    destruct (bool_decide _); simpl.
    + split; simpl; rewrite ?Hcl; [done|done| |done]. intros _. lia.
    + unfold return_send, bind, get_state, with_pool, modify; simpl. rewrite Hcl.
      rewrite length_app in Hc. destruct (Z.ltb_spec
        (Z.of_nat (length (cp_channels (pw_pool w)))) (cp_maxChannels (pw_pool w))); [|lia].
      simpl. assert (Hq : (cp_channels (pw_pool w) ++ [ch]) ++ held' ++ lost ≡ₚ
        ch :: cp_channels (pw_pool w) ++ held' ++ lost)
        by (rewrite <- app_assoc; simpl; by rewrite <- Permutation_middle).
      split; simpl; [by rewrite Hq|by rewrite Hq| |by rewrite Hcl].
      intros _. rewrite (Permutation_length Hq). simpl. rewrite length_app. lia.
Qed.

Lemma discard_ok w ch held held' lost :
  pool_ok w held lost → held ≡ₚ ch :: held' →
  wp (ClearPublisherForChannel ch) (returns (λ _ w', pool_ok w' held' (ch :: lost))) w.
Proof.
  intros Hok Hh. apply (pool_ok_perm _ _ _ _ Hh) in Hok as [H1 H2 H3 H4].
  assert (Hp : cp_channels (pw_pool w) ++ (ch :: held') ++ lost ≡ₚ
    cp_channels (pw_pool w) ++ held' ++ ch :: lost) by (simpl; by rewrite Permutation_middle).
  unfold wp. simpl. split; simpl; [by rewrite <- Hp|by rewrite <- Hp| |done].
  intros Hc. rewrite <- (Permutation_length Hp). by apply H3.
Qed.

Lemma close_channels_spec l w : wp (close_channels l) (returns (λ _ w', same_pool w w')) w.
Proof.
  revert w. induction l as [|ch l IH]; intros w; [by split|].
  simpl. unfold wp, bind, IsClosedChannel, get_state; simpl.
  destruct (bool_decide _); simpl;
    match goal with |- context [close_channels l ?w1] => generalize (IH w1) end;
    apply wp_returns_mono; intros _ w' [Hp Hn]; by split.
Qed.

Lemma drain_channels_spec l w : wp (drain_channels l) (returns (λ _ w', same_pool w w')) w.
Proof.
  revert w. induction l as [|ch l IH]; intros w; [by split|].
  simpl. unfold wp, bind, IsClosedChannel, get_state; simpl.
  destruct (bool_decide _); simpl;
    match goal with |- context [drain_channels l ?w1] => generalize (IH w1) end;
    apply wp_returns_mono; intros _ w' [Hp Hn]; by split.
Qed.

(** A pool that has lost its channels to [Close] or [DrainPool]. *)
Lemma pool_ok_emptied w held lost : pool_ok w held lost →
  NoDup (held ++ lost) ∧ Forall (λ ch, ch < pw_next w) (held ++ lost).
Proof.
  intros [H1 H2 _ _]. split; [by apply NoDup_app in H1 as (_ & _ & ?)|].
  by apply Forall_app in H2 as [_ ?].
Qed.

Lemma DrainPool_spec w held lost :
  pool_ok w held lost → wp DrainPool (returns (λ _ w', pool_ok w' held lost)) w.
Proof.
  intros Hok. unfold DrainPool, wp, bind, get_state, with_pool, modify; simpl.
  destruct (cp_closed (pw_pool w)) eqn:Hcl; simpl; [done|].
  match goal with |- context [drain_channels ?l ?w1] =>
    pose proof (drain_channels_spec l w1) as Hd end.
  revert Hd. apply wp_returns_mono. intros _ w' Hs. apply (same_pool_ok _ _ _ _ Hs).
  destruct (pool_ok_emptied _ _ _ Hok) as [Hnd Hfr]. destruct Hok as [_ _ H3 _].
  destruct (H3 Hcl) as [Hc Hm]. rewrite length_app in Hc.
  split; simpl; [done|done| |by rewrite Hcl]. intros _. lia.
Qed.

Lemma Close_spec w held lost :
  pool_ok w held lost → wp Close (returns (λ _ w', pool_ok w' held lost)) w.
Proof.
  intros Hok. unfold Close, wp, bind, get_state, with_pool, modify; simpl.
  destruct (cp_closed (pw_pool w)) eqn:Hcl; simpl; [done|].
  match goal with |- context [close_channels ?l ?w1] =>
    pose proof (close_channels_spec l w1) as Hd end.
  revert Hd. apply wp_returns_mono. intros _ w' Hs. apply (same_pool_ok _ _ _ _ Hs).
  destruct (pool_ok_emptied _ _ _ Hok) as [Hnd Hfr].
  by split; simpl.
Qed.

Lemma open_initial_spec n w :
  pool_ok w [] [] → cp_closed (pw_pool w) = false →
  (cp_created (pw_pool w) + Z.of_nat n ≤ cp_maxChannels (pw_pool w))%Z →
  wp (open_initial env n) (returns (λ _ w', pool_ok w' [] [])) w.
Proof.
  revert w. induction n as [|n IH]; intros w Hok Hcl Hn; [done|].
  simpl. unfold wp, bind, pool_tick, open_channel, with_pool, modify; simpl.
  destruct (pe_channel env (pw_tick w)); simpl;
    [|by apply (same_pool_ok w); [split|]|by apply (same_pool_ok w); [split|]].
  destruct Hok as [H1 H2 H3 H4]. rewrite !app_nil_r in *. destruct (H3 Hcl) as [Hc Hm].
  apply IH; simpl; [|done|lia]. split; simpl; rewrite ?app_nil_r.
  - apply NoDup_app. split_and!; [done| |apply NoDup_singleton].
    intros ch Hin ->%list_elem_of_singleton. eapply Forall_forall in H2; [|exact Hin]. lia.
  - apply Forall_app. split; [|by constructor; [lia|]].
    eapply Forall_impl; [exact H2|]. simpl. lia.
  - intros _. rewrite length_app. simpl. lia.
  - by rewrite Hcl.
Qed.

Lemma NewChannelPool_spec conn_nil max w :
  wp (NewChannelPool env conn_nil max) (returns (λ r w',
    match r with Ok _ => pool_ok w' [] [] | Err _ => True end)) w.
Proof.
  destruct conn_nil; [done|].
  unfold NewChannelPool. apply wp_bind_ret. unfold with_pool, modify, wp at 1. simpl.
  set (w1 := mkPoolWorld _ _ _ _ _ _ _).
  set (m := if (max <=? 0)%Z then 500%Z else max) in *.
  assert (Hm : (0 < m)%Z) by (subst m; destruct (Z.leb_spec max 0); lia).
  assert (Hok : pool_ok w1 [] []) by (split; simpl; [constructor|constructor|lia|done]).
  apply wp_bind_ret.
  match goal with |- wp (open_initial env ?n) _ _ => set (k := n) end.
  assert (Hk : (Z.of_nat k ≤ m)%Z).
  { subst k. rewrite Z.quot_div_nonneg by lia. destruct (Z.ltb_spec (m / 5) 1); [lia|].
    rewrite Z2Nat.id by lia. apply Z.div_le_upper_bound; lia. }
  pose proof (open_initial_spec k w1 Hok eq_refl Hk) as Hi.
  revert Hi. apply wp_returns_mono. intros [] w' Hok'; [done|].
  apply wp_bind_ret. pose proof (Close_spec _ _ _ Hok') as Hc.
  revert Hc. by apply wp_returns_mono.
Qed.
End specs.

(** ** The pool among goroutines *)

(** Where a goroutine is that uses the pool: before a section of [GetChannel],
    asleep in it, with a channel, or between the two sections of
    [ReturnChannel]. *)
Inductive Phase :=
  | Entering
  | Selecting
  | Checking (ch : nat)
  | Creating
  | Sleeping (attempts : nat)
  | Having (ch : nat)
  | Sending (ch : nat).

(** [sh_lost]: the channels that were thrown away, by a publisher or because
    the buffer was full; [sh_late]: how many were created after a sleep. *)
Record Sharers := mkSharers {
  sh_world : PoolWorld;
  sh_phases : list Phase;
  sh_lost : list nat;
  sh_late : nat;
}.

Definition in_hand (ph : Phase) : option nat :=
  match ph with Checking ch | Having ch | Sending ch => Some ch | _ => None end.
Definition hands (phs : list Phase) : list nat := omap in_hand phs.

Definition after_receive (r : Received) : option Phase :=
  match r with
  | GotChannel ch => Some (Checking ch)
  | GotNothing => Some Creating
  | GotNil => None
  end.
Definition after_creation (c : Creation) : list Phase :=
  match c with
  | Created (Ok ch) => [Having ch]
  | Created (Err _) => []
  | Asleep attempts => [Sleeping attempts]
  end.
Definition made (c : Creation) : nat := match c with Created (Ok _) => 1 | _ => 0 end.

Section goroutines.
Context (env : PoolEnv).

(** One section of one goroutine, or a method of the pool that is one
    section, or the library at work.  A panic ends the process. *)
Inductive goroutine_step : Sharers → Sharers → Prop :=
  | go_call w phs lost late :
      goroutine_step (mkSharers w phs lost late) (mkSharers w (phs ++ [Entering]) lost late)
  | go_enter w w' l k lost late r :
      get_enter w = (Ret r, w') →
      goroutine_step (mkSharers w (l ++ Entering :: k) lost late)
        (mkSharers w' (l ++ (if is_ok r then [Selecting] else []) ++ k) lost late)
  | go_receive w w' l k lost late got ph :
      get_receive w = (Ret got, w') → after_receive got = Some ph →
      goroutine_step (mkSharers w (l ++ Selecting :: k) lost late)
        (mkSharers w' (l ++ [ph] ++ k) lost late)
  | go_check w w' l k lost late ch (open : bool) :
      get_check ch w = (Ret open, w') →
      goroutine_step (mkSharers w (l ++ Checking ch :: k) lost late)
        (mkSharers w' (l ++ [if open then Having ch else Entering] ++ k) lost late)
  | go_create w w' l k lost late c :
      create_enter env w = (Ret c, w') →
      goroutine_step (mkSharers w (l ++ Creating :: k) lost late)
        (mkSharers w' (l ++ after_creation c ++ k) lost late)
  | go_resume w w' l k lost late attempts c :
      create_resume env attempts w = (Ret c, w') →
      goroutine_step (mkSharers w (l ++ Sleeping attempts :: k) lost late)
        (mkSharers w' (l ++ after_creation c ++ k) lost (made c + late))
  | go_return w w' l k lost late ch (go_on : bool) :
      return_count ch w = (Ret go_on, w') →
      goroutine_step (mkSharers w (l ++ Having ch :: k) lost late)
        (mkSharers w' (l ++ (if go_on then [Sending ch] else []) ++ k) lost late)
  | go_send w w' l k lost late ch (sent : bool) :
      return_send ch w = (Ret sent, w') →
      goroutine_step (mkSharers w (l ++ Sending ch :: k) lost late)
        (mkSharers w' (l ++ k) (if sent then lost else ch :: lost) late)
  | go_discard w w' l k lost late ch :
      ClearPublisherForChannel ch w = (Ret tt, w') →
      goroutine_step (mkSharers w (l ++ Having ch :: k) lost late)
        (mkSharers w' (l ++ k) (ch :: lost) late)
  | go_drain w w' phs lost late :
      DrainPool w = (Ret tt, w') →
      goroutine_step (mkSharers w phs lost late) (mkSharers w' phs lost late)
  | go_close w w' phs lost late :
      Close w = (Ret tt, w') →
      goroutine_step (mkSharers w phs lost late) (mkSharers w' phs lost late)
  | go_outside w w' phs lost late :
      same_pool w w' →
      goroutine_step (mkSharers w phs lost late) (mkSharers w' phs lost late).

(** A pool that was created, and then shared. *)
Definition shared_reachable (σ : Sharers) : Prop :=
  ∃ conn_nil max w0 w1, NewChannelPool env conn_nil max w0 = (Ret (Ok tt), w1) ∧
    rtc goroutine_step (mkSharers w1 [] [] 0) σ.

(** What holds of the pool and the channels in hands. *)
Record shared_ok (w : PoolWorld) (held lost : list nat) (late : nat) : Prop := {
  sh_nodup : NoDup (cp_channels (pw_pool w) ++ held ++ lost);
  sh_fresh : Forall (λ ch, ch < pw_next w) (cp_channels (pw_pool w) ++ held ++ lost);
  sh_count : cp_closed (pw_pool w) = false →
    cp_created (pw_pool w) = Z.of_nat (length (cp_channels (pw_pool w) ++ held ++ lost)) ∧
    (cp_created (pw_pool w) ≤ cp_maxChannels (pw_pool w) + Z.of_nat late)%Z;
  sh_closed : cp_closed (pw_pool w) = true → cp_channels (pw_pool w) = [];
}.

(** All the channels the pool knows of, in another order or place. *)
Lemma shared_ok_move w w' held held' lost lost' late :
  shared_ok w held lost late →
  cp_channels (pw_pool w') ++ held' ++ lost' ≡ₚ cp_channels (pw_pool w) ++ held ++ lost →
  pw_next w ≤ pw_next w' → cp_closed (pw_pool w') = cp_closed (pw_pool w) →
  cp_maxChannels (pw_pool w') = cp_maxChannels (pw_pool w) →
  cp_created (pw_pool w') = cp_created (pw_pool w) →
  (cp_closed (pw_pool w) = true → cp_channels (pw_pool w') = []) →
  shared_ok w' held' lost' late.
Proof.
  intros [H1 H2 H3 H4] Hp Hn Hc Hm Hcr Hcl. split.
  - by rewrite Hp.
  - rewrite Hp. eapply Forall_impl; [exact H2|]. simpl. lia.
  - rewrite Hc, Hm, Hcr, (Permutation_length Hp). done.
  - by rewrite Hc.
Qed.

(** A channel that is taken out of the count. *)
Lemma shared_ok_uncount w w' ch held lost late :
  shared_ok w (ch :: held) lost late →
  pw_next w ≤ pw_next w' → cp_closed (pw_pool w') = cp_closed (pw_pool w) →
  cp_maxChannels (pw_pool w') = cp_maxChannels (pw_pool w) →
  cp_channels (pw_pool w') = cp_channels (pw_pool w) →
  (cp_closed (pw_pool w) = false →
     cp_created (pw_pool w') = Z.max 0 (cp_created (pw_pool w) - 1)) →
  shared_ok w' held lost late.
Proof.
  intros [H1 H2 H3 H4] Hn Hc Hm Hch Hcr.
  assert (Hp : cp_channels (pw_pool w) ++ (ch :: held) ++ lost ≡ₚ
    ch :: cp_channels (pw_pool w) ++ held ++ lost)
    by (simpl; by rewrite <-Permutation_middle).
  rewrite Hp in H1, H2. rewrite (Permutation_length Hp) in H3. simpl in H3.
  apply NoDup_cons in H1 as [_ H1]. apply Forall_cons in H2 as [_ H2].
  split; rewrite ?Hch, ?Hc, ?Hm; [done|eapply Forall_impl; [exact H2|]; simpl; lia| |done].
  intros Hop. rewrite (Hcr Hop). destruct (H3 Hop) as [H31 H32]. lia.
Qed.

Lemma shared_ok_late w held lost late late' :
  late ≤ late' → shared_ok w held lost late → shared_ok w held lost late'.
Proof. intros Hl [H1 H2 H3 H4]. split; [done..| |done]. intros Hc. specialize (H3 Hc). lia. Qed.

Lemma shared_ok_perm w held held' lost late :
  held' ≡ₚ held → shared_ok w held lost late → shared_ok w held' lost late.
Proof.
  intros Hp Hok. apply (shared_ok_move w w held _ lost); [exact Hok|by rewrite Hp|done..|].
  apply (sh_closed _ _ _ _ Hok).
Qed.

(** A channel that was just created. *)
Lemma shared_ok_attempted w w' held lost late c (n : nat) :
  attempted w w' c → shared_ok w held lost late →
  (made c = 1 → (cp_created (pw_pool w) + 1 ≤ cp_maxChannels (pw_pool w) + Z.of_nat (n + late))%Z) →
  cp_closed (pw_pool w) = false →
  shared_ok w' (hands (after_creation c) ++ held) lost (n + late).
Proof.
  intros Hc [H1 H2 H3 H4] Hn Hop. destruct c as [[ch|e]|m]; simpl in *.
  2, 3: destruct Hc as [Hp Hx]; apply (shared_ok_late _ _ _ late); [lia|];
    split; rewrite Hp; [done|eapply Forall_impl; [exact H2|]; simpl; lia|done|done].
  destruct Hc as (Hp & -> & Hx & _).
  assert (Hq : cp_channels (pw_pool w) ++ (pw_next w :: held) ++ lost ≡ₚ
    pw_next w :: cp_channels (pw_pool w) ++ held ++ lost)
    by (simpl; by rewrite <-Permutation_middle).
  split; rewrite Hp; cbn [cp_channels add_in_use add_created cp_closed cp_created cp_maxChannels].
  - change (pw_next w :: held ++ lost) with ((pw_next w :: held) ++ lost). rewrite Hq.
    constructor; [|done]. intros Hin. rewrite Forall_forall in H2. specialize (H2 _ Hin). simpl in H2. lia.
  - change (pw_next w :: held ++ lost) with ((pw_next w :: held) ++ lost). rewrite Hq, Hx.
    constructor; [lia|]. eapply Forall_impl; [exact H2|]. simpl. lia.
  - change (pw_next w :: held ++ lost) with ((pw_next w :: held) ++ lost).
    rewrite (Permutation_length Hq). simpl. destruct (H3 Hop) as [H31 H32]. specialize (Hn eq_refl). lia.
  - by rewrite Hop.
Qed.

(** *** The sections *)

Lemma get_enter_shared w w' r held lost late :
  get_enter w = (Ret r, w') → shared_ok w held lost late → shared_ok w' held lost late.
Proof.
  unfold get_enter, bind, get_state, with_pool, modify, ret. simpl.
  destruct (cp_closed (pw_pool w)) eqn:Hc; simpl; intros [= <- <-] Hok; [done|].
  eapply (shared_ok_move w); simpl; [exact Hok|done|done|done|done|done|]. apply (sh_closed _ _ _ _ Hok).
Qed.

Lemma get_receive_shared w w' got ph held lost late :
  get_receive w = (Ret got, w') → after_receive got = Some ph → shared_ok w held lost late →
  shared_ok w' (hands [ph] ++ held) lost late.
Proof.
  unfold get_receive, bind, get_state, with_pool, modify, ret. simpl.
  destruct (cp_channels (pw_pool w)) as [|ch channels] eqn:Hch; simpl; intros [= <- <-] Hph Hok.
  - destruct (cp_closed (pw_pool w)); [done|]. by injection Hph as <-.
  - injection Hph as <-. eapply (shared_ok_move w); simpl; [exact Hok| |done|done|done|done|].
    + rewrite Hch. simpl. by rewrite <-Permutation_middle.
    + intros Hc. pose proof (sh_closed _ _ _ _ Hok Hc). congruence.
Qed.

Lemma get_check_shared w w' ch open held lost late :
  get_check ch w = (Ret open, w') → shared_ok w (ch :: held) lost late →
  shared_ok w' (hands [if open : bool then Having ch else Entering] ++ held) lost late ∧
  (open = true → ch ∈ pw_open w').
Proof.
  unfold get_check, IsClosedChannel, ClearPublisherForChannel, set_publishers, bind, get_state,
    with_pool, modify, ret. simpl.
  destruct (bool_decide_reflect (ch ∉ pw_open w)) as [Hcl|Hop]; simpl; intros [= <- <-] Hok; simpl.
  - split; [|done]. eapply (shared_ok_uncount w); simpl; [exact Hok|done|done|done|done|]. intros _. lia.
  - split; [|intros _; by apply dec_stable].
    eapply (shared_ok_move w); simpl; [exact Hok|done|done|done|done|done|]. apply (sh_closed _ _ _ _ Hok).
Qed.

Lemma create_enter_shared w w' c held lost late :
  create_enter env w = (Ret c, w') → shared_ok w held lost late →
  shared_ok w' (hands (after_creation c) ++ held) lost late ∧
  (∀ ch, c = Created (Ok ch) → ch ∈ pw_open w').
Proof.
  unfold create_enter, bind, get_state. simpl. destruct (cp_closed (pw_pool w)) eqn:Hcl; simpl.
  { by intros [= <- <-] Hok. }
  destruct (Z.leb_spec (cp_maxChannels (pw_pool w)) (cp_created (pw_pool w))) as [?|Hlt]; [done|].
  intros Hrun Hok. pose proof (create_attempt_spec env 2 w) as Ha. unfold wp in Ha.
  rewrite Hrun in Ha. destruct Ha as [Ha _]. split.
  - apply (shared_ok_attempted w w' _ _ late c 0); [done|done| |done]. intros _. simpl. lia.
  - intros ch ->. apply Ha.
Qed.

Lemma create_resume_shared w w' attempts c held lost late :
  create_resume env attempts w = (Ret c, w') → shared_ok w held lost late →
  shared_ok w' (hands (after_creation c) ++ held) lost (made c + late) ∧
  (∀ ch, c = Created (Ok ch) → ch ∈ pw_open w').
Proof.
  unfold create_resume, bind, get_state. simpl. destruct (cp_closed (pw_pool w)) eqn:Hcl; simpl.
  { by intros [= <- <-] Hok. }
  intros Hrun Hok. pose proof (create_attempt_spec env attempts w) as Ha. unfold wp in Ha.
  rewrite Hrun in Ha. destruct Ha as [Ha _]. split.
  - apply (shared_ok_attempted w w' _ _ late c (made c)); [done|done| |done].
    intros ->. destruct (sh_count _ _ _ _ Hok Hcl). lia.
  - intros ch ->. apply Ha.
Qed.

Lemma return_count_shared w w' ch go_on held lost late :
  return_count ch w = (Ret go_on, w') → shared_ok w (ch :: held) lost late →
  shared_ok w' (hands (if go_on : bool then [Sending ch] else []) ++ held) lost late.
Proof.
  unfold return_count, IsClosedChannel, ClearPublisherForChannel, close_channel, set_publishers, bind,
    get_state, with_pool, modify, ret. simpl.
  destruct (cp_closed (pw_pool w)) eqn:Hcl; simpl.
  { intros [= <- <-] Hok. simpl.
    eapply (shared_ok_uncount w); simpl; [exact Hok|done|done|done|done|]. by rewrite Hcl. }
  destruct (bool_decide _); simpl; intros [= <- <-] Hok; simpl.
  - eapply (shared_ok_uncount w); simpl; [exact Hok|done|done|done|done|]. intros _. lia.
  - eapply (shared_ok_move w); simpl; [exact Hok|done|done|done|done|done|]. apply (sh_closed _ _ _ _ Hok).
Qed.

Lemma return_send_shared w w' ch sent held lost late :
  return_send ch w = (Ret sent, w') → shared_ok w (ch :: held) lost late →
  shared_ok w' held (if sent : bool then lost else ch :: lost) late.
Proof.
  unfold return_send, ClearPublisherForChannel, close_channel, set_publishers, bind, get_state,
    with_pool, modify, ret. simpl.
  destruct (cp_closed (pw_pool w)) eqn:Hcl; simpl; [done|].
  destruct (_ <? _)%Z; simpl; intros [= <- <-] Hok;
    (eapply (shared_ok_move w); simpl; [exact Hok| |done|done|done|done|by rewrite Hcl]).
  - by rewrite <-app_assoc.
  - by rewrite <-(Permutation_middle held lost ch).
Qed.

Lemma close_shared w w' held lost late :
  Close w = (Ret tt, w') → shared_ok w held lost late → shared_ok w' held lost late.
Proof.
  unfold Close, bind, get_state, with_pool, modify. simpl.
  destruct (cp_closed (pw_pool w)) eqn:Hcl; simpl; [by intros [= <-]|].
  match goal with |- context [close_channels ?l ?w1] =>
    pose proof (close_channels_spec l w1) as Hd end.
  unfold wp in Hd. intros Hrun [H1 H2 H3 H4]. rewrite Hrun in Hd. destruct Hd as [Hp Hn].
  simpl in Hp, Hn. apply NoDup_app in H1 as (_ & _ & H1). apply Forall_app in H2 as [_ H2].
  split; rewrite Hp; simpl; [done|eapply Forall_impl; [exact H2|]; simpl; lia|done|done].
Qed.

Lemma drain_shared w w' held lost late :
  DrainPool w = (Ret tt, w') → shared_ok w held lost late → shared_ok w' held lost late.
Proof.
  unfold DrainPool, bind, get_state, with_pool, modify. simpl.
  destruct (cp_closed (pw_pool w)) eqn:Hcl; simpl; [by intros [= <-]|].
  match goal with |- context [drain_channels ?l ?w1] =>
    pose proof (drain_channels_spec l w1) as Hd end.
  unfold wp in Hd. intros Hrun [H1 H2 H3 H4]. rewrite Hrun in Hd. destruct Hd as [Hp Hn].
  simpl in Hp, Hn. destruct (H3 Hcl) as [Hc Hm]. rewrite length_app in Hc.
  apply NoDup_app in H1 as (_ & _ & H1). apply Forall_app in H2 as [_ H2].
  split; rewrite Hp; simpl; [done|eapply Forall_impl; [exact H2|]; simpl; lia| |by rewrite Hcl].
  intros _. lia.
Qed.

Lemma hands_app l k : hands (l ++ k) = hands l ++ hands k.
Proof. apply omap_app. Qed.

Lemma hands_mid l phs k : hands (l ++ phs ++ k) ≡ₚ hands phs ++ hands (l ++ k).
Proof. rewrite !hands_app. apply Permutation_app_swap_app. Qed.

Definition sharers_ok (σ : Sharers) : Prop :=
  shared_ok (sh_world σ) (hands (sh_phases σ)) (sh_lost σ) (sh_late σ).

Lemma goroutine_step_ok σ σ' : goroutine_step σ σ' → sharers_ok σ → sharers_ok σ'.
Proof.
  unfold sharers_ok.
  destruct 1 as [w phs lost late|w w' l k lost late r Hrun|w w' l k lost late got ph Hrun Hph
    |w w' l k lost late ch open Hrun|w w' l k lost late c Hrun|w w' l k lost late attempts c Hrun
    |w w' l k lost late ch go_on Hrun|w w' l k lost late ch sent Hrun|w w' l k lost late ch Hrun
    |w w' phs lost late Hrun|w w' phs lost late Hrun|w w' phs lost late Hs];
    cbn [sh_world sh_phases sh_lost sh_late]; intros Hok;
    try (rewrite (cons_middle _ l k) in Hok;
         apply (shared_ok_perm _ _ _ _ _ (symmetry (hands_mid l _ k))) in Hok; cbn [hands in_hand] in Hok);
    try (eapply shared_ok_perm; [apply hands_mid|]).
  - rewrite hands_app. simpl. by rewrite app_nil_r.
  - destruct (is_ok r); by eapply get_enter_shared.
  - by eapply get_receive_shared.
  - by eapply get_check_shared.
  - by eapply create_enter_shared.
  - by eapply create_resume_shared.
  - by eapply return_count_shared.
  - by eapply return_send_shared.
  - injection Hrun as <-. eapply (shared_ok_move w); simpl; [exact Hok| |done|done|done|done|].
    + simpl. by rewrite <-!Permutation_middle.
    + apply (sh_closed _ _ _ _ Hok).
  - by eapply drain_shared.
  - by eapply close_shared.
  - destruct Hs as [Hp Hn]. eapply (shared_ok_move w); rewrite ?Hp; [exact Hok|done|lia|done|done|done|].
    apply (sh_closed _ _ _ _ Hok).
Qed.

Lemma shared_reachable_ok σ : shared_reachable σ → sharers_ok σ.
Proof.
  intros (conn_nil & max & w0 & w1 & Hnew & Hr).
  pose proof (NewChannelPool_spec env conn_nil max w0) as Hn. unfold wp in Hn. rewrite Hnew in Hn.
  assert (Hinv : ∀ σ1 σ2, rtc goroutine_step σ1 σ2 → sharers_ok σ1 → sharers_ok σ2)
    by (induction 1; eauto using goroutine_step_ok).
  apply (Hinv _ _ Hr). destruct Hn as [H1 H2 H3 H4]. split; simpl; [done|done| |done].
  intros Hc. destruct (H3 Hc) as [H31 H32]. cbn [snd] in *. split; [exact H31|lia].
Qed.

Lemma hands_elem phs i ph ch : phs !! i = Some ph → in_hand ph = Some ch → ch ∈ hands phs.
Proof. intros Hi Hh. apply list_elem_of_omap. exists ph. split; [by eapply list_elem_of_lookup_2|done]. Qed.

Lemma hands_once phs i j ph ph' ch :
  NoDup (hands phs) → phs !! i = Some ph → phs !! j = Some ph' →
  in_hand ph = Some ch → in_hand ph' = Some ch → i = j.
Proof.
  revert i j. induction phs as [|x phs IH]; intros [|i] [|j] Hnd Hi Hj Hh Hh'; simplify_eq/=; try done.
  - exfalso. simpl in Hnd. rewrite Hh in Hnd. apply NoDup_cons in Hnd as [Hn _].
    apply Hn. by eapply hands_elem.
  - exfalso. simpl in Hnd. rewrite Hh' in Hnd. apply NoDup_cons in Hnd as [Hn _].
    apply Hn. by eapply hands_elem.
  - f_equal. apply (IH i j); try done. simpl in Hnd. destruct (in_hand x); [|done].
    by apply NoDup_cons in Hnd as [_ ?].
Qed.
End goroutines.

(** C29: the pool, whoever uses it, section by section: no two goroutines have
    the same channel in hand, and none has one that is in the buffer or was
    thrown away; a channel that is received or created is open at that moment;
    the numbers of [Stats] are exact, the channels in use being those in hand
    and those thrown away; the count exceeds the maximum by no more than the
    number of channels that were created after a wait for the connection; and a
    goroutine is turned down with a panic only when the pool has as many
    channels as it may have. *)
Theorem channels_are_exclusive env w phs lost late :
  shared_reachable env (mkSharers w phs lost late) →
  (∀ i j ph ph' ch, phs !! i = Some ph → phs !! j = Some ph' →
     in_hand ph = Some ch → in_hand ph' = Some ch → i = j) ∧
  (∀ i ph ch, phs !! i = Some ph → in_hand ph = Some ch →
     ch ∉ cp_channels (pw_pool w) ∧ ch ∉ lost) ∧
  (∀ ch w', get_check ch w = (Ret true, w') → ch ∈ pw_open w') ∧
  (∀ ch w', (create_enter env w = (Ret (Created (Ok ch)), w') ∨
             ∃ attempts, create_resume env attempts w = (Ret (Created (Ok ch)), w')) →
     ch ∈ pw_open w' ∧ ch ∉ cp_channels (pw_pool w') ++ hands phs ++ lost) ∧
  (cp_closed (pw_pool w) = false →
     st_in_use (Stats (pw_pool w)) = Z.of_nat (length (hands phs) + length lost) ∧
     (st_created (Stats (pw_pool w)) ≤ st_max (Stats (pw_pool w)) + Z.of_nat late)%Z) ∧
  (∀ msg w', create_enter env w = (Panic msg, w') →
     (cp_maxChannels (pw_pool w) ≤
        Z.of_nat (length (cp_channels (pw_pool w) ++ hands phs ++ lost)))%Z).
Proof.
  intros Hok%shared_reachable_ok. unfold sharers_ok in Hok. simpl in Hok.
  pose proof Hok as [Hnd Hfr Hcount Hcl]. pose proof Hnd as (_ & Hdis & Hnd2)%NoDup_app.
  pose proof Hnd2 as (Hndh & Hdis2 & _)%NoDup_app. split_and!.
  - intros i j ph ph' ch. by apply hands_once.
  - intros i ph ch Hi Hh. pose proof (hands_elem _ _ _ _ Hi Hh) as Hin. split.
    + intros Hc. apply (Hdis ch Hc). apply elem_of_app. by left.
    + by apply Hdis2.
  - intros ch w'. unfold get_check, IsClosedChannel, bind, get_state, with_pool, modify, ret. simpl.
    destruct (bool_decide_reflect (ch ∉ pw_open w)) as [?|Hop]; simpl; intros [= <-].
    simpl. by apply dec_stable.
  - intros ch w' Hrun.
    assert (∃ late', shared_ok w' ([ch] ++ hands phs) lost late' ∧ ch ∈ pw_open w') as (late' & Hok' & Ho).
    { destruct Hrun as [Hrun|[n Hrun]]; eexists.
      - destruct (create_enter_shared env _ _ _ _ _ _ Hrun Hok) as [Hs Ho]. by split; [|apply Ho].
      - destruct (create_resume_shared env _ _ _ _ _ _ _ Hrun Hok) as [Hs Ho]. by split; [|apply Ho]. }
    split; [exact Ho|]. destruct Hok' as [Hn _ _ _].
    rewrite <-(Permutation_middle (cp_channels (pw_pool w')) (hands phs ++ lost) ch) in Hn.
    by apply NoDup_cons in Hn as [? _].
  - intros Hop. destruct (Hcount Hop) as [Hc Hm]. simpl. rewrite !length_app in Hc. split; [lia|done].
  - intros msg w'. unfold create_enter, bind, get_state. simpl.
    destruct (cp_closed (pw_pool w)) eqn:Hop; [done|].
    destruct (Z.leb_spec (cp_maxChannels (pw_pool w)) (cp_created (pw_pool w))) as [Hle|Hlt].
    + intros _. destruct (Hcount eq_refl) as [Hc _]. lia.
    + intros Hrun. pose proof (create_attempt_spec env 2 w) as Ha. unfold wp in Ha.
      by rewrite Hrun in Ha.
Qed.

(** Two goroutines find the only channel of a pool closed, wait for the
    connection, and each creates a channel: the pool has one more than it may. *)
Definition reconnecting : PoolEnv :=
  mkPoolEnv (λ n, if decide (n = 1 ∨ n = 2) then ConnectionIsClosed else ChannelOpened) (λ _, None)
    (λ _, mkPublishAnswer true None) (λ _, false).

Definition nowhere : PoolWorld := mkPoolWorld (mkChannelPool [] 0 false 0 0 0 0) ∅ 0 ∅ [] [] 0.

Definition one_channel : PoolWorld := (NewChannelPool reconnecting false 1 nowhere).2.

(** The library closes the channels. *)
Definition disconnected (w : PoolWorld) : PoolWorld :=
  mkPoolWorld (pw_pool w) ∅ (pw_next w) (pw_publishers w) (pw_sent w) (pw_sleeps w) (pw_tick w).

#[local] Tactic Notation "section_run" open_constr(step) :=
  eapply rtc_l; [eapply step; vm_compute; reflexivity|]; cbn [app is_ok hands after_creation made].

Example waiting_exceeds_maximum :
  ∃ w, shared_reachable reconnecting (mkSharers w [Having 1; Having 2] [] 2) ∧
    st_created (Stats (pw_pool w)) = 2%Z ∧ st_max (Stats (pw_pool w)) = 1%Z.
Proof.
  eexists. split.
  - exists false, 1%Z, nowhere, one_channel. split; [vm_compute; reflexivity|].
    eapply rtc_l; [apply go_call|]. eapply rtc_l; [apply go_call|]. cbn [app].
    section_run (go_enter _ _ _ [] [Entering]).
    section_run (go_receive _ _ _ [] [Entering]).
    eapply rtc_l; [eapply (go_outside _ _ (disconnected (get_receive (get_enter one_channel).2).2)); by split|].
    section_run (go_check _ _ _ [] [Entering] _ _ 0).
    section_run (go_enter _ _ _ [] [Entering]).
    section_run (go_receive _ _ _ [] [Entering]).
    section_run (go_create _ _ _ [] [Entering]).
    section_run (go_enter _ _ _ [Sleeping 1] []).
    section_run (go_receive _ _ _ [Sleeping 1] []).
    section_run (go_create _ _ _ [Sleeping 1] []).
    section_run (go_resume _ _ _ [] [Sleeping 1]).
    section_run (go_resume _ _ _ [Having 1] []).
    apply rtc_refl.
  - by vm_compute.
Qed.

Definition channel_taken : PoolWorld := (get_check 0 (get_receive (get_enter one_channel).2).2).2.

Lemma channels_are_exclusive_witness :
  shared_reachable reconnecting (mkSharers channel_taken [Having 0; Entering] [] 0) ∧
  st_in_use (Stats (pw_pool channel_taken)) = 1%Z.
Proof.
  assert (shared_reachable reconnecting (mkSharers channel_taken [Having 0; Entering] [] 0)) as Hr.
  { exists false, 1%Z, nowhere, one_channel. split; [vm_compute; reflexivity|].
    eapply rtc_l; [apply go_call|]. eapply rtc_l; [apply go_call|]. cbn [app].
    section_run (go_enter _ _ _ [] [Entering]).
    section_run (go_receive _ _ _ [] [Entering]).
    section_run (go_check _ _ _ [] [Entering] _ _ 0).
    apply rtc_refl. }
  split; [exact Hr|].
  destruct (channels_are_exclusive reconnecting _ _ _ _ Hr) as (_ & _ & _ & _ & Hs & _).
  apply Hs. reflexivity.
Defined.
