(* ===== verification/MqPublish.v ===== *)
(** * What publishing costs

    A message is handed to the broker at most three times, with at most
    eighteen seconds of sleep.  An attempt of [PublishWithHeaders] that fails
    with an error that can be retried costs the pool a channel for good, and
    when they are all gone the next caller panics.  What it costs is so from any
    state of the pool; what becomes of the channels is said of a publication
    that runs alone on a pool that others have used. *)

From stdpp Require Import relations.
From S2P Require Import Prelude GoMonad MqErrors MqPool.
#[local] Open Scope go_scope.

(** ** Costs *)

Definition total (l : list Z) : Z := foldr Z.add 0%Z l.

Lemma total_app l k : total (l ++ k) = (total l + total k)%Z.
Proof. unfold total. induction l as [|x l IH]; simpl; [done|rewrite IH; lia]. Qed.

(** From [w] to [w'] at most [n] messages were handed over and at most [ns]
    nanoseconds slept; the questions asked of the surroundings are counted. *)
Definition costs (n : nat) (ns : Z) (w w' : PoolWorld) : Prop :=
  (∃ l, pw_sent w' = pw_sent w ++ l ∧ length l ≤ n) ∧
  (total (pw_sleeps w') ≤ total (pw_sleeps w) + ns)%Z ∧ pw_tick w ≤ pw_tick w'.

Lemma costs_free w w' :
  pw_sent w' = pw_sent w → pw_sleeps w' = pw_sleeps w → pw_tick w ≤ pw_tick w' → costs 0 0 w w'.
Proof.
  intros H1 H2 H3. split; [exists []; rewrite H1, app_nil_r; by split|]. rewrite H2. split; [lia|done].
Qed.

Lemma costs_trans n1 n2 ns1 ns2 w1 w2 w3 :
  costs n1 ns1 w1 w2 → costs n2 ns2 w2 w3 → costs (n1 + n2) (ns1 + ns2) w1 w3.
Proof.
  intros [(l1 & H1 & L1) [S1 T1]] [(l2 & H2 & L2) [S2 T2]]. split; [|lia].
  exists (l1 ++ l2). rewrite H2, H1, app_assoc, length_app. split; [done|lia].
Qed.

Lemma costs_mono n1 n2 ns1 ns2 w w' :
  costs n1 ns1 w w' → n1 ≤ n2 → (ns1 ≤ ns2)%Z → costs n2 ns2 w w'.
Proof. intros [(l & H & L) [S T]] Hn Hs. split; [exists l; split; [done|lia]|lia]. Qed.

(** Every run of [m] costs at most that much. *)
Definition spends {A} (n : nat) (ns : Z) (m : M PoolWorld A) : Prop := ∀ w, costs n ns w (m w).2.

Lemma spends_ret {A} (a : A) : spends 0 0 (ret a).
Proof. intros w. by apply costs_free. Qed.

Lemma spends_panic {A} msg : spends 0 0 (panic (A:=A) msg).
Proof. intros w. by apply costs_free. Qed.

Lemma spends_bind {A B} n1 n2 ns1 ns2 (m : M PoolWorld A) (k : A → M PoolWorld B) :
  (0 ≤ ns2)%Z → spends n1 ns1 m → (∀ a, spends n2 ns2 (k a)) → spends (n1 + n2) (ns1 + ns2) (bind m k).
Proof.
  intros Hns Hm Hk w. specialize (Hm w). unfold bind.
  destruct (m w) as [[a|msg|] w']; simpl in *;
    [|eapply costs_mono; [exact Hm|lia|lia]|eapply costs_mono; [exact Hm|lia|lia]].
  eapply costs_trans; [exact Hm|apply Hk].
Qed.

Lemma spends_mono {A} n1 n2 ns1 ns2 (m : M PoolWorld A) :
  spends n1 ns1 m → n1 ≤ n2 → (ns1 ≤ ns2)%Z → spends n2 ns2 m.
Proof. intros Hm Hn Hs w. by eapply costs_mono. Qed.

Lemma spends_get {A} n ns (k : PoolWorld → M PoolWorld A) :
  (∀ w, spends n ns (k w)) → spends n ns (bind get_state k).
Proof. intros Hk w. apply (Hk w w). Qed.

(** Steps that cost nothing. *)
Lemma spends_then {A B} n ns (m : M PoolWorld A) (k : A → M PoolWorld B) :
  (0 ≤ ns)%Z → spends 0 0 m → (∀ a, spends n ns (k a)) → spends n ns (bind m k).
Proof. intros Hns Hm Hk. by apply (spends_bind 0 n 0 ns). Qed.

Lemma spends_modify f :
  (∀ w, pw_sent (f w) = pw_sent w) → (∀ w, pw_sleeps (f w) = pw_sleeps w) →
  (∀ w, pw_tick (f w) = pw_tick w) → spends 0 0 (modify f).
Proof. intros H1 H2 H3 w. apply costs_free; simpl; [done|done|by rewrite H3]. Qed.

Create HintDb spends discriminated.

(** Cuts a sequence of free operations apart. *)
Ltac free :=
  repeat lazymatch goal with
    | |- spends _ _ (ret _) => apply spends_ret
    | |- spends _ _ (panic _) => apply spends_panic
    | |- spends _ _ (modify _) => apply spends_modify; done
    | |- spends _ _ (with_pool _) => apply spends_modify; done
    | |- spends _ _ (set_publishers _) => apply spends_modify; done
    | |- spends _ _ (close_channel _) => apply spends_modify; done
    | |- spends _ _ (bind get_state _) => apply spends_get; intros ?
    | |- spends _ _ (bind _ _) => apply spends_then; [lia| |intros ?]
    | |- spends _ _ (if ?b then _ else _) => destruct b
    | |- spends _ _ (match ?r with Ok _ => _ | Err _ => _ end) => destruct r
    | |- spends _ _ (or_else _ _ _) => unfold or_else
    | |- _ => solve [auto with spends nocore]
    end.

Ltac gratis := apply (spends_mono 0 _ 0 _); [free|lia|lia].

Lemma sleep_spends ns : spends 0 ns (mq_sleep ns).
Proof.
  intros w. split; simpl; [exists []; by rewrite app_nil_r|]. split; [|done].
  rewrite total_app. simpl. lia.
Qed.

Lemma ReturnChannel_spends ch : spends 0 0 (ReturnChannel ch).
Proof.
  unfold ReturnChannel, return_count, return_send, IsClosedChannel, ClearPublisherForChannel. free.
Qed.

Lemma ClearPublisher_spends ch : spends 0 0 (ClearPublisherForChannel ch).
Proof. unfold ClearPublisherForChannel. free. Qed.

Section costs.
Context (env : PoolEnv).

Lemma pool_tick_spends : spends 0 0 pool_tick.
Proof. intros w. apply costs_free; simpl; [done|done|lia]. Qed.

Lemma open_channel_spends : spends 0 0 open_channel.
Proof. intros w. by apply costs_free. Qed.

#[local] Hint Resolve pool_tick_spends open_channel_spends ReturnChannel_spends
  ClearPublisher_spends : spends.

(** The sleeps that may follow. *)
Definition pending (c : Creation) : Z :=
  match c with Created _ => 0 | Asleep attempts => 2000000000 * Z.of_nat attempts end.

Lemma create_attempt_costs n w :
  wp (create_attempt env n) (returns (λ c w', costs 0 (2000000000 * Z.of_nat n - pending c) w w')) w.
Proof.
  unfold create_attempt, wp, bind, pool_tick. simpl.
  destruct (pe_channel env (pw_tick w)); simpl; [apply (costs_mono 0 _ 0); [|lia|lia]; apply costs_free; simpl; done || lia..|].
  destruct n as [|n]; simpl; [apply costs_free; simpl; done || lia|].
  split; simpl; [by exists []; rewrite app_nil_r|]. rewrite total_app. simpl. lia.
Qed.

Lemma pending_nonneg c : (0 ≤ pending c)%Z.
Proof. destruct c; simpl; lia. Qed.

Lemma create_rest_costs fuel c w : costs 0 (pending c) w (create_rest env fuel c w).2.
Proof.
  revert c w. induction fuel as [|fuel IH]; intros [r|n] w;
    try (apply (costs_mono 0 _ 0); [by apply costs_free|lia|apply pending_nonneg]).
  cbn [create_rest]. unfold create_resume, bind, get_state.
  destruct (cp_closed (pw_pool w)); simpl.
  { destruct fuel; (apply (costs_mono 0 _ 0); [by apply costs_free|lia|lia]). }
  pose proof (create_attempt_costs n w) as Ha. unfold wp in Ha.
  destruct (create_attempt env n w) as [[c|msg|] w1]; simpl in *; [|done|done].
  eapply costs_mono; [eapply costs_trans; [exact Ha|apply (IH c w1)]|lia|lia].
Qed.

Lemma create_enter_costs fuel w :
  costs 0 4000000000 w ((c <- create_enter env ;; create_rest env fuel c) w).2.
Proof.
  unfold create_enter, bind, get_state. simpl. destruct (cp_closed (pw_pool w)); simpl.
  { apply (costs_mono 0 _ 0); [|lia|lia]. destruct fuel; by apply costs_free. }
  destruct (_ <=? _)%Z; simpl; [apply (costs_mono 0 _ 0); [by apply costs_free|lia|lia]|].
  pose proof (create_attempt_costs 2 w) as Ha. unfold wp in Ha.
  destruct (create_attempt env 2 w) as [[c|msg|] w1]; simpl in *; [|done|done].
  eapply costs_mono; [eapply costs_trans; [exact Ha|apply (create_rest_costs fuel c w1)]|lia|].
  pose proof (pending_nonneg c). lia.
Qed.

Lemma get_channel_spends fuel : spends 0 4000000000 (get_channel env fuel).
Proof.
  induction fuel as [|fuel IH].
  { intros w. split; [by exists []; rewrite app_nil_r|simpl; lia]. }
  cbn [get_channel]. unfold or_else.
  apply spends_then; [lia|unfold get_enter; free|]. intros [[]|e]; [|gratis].
  apply spends_then; [lia| |].
  { unfold get_receive. apply spends_get. intros w. destruct (cp_channels (pw_pool w)); free. }
  intros [ch| |]; [|gratis|intros w; apply create_enter_costs].
  apply spends_then; [lia|unfold get_check, IsClosedChannel; free|]. intros [|]; [gratis|done].
Qed.

Lemma GetChannel_spends : spends 0 4000000000 (GetChannel env).
Proof. intros w. apply get_channel_spends. Qed.

Lemma broker_publish_spends ch : spends 1 0 (broker_publish env ch).
Proof.
  unfold broker_publish. apply spends_then; [lia|free|]. intros ?.
  apply (spends_bind 1 0 0 0); [lia| |intros _; free].
  destruct (pb_taken _); [|gratis].
  intros w. split; [by exists [ch]|simpl; lia].
Qed.

Lemma publishWithConfirms_spends ch : spends 1 0 (publishWithConfirms env ch).
Proof.
  unfold publishWithConfirms. apply spends_get. intros w.
  destruct (decide _); [apply broker_publish_spends|].
  apply spends_then; [lia|free|]. intros t. destruct (pe_confirm env t).
  - gratis.
  - apply spends_then; [lia|free|]. intros _. apply broker_publish_spends.
Qed.

(** The waits of the attempts from [attempt] on: a second more each time, and
    up to four for a channel. *)
Fixpoint waits (tries attempt : nat) : Z :=
  match tries with
  | O => 0
  | S tries => 4000000000 + sleep_second * Z.of_nat (S attempt) + waits tries (S attempt)
  end.

Lemma waits_nonneg tries attempt : (0 ≤ waits tries attempt)%Z.
Proof.
  revert attempt. induction tries as [|tries IH]; intros attempt; simpl waits; [lia|].
  specialize (IH (S attempt)). unfold sleep_second. lia.
Qed.

Lemma publish_attempts_spends c d failure tries attempt last :
  spends tries (waits tries attempt) (publish_attempts env c d failure tries attempt last).
Proof.
  revert attempt last. induction tries as [|tries IH]; intros attempt last; [simpl; free|].
  cbn [publish_attempts waits]. pose proof (waits_nonneg tries (S attempt)) as Hw.
  assert (Hagain : ∀ n e, n ≤ tries → spends (0 + tries)
    (sleep_second * Z.of_nat (S attempt) + waits tries (S attempt))
    (mq_sleep (sleep_second * Z.of_nat (S attempt)) ;;;
     publish_attempts env c d failure tries (S attempt) (Some e))).
  { intros n e _. apply spends_bind; [done|apply sleep_spends|intros _; apply IH]. }
  unfold sleep_second in *.
  apply spends_then; [lia|free|]. intros n. destruct (pe_no_pool env n).
  { eapply spends_mono; [by apply (Hagain tries)|lia|lia]. }
  apply (spends_mono (0 + (1 + tries)) _
    (4000000000 + (0 + (1000000000 * Z.of_nat (S attempt) + waits tries (S attempt))))); [|lia|lia].
  apply spends_bind; [lia|apply GetChannel_spends|]. intros [ch|err].
  2: { eapply spends_mono; [by apply (Hagain tries)|lia|lia]. }
  apply spends_bind; [lia|destruct c; [apply publishWithConfirms_spends|apply broker_publish_spends]|].
  intros [e|]; [|gratis].
  destruct (IsRetryableError (Some e)); [|gratis].
  apply spends_then; [lia|destruct d; free|]. intros _. by apply (Hagain tries).
Qed.
End costs.

(** ** Channels *)

Lemma ReturnChannel_returns ch w : ∃ w', ReturnChannel ch w = (Ret tt, w').
Proof.
  unfold ReturnChannel, return_count, return_send, IsClosedChannel, ClearPublisherForChannel,
    close_channel, set_publishers, bind, with_pool, modify, get_state, ret. simpl.
  destruct (cp_closed (pw_pool w)) eqn:Hcl; simpl; [by eexists|].
  destruct (bool_decide _); simpl; [by eexists|]. rewrite Hcl. destruct (_ <? _)%Z; by eexists.
Qed.

#[local] Arguments IsRetryableError : simpl never.

Section channels.
Context (env : PoolEnv).

(** The pool, the channels that callers have, and those thrown away. *)
#[local] Notation State := (PoolWorld * list nat * list nat)%type.

(** What goroutines, the library and the broker do to the pool when no two
    methods run at once.  Publishing is made of these steps. *)
Inductive pool_step : State → State → Prop :=
  | step_get w w' held lost r :
      GetChannel env w = (Ret r, w') →
      pool_step (w, held, lost)
        (w', match r with Ok ch => ch :: held | Err _ => held end, lost)
  | step_return w w' ch held held' lost o :
      held ≡ₚ ch :: held' → ReturnChannel ch w = (o, w') →
      pool_step (w, held, lost) (w', held', lost)
  | step_discard w w' ch held held' lost o :
      held ≡ₚ ch :: held' → ClearPublisherForChannel ch w = (o, w') →
      pool_step (w, held, lost) (w', held', ch :: lost)
  | step_drain w w' held lost o : DrainPool w = (o, w') → pool_step (w, held, lost) (w', held, lost)
  | step_close w w' held lost o : Close w = (o, w') → pool_step (w, held, lost) (w', held, lost)
  | step_outside w w' held lost : same_pool w w' → pool_step (w, held, lost) (w', held, lost).

Lemma channels_step_ok σ σ' :
  pool_step σ σ' → pool_ok σ.1.1 σ.1.2 σ.2 → pool_ok σ'.1.1 σ'.1.2 σ'.2.
Proof.
  destruct 1 as [w w' held lost r Hg|w w' ch held held' lost o Hh Hr|w w' ch held held' lost o Hh Hr
    |w w' held lost o Hd|w w' held lost o Hc|w w' held lost Hs]; simpl; intros Hok.
  - pose proof (GetChannel_spec env _ _ _ Hok) as H. unfold wp in H. rewrite Hg in H. simpl in H.
    by destruct r; [destruct H|].
  - pose proof (ReturnChannel_spec _ _ _ _ _ Hok Hh) as H. unfold wp in H. rewrite Hr in H.
    by destruct o.
  - pose proof (discard_ok _ _ _ _ _ Hok Hh) as H. unfold wp in H. rewrite Hr in H. by destruct o.
  - pose proof (DrainPool_spec _ _ _ Hok) as H. unfold wp in H. rewrite Hd in H. by destruct o.
  - pose proof (Close_spec _ _ _ Hok) as H. unfold wp in H. rewrite Hc in H. by destruct o.
  - by apply (same_pool_ok w).
Qed.

(** A pool that was created, and then used. *)
Definition pool_reachable (σ : State) : Prop :=
  ∃ conn_nil max w0 w1, NewChannelPool env conn_nil max w0 = (Ret (Ok tt), w1) ∧
    rtc pool_step (w1, [], []) σ.

Lemma pool_steps_ok σ σ' :
  rtc pool_step σ σ' → pool_ok σ.1.1 σ.1.2 σ.2 → pool_ok σ'.1.1 σ'.1.2 σ'.2.
Proof. induction 1; eauto using channels_step_ok. Qed.

Lemma pool_reachable_ok σ : pool_reachable σ → pool_ok σ.1.1 σ.1.2 σ.2.
Proof.
  intros (conn_nil & max & w0 & w1 & Hnew & Hr).
  pose proof (NewChannelPool_spec env conn_nil max w0) as H. unfold wp in H. rewrite Hnew in H.
  by apply (pool_steps_ok _ _ Hr).
Qed.

(** What leaves the pool as it is. *)
Definition keeps {A} (m : M PoolWorld A) : Prop := ∀ w, wp m (returns (λ _ w', same_pool w w')) w.

Lemma broker_publish_keeps ch : keeps (broker_publish env ch).
Proof.
  intros w. unfold broker_publish, wp, bind, pool_tick; simpl.
  by destruct (pb_taken _).
Qed.

Lemma publishWithConfirms_keeps ch : keeps (publishWithConfirms env ch).
Proof.
  intros w. unfold publishWithConfirms. apply wp_bind_ret. unfold wp at 1. simpl.
  destruct (decide _); [apply broker_publish_keeps|].
  apply wp_bind_ret. unfold wp at 1. simpl. destruct (pe_confirm env (pw_tick w)); [by split|].
  apply wp_bind_ret. unfold wp at 1. simpl.
  match goal with |- wp _ _ ?w1 => generalize (broker_publish_keeps ch w1) end.
  apply wp_returns_mono. by intros _ w' [? ?].
Qed.

(** The channels a call of the loop takes are given back or thrown away. *)
Definition publishes (d : bool) (n : nat) (w : PoolWorld) (held lost : list nat)
    (o : outcome (option mqerror)) (w' : PoolWorld) : Prop :=
  match o with
  | Ret _ => ∃ thrown, rtc pool_step (w, held, lost) (w', held, thrown ++ lost) ∧
      length thrown ≤ n ∧ (d = false → thrown = [])
  | Panic msg => msg = pool_exhausted
  | Hang => False
  end.

Lemma publishes_after d n w w1 held lost t1 o w' :
  rtc pool_step (w, held, lost) (w1, held, t1 ++ lost) → length t1 ≤ 1 → (d = false → t1 = []) →
  publishes d n w1 held (t1 ++ lost) o w' → publishes d (S n) w held lost o w'.
Proof.
  intros H1 Hl1 Hd1. destruct o as [r|msg|]; simpl; [|done|done].
  intros (thrown & H2 & Hl2 & Hd2). exists (thrown ++ t1). rewrite length_app, <- app_assoc.
  split_and!; [by etrans|lia|]. intros Hd. by rewrite Hd1, Hd2.
Qed.

Lemma publish_attempts_pool c d failure tries attempt last w held lost :
  pool_ok w held lost →
  wp (publish_attempts env c d failure tries attempt last) (publishes d tries w held lost) w.
Proof.
  revert attempt last w lost.
  induction tries as [|tries IH]; intros attempt last w lost Hok; [by exists []|].
  assert (Hagain : ∀ e w1 t1, rtc pool_step (w, held, lost) (w1, held, t1 ++ lost) →
    length t1 ≤ 1 → (d = false → t1 = []) →
    wp (mq_sleep (sleep_second * Z.of_nat (S attempt)) ;;;
        publish_attempts env c d failure tries (S attempt) (Some e))
      (publishes d (S tries) w held lost) w1).
  { intros e w1 t1 Hs1 Ht1 Hd. apply wp_bind_ret. unfold wp at 1. simpl.
    match goal with |- wp _ _ ?w2 =>
      assert (Hs2 : rtc pool_step (w, held, lost) (w2, held, t1 ++ lost))
        by (eapply rtc_r; [exact Hs1|by apply step_outside]) end.
    pose proof (pool_steps_ok _ _ Hs2 Hok) as Hok2. simpl in Hok2.
    generalize (IH (S attempt) (Some e) _ _ Hok2). apply wp_mono.
    intros o w'. by apply publishes_after. }
  cbn [publish_attempts]. apply wp_bind_ret. unfold wp at 1. simpl.
  match goal with |- wp _ _ ?w1 =>
    assert (Hs1 : rtc pool_step (w, held, lost) (w1, held, lost))
      by (apply rtc_once, step_outside; by split) end.
  destruct (pe_no_pool env _); [apply (Hagain _ _ []); simpl; [done|lia|done]|].
  pose proof (pool_steps_ok _ _ Hs1 Hok) as Hok1. simpl in Hok1.
  pose proof (GetChannel_spec env _ _ _ Hok1) as Hg.
  apply wp_bind. unfold wp in Hg |- * at 1.
  destruct (GetChannel env _) as [[[ch|err]|msg|] w2] eqn:Hget; simpl in Hg |- *;
    [| |by destruct Hg|done].
  2: { apply (Hagain _ _ []); simpl; [|lia|done]. eapply rtc_r; [exact Hs1|].
       by eapply (step_get _ _ held lost (Err err)). }
  destruct Hg as [Hok2 _].
  assert (Hs2 : rtc pool_step (w, held, lost) (w2, ch :: held, lost))
    by (eapply rtc_r; [exact Hs1|by eapply (step_get _ _ held lost (Ok ch))]).
  apply wp_bind_ret.
  match goal with |- wp ?m _ _ => assert (Hk : keeps m)
    by (destruct c; [apply publishWithConfirms_keeps|apply broker_publish_keeps]) end.
  generalize (Hk w2). apply wp_returns_mono. intros err w3 Hs.
  assert (Hs3 : rtc pool_step (w, held, lost) (w3, ch :: held, lost))
    by (eapply rtc_r; [exact Hs2|by apply step_outside]).
  destruct (ReturnChannel_returns ch w3) as [w4 Hw4].
  assert (Hs4 : rtc pool_step (w, held, lost) (w4, held, lost))
    by (eapply rtc_r; [exact Hs3|by eapply step_return]).
  assert (Hback : ∀ r : option mqerror,
    wp (ReturnChannel ch ;;; ret r) (publishes d (S tries) w held lost) w3).
  { intros r. apply wp_bind_ret. unfold wp. rewrite Hw4. simpl. exists [].
    split_and!; [done|simpl; lia|done]. }
  destruct err as [e|]; [|apply Hback]. destruct (IsRetryableError (Some e)); [|apply Hback].
  apply wp_bind_ret. destruct d; unfold wp at 1; rewrite ?Hw4; simpl.
  - apply (Hagain _ _ [ch]); simpl; [|lia|done].
    eapply rtc_r; [exact Hs3|by eapply step_discard].
  - apply (Hagain _ _ []); simpl; [done|lia|done].
Qed.

(** A success is that of one publication, for which the library reported no
    error; if the broker took it, it is among what it has. *)
Definition succeeds (w : PoolWorld) (w' : PoolWorld) : Prop :=
  ∃ n, pw_tick w ≤ n < pw_tick w' ∧ pb_error (pe_publish env n) = None ∧
    (pb_taken (pe_publish env n) = true → length (pw_sent w) < length (pw_sent w')).

Definition reports (m : M PoolWorld (option mqerror)) : Prop :=
  ∀ w, wp m (λ o w', o = Ret None → succeeds w w') w.

(** More questions, and more messages. *)
Definition grows (w w' : PoolWorld) : Prop :=
  pw_tick w ≤ pw_tick w' ∧ length (pw_sent w) ≤ length (pw_sent w').

Lemma costs_grow n ns w w' : costs n ns w w' → grows w w'.
Proof. intros [(l & Hl & _) [_ Ht]]. split; [done|]. rewrite Hl, length_app. lia. Qed.

Lemma succeeds_grow w1 w2 w3 w4 : grows w1 w2 → succeeds w2 w3 → grows w3 w4 → succeeds w1 w4.
Proof.
  intros [T1 L1] (n & Hn & He & Ht) [T2 L2]. exists n. split; [lia|]. split; [done|].
  intros Htk. specialize (Ht Htk). lia.
Qed.

Lemma grows_refl w : grows w w.
Proof. by split. Qed.

Lemma broker_publish_reports ch : reports (broker_publish env ch).
Proof.
  intros w. unfold broker_publish, wp, bind, pool_tick. simpl.
  destruct (pb_taken (pe_publish env (pw_tick w))) eqn:Ht; simpl;
    intros [= Hn]; exists (pw_tick w); simpl; (split; [lia|]); (split; [done|]); rewrite Ht; [|done].
  intros _. rewrite length_app. simpl. lia.
Qed.

Lemma publishWithConfirms_reports ch : reports (publishWithConfirms env ch).
Proof.
  intros w. unfold publishWithConfirms. apply wp_bind_ret. unfold wp at 1. simpl.
  destruct (decide _); [by apply broker_publish_reports|].
  apply wp_bind_ret. unfold wp at 1. simpl. destruct (pe_confirm env (pw_tick w)); [done|].
  apply wp_bind_ret. unfold wp at 1. simpl.
  match goal with |- wp _ _ ?w1 => generalize (broker_publish_reports ch w1) end.
  apply wp_mono. intros o w' Ho Hr. eapply succeeds_grow; [|by apply Ho|apply grows_refl].
  split; simpl; lia.
Qed.

Lemma publish_attempts_reports c d failure tries attempt last :
  reports (publish_attempts env c d failure tries attempt last).
Proof.
  revert attempt last. induction tries as [|tries IH]; intros attempt last w; [done|].
  assert (Hagain : ∀ e w1, grows w w1 →
    wp (mq_sleep (sleep_second * Z.of_nat (S attempt)) ;;;
        publish_attempts env c d failure tries (S attempt) (Some e)) (λ o w',
      o = Ret None → succeeds w w') w1).
  { intros e w1 Hl. apply wp_bind_ret. unfold wp at 1. simpl.
    match goal with |- wp _ _ ?w2 => generalize (IH (S attempt) (Some e) w2) end.
    apply wp_mono. intros o w' Ho Hr. eapply succeeds_grow; [exact Hl|by apply Ho|apply grows_refl]. }
  cbn [publish_attempts]. apply wp_bind_ret. unfold wp at 1. simpl.
  match goal with |- context [GetChannel env] => idtac end.
  assert (H1 : grows w (pool_tick w).2) by (split; simpl; lia). simpl in H1.
  destruct (pe_no_pool env _); [by apply Hagain|].
  match goal with |- wp _ _ ?w1 =>
    pose proof (costs_grow _ _ _ _ (GetChannel_spends env w1)) as H2 end.
  apply wp_bind. unfold wp at 1. destruct (GetChannel env _) as [[[ch|err]|msg|] w2]; simpl in H2 |- *;
    [| |done|done].
  all: assert (Hw2 : grows w w2) by (destruct H1, H2; split; simpl in *; lia).
  2: by apply Hagain.
  apply wp_bind.
  match goal with |- wp ?m _ _ => assert (Hm : spends 1 0 m ∧ reports m) end.
  { destruct c; [by split; [apply publishWithConfirms_spends|apply publishWithConfirms_reports]|].
    by split; [apply broker_publish_spends|apply broker_publish_reports]. }
  match goal with |- wp ?m _ _ => set (pub := m) in *; clearbody pub end.
  destruct Hm as [Hc Hm]. specialize (Hm w2). specialize (Hc w2). apply costs_grow in Hc.
  unfold wp in Hm. unfold wp at 1. destruct (pub w2) as [[err|msg|] w3]; simpl in *;
    [|done|done].
  destruct (ReturnChannel_returns ch w3) as [w4 Hw4].
  pose proof (costs_grow _ _ _ _ (ReturnChannel_spends ch w3)) as H4. rewrite Hw4 in H4. simpl in H4.
  destruct err as [e|].
  2: { unfold wp, bind; rewrite Hw4; simpl. intros _. eapply succeeds_grow; [exact Hw2|by apply Hm|done]. }
  destruct (IsRetryableError (Some e)); [|unfold wp, bind; by rewrite Hw4].
  apply wp_bind_ret. destruct d; unfold wp at 1; rewrite ?Hw4; apply Hagain;
    destruct Hw2, Hc, H4; split; simpl in *; lia.
Qed.
End channels.

(** ** The properties *)

(** What an undisturbed run does to a pool that others have used before. *)
Lemma shared_ok_pool_ok w held lost : shared_ok w held lost 0 → pool_ok w held lost.
Proof. intros [H1 H2 H3 H4]. split; [done..| |done]. intros Hc. specialize (H3 Hc). lia. Qed.

(** C30: a publication hands the message over at most three times and sleeps
    for at most eighteen seconds, and what is left of it from any attempt on
    keeps to what is left of that, whatever other goroutines have made of the
    pool in the meantime.  Run by itself on a pool that others have used, none
    of them having had to wait for the connection, it returns or panics because
    the pool is exhausted; it returns success only when the library reported no
    error for one of the publications, which the broker then has if it took it;
    and the channels it took are back in the pool, but for those that
    [PublishWithHeaders] threw away, at most one for each attempt. *)
Theorem publishing_is_bounded env useConfirms discard failure w phs lost :
  shared_reachable env (mkSharers w phs lost 0) →
  let m attempt lastErr :=
    publish_attempts env useConfirms discard failure (publish_retries - attempt) attempt lastErr in
  (∀ attempt lastErr w1,
     costs (3 - attempt) (18 * sleep_second) w1 (m attempt lastErr w1).2) ∧
  wp (m 0 None) (λ o w',
    match o with
    | Ret r =>
        (r = None → ∃ n, pw_tick w ≤ n < pw_tick w' ∧ pb_error (pe_publish env n) = None ∧
           (pb_taken (pe_publish env n) = true → length (pw_sent w) < length (pw_sent w'))) ∧
        ∃ thrown, pool_ok w' (hands phs) (thrown ++ lost) ∧
          length thrown ≤ 3 ∧ (discard = false → thrown = [])
    | Panic msg => msg = pool_exhausted
    | Hang => False
    end) w.
Proof.
  intros Hok%shared_reachable_ok%shared_ok_pool_ok. simpl in Hok. intros m. split.
  - intros attempt lastErr w1. unfold publish_retries in m.
    eapply costs_mono; [apply publish_attempts_spends|done|].
    destruct attempt as [|[|[|attempt]]]; by vm_compute.
  - pose proof (publish_attempts_pool env useConfirms discard failure publish_retries 0 None
      _ _ _ Hok) as Hp.
    pose proof (publish_attempts_reports env useConfirms discard failure publish_retries 0 None
      w) as Hd.
    unfold m. change (publish_retries - 0) with publish_retries. unfold wp in *.
    destruct (publish_attempts env useConfirms discard failure publish_retries 0 None w)
      as [[r|msg|] w']; simpl in *; [|done|done].
    split; [intros ->; by apply Hd|]. destruct Hp as (thrown & Hsteps & Hl & Hd2).
    exists thrown. split; [|done]. by apply (pool_steps_ok env _ _ Hsteps).
Qed.

(** Channels that were thrown away are never made up for: when there are as
    many as the pool may have, every further call for a channel panics. *)
Theorem lost_channels_exhaust env w held lost :
  pool_reachable env (w, held, lost) → cp_closed (pw_pool w) = false →
  Z.of_nat (length lost) = cp_maxChannels (pw_pool w) →
  (GetChannel env w).1 = Panic pool_exhausted.
Proof.
  intros Hok%pool_reachable_ok Hcl Hl. simpl in Hok. destruct Hok as [_ _ H3 _].
  destruct (H3 Hcl) as [Hc Hm]. rewrite !length_app in Hc.
  assert (Hch : cp_channels (pw_pool w) = []) by (apply length_zero_iff_nil; lia).
  unfold GetChannel. rewrite Hch. simpl. unfold or_else, get_enter, bind, get_state, with_pool, modify.
  simpl. rewrite Hcl. simpl. unfold get_receive, bind, get_state. simpl. rewrite Hch, Hcl. simpl.
  unfold create_enter, bind, get_state. simpl. rewrite Hcl.
  destruct (Z.leb_spec (cp_maxChannels (pw_pool w)) (cp_created (pw_pool w))); [done|lia].
Qed.

(** ** A broker that does not confirm *)

(** Every confirmation times out, although the broker takes the messages. *)
Definition silent_broker : PoolEnv :=
  mkPoolEnv (λ _, ChannelOpened) (λ _, None)
    (λ _, mkPublishAnswer true (Some (Wrap "" ErrPublishTimeout ": after 30s"))) (λ _, false).

Definition no_pool_world : PoolWorld :=
  mkPoolWorld (mkChannelPool [] 0 false 0 0 0 0) ∅ 0 ∅ [] [] 0.

Definition three_channels : PoolWorld := (NewChannelPool silent_broker false 3 no_pool_world).2.

Definition after_publish : PoolWorld := (PublishWithHeaders silent_broker true three_channels).2.

(** One message that is never confirmed uses up a pool of three channels; the
    broker has it three times. *)
Example one_message_exhausts :
  pw_sent after_publish = [0; 1; 2] ∧
  (GetChannel silent_broker after_publish).1 = Panic pool_exhausted.
Proof. by vm_compute. Qed.

(** A pool of three channels that was just created. *)
Lemma new_pool_reachable env :
  (∀ n, pe_channel env n = ChannelOpened) →
  pool_reachable env ((NewChannelPool env false 3 no_pool_world).2, [], []).
Proof.
  intros Hch. exists false, 3%Z, no_pool_world. eexists. split; [|done].
  unfold NewChannelPool, no_pool_world, bind, with_pool, modify. simpl.
  unfold bind, pool_tick. simpl. by rewrite Hch.
Qed.

(** The first confirmation comes too late, the second one in time. *)
Definition slow_broker : PoolEnv :=
  mkPoolEnv (λ _, ChannelOpened) (λ _, None)
    (λ n, mkPublishAnswer true (if n <? 4 then Some ErrPublishTimeout else None)) (λ _, false).

Lemma new_pool_shared env :
  (∀ n, pe_channel env n = ChannelOpened) →
  shared_reachable env (mkSharers (NewChannelPool env false 3 no_pool_world).2 [] [] 0).
Proof.
  intros Hch. exists false, 3%Z, no_pool_world. eexists. split; [|done].
  unfold NewChannelPool, no_pool_world, bind, with_pool, modify. simpl.
  unfold bind, pool_tick. simpl. by rewrite Hch.
Qed.

Lemma publishing_is_bounded_witness :
  let w := (NewChannelPool slow_broker false 3 no_pool_world).2 in
  let run := PublishWithHeaders slow_broker true w in
  run.1 = Ret None ∧ pw_sent run.2 = [0; 1] ∧ costs 3 (18 * sleep_second) w run.2.
Proof.
  split; [by vm_compute|]. split; [by vm_compute|].
  exact (proj1 (publishing_is_bounded slow_broker true true
    "publish failed after 3 attempts: " _ [] [] (new_pool_shared slow_broker (λ _, eq_refl))) 0 None _).
Defined.

Lemma after_publish_reachable :
  ∃ lost, pool_reachable silent_broker (after_publish, [], lost) ∧ length lost = 3.
Proof.
  pose proof (new_pool_reachable silent_broker (λ _, eq_refl)) as Hr.
  destruct Hr as (conn_nil & max & w0 & w1 & Hnew & Hs) eqn:Heq. clear Heq.
  assert (Hok : pool_ok three_channels [] [])
    by apply (pool_reachable_ok _ _ (new_pool_reachable silent_broker (λ _, eq_refl))).
  pose proof (publish_attempts_pool silent_broker true true "publish failed after 3 attempts: "
    publish_retries 0 None _ _ _ Hok) as Hp.
  unfold wp in Hp. destruct (publish_attempts _ _ _ _ _ _ _ three_channels) as [o w'] eqn:Hrun.
  assert (Hw' : w' = after_publish) by (unfold after_publish, PublishWithHeaders; by rewrite Hrun).
  assert (Ho : ∃ r, o = Ret r) by (revert Hrun; vm_compute; intros [= <- _]; by eexists).
  destruct Ho as [r ->]. simpl in Hp. destruct Hp as (lost & Hsteps & _ & _).
  rewrite app_nil_r in Hsteps. subst w'. exists lost. split.
  - exists conn_nil, max, w0, w1. split; [done|]. by etrans.
  - destruct (pool_steps_ok _ _ _ Hsteps Hok) as [_ _ Hc _]. simpl in Hc.
    destruct Hc as [Hc _]; [by vm_compute|]. vm_compute (cp_created _) in Hc.
    vm_compute (cp_channels _) in Hc. simpl in Hc. lia.
Qed.

Lemma lost_channels_exhaust_witness :
  ∃ lost, pool_reachable silent_broker (after_publish, [], lost) ∧
    (GetChannel silent_broker after_publish).1 = Panic pool_exhausted.
Proof.
  destruct after_publish_reachable as (lost & Hr & Hl). exists lost. split; [done|].
  apply (lost_channels_exhaust silent_broker after_publish [] lost Hr); [by vm_compute|].
  rewrite Hl. by vm_compute.
Defined.
