(* ===== verification/MqConfirms.v ===== *)
(** * Publisher confirms

    [pkg/mq/common/publisher.go]: goroutines publish on one channel; the
    broker numbers the messages it takes on a channel from 1 and answers each
    number with an ack or a nack; a router hands the answers to the goroutines
    that wait for them.  The state is what goroutines, router and broker
    share; each step is one critical section of one of them. *)

From stdpp Require Import pretty relations.
From S2P Require Import Prelude MqErrors.

Record Confirmation := mkConfirmation { cn_DeliveryTag : nat; cn_Ack : bool }.

(** The response channel of a goroutine: a buffer of one. *)
Inductive Response := RespEmpty | RespGot (c : Confirmation) | RespClosed.

(** Where a goroutine is in [PublishWithConfirm]: in the final [select], on
    its way out with an error, or done. *)
Inductive Phase :=
  | Waiting (seqNo : nat)
  | Leaving (seqNo : nat) (err : mqerror)
  | Finished (r : option mqerror).

(** [cf_messages] and [cf_tags] are the broker's: whose message has which
    number, and how many there are; [cf_verdicts] is what it has answered. *)
Record Publisher := mkPublisher {
  cf_nextSeqNo : nat;
  cf_pendingConfirms : gmap nat nat;
  cf_responses : gmap nat Response;
  cf_goroutines : gmap nat Phase;
  cf_confirmChan : list Confirmation;
  cf_routing : bool;
  cf_tags : nat;
  cf_messages : gmap nat nat;
  cf_verdicts : gmap nat bool;
}.

(** [NewPublisherWithConfirms] on a channel nothing was published on. *)
Definition NewPublisherWithConfirms : Publisher := mkPublisher 1 ∅ ∅ ∅ [] true 0 ∅ ∅.

(** ** Goroutines *)

Definition set_goroutine (g : nat) (p : Phase) (s : Publisher) : Publisher :=
  mkPublisher (cf_nextSeqNo s) (cf_pendingConfirms s) (cf_responses s) (<[g := p]> (cf_goroutines s))
    (cf_confirmChan s) (cf_routing s) (cf_tags s) (cf_messages s) (cf_verdicts s).

(** Under the mutex: the number is registered before the message goes out. *)
Definition register (g : nat) (s : Publisher) : Publisher :=
  mkPublisher (S (cf_nextSeqNo s)) (<[cf_nextSeqNo s := g]> (cf_pendingConfirms s))
    (<[g := RespEmpty]> (cf_responses s)) (cf_goroutines s) (cf_confirmChan s) (cf_routing s)
    (cf_tags s) (cf_messages s) (cf_verdicts s).

Definition broker_takes (g : nat) (s : Publisher) : Publisher :=
  mkPublisher (cf_nextSeqNo s) (cf_pendingConfirms s) (cf_responses s) (cf_goroutines s)
    (cf_confirmChan s) (cf_routing s) (S (cf_tags s)) (<[S (cf_tags s) := g]> (cf_messages s))
    (cf_verdicts s).

(** [PublishWithConfirm] up to the [select], or to the error of the library,
    which then has not counted the message. *)
Definition publish_ok (g : nat) (s : Publisher) : Publisher :=
  set_goroutine g (Waiting (cf_nextSeqNo s)) (broker_takes g (register g s)).
Definition publish_fails (g : nat) (err : mqerror) (s : Publisher) : Publisher :=
  set_goroutine g (Leaving (cf_nextSeqNo s) (Wrap "publish failed: " err "")) (register g s).

(** [delete(p.pendingConfirms, seqNo)] on the way out. *)
Definition leave (g seqNo : nat) (err : mqerror) (s : Publisher) : Publisher :=
  set_goroutine g (Finished (Some err))
    (mkPublisher (cf_nextSeqNo s) (delete seqNo (cf_pendingConfirms s)) (cf_responses s)
       (cf_goroutines s) (cf_confirmChan s) (cf_routing s) (cf_tags s) (cf_messages s)
       (cf_verdicts s)).

(** The first case of the [select]. *)
Definition judge_confirmation (seqNo : nat) (r : Response) : option (option mqerror) :=
  match r with
  | RespEmpty => None
  | RespClosed =>
      Some (Some (MqErrorf ("publisher confirmation channel closed (seq " +:+ pretty seqNo +:+ ")")))
  | RespGot confirm =>
      if decide (cn_DeliveryTag confirm = seqNo) then
        if cn_Ack confirm then Some None else Some (Some ErrPublishNacked)
      else Some (Some (MqErrorf ("sequence mismatch: expected " +:+ pretty seqNo +:+ ", got " +:+
             pretty (cn_DeliveryTag confirm))))
  end.

Definition timeout_error (seqNo : nat) : mqerror :=
  Wrap "" ErrPublishTimeout (": after the timeout (seq " +:+ pretty seqNo +:+ ")").

(** ** The router *)

(** One turn of [routeConfirmations]; [None] would be a send that blocks with
    the mutex held. *)
Definition route (s : Publisher) : option Publisher :=
  match cf_confirmChan s with
  | [] => Some s
  | confirm :: rest =>
      let tag := cn_DeliveryTag confirm in
      match cf_pendingConfirms s !! tag with
      | None =>
          Some (mkPublisher (cf_nextSeqNo s) (cf_pendingConfirms s) (cf_responses s)
            (cf_goroutines s) rest (cf_routing s) (cf_tags s) (cf_messages s) (cf_verdicts s))
      | Some g =>
          match cf_responses s !! g with
          | Some RespEmpty =>
              Some (mkPublisher (cf_nextSeqNo s) (delete tag (cf_pendingConfirms s))
                (<[g := RespGot confirm]> (cf_responses s)) (cf_goroutines s) rest (cf_routing s)
                (cf_tags s) (cf_messages s) (cf_verdicts s))
          | _ => None
          end
      end
  end.

(** The end of the router, after [Close] or when the channel is closed: the
    response channels of all that are registered are closed. *)
Definition stop_routing (s : Publisher) : Publisher :=
  mkPublisher (cf_nextSeqNo s) ∅
    (map_fold (λ _ g responses, <[g := RespClosed]> responses) (cf_responses s) (cf_pendingConfirms s))
    (cf_goroutines s) (cf_confirmChan s) false (cf_tags s) (cf_messages s) (cf_verdicts s).

(** ** The broker *)

Definition broker_answers (tag : nat) (ack : bool) (s : Publisher) : Publisher :=
  mkPublisher (cf_nextSeqNo s) (cf_pendingConfirms s) (cf_responses s) (cf_goroutines s)
    (cf_confirmChan s ++ [mkConfirmation tag ack]) (cf_routing s) (cf_tags s) (cf_messages s)
    (<[tag := ack]> (cf_verdicts s)).

(** ** Steps

    [failing]: whether the library may report an error for a publication. *)

Inductive publisher_step (failing : bool) : Publisher → Publisher → Prop :=
  | step_publish s g :
      cf_goroutines s !! g = None → publisher_step failing s (publish_ok g s)
  | step_publish_fails s g err :
      failing = true → cf_goroutines s !! g = None →
      publisher_step failing s (publish_fails g err s)
  | step_broker s tag ack :
      is_Some (cf_messages s !! tag) → cf_verdicts s !! tag = None →
      publisher_step failing s (broker_answers tag ack s)
  | step_route s s' :
      cf_routing s = true → route s = Some s' → publisher_step failing s s'
  | step_stop s : cf_routing s = true → publisher_step failing s (stop_routing s)
  | step_receive s g seqNo r verdict :
      cf_goroutines s !! g = Some (Waiting seqNo) → cf_responses s !! g = Some r →
      judge_confirmation seqNo r = Some verdict →
      publisher_step failing s (set_goroutine g (Finished verdict) s)
  | step_timeout s g seqNo :
      cf_goroutines s !! g = Some (Waiting seqNo) →
      publisher_step failing s (set_goroutine g (Leaving seqNo (timeout_error seqNo)) s)
  | step_cancel s g seqNo err :
      cf_goroutines s !! g = Some (Waiting seqNo) →
      publisher_step failing s
        (set_goroutine g (Leaving seqNo (Wrap "context cancelled: " err "")) s)
  | step_leave s g seqNo err :
      cf_goroutines s !! g = Some (Leaving seqNo err) →
      publisher_step failing s (leave g seqNo err s).

Definition publisher_reachable (failing : bool) : Publisher → Prop :=
  rtc (publisher_step failing) NewPublisherWithConfirms.

(** ** The router never blocks

    Whatever happens, a registered goroutine has an empty response channel, and
    one registration only. *)

Record registered (s : Publisher) : Prop := {
  rg_response : ∀ q g, cf_pendingConfirms s !! q = Some g →
    cf_responses s !! g = Some RespEmpty ∧ is_Some (cf_goroutines s !! g) ∧ q < cf_nextSeqNo s;
  rg_once : ∀ q q' g, cf_pendingConfirms s !! q = Some g → cf_pendingConfirms s !! q' = Some g →
    q = q';
}.

(** A step that leaves the registrations alone. *)
Lemma registered_goroutine g p s : registered s → registered (set_goroutine g p s).
Proof.
  intros [H1 H2]. split; simpl; [|done]. intros q g' Hq. destruct (H1 _ _ Hq) as (? & ? & ?).
  split_and!; [done| |done]. destruct (decide (g = g')) as [->|].
  - by rewrite lookup_insert_eq.
  - by rewrite lookup_insert_ne.
Qed.

Lemma registered_register g s :
  registered s → cf_goroutines s !! g = None →
  ∀ p, registered (set_goroutine g p (register g s)).
Proof.
  intros [H1 H2] Hg p.
  assert (Hno : ∀ q, cf_pendingConfirms s !! q ≠ Some g).
  { intros q Hq. destruct (H1 _ _ Hq) as (_ & [? ?] & _). congruence. }
  split; simpl.
  - intros q g' [[<- <-]|[Hne Hq]]%lookup_insert_Some.
    + rewrite !lookup_insert_eq. split_and!; [done|by eexists|lia].
    + destruct (H1 _ _ Hq) as (? & ? & ?). assert (g ≠ g') by (intros ->; by apply (Hno q)).
      rewrite !lookup_insert_ne by done. split_and!; [done|done|lia].
  - intros q q' g' [[<- <-]|[Hne Hq]]%lookup_insert_Some [[<- ?]|[Hne' Hq']]%lookup_insert_Some.
    + done.
    + by destruct (Hno q').
    + subst. by destruct (Hno q).
    + eauto.
Qed.

Lemma registered_step failing s s' : publisher_step failing s s' → registered s → registered s'.
Proof.
  intros Hs [H1 H2].
  destruct Hs as [s g Hg|s g err _ Hg|s tag ack Hm Hv|s s' _ Hr|s _|s g q r v Hg Hr Hj|s g q Hg
    |s g q err Hg|s g q err Hg]; try by apply registered_goroutine.
  - destruct (registered_register g s (Build_registered _ H1 H2) Hg (Waiting (cf_nextSeqNo s))).
    by split.
  - by apply registered_register.
  - done.
  - unfold route in Hr. destruct (cf_confirmChan s) as [|c rest]; simplify_eq; [done|].
    destruct (cf_pendingConfirms s !! cn_DeliveryTag c) as [g|] eqn:Hp; [|simplify_eq; done].
    destruct (cf_responses s !! g) as [[]|] eqn:Hg; simplify_eq. split; simpl.
    + intros q g' [Hne Hq]%lookup_delete_Some. destruct (H1 _ _ Hq) as (? & ? & ?).
      assert (g ≠ g') by (intros ->; by apply Hne, (H2 _ _ g')).
      by rewrite lookup_insert_ne.
    + intros q q' g' [_ Hq]%lookup_delete_Some [_ Hq']%lookup_delete_Some. eauto.
  - by split.
  - apply registered_goroutine. split; simpl.
    + intros q' g' [_ Hq]%lookup_delete_Some. by apply H1.
    + intros q1 q2 g' [_ Hq]%lookup_delete_Some [_ Hq']%lookup_delete_Some. eauto.
Qed.

(** ** Confirmations reach their owners *)

(** When no publication fails, the numbers of the goroutines are those of the
    broker. *)
Record own_numbers (s : Publisher) : Prop := {
  on_next : cf_nextSeqNo s = S (cf_tags s);
  on_messages : ∀ t g, cf_messages s !! t = Some g → t ≤ cf_tags s ∧ is_Some (cf_goroutines s !! g);
  on_pending : ∀ q g, cf_pendingConfirms s !! q = Some g → cf_messages s !! q = Some g;
  on_waiting : ∀ g q, cf_goroutines s !! g = Some (Waiting q) → cf_messages s !! q = Some g;
  on_chan : ∀ c, c ∈ cf_confirmChan s → cf_verdicts s !! cn_DeliveryTag c = Some (cn_Ack c);
  on_response : ∀ g c, cf_responses s !! g = Some (RespGot c) →
    cf_verdicts s !! cn_DeliveryTag c = Some (cn_Ack c);
  on_finished : ∀ g, cf_goroutines s !! g = Some (Finished None) →
    ∃ t, cf_messages s !! t = Some g ∧ cf_verdicts s !! t = Some true;
}.

Lemma own_numbers_goroutine g p s :
  own_numbers s → (∀ q, p = Waiting q → cf_messages s !! q = Some g) →
  (p = Finished None → ∃ t, cf_messages s !! t = Some g ∧ cf_verdicts s !! t = Some true) →
  own_numbers (set_goroutine g p s).
Proof.
  intros [H1 H2 H3 H4 H5 H6 H7] Hw Hf. split; simpl; try done.
  - intros t g' Ht. destruct (H2 _ _ Ht) as [? ?]. split; [done|].
    destruct (decide (g = g')) as [->|]; [by rewrite lookup_insert_eq|by rewrite lookup_insert_ne].
  - intros g' q [[<- Hp]|[_ Hg]]%lookup_insert_Some; [by apply Hw|by apply H4].
  - intros g' [[<- Hp]|[_ Hg]]%lookup_insert_Some; [by apply Hf|by apply H7].
Qed.

Lemma own_numbers_publish g s :
  own_numbers s → cf_goroutines s !! g = None → own_numbers (publish_ok g s).
Proof.
  intros [H1 H2 H3 H4 H5 H6 H7] Hg.
  assert (Hnew : cf_messages s !! S (cf_tags s) = None).
  { destruct (cf_messages s !! S (cf_tags s)) as [g'|] eqn:Hm; [|done]. apply H2 in Hm as [? _]. lia. }
  assert (Hkeep : ∀ t g', cf_messages s !! t = Some g' → (<[S (cf_tags s):=g]> (cf_messages s)) !! t = Some g').
  { intros t g' Ht. rewrite lookup_insert_ne; [done|congruence]. }
  split; simpl.
  - by rewrite H1.
  - intros t g' [[<- <-]|[_ Ht]]%lookup_insert_Some; [rewrite lookup_insert_eq; split; [lia|by eexists]|].
    destruct (H2 _ _ Ht) as [? [p Hp]]. split; [lia|].
    rewrite lookup_insert_ne; [by eexists|congruence].
  - rewrite H1. intros q g' [[<- <-]|[_ Hq]]%lookup_insert_Some; [by rewrite lookup_insert_eq|eauto].
  - rewrite H1. intros g' q [[<- [= <-]]|[_ Hq]]%lookup_insert_Some; [by rewrite lookup_insert_eq|eauto].
  - done.
  - intros g' c [[_ ?]|[_ Hc]]%lookup_insert_Some; [done|eauto].
  - intros g' [[_ ?]|[_ Hc]]%lookup_insert_Some; [done|].
    destruct (H7 _ Hc) as (t & Ht & Hv). eauto.
Qed.

Lemma closed_responses (pending : gmap nat nat) (responses : gmap nat Response) g c :
  map_fold (λ _ g responses, <[g := RespClosed]> responses) responses pending !! g = Some (RespGot c) →
  responses !! g = Some (RespGot c).
Proof.
  revert g c. apply (map_fold_weak_ind (λ r _, ∀ g c, r !! g = Some (RespGot c) → _)); [done|].
  intros q g' m r _ IH g c [[_ ?]|[_ Hr]]%lookup_insert_Some; [done|by apply IH].
Qed.

Lemma own_numbers_step s s' :
  publisher_step false s s' → registered s → own_numbers s → own_numbers s'.
Proof.
  intros Hs Hr Ho. pose proof Ho as [H1 H2 H3 H4 H5 H6 H7].
  destruct Hs as [s g Hg|s g err [=] Hg|s tag ack Hm Hv|s s' _ Hro|s _|s g q r v Hg Hre Hj|s g q Hg
    |s g q err Hg|s g q err Hg].
  - by apply own_numbers_publish.
  - assert (Hkeep : ∀ t b, cf_verdicts s !! t = Some b → (<[tag:=ack]> (cf_verdicts s)) !! t = Some b)
      by (intros t b Ht; rewrite lookup_insert_ne; [done|congruence]).
    split; simpl; try done; [|by eauto|].
    + intros c [Hc| ->%list_elem_of_singleton]%elem_of_app; [by eauto|by rewrite lookup_insert_eq].
    + intros g Hg. destruct (H7 _ Hg) as (t & ? & ?). eauto.
  - unfold route in Hro. destruct (cf_confirmChan s) as [|c rest] eqn:Hch; simplify_eq; [done|].
    assert (Hrest : ∀ c', c' ∈ rest → cf_verdicts s !! cn_DeliveryTag c' = Some (cn_Ack c'))
      by (intros c' Hc'; apply H5; by right).
    destruct (cf_pendingConfirms s !! cn_DeliveryTag c) as [g|] eqn:Hp.
    2: { simplify_eq. by split. }
    destruct (cf_responses s !! g) as [[]|] eqn:Hg; simplify_eq. split; simpl; try done.
    + intros q g' [_ Hq]%lookup_delete_Some. eauto.
    + intros g' c' [[_ [= <-]]|[_ Hc']]%lookup_insert_Some; [|eauto]. apply H5. by left.
  - split; simpl; try done. intros g c Hc. apply closed_responses in Hc. eauto.
  - apply own_numbers_goroutine; [done| |].
    + done.
    + intros Hv. injection Hv as ->. destruct r as [|c|]; simpl in Hj; simplify_eq.
      case_decide as Hq; simplify_eq. destruct (cn_Ack c) eqn:Hack; simplify_eq.
      exists (cn_DeliveryTag c). split; [by apply H4|]. rewrite <- Hack. eauto.
  - by apply own_numbers_goroutine.
  - by apply own_numbers_goroutine.
  - unfold leave. apply own_numbers_goroutine; [|done|done]. split; simpl; try done.
    intros q' g' [_ Hq]%lookup_delete_Some. eauto.
Qed.

Lemma publisher_reachable_registered failing s : publisher_reachable failing s → registered s.
Proof.
  assert (H0 : registered NewPublisherWithConfirms) by by split; intros; simplify_map_eq.
  unfold publisher_reachable. generalize NewPublisherWithConfirms H0. intros s0 Hs0 Hr.
  induction Hr; eauto using registered_step.
Qed.

Lemma publisher_reachable_own s : publisher_reachable false s → own_numbers s.
Proof.
  assert (H0 : registered NewPublisherWithConfirms ∧ own_numbers NewPublisherWithConfirms).
  { split; [by split; intros; simplify_map_eq|].
    split; simpl; try done. by intros c ?%not_elem_of_nil. }
  unfold publisher_reachable. generalize NewPublisherWithConfirms H0. intros s0 [Hr0 Hs0] Hr.
  induction Hr; eauto using registered_step, own_numbers_step.
Qed.

(** C31: [PublishWithConfirm] reports success only for a message that the broker
    has acked itself, however the goroutines, the router, the broker and the
    timeouts are interleaved, as long as no publication on the channel has
    failed; and the router never blocks with the mutex held. *)
Theorem confirmation_is_own s :
  publisher_reachable false s →
  (∀ g, cf_goroutines s !! g = Some (Finished None) →
    ∃ tag, cf_messages s !! tag = Some g ∧ cf_verdicts s !! tag = Some true) ∧
  is_Some (route s).
Proof.
  intros Hs. split; [apply (on_finished _ (publisher_reachable_own _ Hs))|].
  pose proof (rg_response _ (publisher_reachable_registered _ _ Hs)) as Hr.
  unfold route. destruct (cf_confirmChan s) as [|c rest]; [by eexists|].
  destruct (cf_pendingConfirms s !! cn_DeliveryTag c) as [g|] eqn:Hp; [|by eexists].
  destruct (Hr _ _ Hp) as [-> _]. by eexists.
Qed.

(** ** After a publication that failed *)

(** Runs given as functions. *)
Definition run_steps (l : list (Publisher → Publisher)) : Publisher :=
  foldl (λ s f, f s) NewPublisherWithConfirms l.

Definition route_once (s : Publisher) : Publisher := default s (route s).

(** The first publication fails and is counted by the client only; the broker
    nacks the second message and acks the third, and the goroutine of the
    second one takes the ack for its own. *)
Definition skewed : Publisher :=
  run_steps
    [ publish_fails 1 (MqErrorf "write failed"); leave 1 1 (Wrap "publish failed: " (MqErrorf "write failed") "");
      publish_ok 2; publish_ok 3; broker_answers 1 false; broker_answers 2 true;
      route_once; route_once; set_goroutine 2 (Finished None) ].

(** The second message was nacked, and reported as published: one failed
    publication shifts the numbers of all that follow on its channel. *)
Theorem failed_publish_shifts_confirmations :
  publisher_reachable true skewed ∧ cf_goroutines skewed !! 2 = Some (Finished None) ∧
  cf_messages skewed !! 1 = Some 2 ∧ cf_verdicts skewed !! 1 = Some false.
Proof.
  split; [|by vm_compute]. unfold skewed, run_steps. simpl foldl.
  eapply rtc_l; [by apply (step_publish_fails true _ 1)|].
  eapply rtc_l; [by apply (step_leave true _ 1 1)|].
  eapply rtc_l; [by apply (step_publish true _ 2)|].
  eapply rtc_l; [by apply (step_publish true _ 3)|].
  eapply rtc_l; [apply (step_broker true _ 1 false); [by eexists|by vm_compute]|].
  eapply rtc_l; [apply (step_broker true _ 2 true); [by eexists|by vm_compute]|].
  eapply rtc_l; [apply (step_route true); [done|by vm_compute]|].
  eapply rtc_l; [apply (step_route true); [done|by vm_compute]|].
  eapply rtc_l; [apply (step_receive true _ 2 2 (RespGot (mkConfirmation 2 true)) None); by vm_compute|].
  apply rtc_refl.
Qed.

(** Two messages, answered in the other order. *)
Definition served : Publisher :=
  run_steps
    [ publish_ok 1; publish_ok 2; broker_answers 2 true; broker_answers 1 false;
      route_once; route_once; set_goroutine 2 (Finished None);
      set_goroutine 1 (Finished (Some ErrPublishNacked)) ].

Lemma served_reachable : publisher_reachable false served.
Proof.
  unfold served, run_steps. simpl foldl.
  eapply rtc_l; [by apply (step_publish false _ 1)|].
  eapply rtc_l; [by apply (step_publish false _ 2)|].
  eapply rtc_l; [apply (step_broker false _ 2 true); [by eexists|by vm_compute]|].
  eapply rtc_l; [apply (step_broker false _ 1 false); [by eexists|by vm_compute]|].
  eapply rtc_l; [apply (step_route false); [done|by vm_compute]|].
  eapply rtc_l; [apply (step_route false); [done|by vm_compute]|].
  eapply rtc_l; [apply (step_receive false _ 2 2 (RespGot (mkConfirmation 2 true)) None); by vm_compute|].
  eapply rtc_l;
    [apply (step_receive false _ 1 1 (RespGot (mkConfirmation 1 false)) (Some ErrPublishNacked));
     by vm_compute|].
  apply rtc_refl.
Qed.

Lemma confirmation_is_own_witness :
  (∃ tag, cf_messages served !! tag = Some 2 ∧ cf_verdicts served !! tag = Some true) ∧
  is_Some (route served).
Proof.
  destruct (confirmation_is_own served served_reachable) as [H1 H2].
  split; [|exact H2]. apply H1. by vm_compute.
Defined.
