(* ===== verification/MqConsume.v ===== *)
(** * Consuming a queue

    The message loop of [ConsumeQueueWithOptionsAsync] in
    [pkg/mq/common/helpers.go]: what becomes of a delivery when its callback
    returns, fails or does not return in time, and what that means for a queue
    with any number of consumers.  Each consumer takes one message at a time
    ([Qos(1, 0, false)]).  A call of [Ack] or [Nack] only sends: the broker
    does its part later, and when the channel of the consumer is lost before
    that, the message is back in the queue. *)

From stdpp Require Import relations.
From S2P Require Import Prelude GoMonad MqErrors.

#[local] Open Scope go_scope.

Record ConsumeOptions := mkConsumeOptions {
  RequeueNack : bool;
  RepublishNack : bool;
  CallbackTimeout : Z;
}.

(** [options == nil] *)
Definition consume_options (options : option ConsumeOptions) : ConsumeOptions :=
  default (mkConsumeOptions true false 0) options.

(** 180 seconds unless the options say otherwise. *)
Definition callbackTimeout (options : ConsumeOptions) : Z :=
  if (0 <? CallbackTimeout options)%Z then CallbackTimeout options else 180000000000.

Record Delivery := mkDelivery { dl_id : nat; dl_headers : Headers }.

(** What the callback does within its time. *)
Inductive CallbackOutcome := CbReturns (err : option string) | CbTimesOut.

(** Why the broker lets go of a message: its callback returned nil, it was
    given up, or it was published again, and so many copies of it have reached
    the queue. *)
Inductive Farewell := Done | Dropped | Republished (copies : nat).

(** What the loop has sent to the broker about a delivery. *)
Inductive Answer := AckSent (why : Farewell) | NackSent | NothingSent.

(** A consumer: it awaits a callback, whose channel may have been lost in the
    meantime, or it has answered. *)
Inductive Holding :=
| Working (m : Delivery)
| Orphaned (m : Delivery)
| Answered (m : Delivery) (a : Answer).

(** The queue at the broker, its consumers that are not idle, and the messages
    that the broker has let go of. *)
Record QueueWorld := mkQueueWorld {
  qw_ready : list Delivery;
  qw_holding : gmap nat Holding;
  qw_gone : list (nat * Farewell);
  qw_tick : nat;
}.

(** Whether a call of [Ack] or [Nack] returns nil, and how many of the
    attempts of a publication bring the message to the queue: they go to the
    exchange that has the name of the queue. *)
Record ConsumeEnv := mkConsumeEnv {
  ce_ack : nat → bool;
  ce_publish : nat → nat;
  ce_now : nat → Z;
}.

Section consume.
Context (env : ConsumeEnv) (options : ConsumeOptions).
#[local] Notation Go := (M QueueWorld).

Definition consume_tick : Go nat := λ w,
  (Ret (qw_tick w), mkQueueWorld (qw_ready w) (qw_holding w) (qw_gone w) (S (qw_tick w))).
Definition set_holding (f : gmap nat Holding → gmap nat Holding) : Go unit :=
  modify (λ w, mkQueueWorld (qw_ready w) (f (qw_holding w)) (qw_gone w) (qw_tick w)).
Definition set_ready (f : list Delivery → list Delivery) : Go unit :=
  modify (λ w, mkQueueWorld (f (qw_ready w)) (qw_holding w) (qw_gone w) (qw_tick w)).

(** On a channel that is lost, no call succeeds.  When a call fails, the
    message stays with the consumer, who gets no other. *)
Definition send_answer (c : nat) (m : Delivery) (a : Answer) : Go bool :=
  n <- consume_tick ;;
  w <- get_state ;;
  match qw_holding w !! c with
  | Some (Working _) =>
      set_holding (<[c := Answered m (if ce_ack env n then a else NothingSent)]>) ;;;
      ret (ce_ack env n)
  | _ => set_holding (delete c) ;;; ret false
  end.

(** [m.Ack(false)] *)
Definition Ack (c : nat) (m : Delivery) (why : Farewell) : Go bool :=
  send_answer c m (AckSent why).

(** [m.Nack(false, true)] *)
Definition Nack (c : nat) (m : Delivery) : Go bool := send_answer c m NackSent.

(** [PublishWithHeaders(ctx, queueName, ...)]; its error is only logged. *)
Definition republish (c : nat) (m m' : Delivery) : Go unit :=
  n <- consume_tick ;;
  set_ready (λ l, l ++ repeat m' (ce_publish env n)) ;;;
  set_holding (<[c := Answered m (AckSent (Republished (ce_publish env n)))]>).

Definition handle_delivery (c : nat) (m : Delivery) (outcome : CallbackOutcome) : Go unit :=
  match outcome with
  | CbTimesOut => Nack c m ;;; ret tt
  | CbReturns None => Ack c m Done ;;; ret tt
  | CbReturns (Some err) =>
      if RepublishNack options then
        if negb (ShouldRetryMessage (dl_headers m)) then Ack c m Dropped ;;; ret tt
        else
          acked <- Ack c m (Republished 0) ;;
          if negb acked then ret tt
          else
            n <- consume_tick ;;
            republish c m (mkDelivery (dl_id m) (IncrementRetryCount (ce_now env n) (dl_headers m) err))
      else if RequeueNack options then Nack c m ;;; ret tt
      else Ack c m Dropped ;;; ret tt
  end.

(** ** The queue and its consumers *)

(** The broker gives the oldest message to a consumer that has none. *)
Definition deliver (c : nat) (w : QueueWorld) : option QueueWorld :=
  match qw_holding w !! c, qw_ready w with
  | None, m :: ready =>
      Some (mkQueueWorld ready (<[c := Working m]> (qw_holding w)) (qw_gone w) (qw_tick w))
  | _, _ => None
  end.

(** The broker acts on what a consumer has sent. *)
Definition process_answer (c : nat) (w : QueueWorld) : option QueueWorld :=
  match qw_holding w !! c with
  | Some (Answered m (AckSent why)) =>
      Some (mkQueueWorld (qw_ready w) (delete c (qw_holding w)) ((dl_id m, why) :: qw_gone w)
        (qw_tick w))
  | Some (Answered m NackSent) =>
      Some (mkQueueWorld (m :: qw_ready w) (delete c (qw_holding w)) (qw_gone w) (qw_tick w))
  | _ => None
  end.

(** The channel of a consumer is lost or closed: what the broker has not acted
    on is void, and the message is in the queue again. *)
Definition lose_channel (c : nat) (w : QueueWorld) : option (nat * QueueWorld) :=
  match qw_holding w !! c with
  | Some (Working m) =>
      Some (dl_id m, mkQueueWorld (m :: qw_ready w) (<[c := Orphaned m]> (qw_holding w)) (qw_gone w)
        (qw_tick w))
  | Some (Answered m _) =>
      Some (dl_id m, mkQueueWorld (m :: qw_ready w) (delete c (qw_holding w)) (qw_gone w) (qw_tick w))
  | _ => None
  end.

Definition enqueue (m : Delivery) (w : QueueWorld) : QueueWorld :=
  mkQueueWorld (qw_ready w ++ [m]) (qw_holding w) (qw_gone w) (qw_tick w).

(** What has happened: the messages that were ever put in, the callbacks that
    the loops have awaited, each with the count of failures in the header of
    its delivery, and the deliveries whose channel was lost. *)
Record History := mkHistory {
  hs_published : list nat;
  hs_calls : list (nat * Z * CallbackOutcome);
  hs_losses : list nat;
}.

Inductive queue_step : QueueWorld * History → QueueWorld * History → Prop :=
  | step_enqueue w published calls losses m :
      dl_headers m = ∅ → dl_id m ∉ published →
      queue_step (w, mkHistory published calls losses)
        (enqueue m w, mkHistory (dl_id m :: published) calls losses)
  | step_deliver w w' h c :
      deliver c w = Some w' → queue_step (w, h) (w', h)
  | step_handle w w' published calls losses c m outcome r :
      qw_holding w !! c = Some (Working m) ∨ qw_holding w !! c = Some (Orphaned m) →
      handle_delivery c m outcome w = (r, w') →
      queue_step (w, mkHistory published calls losses)
        (w', mkHistory published ((dl_id m, GetRetryCount (dl_headers m), outcome) :: calls) losses)
  | step_process w w' h c :
      process_answer c w = Some w' → queue_step (w, h) (w', h)
  | step_lose w w' published calls losses c id :
      lose_channel c w = Some (id, w') →
      queue_step (w, mkHistory published calls losses) (w', mkHistory published calls (id :: losses)).

Definition empty_queue : QueueWorld := mkQueueWorld [] ∅ [] 0.
Definition empty_history : History := mkHistory [] [] [].

Definition queue_reachable : QueueWorld * History → Prop :=
  rtc queue_step (empty_queue, empty_history).
End consume.

(** ** What consumers do to messages

    With the options that the coordinator, the submitters and the executors
    use, a message leaves its queue only when its callback has returned nil.
    With republication its retries are counted, and it is given up when its
    callback has failed at each count; a republication that does not arrive
    loses it. *)

Section specs.
Context (env : ConsumeEnv) (options : ConsumeOptions).

(** ** What a delivery comes to *)

Definition retried (now : Z) (err : string) (m : Delivery) : Delivery :=
  mkDelivery (dl_id m) (IncrementRetryCount now (dl_headers m) err).

(** What is sent about [m], and what is put into the queue. *)
Inductive answered (m : Delivery) : CallbackOutcome → Answer → list Delivery → Prop :=
  | answered_nothing outcome : answered m outcome NothingSent []
  | answered_done : answered m (CbReturns None) (AckSent Done) []
  | answered_dropped err :
      (if RepublishNack options then ShouldRetryMessage (dl_headers m) = false
       else RequeueNack options = false) →
      answered m (CbReturns (Some err)) (AckSent Dropped) []
  | answered_nack outcome :
      (outcome = CbTimesOut ∨ RepublishNack options = false ∧ outcome ≠ CbReturns None) →
      answered m outcome NackSent []
  | answered_republished err now t :
      RepublishNack options = true → ShouldRetryMessage (dl_headers m) = true →
      answered m (CbReturns (Some err)) (AckSent (Republished (ce_publish env t)))
        (repeat (retried now err m) (ce_publish env t)).

Inductive handled (c : nat) (m : Delivery) (outcome : CallbackOutcome) (w w' : QueueWorld) : Prop :=
  | handled_orphan :
      qw_holding w !! c = Some (Orphaned m) →
      qw_ready w' = qw_ready w → qw_holding w' = delete c (qw_holding w) →
      qw_gone w' = qw_gone w → handled c m outcome w w'
  | handled_answered a added :
      qw_holding w !! c = Some (Working m) → answered m outcome a added →
      qw_ready w' = qw_ready w ++ added →
      qw_holding w' = <[c := Answered m a]> (qw_holding w) →
      qw_gone w' = qw_gone w → handled c m outcome w w'.

Lemma send_answer_orphan c m a w :
  qw_holding w !! c = Some (Orphaned m) →
  send_answer env c m a w =
    (Ret false, mkQueueWorld (qw_ready w) (delete c (qw_holding w)) (qw_gone w) (S (qw_tick w))).
Proof. intros Hc. unfold send_answer, consume_tick, bind, get_state. simpl. by rewrite Hc. Qed.

Lemma send_answer_working c m a w :
  qw_holding w !! c = Some (Working m) →
  send_answer env c m a w =
    (Ret (ce_ack env (qw_tick w)), mkQueueWorld (qw_ready w)
      (<[c := Answered m (if ce_ack env (qw_tick w) then a else NothingSent)]> (qw_holding w))
      (qw_gone w) (S (qw_tick w))).
Proof. intros Hc. unfold send_answer, consume_tick, bind, get_state. simpl. by rewrite Hc. Qed.

(** One answer and nothing else. *)
Lemma send_answer_handled c m outcome a w :
  qw_holding w !! c = Some (Working m) ∨ qw_holding w !! c = Some (Orphaned m) →
  answered m outcome a [] →
  wp (send_answer env c m a ;;; ret tt) (returns (λ _ w', handled c m outcome w w')) w.
Proof.
  intros [Hc|Hc] Ha; unfold wp, bind.
  - rewrite (send_answer_working _ _ _ _ Hc). simpl.
    apply (handled_answered _ _ _ _ _ (if ce_ack env (qw_tick w) then a else NothingSent) []);
      simpl; rewrite ?app_nil_r; try done.
    destruct (ce_ack env _); [done|constructor].
  - rewrite (send_answer_orphan _ _ _ _ Hc). simpl. by apply handled_orphan.
Qed.

Lemma handle_delivery_spec c m outcome w :
  qw_holding w !! c = Some (Working m) ∨ qw_holding w !! c = Some (Orphaned m) →
  wp (handle_delivery env options c m outcome) (returns (λ _ w', handled c m outcome w w')) w.
Proof.
  intros Hc. destruct outcome as [[err|]|]; simpl.
  2,3: apply send_answer_handled; [done|constructor]; by auto.
  destruct (RepublishNack options) eqn:Hrep.
  2: { destruct (RequeueNack options) eqn:Hreq; apply send_answer_handled; try done; constructor;
         [by right|by rewrite Hrep]. }
  destruct (ShouldRetryMessage (dl_headers m)) eqn:Hretry; simpl.
  2: { apply send_answer_handled; [done|]. constructor. by rewrite Hrep. }
  unfold wp, Ack, republish, bind, consume_tick, set_ready, set_holding, modify. destruct Hc as [Hc|Hc].
  - rewrite (send_answer_working _ _ _ _ Hc). simpl. destruct (ce_ack env (qw_tick w)) eqn:Hack; simpl.
    + eapply handled_answered; [done| |by simpl|simpl; by rewrite insert_insert_eq|done].
      by eapply answered_republished.
    + eapply handled_answered; [done|constructor|simpl; by rewrite app_nil_r|done|done].
  - rewrite (send_answer_orphan _ _ _ _ Hc). simpl. by apply handled_orphan.
Qed.

Lemma handle_delivery_handled c m outcome w r w' :
  qw_holding w !! c = Some (Working m) ∨ qw_holding w !! c = Some (Orphaned m) →
  handle_delivery env options c m outcome w = (r, w') → handled c m outcome w w'.
Proof.
  intros Hc Hw. pose proof (handle_delivery_spec c m outcome w Hc) as H. unfold wp in H.
  rewrite Hw in H. simpl in H. by destruct r as [[]| |].
Qed.

(** ** What all consumers have in hand *)

Definition over {A} (f : Holding → list A) (u : gmap nat Holding) : list A :=
  concat ((λ x : nat * Holding, f x.2) <$> map_to_list u).

Lemma concat_perm {A} (l l' : list (list A)) : l ≡ₚ l' → concat l ≡ₚ concat l'.
Proof. induction 1; simpl; [done|by f_equiv|solve_Permutation|by etrans]. Qed.

Lemma over_insert {A} (f : Holding → list A) u c x :
  over f (<[c := x]> u) ≡ₚ f x ++ over f (delete c u).
Proof.
  rewrite <- insert_delete_eq. unfold over.
  rewrite (concat_perm _ _ (fmap_Permutation _ _ _
    (map_to_list_insert (delete c u) c x (lookup_delete_eq _ _)))). done.
Qed.

Lemma over_delete {A} (f : Holding → list A) u c x :
  u !! c = Some x → over f u ≡ₚ f x ++ over f (delete c u).
Proof. intros Hc. rewrite <- (insert_id _ _ _ Hc) at 1. apply over_insert. Qed.

Lemma over_absent {A} (f : Holding → list A) u c x :
  u !! c = None → over f (<[c := x]> u) ≡ₚ f x ++ over f u.
Proof. intros Hc. rewrite over_insert. by rewrite delete_id. Qed.

(** A delivery whose channel is lost is no longer the consumer's. *)
Definition in_hand (x : Holding) : list Delivery :=
  match x with Working m | Answered m _ => [m] | Orphaned _ => [] end.

(** The messages that are in the queue or with a consumer. *)
Definition live (w : QueueWorld) : list Delivery := qw_ready w ++ over in_hand (qw_holding w).

Lemma deliver_live c w w' : deliver c w = Some w' → live w' ≡ₚ live w.
Proof.
  unfold deliver, live. destruct (qw_holding w !! c) eqn:Hc; [done|].
  destruct (qw_ready w) as [|m ready]; [done|]. intros [= <-]. simpl.
  rewrite (over_absent _ _ _ _ Hc). simpl. solve_Permutation.
Qed.

Lemma handled_live c m outcome w w' :
  handled c m outcome w w' →
  live w' ≡ₚ live w ∨ ∃ a added, answered m outcome a added ∧ live w' ≡ₚ added ++ live w ∧ m ∈ live w.
Proof.
  unfold live. destruct 1 as [Hc Hr Hh Hg|a added Hc Ha Hr Hh Hg]; rewrite Hr, Hh.
  - left. by rewrite (over_delete _ _ _ _ Hc).
  - right. exists a, added. split; [done|].
    rewrite over_insert, (over_delete in_hand _ _ _ Hc). simpl. split; [solve_Permutation|].
    apply elem_of_app. right. by left.
Qed.

Lemma process_answer_spec c w w' :
  process_answer c w = Some w' →
  qw_holding w' = delete c (qw_holding w) ∧ ∃ m,
    (∃ why, qw_holding w !! c = Some (Answered m (AckSent why)) ∧ qw_ready w' = qw_ready w ∧
       qw_gone w' = (dl_id m, why) :: qw_gone w ∧ live w ≡ₚ m :: live w') ∨
    (qw_holding w !! c = Some (Answered m NackSent) ∧ qw_ready w' = m :: qw_ready w ∧
       qw_gone w' = qw_gone w ∧ live w' ≡ₚ live w).
Proof.
  unfold process_answer, live. destruct (qw_holding w !! c) as [[m|m|m [why| |]]|] eqn:Hc; try done;
    intros [= <-]; simpl; (split; [done|]); exists m.
  - left. exists why. rewrite (over_delete _ _ _ _ Hc). simpl. split_and!; [done..|solve_Permutation].
  - right. rewrite (over_delete in_hand _ _ _ Hc). simpl. split_and!; [done..|solve_Permutation].
Qed.

Lemma lose_channel_spec c id w w' :
  lose_channel c w = Some (id, w') →
  qw_gone w' = qw_gone w ∧ live w' ≡ₚ live w ∧ ∃ m, id = dl_id m ∧ qw_ready w' = m :: qw_ready w ∧
    (qw_holding w !! c = Some (Working m) ∧ qw_holding w' = <[c := Orphaned m]> (qw_holding w) ∨
     ∃ a, qw_holding w !! c = Some (Answered m a) ∧ qw_holding w' = delete c (qw_holding w)).
Proof.
  unfold lose_channel, live. destruct (qw_holding w !! c) as [[m|m|m a]|] eqn:Hc; try done;
    intros [= <- <-]; simpl; (split; [done|]).
  - rewrite over_insert, (over_delete in_hand _ _ _ Hc). simpl. split; [solve_Permutation|].
    exists m. eauto.
  - rewrite (over_delete in_hand _ _ _ Hc). simpl. split; [solve_Permutation|]. exists m. eauto 10.
Qed.

(** ** Invariants *)

Definition failed_at (h : History) (id : nat) (k : Z) : Prop :=
  ∃ err, (id, k, CbReturns (Some err)) ∈ hs_calls h.

(** The header counts failures that there were. *)
Definition sound (h : History) (m : Delivery) : Prop :=
  (0 ≤ GetRetryCount (dl_headers m) ≤ MaxMessageRetries)%Z ∧
  ∀ k, (0 ≤ k < GetRetryCount (dl_headers m))%Z → failed_at h (dl_id m) k.

(** Why the broker may let go of a message. *)
Definition justified (h : History) (id : nat) (why : Farewell) : Prop :=
  match why with
  | Done => ∃ k, (id, k, CbReturns None) ∈ hs_calls h
  | Dropped =>
      if RepublishNack options then ∀ k, (0 ≤ k ≤ MaxMessageRetries)%Z → failed_at h id k
      else RequeueNack options = false ∧ ∃ k, failed_at h id k
  | Republished _ =>
      RepublishNack options = true ∧ ∃ k, (k < MaxMessageRetries)%Z ∧ failed_at h id k
  end.

(** Gone, and not because there are copies. *)
Definition final (why : Farewell) : Prop :=
  match why with Republished (S _) => False | _ => True end.

Definition keeps (id : nat) (x : Holding) : Prop :=
  match x with
  | Working m => dl_id m = id
  | Orphaned _ => False
  | Answered m (AckSent why) => dl_id m = id ∧ final why
  | Answered m _ => dl_id m = id
  end.

Definition accounted (w : QueueWorld) (id : nat) : Prop :=
  id ∈ dl_id <$> qw_ready w ∨ (∃ c x, qw_holding w !! c = Some x ∧ keeps id x) ∨
  ∃ why, (id, why) ∈ qw_gone w ∧ final why.

Record queue_ok (w : QueueWorld) (h : History) : Prop := {
  qo_live m : m ∈ live w → sound h m;
  qo_answers c m why :
    qw_holding w !! c = Some (Answered m (AckSent why)) → justified h (dl_id m) why;
  qo_gone id why : (id, why) ∈ qw_gone w → justified h id why;
  qo_accounted id : id ∈ hs_published h → accounted w id;
}.

(** More has happened. *)
Lemma sound_more h h' m : hs_calls h ⊆ hs_calls h' → sound h m → sound h' m.
Proof.
  intros Hs [H1 H2]. split; [done|]. intros k Hk. destruct (H2 k Hk) as [err Herr].
  exists err. by apply Hs.
Qed.

Lemma justified_more h h' id why : hs_calls h ⊆ hs_calls h' → justified h id why → justified h' id why.
Proof.
  intros Hs. assert (Hf : ∀ k, failed_at h id k → failed_at h' id k) by (intros k [err He]; exists err; by apply Hs).
  destruct why as [| |n]; simpl.
  - intros [k Hk]. exists k. by apply Hs.
  - destruct (RepublishNack options); [by auto|]. intros [Hr [k Hk]]. eauto.
  - intros [Hr (k & Hk & Hk')]. eauto.
Qed.

Lemma answered_justified h m outcome why added :
  sound h m → answered m outcome (AckSent why) added →
  justified (mkHistory (hs_published h)
    ((dl_id m, GetRetryCount (dl_headers m), outcome) :: hs_calls h) (hs_losses h)) (dl_id m) why.
Proof.
  intros [Hs1 Hs2]. inversion 1 as [|Ho|err Hd| |err now t Hrep Hretry]; subst; simpl.
  - exists (GetRetryCount (dl_headers m)). by left.
  - destruct (RepublishNack options).
    + intros k Hk. apply Z.ltb_ge in Hd. destruct (decide (k = GetRetryCount (dl_headers m))) as [->|Hne].
      * exists err. by left.
      * destruct (Hs2 k) as [e He]; [lia|]. exists e. by right.
    + split; [done|]. exists (GetRetryCount (dl_headers m)), err. by left.
  - split; [done|]. apply Z.ltb_lt in Hretry. exists (GetRetryCount (dl_headers m)). split; [done|].
    exists err. by left.
Qed.

Lemma GetRetryCount_retried now err m :
  (0 ≤ GetRetryCount (dl_headers m) ≤ MaxMessageRetries)%Z →
  GetRetryCount (dl_headers (retried now err m)) = (GetRetryCount (dl_headers m) + 1)%Z.
Proof.
  unfold MaxMessageRetries. intros Hm. simpl. rewrite GetRetryCount_Increment. apply to_int32_small. lia.
Qed.

Lemma answered_sound h m outcome a added m' :
  sound h m → answered m outcome a added → m' ∈ added →
  sound (mkHistory (hs_published h)
    ((dl_id m, GetRetryCount (dl_headers m), outcome) :: hs_calls h) (hs_losses h)) m'.
Proof.
  intros [Hs1 Hs2] Ha Hin.
  inversion Ha as [| | | |err now t Hrep Hretry]; subst; try by apply not_elem_of_nil in Hin.
  apply list_elem_of_In, repeat_spec in Hin as ->. apply Z.ltb_lt in Hretry.
  unfold sound. rewrite GetRetryCount_retried by done. split; [lia|]. intros k Hk.
  destruct (decide (k = GetRetryCount (dl_headers m))) as [->|Hne].
  - exists err. by left.
  - destruct (Hs2 k) as [e He]; [lia|]. exists e. by right.
Qed.

Lemma accounted_deliver c w w' id : deliver c w = Some w' → accounted w id → accounted w' id.
Proof.
  unfold deliver, accounted. destruct (qw_holding w !! c) eqn:Hc; [done|].
  destruct (qw_ready w) as [|m ready]; [done|]. intros [= <-]. simpl.
  intros [[->|Hid]%elem_of_cons|[(c' & x & Hx & Hk)|Hg]]; [| by left| |by right; right].
  - right; left. exists c, (Working m). by rewrite lookup_insert_eq.
  - right; left. exists c', x. rewrite lookup_insert_ne by congruence. done.
Qed.

Lemma answered_keeps m outcome a added :
  answered m outcome a added → keeps (dl_id m) (Answered m a) ∨ dl_id m ∈ dl_id <$> added.
Proof.
  destruct 1 as [| | | |err now t]; simpl; auto. destruct (ce_publish env t); simpl; [by left|].
  right. by left.
Qed.

Lemma accounted_handled c m outcome w w' id :
  handled c m outcome w w' → accounted w id → accounted w' id.
Proof.
  unfold accounted. destruct 1 as [Hc Hr Hh Hg|a added Hc Ha Hr Hh Hg]; rewrite Hr, Hh, Hg.
  - intros [Hid|[(c' & x & Hx & Hk)|Hgo]]; [by left| |by right; right].
    right; left. exists c', x. rewrite lookup_delete_ne; [done|]. intros ->. by simplify_eq/=.
  - rewrite fmap_app, elem_of_app. intros [Hid|[(c' & x & Hx & Hk)|Hgo]]; [by auto| |by auto].
    destruct (decide (c' = c)) as [->|Hne].
    + simplify_eq/=. destruct (answered_keeps _ _ _ _ Ha) as [Hk'|Hk']; [|by auto].
      right; left. exists c, (Answered m a). by rewrite lookup_insert_eq.
    + right; left. exists c', x. by rewrite lookup_insert_ne.
Qed.

Lemma accounted_process c w w' id : process_answer c w = Some w' → accounted w id → accounted w' id.
Proof.
  intros (Hh & m & Hm)%process_answer_spec. unfold accounted. rewrite Hh.
  intros [Hid|[(c' & x & Hx & Hk)|(why & Hg & Hf)]].
  - left. destruct Hm as [(why & _ & -> & _)|(_ & -> & _)]; [done|by right].
  - destruct (decide (c' = c)) as [->|Hne].
    + destruct Hm as [(why & Hc & _ & Hg & _)|(Hc & Hr & _)]; rewrite Hc in Hx; simplify_eq/=.
      * right; right. exists why. rewrite Hg. destruct Hk as [-> Hk]. split; [by left|done].
      * left. rewrite Hr. by left.
    + right; left. exists c', x. by rewrite lookup_delete_ne.
  - right; right. exists why.
    destruct Hm as [(why' & _ & _ & -> & _)|(_ & _ & -> & _)]; [|done]. split; [by right|done].
Qed.

Lemma accounted_lose c id' w w' id :
  lose_channel c w = Some (id', w') → accounted w id → accounted w' id.
Proof.
  intros (Hg & _ & m & _ & Hr & Hm)%lose_channel_spec. unfold accounted. rewrite Hg, Hr.
  intros [Hid|[(c' & x & Hx & Hk)|Hgo]]; [left; by right| |by right; right].
  destruct (decide (c' = c)) as [->|Hne].
  - left. assert (Hid : dl_id m = id); [|rewrite <- Hid; by left].
    destruct Hm as [[Hc _]|(a & Hc & _)]; rewrite Hc in Hx; simplify_eq/=; [done|].
    by destruct a; [destruct Hk|..].
  - right; left. exists c', x. destruct Hm as [[_ ->]|(a & _ & ->)];
      [by rewrite lookup_insert_ne|by rewrite lookup_delete_ne].
Qed.

(** What a step changes of the answers that are under way. *)
Lemma deliver_answers c w w' c' m a :
  deliver c w = Some w' → qw_gone w' = qw_gone w ∧
  (qw_holding w' !! c' = Some (Answered m a) → qw_holding w !! c' = Some (Answered m a)).
Proof.
  unfold deliver. destruct (qw_holding w !! c) eqn:Hc; [done|].
  destruct (qw_ready w) as [|m' ready]; [done|]. intros [= <-]. simpl. split; [done|].
  by intros [[_ ?]|[_ ?]]%lookup_insert_Some.
Qed.

Lemma queue_ok_handled c m outcome w w' h :
  handled c m outcome w w' → queue_ok w h →
  queue_ok w' (mkHistory (hs_published h)
    ((dl_id m, GetRetryCount (dl_headers m), outcome) :: hs_calls h) (hs_losses h)).
Proof.
  intros Hh [H1 H2 H3 H4].
  assert (Hmore : hs_calls h ⊆ (dl_id m, GetRetryCount (dl_headers m), outcome) :: hs_calls h)
    by (intros x; by right).
  assert (Hg : qw_gone w' = qw_gone w) by by destruct Hh.
  assert (Hold : ∀ c' m' why, qw_holding w !! c' = Some (Answered m' (AckSent why)) →
    justified (mkHistory (hs_published h)
      ((dl_id m, GetRetryCount (dl_headers m), outcome) :: hs_calls h) (hs_losses h)) (dl_id m') why).
  { intros c' m' why Hc'. by eapply justified_more, H2. }
  split; simpl.
  - intros m' Hm'. destruct (handled_live _ _ _ _ _ Hh) as [Hl|(a & added & Ha & Hl & Hin)];
      rewrite Hl in Hm'; [by eapply sound_more, H1|].
    apply elem_of_app in Hm' as [Hm'|Hm']; [|by eapply sound_more, H1].
    by eapply answered_sound; [apply H1| |].
  - intros c' m' why. destruct Hh as [Hc Hr Hh Hg'|a added Hc Ha Hr Hh Hg']; rewrite Hh.
    + intros [_ Hc']%lookup_delete_Some. by eapply Hold.
    + intros [[_ Heq]|[_ Hc']]%lookup_insert_Some; [|by eapply Hold]. simplify_eq.
      eapply answered_justified; [|done]. apply H1. unfold live. apply elem_of_app. right.
      rewrite (over_delete _ _ _ _ Hc). by left.
  - rewrite Hg. intros id why Hid. by eapply justified_more, H3.
  - intros id Hid. by eapply accounted_handled, H4.
Qed.

Lemma queue_ok_enqueue w published calls losses m :
  dl_headers m = ∅ → queue_ok w (mkHistory published calls losses) →
  queue_ok (enqueue m w) (mkHistory (dl_id m :: published) calls losses).
Proof.
  intros Hm [H1 H2 H3 H4].
  assert (Hl : live (enqueue m w) ≡ₚ m :: live w) by (unfold live; simpl; solve_Permutation).
  split; simpl; [|done|done|].
  - intros m'. rewrite Hl. intros [->|Hm']%elem_of_cons; [|by apply H1].
    unfold sound. rewrite Hm. assert (GetRetryCount ∅ = 0%Z) as -> by done.
    unfold MaxMessageRetries. split; [lia|]. intros k Hk. lia.
  - unfold accounted. simpl. rewrite fmap_app. intros id [->|Hid]%elem_of_cons.
    + left. apply elem_of_app. right. by left.
    + destruct (H4 id Hid) as [?|?]; [|by right]. left. apply elem_of_app. by left.
Qed.

Lemma queue_ok_deliver c w w' h : deliver c w = Some w' → queue_ok w h → queue_ok w' h.
Proof.
  intros Hd [H1 H2 H3 H4]. split.
  - intros m. rewrite (deliver_live _ _ _ Hd). apply H1.
  - intros c' m why Hc'. by eapply H2, deliver_answers.
  - destruct (deliver_answers _ _ _ c (mkDelivery 0 ∅) NackSent Hd) as [-> _]. apply H3.
  - intros id Hid. by eapply accounted_deliver, H4.
Qed.

Lemma queue_ok_process c w w' h : process_answer c w = Some w' → queue_ok w h → queue_ok w' h.
Proof.
  intros Hp [H1 H2 H3 H4]. pose proof (process_answer_spec _ _ _ Hp) as (Hh & m & Hm). split.
  - intros m' Hm'. apply H1. destruct Hm as [(why & _ & _ & _ & ->)|(_ & _ & _ & <-)]; [by right|done].
  - rewrite Hh. intros c' m' why [_ Hc']%lookup_delete_Some. by eapply H2.
  - intros id why Hid. destruct Hm as [(why' & Hc & _ & Hg & _)|(_ & _ & Hg & _)]; rewrite Hg in Hid;
      [|by apply H3].
    apply elem_of_cons in Hid as [[= -> ->]|Hid]; [by eapply H2|by apply H3].
  - intros id Hid. by eapply accounted_process, H4.
Qed.

Lemma queue_ok_lose c id w w' published calls losses losses' :
  lose_channel c w = Some (id, w') → queue_ok w (mkHistory published calls losses) →
  queue_ok w' (mkHistory published calls losses').
Proof.
  intros Hl [H1 H2 H3 H4]. pose proof (lose_channel_spec _ _ _ _ Hl) as (Hg & Hlv & m & _ & _ & Hm).
  split.
  - intros m'. rewrite Hlv. apply H1.
  - intros c' m' why Hc'. apply (H2 c'). destruct Hm as [[_ Hh]|(a & _ & Hh)]; rewrite Hh in Hc'.
    + by apply lookup_insert_Some in Hc' as [[_ ?]|[_ ?]].
    + by apply lookup_delete_Some in Hc' as [_ ?].
  - rewrite Hg. apply H3.
  - intros id' Hid. by eapply accounted_lose, H4.
Qed.

Lemma queue_step_ok σ σ' :
  queue_step env options σ σ' → queue_ok σ.1 σ.2 → queue_ok σ'.1 σ'.2.
Proof.
  destruct 1 as [w published calls losses m Hm Hn|w w' h c Hd|w w' published calls losses c m outcome r Hc Hw
    |w w' h c Hp|w w' published calls losses c id Hl]; simpl.
  - by apply queue_ok_enqueue.
  - by eapply queue_ok_deliver.
  - eapply (queue_ok_handled c m outcome w w' (mkHistory published calls losses)).
    by eapply handle_delivery_handled.
  - by eapply queue_ok_process.
  - by eapply queue_ok_lose.
Qed.

Lemma queue_reachable_ind (P : QueueWorld → History → Prop) w h :
  P empty_queue empty_history →
  (∀ σ σ', queue_step env options σ σ' → queue_ok σ.1 σ.2 → P σ.1 σ.2 → P σ'.1 σ'.2) →
  queue_reachable env options (w, h) → queue_ok w h ∧ P w h.
Proof.
  intros H0 Hstep. change (queue_reachable env options (w, h) →
    queue_ok (w, h).1 (w, h).2 ∧ P (w, h).1 (w, h).2).
  intros Hr. unfold queue_reachable in Hr.
  refine (rtc_ind_r (λ σ, queue_ok σ.1 σ.2 ∧ P σ.1 σ.2) _ _ _ _ Hr).
  - split; [|done]. split; simpl.
    + intros m Hm. by apply not_elem_of_nil in Hm.
    + intros c m why Hc. by rewrite lookup_empty in Hc.
    + intros id why Hid. by apply not_elem_of_nil in Hid.
    + intros id Hid. by apply not_elem_of_nil in Hid.
  - intros σ1 σ2 _ Hs [Hok HP]. split; [by eapply queue_step_ok|by eapply Hstep].
Qed.

(** Without republication, each message is in one place. *)
Definition places (w : QueueWorld) : list nat := (dl_id <$> live w) ++ (qw_gone w).*1.

Lemma one_place σ σ' :
  RepublishNack options = false → queue_step env options σ σ' →
  NoDup (hs_published σ.2) ∧ hs_published σ.2 ≡ₚ places σ.1 →
  NoDup (hs_published σ'.2) ∧ hs_published σ'.2 ≡ₚ places σ'.1.
Proof.
  intros Hrep. unfold places.
  destruct 1 as [w published calls losses m Hm Hn|w w' h c Hd|w w' published calls losses c m outcome r Hc Hw
    |w w' h c Hp|w w' published calls losses c id Hl]; simpl; intros [Hnd Hpl].
  - split; [by constructor|]. rewrite Hpl. unfold live. simpl. rewrite !fmap_app. simpl. solve_Permutation.
  - rewrite (deliver_live _ _ _ Hd). destruct (deliver_answers _ _ _ c (mkDelivery 0 ∅) NackSent Hd) as [-> _].
    done.
  - split; [done|]. apply handle_delivery_handled in Hw; [|done].
    assert (Hg : qw_gone w' = qw_gone w) by by destruct Hw.
    destruct (handled_live _ _ _ _ _ Hw) as [->|(a & added & Ha & -> & _)]; rewrite Hg; [done|].
    destruct Ha; try done. congruence.
  - split; [done|]. rewrite Hpl.
    destruct (process_answer_spec _ _ _ Hp) as (_ & m & [(why & _ & _ & -> & ->)|(_ & _ & -> & ->)]);
      simpl; [solve_Permutation|done].
  - split; [done|]. destruct (lose_channel_spec _ _ _ _ Hl) as (-> & -> & _). done.
Qed.

(** ** How often a callback may fail *)

(** A delivery of which [j] failures are left, when every publication brings
    at most [copies] copies. *)
Fixpoint calls_left (copies j : nat) : nat :=
  match j with
  | O => O
  | S j => S (copies * calls_left copies j)
  end.

Definition is_failure (id : nat) (x : nat * Z * CallbackOutcome) : bool :=
  (x.1.1 =? id) && match x.2 with CbReturns (Some _) => true | _ => false end.
Definition failures (id : nat) (h : History) : nat :=
  length (List.filter (is_failure id) (hs_calls h)).
Definition losses (id : nat) (h : History) : nat :=
  length (List.filter (Nat.eqb id) (hs_losses h)).

Lemma calls_left_le copies j k : j ≤ k → calls_left copies j ≤ calls_left copies k.
Proof. revert k. induction j as [|j IH]; intros [|k] Hjk; simpl; [lia..|]. specialize (IH k). nia. Qed.

#[local] Instance sum_list_perm : Proper ((≡ₚ) ==> eq) sum_list.
Proof. induction 1; simpl; lia. Qed.

Lemma sum_list_append l l' : sum_list (l ++ l') = sum_list l + sum_list l'.
Proof. induction l; simpl; lia. Qed.

Section points.
Context (copies id : nat) (Hcopies : ∀ n, ce_publish env n ≤ copies).

Definition weight (m : Delivery) : nat :=
  if decide (dl_id m = id)
  then calls_left copies (Z.to_nat (MaxMessageRetries + 1 - GetRetryCount (dl_headers m))) else 0.

#[local] Arguments weight : simpl never.

Definition holding_weight (x : Holding) : nat :=
  match x with
  | Working m | Answered m NackSent => weight m
  | Orphaned m => if decide (dl_id m = id) then 1 else 0
  | Answered _ _ => 0
  end.

Definition points (w : QueueWorld) : nat :=
  sum_list (weight <$> qw_ready w) + sum_list (over (λ x, [holding_weight x]) (qw_holding w)).

Lemma weight_bound m :
  (0 ≤ GetRetryCount (dl_headers m))%Z → weight m ≤ if decide (dl_id m = id) then calls_left copies 6 else 0.
Proof.
  intros Hm. unfold weight, MaxMessageRetries. destruct (decide _); [|done]. apply calls_left_le. lia.
Qed.

Lemma weight_retried now err m :
  (0 ≤ GetRetryCount (dl_headers m) < MaxMessageRetries)%Z →
  weight m = (if decide (dl_id m = id) then 1 else 0) + copies * weight (retried now err m).
Proof.
  intros Hm. unfold weight. rewrite GetRetryCount_retried by lia. unfold MaxMessageRetries in *. simpl dl_id.
  destruct (decide (dl_id m = id)); [|lia].
  replace (Z.to_nat (5 + 1 - GetRetryCount (dl_headers m)))
    with (S (Z.to_nat (5 + 1 - (GetRetryCount (dl_headers m) + 1)))) by lia. done.
Qed.

Lemma weight_positive m :
  (GetRetryCount (dl_headers m) ≤ MaxMessageRetries)%Z →
  (if decide (dl_id m = id) then 1 else 0) ≤ weight m.
Proof.
  intros Hm. unfold weight. destruct (decide _); [|lia].
  destruct (Z.to_nat _) eqn:Hz; simpl; lia.
Qed.

Lemma failures_cons m outcome published calls ls k :
  failures id (mkHistory published ((dl_id m, k, outcome) :: calls) ls) =
  (match outcome with CbReturns (Some _) => if decide (dl_id m = id) then 1 else 0 | _ => 0 end) +
  failures id (mkHistory published calls ls).
Proof.
  unfold failures. simpl. unfold is_failure at 1. simpl.
  destruct (Nat.eqb_spec (dl_id m) id), outcome as [[err|]|]; simpl; try rewrite decide_True by done;
    try rewrite decide_False by done; done.
Qed.

Lemma sum_list_repeat m n : sum_list (weight <$> repeat m n) = n * weight m.
Proof. induction n as [|n IH]; [done|]. cbn [repeat fmap list_fmap sum_list Nat.mul]. by rewrite IH. Qed.

(** A failure costs a point. *)
Lemma answered_points m outcome a added :
  (0 ≤ GetRetryCount (dl_headers m) ≤ MaxMessageRetries)%Z → RepublishNack options = true →
  answered m outcome a added →
  match outcome with CbReturns (Some _) => if decide (dl_id m = id) then 1 else 0 | _ => 0 end +
    sum_list (weight <$> added) + holding_weight (Answered m a) ≤ weight m.
Proof.
  intros Hm Hrep. pose proof (weight_positive m (proj2 Hm)) as Hpos.
  destruct 1 as [outcome| |err Hd|outcome Ho|err now t Hr Hretry]; simpl; try lia.
  - destruct outcome as [[err|]|]; lia.
  - destruct outcome as [[err|]|]; [|lia..]. destruct Ho as [Ho|[Ho _]]; congruence.
  - apply Z.ltb_lt in Hretry. rewrite (weight_retried now err m) by lia.
    rewrite sum_list_repeat. specialize (Hcopies t). nia.
Qed.

Definition bounded (w : QueueWorld) (h : History) : Prop :=
  failures id h + points w ≤
    calls_left copies 6 * ((if decide (id ∈ hs_published h) then 1 else 0) + losses id h).

Lemma weight_cons m l : sum_list (weight <$> m :: l) = weight m + sum_list (weight <$> l).
Proof. done. Qed.

Lemma points_ready w m ready :
  qw_ready w = m :: ready →
  points w = weight m + points (mkQueueWorld ready (qw_holding w) (qw_gone w) (qw_tick w)).
Proof. intros Hr. unfold points. rewrite Hr, weight_cons. cbn [qw_ready qw_holding]. lia. Qed.

Lemma weights_delete w w' c x :
  qw_holding w !! c = Some x → qw_holding w' = delete c (qw_holding w) →
  points w + sum_list (weight <$> qw_ready w') =
    points w' + holding_weight x + sum_list (weight <$> qw_ready w).
Proof.
  intros Hc Hh. unfold points. rewrite Hh, (over_delete _ _ _ _ Hc), sum_list_append. simpl. lia.
Qed.

Lemma weights_change w w' c x x' :
  qw_holding w !! c = Some x → qw_holding w' = <[c := x']> (qw_holding w) →
  points w + sum_list (weight <$> qw_ready w') + holding_weight x' =
    points w' + holding_weight x + sum_list (weight <$> qw_ready w).
Proof.
  intros Hc Hh. unfold points.
  rewrite Hh, over_insert, (over_delete _ (qw_holding w) _ _ Hc), !sum_list_append. simpl. lia.
Qed.

Lemma points_deliver c w w' : deliver c w = Some w' → points w' = points w.
Proof.
  unfold deliver. destruct (qw_holding w !! c) eqn:Hc; [done|].
  destruct (qw_ready w) as [|m ready] eqn:Hr; [done|]. intros [= <-].
  rewrite (points_ready _ _ _ Hr). unfold points. simpl.
  rewrite (over_absent _ _ _ _ Hc), sum_list_append. simpl. lia.
Qed.

Lemma points_process c w w' : process_answer c w = Some w' → points w' ≤ points w.
Proof.
  intros (Hh & m & Hm)%process_answer_spec.
  destruct Hm as [(why & Hc & Hr & _)|(Hc & Hr & _)];
    pose proof (weights_delete _ _ _ _ Hc Hh) as Hp; rewrite Hr, ?weight_cons in Hp;
    cbn [holding_weight] in Hp; lia.
Qed.

Lemma points_handled c m outcome w w' h :
  RepublishNack options = true → queue_ok w h → handled c m outcome w w' →
  match outcome with CbReturns (Some _) => if decide (dl_id m = id) then 1 else 0 | _ => 0 end +
    points w' ≤ points w.
Proof.
  intros Hrep Hok. destruct 1 as [Hc Hr Hh _|a added Hc Ha Hr Hh _].
  - pose proof (weights_delete _ _ _ _ Hc Hh) as Hp. rewrite Hr in Hp. cbn [holding_weight] in Hp.
    destruct outcome as [[err|]|]; lia.
  - pose proof (weights_change _ _ _ _ _ Hc Hh) as Hp. rewrite Hr, fmap_app, sum_list_append in Hp.
    assert (Hs : sound h m).
    { apply (qo_live _ _ Hok). unfold live. apply elem_of_app. right.
      rewrite (over_delete _ _ _ _ Hc). by left. }
    pose proof (answered_points m outcome a added (proj1 Hs) Hrep Ha) as Hq.
    change (holding_weight (Working m)) with (weight m) in Hp. lia.
Qed.

Lemma points_lose c id' w w' h :
  queue_ok w h → lose_channel c w = Some (id', w') →
  points w' ≤ points w + if decide (id = id') then calls_left copies 6 else 0.
Proof.
  intros Hok (_ & Hl & m & -> & Hr & Hm)%lose_channel_spec.
  assert (Hs : sound h m).
  { apply (qo_live _ _ Hok). rewrite <- Hl. unfold live. rewrite Hr. by left. }
  pose proof (weight_bound m (proj1 (proj1 Hs))) as Hw. pose proof (weight_positive m (proj2 (proj1 Hs))) as Hpos.
  assert (Hid : (if decide (id = dl_id m) then calls_left copies 6 else 0) =
    if decide (dl_id m = id) then calls_left copies 6 else 0) by (repeat case_decide; congruence).
  rewrite Hid. destruct Hm as [[Hc Hh]|(a & Hc & Hh)].
  - pose proof (weights_change _ _ _ _ _ Hc Hh) as Hp. rewrite Hr, weight_cons in Hp. cbn [holding_weight] in Hp.
    destruct (decide (dl_id m = id)); lia.
  - pose proof (weights_delete _ _ _ _ Hc Hh) as Hp. rewrite Hr, weight_cons in Hp. lia.
Qed.

Lemma bounded_step σ σ' :
  RepublishNack options = true → queue_step env options σ σ' → queue_ok σ.1 σ.2 →
  bounded σ.1 σ.2 → bounded σ'.1 σ'.2.
Proof.
  unfold bounded. intros Hrep.
  destruct 1 as [w published calls ls m Hm Hn|w w' h c Hd|w w' published calls ls c m outcome r Hc Hw
    |w w' h c Hp|w w' published calls ls c id' Hl]; simpl; intros Hok Hb.
  - assert (Hpts : points (enqueue m w) = points w + weight m).
    { unfold points. cbn [enqueue qw_ready qw_holding]. rewrite fmap_app, sum_list_append, weight_cons. simpl. lia. }
    pose proof (weight_bound m) as Hw. rewrite Hm in Hw. specialize (Hw (Z.le_refl 0)).
    rewrite Hpts. unfold failures, losses in *. simpl in *.
    destruct (decide (dl_id m = id)) as [<-|Hne].
    + rewrite decide_False in Hb by done. rewrite decide_True by (by left). lia.
    + assert (Hd : (if decide (id ∈ dl_id m :: published) then 1 else 0) =
        if decide (id ∈ published) then 1 else 0).
      { apply decide_ext. split; [by intros [?|?]%elem_of_cons; [congruence|]|by right]. }
      rewrite Hd. lia.
  - by rewrite (points_deliver _ _ _ Hd).
  - apply handle_delivery_handled in Hw; [|done]. rewrite failures_cons.
    pose proof (points_handled _ _ _ _ _ _ Hrep Hok Hw) as Hp.
    unfold failures, losses in *. simpl in *. lia.
  - pose proof (points_process _ _ _ Hp). lia.
  - pose proof (points_lose _ _ _ _ _ Hok Hl) as Hp. unfold failures, losses in *. simpl in *.
    destruct (Nat.eqb_spec id id'), (decide (id = id')); try done; simpl; lia.
Qed.
End points.
End specs.

(** C32: every message ever put into a queue is in the queue, with a consumer,
    or the broker has let it go, and that only because its callback returned
    nil; because it was given up, with republication after a failure at each
    count up to the maximum, without it after a failure when the options say
    neither to requeue; or, with republication only, because none of the
    attempts to publish it again reached the queue.  So it is whatever the
    options, however many consumers there are, whatever callbacks do and
    whichever acks, nacks, publications and channels fail.  Without
    republication it is in one of these places only. *)
Theorem no_message_lost env options w h :
  queue_reachable env options (w, h) →
  (∀ id, id ∈ hs_published h →
     id ∈ dl_id <$> live w ∨ (id, Done) ∈ qw_gone w ∨ (id, Dropped) ∈ qw_gone w ∨
     (id, Republished 0) ∈ qw_gone w) ∧
  (∀ id why, (id, why) ∈ qw_gone w →
     match why with
     | Done => ∃ k, (id, k, CbReturns None) ∈ hs_calls h
     | Dropped =>
         if RepublishNack options then ∀ k, (0 ≤ k ≤ 5)%Z → failed_at h id k
         else RequeueNack options = false ∧ ∃ k, failed_at h id k
     | Republished _ => RepublishNack options = true ∧ ∃ k, (k < 5)%Z ∧ failed_at h id k
     end) ∧
  (RepublishNack options = false →
     NoDup (hs_published h) ∧ hs_published h ≡ₚ (dl_id <$> live w) ++ (qw_gone w).*1).
Proof.
  intros Hr.
  destruct (queue_reachable_ind env options (λ w h, RepublishNack options = false →
    NoDup (hs_published h) ∧ hs_published h ≡ₚ places w) w h) as [[H1 H2 H3 H4] H5];
    [|by eauto using one_place|done|].
  { intros _. split; [constructor|done]. }
  split_and!; [|exact H3|done].
  intros id [Hid|[(c & x & Hx & Hk)|(why & Hg & Hf)]]%H4.
  - left. unfold live. rewrite fmap_app. apply elem_of_app. by left.
  - left. unfold live. rewrite (over_delete _ _ _ _ Hx), !fmap_app.
    destruct x as [m|m|m [why| |]]; simpl in *; try done; subst; try destruct Hk as [<- _];
      rewrite !elem_of_app, elem_of_cons; auto.
  - right. destruct why as [| |[|n]]; by auto.
Qed.

(** C33: with republication the header of every delivery counts from 0 to 5,
    and its callback has failed at each smaller count; a message that is given
    up has failed at each count from 0 to 5.  When a publication brings at most
    so many copies into the queue, the failures that the loop learns of in time
    are bounded: with one copy by six, and six more for each channel that is
    lost while it holds the message, whose ack or nack is then void.  (Calls
    that overrun their time are not counted, by the code neither.) *)
Theorem retries_are_bounded env options copies w h :
  RepublishNack options = true → (∀ n, ce_publish env n ≤ copies) →
  queue_reachable env options (w, h) →
  (∀ m, m ∈ live w → (0 ≤ GetRetryCount (dl_headers m) ≤ 5)%Z ∧
     ∀ k, (0 ≤ k < GetRetryCount (dl_headers m))%Z → failed_at h (dl_id m) k) ∧
  (∀ id, (id, Dropped) ∈ qw_gone w → ∀ k, (0 ≤ k ≤ 5)%Z → failed_at h id k) ∧
  (∀ id, failures id h ≤ calls_left copies 6 * (1 + losses id h)).
Proof.
  intros Hrep Hc Hr. split_and!.
  - destruct (queue_reachable_ind env options (λ _ _, True) w h) as [Hok _]; [done..|].
    intros m Hm. exact (qo_live _ _ _ Hok m Hm).
  - destruct (queue_reachable_ind env options (λ _ _, True) w h) as [Hok _]; [done..|].
    intros id Hid. pose proof (qo_gone _ _ _ Hok id _ Hid) as Hj. simpl in Hj. by rewrite Hrep in Hj.
  - intros id. destruct (queue_reachable_ind env options (bounded copies id) w h) as [_ Hb];
      [|by eauto using bounded_step|done|].
    { change (0 ≤ calls_left copies 6 * ((if decide (id ∈ @nil nat) then 1 else 0) + 0)). lia. }
    unfold bounded in Hb. destruct (decide (id ∈ hs_published h)); nia.
Qed.

(** ** Runs *)

(** Everything the client asks of the broker succeeds, and so many copies of a
    republication reach the queue. *)
Definition good_broker (copies : nat) : ConsumeEnv :=
  mkConsumeEnv (λ _, true) (λ _, copies) (λ _, 0%Z).

Definition by_default : ConsumeOptions := consume_options None.
Definition republishing : ConsumeOptions := mkConsumeOptions true true 0.

(** What a run may consist of, besides the arrival of messages. *)
Inductive Move := MDeliver (c : nat) | MReturn (c : nat) (outcome : CallbackOutcome) | MProcess (c : nat)
  | MLose (c : nat).

Definition move env options (a : Move) (σ : QueueWorld * History) : option (QueueWorld * History) :=
  let '(w, h) := σ in
  match a with
  | MDeliver c => (λ w', (w', h)) <$> deliver c w
  | MReturn c outcome =>
      match qw_holding w !! c with
      | Some (Working m) | Some (Orphaned m) =>
          Some ((handle_delivery env options c m outcome w).2,
            mkHistory (hs_published h)
              ((dl_id m, GetRetryCount (dl_headers m), outcome) :: hs_calls h) (hs_losses h))
      | _ => None
      end
  | MProcess c => (λ w', (w', h)) <$> process_answer c w
  | MLose c =>
      (λ r, (r.2, mkHistory (hs_published h) (hs_calls h) (r.1 :: hs_losses h))) <$> lose_channel c w
  end.

Definition moves env options (l : list Move) (σ : QueueWorld * History) : option (QueueWorld * History) :=
  foldl (λ r a, r ≫= move env options a) (Some σ) l.

Lemma queue_move env options a σ σ' :
  move env options a σ = Some σ' → queue_step env options σ σ'.
Proof.
  destruct σ as [w [published calls ls]], a as [c|c outcome|c|c]; simpl.
  - intros (w' & Hw & ->)%fmap_Some. by eapply step_deliver.
  - destruct (qw_holding w !! c) as [[m|m|m a]|] eqn:Hc; try done;
      destruct (handle_delivery env options c m outcome w) as [r w'] eqn:Hw; intros [= <-];
      eapply step_handle; eauto.
  - intros (w' & Hw & ->)%fmap_Some. by eapply step_process.
  - intros ([id w'] & Hw & ->)%fmap_Some. by eapply step_lose.
Qed.

Lemma queue_moves_reachable env options l σ σ' :
  queue_reachable env options σ → moves env options l σ = Some σ' →
  queue_reachable env options σ'.
Proof.
  revert σ. unfold moves. induction l as [|a l IH]; intros σ Hr; simpl; [by intros [= <-]|].
  destruct (move env options a σ) as [σ1|] eqn:Ha; simpl.
  - apply IH. eapply rtc_r; [exact Hr|by eapply queue_move].
  - assert (Hn : foldl (λ r a, r ≫= move env options a) None l = None) by (clear; by induction l).
    by rewrite Hn.
Qed.

Definition message : Delivery := mkDelivery 1 ∅.
Definition one_message : QueueWorld * History := (enqueue message empty_queue, mkHistory [1] [] []).

Lemma one_message_reachable env options : queue_reachable env options one_message.
Proof.
  apply rtc_once, (step_enqueue _ _ empty_queue [] [] [] message); [done|]. apply not_elem_of_nil.
Qed.

Definition after_moves env options (l : list Move) : QueueWorld * History :=
  default one_message (moves env options l one_message).

(** The callback returns nil, and the channel is lost before the broker has
    seen the ack: the message is delivered again, to another consumer. *)
Definition acked_in_vain : list Move :=
  [MDeliver 0; MReturn 0 (CbReturns None); MLose 0; MDeliver 1; MReturn 1 (CbReturns None); MProcess 1].

Lemma no_message_lost_witness :
  let σ := after_moves (good_broker 1) by_default acked_in_vain in
  qw_gone σ.1 = [(1, Done)] ∧ hs_calls σ.2 = [(1, 0%Z, CbReturns None); (1, 0%Z, CbReturns None)] ∧
  hs_published σ.2 ≡ₚ (dl_id <$> live σ.1) ++ (qw_gone σ.1).*1.
Proof.
  split; [by vm_compute|]. split; [by vm_compute|].
  refine (proj2 (proj2 (proj2 (no_message_lost (good_broker 1) by_default _ _ _)) eq_refl)).
  rewrite <- surjective_pairing. unfold after_moves.
  destruct (moves (good_broker 1) by_default acked_in_vain one_message) as [σ|] eqn:Hm; simpl.
  - eapply queue_moves_reachable; [apply one_message_reachable|exact Hm].
  - apply one_message_reachable.
Defined.

Definition fails_once : list Move := [MDeliver 0; MReturn 0 (CbReturns (Some "boom")); MProcess 0].

(** A callback that always fails is called six times. *)
Definition failing : list Move := concat (repeat fails_once 6).

Lemma retries_are_bounded_witness :
  let σ := after_moves (good_broker 1) republishing failing in
  (1, Dropped) ∈ qw_gone σ.1 ∧ failures 1 σ.2 = 6 ∧ failures 1 σ.2 ≤ calls_left 1 6 * (1 + losses 1 σ.2).
Proof.
  split; [vm_compute; by left|]. split; [by vm_compute|].
  refine (proj2 (proj2 (retries_are_bounded (good_broker 1) republishing 1 _ _ eq_refl _ _)) 1);
    [by intros|].
  rewrite <- surjective_pairing. unfold after_moves.
  destruct (moves (good_broker 1) republishing failing one_message) as [σ|] eqn:Hm; simpl.
  - eapply queue_moves_reachable; [apply one_message_reachable|exact Hm].
  - apply one_message_reachable.
Defined.

(** The republication goes to an exchange that is named like the queue; when
    there is none, the first failure loses the message. *)
Example republished_nowhere :
  let w := (after_moves (good_broker 0) republishing fails_once).1 in
  qw_gone w = [(1, Republished 0)] ∧ live w = [].
Proof. by vm_compute. Qed.

(** With the channel lost before the broker has seen the ack, the message is
    in the queue twice. *)
Example republished_twice :
  let w := (after_moves (good_broker 1) republishing
    [MDeliver 0; MReturn 0 (CbReturns (Some "boom")); MLose 0]).1 in
  (GetRetryCount ∘ dl_headers) <$> live w = [0%Z; 1%Z].
Proof. by vm_compute. Qed.
