(* ===== verification/MqLoop.v ===== *)
(** * The life of a consumer

    The goroutine that [ConsumeQueueWithOptionsAsync] of
    [pkg/mq/common/helpers.go] starts: it takes a channel from the pool, starts
    a goroutine that reads the deliveries (what becomes of each is in
    MqConsume.v), waits for it to end, gives the channel back and begins again.
    The wait is limited, to the time of one callback and ten seconds; the limit
    counts from the start of the reading, not from its end. *)

From S2P Require Import Prelude GoMonad MqErrors MqPool MqPublish MqConsume.
#[local] Open Scope go_scope.

(** ** The reading goroutine *)

(** What its [select] finds.  A callback is known by how long it takes. *)
Inductive ReaderEvent :=
  | ContextDone
  | ChannelLost
  | CancelledByServer
  | Reconnected
  | Message (duration : Z)
  | MessagesClosed.

Section reader.
Context (options : option ConsumeOptions).

(** The callback is awaited for [callbackTimeout]; it goes on by itself. *)
Definition awaited (duration : Z) : Z := Z.min duration (callbackTimeout (consume_options options)).

Definition overtime (duration : Z) : bool :=
  (callbackTimeout (consume_options options) <=? duration)%Z.

(** After how long the loop ends, given how long it waits for each event;
    [None]: not with these events. *)
Fixpoint read_loop (events : list (Z * ReaderEvent)) : option Z :=
  match events with
  | [] => None
  | (wait, Message duration) :: events => (Z.add (wait + awaited duration)) <$> read_loop events
  | (wait, _) :: _ => Some wait
  end.

End reader.

(** [safeChannelCancel]: what [ch.Cancel] returns is its answer, [None] a
    panic, which is recovered from. *)
Definition safeChannelCancel (is_nil is_closed : bool) (cancel : option (option string)) : option string :=
  if is_nil then Some "channel is nil"
  else if is_closed then None
  else match cancel with Some r => r | None => None end.

(** What the goroutine does about its consumer on its way out; on the ways not
    named the broker has no such consumer any more. *)
Definition leave_reader (ev : ReaderEvent) (is_closed : bool) (cancel : option (option string)) : option string :=
  match ev with
  | ContextDone | Reconnected => safeChannelCancel false is_closed cancel
  | _ => None
  end.

(** ** The outer loop *)

Record Reader := mkReader {
  rd_channel : nat;
  rd_until : option Z;      (* when its loop ends *)
}.

Record LoopWorld := mkLoopWorld {
  lw_pool : PoolWorld;
  lw_readers : list Reader; (* all that were started *)
  lw_turn : nat;
}.

Inductive Wake := WakeDone | WakeReconnect | WakeDefault.

(** The answers of a turn. *)
Record LoopEnv := mkLoopEnv {
  le_pool : PoolEnv;
  le_wake : nat → Wake;
  le_closed : nat → gset nat;          (* channels that close meanwhile *)
  le_qos : nat → bool;
  le_consume : nat → bool;
  le_signal : nat → option Z;          (* when the next reconnection comes *)
  le_events : nat → list (Z * ReaderEvent);
}.

Definition five_seconds : Z := 5000000000.
Definition ten_seconds : Z := 10000000000.
Definition two_seconds : Z := 2000000000.

Section loop.
Context (env : LoopEnv) (options : option ConsumeOptions).
#[local] Notation Go := (M LoopWorld).

Definition in_pool {A} (m : M PoolWorld A) : Go A := λ w,
  let '(r, p) := m (lw_pool w) in (r, mkLoopWorld p (lw_readers w) (lw_turn w)).

Definition pause (ns : Z) : Go unit := in_pool (mq_sleep ns).

(** The time since the loop began: all it has waited for. *)
Definition now (w : LoopWorld) : Z := total (pw_sleeps (lw_pool w)).

Definition next_turn : Go nat := λ w,
  (Ret (lw_turn w), mkLoopWorld (lw_pool w) (lw_readers w) (S (lw_turn w))).

(** Channels close by themselves: when the connection is lost, and when the
    broker answers with an error. *)
Definition meanwhile (n : nat) : Go unit :=
  in_pool (modify (λ p, mkPoolWorld (pw_pool p) (pw_open p ∖ le_closed env n) (pw_next p)
    (pw_publishers p) (pw_sent p) (pw_sleeps p) (pw_tick p))).

Definition goroutineExitTimeout : Z := (callbackTimeout (consume_options options) + ten_seconds)%Z.

(** The goroutine is started; what it will meet is known. *)
Definition start_reader (ch : nat) (life : option Z) : Go unit :=
  modify (λ w, mkLoopWorld (lw_pool w)
    (lw_readers w ++ [mkReader ch ((λ t, now w + t)%Z <$> life)]) (lw_turn w)).

Definition wait_at_most (limit : Z) (event : option Z) : Go unit :=
  pause (match event with Some t => Z.min t limit | None => limit end).

(** One turn; whether there is a next one. *)
Definition turn : Go bool :=
  n <- next_turn ;;
  match le_wake env n with
  | WakeDone => ret false
  | WakeReconnect => ret true
  | WakeDefault =>
      if pe_no_pool (le_pool env) n then pause five_seconds ;;; ret true
      else
        r <- in_pool (GetChannel (le_pool env)) ;;
        match r with
        | Err _ => pause five_seconds ;;; ret true
        | Ok ch =>
            if negb (le_qos env n) then
              meanwhile n ;;;
              in_pool (ReturnChannel ch) ;;;
              pause five_seconds ;;;
              ret true
            else if negb (le_consume env n) then
              meanwhile n ;;;
              closed <- in_pool (IsClosedChannel ch) ;;
              in_pool (ReturnChannel ch) ;;;
              (if closed : bool then wait_at_most ten_seconds (le_signal env n)
               else pause five_seconds) ;;;
              ret true
            else
              let life := read_loop options (le_events env n) in
              start_reader ch life ;;;
              wait_at_most goroutineExitTimeout life ;;;
              meanwhile n ;;;
              in_pool (ReturnChannel ch) ;;;
              pause two_seconds ;;;
              ret true
        end
  end.

(** So many turns, unless the loop ends before: whether it goes on. *)
Fixpoint turns (n : nat) : Go bool :=
  match n with
  | O => ret true
  | S n =>
      more <- turn ;;
      if more : bool then turns n else ret false
  end.

(** The readers whose loops have not ended. *)
Definition alive (w : LoopWorld) (r : Reader) : Prop :=
  match rd_until r with Some t => (now w < t)%Z | None => True end.

(** ** Laws *)

Lemma wp_in_pool {A} (m : M PoolWorld A) (Q : outcome A → LoopWorld → Prop) w :
  wp m (λ o p, Q o (mkLoopWorld p (lw_readers w) (lw_turn w))) (lw_pool w) →
  wp (in_pool m) Q w.
Proof. unfold wp, in_pool. by destruct (m (lw_pool w)). Qed.

Lemma pool_ok_same_channels p p' held lost :
  pw_pool p' = pw_pool p → pw_next p' = pw_next p → pool_ok p held lost → pool_ok p' held lost.
Proof. intros Hp Hn. apply same_pool_ok. split; [done|lia]. Qed.

(** What is so of the pool before every turn is so after it. *)
Definition gives_back (held lost : list nat) {A} (o : outcome A) (w : LoopWorld) : Prop :=
  match o with
  | Ret _ => pool_ok (lw_pool w) held lost
  | Panic msg => msg = pool_exhausted
  | Hang => False
  end.

Lemma wp_give_back {A} ch (k : unit → Go A) held lost Q w :
  pool_ok (lw_pool w) (ch :: held) lost →
  (∀ p, pool_ok p held lost → wp (k tt) Q (mkLoopWorld p (lw_readers w) (lw_turn w))) →
  wp (x <- in_pool (ReturnChannel ch) ;; k x) Q w.
Proof.
  intros Hok Hk. apply wp_bind_ret, wp_in_pool.
  generalize (ReturnChannel_spec _ _ _ held _ Hok (Permutation_refl _)).
  apply wp_returns_mono. intros [] p. apply Hk.
Qed.

#[local] Opaque ReturnChannel GetChannel.

(** Whatever it meets, a turn gives back the channel it took. *)
Lemma turn_gives_back held lost w :
  pool_ok (lw_pool w) held lost → wp turn (gives_back held lost) w.
Proof.
  intros Hok. unfold turn. apply wp_bind. unfold next_turn, wp at 1. simpl.
  destruct (le_wake env (lw_turn w)); [done..|].
  destruct (pe_no_pool _ _); [by apply (pool_ok_same_channels (lw_pool w))|].
  apply wp_bind, wp_in_pool. simpl. generalize (GetChannel_spec (le_pool env) _ _ _ Hok).
  apply wp_mono. intros [[ch|e]|msg|] p; simpl; [|by apply pool_ok_same_channels|by intros [-> _]|done].
  intros [Hp _]. destruct (le_qos env _); simpl.
  - destruct (le_consume env _); simpl.
    + apply wp_bind. unfold wp at 1, start_reader. simpl.
      apply wp_bind. unfold wp at 1. simpl. apply wp_bind. unfold wp at 1. simpl.
      eapply wp_give_back; [by apply (pool_ok_same_channels p)|].
      intros p' Hp'. by apply (pool_ok_same_channels p').
    + apply wp_bind. unfold wp at 1. simpl. apply wp_bind. unfold wp at 1. simpl.
      eapply wp_give_back; [by apply (pool_ok_same_channels p)|].
      intros p' Hp'. destruct (bool_decide _); by apply (pool_ok_same_channels p').
  - apply wp_bind. unfold wp at 1. simpl.
    eapply wp_give_back; [by apply (pool_ok_same_channels p)|].
    intros p' Hp'. by apply (pool_ok_same_channels p').
Qed.

(** *** Consumers that nothing disturbs *)

(** A pool that has a channel to give, or may open one. *)
Record serviceable (p : PoolWorld) : Prop := {
  sv_open : cp_closed (pw_pool p) = false;
  sv_live : Forall (.∈ pw_open p) (cp_channels (pw_pool p));
  sv_room : cp_channels (pw_pool p) = [] →
    (cp_created (pw_pool p) < cp_maxChannels (pw_pool p))%Z;
}.

#[local] Transparent ReturnChannel GetChannel.

Lemma GetChannel_serviceable p :
  (∀ n, pe_channel (le_pool env) n = ChannelOpened) → serviceable p →
  ∃ ch p', GetChannel (le_pool env) p = (Ret (Ok ch), p') ∧
    cp_closed (pw_pool p') = false ∧ ch ∈ pw_open p' ∧ pw_open p ⊆ pw_open p' ∧
    pw_sleeps p' = pw_sleeps p ∧ (cp_channels (pw_pool p) = ch :: cp_channels (pw_pool p') ∨
      cp_channels (pw_pool p) = [] ∧ cp_channels (pw_pool p') = []).
Proof.
  intros Hopen [Hc Hl Hr]. unfold GetChannel. simpl.
  unfold or_else, get_enter, bind, get_state, with_pool, modify; simpl. rewrite Hc. simpl.
  unfold get_receive, bind, get_state; simpl.
  destruct (cp_channels (pw_pool p)) as [|ch chs] eqn:Hch; simpl.
  - rewrite Hc. specialize (Hr eq_refl).
    unfold create_enter, create_attempt, bind, get_state, pool_tick; simpl. rewrite Hc.
    rewrite (proj2 (Z.leb_gt _ _)) by done. rewrite Hopen. simpl.
    eexists _, _. split; [done|]. simpl. rewrite Hch. split_and!; [done|set_solver..|done|by right].
  - apply Forall_cons in Hl as [Hch' Hl].
    unfold get_check, IsClosedChannel, bind, get_state, with_pool, modify; simpl.
    rewrite bool_decide_false by (intros []; done). simpl.
    eexists _, _. split; [done|]. simpl. split_and!; [done..|by left].
Qed.

Lemma ReturnChannel_open p ch held lost :
  pool_ok p (ch :: held) lost → cp_closed (pw_pool p) = false → ch ∈ pw_open p →
  ∃ p', ReturnChannel ch p = (Ret tt, p') ∧ cp_closed (pw_pool p') = false ∧
    cp_channels (pw_pool p') = cp_channels (pw_pool p) ++ [ch] ∧ pw_open p' = pw_open p ∧
    pw_sleeps p' = pw_sleeps p.
Proof.
  intros [_ _ Hn _] Hc Hch. destruct (Hn Hc) as [Hlen Hmax]. rewrite length_app in Hlen. simpl in Hlen.
  unfold ReturnChannel, return_count, bind, get_state, with_pool, modify, IsClosedChannel; simpl.
  rewrite Hc. simpl. rewrite bool_decide_false by (intros []; done). simpl.
  unfold return_send, bind, get_state; simpl. rewrite Hc.
  rewrite (proj2 (Z.ltb_lt _ _)) by lia. simpl.
  eexists. split; [done|]. by split_and!.
Qed.

#[local] Opaque ReturnChannel GetChannel.

(** Nothing happens to this consumer, and its callbacks return. *)
Record undisturbed : Prop := {
  ud_wake n : le_wake env n = WakeDefault;
  ud_pool n : pe_no_pool (le_pool env) n = false;
  ud_channel n : pe_channel (le_pool env) n = ChannelOpened;
  ud_closed n : le_closed env n = ∅;
  ud_qos n : le_qos env n = true;
  ud_consume n : le_consume env n = true;
  ud_reads n : read_loop options (le_events env n) = None;
}.

(** The channel is free again for the pool while the goroutine reads on. *)
Definition forgotten (w : LoopWorld) (r : Reader) : Prop :=
  alive w r ∧ rd_channel r ∈ cp_channels (pw_pool (lw_pool w)).

Lemma undisturbed_turn held lost w :
  undisturbed → pool_ok (lw_pool w) held lost → serviceable (lw_pool w) →
  ∃ w' r, turn w = (Ret true, w') ∧ serviceable (lw_pool w') ∧
    lw_readers w' = lw_readers w ++ [r] ∧ rd_until r = None ∧
    rd_channel r ∈ cp_channels (pw_pool (lw_pool w')) ∧
    cp_channels (pw_pool (lw_pool w)) ⊆ cp_channels (pw_pool (lw_pool w')) ∧
    now w' = (now w + goroutineExitTimeout + two_seconds)%Z.
Proof.
  intros [Hwake Hpool Hopen Hclosed Hqos Hcons Hreads] Hok Hsv.
  pose proof (GetChannel_spec (le_pool env) _ _ _ Hok) as Hspec.
  destruct (GetChannel_serviceable _ Hopen Hsv) as (ch & p & Hget & Hc & Hin & Hsub & Hsl & Hch).
  unfold wp in Hspec. rewrite Hget in Hspec. destruct Hspec as [Hp _].
  unfold turn, bind at 1, next_turn. simpl. rewrite Hwake, Hpool.
  unfold bind at 1, in_pool at 1. simpl. rewrite Hget. rewrite Hqos, Hcons. simpl. rewrite Hreads.
  unfold bind, start_reader, wait_at_most, pause, meanwhile, in_pool, modify; simpl.
  rewrite Hclosed.
  set (p1 := mkPoolWorld _ (pw_open p ∖ ∅) _ _ _ _ _).
  destruct (ReturnChannel_open p1 ch held lost) as (p' & Hret & Hc' & Hch' & Ho' & Hsl').
  { by apply (pool_ok_same_channels p). }
  { done. }
  { subst p1. simpl. set_solver. }
  rewrite Hret. eexists _, (mkReader ch None). simpl. split_and!; simpl; try done.
  - split; simpl; [done| |].
    + rewrite Hch', Ho'. subst p1. simpl. apply Forall_app. split; [|by constructor; [set_solver|]].
      destruct Hsv as [_ Hl _]. destruct Hch as [Hch|[_ Hch]]; [|by rewrite Hch].
      rewrite Hch in Hl. apply Forall_cons in Hl as [_ Hl]. eapply Forall_impl; [exact Hl|].
      simpl. set_solver.
    + rewrite Hch'. by intros []%app_nil.
  - simpl. rewrite Hch'. set_solver.
  - simpl. rewrite Hch'. subst p1. simpl. destruct Hch as [->|[-> _]]; set_solver.
  - unfold now. simpl. rewrite Hsl'. subst p1. simpl. rewrite Hsl, !total_app. simpl. lia.
Qed.

(** Channels in the pool stay there. *)
Lemma undisturbed_turns held lost w n :
  undisturbed → pool_ok (lw_pool w) held lost → serviceable (lw_pool w) →
  ∃ w' rs, turns n w = (Ret true, w') ∧ lw_readers w' = lw_readers w ++ rs ∧ length rs = n ∧
    Forall (forgotten w') rs ∧
    cp_channels (pw_pool (lw_pool w)) ⊆ cp_channels (pw_pool (lw_pool w')) ∧
    now w' = (now w + Z.of_nat n * (goroutineExitTimeout + two_seconds))%Z.
Proof.
  intros Hu. revert w. induction n as [|n IH]; intros w Hok Hsv.
  { exists w, []. split_and!; [done|by rewrite app_nil_r|done|constructor|done|lia]. }
  destruct (undisturbed_turn _ _ _ Hu Hok Hsv) as (w1 & r & Ht & Hsv1 & Hr & Hend & Hch & Hsub & Hnow).
  pose proof (turn_gives_back held lost w Hok) as Hok1. unfold wp in Hok1. rewrite Ht in Hok1.
  destruct (IH w1 Hok1 Hsv1) as (w' & rs & Hts & Hrs & Hlen & Hall & Hsub' & Hnow').
  exists w', (r :: rs). simpl. unfold bind. rewrite Ht.
  split_and!; [done| |by rewrite Hlen| |by etrans|lia].
  { by rewrite Hrs, Hr, <- app_assoc. }
  constructor; [|done]. split; [by unfold alive; rewrite Hend|by apply Hsub'].
Qed.

(** The limit on the wait counts from the start of the reading: a consumer that
    nothing disturbs is taken for one that does not end.  Every turn leaves one
    more goroutine that reads the queue, on a channel that the pool has back and
    gives to others. *)
Theorem undisturbed_consumers_pile_up held lost w n :
  undisturbed → pool_ok (lw_pool w) held lost → serviceable (lw_pool w) →
  ∃ w' rs, turns n w = (Ret true, w') ∧ lw_readers w' = lw_readers w ++ rs ∧ length rs = n ∧
    Forall (forgotten w') rs ∧
    now w' = (now w + Z.of_nat n * (goroutineExitTimeout + two_seconds))%Z.
Proof.
  intros Hu Hok Hsv. destruct (undisturbed_turns _ _ _ n Hu Hok Hsv) as (w' & rs & H1 & H2 & H3 & H4 & _ & H5).
  by exists w', rs.
Qed.

(** *** Consumers that end in time *)

(** Time does not go back. *)
Definition passes {A} (m : M PoolWorld A) : Prop :=
  ∀ p, (total (pw_sleeps p) ≤ total (pw_sleeps (m p).2))%Z.

Lemma passes_bind {A B} (m : M PoolWorld A) (k : A → M PoolWorld B) :
  passes m → (∀ a, passes (k a)) → passes (bind m k).
Proof.
  intros Hm Hk p. specialize (Hm p). unfold bind. destruct (m p) as [[a|msg|] p1]; simpl in *; try done.
  etrans; [exact Hm|apply Hk].
Qed.

Lemma passes_get {A} (k : PoolWorld → M PoolWorld A) :
  (∀ p, passes (k p)) → passes (bind get_state k).
Proof. intros Hk p. apply (Hk p p). Qed.

Lemma passes_still {A} (m : M PoolWorld A) : (∀ p, pw_sleeps (m p).2 = pw_sleeps p) → passes m.
Proof. intros Hm p. by rewrite Hm. Qed.

Lemma passes_sleep ns : (0 ≤ ns)%Z → passes (mq_sleep ns).
Proof. intros Hns p. simpl. rewrite total_app. simpl. lia. Qed.

Ltac pass := repeat lazymatch goal with
  | |- passes (bind get_state _) => apply passes_get; intros ?
  | |- passes (bind _ _) => apply passes_bind; [|intros ?]
  | |- passes (or_else _ _ _) => apply passes_bind; [|intros [?|?]]
  | |- passes (if ?b then _ else _) => destruct b
  | |- passes (mq_sleep _) => apply passes_sleep; lia
  | |- passes _ => first [assumption | by apply passes_still]
  end.

Lemma passes_create_attempt attempts : passes (create_attempt (le_pool env) attempts).
Proof.
  apply passes_bind; [by apply passes_still|]. intros n.
  destruct (pe_channel _ n); [pass..|]. destruct attempts; pass.
Qed.

Lemma passes_create_rest fuel c : passes (create_rest (le_pool env) fuel c).
Proof.
  revert c. induction fuel as [|fuel IH]; intros [r|attempts]; simpl; try by apply passes_still.
  apply passes_bind; [|done]. unfold create_resume. pose proof (passes_create_attempt attempts). pass.
Qed.

Lemma passes_get_channel fuel : passes (get_channel (le_pool env) fuel).
Proof.
  induction fuel as [|fuel IH]; simpl; [by apply passes_still|].
  unfold get_enter, get_receive, get_check, IsClosedChannel, ClearPublisherForChannel. pass.
  { destruct (cp_channels _); pass. }
  destruct (_ : Received) as [ch| |]; pass; [|by apply (passes_create_rest 2)].
  unfold create_enter. pose proof (passes_create_attempt 2). pass.
Qed.

#[local] Transparent ReturnChannel GetChannel.
Lemma passes_GetChannel : passes (GetChannel (le_pool env)).
Proof. intros p. apply passes_get_channel. Qed.

Lemma passes_ReturnChannel ch : passes (ReturnChannel ch).
Proof. unfold ReturnChannel, return_count, return_send, IsClosedChannel, close_channel. pass. Qed.
#[local] Opaque ReturnChannel GetChannel.

(** Nobody reads any more: what a loop of calls on the pool and waits keeps. *)
Definition all_ended (w : LoopWorld) : Prop := Forall (λ r, ¬ alive w r) (lw_readers w).

Definition undertakes {A} (m : Go A) : Prop := ∀ w, all_ended w → all_ended (m w).2.

Lemma ended_later w w' :
  lw_readers w' = lw_readers w → (now w ≤ now w')%Z → all_ended w → all_ended w'.
Proof.
  intros Hr Hn He. unfold all_ended. rewrite Hr. eapply Forall_impl; [exact He|].
  intros [ch [t|]]; unfold alive; simpl; [lia|done].
Qed.

Lemma undertakes_pool {A} (m : M PoolWorld A) : passes m → undertakes (in_pool m).
Proof.
  intros Hm w. specialize (Hm (lw_pool w)). unfold in_pool. destruct (m (lw_pool w)) as [o p].
  by apply ended_later.
Qed.

Lemma undertakes_bind {A B} (m : Go A) (k : A → Go B) :
  undertakes m → (∀ a, undertakes (k a)) → undertakes (bind m k).
Proof.
  intros Hm Hk w He. specialize (Hm w He). unfold bind. destruct (m w) as [[a|msg|] w1]; try done.
  by apply Hk.
Qed.

Lemma undertakes_ret {A} (a : A) : undertakes (ret a).
Proof. by intros w. Qed.

Lemma exit_timeout_positive : (ten_seconds < goroutineExitTimeout)%Z.
Proof.
  unfold goroutineExitTimeout, callbackTimeout. destruct (Z.ltb_spec 0 (CallbackTimeout (consume_options options))); lia.
Qed.

(** The readers end within the limit, and signals do not come before they are
    waited for. *)
Record in_time : Prop := {
  it_ends n : ∃ t, read_loop options (le_events env n) = Some t ∧
    (0 ≤ t ≤ goroutineExitTimeout)%Z;
  it_signal n t : le_signal env n = Some t → (0 ≤ t)%Z;
}.

Lemma undertakes_read ch n :
  in_time → undertakes (
    start_reader ch (read_loop options (le_events env n)) ;;;
    wait_at_most goroutineExitTimeout (read_loop options (le_events env n))).
Proof.
  intros [Hends _] w He. destruct (Hends n) as (t & -> & Ht).
  unfold bind, start_reader, wait_at_most, pause, in_pool, modify, mq_sleep. simpl.
  unfold all_ended, alive, now. simpl. rewrite total_app. simpl.
  apply Forall_app. split; [|constructor; [simpl; unfold now; lia|done]].
  eapply Forall_impl; [exact He|]. intros [c [u|]]; unfold alive, now; simpl; [lia|done].
Qed.

Lemma turn_undertakes : in_time → undertakes turn.
Proof.
  intros Hin. pose proof exit_timeout_positive as Hpos. unfold ten_seconds in Hpos.
  assert (Hgive : ∀ n ch ns, (0 ≤ ns)%Z → undertakes (meanwhile n ;;; in_pool (ReturnChannel ch) ;;;
    pause ns ;;; ret true)).
  { intros n ch ns Hns. repeat (apply undertakes_bind; [apply undertakes_pool|intros _]);
      [by apply passes_still|apply passes_ReturnChannel|by apply passes_sleep|apply undertakes_ret]. }
  unfold turn. apply undertakes_bind; [by intros w|intros n].
  destruct (le_wake env n); [apply undertakes_ret..|].
  assert (Hpause : undertakes (pause five_seconds ;;; ret true)).
  { apply undertakes_bind; [by apply undertakes_pool, passes_sleep|intros _; apply undertakes_ret]. }
  destruct (pe_no_pool _ n); [done|].
  apply undertakes_bind; [apply undertakes_pool, passes_GetChannel|intros [ch|e]; [|done]].
  destruct (le_qos env n); simpl; [destruct (le_consume env n); simpl|by apply Hgive].
  - intros w He. pose proof (undertakes_bind _ (λ _, meanwhile n ;;; in_pool (ReturnChannel ch) ;;;
      pause two_seconds ;;; ret true) (undertakes_read ch n Hin) (λ _, Hgive n ch two_seconds ltac:(done)) w He) as H.
    exact H.
  - apply undertakes_bind; [apply undertakes_pool; by apply passes_still|intros _].
    apply undertakes_bind; [apply undertakes_pool; by apply passes_still|intros closed].
    apply undertakes_bind; [apply undertakes_pool, passes_ReturnChannel|intros _].
    apply undertakes_bind; [|intros _; apply undertakes_ret].
    destruct closed; [|by apply undertakes_pool, passes_sleep].
    apply undertakes_pool, passes_sleep. destruct (le_signal env n) as [t|] eqn:Ht; [|done].
    apply (it_signal Hin) in Ht. unfold ten_seconds. lia.
Qed.

(** If every reading goroutine ends within the limit, then no other is started
    while one reads: between two turns none is left. *)
Theorem consumers_that_end_are_alone w n :
  in_time → all_ended w → all_ended (turns n w).2.
Proof.
  intros Hin. revert w. induction n as [|n IH]; intros w He; [done|].
  apply undertakes_bind; [by apply turn_undertakes|intros [] w1 He1; [by apply IH|done]|done].
Qed.

(** *** The end of the loop *)

(** Once the context is seen to be done, the loop is over. *)
Theorem cancelled_consumer_ends w n w' :
  turns n w = (Ret true, w') → le_wake env (lw_turn w') = WakeDone →
  turns (S n) w = (Ret false, mkLoopWorld (lw_pool w') (lw_readers w') (S (lw_turn w'))).
Proof.
  intros Hn Hw. revert w Hn. induction n as [|n IH]; intros w Hn.
  - injection Hn as ->. simpl. unfold turn, bind, next_turn. simpl. by rewrite Hw.
  - change (turns (S (S n)) w) with (bind turn (λ more : bool, if more then turns (S n) else ret false) w).
    simpl in Hn. unfold bind in Hn |- *. destruct (turn w) as [[[]|msg|] w1]; [|done..]. by apply IH.
Qed.
End loop.

(** ** A consumer at work *)

(** A pool of three channels on a broker that does all it is asked; messages of
    one second each, one a minute, and nothing else. *)
Definition minute_messages : list (Z * ReaderEvent) :=
  replicate 3 (60000000000, Message 1000000000)%Z.

Definition quiet_loop : LoopEnv :=
  mkLoopEnv silent_broker (λ _, WakeDefault) (λ _, ∅) (λ _, true) (λ _, true) (λ _, None)
    (λ _, minute_messages).

Definition three_channel_loop : LoopWorld := mkLoopWorld three_channels [] 0.

Lemma quiet_loop_undisturbed : undisturbed quiet_loop None.
Proof. by split. Qed.

Lemma three_channels_ok : pool_ok three_channels [] [].
Proof. apply (pool_reachable_ok _ _ (new_pool_reachable silent_broker (λ _, eq_refl))). Qed.

Lemma three_channels_serviceable : serviceable three_channels.
Proof.
  split; [done| |done].
  replace (cp_channels _) with [0] by by vm_compute. constructor; [|done].
  by apply (bool_decide_unpack _); vm_compute.
Qed.

(** After ten turns, which take thirty-two minutes, ten goroutines read the
    queue, all on the one channel the pool has. *)
Lemma undisturbed_consumers_pile_up_witness :
  ∃ w rs, turns quiet_loop None 10 three_channel_loop = (Ret true, w) ∧ lw_readers w = rs ∧
    length rs = 10 ∧ Forall (forgotten w) rs ∧ now w = 1920000000000%Z.
Proof.
  destruct (undisturbed_consumers_pile_up quiet_loop None [] [] three_channel_loop 10
    quiet_loop_undisturbed three_channels_ok three_channels_serviceable) as (w & rs & H1 & H2 & H3 & H4 & H5).
  exists w, rs. split_and!; [exact H1|exact H2|exact H3|exact H4|exact H5].
Defined.

Example ten_readers :
  rd_channel <$> lw_readers (turns quiet_loop None 10 three_channel_loop).2 = replicate 10 0.
Proof. by vm_compute. Qed.

(** A consumer whose channel is lost every three minutes. *)
Definition unsteady_loop : LoopEnv :=
  mkLoopEnv silent_broker (λ n, if n =? 5 then WakeDone else WakeDefault) (λ _, ∅) (λ _, true)
    (λ _, true) (λ _, None) (λ _, minute_messages ++ [(0%Z, ChannelLost)]).

Lemma consumers_that_end_are_alone_witness :
  all_ended (turns unsteady_loop None 5 three_channel_loop).2 ∧
  length (lw_readers (turns unsteady_loop None 5 three_channel_loop).2) = 5.
Proof.
  split; [|by vm_compute].
  apply (consumers_that_end_are_alone unsteady_loop None three_channel_loop 5); [|by constructor].
  split; [|done]. intros n. eexists. split; [by vm_compute|]. by vm_compute.
Defined.

Lemma cancelled_consumer_ends_witness :
  (turns unsteady_loop None 6 three_channel_loop).1 = Ret false.
Proof.
  destruct (turns unsteady_loop None 5 three_channel_loop) as [o w] eqn:Hw.
  assert (Ho : o = Ret true ∧ lw_turn w = 5) by (revert Hw; vm_compute; intros [= <- <-]; done).
  destruct Ho as [-> Hturn].
  rewrite (cancelled_consumer_ends unsteady_loop None three_channel_loop 5 w Hw); [done|].
  by rewrite Hturn.
Defined.

(** A callback that takes longer than it is waited for. *)
Example overtime_callback : overtime None 200000000000 = true ∧ awaited None 200000000000 = 180000000000%Z.
Proof. done. Qed.
