(* ===== verification/MqExclusive.v ===== *)
(** * Exclusive queues

    [DeclareExclusiveQueueWithTopicBindings] and [ConsumeExclusiveQueueAsync] of
    [pkg/mq/common/helpers.go]: a goroutine that reads a queue of its own into a
    Go channel, and declares the queue anew when it has lost it.  The goroutine,
    the caller who receives and cancels, and the other users of the channel pool
    take turns in any order. *)

From stdpp Require Import relations.
From S2P Require Import Prelude GoMonad MqErrors MqPool MqPublish.
#[local] Open Scope go_scope.

Record ExclusiveEnv := mkExclusiveEnv {
  xe_pool : PoolEnv;
  xe_call : nat → bool;     (* whether a call on an AMQP channel succeeds *)
}.

(** ** Declaring the queue *)

Section declare.
Context (env : ExclusiveEnv) (exchangeName queueName : string) (routingKeyPatterns : list string).
#[local] Notation Go := (M PoolWorld).

Definition amqp : Go bool := n <- pool_tick ;; ret (xe_call env n).

(** The queue is bound key by key; the first key that is refused. *)
Fixpoint bind_keys (keys : list string) : Go (option string) :=
  match keys with
  | [] => ret None
  | rk :: keys =>
      ok <- amqp ;;
      if ok : bool then bind_keys keys else ret (Some rk)
  end.

Definition DeclareExclusiveQueueWithTopicBindings : Go (result nat) :=
  n <- pool_tick ;;
  if pe_no_pool (xe_pool env) n then ret (Err (Errorf "rabbitmq channel pool not initialized"))
  else
    ch <-? GetChannel (xe_pool env)
      else e => ret (Err (Errorf ("failed to get channel from pool: " +:+ error_text e))) ;;
    let abandon_queue msg := ReturnChannel ch ;;; ret (Err (Errorf msg)) in
    declared <- amqp ;;
    if negb declared then abandon_queue ("failed to declare topic exchange '" +:+ exchangeName +:+ "'")
    else
      queued <- amqp ;;
      if negb queued then abandon_queue ("failed to declare exclusive queue '" +:+ queueName +:+ "'")
      else
        refused <- bind_keys routingKeyPatterns ;;
        match refused with
        | Some rk => abandon_queue ("failed to bind queue '" +:+ queueName +:+ "' to exchange '" +:+
            exchangeName +:+ "' with key '" +:+ rk +:+ "'")
        | None => ret (Ok ch)
        end.

(** The queue with a consumer: at the start and at each reconnection.  The
    channel that was taken for it, whether it is of use or not. *)
Definition open_consumer : Go (option nat * result nat) :=
  r <- DeclareExclusiveQueueWithTopicBindings ;;
  match r with
  | Err e => ret (None, Err (Errorf ("failed to declare exclusive queue: " +:+ error_text e)))
  | Ok ch =>
      qos <- amqp ;;
      if negb qos then
        close_channel ch ;;;
        ret (Some ch, Err (Errorf ("failed to set QoS on exclusive queue '" +:+ queueName +:+ "'")))
      else
        consumes <- amqp ;;
        if negb consumes then
          close_channel ch ;;;
          ret (Some ch, Err (Errorf ("failed to start consuming exclusive queue '" +:+ queueName +:+ "'")))
        else ret (Some ch, Ok ch)
  end.

(** *** What it costs the pool *)

Lemma wp_bind_keys keys w : wp (bind_keys keys) (returns (λ _ w', same_pool w w')) w.
Proof.
  revert w. induction keys as [|rk keys IH]; intros w; [by split|].
  simpl. apply wp_bind. unfold wp at 1. simpl. destruct (xe_call _ _); [|by split].
  match goal with |- wp (bind_keys keys) _ ?w1 => generalize (IH w1) end.
  by apply wp_returns_mono.
Qed.

#[local] Opaque GetChannel ReturnChannel.

Lemma wp_give_up ch msg held lost (w : PoolWorld) :
  pool_ok w (ch :: held) lost →
  wp (ReturnChannel ch ;;; ret (Err (Errorf msg))) (returns (λ (r : result nat) w',
    ∃ e, r = Err e ∧ pool_ok w' held lost)) w.
Proof.
  intros Hok. apply wp_bind_ret.
  generalize (ReturnChannel_spec w ch _ held lost Hok (Permutation_refl _)).
  apply wp_returns_mono. intros [] w' Hw. by eexists.
Qed.

(** What any of these leaves: an exhausted pool brings the process down. *)
Definition declare_post (held lost : list nat) (o : outcome (result nat)) (w : PoolWorld) : Prop :=
  match o with
  | Ret (Ok ch) => pool_ok w (ch :: held) lost
  | Ret (Err _) => pool_ok w held lost
  | Panic msg => msg = pool_exhausted
  | Hang => False
  end.

Lemma declare_spec held lost w :
  pool_ok w held lost → wp DeclareExclusiveQueueWithTopicBindings (declare_post held lost) w.
Proof.
  intros Hok. unfold DeclareExclusiveQueueWithTopicBindings. apply wp_bind. unfold wp at 1. simpl.
  destruct (pe_no_pool _ _); [by apply (same_pool_ok w); [split|]|].
  apply wp_bind. set (w1 := mkPoolWorld _ _ _ _ _ _ _).
  assert (Hok1 : pool_ok w1 held lost) by (by apply (same_pool_ok w); [split|]).
  generalize (GetChannel_spec (xe_pool env) _ _ _ Hok1). apply wp_mono.
  intros [[ch|e]|msg|] w2; simpl; [|done|by intros [-> _]|done]. intros [Hok2 _].
  assert (Hgive : ∀ msg w', same_pool w2 w' →
    wp (ReturnChannel ch ;;; ret (Err (Errorf msg))) (declare_post held lost) w').
  { intros msg w' Hs. generalize (wp_give_up ch msg held lost w' (same_pool_ok _ _ _ _ Hs Hok2)).
    apply wp_mono. by intros [r|m|] w''; simpl; [intros (e & -> & H)|..]. }
  apply wp_bind. unfold wp at 1. simpl. destruct (xe_call _ _); simpl; [|by apply Hgive].
  apply wp_bind. unfold wp at 1. simpl. destruct (xe_call _ _); simpl; [|by apply Hgive].
  apply wp_bind_ret. match goal with |- wp (bind_keys _) _ ?w3 => generalize (wp_bind_keys routingKeyPatterns w3) end.
  apply wp_returns_mono. intros [rk|] w3 [Hp Hn]; simpl in *; [apply Hgive; by split|].
  apply wp_ret. simpl. eapply same_pool_ok; [|exact Hok2]. by split.
Qed.

(** A channel that is taken is not given back; it counts as lost. *)
Lemma open_consumer_spec held lost w :
  pool_ok w held lost →
  wp open_consumer (λ o w',
    match o with
    | Ret (Some ch, _) => pool_ok w' held (ch :: lost)
    | Ret (None, r) => pool_ok w' held lost ∧ is_ok r = false
    | Panic msg => msg = pool_exhausted
    | Hang => False
    end) w.
Proof.
  intros Hok. unfold open_consumer. apply wp_bind. generalize (declare_spec _ _ _ Hok).
  apply wp_mono. intros [[ch|e]|msg|] w1; simpl; [|by split|done|done]. intros Hok1.
  assert (Hlost : pool_ok w1 held (ch :: lost)).
  { pose proof (discard_ok w1 ch _ held lost Hok1 (Permutation_refl _)) as Hd.
    unfold wp in Hd. simpl in Hd. by apply (same_pool_ok _ w1) in Hd. }
  apply wp_bind. unfold wp at 1. simpl. destruct (xe_call _ _); simpl.
  - apply wp_bind. unfold wp at 1. simpl. destruct (xe_call _ _); simpl; by apply (same_pool_ok w1).
  - by apply (same_pool_ok w1).
Qed.
End declare.

(** ** The consumer *)

(** Where the goroutine is: in its [select]; with a message it has not handed
    on; on its way to a new queue, before and after the look at the context;
    with the new queue, not yet known to the caller; at its end. *)
Inductive ExclusivePhase :=
  | Reading
  | Holding (body : string)
  | Reconnecting
  | Declaring
  | Attaching (ch : nat)
  | Exited
  | Crashed.

(** [x_used]: the channels it took from the pool and did not give back.
    [x_received], [x_taken], [x_dropped]: the messages that came from the queue,
    that the caller took, and that were in hand when the goroutine ended. *)
Record Exclusive := mkExclusive {
  x_pool : PoolWorld;
  x_phase : ExclusivePhase;
  x_currentCh : option nat;
  x_done : bool;            (* [cancelCtx] *)
  x_cancelled : bool;       (* [cancelOnce] *)
  x_msgCh : list string;
  x_used : list nat;
  x_received : list string;
  x_taken : list string;
  x_dropped : list string;
}.

Definition msgCh_capacity : nat := 100.

Inductive ExclusiveEvent :=
  | Arrives (body : string)   (* a delivery *)
  | HandsOn                   (* [msgCh <- d.Body] *)
  | SeesDone                  (* [<-cancelCtx.Done()] *)
  | LosesConsumer             (* any of the four reasons to reconnect *)
  | LooksAtContext            (* the check before a reconnection *)
  | Redeclares
  | Attaches
  | Cancels                   (* the caller calls [cancel] *)
  | ContextEnds               (* the context given by the caller *)
  | Receives.                 (* the caller takes a message *)

Section consumer.
Context (env : ExclusiveEnv) (exchangeName queueName : string) (routingKeyPatterns : list string).

Definition set_phase (ph : ExclusivePhase) (x : Exclusive) : Exclusive :=
  mkExclusive (x_pool x) ph (x_currentCh x) (x_done x) (x_cancelled x) (x_msgCh x) (x_used x)
    (x_received x) (x_taken x) (x_dropped x).

(** [msgCh] is closed with the last deferred call. *)
Definition leave_goroutine (x : Exclusive) : Exclusive :=
  mkExclusive (x_pool x) Exited (x_currentCh x) (x_done x) (x_cancelled x) (x_msgCh x) (x_used x)
    (x_received x) (x_taken x)
    (match x_phase x with Holding body => x_dropped x ++ [body] | _ => x_dropped x end).

(** The pool after a call, and the channel the call took. *)
Definition with_used (p : PoolWorld) (ch : option nat) (ph : ExclusivePhase) (x : Exclusive) : Exclusive :=
  mkExclusive p ph (x_currentCh x) (x_done x) (x_cancelled x) (x_msgCh x)
    (option_list ch ++ x_used x) (x_received x) (x_taken x) (x_dropped x).

(** The three pauses of the goroutine, two seconds before each attempt and five
    after one that failed, are in the clock of the pool. *)
Definition redeclare : M PoolWorld (option nat * result nat) :=
  mq_sleep 2000000000 ;;;
  r <- open_consumer env exchangeName queueName routingKeyPatterns ;;
  if is_ok r.2 then ret r else mq_sleep 5000000000 ;;; ret r.

(** The function the caller gets, which acts once. *)
Definition cancel (x : Exclusive) : Exclusive :=
  if x_cancelled x then x
  else
    let p := match x_currentCh x with
             | Some ch => (close_channel ch (x_pool x)).2
             | None => x_pool x
             end in
    mkExclusive p (x_phase x) None true true (x_msgCh x) (x_used x) (x_received x) (x_taken x)
      (x_dropped x).

Definition exclusive_event (ev : ExclusiveEvent) (x : Exclusive) : option Exclusive :=
  match ev, x_phase x with
  | Arrives body, Reading =>
      Some (mkExclusive (x_pool x) (Holding body) (x_currentCh x) (x_done x) (x_cancelled x)
        (x_msgCh x) (x_used x) (x_received x ++ [body]) (x_taken x) (x_dropped x))
  | HandsOn, Holding body =>
      if length (x_msgCh x) <? msgCh_capacity then
        Some (mkExclusive (x_pool x) Reading (x_currentCh x) (x_done x) (x_cancelled x)
          (x_msgCh x ++ [body]) (x_used x) (x_received x) (x_taken x) (x_dropped x))
      else None
  | SeesDone, (Reading | Holding _) => if x_done x then Some (leave_goroutine x) else None
  | LosesConsumer, Reading => Some (set_phase Reconnecting x)
  | LooksAtContext, Reconnecting =>
      Some (if x_done x then leave_goroutine x else set_phase Declaring x)
  | Redeclares, Declaring =>
      Some (match redeclare (x_pool x) with
            | (Ret (ch, Ok new), p) => with_used p ch (Attaching new) x
            | (Ret (ch, Err _), p) => with_used p ch Reconnecting x
            | (_, p) => with_used p None Crashed x
            end)
  | Attaches, Attaching ch =>
      Some (mkExclusive (x_pool x) Reading (Some ch) (x_done x) (x_cancelled x) (x_msgCh x)
        (x_used x) (x_received x) (x_taken x) (x_dropped x))
  | Cancels, _ => Some (cancel x)
  | ContextEnds, _ =>
      Some (mkExclusive (x_pool x) (x_phase x) (x_currentCh x) true (x_cancelled x) (x_msgCh x)
        (x_used x) (x_received x) (x_taken x) (x_dropped x))
  | Receives, _ =>
      match x_msgCh x with
      | body :: bodies =>
          Some (mkExclusive (x_pool x) (x_phase x) (x_currentCh x) (x_done x) (x_cancelled x) bodies
            (x_used x) (x_received x) (x_taken x ++ [body]) (x_dropped x))
      | [] => None
      end
  | _, _ => None
  end.

(** The caller learns that there will be no more. *)
Definition receives_closed (x : Exclusive) : bool :=
  match x_phase x, x_msgCh x with Exited, [] => true | _, _ => false end.

(** The start: what the call returns, and the consumer if it returns one. *)
Definition ConsumeExclusiveQueueAsync (p : PoolWorld) : outcome (result Exclusive) * PoolWorld :=
  match open_consumer env exchangeName queueName routingKeyPatterns p with
  | (Ret (used, Ok ch), p) =>
      (Ret (Ok (mkExclusive p Reading (Some ch) false false [] (option_list used) [] [] [])), p)
  | (Ret (_, Err e), p) => (Ret (Err e), p)
  | (Panic msg, p) => (Panic msg, p)
  | (Hang, p) => (Hang, p)
  end.

(** The consumer and the other users of the pool; [held] and [lost] as in
    MqPool.v, the consumer's channels among the lost. *)
Definition System : Type := Exclusive * list nat * list nat.

Inductive exclusive_step : System → System → Prop :=
  | step_event ev x x' held lost :
      exclusive_event ev x = Some x' → x_phase x' ≠ Crashed →
      exclusive_step (x, held, lost)
        (x', held, take (length (x_used x') - length (x_used x)) (x_used x') ++ lost)
  | step_others x p' held held' lost lost' :
      pool_step (xe_pool env) (x_pool x, held, lost) (p', held', lost') →
      exclusive_step (x, held, lost)
        (mkExclusive p' (x_phase x) (x_currentCh x) (x_done x) (x_cancelled x) (x_msgCh x) (x_used x)
          (x_received x) (x_taken x) (x_dropped x), held', lost').

Definition exclusive_reachable (σ : System) : Prop :=
  ∃ p held lost x p', pool_ok p held lost ∧
    ConsumeExclusiveQueueAsync p = (Ret (Ok x), p') ∧
    rtc exclusive_step (x, held, x_used x ++ lost) σ.

(** *** Invariants *)

Definition in_hand (x : Exclusive) : list string :=
  match x_phase x with Holding body => [body] | _ => [] end.

Record messages_ok (x : Exclusive) : Prop := {
  mo_order : x_received x = x_taken x ++ x_msgCh x ++ in_hand x ++ x_dropped x;
  mo_capacity : length (x_msgCh x) ≤ msgCh_capacity;
  mo_dropped : x_dropped x = [] ∨ x_phase x = Exited ∧ length (x_dropped x) ≤ 1;
}.

Lemma messages_ok_event ev x x' :
  exclusive_event ev x = Some x' → messages_ok x → messages_ok x'.
Proof.
  intros He [Ho Hc Hd].
  destruct ev, (x_phase x) eqn:Hph; simpl in He; rewrite ?Hph in He; try discriminate He.
  all: try (destruct (length (x_msgCh x) <? msgCh_capacity) eqn:Hlen; [|discriminate He];
    apply Nat.ltb_lt in Hlen).
  all: try (destruct (x_msgCh x) as [|m ms] eqn:Hm; [discriminate He|]).
  all: try (destruct (x_done x); try discriminate He).
  all: try (destruct (redeclare (x_pool x)) as [[[ch [n|e]]|msg|] p]).
  all: injection He as <-; unfold cancel; try destruct (x_cancelled x).
  all: destruct Hd as [Hd|[Hd1 Hd2]]; try congruence; unfold in_hand, leave_goroutine in *; rewrite ?Hph in *;
    split; unfold in_hand; simpl in *; rewrite ?Hph, ?Hm, ?Ho, ?Hd, ?app_nil_r in *; simpl in *;
    rewrite <- ?app_assoc, ?length_app; simpl; auto; try lia.
Qed.

(** Messages come out in the order in which they came in, none twice; only the
    one in hand can be lost, and only at the end. *)
Theorem exclusive_messages_in_order σ :
  exclusive_reachable σ → messages_ok σ.1.1.
Proof.
  intros (p & held & lost & x & p' & _ & Hstart & Hrun).
  assert (Hx : messages_ok x).
  { unfold ConsumeExclusiveQueueAsync in Hstart.
    destruct (open_consumer _ _ _ _ p) as [[[ch [n|e]]|msg|] p1]; [|done..].
    injection Hstart as <- _. split; simpl; [done|lia|by left]. }
  change x with ((x, held, x_used x ++ lost).1.1) in Hx.
  induction Hrun as [σ|σ1 σ2 σ3 Hs _ IH]; [done|]. apply IH.
  destruct Hs as [ev y y' h l He Hne|y q h h' l l' Hs]; simpl in *; [by eapply messages_ok_event|].
  by destruct Hx.
Qed.

(** The channels that the consumer took count for the pool, and are not in it. *)
Definition channels_ok (σ : System) : Prop :=
  pool_ok (x_pool σ.1.1) σ.1.2 σ.2 ∧ x_used σ.1.1 ⊆+ σ.2.

Lemma redeclare_spec held lost w :
  pool_ok w held lost →
  wp redeclare (λ o w',
    match o with
    | Ret (Some ch, _) => pool_ok w' held (ch :: lost)
    | Ret (None, r) => pool_ok w' held lost ∧ is_ok r = false
    | Panic _ => True
    | Hang => False
    end) w.
Proof.
  intros Hok. unfold redeclare. apply wp_bind. unfold wp at 1. simpl. apply wp_bind.
  set (w1 := mkPoolWorld _ _ _ _ _ _ _).
  assert (Hok1 : pool_ok w1 held lost) by (by apply (same_pool_ok w)).
  generalize (open_consumer_spec env exchangeName queueName routingKeyPatterns _ _ _ Hok1).
  apply wp_mono. intros [[[ch|] r]|msg|] w2; simpl; try done.
  - intros H. destruct (is_ok r); unfold wp; simpl; [done|]. by apply (same_pool_ok w2).
  - intros [H Hr]. rewrite Hr. unfold wp. simpl. split; [by apply (same_pool_ok w2)|done].
Qed.

Lemma new_used_nil (x x' : Exclusive) :
  x_used x' = x_used x → take (length (x_used x') - length (x_used x)) (x_used x') = [].
Proof. intros ->. by rewrite Nat.sub_diag. Qed.

Lemma exclusive_event_pool ev x x' held lost :
  exclusive_event ev x = Some x' → x_phase x' ≠ Crashed → pool_ok (x_pool x) held lost →
  pool_ok (x_pool x') held (take (length (x_used x') - length (x_used x)) (x_used x') ++ lost) ∧
  x_used x' = take (length (x_used x') - length (x_used x)) (x_used x') ++ x_used x.
Proof.
  intros He Hne Hok.
  destruct ev, (x_phase x) eqn:Hph; simpl in He; rewrite ?Hph in He; try discriminate He.
  all: try (destruct (length (x_msgCh x) <? msgCh_capacity); [|discriminate He]).
  all: try (destruct (x_msgCh x) as [|m ms]; [discriminate He|]).
  all: try match type of He with context [x_done ?y] => destruct (x_done y); try discriminate He end.
  all: try (injection He as <-; unfold cancel, leave_goroutine; try destruct (x_cancelled x); simpl;
    rewrite Nat.sub_diag; simpl; (split; [|done]);
    first [exact Hok | destruct (x_currentCh x); [by apply (same_pool_ok (x_pool x))|exact Hok]]).
  pose proof (redeclare_spec held lost _ Hok) as Hr. unfold wp in Hr.
  assert (Hone : ∀ ch : nat, take (S (length (x_used x)) - length (x_used x)) (ch :: x_used x) = [ch]).
  { intros ch. replace (S (length (x_used x)) - length (x_used x)) with 1 by lia. done. }
  destruct (redeclare (x_pool x)) as [[[[ch|] [n|e]]|msg|] p]; injection He as <-; simpl in *;
    try done; rewrite ?Hone, ?Nat.sub_diag; simpl; try done; by destruct Hr.
Qed.

Lemma exclusive_step_channels σ σ' : exclusive_step σ σ' → channels_ok σ → channels_ok σ'.
Proof.
  destruct 1 as [ev x x' held lost He Hne|x p held held' lost lost' Hs]; intros [Hok Hu]; simpl in *.
  - destruct (exclusive_event_pool _ _ _ held lost He Hne Hok) as [Hok' Hu']. split; [done|]. simpl.
    rewrite Hu' at 1. by apply submseteq_app.
  - split; simpl.
    + exact (channels_step_ok _ _ _ Hs Hok).
    + inversion Hs; subst; try done. by apply submseteq_cons.
Qed.

(** Each connection to the queue, made or tried, takes a channel out of the pool
    for good: after as many as the pool may have, whoever asks it for a channel
    brings the process down. *)
Theorem exclusive_channels_are_spent σ :
  exclusive_reachable σ →
  channels_ok σ ∧
  (cp_closed (pw_pool (x_pool σ.1.1)) = false →
    Z.of_nat (length (x_used σ.1.1)) ≤ cp_maxChannels (pw_pool (x_pool σ.1.1)))%Z.
Proof.
  intros (p & held & lost & x & p' & Hok & Hstart & Hrun).
  assert (Hx : channels_ok (x, held, x_used x ++ lost)).
  { pose proof (open_consumer_spec env exchangeName queueName routingKeyPatterns _ _ _ Hok) as H.
    unfold wp in H. unfold ConsumeExclusiveQueueAsync in Hstart.
    destruct (open_consumer _ _ _ _ p) as [[[[ch|] [n|e]]|msg|] p1]; try done; simpl in H.
    - injection Hstart as <- _. split; simpl; [done|]. apply submseteq_skip, submseteq_nil_l.
    - by destruct H. }
  assert (Hσ : channels_ok σ).
  { clear Hstart Hok. induction Hrun as [|σ1 σ2 σ3 Hs _ IH]; [done|].
    by apply IH, (exclusive_step_channels _ _ Hs). }
  split; [done|]. intros Hc. destruct Hσ as [[_ _ Hn _] Hu]. destruct (Hn Hc) as [Hlen Hmax].
  rewrite !length_app in Hlen. apply submseteq_length in Hu. lia.
Qed.

(** *** Cancelling *)

(** Cancelled while no reconnection is under way: no channel will be the current
    one again. *)
Definition released (x : Exclusive) : Prop :=
  x_done x = true ∧ x_cancelled x = true ∧ x_currentCh x = None ∧
  match x_phase x with Declaring | Attaching _ => False | _ => True end.

Theorem cancel_is_final x :
  match x_phase x with Declaring | Attaching _ => False | _ => True end → x_cancelled x = false →
  released (cancel x) ∧
  match x_currentCh x with Some ch => ch ∉ pw_open (x_pool (cancel x)) | None => True end ∧
  (∀ ev y y', released y → exclusive_event ev y = Some y' → released y').
Proof.
  intros Hph Hc. unfold cancel. rewrite Hc. split_and!.
  - by split_and!.
  - destruct (x_currentCh x); simpl; [set_solver|done].
  - intros ev y y' (Hd & Hx & Hcur & Hp) He.
    destruct ev, (x_phase y) eqn:Hy; simpl in He; rewrite ?Hy in He; try discriminate He; try done.
    all: try (destruct (length (x_msgCh y) <? msgCh_capacity); [|discriminate He]).
    all: try (destruct (x_msgCh y) as [|m ms]; [discriminate He|]).
    all: rewrite ?Hd in He; injection He as <-; unfold cancel; rewrite ?Hx; split_and!; simpl;
      rewrite ?Hy; done.
Qed.

(** A run of the consumer without anybody else. *)
Fixpoint exclusive_run (events : list ExclusiveEvent) (x : Exclusive) : option Exclusive :=
  match events with
  | [] => Some x
  | ev :: events => exclusive_event ev x ≫= exclusive_run events
  end.

Lemma crashed_stays ev x x' :
  exclusive_event ev x = Some x' → x_phase x = Crashed → x_phase x' = Crashed.
Proof.
  intros He Hp. destruct ev; simpl in He; rewrite ?Hp in He; try discriminate He.
  - injection He as <-. unfold cancel. by destruct (x_cancelled x).
  - by injection He as <-.
  - destruct (x_msgCh x); [discriminate He|]. by injection He as <-.
Qed.

Lemma exclusive_run_crashed events x x' :
  exclusive_run events x = Some x' → x_phase x = Crashed → x_phase x' = Crashed.
Proof.
  revert x. induction events as [|ev events IH]; simpl; intros x He Hp; [by injection He as <-|].
  destruct (exclusive_event ev x) as [y|] eqn:Hy; [|done].
  apply (IH y He). by apply (crashed_stays ev x).
Qed.

Lemma exclusive_run_reachable events x x' held lost :
  exclusive_run events x = Some x' → x_phase x' ≠ Crashed →
  ∃ lost', rtc exclusive_step (x, held, lost) (x', held, lost').
Proof.
  intros Hrun Hne. revert x lost Hrun. induction events as [|ev events IH]; simpl; intros x lost Hrun.
  { injection Hrun as <-. by exists lost. }
  destruct (exclusive_event ev x) as [y|] eqn:Hy; [|done].
  destruct (IH y (take (length (x_used y) - length (x_used x)) (x_used y) ++ lost) Hrun) as [lost' Hs].
  exists lost'. eapply rtc_l; [|exact Hs]. apply (step_event ev); [done|].
  intros Hc. by apply Hne, (exclusive_run_crashed events y).
Qed.
End consumer.

(** ** Examples *)

Section examples.

Definition willing_broker : ExclusiveEnv := mkExclusiveEnv silent_broker (λ _, true).

Definition on_result_queue (events : list ExclusiveEvent) : option Exclusive :=
  match ConsumeExclusiveQueueAsync willing_broker "results" "wait-1" ["saga.1"] three_channels with
  | (Ret (Ok x), _) => exclusive_run willing_broker "results" "wait-1" ["saga.1"] events x
  | _ => None
  end.

Definition reconnects : list ExclusiveEvent := [LosesConsumer; LooksAtContext; Redeclares; Attaches].

(** Two messages, a lost connection, a third message that arrives on the new
    queue and is in hand when the caller cancels. *)
Definition three_messages : list ExclusiveEvent :=
  [Arrives "a"; HandsOn; Arrives "b"; HandsOn] ++ reconnects ++
  [Receives; Arrives "c"; Cancels; SeesDone; Receives].

Example three_messages_run :
  (λ x, (x_phase x, x_taken x, x_dropped x, receives_closed x, x_used x)) <$>
    on_result_queue three_messages = Some (Exited, ["a"; "b"], ["c"], true, [1; 0]).
Proof. by vm_compute. Qed.

(** The caller cancels while the queue is being declared anew: the channel with
    the new consumer stays open, and a second call of [cancel] does nothing. *)
Example cancel_during_reconnection :
  (λ x, (x_phase x, x_currentCh x, bool_decide (1 ∈ pw_open (x_pool x)))) <$>
    on_result_queue [LosesConsumer; LooksAtContext; Redeclares; Cancels; Attaches; SeesDone; Cancels] =
    Some (Exited, Some 1, true).
Proof. by vm_compute. Qed.

(** A consumer that is cancelled by the server leaves its channel open. *)
Example old_channel_left_open :
  (λ x, (x_currentCh x, bool_decide (0 ∈ pw_open (x_pool x)))) <$> on_result_queue reconnects =
    Some (Some 1, true).
Proof. by vm_compute. Qed.

(** The third reconnection of one consumer exhausts a pool of three channels. *)
Example reconnections_exhaust_the_pool :
  x_phase <$> on_result_queue (reconnects ++ reconnects ++ [LosesConsumer; LooksAtContext; Redeclares]) =
    Some Crashed.
Proof. by vm_compute. Qed.

Lemma three_messages_reachable :
  ∃ x lost, on_result_queue three_messages = Some x ∧
    exclusive_reachable willing_broker "results" "wait-1" ["saga.1"] (x, [], lost).
Proof.
  destruct (on_result_queue three_messages) as [x|] eqn:Hx; [|by vm_compute in Hx].
  assert (Hph : x_phase x = Exited).
  { pose proof three_messages_run as H. rewrite Hx in H. by injection H. }
  unfold on_result_queue in Hx.
  destruct (ConsumeExclusiveQueueAsync _ _ _ _ _) as [[[y|e]|msg|] p'] eqn:Hy; [|done..].
  destruct (exclusive_run_reachable willing_broker "results" "wait-1" ["saga.1"] three_messages y x []
    (x_used y ++ [])) as [lost Hrun]; [done|by rewrite Hph|].
  exists x, lost. split; [done|]. exists three_channels, [], [], y, p'. split_and!; [|done|done].
  apply (pool_reachable_ok _ _ (new_pool_reachable silent_broker (λ _, eq_refl))).
Qed.

Lemma exclusive_messages_in_order_witness :
  ∃ x, on_result_queue three_messages = Some x ∧ messages_ok x ∧ x_received x = ["a"; "b"; "c"].
Proof.
  destruct three_messages_reachable as (x & lost & Hx & Hr). exists x. split; [done|]. split.
  - exact (exclusive_messages_in_order willing_broker "results" "wait-1" ["saga.1"] _ Hr).
  - assert (H : x_received <$> on_result_queue three_messages = Some ["a"; "b"; "c"]) by by vm_compute.
    rewrite Hx in H. by injection H.
Defined.

Lemma exclusive_channels_are_spent_witness :
  ∃ x lost, on_result_queue three_messages = Some x ∧ channels_ok (x, [], lost) ∧ x_used x = [1; 0].
Proof.
  destruct three_messages_reachable as (x & lost & Hx & Hr). exists x, lost. split; [done|]. split.
  - exact (proj1 (exclusive_channels_are_spent willing_broker "results" "wait-1" ["saga.1"] _ Hr)).
  - assert (H : x_used <$> on_result_queue three_messages = Some [1; 0]) by by vm_compute.
    rewrite Hx in H. by injection H.
Defined.

Lemma cancel_is_final_witness :
  ∃ x, on_result_queue [] = Some x ∧ released (cancel x) ∧ x_currentCh x = Some 0.
Proof.
  destruct (on_result_queue []) as [x|] eqn:Hx; [|by vm_compute in Hx]. exists x. split; [done|].
  assert (H : (λ x, (x_phase x, x_cancelled x, x_currentCh x)) <$> on_result_queue [] =
    Some (Reading, false, Some 0)) by by vm_compute.
  rewrite Hx in H. injection H as Hp Hc Hcur. split; [|done].
  apply (cancel_is_final willing_broker "results" "wait-1" ["saga.1"] x); [by rewrite Hp|done].
Defined.
End examples.
