(* ===== verification/Json.v ===== *)
(** * JSON values and Go structures

    What [encoding/json] does with the structures of the program: [marshal]
    writes a structure as an object with one member per field, leaving out the
    empty fields marked [omitempty]; [decode] reads members into the fields of
    a structure that is already there, the way [json.Unmarshal] does: a name
    is matched exactly or else without regard to case, unknown names are
    skipped, a later member overwrites an earlier one, [null] leaves a string
    or number alone and empties a map or a slice, and a value of the wrong type
    is reported but does not stop the reading of the other members.  Texts are
    left to the package: a component that reads or writes text takes the parser
    and the printer as arguments. *)

From stdpp Require Import pretty.
From S2P Require Import Prelude Model Naming GoStrings.
From Stdlib Require Import Strings.String Strings.Ascii.

Local Open Scope string_scope.

(** A number is an integer or a literal with a fraction or an exponent. *)
Inductive Json :=
  | JNull
  | JBool (b : bool)
  | JInt (z : Z)
  | JFraction (literal : string)
  | JString (s : string)
  | JArray (l : list Json)
  | JObject (members : list (string * Json)).

(** Reading a value over the one that is there; [false] when a value had the
    wrong type. *)
Definition decoder (A : Type) : Type := Json → A → A * bool.

(** [var v T; err := json.Unmarshal(data, &v)] on a parsed text. *)
Definition unmarshal {A} (d : decoder A) (zero : A) (j : Json) : option A :=
  let '(a, ok) := d j zero in if ok then Some a else None.

Definition decode_string : decoder string := λ j old,
  match j with JNull => (old, true) | JString s => (s, true) | _ => (old, false) end.

Definition in_int64b (z : Z) : bool := (- 2 ^ 63 <=? z)%Z && (z <? 2 ^ 63)%Z.

Definition decode_int64 : decoder Z := λ j old,
  match j with
  | JNull => (old, true)
  | JInt z => if in_int64b z then (z, true) else (old, false)
  | _ => (old, false)
  end.

Definition decode_bool : decoder bool := λ j old,
  match j with JNull => (old, true) | JBool b => (b, true) | _ => (old, false) end.

(** The members are added to the map that is there. *)
Fixpoint decode_entries (members : list (string * Json)) (old : gmap string string) :
    gmap string string * bool :=
  match members with
  | [] => (old, true)
  | (k, j) :: members =>
      let '(v, ok) := decode_string j "" in
      let '(m, ok') := decode_entries members (<[k := v]> old) in (m, ok && ok')
  end.

Definition decode_map : decoder (gmap string string) := λ j old,
  match j with
  | JNull => (∅, true)
  | JObject members => decode_entries members old
  | _ => (old, false)
  end.

Fixpoint decode_elements {A} (d : decoder A) (zero : A) (l : list Json) : list A * bool :=
  match l with
  | [] => ([], true)
  | j :: l =>
      let '(a, ok) := d j zero in
      let '(r, ok') := decode_elements d zero l in (a :: r, ok && ok')
  end.

Definition decode_list {A} (d : decoder A) (zero : A) : decoder (list A) := λ j old,
  match j with
  | JNull => ([], true)
  | JArray l => decode_elements d zero l
  | _ => (old, false)
  end.

(** ** Structures *)

(** A field: its name, whether it is left out, what is written for it and
    how a value is read into it. *)
Record Field (R : Type) := mkField {
  f_name : string;
  f_omit : R → bool;
  f_marshal : R → Json;
  f_decode : Json → R → R * bool;
}.
Arguments mkField {R}.
Arguments f_name {R}.
Arguments f_omit {R}.
Arguments f_marshal {R}.
Arguments f_decode {R}.

Definition kept : ∀ {R : Type}, R → bool := λ _ _, false.

(** A field of type [A] from its accessors. *)
Definition field {R A} (name : string) (get : R → A) (set : A → R → R) (omit : A → bool)
    (m : A → Json) (d : decoder A) : Field R :=
  mkField name (λ r, omit (get r)) (λ r, m (get r))
    (λ j r, let '(a, ok) := d j (get r) in (set a r, ok)).

Definition find_field {R} (fs : list (Field R)) (name : string) : option (Field R) :=
  match List.find (λ f, String.eqb (f_name f) name) fs with
  | Some f => Some f
  | None =>
      List.find (λ f, String.eqb (map_string to_lower (f_name f)) (map_string to_lower name)) fs
  end.

Fixpoint decode_members {R} (fs : list (Field R)) (members : list (string * Json)) (r : R) :
    R * bool :=
  match members with
  | [] => (r, true)
  | (name, j) :: members =>
      match find_field fs name with
      | None => decode_members fs members r
      | Some f =>
          let '(r, ok) := f_decode f j r in
          let '(r, ok') := decode_members fs members r in (r, ok && ok')
      end
  end.

Definition decode_struct {R} (fs : list (Field R)) : decoder R := λ j r,
  match j with
  | JNull => (r, true)
  | JObject members => decode_members fs members r
  | _ => (r, false)
  end.

Definition marshal_struct {R} (fs : list (Field R)) (r : R) : Json :=
  JObject (omap (λ f, if f_omit f r then None else Some (f_name f, f_marshal f r)) fs).

(** ** Writing values *)

(** Go writes the entries of a map in the order of their keys. *)
Definition key_le (a b : string * string) : Prop := String.leb a.1 b.1 = true.

#[export] Instance key_le_dec : RelDecision key_le.
Proof. intros a b. unfold key_le. apply _. Defined.

Definition marshal_map (m : gmap string string) : Json :=
  JObject (prod_map id JString <$> merge_sort key_le (map_to_list m)).

Definition marshal_list {A} (f : A → Json) (l : list A) : Json := JArray (f <$> l).

(** ** What is written can be read back *)

Definition put_entry (m : gmap string string) (e : string * string) : gmap string string :=
  <[e.1 := e.2]> m.

Lemma decode_entries_written l m :
  decode_entries (prod_map id JString <$> l) m = (foldl put_entry m l, true).
Proof.
  revert m. induction l as [|[k v] l IH]; intros m; csimpl; [done|]. by rewrite IH.
Qed.

Lemma foldl_put_entry (l : list (string * string)) (m : gmap string string) :
  NoDup l.*1 → foldl put_entry m l = list_to_map l ∪ m.
Proof.
  revert m. induction l as [|[k v] l IH]; intros m; simpl; [by rewrite map_empty_union|].
  intros [Hk Hl]%NoDup_cons. rewrite IH by done. unfold put_entry. simpl.
  rewrite <-insert_union_r by (by apply not_elem_of_list_to_map_1).
  by rewrite insert_union_l.
Qed.

Lemma decode_marshal_map m : decode_map (marshal_map m) ∅ = (m, true).
Proof.
  unfold marshal_map. cbn -[merge_sort]. rewrite decode_entries_written.
  assert (Hp : merge_sort key_le (map_to_list m) ≡ₚ map_to_list m) by apply merge_sort_Permutation.
  assert (Hn : NoDup (merge_sort key_le (map_to_list m)).*1).
  { rewrite Hp. apply NoDup_fst_map_to_list. }
  rewrite foldl_put_entry, map_union_empty by done.
  by rewrite (list_to_map_proper _ _ Hn Hp), list_to_map_to_list.
Qed.

Lemma decode_marshal_list {A} (d : decoder A) zero f l :
  Forall (λ a, d (f a) zero = (a, true)) l →
  decode_list d zero (marshal_list f l) [] = (l, true).
Proof.
  unfold marshal_list. simpl. induction 1 as [|a l Ha _ IH]; csimpl; [done|]. by rewrite Ha, IH.
Qed.

Lemma decode_marshal_strings l : decode_list decode_string "" (marshal_list JString l) [] = (l, true).
Proof. apply decode_marshal_list, Forall_true. done. Qed.

Lemma in_int64b_true z : in_int64 z → in_int64b z = true.
Proof. unfold in_int64, in_int64b. intros ?. apply andb_true_iff. lia. Qed.

Lemma decode_int64_written z : in_int64 z → ∀ old, decode_int64 (JInt z) old = (z, true).
Proof. intros Hz old. simpl. by rewrite in_int64b_true. Qed.

(** ** JSON texts

    What [json.Marshal] writes: a value (Json.v) as a text without spaces,
    with the escapes of [encoding/json]; [<], [>], [&] and the two line
    separators are escaped besides what JSON asks for.  Strings are valid
    UTF-8, and the nil maps and slices, which are written as [null], are the
    empty ones here unless a definition says otherwise. *)

Definition hex_digit (n : nat) : ascii := ascii_of_nat (if (n <? 10)%nat then 48 + n else 87 + n).
Definition unicode_escape (hi lo : nat) : string :=
  "\u" +:+ String (hex_digit (hi / 16)) (String (hex_digit (hi mod 16))
    (String (hex_digit (lo / 16)) (String (hex_digit (lo mod 16)) ""))).

Definition json_escape (c : ascii) : string :=
  let n := nat_of_ascii c in
  if (n =? 34)%nat then "\" +:+ String c ""
  else if (n =? 92)%nat then "\\"
  else if (n =? 8)%nat then "\b"
  else if (n =? 12)%nat then "\f"
  else if (n =? 10)%nat then "\n"
  else if (n =? 13)%nat then "\r"
  else if (n =? 9)%nat then "\t"
  else if ((n <? 32) || (n =? 60) || (n =? 62) || (n =? 38))%nat then unicode_escape 0 n
  else String c "".

Fixpoint json_chars (s : string) : string :=
  match s with
  | EmptyString => ""
  | String "226" (String "128" (String "168" s)) => unicode_escape 32 40 +:+ json_chars s
  | String "226" (String "128" (String "169" s)) => unicode_escape 32 41 +:+ json_chars s
  | String c s => json_escape c +:+ json_chars s
  end.

Definition json_string (s : string) : string := quoted (json_chars s).

(** [null], [true], numbers, strings, and what is built of them. *)
Fixpoint json_print (j : Json) : string :=
  match j with
  | JNull => "null"
  | JBool b => if b then "true" else "false"
  | JInt z => pretty z
  | JFraction literal => literal
  | JString s => json_string s
  | JArray l => "[" +:+ Join (map json_print l) "," +:+ "]"
  | JObject members =>
      "{" +:+ Join (map (λ '(k, v), json_string k +:+ ":" +:+ json_print v) members) "," +:+ "}"
  end.

(** The keys of a map are sorted. *)
Definition json_map (m : gmap string string) : string := json_print (marshal_map m).
Definition json_list (l : list string) : string := json_print (marshal_list JString l).

Example json_example :
  json_map {["b" := "x"; "a" := "1<2"]} =
    "{" +:+ quoted "a" +:+ ":" +:+ quoted "1\u003c2" +:+ "," +:+ quoted "b" +:+ ":" +:+ quoted "x" +:+ "}".
Proof. vm_compute. reflexivity. Qed.
