(* ===== verification/Watch.v ===== *)
(** * Watching a saga: what is shown

    [pkg/trax/watch]: the texts of [format.go], the records of [types.go], and
    what [display.go] makes of the steps it is given.  A printer is the list of
    the lines it was given.  A time is in nanoseconds since 1970 and [None] is
    Go's zero time; a report reads the clock once. *)

From stdpp Require Import pretty numbers gmap sorting.
From stdpp Require Import numbers gmap.
From S2P Require Import Prelude GoMonad Model GoStrings Json.
From Stdlib Require Import Strings.Ascii.

(** ** Formats *)

(** [Format] with the layout [15:04:05.000Z], in UTC. *)
Definition FormatTimestamp (now : Z) : string :=
  let s := Z.modulo (Z.div now second) 86400 in
  padded_digits 2 (Z.div s 3600) +:+ ":" +:+ padded_digits 2 (Z.modulo (Z.div s 60) 60) +:+ ":" +:+
    padded_digits 2 (Z.modulo s 60) +:+ "." +:+ padded_digits 3 (Z.modulo (Z.div now 1000000) 1000) +:+ "Z".

(** [d.Milliseconds()] and the whole seconds and minutes of a duration. *)
Definition FormatDuration (d : Z) : string :=
  let ms := Z.rem (Z.quot d 1000000) 1000 in
  if (d <? second)%Z then FormatInt (Z.quot d 1000000) +:+ "ms"
  else
    let seconds := Z.quot d second in
    if (d <? 60 * second)%Z then FormatInt seconds +:+ "." +:+ padded_digits 3 ms +:+ "s"
    else
      FormatInt (Z.quot seconds 60) +:+ "m" +:+ FormatInt (Z.rem seconds 60) +:+ "." +:+
        padded_digits 3 ms +:+ "s".

Definition FormatDurationPadded (d : Z) : string := pad_left 10 (FormatDuration d).

Definition ShortenID (id : string) : string :=
  if String.length id <=? 7 then id else first_chars 4 id +:+ ".." +:+ last_chars 3 id.

(** [s[len(prefix):]] if [s] is longer than the prefix and begins with it. *)
Definition after_prefix (prefix s : string) : option string :=
  if (String.length prefix <? String.length s) && String.prefix prefix s then
    Some (drop_string (String.length prefix) s)
  else None.

Definition ShortenSagaState (state : string) : string :=
  default state (after_prefix "SAGA_STATE_ENUM_" state).

Definition ShortenStepState (state : string) : string :=
  match after_prefix "SAGA_STEP_STATE_ENUM_" state with
  | None => state
  | Some shortState =>
      match after_prefix "EXECUTION_" shortState with
      | Some rest => "EXEC_" +:+ rest
      | None =>
          match after_prefix "COMPENSATION_" shortState with
          | Some rest => "COMP_" +:+ rest
          | None => shortState
          end
      end
  end.

Definition ShortenTemplateID (templateID : string) : string :=
  match last_index ":" templateID with
  | Some i => drop_string (S i) templateID
  | None => templateID
  end.

(** A negative number of repetitions is a panic. *)
Definition BuildProgressBar (percent width : Z) : option string :=
  let percent := if (percent <? 0)%Z then 0%Z else percent in
  let percent := if (100 <? percent)%Z then 100%Z else percent in
  let filled := Z.quot (percent * width) 100 in
  if (filled <? 0)%Z || (width - filled <? 0)%Z then None
  else Some (Repeat "█" (Z.to_nat filled) +:+ Repeat "░" (Z.to_nat (width - filled))).

Definition GetStepIndicator (status : string) : string :=
  if contains "DONE" status then "✓"
  else if contains "RUNNING" status || contains "STARTED" status then "▶"
  else if contains "PENDING" status then "○"
  else if contains "ERROR" status || contains "COMPENSATION" status then "✗"
  else "?".

Definition IsStepRunning (status : string) : bool := contains "RUNNING" status || contains "STARTED" status.
Definition IsStepDone (status : string) : bool :=
  contains "DONE" status || contains "ERROR" status || contains "COMPENSATION" status.
Definition IsStepPending (status : string) : bool := contains "PENDING" status.
Definition IsStepExecutionFailed (status : string) : bool := contains "EXECUTION_FAILED" status.

Definition IsTerminalState (state : string) : bool :=
  bool_decide (ShortenSagaState state ∈ ["COMMITTED"; "COMPENSATED"; "BLOCKED"; "INVALID_STATE"]).
Definition IsSuccessState (state : string) : bool := String.eqb (ShortenSagaState state) "COMMITTED".
Definition IsFailureState (state : string) : bool :=
  bool_decide (ShortenSagaState state ∈ ["COMPENSATED"; "BLOCKED"; "INVALID_STATE"]).

(** ** Records *)

Record StepStatus := mkStepStatus {
  st_StepInstanceID : string;
  st_StepTemplateID : string;
  st_Status : string;
  st_Result : Json;
  st_CompensationResult : Json;
  st_ExecutionError : string;
}.

Record ChildSagaInfo := mkChildSagaInfo {
  ci_SagaInstanceID : string;
  ci_SagaTemplateID : string;
  ci_State : string;
  ci_ParentStepInstanceID : string;
  ci_Steps : list StepStatus;
}.

Record StepSummary := mkStepSummary {
  sm_Total : nat;
  sm_Completed : nat;
  sm_Pending : nat;
  sm_Failed : nat;
  sm_ByState : gmap string nat;
}.

(** [ChildSagasByStep] is set when there are children. *)
Record SagaStatus := mkSagaStatus {
  sg_SagaInstanceID : string;
  sg_Status : string;
  sg_SagaTemplateID : string;
  sg_StepSummary : StepSummary;
  sg_StepStatuses : list StepStatus;
  sg_ChildSagasByStep : gmap string (list ChildSagaInfo);
}.

Record StepTiming := mkStepTiming {
  tm_StartTime : option Z;
  tm_EndTime : option Z;
  tm_Duration : Z;
  tm_IsCompleted : bool;
}.

Record Timing := mkTiming {
  tg_SagaStartTime : Z;
  tg_StateStartTime : Z;
  tg_LastState : string;
  tg_StepTimings : gmap string StepTiming;
}.

Definition NewTiming (now : Z) : Timing := mkTiming now now "" ∅.

Record Config := mkConfig { cf_WindowSize : Z; cf_ProgressBarWidth : Z }.
Definition DefaultConfig : Config := mkConfig 5 20.

(** ** What is kept of the steps *)

Definition update_timing (now : Z) (status : string) (t : StepTiming) : StepTiming :=
  let t := match IsStepRunning status, tm_StartTime t with
           | true, None => mkStepTiming (Some now) (tm_EndTime t) (tm_Duration t) (tm_IsCompleted t)
           | _, _ => t
           end in
  if IsStepDone status && negb (tm_IsCompleted t) then
    mkStepTiming (tm_StartTime t) (Some now)
      (match tm_StartTime t with Some start => now - start | None => tm_Duration t end) true
  else t.

Definition UpdateStepTimings (now : Z) (timing : Timing) (steps : list StepStatus) : Timing :=
  mkTiming (tg_SagaStartTime timing) (tg_StateStartTime timing) (tg_LastState timing)
    (foldl (λ m step,
       <[st_StepTemplateID step :=
           update_timing now (st_Status step)
             (default (mkStepTiming None None 0 false) (m !! st_StepTemplateID step))]> m)
     (tg_StepTimings timing) steps).

Definition UpdateStateTracking (now : Z) (timing : Timing) (status : string) : Timing :=
  if String.eqb (tg_LastState timing) status then timing
  else mkTiming (tg_SagaStartTime timing) now status (tg_StepTimings timing).

Definition count_step (s : StepSummary) (step : StepStatus) : StepSummary :=
  let status := st_Status step in
  let by_state := <[status := S (default 0 (sm_ByState s !! status))]> (sm_ByState s) in
  if contains "DONE" status then
    mkStepSummary (sm_Total s) (S (sm_Completed s)) (sm_Pending s) (sm_Failed s) by_state
  else if contains "PENDING" status then
    mkStepSummary (sm_Total s) (sm_Completed s) (S (sm_Pending s)) (sm_Failed s) by_state
  else if contains "ERROR" status || contains "COMPENSATION" status then
    mkStepSummary (sm_Total s) (sm_Completed s) (sm_Pending s) (S (sm_Failed s)) by_state
  else mkStepSummary (sm_Total s) (sm_Completed s) (sm_Pending s) (sm_Failed s) by_state.

Definition BuildSagaStatus (sagaInstanceID templateID status : string) (steps : list StepStatus) : SagaStatus :=
  mkSagaStatus sagaInstanceID status templateID
    (foldl count_step (mkStepSummary (length steps) 0 0 0 ∅) steps) steps ∅.

(** [%v] of a slice of strings. *)
Definition show_strings (l : list string) : string := "[" +:+ Join l " " +:+ "]".

Definition completed_steps (steps : list StepStatus) : nat :=
  length (filter (λ s, IsStepDone (st_Status s) = true) steps).

Definition ratio (a b : nat) : string := FormatInt (Z.of_nat a) +:+ "/" +:+ FormatInt (Z.of_nat b).

Definition child_key (stepID : string) (child : ChildSagaInfo) : string :=
  (if 8 <? String.length stepID then first_chars 8 stepID else stepID) +:+ ":" +:+
  ShortenSagaState (ci_State child) +:+ ":" +:+ ratio (completed_steps (ci_Steps child)) (length (ci_Steps child)).

(** The map of children is ranged over in an order of its own. *)
Definition BuildStateKey (order : list (string * list ChildSagaInfo)) (status : SagaStatus) : string :=
  let runningSteps := (λ s, ShortenTemplateID (st_StepTemplateID s)) <$>
    filter (λ s, IsStepRunning (st_Status s) = true) (sg_StepStatuses status) in
  let runningKey := match runningSteps with [] => "" | _ => "-running:" +:+ show_strings runningSteps end in
  let childKeys := order ≫= (λ sc, child_key sc.1 <$> sc.2) in
  let children := match order with
                  | [] => ""
                  | _ => "-children:" +:+ show_strings (merge_sort String.le childKeys)
                  end in
  let sum := sg_StepSummary status in
  let n k := FormatInt (Z.of_nat k) in
  sg_Status status +:+ "-" +:+ n (sm_Completed sum) +:+ "-" +:+ n (sm_Pending sum) +:+ "-" +:+
    n (sm_Failed sum) +:+ runningKey +:+ children.

(** ** The window of steps that are shown *)

Definition find_step (p : string → bool) (steps : list StepStatus) : option nat :=
  find_index (λ s, p (st_Status s)) steps.

Definition findCurrentStepIndex (status : SagaStatus) : Z :=
  match find_step IsStepRunning (sg_StepStatuses status) with
  | Some i => Z.of_nat i
  | None =>
      match find_step IsStepPending (sg_StepStatuses status) with
      | Some i => Z.of_nat i
      | None => Z.max 0 (Z.of_nat (sm_Completed (sg_StepSummary status)) - 1)
      end
  end.

Definition calculateWindow (windowSize currentIdx totalSteps : Z) : Z * Z :=
  if (windowSize =? 0)%Z then (0, totalSteps)%Z
  else
    let halfWindow := Z.quot (windowSize - 1) 2 in
    let startIdx := (currentIdx - halfWindow)%Z in
    let endIdx := (currentIdx + halfWindow + 1 + Z.rem (windowSize - 1) 2)%Z in
    let '(startIdx, endIdx) :=
      if (startIdx <? 0)%Z then (0, endIdx - startIdx)%Z else (startIdx, endIdx) in
    let '(startIdx, endIdx) :=
      if (totalSteps <? endIdx)%Z then (startIdx - (endIdx - totalSteps), totalSteps)%Z
      else (startIdx, endIdx) in
    (Z.max 0 startIdx, endIdx).

(** [for i := start; i < end; i++] over [l[i]]: an index out of range is a
    panic. *)
Definition in_window {A} (l : list A) (start finish : Z) : option (list (Z * A)) :=
  mapM (λ i, if (i <? 0)%Z then None else (λ a, (i, a)) <$> l !! Z.to_nat i)
    (seqZ start (finish - start)).

(** ** Laws *)

(** Around the current step the window has as many steps as it may have. *)
Lemma calculateWindow_fits windowSize currentIdx totalSteps start finish :
  (0 ≤ windowSize)%Z → (0 ≤ currentIdx < totalSteps)%Z →
  calculateWindow windowSize currentIdx totalSteps = (start, finish) →
  (0 ≤ start ≤ currentIdx ∧ currentIdx < finish ≤ totalSteps ∧
   finish - start = if windowSize =? 0 then totalSteps else Z.min windowSize totalSteps)%Z.
Proof.
  intros Hw Hc. unfold calculateWindow. destruct (Z.eqb_spec windowSize 0) as [->|Hne].
  { intros [= <- <-]. lia. }
  pose proof (Z.quot_rem' (windowSize - 1) 2) as Hq.
  pose proof (Z.rem_bound_pos (windowSize - 1) 2 ltac:(lia) ltac:(lia)) as Hr.
  pose proof (Z.quot_pos (windowSize - 1) 2 ltac:(lia) ltac:(lia)) as Hh.
  generalize dependent (Z.quot (windowSize - 1) 2). generalize dependent (Z.rem (windowSize - 1) 2).
  intros r Hr h Hq Hh.
  destruct (Z.ltb_spec (currentIdx - h) 0);
    [destruct (Z.ltb_spec totalSteps (currentIdx + h + 1 + r - (currentIdx - h)))
    |destruct (Z.ltb_spec totalSteps (currentIdx + h + 1 + r))]; intros [= <- <-]; lia.
Qed.

Lemma count_steps_completed s steps :
  sm_Completed (foldl count_step s steps) ≤ sm_Completed s + length steps ∧
  sm_Total (foldl count_step s steps) = sm_Total s.
Proof.
  revert s. induction steps as [|step steps IH]; intros s; simpl; [lia|].
  destruct (IH (count_step s step)) as [H1 H2]. rewrite H2. unfold count_step in *.
  destruct (contains "DONE" _); [simpl in *; lia|]. destruct (contains "PENDING" _); [simpl in *; lia|].
  destruct (_ || _); simpl in *; lia.
Qed.

(** No more steps are counted as completed than there are. *)
Definition well_counted (s : SagaStatus) : Prop :=
  sm_Completed (sg_StepSummary s) ≤ length (sg_StepStatuses s).

Lemma BuildSagaStatus_counts id template status steps :
  well_counted (BuildSagaStatus id template status steps).
Proof.
  unfold well_counted. simpl.
  destruct (count_steps_completed (mkStepSummary (length steps) 0 0 0 ∅) steps) as [H _]. simpl in H. lia.
Qed.

(** The current step is one of the steps. *)
Lemma findCurrentStepIndex_range s :
  well_counted s → sg_StepStatuses s ≠ [] →
  (0 ≤ findCurrentStepIndex s < Z.of_nat (length (sg_StepStatuses s)))%Z.
Proof.
  unfold well_counted. intros Hc Hne.
  assert (Hlen : 0 < length (sg_StepStatuses s)) by (destruct (sg_StepStatuses s); [done|simpl; lia]).
  unfold findCurrentStepIndex, find_step.
  destruct (find_index _ (sg_StepStatuses s)) as [i|] eqn:Hi.
  { apply find_index_Some in Hi as (x & Hx & _). apply lookup_lt_Some in Hx. lia. }
  clear Hi. destruct (find_index _ (sg_StepStatuses s)) as [i|] eqn:Hi.
  { apply find_index_Some in Hi as (x & Hx & _). apply lookup_lt_Some in Hx. lia. }
  lia.
Qed.

Lemma calculateWindow_nothing windowSize :
  (0 ≤ windowSize)%Z → calculateWindow windowSize 0 0 = (0, 0)%Z.
Proof.
  intros Hw. unfold calculateWindow. destruct (Z.eqb_spec windowSize 0) as [->|Hne]; [done|].
  pose proof (Z.rem_bound_pos (windowSize - 1) 2 ltac:(lia) ltac:(lia)) as Hr.
  pose proof (Z.quot_pos (windowSize - 1) 2 ltac:(lia) ltac:(lia)) as Hh.
  generalize dependent (Z.quot (windowSize - 1) 2). generalize dependent (Z.rem (windowSize - 1) 2).
  intros r Hr h Hh.
  destruct (Z.ltb_spec (0 - h) 0); [destruct (Z.ltb_spec 0 (0 + h + 1 + r - (0 - h)))
    |destruct (Z.ltb_spec 0 (0 + h + 1 + r))]; f_equal; lia.
Qed.

(** The window lies among the steps. *)
Lemma window_inside windowSize s start finish :
  (0 ≤ windowSize)%Z → well_counted s →
  calculateWindow windowSize (findCurrentStepIndex s) (Z.of_nat (length (sg_StepStatuses s))) = (start, finish) →
  (0 ≤ start)%Z ∧ (finish ≤ Z.of_nat (length (sg_StepStatuses s)))%Z.
Proof.
  intros Hw Hc Hwin. destruct (decide (sg_StepStatuses s = [])) as [He|Hne].
  - assert (Hcur : findCurrentStepIndex s = 0%Z).
    { unfold well_counted in Hc. unfold findCurrentStepIndex, find_step. rewrite He in *. simpl in *. lia. }
    rewrite Hcur, He in Hwin. simpl in Hwin. rewrite calculateWindow_nothing in Hwin by done.
    injection Hwin as <- <-. rewrite He. simpl. lia.
  - pose proof (findCurrentStepIndex_range s Hc Hne) as Hr.
    destruct (calculateWindow_fits _ _ _ _ _ Hw Hr Hwin) as ([? _] & [_ ?] & _). lia.
Qed.

Lemma in_window_total {A} (l : list A) start finish :
  (0 ≤ start)%Z → (finish ≤ Z.of_nat (length l))%Z → is_Some (in_window l start finish).
Proof.
  intros Hs Hf. unfold in_window. apply mapM_is_Some_2. apply Forall_forall. intros i Hi.
  apply elem_of_seqZ in Hi. simpl. destruct (Z.ltb_spec i 0); [lia|].
  change (is_Some ((λ a, (i, a)) <$> l !! Z.to_nat i)). apply fmap_is_Some, lookup_lt_is_Some. lia.
Qed.

(** However the map of children is ranged over, the key is the same: what is
    printed depends on the saga alone. *)
Theorem BuildStateKey_order order order' status :
  order ≡ₚ order' → BuildStateKey order status = BuildStateKey order' status.
Proof.
  intros Hp. unfold BuildStateKey.
  assert (Hk : (order ≫= λ sc, child_key sc.1 <$> sc.2) ≡ₚ (order' ≫= λ sc, child_key sc.1 <$> sc.2))
    by by apply bind_Permutation.
  assert (Hs : merge_sort String.le (order ≫= λ sc, child_key sc.1 <$> sc.2) =
    merge_sort String.le (order' ≫= λ sc, child_key sc.1 <$> sc.2)).
  { apply (Sorted_unique String.le); [apply (Sorted_merge_sort _)|apply (Sorted_merge_sort _)|].
    by rewrite !merge_sort_Permutation. }
  rewrite Hs. destruct order, order'; try done.
  - by apply Permutation_nil_l in Hp.
  - by apply Permutation_nil_r in Hp.
Qed.

(** The bar is as wide as it is told to be. *)
Theorem BuildProgressBar_width percent width :
  (0 ≤ width)%Z →
  ∃ filled, BuildProgressBar percent width =
    Some (Repeat "█" filled +:+ Repeat "░" (Z.to_nat width - filled)) ∧ filled ≤ Z.to_nat width ∧
    (filled = Z.to_nat width ↔ width = 0 ∨ 100 ≤ percent)%Z.
Proof.
  intros Hw. unfold BuildProgressBar.
  assert (Hp : ∃ p, (if (100 <? if (percent <? 0)%Z then 0%Z else percent)%Z then 100%Z
     else if (percent <? 0)%Z then 0%Z else percent) = p ∧ (0 ≤ p ≤ 100)%Z ∧ (100 ≤ percent ↔ p = 100)%Z).
  { destruct (Z.ltb_spec percent 0); [by exists 0%Z; split_and!; try lia|].
    destruct (Z.ltb_spec 100 percent); eexists; split_and!; try done; lia. }
  destruct Hp as (p & -> & Hp & Hfull). rewrite Z.quot_div_nonneg by nia.
  assert (H0 : (0 ≤ p * width / 100)%Z) by (apply Z.div_pos; nia).
  assert (H1 : (p * width / 100 ≤ width)%Z) by (apply Z.div_le_upper_bound; nia).
  assert (H2 : (p * width / 100 = width ↔ width = 0 ∨ p = 100)%Z).
  { split; [|intros [->| ->]; [by rewrite Z.mul_0_r|by rewrite Z.mul_comm, Z.div_mul]].
    intros Heq. pose proof (Z.mul_div_le (p * width) 100). nia. }
  rewrite (proj2 (Z.ltb_ge _ _)) by lia. rewrite (proj2 (Z.ltb_ge _ _)) by lia. simpl.
  exists (Z.to_nat (p * width / 100)). split; [by rewrite Z2Nat.inj_sub|]. lia.
Qed.

(** *** The states of a step, as they are shown *)

(** What is said of a step in a state: running, done, pending; the mark. *)
Definition shown_as (s : SagaStepStateEnum) : bool * bool * bool * string :=
  let status := SagaStepStateEnum_string s in
  (IsStepRunning status, IsStepDone status, IsStepPending status, GetStepIndicator status).

(** A step whose execution has failed, succeeded or been aborted has no mark and
    is neither done nor pending; a step to be compensated is done and pending,
    one that is being compensated done and running. *)
Theorem steps_are_shown s :
  shown_as s =
    match s with
    | SagaStepStateEnum_ExecutionPending => (false, false, true, "○")
    | SagaStepStateEnum_ExecutionRunning => (true, false, false, "▶")
    | SagaStepStateEnum_ExecutionDone => (false, true, false, "✓")
    | SagaStepStateEnum_CompensationPending => (false, true, true, "○")
    | SagaStepStateEnum_CompensationRunning => (true, true, false, "▶")
    | SagaStepStateEnum_CompensationDone => (false, true, false, "✓")
    | SagaStepStateEnum_CompensationCandidate | SagaStepStateEnum_CompensationSucceeded
    | SagaStepStateEnum_CompensationFailed | SagaStepStateEnum_CompensationBlocked =>
        (false, true, false, "✗")
    | _ => (false, false, false, "?")
    end.
Proof. by destruct s. Qed.

(** The sagas that the watcher takes for ended are not those that are cancelled. *)
Theorem terminal_sagas s :
  IsTerminalState (SagaStateEnum_string s) =
    bool_decide (s ∈ [SagaStateEnum_Committed; SagaStateEnum_Compensated; SagaStateEnum_Blocked;
      SagaStateEnum_InvalidState]) ∧
  IsTerminalState (SagaStateEnum_string s) =
    IsSuccessState (SagaStateEnum_string s) || IsFailureState (SagaStateEnum_string s).
Proof. by destruct s. Qed.

(** A saga that was compensated is shown as complete. *)
Example compensated_counts_as_completed :
  let step id s := mkStepStatus id id (SagaStepStateEnum_string s) JNull JNull "" in
  sm_Completed (sg_StepSummary (BuildSagaStatus "s" "t" "SAGA_STATE_ENUM_COMPENSATED"
    [step "a" SagaStepStateEnum_CompensationDone; step "b" SagaStepStateEnum_ExecutionFailed])) = 1.
Proof. by vm_compute. Qed.

Example times_of_day :
  FormatTimestamp 1700000000123456789 = "22:13:20.123Z" ∧ FormatTimestamp 0 = "00:00:00.000Z".
Proof. by vm_compute. Qed.

Example durations :
  FormatDuration <$> [999999999; 59007000000; 61000000000]%Z = ["999ms"; "59.007s"; "1m1.000s"].
Proof. by vm_compute. Qed.

Lemma BuildStateKey_order_witness :
  let child := mkChildSagaInfo "c" "shop:part" "SAGA_STATE_ENUM_RUNNING" "i1" [] in
  let status := BuildSagaStatus "s" "shop" "SAGA_STATE_ENUM_RUNNING" [] in
  BuildStateKey [("i2", [child]); ("i1", [child])] status = BuildStateKey [("i1", [child]); ("i2", [child])] status.
Proof. intros child status. apply BuildStateKey_order, Permutation_swap. Defined.

Lemma BuildProgressBar_width_witness :
  ∃ filled, BuildProgressBar 40 20 = Some (Repeat "█" filled +:+ Repeat "░" (20 - filled)) ∧ filled ≤ 20 ∧
    (filled = 20%nat ↔ 20 = 0 ∨ 100 ≤ 40)%Z.
Proof. by apply (BuildProgressBar_width 40 20). Defined.

(** ** Watching a saga: reports and the loop

    The reports of [pkg/trax/watch/display.go], line by line, and the loops
    [Watch] and [WatchUntil] of [watcher.go].  What the service answers and how
    long each answer takes is up to the environment; a report in which a bar or
    a step cannot be shown is a panic. *)

#[local] Open Scope go_scope.

(** The watcher: the clock, the lines printed, the timings, the questions put. *)
Record WatchWorld := mkWatchWorld {
  ww_now : Z;
  ww_lines : list string;
  ww_timing : Timing;
  ww_tick : nat;
}.

Record Fetched := mkFetched {
  ft_status : string;
  ft_templateID : string;
  ft_steps : list StepStatus;
  ft_compensationReason : string;
}.

(** An answer takes its time; children: [None] when no fetcher is set. *)
Record WatchEnv := mkWatchEnv {
  we_fetch : nat → (Fetched + string) * Z;
  we_children : nat → option ((list ChildSagaInfo + string) * Z);
  we_order : ∀ A, gmap string A → list (string * A);
}.

Section display.
Context (env : WatchEnv) (config : Config).
#[local] Notation Go := (M WatchWorld).

Definition PrintLine (line : string) : Go unit :=
  modify (λ w, mkWatchWorld (ww_now w) (ww_lines w ++ [line]) (ww_timing w) (ww_tick w)).
Definition PrintEmpty : Go unit := PrintLine "".

Definition set_timing (f : Timing → Timing) : Go unit :=
  modify (λ w, mkWatchWorld (ww_now w) (ww_lines w) (f (ww_timing w)) (ww_tick w)).
Definition pass_time (ns : Z) : Go unit :=
  modify (λ w, mkWatchWorld (ww_now w + ns) (ww_lines w) (ww_timing w) (ww_tick w)).
Definition watch_tick : Go nat := λ w,
  (Ret (ww_tick w), mkWatchWorld (ww_now w) (ww_lines w) (ww_timing w) (S (ww_tick w))).
Definition clock : Go Z := w <- get_state ;; ret (ww_now w).
Definition timing_of : Go Timing := w <- get_state ;; ret (ww_timing w).

Fixpoint for_each {A} (l : list A) (body : A → Go unit) : Go unit :=
  match l with
  | [] => ret tt
  | a :: l => body a ;;; for_each l body
  end.

Definition or_panic {A} (what : string) (o : option A) : Go A :=
  match o with Some a => ret a | None => panic what end.

Definition bar (completed total : Z) : Go (string * Z) :=
  let pct := if (0 <? total)%Z then Z.quot (completed * 100) total else 0%Z in
  b <- or_panic "strings: negative Repeat count" (BuildProgressBar pct (cf_ProgressBarWidth config)) ;;
  ret (b, pct).

(** The position of a step with the width of [%2d]. *)
Definition position (i : Z) : string := pad_left 2 (FormatInt (i + 1)).

(** What is said of the time a step took or has taken; the second way is that
    of the final results, which show no step as running. *)
Definition step_duration (running : bool) (now : Z) (timing : Timing) (step : StepStatus) : string :=
  let unknown := if IsStepDone (st_Status step) then " (?ms)" else "" in
  match tg_StepTimings timing !! st_StepTemplateID step with
  | None => unknown
  | Some t =>
      if tm_IsCompleted t && (0 <? tm_Duration t)%Z then " (" +:+ FormatDuration (tm_Duration t) +:+ ")"
      else
        match running && negb (tm_IsCompleted t), tm_StartTime t with
        | true, Some start => " (+" +:+ FormatDuration (now - start) +:+ ")"
        | _, _ => unknown
        end
  end.

Definition step_line (prefix : string) (i : Z) (step : StepStatus) (duration : string) : string :=
  prefix +:+ GetStepIndicator (st_Status step) +:+ " Step " +:+ position i +:+ " [" +:+
    pad_right 12 (ShortenStepState (st_Status step)) +:+ "]: " +:+
    ShortenTemplateID (st_StepTemplateID step) +:+ duration.

(** ** Child sagas, as the branches of a tree *)

Definition child_step_line (prefix : string) (count : Z) (j : Z) (step : StepStatus) : string :=
  prefix +:+ (if (j =? count - 1)%Z then "└─" else "├─") +:+ " " +:+ GetStepIndicator (st_Status step) +:+
    " " +:+ position j +:+ " [" +:+ pad_right 12 (ShortenStepState (st_Status step)) +:+ "]: " +:+
    ShortenTemplateID (st_StepTemplateID step).

(** [lead]: what the first line begins with; [more] and [last_one]: what the
    lines below begin with, depending on whether other children follow. *)
Definition printChild (lead more last_one : string) (is_last : bool) (child : ChildSagaInfo) : Go unit :=
  let steps := ci_Steps child in
  let stepCount := Z.of_nat (length steps) in
  let contPrefix := if is_last then last_one else more in
  '(childBar, childPct) <- bar (Z.of_nat (completed_steps steps)) stepCount ;;
  PrintLine (lead +:+ (if is_last then "└─" else "├─") +:+ " [" +:+ ShortenSagaState (ci_State child) +:+
    "] " +:+ ShortenTemplateID (ci_SagaTemplateID child) +:+ " (" +:+ FormatInt stepCount +:+ " steps)") ;;;
  PrintLine (contPrefix +:+ ci_SagaInstanceID child +:+ " " +:+
    ratio (completed_steps steps) (length steps) +:+ " [" +:+ childBar +:+ "] " +:+ FormatInt childPct +:+ "%") ;;;
  let childStatus := BuildSagaStatus (ci_SagaInstanceID child) (ci_SagaTemplateID child) (ci_State child) steps in
  let '(childStart, childEnd) :=
    calculateWindow (cf_WindowSize config) (findCurrentStepIndex childStatus) stepCount in
  (if (0 <? childStart)%Z then PrintLine (contPrefix +:+ "... " +:+ FormatInt childStart +:+ " steps before")
   else ret tt) ;;;
  shown <- or_panic "index out of range" (in_window steps childStart childEnd) ;;
  for_each shown (λ js, PrintLine (child_step_line contPrefix stepCount js.1 js.2)) ;;;
  if (childEnd <? stepCount)%Z then
    PrintLine (contPrefix +:+ "... " +:+ FormatInt (stepCount - childEnd) +:+ " steps after")
  else ret tt.

(** The children that were committed are not shown. *)
Definition printChildren (lead more last_one : string) (children : list ChildSagaInfo) : Go unit :=
  let visible := filter (λ c, IsSuccessState (ci_State c) = false) children in
  for_each (zip (seq 0 (length visible)) visible)
    (λ ic, printChild lead more last_one (S ic.1 =? length visible) ic.2).

(** ** Reports *)

Definition printStep (now : Z) (timing : Timing) (i : Z) (step : StepStatus)
    (children : list ChildSagaInfo) : Go unit :=
  PrintLine (step_line "│ │ " i step (step_duration true now timing step)) ;;;
  (if String.eqb (st_ExecutionError step) "" then ret tt
   else PrintLine ("│ │          ERROR: " +:+ st_ExecutionError step)) ;;;
  printChildren "│ │   " "│ │   │  " "│ │      " children.

Definition border_top : string := "┌──────────────────────────────────".
Definition border_bottom : string := "└──────────────────────────────────".

Definition PrintStatusOpen (status : SagaStatus) : Go unit :=
  now <- clock ;;
  timing <- timing_of ;;
  let sum := sg_StepSummary status in
  '(b, progressPct) <- bar (Z.of_nat (sm_Completed sum)) (Z.of_nat (sm_Total sum)) ;;
  PrintLine border_top ;;;
  PrintLine ("│ [" +:+ FormatTimestamp now +:+ "] [" +:+ ShortenSagaState (sg_Status status) +:+ " +" +:+
    FormatDuration (now - tg_StateStartTime timing) +:+ "] " +:+ ratio (sm_Completed sum) (sm_Total sum) +:+
    " [" +:+ b +:+ "] " +:+ FormatInt progressPct +:+ "% (total: " +:+
    FormatDuration (now - tg_SagaStartTime timing) +:+ ")") ;;;
  (if String.eqb (sg_SagaTemplateID status) "" then ret tt
   else PrintLine ("│ Template: " +:+ sg_SagaTemplateID status +:+ "  Instance: " +:+ sg_SagaInstanceID status)) ;;;
  let steps := sg_StepStatuses status in
  let total := Z.of_nat (length steps) in
  let '(startIdx, endIdx) := calculateWindow (cf_WindowSize config) (findCurrentStepIndex status) total in
  PrintLine "│ ┌────" ;;;
  (if (0 <? startIdx)%Z then PrintLine ("│ │ ... " +:+ FormatInt startIdx +:+ " steps before") else ret tt) ;;;
  shown <- or_panic "index out of range" (in_window steps startIdx endIdx) ;;
  for_each shown (λ js, printStep now timing js.1 js.2
    (default [] (sg_ChildSagasByStep status !! st_StepInstanceID js.2))) ;;;
  (if (endIdx <? total)%Z then PrintLine ("│ │ ... " +:+ FormatInt (total - endIdx) +:+ " steps after")
   else ret tt) ;;;
  PrintLine "│ └────" ;;;
  PrintLine "│".

Definition PrintStatusClose : Go unit := PrintLine border_bottom ;;; PrintEmpty.

Definition PrintStatus (status : SagaStatus) : Go unit := PrintStatusOpen status ;;; PrintStatusClose.

Definition PrintFinalResults (steps : list StepStatus) (childSagasByStep : gmap string (list ChildSagaInfo)) :
    Go unit :=
  match steps with
  | [] => ret tt
  | _ =>
      now <- clock ;;
      timing <- timing_of ;;
      PrintEmpty ;;;
      PrintLine "=== Final Step Results ===" ;;;
      PrintEmpty ;;;
      for_each (zip (seq 0 (length steps)) steps) (λ '(i, step),
        PrintLine (step_line "  " (Z.of_nat i) step (step_duration false now timing step)) ;;;
        (if String.eqb (st_ExecutionError step) "" then ret tt
         else PrintLine ("           ERROR: " +:+ st_ExecutionError step)) ;;;
        printChildren "    " "    │  " "       "
          (default [] (childSagasByStep !! st_StepInstanceID step))) ;;;
      PrintEmpty
  end.

(** The time since the watcher was made. *)
Definition total_elapsed : Go Z :=
  now <- clock ;; timing <- timing_of ;; ret (now - tg_SagaStartTime timing)%Z.

Definition PrintSuccess : Go unit :=
  now <- clock ;;
  total <- total_elapsed ;;
  PrintEmpty ;;;
  PrintLine ("✓ Saga COMMITTED successfully at " +:+ FormatTimestamp now +:+ " (total: " +:+
    FormatDuration total +:+ ")").

Definition has_error (step : StepStatus) : bool := negb (String.eqb (st_ExecutionError step) "").

(** The first step that failed with an error, or else the first with an error. *)
Definition root_cause (steps : list StepStatus) : option (StepStatus * bool) :=
  match List.find (λ s, has_error s && IsStepExecutionFailed (st_Status s)) steps with
  | Some s => Some (s, true)
  | None => (λ s, (s, false)) <$> List.find has_error steps
  end.

Definition printRootCause (steps : list StepStatus) : Go unit :=
  match root_cause steps with
  | None => ret tt
  | Some (step, failed) =>
      PrintLine ("  Root cause: step [" +:+ ShortenTemplateID (st_StepTemplateID step) +:+
        (if failed then "] failed with error:" else "] error:")) ;;;
      PrintLine ("    " +:+ st_ExecutionError step)
  end.

Definition PrintCompensated (steps : list StepStatus) (compensationReason : string) : Go unit :=
  now <- clock ;;
  total <- total_elapsed ;;
  PrintEmpty ;;;
  PrintLine ("✗ Saga COMPENSATED (rolled back) at " +:+ FormatTimestamp now +:+ " (total: " +:+
    FormatDuration total +:+ ")") ;;;
  (if String.eqb compensationReason "" then ret tt
   else PrintLine ("  Compensation reason: " +:+ compensationReason)) ;;;
  printRootCause steps.

Definition PrintFailure (state : string) (steps : list StepStatus) : Go unit :=
  now <- clock ;;
  total <- total_elapsed ;;
  PrintEmpty ;;;
  PrintLine ("✗ Saga FAILED with state " +:+ ShortenSagaState state +:+ " at " +:+ FormatTimestamp now +:+
    " (total: " +:+ FormatDuration total +:+ ")") ;;;
  printRootCause steps.

Definition PrintTimeout (timeout : Z) (finalStatus : string) : Go unit :=
  total <- total_elapsed ;;
  PrintEmpty ;;;
  PrintLine ("✗ Timeout after " +:+ DurationString timeout +:+ " (total: " +:+ FormatDuration total +:+
    ", final status: " +:+ ShortenSagaState finalStatus +:+ ")").

Definition PrintError (err : string) : Go unit :=
  now <- clock ;;
  PrintLine ("  [" +:+ FormatTimestamp now +:+ "] Error: " +:+ err).

Definition PrintNotFound (notFoundTimeout : Z) : Go unit :=
  now <- clock ;;
  PrintLine ("  [" +:+ FormatTimestamp now +:+ "] Saga not found (404), will timeout after " +:+
    DurationString notFoundTimeout +:+ " if it persists").

Definition PrintWatchHeader (sagaInstanceID templateID : string) (timeout pollInterval : Z) : Go unit :=
  PrintLine ("Watching saga: " +:+ sagaInstanceID) ;;;
  (if String.eqb templateID "" then ret tt else PrintLine ("Template: " +:+ templateID)) ;;;
  PrintLine ("Timeout: " +:+ DurationString timeout +:+ ", Poll interval: " +:+ DurationString pollInterval +:+
    ", Window: " +:+ FormatInt (cf_WindowSize config) +:+ " steps") ;;;
  PrintEmpty.

Definition PrintHeartbeat (status : SagaStatus) : Go unit :=
  now <- clock ;;
  timing <- timing_of ;;
  let head := "│ [" +:+ FormatTimestamp now +:+ "] " +:+
    ratio (sm_Completed (sg_StepSummary status)) (sm_Total (sg_StepSummary status)) +:+ " (total:" +:+
    FormatDurationPadded (now - tg_SagaStartTime timing) in
  match List.find (λ s, IsStepRunning (st_Status s)) (sg_StepStatuses status) with
  | None => PrintLine (head +:+ ") waiting...")
  | Some step =>
      let name := ShortenTemplateID (st_StepTemplateID step) in
      let running := match tg_StepTimings timing !! st_StepTemplateID step with
                     | Some (mkStepTiming (Some start) _ _ _) => " +" +:+ FormatDuration (now - start)
                     | _ => ""
                     end in
      (* a step whose name is empty counts as none *)
      if String.eqb name "" then PrintLine (head +:+ ") waiting...")
      else PrintLine (head +:+ ") ... " +:+ name +:+ running)
  end.
End display.

(** ** The loop *)

Record WatcherConfig := mkWatcherConfig {
  wc_Timeout : Z;
  wc_PollInterval : Z;
  wc_NotFoundTimeout : Z;
  wc_HeartbeatInterval : Z;
  wc_DisplayConfig : Config;
}.

Definition DefaultWatcherConfig : WatcherConfig :=
  mkWatcherConfig 600000000000 2000000000 60000000000 10000000000 DefaultConfig.

Record WatchResult := mkWatchResult {
  wr_FinalStatus : string;
  wr_Steps : list StepStatus;
  wr_CompensationReason : string;
  wr_Success : bool;
  wr_Error : option string;
}.

(** The two functions of the file that look for a text in another. *)
Fixpoint findSubstring_from (fuel i : nat) (s substr : string) : option nat :=
  match fuel with
  | O => None
  | S fuel =>
      if String.eqb (String.substring i (String.length substr) s) substr then Some i
      else findSubstring_from fuel (S i) s substr
  end.

Definition findSubstring (s substr : string) : option nat :=
  if String.length s <? String.length substr then None
  else findSubstring_from (S (String.length s - String.length substr)) 0 s substr.

Definition watch_contains (s substr : string) : bool :=
  (String.length substr <=? String.length s) &&
  (String.eqb s substr || (String.length substr =? 0) ||
   (negb (String.length s =? 0) && negb (String.length substr =? 0) &&
    bool_decide (is_Some (findSubstring s substr)))).

Definition isNotFoundError (err : string) : bool := watch_contains err "404" || watch_contains err "not found".

(** What the loop keeps between its turns. *)
Record LoopState := mkLoopState {
  ls_firstNotFound : option Z;
  ls_lastStateKey : string;
  ls_lastPrint : option Z;
  ls_headerPrinted : bool;
  ls_borderOpen : bool;
}.

Definition initial_loop_state : LoopState := mkLoopState None "" None false false.

Section watcher.
Context (env : WatchEnv) (sagaInstanceID : string) (config : WatcherConfig).
#[local] Notation Go := (M WatchWorld).
#[local] Notation display := (wc_DisplayConfig config).

Definition fetcher : Go (Fetched + string) :=
  n <- watch_tick ;;
  pass_time (we_fetch env n).2 ;;;
  ret (we_fetch env n).1.

Definition close_border (open : bool) : Go unit := if open then PrintStatusClose else ret tt.

(** The children by the step that started them, in the order they came. *)
Definition children_by_step (children : list ChildSagaInfo) : gmap string (list ChildSagaInfo) :=
  foldl (λ m c, <[ci_ParentStepInstanceID c := default [] (m !! ci_ParentStepInstanceID c) ++ [c]]> m)
    ∅ children.

Definition with_children (children : list ChildSagaInfo) (s : SagaStatus) : SagaStatus :=
  mkSagaStatus (sg_SagaInstanceID s) (sg_Status s) (sg_SagaTemplateID s) (sg_StepSummary s)
    (sg_StepStatuses s) (children_by_step children).

Definition fetch_children (s : SagaStatus) : Go SagaStatus :=
  n <- watch_tick ;;
  match we_children env n with
  | None => ret s
  | Some (answer, took) =>
      pass_time took ;;;
      match answer with
      | inr err => PrintError ("child saga fetch failed: " +:+ err) ;;; ret s
      | inl [] => ret s
      | inl children => ret (with_children children s)
      end
  end.

Definition print_header_once (templateID : string) (st : LoopState) : Go LoopState :=
  if ls_headerPrinted st then ret st
  else
    PrintWatchHeader display sagaInstanceID templateID (wc_Timeout config) (wc_PollInterval config) ;;;
    ret (mkLoopState (ls_firstNotFound st) (ls_lastStateKey st) (ls_lastPrint st) true (ls_borderOpen st)).

Definition set_firstNotFound (t : option Z) (st : LoopState) : LoopState :=
  mkLoopState t (ls_lastStateKey st) (ls_lastPrint st) (ls_headerPrinted st) (ls_borderOpen st).

(** A turn in which the saga could not be had: whether the loop gives up. *)
Definition failed_turn (err : string) (st : LoopState) : Go (LoopState + WatchResult) :=
  let again st := PrintError err ;;; pass_time (wc_PollInterval config) ;;; ret (inl st) in
  if isNotFoundError err then
    now <- clock ;;
    st <- (match ls_firstNotFound st with
           | Some _ => ret st
           | None =>
               st <- print_header_once "" (set_firstNotFound (Some now) st) ;;
               PrintNotFound (wc_NotFoundTimeout config) ;;;
               ret st
           end) ;;
    if (wc_NotFoundTimeout config <? now - default now (ls_firstNotFound st))%Z then
      close_border (ls_borderOpen st) ;;;
      ret (inr (mkWatchResult "NOT_FOUND" [] "" false
        (Some ("saga not found (404) for more than " +:+ DurationString (wc_NotFoundTimeout config)))))
    else again st
  else again (set_firstNotFound None st).

(** The report of a turn: a new one when something has changed, else a line in
    the old one now and then. *)
Definition report (sagaStatus : SagaStatus) (st : LoopState) : Go LoopState :=
  now <- clock ;;
  let stateKey := BuildStateKey (we_order env _ (sg_ChildSagasByStep sagaStatus)) sagaStatus in
  if negb (String.eqb stateKey (ls_lastStateKey st)) then
    close_border (ls_borderOpen st) ;;;
    PrintStatusOpen display sagaStatus ;;;
    ret (mkLoopState (ls_firstNotFound st) stateKey (Some now) (ls_headerPrinted st) true)
  else if (0 <? wc_HeartbeatInterval config)%Z &&
          match ls_lastPrint st with
          | Some t => (wc_HeartbeatInterval config <=? now - t)%Z
          | None => true
          end then
    PrintHeartbeat sagaStatus ;;;
    ret (mkLoopState (ls_firstNotFound st) (ls_lastStateKey st) (Some now) (ls_headerPrinted st) (ls_borderOpen st))
  else ret st.

(** The part of a turn that [Watch] and [WatchUntil] share. *)
Definition observe (f : Fetched) (st : LoopState) : Go (SagaStatus * LoopState) :=
  st <- print_header_once (ft_templateID f) st ;;
  now <- clock ;;
  set_timing (λ t, UpdateStateTracking now (UpdateStepTimings now t (ft_steps f)) (ft_status f)) ;;;
  sagaStatus <- fetch_children
    (BuildSagaStatus sagaInstanceID (ft_templateID f) (ft_status f) (ft_steps f)) ;;
  st <- report sagaStatus (set_firstNotFound None st) ;;
  ret (sagaStatus, st).

(** The end of a saga that has not come to the state that was waited for. *)
Definition print_unsuccessful (f : Fetched) : Go string :=
  if String.eqb (ShortenSagaState (ft_status f)) "COMPENSATED" then
    PrintCompensated (ft_steps f) (ft_compensationReason f) ;;;
    ret "saga compensated"
  else
    PrintFailure (ft_status f) (ft_steps f) ;;;
    ret ("saga failed: " +:+ ft_status f).

(** What a turn of [Watch] makes of a saga it has seen. *)
Definition conclude (f : Fetched) (s : SagaStatus) (st : LoopState) : Go (LoopState + WatchResult) :=
  if IsTerminalState (ft_status f) then
    close_border (ls_borderOpen st) ;;;
    err <- (if IsSuccessState (ft_status f) then PrintSuccess ;;; ret None
            else e <- print_unsuccessful f ;; ret (Some e)) ;;
    PrintFinalResults display (ft_steps f) (sg_ChildSagasByStep s) ;;;
    ret (inr (mkWatchResult (ft_status f) (ft_steps f) (ft_compensationReason f)
      (IsSuccessState (ft_status f)) err))
  else pass_time (wc_PollInterval config) ;;; ret (inl st).

(** The same for [WatchUntil]; when the saga ends otherwise, the reason for its
    compensation is not in the result. *)
Definition conclude_until (expectedStatus : string) (f : Fetched) (s : SagaStatus) (st : LoopState) :
    Go (LoopState + WatchResult) :=
  if String.eqb (ft_status f) expectedStatus then
    close_border (ls_borderOpen st) ;;;
    PrintSuccess ;;;
    PrintFinalResults display (ft_steps f) (sg_ChildSagasByStep s) ;;;
    ret (inr (mkWatchResult (ft_status f) (ft_steps f) (ft_compensationReason f) true None))
  else if IsTerminalState (ft_status f) then
    close_border (ls_borderOpen st) ;;;
    err <- print_unsuccessful f ;;
    PrintFinalResults display (ft_steps f) (sg_ChildSagasByStep s) ;;;
    ret (inr (mkWatchResult (ft_status f) (ft_steps f) "" false (Some err)))
  else pass_time (wc_PollInterval config) ;;; ret (inl st).

Definition timed_out (status : string) (steps : list StepStatus) : Go WatchResult :=
  PrintTimeout (wc_Timeout config) status ;;;
  ret (mkWatchResult status steps "" false
    (Some ("timeout after " +:+ DurationString (wc_Timeout config) +:+ " (final status: " +:+
      ShortenSagaState status +:+ ")"))).

(** The last look, after the deadline. *)
Definition last_look : Go WatchResult :=
  r <- fetcher ;;
  match r with
  | inl f =>
      if IsTerminalState (ft_status f) && IsSuccessState (ft_status f) then
        ret (mkWatchResult (ft_status f) (ft_steps f) "" true None)
      else timed_out (ft_status f) (ft_steps f)
  | inr _ => timed_out "" []
  end.

(** An answer that is an error has the zero values. *)
Definition last_look_until (expectedStatus : string) : Go WatchResult :=
  r <- fetcher ;;
  let '(status, steps) := match r with
                          | inl f => (ft_status f, ft_steps f)
                          | inr _ => ("", [])
                          end in
  if String.eqb status expectedStatus then ret (mkWatchResult status steps "" true None)
  else timed_out status steps.

Fixpoint watch_loop (end_turn : Fetched → SagaStatus → LoopState → Go (LoopState + WatchResult))
    (last : Go WatchResult) (fuel : nat) (deadline : Z) (st : LoopState) : Go WatchResult :=
  match fuel with
  | O => hang
  | S fuel =>
      now <- clock ;;
      if (now <? deadline)%Z then
        r <- fetcher ;;
        o <- (match r with
              | inr err => failed_turn err st
              | inl f => '(s, st) <- observe f st ;; end_turn f s st
              end) ;;
        match o with
        | inl st => watch_loop end_turn last fuel deadline st
        | inr result => ret result
        end
      else
        close_border (ls_borderOpen st) ;;;
        last
  end.

(** A turn takes at least the pause between two polls. *)
Definition watch_fuel : nat := S (S (Z.to_nat (Z.quot (wc_Timeout config) (wc_PollInterval config)))).

Definition Watch : Go WatchResult :=
  now <- clock ;;
  watch_loop conclude last_look watch_fuel (now + wc_Timeout config) initial_loop_state.

Definition WatchUntil (expectedStatus : string) : Go WatchResult :=
  now <- clock ;;
  watch_loop (conclude_until expectedStatus) (last_look_until expectedStatus) watch_fuel
    (now + wc_Timeout config) initial_loop_state.
End watcher.

(** ** Reading a result *)

Definition step_of (r : WatchResult) (stepTemplateID : string) : option StepStatus :=
  List.find (λ s, String.eqb (st_StepTemplateID s) stepTemplateID ||
    String.eqb (ShortenTemplateID (st_StepTemplateID s)) stepTemplateID) (wr_Steps r).

Definition GetStepResult (r : WatchResult) (id : string) : Json :=
  match step_of r id with Some s => st_Result s | None => JNull end.
Definition GetStepCompensationResult (r : WatchResult) (id : string) : Json :=
  match step_of r id with Some s => st_CompensationResult s | None => JNull end.
Definition GetCompensationReason (r : WatchResult) : string := wr_CompensationReason r.
Definition GetStepError (r : WatchResult) (id : string) : string :=
  match step_of r id with Some s => st_ExecutionError s | None => "" end.
