(* ===== verification/WatchSpecs.v ===== *)
(** * What a watcher comes to

    The watcher comes to an end in time, what it says of the saga is what the
    service has said, and its reports are opened and closed in turn. *)

From stdpp Require Import numbers gmap.
From Stdlib Require Import Strings.Ascii.
From Stdlib Require Strings.String.
From S2P Require Import Prelude GoMonad GoStrings Json Model Watch.
#[local] Open Scope go_scope.

(** ** Borders *)

(** Reading the lines: whether a report is open; [None] when one was opened in
    another or closed when none was open. *)
Definition read_line (open : option bool) (line : string) : option bool :=
  match open with
  | None => None
  | Some o =>
      if String.eqb line border_top then if o then None else Some true
      else if String.eqb line border_bottom then if o then Some false else None
      else Some o
  end.

Definition report_open (lines : list string) : option bool := foldl read_line (Some false) lines.

(** A line that is no border. *)
Definition plain (line : string) : bool :=
  negb (String.eqb line border_top) && negb (String.eqb line border_bottom).

Lemma report_open_plain lines line :
  plain line = true → report_open (lines ++ [line]) = report_open lines.
Proof.
  unfold plain, report_open. rewrite foldl_snoc. intros [H1 H2]%andb_true_iff.
  apply negb_true_iff in H1, H2. unfold read_line. rewrite H1, H2. by destruct (foldl _ _ _).
Qed.

(** What begins like neither border is plain. *)
Lemma plain_head c s :
  c ≠ "226"%char → plain (String c s) = true.
Proof.
  intros Hc. unfold plain. rewrite !(proj2 (String.eqb_neq _ _)); [done|intros [= ? _]; congruence..].
Qed.

Lemma plain_bar s : plain ("│" +:+ s) = true.
Proof. unfold plain. by rewrite !(proj2 (String.eqb_neq _ _)). Qed.

(** ** What a piece of the watcher does

    [does b m β Q]: with a report open as [b] says, [m] returns some [a], leaves
    it as [β a] says, time does not go back, and [Q a]. *)
Definition does {A} (b : bool) (m : M WatchWorld A) (β : A → bool) (Q : A → Prop) : Prop :=
  ∀ w, report_open (ww_lines w) = Some b →
    wp m (returns (λ a w', report_open (ww_lines w') = Some (β a) ∧ (ww_now w ≤ ww_now w')%Z ∧ Q a)) w.

Definition always {A} : A → Prop := λ _, True.

Section does.
Implicit Types (b : bool).

Lemma does_ret {A} b (a : A) (β : A → bool) (Q : A → Prop) : β a = b → Q a → does b (ret a) β Q.
Proof. intros <- HQ w Hw. apply wp_ret. by split_and!. Qed.

Lemma does_skip b : does b (ret tt) (λ _, b) always.
Proof. by apply does_ret. Qed.

Lemma does_bind {A B} b (m : M WatchWorld A) (k : A → M WatchWorld B) β Q β' Q' :
  does b m β Q → (∀ a, Q a → does (β a) (k a) β' Q') → does b (bind m k) β' Q'.
Proof.
  intros Hm Hk w Hw. apply wp_bind_ret. specialize (Hm w Hw). revert Hm. apply wp_returns_mono.
  intros a w' (Hb & Ht & Ha). specialize (Hk a Ha w' Hb). revert Hk. apply wp_returns_mono.
  intros c w'' (Hc & Ht' & HQ). split_and!; [done|lia|done].
Qed.

Lemma does_mono {A} b (m : M WatchWorld A) (β β' : A → bool) (Q Q' : A → Prop) :
  (∀ a, Q a → β a = β' a ∧ Q' a) → does b m β Q → does b m β' Q'.
Proof.
  intros HQ Hm w Hw. specialize (Hm w Hw). revert Hm. apply wp_returns_mono.
  intros a w' (Hb & Ht & Ha). destruct (HQ a Ha) as [<- ?]. by split_and!.
Qed.

Lemma does_line b line : plain line = true → does b (PrintLine line) (λ _, b) always.
Proof. intros Hp w Hw. unfold wp. simpl. rewrite report_open_plain by done. split_and!; [done|lia|done]. Qed.

Lemma does_clock b : does b clock (λ _, b) always.
Proof. intros w Hw. unfold wp. simpl. split_and!; [done|lia|done]. Qed.
Lemma does_timing b : does b timing_of (λ _, b) always.
Proof. intros w Hw. unfold wp. simpl. split_and!; [done|lia|done]. Qed.
Lemma does_set_timing b f : does b (set_timing f) (λ _, b) always.
Proof. intros w Hw. unfold wp. simpl. split_and!; [done|lia|done]. Qed.
Lemma does_tick b : does b watch_tick (λ _, b) always.
Proof. intros w Hw. unfold wp. simpl. split_and!; [done|lia|done]. Qed.
Lemma does_pass b ns : (0 ≤ ns)%Z → does b (pass_time ns) (λ _, b) always.
Proof. intros Hns w Hw. unfold wp. simpl. split_and!; [done|lia|done]. Qed.

Lemma does_for_each {A} b (l : list A) body :
  (∀ a, does b (body a) (λ _, b) always) → does b (for_each l body) (λ _, b) always.
Proof.
  intros Hb. induction l as [|a l IH]; simpl; [apply does_skip|].
  eapply does_bind; [apply Hb|]. by intros ? _.
Qed.

Lemma does_or_panic {A} b what (o : option A) :
  is_Some o → does b (or_panic what o) (λ _, b) always.
Proof. intros [a Ha]. rewrite Ha. by apply does_ret. Qed.
End does.

Create HintDb watch discriminated.
#[export] Hint Resolve does_clock does_timing does_set_timing does_tick : watch.

(** Cuts a sequence of prints apart; the lines that begin with a literal are
    plain. *)
Ltac plain_line :=
  first [apply plain_bar | apply plain_head; discriminate | reflexivity].

Ltac display :=
  repeat first
    [ progress intros
    | progress cbv zeta
    | lazymatch goal with
      | |- does _ (ret tt) _ _ => apply does_skip
      | |- does _ (ret _) _ _ => apply does_ret; [reflexivity|exact I]
      | |- does _ (bind _ _) _ _ => eapply does_bind
      | |- does _ (PrintLine _) _ _ => apply does_line; plain_line
      | |- does _ PrintEmpty _ _ => apply does_line; reflexivity
      | |- does _ (if ?c then _ else _) _ _ => destruct c
      | |- does _ (match ?x with _ => _ end) _ _ => destruct x
      | |- does _ (let '(_, _) := ?x in _) _ _ => destruct x
      | |- _ => solve [eauto with watch]
      end ].

(** ** Reports *)

Section reports.
Context (env : WatchEnv) (config : Config).
Hypothesis width_ok : (0 ≤ cf_ProgressBarWidth config)%Z.
Hypothesis window_ok : (0 ≤ cf_WindowSize config)%Z.

Lemma does_bar b completed total : does b (bar config completed total) (λ _, b) always.
Proof.
  unfold bar. eapply does_bind; [apply does_or_panic|display].
  destruct (BuildProgressBar_width
    (if (0 <? total)%Z then Z.quot (completed * 100) total else 0%Z) _ width_ok) as (f & -> & _). by eexists.
Qed.
#[local] Hint Resolve does_bar : watch.

Lemma does_shown {A} b (k : list (Z * StepStatus) → M WatchWorld A) s start finish β Q :
  well_counted s →
  calculateWindow (cf_WindowSize config) (findCurrentStepIndex s)
    (Z.of_nat (length (sg_StepStatuses s))) = (start, finish) →
  (∀ l, does b (k l) β Q) →
  does b (shown <- or_panic "index out of range" (in_window (sg_StepStatuses s) start finish) ;; k shown) β Q.
Proof.
  intros Hc Hw Hk. destruct (window_inside _ _ _ _ window_ok Hc Hw) as [H0 H1].
  eapply does_bind; [apply does_or_panic; by apply in_window_total|]. intros l _. apply Hk.
Qed.

Lemma does_printChild b lead more last_one is_last child :
  (∀ s, plain (lead +:+ s) = true) → (∀ s, plain (more +:+ s) = true) → (∀ s, plain (last_one +:+ s) = true) →
  does b (printChild config lead more last_one is_last child) (λ _, b) always.
Proof.
  intros Hl Hm Hn. unfold printChild.
  assert (Hcont : ∀ s, plain ((if is_last then last_one else more) +:+ s) = true) by (by destruct is_last).
  eapply does_bind; [apply does_bar|]. intros [childBar childPct] _.
  eapply does_bind; [apply does_line, Hl|]. intros ? _.
  eapply does_bind; [apply does_line, Hcont|]. intros ? _. cbv zeta.
  set (s := BuildSagaStatus _ _ _ _).
  assert (Hc : well_counted s) by apply BuildSagaStatus_counts.
  destruct (calculateWindow _ _ _) as [start finish] eqn:Hw.
  eapply does_bind; [destruct (0 <? start)%Z; [apply does_line, Hcont|apply does_skip]|]. intros ? _.
  apply (does_shown _ _ s start finish); [exact Hc|exact Hw|]. intros l.
  eapply does_bind; [apply does_for_each; intros js; apply does_line; apply Hcont|]. intros ? _.
  destruct (finish <? _)%Z; [apply does_line, Hcont|apply does_skip].
Qed.

Lemma does_printChildren b lead more last_one children :
  (∀ s, plain (lead +:+ s) = true) → (∀ s, plain (more +:+ s) = true) → (∀ s, plain (last_one +:+ s) = true) →
  does b (printChildren config lead more last_one children) (λ _, b) always.
Proof. intros Hl Hm Hn. apply does_for_each. intros ic. by apply does_printChild. Qed.

Lemma does_printStep b now timing i step children :
  does b (printStep config now timing i step children) (λ _, b) always.
Proof.
  unfold printStep. display. apply does_printChildren; intros s; apply plain_bar.
Qed.

Lemma does_open w (s : SagaStatus) :
  report_open (ww_lines w) = Some false → well_counted s →
  wp (PrintStatusOpen config s)
    (returns (λ _ w', report_open (ww_lines w') = Some true ∧ (ww_now w ≤ ww_now w')%Z)) w.
Proof.
  intros Hw Hc.
  assert (Hrest : ∀ m : M WatchWorld unit, does true m (λ _, true) always →
    does false (PrintLine border_top ;;; m) (λ _, true) always).
  { intros m Hm. eapply does_bind with (β := λ _, true) (Q := always); [|by intros ? _].
    intros w0 H0. unfold wp. simpl. unfold report_open in *. rewrite foldl_snoc, H0. split_and!; [done|lia|done]. }
  assert (Hd : does false (PrintStatusOpen config s) (λ _, true) always); [|].
  { unfold PrintStatusOpen. eapply does_bind; [apply does_clock|]. intros now _.
    eapply does_bind; [apply does_timing|]. intros timing _. cbv zeta.
    eapply does_bind; [apply does_bar|]. intros [b pct] _. apply Hrest.
    eapply does_bind; [apply does_line, plain_bar|]. intros ? _.
    eapply does_bind; [destruct (String.eqb _ _); [apply does_skip|apply does_line, plain_bar]|]. intros ? _.
    destruct (calculateWindow _ _ _) as [start finish] eqn:Hwin.
    eapply does_bind; [by apply does_line|]. intros ? _.
    eapply does_bind; [destruct (0 <? start)%Z; [apply does_line, plain_bar|apply does_skip]|]. intros ? _.
    eapply does_shown; [exact Hc|exact Hwin|]. intros l.
    eapply does_bind; [apply does_for_each; intros js; apply does_printStep|]. intros ? _.
    eapply does_bind; [destruct (finish <? _)%Z; [apply does_line, plain_bar|apply does_skip]|]. intros ? _.
    eapply does_bind; [by apply does_line|]. intros ? _. by apply does_line. }
  specialize (Hd w Hw). revert Hd. apply wp_returns_mono. by intros _ w' (? & ? & _).
Qed.

Lemma does_close : does true PrintStatusClose (λ _, false) always.
Proof.
  eapply does_bind with (β := λ _, false) (Q := always); [|intros ? _; by apply does_line].
  intros w0 H0. unfold wp. simpl. unfold report_open in *. rewrite foldl_snoc, H0. split_and!; [done|lia|done].
Qed.

Lemma does_close_border b : does b (close_border b) (λ _, false) always.
Proof. destruct b; [apply does_close|apply does_skip]. Qed.

Lemma does_final b steps children : does b (PrintFinalResults config steps children) (λ _, b) always.
Proof.
  unfold PrintFinalResults. destruct steps as [|step steps]; [apply does_skip|].
  eapply does_bind; [apply does_clock|]. intros now _. eapply does_bind; [apply does_timing|]. intros timing _.
  do 3 (eapply does_bind; [by apply does_line|]; intros ? _).
  eapply does_bind; [|intros ? _; by apply does_line].
  apply does_for_each. intros [i st]. display. apply does_printChildren; intros s; by apply plain_head.
Qed.

Lemma does_root_cause b steps : does b (printRootCause steps) (λ _, b) always.
Proof. unfold printRootCause. display. Qed.
#[local] Hint Resolve does_root_cause : watch.

Lemma does_elapsed b : does b total_elapsed (λ _, b) always.
Proof. unfold total_elapsed. display. Qed.
#[local] Hint Resolve does_elapsed : watch.

Lemma does_success b : does b PrintSuccess (λ _, b) always.
Proof. unfold PrintSuccess. display. Qed.
Lemma does_compensated b steps reason : does b (PrintCompensated steps reason) (λ _, b) always.
Proof. unfold PrintCompensated. display. Qed.
Lemma does_failure b state steps : does b (PrintFailure state steps) (λ _, b) always.
Proof. unfold PrintFailure. display. Qed.
Lemma does_timeout b timeout status : does b (PrintTimeout timeout status) (λ _, b) always.
Proof. unfold PrintTimeout. display. Qed.
Lemma does_error b err : does b (PrintError err) (λ _, b) always.
Proof. unfold PrintError. display. Qed.
Lemma does_not_found b timeout : does b (PrintNotFound timeout) (λ _, b) always.
Proof. unfold PrintNotFound. display. Qed.
Lemma does_header b id template timeout poll :
  does b (PrintWatchHeader config id template timeout poll) (λ _, b) always.
Proof. unfold PrintWatchHeader. display. Qed.
Lemma does_heartbeat b status : does b (PrintHeartbeat status) (λ _, b) always.
Proof. unfold PrintHeartbeat. display. Qed.
End reports.

(** ** The loop *)

(** [does], and at least [τ a] passes. *)
Definition does_for {A} (b : bool) (m : M WatchWorld A) (β : A → bool) (τ : A → Z) (Q : A → Prop) : Prop :=
  ∀ w, report_open (ww_lines w) = Some b →
    wp m (returns (λ a w', report_open (ww_lines w') = Some (β a) ∧
      (ww_now w + τ a ≤ ww_now w')%Z ∧ Q a)) w.

Lemma does_for_bind {A B} b (m : M WatchWorld A) (k : A → M WatchWorld B) β Q β' τ Q' :
  does b m β Q → (∀ a, Q a → does_for (β a) (k a) β' τ Q') → does_for b (bind m k) β' τ Q'.
Proof.
  intros Hm Hk w Hw. apply wp_bind_ret. specialize (Hm w Hw). revert Hm. apply wp_returns_mono.
  intros a w' (Hb & Ht & Ha). specialize (Hk a Ha w' Hb). revert Hk. apply wp_returns_mono.
  intros c w'' (Hc & Ht' & HQ). split_and!; [done|lia|done].
Qed.

Lemma does_for_ret {A} b (a : A) (β : A → bool) τ (Q : A → Prop) :
  β a = b → (τ a ≤ 0)%Z → Q a → does_for b (ret a) β τ Q.
Proof. intros <- Hτ HQ w Hw. apply wp_ret. split_and!; [done|lia|done]. Qed.

Lemma does_for_pause {A} b ns (a : A) (β : A → bool) τ (Q : A → Prop) :
  β a = b → (τ a ≤ ns)%Z → Q a → does_for b (pass_time ns ;;; ret a) β τ Q.
Proof. intros <- Hτ HQ w Hw. unfold wp. simpl. split_and!; [done|lia|done]. Qed.

(** What a result may say, [good] being the states that count as a success: it
    is successful exactly when the state that it gives, as the service has told
    it, is one of these; or it has no answer of the service to give. *)
Definition truthful (env : WatchEnv) (good : string → bool) (r : WatchResult) : Prop :=
  (wr_Error r = None ↔ wr_Success r = true) ∧
  ((∃ n f, (we_fetch env n).1 = inl f ∧ wr_FinalStatus r = ft_status f ∧ wr_Steps r = ft_steps f ∧
      wr_Success r = good (ft_status f)) ∨
   wr_Success r = false ∧ wr_Steps r = [] ∧ wr_FinalStatus r ∈ ["NOT_FOUND"; ""]).

Section loop.
Context (env : WatchEnv) (sagaInstanceID : string) (config : WatcherConfig).

Record watcher_ok : Prop := {
  wk_width : (0 ≤ cf_ProgressBarWidth (wc_DisplayConfig config))%Z;
  wk_window : (0 ≤ cf_WindowSize (wc_DisplayConfig config))%Z;
  wk_poll : (0 < wc_PollInterval config)%Z;
  wk_fetch n : (0 ≤ (we_fetch env n).2)%Z;
  wk_children n a t : we_children env n = Some (a, t) → (0 ≤ t)%Z;
}.
Hypothesis ok : watcher_ok.

Definition after_turn (o : LoopState + WatchResult) : bool :=
  match o with inl st => ls_borderOpen st | inr _ => false end.
Definition turn_time (o : LoopState + WatchResult) : Z :=
  match o with inl _ => wc_PollInterval config | inr _ => 0%Z end.
Definition turn_result (good : string → bool) (o : LoopState + WatchResult) : Prop :=
  match o with inl _ => True | inr r => truthful env good r end.

Lemma does_fetcher b :
  does b (fetcher env) (λ _, b) (λ r, ∃ n, r = (we_fetch env n).1).
Proof.
  unfold fetcher. eapply does_bind; [apply does_tick|]. intros n _.
  eapply does_bind; [apply does_pass, (wk_fetch ok)|]. intros ? _. apply does_ret; [done|by exists n].
Qed.

Lemma does_fetch_children b s :
  well_counted s → does b (fetch_children env s) (λ _, b) well_counted.
Proof.
  intros Hs. unfold fetch_children. eapply does_bind; [apply does_tick|]. intros n _.
  destruct (we_children env n) as [[answer took]|] eqn:Hn; [|by apply does_ret].
  eapply does_bind; [by apply does_pass; eapply (wk_children ok)|]. intros ? _.
  destruct answer as [[|c cs]|err]; [by apply does_ret..|].
  eapply does_bind; [apply does_error|]. intros ? _. by apply does_ret.
Qed.

Lemma does_header_once b id st :
  does b (print_header_once sagaInstanceID config id st) (λ _, b) (λ st', ls_borderOpen st' = ls_borderOpen st).
Proof.
  unfold print_header_once. destruct (ls_headerPrinted st); [by apply does_ret|].
  eapply does_bind; [apply does_header|]. intros ? _. by apply does_ret.
Qed.

Lemma does_failed_turn good err st :
  does_for (ls_borderOpen st) (failed_turn sagaInstanceID config err st) after_turn turn_time (turn_result good).
Proof.
  assert (Hagain : ∀ st', ls_borderOpen st' = ls_borderOpen st → does_for (ls_borderOpen st)
    (PrintError err ;;; pass_time (wc_PollInterval config) ;;; ret (inl st')) after_turn turn_time (turn_result good)).
  { intros st' Hst. eapply does_for_bind; [apply does_error|]. intros ? _. by apply does_for_pause. }
  unfold failed_turn. destruct (isNotFoundError err); [|by apply Hagain].
  eapply does_for_bind; [apply does_clock|]. intros now _.
  eapply does_for_bind with (β := λ _, ls_borderOpen st) (Q := λ st', ls_borderOpen st' = ls_borderOpen st).
  { destruct (ls_firstNotFound st); [by apply does_ret|].
    eapply does_bind; [apply does_header_once|]. intros st' Hst.
    eapply does_bind; [apply does_not_found|]. intros ? _. by apply does_ret. }
  intros st' Hst. destruct (_ <? _)%Z; [|by apply Hagain].
  rewrite Hst. eapply does_for_bind; [apply does_close_border|]. intros ? _. apply does_for_ret; [done|done|].
  simpl. split; [done|]. right. split_and!; [done|done|set_solver].
Qed.

Lemma does_report st s :
  well_counted s →
  does (ls_borderOpen st) (report env config s st) (λ st', ls_borderOpen st') always.
Proof.
  intros Hs. unfold report. eapply does_bind; [apply does_clock|]. intros now _. cbv zeta.
  destruct (negb _).
  - eapply does_bind; [apply does_close_border|]. intros ? _.
    eapply does_bind with (β := λ _, true) (Q := always); [|intros ? _; by apply does_ret].
    intros w Hw. pose proof (does_open (wc_DisplayConfig config) (wk_width ok) (wk_window ok) w s Hw Hs) as Ho.
    revert Ho. apply wp_returns_mono. by intros ? w' [? ?].
  - destruct (_ && _); [|by apply does_ret].
    eapply does_bind; [apply does_heartbeat|]. intros ? _. by apply does_ret.
Qed.

Lemma does_observe f st :
  does (ls_borderOpen st) (observe env sagaInstanceID config f st) (λ r, ls_borderOpen r.2) always.
Proof.
  unfold observe. eapply does_bind; [apply does_header_once|]. intros st1 H1.
  eapply does_bind; [apply does_clock|]. intros now _.
  eapply does_bind; [apply does_set_timing|]. intros ? _.
  eapply does_bind; [apply does_fetch_children, BuildSagaStatus_counts|]. intros s Hs.
  eapply does_bind with (β := λ st', ls_borderOpen st') (Q := always); [|intros st2 _; by apply does_ret].
  rewrite <- H1. change (ls_borderOpen st1) with (ls_borderOpen (set_firstNotFound None st1)).
  by apply does_report.
Qed.

Lemma does_unsuccessful b f : does b (print_unsuccessful f) (λ _, b) always.
Proof.
  unfold print_unsuccessful. destruct (String.eqb _ _).
  - eapply does_bind; [apply does_compensated|]. intros ? _. by apply does_ret.
  - eapply does_bind; [apply does_failure|]. intros ? _. by apply does_ret.
Qed.

(** A turn that has seen the saga. *)
Definition seen (f : Fetched) : Prop := ∃ n, (we_fetch env n).1 = inl f.

Lemma does_conclude f s st :
  seen f →
  does_for (ls_borderOpen st) (conclude config f s st) after_turn turn_time (turn_result IsSuccessState).
Proof.
  intros [n Hn]. unfold conclude. destruct (IsTerminalState _); [|by apply does_for_pause].
  eapply does_for_bind; [apply does_close_border|]. intros ? _.
  eapply does_for_bind with (β := λ _, false) (Q := λ e, e = None ↔ IsSuccessState (ft_status f) = true).
  { destruct (IsSuccessState _).
    - eapply does_bind; [apply does_success|]. intros ? _. by apply does_ret.
    - eapply does_bind; [apply does_unsuccessful|]. intros e _. by apply does_ret. }
  intros e He. eapply does_for_bind; [apply does_final; apply ok|]. intros ? _.
  apply does_for_ret; [done|done|]. simpl. split; [done|]. left. by exists n, f.
Qed.

Lemma does_conclude_until expected f s st :
  seen f →
  does_for (ls_borderOpen st) (conclude_until config expected f s st) after_turn turn_time
    (turn_result (String.eqb expected)).
Proof.
  intros [n Hn]. unfold conclude_until.
  destruct (String.eqb_spec (ft_status f) expected) as [<-|Hne].
  - eapply does_for_bind; [apply does_close_border|]. intros ? _.
    eapply does_for_bind; [apply does_success|]. intros ? _.
    eapply does_for_bind; [apply does_final; apply ok|]. intros ? _.
    apply does_for_ret; [done|done|]. simpl. split; [done|]. left. exists n, f.
    by rewrite String.eqb_refl.
  - destruct (IsTerminalState _); [|by apply does_for_pause].
    eapply does_for_bind; [apply does_close_border|]. intros ? _.
    eapply does_for_bind; [apply does_unsuccessful|]. intros e _.
    eapply does_for_bind; [apply does_final; apply ok|]. intros ? _.
    apply does_for_ret; [done|done|]. simpl. split; [done|]. left. exists n, f.
    rewrite (proj2 (String.eqb_neq _ _)); [done|congruence].
Qed.

Lemma does_timed_out good f n :
  (we_fetch env n).1 = inl f → good (ft_status f) = false →
  does false (timed_out config (ft_status f) (ft_steps f)) (λ _, false) (truthful env good).
Proof.
  intros Hn Hg. unfold timed_out. eapply does_bind; [apply does_timeout|]. intros ? _.
  apply does_ret; [done|]. split; [done|]. left. by exists n, f.
Qed.

Lemma does_timed_out_empty good :
  does false (timed_out config "" []) (λ _, false) (truthful env good).
Proof.
  unfold timed_out. eapply does_bind; [apply does_timeout|]. intros ? _.
  apply does_ret; [done|]. split; [done|]. right. split_and!; [done|done|set_solver].
Qed.

Lemma does_last_look : does false (last_look env config) (λ _, false) (truthful env IsSuccessState).
Proof.
  unfold last_look. eapply does_bind; [apply does_fetcher|]. intros [f|e] [n Hn].
  - destruct (IsTerminalState _ && IsSuccessState _) eqn:Hs.
    + apply andb_true_iff in Hs as [_ Hs]. apply does_ret; [done|]. split; [done|]. left. by exists n, f.
    + eapply does_timed_out; [done|]. apply andb_false_iff in Hs as [Hs|Hs]; [|done].
      destruct (IsSuccessState (ft_status f)) eqn:Hg; [|done]. unfold IsSuccessState, IsTerminalState in *.
      apply String.eqb_eq in Hg. rewrite Hg in Hs. by vm_compute in Hs.
  - apply does_timed_out_empty.
Qed.

Lemma does_last_look_until expected :
  expected ≠ "" →
  does false (last_look_until env config expected) (λ _, false) (truthful env (String.eqb expected)).
Proof.
  intros Hne. unfold last_look_until. eapply does_bind; [apply does_fetcher|]. intros [f|e] [n Hn].
  - destruct (String.eqb_spec (ft_status f) expected) as [<-|He].
    + apply does_ret; [done|]. split; [done|]. left. exists n, f. by rewrite String.eqb_refl.
    + eapply does_timed_out; [done|]. apply String.eqb_neq. congruence.
  - rewrite (proj2 (String.eqb_neq _ _)) by done. apply does_timed_out_empty.
Qed.

Section turns.
Context (good : string → bool) (end_turn : Fetched → SagaStatus → LoopState → M WatchWorld (LoopState + WatchResult)).
Context (last : M WatchWorld WatchResult).
Hypothesis end_turn_ok : ∀ f s st, seen f →
  does_for (ls_borderOpen st) (end_turn f s st) after_turn turn_time (turn_result good).
Hypothesis last_ok : does false last (λ _, false) (truthful env good).

(** Fuel for the polls that fit before the deadline. *)
Lemma watch_loop_ends fuel deadline st w :
  report_open (ww_lines w) = Some (ls_borderOpen st) →
  (0 < fuel)%nat → (deadline - ww_now w ≤ Z.of_nat (fuel - 1) * wc_PollInterval config)%Z →
  wp (watch_loop env sagaInstanceID config end_turn last fuel deadline st)
    (returns (λ r w', report_open (ww_lines w') = Some false ∧ truthful env good r)) w.
Proof.
  revert st w. induction fuel as [|fuel IH]; intros st w Hw Hf Hd; [lia|]. simpl.
  apply wp_bind_ret. unfold clock, wp at 1. simpl.
  destruct (Z.ltb_spec (ww_now w) deadline) as [Hlt|Hge].
  - apply wp_bind_ret. pose proof (does_fetcher _ w Hw) as Hfetch. revert Hfetch.
    apply wp_returns_mono. intros r w1 (Hw1 & Ht1 & [n Hn]).
    assert (Hturn : does_for (ls_borderOpen st)
      (match r with
       | inr err => failed_turn sagaInstanceID config err st
       | inl f => '(s, st) <- observe env sagaInstanceID config f st ;; end_turn f s st
       end) after_turn turn_time (turn_result good)).
    { destruct r as [f|err]; [|apply does_failed_turn].
      eapply does_for_bind; [apply does_observe|]. intros [s st1] _. apply end_turn_ok. by exists n. }
    apply wp_bind_ret. specialize (Hturn w1 Hw1). revert Hturn. apply wp_returns_mono.
    intros [st'|result] w2 (Hw2 & Ht2 & Hr); simpl in Ht2, Hw2, Hr; [|by apply wp_ret].
    pose proof (wk_poll ok). apply IH; [done|..].
    + destruct fuel; [simpl in Hd; lia|lia].
    + destruct fuel as [|fuel]; [simpl in Hd; lia|].
      replace (S (S fuel) - 1) with (S fuel) in Hd by lia.
      replace (S fuel - 1) with fuel by lia. rewrite Nat2Z.inj_succ in Hd. lia.
  - apply wp_bind_ret. pose proof (does_close_border _ w Hw) as Hclose. revert Hclose.
    apply wp_returns_mono. intros ? w1 (Hw1 & _ & _). pose proof (last_ok w1 Hw1) as Hl. revert Hl.
    apply wp_returns_mono. by intros r w2 (? & _ & ?).
Qed.

#[local] Arguments watch_loop : simpl never.

Lemma watch_ends w :
  report_open (ww_lines w) = Some false →
  wp (now <- clock ;;
      watch_loop env sagaInstanceID config end_turn last (watch_fuel config) (now + wc_Timeout config)
        initial_loop_state)
    (returns (λ r w', report_open (ww_lines w') = Some false ∧ truthful env good r)) w.
Proof.
  intros Hw. apply wp_bind_ret. unfold clock, wp at 1. simpl. apply watch_loop_ends; [done|unfold watch_fuel; lia|].
  pose proof (wk_poll ok) as Hp. unfold watch_fuel.
  set (q := Z.quot (wc_Timeout config) (wc_PollInterval config)).
  replace (S (S (Z.to_nat q)) - 1) with (S (Z.to_nat q)) by lia.
  pose proof (Z.quot_rem' (wc_Timeout config) (wc_PollInterval config)) as Hq. fold q in Hq.
  destruct (Z.le_gt_cases 0 (wc_Timeout config)) as [H0|H0].
  - pose proof (Z.rem_bound_pos (wc_Timeout config) (wc_PollInterval config) H0 Hp).
    assert (0 ≤ q)%Z by by apply Z.quot_pos. nia.
  - nia.
Qed.
End turns.
End loop.

(** C40: with a positive poll interval, and a service that answers every request
    in some time, with the saga or with an error, [Watch] comes to an end and
    never by a panic; every report it has opened is closed.  Its result has the
    state and the steps of an answer of the service, and is successful exactly
    when that state is the committed one; or there is no such answer, and it is
    not successful.  An error is given exactly when it is not successful. *)
Theorem Watch_ends env sagaInstanceID config w :
  watcher_ok env config → report_open (ww_lines w) = Some false →
  wp (Watch env sagaInstanceID config)
    (returns (λ r w', report_open (ww_lines w') = Some false ∧ truthful env IsSuccessState r)) w.
Proof.
  intros Hok Hw. unfold Watch. apply watch_ends; [done|by intros; apply does_conclude|by apply does_last_look|done].
Qed.

(** [WatchUntil] likewise, successful in the state it waits for. *)
Theorem WatchUntil_ends env sagaInstanceID config expected w :
  watcher_ok env config → expected ≠ "" → report_open (ww_lines w) = Some false →
  wp (WatchUntil env sagaInstanceID config expected)
    (returns (λ r w', report_open (ww_lines w') = Some false ∧ truthful env (String.eqb expected) r)) w.
Proof.
  intros Hok Hne Hw. unfold WatchUntil.
  apply watch_ends; [done|by intros; apply does_conclude_until|by apply does_last_look_until|done].
Qed.

(** ** Looking for a text *)

Lemma prefix_refl s : String.prefix s s = true.
Proof. induction s as [|c s IH]; [done|]. simpl. by destruct (ascii_dec c c). Qed.

Lemma contains_length p s : contains p s = true → String.length p ≤ String.length s.
Proof.
  induction s as [|c s IH]; cbn [contains]; intros H.
  - rewrite orb_false_r in H. by destruct p.
  - apply orb_true_iff in H as [H|H]; [|apply IH in H; simpl; lia].
    apply Stdlib.Strings.String.prefix_correct in H. rewrite <- H. clear. generalize (String c s) as t. intros t.
    assert (Hs : ∀ n t, String.length (String.substring 0 n t) ≤ String.length t).
    { intros n. induction n as [|n IHn]; intros [|d t']; simpl; try lia. specialize (IHn t'). lia. }
    apply Hs.
Qed.

Lemma findSubstring_from_tail fuel i c s p :
  findSubstring_from fuel (S i) (String c s) p = S <$> findSubstring_from fuel i s p.
Proof.
  revert i. induction fuel as [|fuel IH]; intros i; [done|]. cbn [findSubstring_from].
  change (String.substring (S i) (String.length p) (String c s)) with (String.substring i (String.length p) s).
  destruct (String.eqb _ _); [done|]. apply IH.
Qed.

Lemma findSubstring_contains s p : is_Some (findSubstring s p) ↔ contains p s = true.
Proof.
  unfold findSubstring. induction s as [|c s IH].
  - destruct p; simpl; [by split|]. split; [by intros [? ?]|done].
  - cbn [contains].
    assert (Hpre : String.eqb (String.substring 0 (String.length p) (String c s)) p = String.prefix p (String c s)).
    { destruct (String.prefix p (String c s)) eqn:H.
      - apply Stdlib.Strings.String.prefix_correct in H. by apply String.eqb_eq.
      - apply String.eqb_neq. intros Heq. apply Stdlib.Strings.String.prefix_correct in Heq. congruence. }
    destruct (Nat.ltb_spec (String.length (String c s)) (String.length p)) as [Hlt|Hge].
    { split; [by intros [? ?]|]. intros H.
      assert (Hc : contains p (String c s) = true) by exact H. apply contains_length in Hc. lia. }
    cbn [findSubstring_from]. rewrite Hpre. destruct (String.prefix p (String c s)); simpl orb; [by split; eauto|].
    rewrite <- IH. simpl in Hge. destruct (Nat.ltb_spec (String.length s) (String.length p)).
    + replace (String.length (String c s) - String.length p) with 0 by (simpl; lia).
      split; by intros [? ?].
    + replace (String.length (String c s) - String.length p) with (S (String.length s - String.length p))
        by (simpl; lia).
      rewrite findSubstring_from_tail. apply fmap_is_Some.
Qed.

(** The search of the file is that of the standard library. *)
Theorem watch_contains_is_contains s p : watch_contains s p = contains p s.
Proof.
  unfold watch_contains. apply eq_true_iff_eq. rewrite andb_true_iff, !orb_true_iff, !andb_true_iff.
  rewrite String.eqb_eq, Nat.eqb_eq, Nat.leb_le, !negb_true_iff, !Nat.eqb_neq, bool_decide_eq_true.
  rewrite findSubstring_contains. split.
  - intros [_ [[->|Hp]|[_ H]]]; [apply contains_prefix, prefix_refl| |done].
    apply contains_prefix. destruct p; [by destruct s|done].
  - intros H. pose proof (contains_length _ _ H) as Hlen. split; [done|].
    destruct (decide (String.length p = 0)) as [->|Hne]; [by left; right|].
    right. split; [lia|done].
Qed.

(** ** A saga that is watched *)

Definition demo_steps (a b : SagaStepStateEnum) : list StepStatus :=
  [mkStepStatus "i1" "shop:pay" (SagaStepStateEnum_string a) JNull JNull "";
   mkStepStatus "i2" "shop:ship" (SagaStepStateEnum_string b) JNull JNull ""].

(** It is unknown at first, then runs, then is committed; each answer takes a
    second. *)
Definition demo_env : WatchEnv := {|
  we_fetch n := (match n with
                 | 0 => inr "HTTP 404"
                 | 1 => inl (mkFetched "SAGA_STATE_ENUM_RUNNING" "shop"
                          (demo_steps SagaStepStateEnum_ExecutionDone SagaStepStateEnum_ExecutionRunning) "")
                 | _ => inl (mkFetched "SAGA_STATE_ENUM_COMMITTED" "shop"
                          (demo_steps SagaStepStateEnum_ExecutionDone SagaStepStateEnum_ExecutionDone) "")
                 end, second)%nat;
  we_children _ := None;
  we_order _ m := map_to_list m;
|}.

Definition demo_watch : WatchWorld := mkWatchWorld 0 [] (NewTiming 0) 0.

Lemma demo_ok : watcher_ok demo_env DefaultWatcherConfig.
Proof. split; try done; intros; simpl; unfold second; lia. Qed.

(** The watch, in full. *)
Example watch_in_full :
  let '(r, w) := Watch demo_env "saga-1" DefaultWatcherConfig demo_watch in
  (match r with Ret r => wr_Success r | _ => false end, ww_lines w) =
  (true,
   ["Watching saga: saga-1";
    "Timeout: 10m0s, Poll interval: 2s, Window: 5 steps";
    "";
    "  [00:00:01.000Z] Saga not found (404), will timeout after 1m0s if it persists";
    "  [00:00:01.000Z] Error: HTTP 404";
    "┌──────────────────────────────────";
    "│ [00:00:04.000Z] [RUNNING +0ms] 1/2 [██████████░░░░░░░░░░] 50% (total: 4.000s)";
    "│ Template: shop  Instance: saga-1";
    "│ ┌────";
    "│ │ ✓ Step  1 [EXEC_DONE   ]: pay (?ms)";
    "│ │ ▶ Step  2 [EXEC_RUNNING]: ship (+0ms)";
    "│ └────";
    "│";
    "└──────────────────────────────────";
    "";
    "┌──────────────────────────────────";
    "│ [00:00:07.000Z] [COMMITTED +0ms] 2/2 [████████████████████] 100% (total: 7.000s)";
    "│ Template: shop  Instance: saga-1";
    "│ ┌────";
    "│ │ ✓ Step  1 [EXEC_DONE   ]: pay (?ms)";
    "│ │ ✓ Step  2 [EXEC_DONE   ]: ship (3.000s)";
    "│ └────";
    "│";
    "└──────────────────────────────────";
    "";
    "";
    "✓ Saga COMMITTED successfully at 00:00:07.000Z (total: 7.000s)";
    "";
    "=== Final Step Results ===";
    "";
    "  ✓ Step  1 [EXEC_DONE   ]: pay (?ms)";
    "  ✓ Step  2 [EXEC_DONE   ]: ship (3.000s)";
    ""]).
Proof. by vm_compute. Qed.

Lemma Watch_ends_witness :
  wp (Watch demo_env "saga-1" DefaultWatcherConfig)
    (returns (λ r w', report_open (ww_lines w') = Some false ∧ truthful demo_env IsSuccessState r)) demo_watch.
Proof. by apply (Watch_ends demo_env "saga-1" DefaultWatcherConfig demo_watch demo_ok). Defined.

Lemma WatchUntil_ends_witness :
  wp (WatchUntil demo_env "saga-1" DefaultWatcherConfig "SAGA_STATE_ENUM_RUNNING")
    (returns (λ r w', report_open (ww_lines w') = Some false ∧
       truthful demo_env (String.eqb "SAGA_STATE_ENUM_RUNNING") r)) demo_watch.
Proof. by apply (WatchUntil_ends demo_env "saga-1" DefaultWatcherConfig _ demo_watch demo_ok). Defined.
