(* ===== verification/Routing.v ===== *)
(** * Who gets which message

    The routing keys and binding keys of [pkg/trax/common.go] on the topic
    exchange of a cluster.  The broker's matching of a binding key with a
    routing key is an argument; of it, only the documented rule is used: both
    are split at their dots, a [*] stands for exactly one word, any other word
    but [#] for itself. *)

From S2P Require Import Prelude Model Naming.
From Stdlib Require Import Strings.String Strings.Ascii.
Local Open Scope string_scope.
#[local] Arguments String.append !_ _ / : simpl nomatch.

(** The words between the dots. *)
Fixpoint words (s : string) : list string :=
  match s with
  | EmptyString => [""]
  | String c s =>
      if decide (c = "."%char) then "" :: words s
      else match words s with w :: ws => String c w :: ws | [] => [String c ""] end
  end.

Fixpoint words_match (pattern key : list string) : bool :=
  match pattern, key with
  | [], [] => true
  | p :: pattern, k :: key => (String.eqb p "*" || String.eqb p k) && words_match pattern key
  | _, _ => false
  end.

(** The documented behaviour of a topic exchange, for binding keys without
    [#]. *)
Class TopicExchange (routes : string → string → bool) : Prop :=
  topic_rule pattern key :
    "#" ∉ words pattern → routes pattern key = words_match (words pattern) (words key).

(** An identifier that is one word and no wildcard. *)
Definition word (s : string) : bool :=
  no_dot s && negb (String.eqb s "*") && negb (String.eqb s "#").

Lemma words_no_dot s : no_dot s = true → words s = [s].
Proof.
  induction s as [|c s IH]; simpl; [done|]. case_decide; [done|]. intros Hs. by rewrite IH.
Qed.

Lemma words_cons s t : no_dot s = true → words (s ++ String "." t) = s :: words t.
Proof.
  induction s as [|c s IH]; simpl; [done|]. case_decide; [done|]. intros Hs. by rewrite IH.
Qed.

Lemma words_app s t : no_dot s = true → words (s ++ "." ++ t) = s :: words t.
Proof. apply words_cons. Qed.

Lemma word_inv s : word s = true → no_dot s = true ∧ s ≠ "*" ∧ s ≠ "#".
Proof.
  unfold word. rewrite !andb_true_iff, !negb_true_iff, !String.eqb_neq. tauto.
Qed.

Lemma word_match p k : p ≠ "*" → (String.eqb p "*" || String.eqb p k) = true ↔ p = k.
Proof.
  intros Hp. rewrite orb_true_iff, !String.eqb_eq. naive_solver.
Qed.

Lemma words_request c a t s :
  no_dot c = true → no_dot a = true → no_dot t = true → no_dot s = true →
  words (getStepRequestRoutingKey c a t s) = [c; a; t; s; "request"].
Proof.
  intros. unfold getStepRequestRoutingKey. change ".request" with ("." ++ "request").
  by rewrite !words_app.
Qed.

Lemma words_response c a t s :
  no_dot c = true → no_dot a = true → no_dot t = true → no_dot s = true →
  words (getStepResponseRoutingKey c a t s) = [c; a; t; s; "response"].
Proof.
  intros. unfold getStepResponseRoutingKey. change ".response" with ("." ++ "response").
  by rewrite !words_app.
Qed.

Lemma words_inbox c t s :
  no_dot c = true → no_dot t = true → no_dot s = true →
  words (getExecutorInboxBindingKey c t s) = [c; "*"; t; s; "request"].
Proof.
  intros. unfold getExecutorInboxBindingKey.
  change (".*." ++ ?x) with ("." ++ "*" ++ "." ++ x). change ".request" with ("." ++ "request").
  by rewrite !words_app.
Qed.

Lemma words_results c a :
  no_dot c = true → no_dot a = true →
  words (getCoordinatorResultsBindingKey c a) = [c; a; "*"; "*"; "response"].
Proof.
  intros. unfold getCoordinatorResultsBindingKey.
  change ".*.*.response" with ("." ++ "*" ++ "." ++ "*" ++ "." ++ "response").
  by rewrite !words_app.
Qed.

Lemma routing_table routes `{!TopicExchange routes} c a t s c' a' t' s' :
  Forall (λ x, word x = true) [c; a; t; s; c'; a'; t'; s'] →
  (routes (getExecutorInboxBindingKey c t s) (getStepRequestRoutingKey c' a' t' s') = true ↔
     c = c' ∧ t = t' ∧ s = s') ∧
  (routes (getCoordinatorResultsBindingKey c a) (getStepResponseRoutingKey c' a' t' s') = true ↔
     c = c' ∧ a = a') ∧
  routes (getExecutorInboxBindingKey c t s) (getStepResponseRoutingKey c' a' t' s') = false ∧
  routes (getCoordinatorResultsBindingKey c a) (getStepRequestRoutingKey c' a' t' s') = false.
Proof.
  rewrite !Forall_cons.
  intros (Hc%word_inv & Ha%word_inv & Ht%word_inv & Hs%word_inv &
          Hc'%word_inv & Ha'%word_inv & Ht'%word_inv & Hs'%word_inv & _).
  destruct Hc as (Hc & Hc1 & Hc2), Ha as (Ha & Ha1 & Ha2), Ht as (Ht & Ht1 & Ht2),
    Hs as (Hs & Hs1 & Hs2), Hc' as (Hc' & _), Ha' as (Ha' & _), Ht' as (Ht' & _), Hs' as (Hs' & _).
  rewrite !topic_rule.
  2-5: rewrite ?words_inbox, ?words_results by done; set_solver.
  rewrite words_inbox, words_results, words_request, words_response by done. simpl.
  rewrite !andb_false_r, !andb_true_r, !andb_true_iff, !word_match by done. tauto.
Qed.

(** As long as identifiers are words, the inbox of an executor gets the
    requests for its cluster, saga template and step template, whichever
    coordinator sends them, and nothing else; the results queue of a
    coordinator gets the answers meant for its cluster and affinity group, from
    every executor, and nothing else. *)
Theorem messages_find_their_way routes `{!TopicExchange routes} c a t s c' a' t' s' :
  Forall (λ x, word x = true) [c; a; t; s; c'; a'; t'; s'] →
  (routes (getExecutorInboxBindingKey c t s) (getStepRequestRoutingKey c' a' t' s') = true ↔
     c = c' ∧ t = t' ∧ s = s') ∧
  (routes (getCoordinatorResultsBindingKey c a) (getStepResponseRoutingKey c' a' t' s') = true ↔
     c = c' ∧ a = a') ∧
  routes (getExecutorInboxBindingKey c t s) (getStepResponseRoutingKey c' a' t' s') = false ∧
  routes (getCoordinatorResultsBindingKey c a) (getStepRequestRoutingKey c' a' t' s') = false.
Proof. apply routing_table; done. Qed.

Definition rabbit (pattern key : string) : bool := words_match (words pattern) (words key).

#[export] Instance rabbit_topic : TopicExchange rabbit.
Proof. by intros pattern key _. Qed.

Lemma messages_find_their_way_witness :
  (rabbit (getExecutorInboxBindingKey "main" "order" "pay")
     (getStepRequestRoutingKey "main" "default" "order" "pay") = true ↔
   "main" = "main" ∧ "order" = "order" ∧ "pay" = "pay") ∧
  (rabbit (getCoordinatorResultsBindingKey "main" "eu")
     (getStepResponseRoutingKey "main" "default" "order" "pay") = true ↔
   "main" = "main" ∧ "eu" = "default") ∧
  rabbit (getExecutorInboxBindingKey "main" "order" "pay")
     (getStepResponseRoutingKey "main" "default" "order" "pay") = false ∧
  rabbit (getCoordinatorResultsBindingKey "main" "eu")
     (getStepRequestRoutingKey "main" "default" "order" "pay") = false.
Proof.
  apply (messages_find_their_way rabbit). repeat (constructor; [reflexivity|]). constructor.
Defined.

(** The requests of a coordinator whose affinity group has a dot reach no
    executor. *)
Example dotted_affinity_lost :
  rabbit (getExecutorInboxBindingKey "main" "order" "pay")
    (getStepRequestRoutingKey "main" "eu.west" "order" "pay") = false.
Proof. reflexivity. Qed.
