(* ===== verification/MqBroker.v ===== *)
(** * Exchanges, queues and bindings

    The declarations of [pkg/mq/common/helpers.go], behind the wrapper
    [rabbitMQClient] of [pkg/trax/mq.go], on a broker that knows exchanges by
    name and type, queues, and bindings; and the listeners that are told when
    the connection is back, of [pkg/mq/common/rabbitmq.go].

    A declaration of something that exists is no error as long as the type is
    the same; a binding needs its queue and its exchange; any call may fail
    otherwise, and then has no effect. *)

From stdpp Require Import relations.
From S2P Require Import Prelude GoMonad Naming Routing.
#[local] Open Scope go_scope.

(** ** The broker *)

Record Binding := mkBinding { bd_exchange : string; bd_key : string; bd_queue : string }.

#[export] Instance Binding_eq_dec : EqDecision Binding.
Proof. solve_decision. Defined.
#[export] Instance Binding_countable : Countable Binding.
Proof.
  by refine (inj_countable' (λ b, (bd_exchange b, bd_key b, bd_queue b))
    (λ '(e, k, q), mkBinding e k q) _); intros [].
Qed.

Record Topology := mkTopology {
  tp_exchanges : gmap string string;
  tp_queues : gset string;
  tp_bindings : gset Binding;
}.

Definition empty_topology : Topology := mkTopology ∅ ∅ ∅.

(** The queues a message reaches: a fanout exchange ignores the key, a topic
    exchange matches it. *)
Definition bound (t : Topology) (exchange key queue : string) : Prop :=
  ∃ b, b ∈ tp_bindings t ∧ bd_exchange b = exchange ∧ bd_queue b = queue ∧
    match tp_exchanges t !! exchange with
    | Some "fanout" => True
    | Some "topic" => rabbit (bd_key b) key = true
    | _ => False
    end.

Record BrokerWorld := mkBrokerWorld { bk_topology : Topology; bk_tick : nat }.

(** Whether a channel is to be had, and whether a call goes through. *)
Record BrokerEnv := mkBrokerEnv { be_channel : nat → bool; be_call : nat → bool }.

Section broker.
Context (env : BrokerEnv).
#[local] Notation Go := (M BrokerWorld).

Definition broker_tick : Go nat := λ w,
  (Ret (bk_tick w), mkBrokerWorld (bk_topology w) (S (bk_tick w))).

Definition with_topology (f : Topology → Topology) : Go unit :=
  modify (λ w, mkBrokerWorld (f (bk_topology w)) (bk_tick w)).

(** A method of the AMQP channel. *)
Definition amqp_call (ok : Topology → bool) (f : Topology → Topology) : Go (result unit) :=
  n <- broker_tick ;;
  w <- get_state ;;
  if be_call env n && ok (bk_topology w) then with_topology f ;;; ret (Ok tt)
  else ret (Err (Errorf "exception from the broker")).

Definition ExchangeDeclare (name kind : string) : Go (result unit) :=
  amqp_call
    (λ t, match tp_exchanges t !! name with Some k => bool_decide (k = kind) | None => true end)
    (λ t, mkTopology (<[name := kind]> (tp_exchanges t)) (tp_queues t) (tp_bindings t)).

Definition QueueDeclare (name : string) : Go (result unit) :=
  amqp_call (λ _, true)
    (λ t, mkTopology (tp_exchanges t) ({[name]} ∪ tp_queues t) (tp_bindings t)).

Definition QueueBind (queue key exchange : string) : Go (result unit) :=
  amqp_call
    (λ t, bool_decide (queue ∈ tp_queues t) && bool_decide (is_Some (tp_exchanges t !! exchange)))
    (λ t, mkTopology (tp_exchanges t) (tp_queues t) ({[mkBinding exchange key queue]} ∪ tp_bindings t)).

(** [RabbitMQChannelPool.GetChannel()] and the check before it. *)
Definition pool_channel : Go (result unit) :=
  n <- broker_tick ;;
  if be_channel env n then ret (Ok tt)
  else ret (Err (Errorf "failed to get channel from pool")).

(** ** Declarations *)

Definition GetExchangeNameByKey (key : string) : string := "x_" +:+ key.
Definition GetQueueNameByKey (key : string) : string := "q_" +:+ key.

Fixpoint declare_queues (exchangeName : string) (queueNames : list string) : Go (result unit) :=
  match queueNames with
  | [] => ret (Ok tt)
  | queueName :: queueNames =>
      _ <-? QueueDeclare queueName else err => ret (Err err) ;;
      _ <-? QueueBind queueName "" exchangeName else err => ret (Err err) ;;
      declare_queues exchangeName queueNames
  end.

Definition InitExchangeToMultipleQueues (exchangeName : string) (queueNames : list string) :
    Go (result unit) :=
  _ <-? pool_channel else err => ret (Err err) ;;
  _ <-? ExchangeDeclare exchangeName "fanout" else err => ret (Err err) ;;
  declare_queues exchangeName queueNames.

Definition InitExchangeToMultipleQueuesByKey (key : string) (extraQueueOnlyKeys : list string) :
    Go (result unit) :=
  InitExchangeToMultipleQueues (GetExchangeNameByKey key)
    (GetQueueNameByKey key :: (GetQueueNameByKey <$> extraQueueOnlyKeys)).

Definition InitTopicExchange (exchangeName : string) : Go (result unit) :=
  _ <-? pool_channel else err => ret (Err err) ;;
  ExchangeDeclare exchangeName "topic".

Definition InitQueueWithTopicBinding (exchangeName queueName routingKeyPattern : string) :
    Go (result unit) :=
  _ <-? pool_channel else err => ret (Err err) ;;
  _ <-? QueueDeclare queueName
  else err => ret (Err (Errorf ("failed to declare queue '" +:+ queueName +:+ "': " +:+
                error_text err))) ;;
  _ <-? QueueBind queueName routingKeyPattern exchangeName
  else err => ret (Err (Errorf ("failed to bind queue '" +:+ queueName +:+ "' to exchange '" +:+
                exchangeName +:+ "' with key '" +:+ routingKeyPattern +:+ "': " +:+
                error_text err))) ;;
  ret (Ok tt).
End broker.

(** The node names that [rabbitMQClient] gives out; the rest of the wrapper
    passes its arguments on. *)
Definition GetPublishNodeName (key : string) : string := GetExchangeNameByKey key.
Definition GetSubscribeNodeName (key : string) : string := GetQueueNameByKey key.

(** [InitPublisherNodeAndMultipleSubscribeNodes] *)
Definition InitPublisherNodeAndMultipleSubscribeNodes (env : BrokerEnv) (broadcastNodeName : string)
    (receiverNodeNames : list string) : M BrokerWorld (result unit) :=
  InitExchangeToMultipleQueues env broadcastNodeName receiverNodeNames.

(** ** Listeners

    A listener is known by its number; its channel has a buffer of ten. *)

Record Listeners := mkListeners { ls_list : list nat; ls_pending : gmap nat nat; ls_next : nat }.

Definition no_listeners : Listeners := mkListeners [] ∅ 0.

Definition listener_buffer : nat := 10.

Definition NotifyReconnect (l : Listeners) : Listeners :=
  mkListeners (ls_list l)
    (foldl (λ pending ch,
       match pending !! ch with
       | Some n => if n <? listener_buffer then <[ch := S n]> pending else pending
       | None => pending
       end) (ls_pending l) (ls_list l))
    (ls_next l).

Definition RegisterReconnectListener (l : Listeners) : nat * Listeners :=
  (ls_next l, mkListeners (ls_list l ++ [ls_next l]) (<[ls_next l := 0]> (ls_pending l)) (S (ls_next l))).

(** The last one takes the place of the one that leaves. *)
Definition swap_remove (i : nat) (l : list nat) : list nat :=
  match last l with
  | Some x => take (length l - 1) (<[i := x]> l)
  | None => l
  end.

(** A listener that is gone already is not found; otherwise its channel is
    closed. *)
Definition cleanup (ch : nat) (l : Listeners) : Listeners :=
  match list_find (eq ch) (ls_list l) with
  | Some (i, _) =>
      mkListeners (swap_remove i (ls_list l)) (delete ch (ls_pending l)) (ls_next l)
  | None => l
  end.

(** ** Laws *)

Definition extends (t t' : Topology) : Prop :=
  tp_exchanges t ⊆ tp_exchanges t' ∧ tp_queues t ⊆ tp_queues t' ∧ tp_bindings t ⊆ tp_bindings t'.

#[export] Instance extends_preorder : PreOrder extends.
Proof.
  split; [by intros t|]. intros t1 t2 t3 (? & ? & ?) (? & ? & ?). split_and!; by etrans.
Qed.

Lemma bound_extends t t' exchange key queue :
  extends t t' → bound t exchange key queue → bound t' exchange key queue.
Proof.
  intros (He & _ & Hb) (b & Hin & Hex & Hq & Hm). exists b. split_and!; [by apply Hb|done|done|].
  destruct (tp_exchanges t !! exchange) as [kind|] eqn:Hk; [|done].
  by rewrite (lookup_weaken _ _ _ _ Hk He).
Qed.

(** [declares m Q]: [m] returns, only adds to the broker, and when it returns
    no error, [Q] holds of the broker. *)
Definition declares (m : M BrokerWorld (result unit)) (Q : Topology → Prop) : Prop :=
  ∀ w, wp m (returns (λ r w', extends (bk_topology w) (bk_topology w') ∧
    match r with Ok _ => Q (bk_topology w') | Err _ => True end)) w.

Lemma declares_mono m (Q Q' : Topology → Prop) :
  (∀ t, Q t → Q' t) → declares m Q → declares m Q'.
Proof.
  intros HQ Hm w. generalize (Hm w). apply wp_returns_mono.
  intros [[]|e] w' [He H]; (split; [done|]); auto.
Qed.

(** One declaration after the other; what the first one says is kept. *)
Lemma declares_then m k early (Q1 Q2 : Topology → Prop) :
  declares m Q1 → (∀ e, early e = ret (Err e) ∨ ∃ e', early e = ret (Err e')) →
  (∀ u, declares (k u) Q2) → (∀ t t', extends t t' → Q1 t → Q1 t') →
  declares (or_else m early k) (λ t, Q1 t ∧ Q2 t).
Proof.
  intros Hm He Hk Hmono w. apply wp_or_else. generalize (Hm w). apply wp_returns_mono.
  intros [u|e] w1 [Hw1 H1].
  - generalize (Hk u w1). apply wp_returns_mono. intros [[]|e] w2 [Hw2 H2].
    + split; [by etrans|]. split; [by eapply Hmono|done].
    + split; [by etrans|done].
  - by destruct (He e) as [->|[e' ->]].
Qed.

Section declarations.
Context (env : BrokerEnv).

Lemma amqp_call_declares ok f (Q : Topology → Prop) :
  (∀ t, ok t = true → extends t (f t) ∧ Q (f t)) → declares (amqp_call env ok f) Q.
Proof.
  intros Hf w. unfold amqp_call, wp, bind, broker_tick, get_state. simpl.
  destruct (be_call env (bk_tick w)); simpl; [|by split].
  destruct (ok (bk_topology w)) eqn:Hok; simpl; [by apply Hf|by split].
Qed.

Lemma ExchangeDeclare_declares name kind :
  declares (ExchangeDeclare env name kind) (λ t, tp_exchanges t !! name = Some kind).
Proof.
  apply amqp_call_declares. intros t Hok. simpl. split; [|by rewrite lookup_insert_eq].
  split_and!; simpl; [|done|done]. destruct (tp_exchanges t !! name) as [k|] eqn:Hk.
  - apply bool_decide_eq_true in Hok as ->. by rewrite insert_id.
  - by apply insert_subseteq.
Qed.

Lemma QueueDeclare_declares name :
  declares (QueueDeclare env name) (λ t, name ∈ tp_queues t).
Proof.
  apply amqp_call_declares. intros t _. simpl. split; [|set_solver].
  split_and!; simpl; [done|set_solver|done].
Qed.

Lemma QueueBind_declares queue key exchange :
  declares (QueueBind env queue key exchange)
    (λ t, mkBinding exchange key queue ∈ tp_bindings t).
Proof.
  apply amqp_call_declares. intros t _. simpl. split; [|set_solver].
  split_and!; simpl; [done|done|set_solver].
Qed.

Lemma pool_channel_declares : declares (pool_channel env) (λ _, True).
Proof. intros w. unfold pool_channel, wp, bind, broker_tick. simpl. by destruct (be_channel env _). Qed.

Lemma exchange_kept name kind t t' :
  extends t t' → tp_exchanges t !! name = Some kind → tp_exchanges t' !! name = Some kind.
Proof. intros (He & _) H. by eapply lookup_weaken. Qed.

Lemma binding_kept b t t' : extends t t' → b ∈ tp_bindings t → b ∈ tp_bindings t'.
Proof. intros (_ & _ & Hb). apply Hb. Qed.

Lemma declare_queues_declares exchange queues :
  declares (declare_queues env exchange queues)
    (λ t, Forall (λ q, mkBinding exchange "" q ∈ tp_bindings t) queues).
Proof.
  induction queues as [|q queues IH]; simpl; [intros w; by split|].
  eapply declares_mono; [|eapply (declares_then _ _ _ (λ _, True)); [|by left| |done]].
  - intros t [_ H]. exact H.
  - eapply declares_mono; [done|apply QueueDeclare_declares].
  - intros _. eapply declares_mono; [|eapply declares_then;
      [apply QueueBind_declares|by left|by intros _; apply IH|intros t t'; apply binding_kept]].
    intros t [H1 H2]. by constructor.
Qed.

(** After a successful declaration every message on the exchange reaches
    each of the queues. *)
Lemma InitExchange_declares exchange queues :
  declares (InitExchangeToMultipleQueues env exchange queues)
    (λ t, ∀ key q, q ∈ queues → bound t exchange key q).
Proof.
  unfold InitExchangeToMultipleQueues.
  eapply declares_mono; [|eapply (declares_then _ _ _ (λ _, True));
    [apply pool_channel_declares|by left| |done]]; [by intros t [_ H]; exact H|].
  intros _. eapply declares_mono; [|eapply declares_then; [apply ExchangeDeclare_declares|by left
    |by intros _; apply declare_queues_declares|intros t t'; apply exchange_kept]].
  intros t [H1 H2] key q Hq. rewrite Forall_forall in H2.
  exists (mkBinding exchange "" q). split_and!; [by apply H2|done|done|by rewrite H1].
Qed.

Lemma InitTopicExchange_declares exchange :
  declares (InitTopicExchange env exchange) (λ t, tp_exchanges t !! exchange = Some "topic").
Proof.
  eapply declares_mono; [|eapply (declares_then _ _ _ (λ _, True));
    [apply pool_channel_declares|by left|by intros _; apply ExchangeDeclare_declares|done]].
  by intros t [_ H].
Qed.

Lemma InitQueue_declares exchange queue pattern :
  declares (InitQueueWithTopicBinding env exchange queue pattern)
    (λ t, mkBinding exchange pattern queue ∈ tp_bindings t).
Proof.
  unfold InitQueueWithTopicBinding.
  eapply declares_mono; [|eapply (declares_then _ _ _ (λ _, True));
    [apply pool_channel_declares|by left| |done]]; [by intros t [_ H]; exact H|]. intros _.
  eapply declares_mono; [|eapply (declares_then _ _ _ (λ _, True)); [| | |done]];
    [by intros t [_ H]; exact H|eapply declares_mono; [done|apply QueueDeclare_declares]
    |intros e; right; by eexists|]. intros _.
  eapply declares_mono; [|eapply (declares_then _ _ _ _ (λ _, True));
    [apply QueueBind_declares|intros e; right; by eexists|by intros _ w|intros t t'; apply binding_kept]].
  by intros t [H _].
Qed.
End declarations.

(** ** Listeners are kept apart *)

Lemma swap_remove_perm i x l : l !! i = Some x → x :: swap_remove i l ≡ₚ l.
Proof.
  intros Hi. destruct (last l) as [y|] eqn:Hlast.
  2: { apply last_None in Hlast as ->. done. }
  unfold swap_remove. rewrite Hlast. apply last_Some in Hlast as [l' ->].
  rewrite length_app. simpl. replace (length l' + 1 - 1) with (length l') by lia.
  apply lookup_app_Some in Hi as [Hi|[Hle Hi]].
  - rewrite insert_app_l by (by eapply lookup_lt_Some).
    rewrite take_app_le by (by rewrite length_insert). rewrite take_ge by (by rewrite length_insert).
    rewrite <- (take_drop_middle l' i x Hi) at 2.
    rewrite insert_take_drop by (by eapply lookup_lt_Some). solve_Permutation.
  - apply list_lookup_singleton_Some in Hi as [Hz ->].
    rewrite insert_app_r_alt by lia. rewrite take_app_length. solve_Permutation.
Qed.

(** A listener that leaves takes nobody else's place, and every other one is
    told of the next reconnection as before. *)
Lemma cleanup_removes ch l :
  NoDup (ls_list l) → ch ∈ ls_list l → ls_list l ≡ₚ ch :: ls_list (cleanup ch l).
Proof.
  intros Hnd Hin. unfold cleanup. destruct (list_find (eq ch) (ls_list l)) as [[i x]|] eqn:Hf.
  - apply list_find_Some in Hf as (Hi & <- & _). simpl. by rewrite swap_remove_perm.
  - apply list_find_None in Hf. rewrite Forall_forall in Hf. by destruct (Hf ch Hin).
Qed.
