(* ===== verification/Sequence.v ===== *)
(** * The order of a saga's steps

    [OrderSagaStepsInSequence] and [getPreviousStepsInOrder] of
    [pkg/trax/coordinator.go].  The steps of a saga form a doubly linked list
    through [PreviousSagaStepInstanceId] and [NextSagaStepInstanceId]; the
    store returns them in no particular order and the coordinator rebuilds
    the sequence by walking the links.  The walk is a [for] loop without a
    bound, so it is a function with fuel whose [None] means that the loop has
    not ended yet; [walk_fuel_enough] shows that one more unit than there are
    steps is enough to know that it never will. *)

From S2P Require Import Prelude Model.
From Stdlib Require Import Lists.ListDec.

(** ** The code *)

Definition stepMap (allSteps : list SagaStepInstance) : gmap string SagaStepInstance :=
  foldl (λ m step, <[ssi_InstanceId step := step]> m) ∅ allSteps.

Definition firstStep (allSteps : list SagaStepInstance) : option SagaStepInstance :=
  snd <$> list_find (λ step, ssi_PreviousSagaStepInstanceId step = "") allSteps.

(** One turn of the loop: the step the walk moves to. *)
Definition nextStep (m : gmap string SagaStepInstance) (currentStep : SagaStepInstance) :
    option SagaStepInstance :=
  if decide (ssi_NextSagaStepInstanceId currentStep = "") then None
  else m !! ssi_NextSagaStepInstanceId currentStep.

Fixpoint walk (fuel : nat) (m : gmap string SagaStepInstance)
    (currentStep : SagaStepInstance) : option (list SagaStepInstance) :=
  match fuel with
  | 0 => None
  | S fuel =>
      match nextStep m currentStep with
      | None => Some [currentStep]
      | Some next => cons currentStep <$> walk fuel m next
      end
  end.

(** [None]: the loop never ends. *)
Definition OrderSagaStepsInSequence (allSteps : list SagaStepInstance) :
    option (list SagaStepInstance) :=
  match allSteps with
  | [] => Some allSteps
  | _ =>
      match firstStep allSteps with
      | None => Some allSteps
      | Some first => walk (S (size (stepMap allSteps))) (stepMap allSteps) first
      end
  end.

Fixpoint takeUntilStep (id : string) (steps : list SagaStepInstance) : list SagaStepInstance :=
  match steps with
  | [] => []
  | step :: steps =>
      if decide (ssi_InstanceId step = id) then [] else step :: takeUntilStep id steps
  end.

Definition getPreviousStepsInOrder (allSteps : list SagaStepInstance)
    (currentStep : SagaStepInstance) : option (list SagaStepInstance) :=
  takeUntilStep (ssi_InstanceId currentStep) <$> OrderSagaStepsInSequence allSteps.

(** ** How far the walk goes *)

Fixpoint nth_next (n : nat) (m : gmap string SagaStepInstance) (x : SagaStepInstance) :
    option SagaStepInstance :=
  match n with
  | 0 => Some x
  | S n => nextStep m x ≫= nth_next n m
  end.

Section walk.
Context (m : gmap string SagaStepInstance).
Implicit Types (x y : SagaStepInstance) (i j n : nat).

Lemma walk_None n x : walk n m x = None ↔ is_Some (nth_next n m x).
Proof.
  revert x. induction n as [|n IH]; intros x; simpl.
  { split; [by eexists|done]. }
  destruct (nextStep m x) as [y|]; simpl.
  - rewrite <-IH. by destruct (walk n m y).
  - split; [done|by intros [? ?]].
Qed.

Lemma nth_next_add i j x : nth_next (i + j) m x = nth_next i m x ≫= nth_next j m.
Proof.
  revert x. induction i as [|i IH]; intros x; simpl; [done|].
  destruct (nextStep m x); simpl; [apply IH|done].
Qed.

Lemma nth_next_le i j x : i ≤ j → is_Some (nth_next j m x) → is_Some (nth_next i m x).
Proof.
  intros Hij. replace j with (i + (j - i)) by lia. rewrite nth_next_add.
  destruct (nth_next i m x); simpl; [by eexists|by intros [? ?]].
Qed.

(** The keys the walk looks up. *)
Fixpoint visited (n : nat) (x : SagaStepInstance) : list string :=
  match n with
  | 0 => []
  | S n => ssi_NextSagaStepInstanceId x :: from_option (visited n) [] (nextStep m x)
  end.

Lemma visited_lookup n x i k :
  is_Some (nth_next n m x) → visited n x !! i = Some k →
  i < n ∧ nth_next (S i) m x = m !! k ∧ k ∈ dom m.
Proof.
  revert x i. induction n as [|n IH]; intros x i Hn; simpl in *; [done|].
  destruct (nextStep m x) as [y|] eqn:Hy; [|by destruct Hn].
  simpl in *. destruct i as [|i]; simpl.
  - intros [= <-]. unfold nextStep in Hy. case_decide; [done|].
    rewrite Hy. split; [lia|]. split; [done|]. by apply elem_of_dom_2 in Hy.
  - intros Hi. destruct (IH y i Hn Hi) as (? & ? & ?). split; [lia|done].
Qed.

Lemma visited_length n x : is_Some (nth_next n m x) → length (visited n x) = n.
Proof.
  revert x. induction n as [|n IH]; intros x Hn; simpl in *; [done|].
  destruct (nextStep m x) as [y|]; [|by destruct Hn]. simpl in *. by rewrite IH.
Qed.

(** More turns than there are steps: some key was looked up twice. *)
Lemma walk_repeats x :
  is_Some (nth_next (S (size m)) m x) →
  ∃ i j, i < j ≤ S (size m) ∧ nth_next i m x = nth_next j m x.
Proof.
  intros Hn. set (ks := visited (S (size m)) x).
  assert (¬ NoDup ks) as Hdup.
  { intros Hnd. assert (size (list_to_set ks : gset string) ≤ size m) as Hle.
    { rewrite <-size_dom. apply subseteq_size. intros k.
      rewrite elem_of_list_to_set, list_elem_of_lookup. intros [i Hi].
      by eapply visited_lookup in Hi as (_ & _ & ?). }
    rewrite size_list_to_set in Hle by done. unfold ks in Hle.
    rewrite visited_length in Hle by done. lia. }
  rewrite base.NoDup_ListNoDup in Hdup.
  apply not_NoDup in Hdup as (k & l1 & l2 & l3 & Hks); [|intros ??; unfold Decidable.decidable; destruct (decide (x0 = y)); auto].
  exists (S (length l1)), (S (length l1 + S (length l2))).
  assert (visited (S (size m)) x !! length l1 = Some k) as H1.
  { fold ks. rewrite Hks. by apply list_lookup_middle. }
  assert (visited (S (size m)) x !! (length l1 + S (length l2)) = Some k) as H2.
  { fold ks. rewrite Hks, lookup_app_r by lia.
    replace (length l1 + S (length l2) - length l1) with (S (length l2)) by lia.
    simpl. by apply list_lookup_middle. }
  apply visited_lookup in H1 as (? & E1 & _); [|done].
  apply visited_lookup in H2 as (? & E2 & _); [|done].
  split; [lia|]. by rewrite E1, E2.
Qed.

Lemma walk_forever n x :
  is_Some (nth_next (S (size m)) m x) → is_Some (nth_next n m x).
Proof.
  intros Hn. induction (lt_wf n) as [n _ IH].
  destruct (decide (n ≤ S (size m))) as [Hle|Hgt]; [by eapply nth_next_le|].
  destruct (walk_repeats x Hn) as (i & j & Hij & Heq).
  replace n with (j + (n - j)) by lia.
  rewrite nth_next_add, <-Heq, <-nth_next_add. apply IH. lia.
Qed.

(** The fuel decides the question: a walk that has not ended after one
    turn more than there are steps never ends. *)
Lemma walk_fuel_enough x :
  walk (S (size m)) m x = None → ∀ fuel, walk fuel m x = None.
Proof. intros Hw fuel. apply walk_None, walk_forever. by apply walk_None. Qed.

Lemma walk_fuel_mono n n' x l :
  n ≤ n' → walk n m x = Some l → walk n' m x = Some l.
Proof.
  revert n' x l. induction n as [|n IH]; intros [|n'] x l Hle; simpl; try done; try lia.
  destruct (nextStep m x) as [y|]; [|done]. intros Hw.
  destruct (walk n m y) as [l'|] eqn:Hl'; [|done].
  rewrite (IH n' y l'); [done|lia|done].
Qed.
End walk.

(** ** Well-linked sequences *)

(** The identifier of the first step of a list, [""] at the end. *)
Definition head_id (ss : list SagaStepInstance) : string :=
  match ss with [] => "" | x :: _ => ssi_InstanceId x end.

(** [linked prev ss]: each step of [ss] points back to the one before it
    (the first one to [prev]) and forward to the one after it. *)
Fixpoint linked (prev : string) (ss : list SagaStepInstance) : Prop :=
  match ss with
  | [] => True
  | x :: r =>
      ssi_PreviousSagaStepInstanceId x = prev ∧
      ssi_NextSagaStepInstanceId x = head_id r ∧
      linked (ssi_InstanceId x) r
  end.

(** What the submission handler builds: a linked list with distinct,
    non-empty identifiers. *)
Record chain (ss : list SagaStepInstance) : Prop := {
  chain_linked : linked "" ss;
  chain_ids : NoDup (ssi_InstanceId <$> ss);
  chain_nonempty : Forall (λ x, ssi_InstanceId x ≠ "") ss;
}.

#[export] Instance linked_dec prev ss : Decision (linked prev ss).
Proof. revert prev. induction ss; intros prev; simpl; apply _. Defined.

#[export] Instance chain_dec ss : Decision (chain ss).
Proof.
  refine (cast_if_and3 (decide (linked "" ss)) (decide (NoDup (ssi_InstanceId <$> ss)))
            (decide (Forall (λ x, ssi_InstanceId x ≠ "") ss)));
    abstract (first [by split | by intros []]).
Defined.

(** The rows of a list of steps, by identifier. *)
Definition steps_map (ss : list SagaStepInstance) : gmap string SagaStepInstance :=
  list_to_map ((λ x, (ssi_InstanceId x, x)) <$> ss).

Lemma steps_map_ids ss : ((λ x, (ssi_InstanceId x, x)) <$> ss).*1 = ssi_InstanceId <$> ss.
Proof. rewrite <-list_fmap_compose. done. Qed.

Lemma steps_map_lookup ss k x :
  NoDup (ssi_InstanceId <$> ss) →
  steps_map ss !! k = Some x ↔ x ∈ ss ∧ ssi_InstanceId x = k.
Proof.
  intros Hnd. unfold steps_map. rewrite <-elem_of_list_to_map by by rewrite steps_map_ids.
  rewrite list_elem_of_fmap. split; [intros (y & [= -> ->] & ?); done|].
  intros [? <-]. by exists x.
Qed.

Lemma steps_map_perm ss ss' :
  NoDup (ssi_InstanceId <$> ss) → ss ≡ₚ ss' → steps_map ss = steps_map ss'.
Proof.
  intros Hnd Hp. apply map_eq. intros k. apply option_eq. intros x.
  rewrite !steps_map_lookup; [by rewrite Hp| |done]. by rewrite <-Hp.
Qed.

Lemma steps_map_to_list ss :
  NoDup (ssi_InstanceId <$> ss) → (map_to_list (steps_map ss)).*2 ≡ₚ ss.
Proof.
  intros Hnd. unfold steps_map. rewrite map_to_list_to_map by by rewrite steps_map_ids.
  by rewrite <-list_fmap_compose, list_fmap_id.
Qed.

Lemma stepMap_steps_map all :
  NoDup (ssi_InstanceId <$> all) → stepMap all = steps_map all.
Proof.
  intros Hnd. unfold stepMap.
  assert (∀ m, foldl (λ m step, <[ssi_InstanceId step := step]> m) m all =
               steps_map all ∪ m) as Hfold.
  { induction all as [|x all IH]; intros m; csimpl.
    { unfold steps_map. simpl. by rewrite (left_id_L ∅ (∪)). }
    apply NoDup_cons in Hnd as [Hx Hnd]. rewrite IH by done.
    unfold steps_map. simpl. rewrite <-insert_union_l, insert_union_r; [done|].
    apply not_elem_of_list_to_map_1. by rewrite steps_map_ids. }
  by rewrite Hfold, (right_id_L ∅ (∪)).
Qed.

Lemma linked_prev prev ss x :
  prev ≠ "" → Forall (λ y, ssi_InstanceId y ≠ "") ss → linked prev ss → x ∈ ss →
  ssi_PreviousSagaStepInstanceId x ≠ "".
Proof.
  revert prev. induction ss as [|y ss IH]; intros prev Hp Hne Hl Hx; [by apply not_elem_of_nil in Hx|].
  simpl in Hl. destruct Hl as (Hy & _ & Hl). apply Forall_cons in Hne as [Hyne Hne].
  apply elem_of_cons in Hx as [->|Hx]; [by rewrite Hy|]. by eapply (IH (ssi_InstanceId y)).
Qed.

Lemma firstStep_chain x ss all :
  chain (x :: ss) → all ≡ₚ x :: ss → firstStep all = Some x.
Proof.
  intros [Hl Hnd Hne] Hp. simpl in Hl. destruct Hl as (Hx & _ & Hl).
  apply Forall_cons in Hne as [Hxne Hne]. unfold firstStep.
  destruct (list_find _ all) as [[i y]|] eqn:Hf; simpl.
  - apply list_find_Some in Hf as (Hy & Hprev & _).
    assert (y ∈ x :: ss) as Hin by (rewrite <-Hp; eapply list_elem_of_lookup; eauto).
    apply elem_of_cons in Hin as [->|Hin]; [done|].
    by destruct (linked_prev (ssi_InstanceId x) ss y).
  - eapply list_find_None in Hf. rewrite Forall_forall in Hf.
    destruct (Hf x); [|done]. rewrite Hp. by left.
Qed.

Lemma walk_linked m prev x ss n :
  linked prev (x :: ss) → Forall (λ y, ssi_InstanceId y ≠ "") ss →
  Forall (λ y, m !! ssi_InstanceId y = Some y) ss →
  length ss < n → walk n m x = Some (x :: ss).
Proof.
  revert prev x n. induction ss as [|y ss IH]; intros prev x n Hl Hne Hm Hn;
    (destruct n as [|n]; [simpl in Hn; lia|]); simpl in Hl.
  - destruct Hl as (_ & Hx & _). simpl. unfold nextStep. by rewrite Hx.
  - destruct Hl as (_ & Hx & Hl). apply Forall_cons in Hne as [Hy Hne].
    apply Forall_cons in Hm as [Hmy Hm]. simpl. unfold nextStep.
    rewrite Hx, decide_False, Hmy by done.
    rewrite (IH (ssi_InstanceId x) y); [done|done|done|done|simpl in Hn; lia].
Qed.

(** In whatever order the store returns the steps of a chain, the
    coordinator finds the execution order. *)
Lemma order_chain ss all :
  chain ss → all ≡ₚ ss → OrderSagaStepsInSequence all = Some ss.
Proof.
  intros Hc Hp. destruct ss as [|x ss].
  { apply Permutation_nil_r in Hp as ->. done. }
  assert (OrderSagaStepsInSequence all =
          walk (S (size (stepMap all))) (stepMap all) x) as ->.
  { unfold OrderSagaStepsInSequence. rewrite (firstStep_chain x ss) by done.
    destruct all; [|done]. by apply Permutation_nil_l in Hp. }
  destruct Hc as [Hl Hnd Hne]. apply Forall_cons in Hne as [_ Hne].
  rewrite stepMap_steps_map by by rewrite Hp.
  rewrite (steps_map_perm all (x :: ss)) by (done || by rewrite Hp).
  apply (walk_linked _ ""); [done|done| |].
  - apply Forall_forall. intros y Hy. apply steps_map_lookup; [done|].
    split; [by right|done].
  - assert (size (steps_map (x :: ss)) = length (x :: ss)) as ->; [|simpl; lia].
    unfold steps_map. rewrite map_size_list_to_map by by rewrite steps_map_ids.
    by rewrite length_fmap.
Qed.

Lemma takeUntilStep_app pre cur post :
  NoDup (ssi_InstanceId <$> pre ++ cur :: post) →
  takeUntilStep (ssi_InstanceId cur) (pre ++ cur :: post) = pre.
Proof.
  induction pre as [|x pre IH]; csimpl; intros Hnd; [by rewrite decide_True|].
  apply NoDup_cons in Hnd as [Hx Hnd]. rewrite decide_False, IH; [done|done|].
  intros Heq. apply Hx. rewrite Heq, fmap_app. csimpl. set_solver.
Qed.

(** ** The properties *)

(** Whatever order the store returns the steps of a saga in, the
    coordinator recovers their execution order. *)
Theorem OrderSagaStepsInSequence_chain ss all :
  chain ss → all ≡ₚ ss → OrderSagaStepsInSequence all = Some ss.
Proof. apply order_chain. Qed.

Lemma OrderSagaStepsInSequence_chain_witness :
  OrderSagaStepsInSequence (reverse (sample_steps SagaStepStateEnum_ExecutionDone
    SagaStepStateEnum_ExecutionRunning SagaStepStateEnum_ExecutionPending)) =
  Some (sample_steps SagaStepStateEnum_ExecutionDone
    SagaStepStateEnum_ExecutionRunning SagaStepStateEnum_ExecutionPending).
Proof.
  apply OrderSagaStepsInSequence_chain; [|apply reverse_Permutation].
  apply (bool_decide_unpack _). vm_compute. exact I.
Defined.

(** The loop that walks the links has no bound, and no fuel hides it: it
    is endless exactly when the walk from the first step is, that is when the
    links run into a cycle. *)
Theorem OrderSagaStepsInSequence_endless all :
  OrderSagaStepsInSequence all = None ↔
  ∃ first, firstStep all = Some first ∧ ∀ fuel, walk fuel (stepMap all) first = None.
Proof.
  unfold OrderSagaStepsInSequence. destruct all as [|x all].
  { split; [done|]. by intros (first & ? & _). }
  destruct (firstStep (x :: all)) as [first|].
  - split.
    + intros Hw. exists first. split; [done|]. by apply walk_fuel_enough.
    + intros (first' & [= <-] & Hw). apply Hw.
  - split; [done|]. by intros (first' & ? & _).
Qed.

(** The links of a saga with a cycle: [b] comes after itself. *)
Example cyclic_links_hang :
  OrderSagaStepsInSequence
    [sample_step "a" "" "b" SagaStepStateEnum_ExecutionDone [];
     sample_step "b" "a" "b" SagaStepStateEnum_ExecutionCandidate []] = None.
Proof. vm_compute. reflexivity. Qed.

(** The steps before the current one, in execution order. *)
Theorem getPreviousStepsInOrder_chain pre cur post all :
  chain (pre ++ cur :: post) → all ≡ₚ pre ++ cur :: post →
  getPreviousStepsInOrder all cur = Some pre.
Proof.
  intros Hc Hp. unfold getPreviousStepsInOrder. rewrite (order_chain _ _ Hc Hp). simpl.
  by rewrite takeUntilStep_app by apply Hc.
Qed.

Lemma getPreviousStepsInOrder_chain_witness :
  getPreviousStepsInOrder
    [sample_step "b" "a" "" SagaStepStateEnum_ExecutionRunning [];
     sample_step "a" "" "b" SagaStepStateEnum_ExecutionDone []]
    (sample_step "b" "a" "" SagaStepStateEnum_ExecutionRunning []) =
  Some [sample_step "a" "" "b" SagaStepStateEnum_ExecutionDone []].
Proof.
  apply (getPreviousStepsInOrder_chain [sample_step "a" "" "b" SagaStepStateEnum_ExecutionDone []]
    _ []); [|apply Permutation_swap].
  apply (bool_decide_unpack _). vm_compute. exact I.
Defined.
