(* ===== verification/Validation.v ===== *)
(** * Which combinations of step states a saga may be in

    [isCompensationState], [validateNonCompensatingMode] and
    [validateCompensatingMode] of [pkg/trax/coordinator.go], and what they
    accept: the language of the sequences of step states around the current
    step.  The two loops over the later steps are recursive functions with
    the loop's flag as an argument. *)

From S2P Require Import Prelude Model.

(** ** The code *)

Definition isCompensationState (state : SagaStepStateEnum) : bool :=
  match state with
  | SagaStepStateEnum_CompensationPending
  | SagaStepStateEnum_CompensationCandidate
  | SagaStepStateEnum_CompensationRunning
  | SagaStepStateEnum_CompensationSucceeded
  | SagaStepStateEnum_CompensationDone
  | SagaStepStateEnum_CompensationFailed
  | SagaStepStateEnum_CompensationBlocked => true
  | _ => false
  end.

(** The states the forward mode accepts for the current step. *)
Definition forward_current (state : SagaStepStateEnum) : bool :=
  match state with
  | SagaStepStateEnum_ExecutionDone
  | SagaStepStateEnum_ExecutionCandidate
  | SagaStepStateEnum_ExecutionPending
  | SagaStepStateEnum_ExecutionRunning
  | SagaStepStateEnum_ExecutionSucceeded
  | SagaStepStateEnum_ExecutionFailed => true
  | _ => false
  end.

(** The loop over the steps after the current one, with [foundNonPending]. *)
Fixpoint forward_next_loop (foundNonPending : bool) (steps : list SagaStepInstance) : bool :=
  match steps with
  | [] => true
  | step :: steps =>
      if foundNonPending then
        if step_state_eqb (ssi_State step) SagaStepStateEnum_ExecutionPending
        then forward_next_loop true steps else false
      else
        match ssi_State step with
        | SagaStepStateEnum_ExecutionPending => forward_next_loop false steps
        | SagaStepStateEnum_ExecutionCandidate
        | SagaStepStateEnum_ExecutionRunning
        | SagaStepStateEnum_ExecutionSucceeded
        | SagaStepStateEnum_ExecutionFailed
        | SagaStepStateEnum_ExecutionDone => forward_next_loop true steps
        | _ => false
        end
  end.

(** An index outside the list is a Go run-time panic; both callers pass the
    position they have just found the current step at. *)
Definition validateNonCompensatingMode (orderedSteps : list SagaStepInstance)
    (currentStepIndex : nat) : bool :=
  match orderedSteps !! currentStepIndex with
  | None => false
  | Some currentStep =>
      forward_current (ssi_State currentStep) &&
      forallb (λ step, step_state_eqb (ssi_State step) SagaStepStateEnum_ExecutionDone)
        (take currentStepIndex orderedSteps) &&
      forward_next_loop false (drop (S currentStepIndex) orderedSteps)
  end.

(** The loop over the steps after the current one, with [foundAborted]. *)
Fixpoint compensating_next_loop (foundAborted : bool) (steps : list SagaStepInstance) : bool :=
  match steps with
  | [] => true
  | step :: steps =>
      if step_state_eqb (ssi_State step) SagaStepStateEnum_ExecutionAborted
      then compensating_next_loop true steps
      else if isCompensationState (ssi_State step)
      then if foundAborted then false else compensating_next_loop foundAborted steps
      else false
  end.

Definition validateCompensatingMode (orderedSteps : list SagaStepInstance)
    (currentStepIndex : nat) : bool :=
  match orderedSteps !! currentStepIndex with
  | None => false
  | Some currentStep =>
      isCompensationState (ssi_State currentStep) &&
      forallb (λ step, step_state_eqb (ssi_State step) SagaStepStateEnum_CompensationPending)
        (take currentStepIndex orderedSteps) &&
      compensating_next_loop false (drop (S currentStepIndex) orderedSteps)
  end.

(** The choice of mode in [isSagaStateValid]. *)
Definition validSequence (orderedSteps : list SagaStepInstance) (currentStepIndex : nat) : bool :=
  if existsb (λ step, isCompensationState (ssi_State step)) orderedSteps
  then validateCompensatingMode orderedSteps currentStepIndex
  else validateNonCompensatingMode orderedSteps currentStepIndex.

(** ** Predicates on steps *)

Definition in_state (st : SagaStepStateEnum) (x : SagaStepInstance) : Prop := ssi_State x = st.

Abbreviation Done := (in_state SagaStepStateEnum_ExecutionDone).
Abbreviation Pending := (in_state SagaStepStateEnum_ExecutionPending).
Abbreviation Aborted := (in_state SagaStepStateEnum_ExecutionAborted).
Abbreviation CompPending := (in_state SagaStepStateEnum_CompensationPending).
Abbreviation CompDone := (in_state SagaStepStateEnum_CompensationDone).

#[export] Instance in_state_dec st x : Decision (in_state st x).
Proof. unfold in_state. apply _. Defined.

Definition Compensating (x : SagaStepInstance) : Prop :=
  isCompensationState (ssi_State x) = true.

Lemma step_state_eqb_true a b : step_state_eqb a b = true ↔ a = b.
Proof. unfold step_state_eqb. by rewrite bool_decide_eq_true. Qed.

Lemma step_state_eqb_refl a : step_state_eqb a a = true.
Proof. by apply step_state_eqb_true. Qed.

Lemma forallb_in_state st l :
  forallb (λ x, step_state_eqb (ssi_State x) st) l = true ↔ Forall (in_state st) l.
Proof.
  rewrite forallb_forall, Forall_forall. unfold in_state.
  split; intros H x Hx; [rewrite <-step_state_eqb_true|rewrite step_state_eqb_true];
    apply H; by apply list_elem_of_In.
Qed.

(** ** What the loops accept *)

Lemma forward_next_true l : forward_next_loop true l = true ↔ Forall Pending l.
Proof.
  rewrite <-forallb_in_state. induction l as [|x l IH]; simpl; [done|].
  destruct (step_state_eqb _ _); simpl; [done|]. by split.
Qed.

(** The steps after the current one: pending ones around at most one step
    that is candidate, running, succeeded, failed or done. *)
Lemma forward_next_false l :
  forward_next_loop false l = true ↔
  Forall Pending l ∨
  ∃ l1 x l2, l = l1 ++ x :: l2 ∧ Forall Pending l1 ∧ Forall Pending l2 ∧
    forward_current (ssi_State x) = true ∧ ¬ Pending x.
Proof.
  induction l as [|x l IH]; simpl; [split; [by left|done]|].
  split.
  - intros H. destruct (ssi_State x) eqn:Hx; try discriminate H.
    all: try (apply forward_next_true in H; right; exists [], x, l;
              unfold in_state; rewrite Hx; by repeat split).
    apply IH in H as [H|(l1 & y & l2 & -> & ? & ? & ? & ?)]; [left; by constructor|].
    right. exists (x :: l1), y, l2. repeat split; try done. by constructor.
  - intros [H|(l1 & y & l2 & Heq & H1 & H2 & Hy & Hyn)].
    + apply Forall_cons in H as [Hx H]. rewrite Hx. apply IH. by left.
    + destruct l1 as [|z l1]; simpl in Heq; injection Heq as -> ->.
      * apply forward_next_true in H2. unfold in_state in Hyn.
        by destruct (ssi_State y).
      * apply Forall_cons in H1 as [Hz H1]. rewrite Hz. apply IH. right.
        exists l1, y, l2. repeat split; done.
Qed.

Lemma compensating_next_true l : compensating_next_loop true l = true ↔ Forall Aborted l.
Proof.
  rewrite <-forallb_in_state. induction l as [|x l IH]; simpl; [done|].
  destruct (step_state_eqb _ _); simpl; [done|]. by destruct (isCompensationState _).
Qed.

Lemma compensating_next_false l :
  compensating_next_loop false l = true ↔
  ∃ l1 l2, l = l1 ++ l2 ∧ Forall Compensating l1 ∧ Forall Aborted l2.
Proof.
  induction l as [|x l IH]; simpl.
  { split; [intros _; exists [], []; repeat constructor|done]. }
  destruct (step_state_eqb _ _) eqn:Hx.
  - apply step_state_eqb_true in Hx. rewrite compensating_next_true. split.
    + intros H. exists [], (x :: l). repeat constructor; done.
    + intros ([|y l1] & l2 & Heq & H1 & H2); simpl in Heq.
      * subst l2. by apply Forall_cons in H2 as [_ ?].
      * injection Heq as <- _. apply Forall_cons in H1 as [H1 _].
        unfold Compensating in H1. by rewrite Hx in H1.
  - destruct (isCompensationState (ssi_State x)) eqn:Hc.
    + rewrite IH. split.
      * intros (l1 & l2 & -> & ? & ?). exists (x :: l1), l2. by repeat constructor.
      * intros ([|y l1] & l2 & Heq & H1 & H2); simpl in Heq.
        { subst l2. apply Forall_cons in H2 as [H2 _]. unfold in_state in H2.
          by rewrite H2 in Hc. }
        injection Heq as <- ->. apply Forall_cons in H1 as [_ H1]. by exists l1, l2.
    + split; [done|]. intros ([|y l1] & l2 & Heq & H1 & H2); simpl in Heq.
      * subst l2. apply Forall_cons in H2 as [H2 _]. unfold in_state in H2.
        by rewrite H2 in Hx.
      * injection Heq as <- _. apply Forall_cons in H1 as [H1 _].
        unfold Compensating in H1. by rewrite Hc in H1.
Qed.

(** ** What the two modes accept *)

Lemma validate_forward_spec pre cur post :
  validateNonCompensatingMode (pre ++ cur :: post) (length pre) = true ↔
  forward_current (ssi_State cur) = true ∧ Forall Done pre ∧
  forward_next_loop false post = true.
Proof.
  unfold validateNonCompensatingMode.
  rewrite list_lookup_middle, take_app_length by done.
  replace (S (length pre)) with (length (pre ++ [cur])) by (rewrite length_app; simpl; lia).
  change (pre ++ cur :: post) with (pre ++ [cur] ++ post).
  rewrite (app_assoc pre [cur] post), drop_app_length.
  rewrite !andb_true_iff, forallb_in_state. tauto.
Qed.

Lemma validate_compensating_spec pre cur post :
  validateCompensatingMode (pre ++ cur :: post) (length pre) = true ↔
  Compensating cur ∧ Forall CompPending pre ∧
  compensating_next_loop false post = true.
Proof.
  unfold validateCompensatingMode.
  rewrite list_lookup_middle, take_app_length by done.
  replace (S (length pre)) with (length (pre ++ [cur])) by (rewrite length_app; simpl; lia).
  change (pre ++ cur :: post) with (pre ++ [cur] ++ post).
  rewrite (app_assoc pre [cur] post), drop_app_length.
  rewrite !andb_true_iff, forallb_in_state. tauto.
Qed.

Lemma existsb_compensation l :
  existsb (λ x, isCompensationState (ssi_State x)) l = true ↔ Exists Compensating l.
Proof.
  rewrite existsb_exists, Exists_exists.
  split; intros (x & Hx & H); exists x; split; try done; by apply list_elem_of_In.
Qed.

(** ** The properties *)

(** What the forward mode accepts: the earlier steps done, the current one
    in a forward state, the later ones pending but for at most one, which may
    be in any other forward state. *)
Theorem validateNonCompensatingMode_language pre cur post :
  validateNonCompensatingMode (pre ++ cur :: post) (length pre) = true ↔
  Forall Done pre ∧ forward_current (ssi_State cur) = true ∧
  (Forall Pending post ∨
   ∃ l1 x l2, post = l1 ++ x :: l2 ∧ Forall Pending l1 ∧ Forall Pending l2 ∧
     forward_current (ssi_State x) = true ∧ ¬ Pending x).
Proof. rewrite validate_forward_spec, forward_next_false. tauto. Qed.

(** What the compensating mode accepts: the earlier steps waiting for
    their compensation, the current one in any compensation state, the later
    ones in any compensation states and after these aborted ones. *)
Theorem validateCompensatingMode_language pre cur post :
  validateCompensatingMode (pre ++ cur :: post) (length pre) = true ↔
  Forall CompPending pre ∧ Compensating cur ∧
  ∃ l1 l2, post = l1 ++ l2 ∧ Forall Compensating l1 ∧ Forall Aborted l2.
Proof. rewrite validate_compensating_spec, compensating_next_false. tauto. Qed.

(** More than the patterns that the comments list: a done step after a
    pending one, and a step that waits for its compensation after one that is
    being compensated. *)
Example validators_are_lax :
  validateNonCompensatingMode (sample_steps SagaStepStateEnum_ExecutionCandidate
    SagaStepStateEnum_ExecutionPending SagaStepStateEnum_ExecutionDone) 0 = true ∧
  validateCompensatingMode (sample_steps SagaStepStateEnum_CompensationRunning
    SagaStepStateEnum_CompensationPending SagaStepStateEnum_ExecutionAborted) 0 = true.
Proof. split; reflexivity. Qed.
