(* ===== verification/Database.v ===== *)
(** * The database behind the store

    The tables of the [trax] schema and the effect of each SQL statement of
    [pkg/trax/store_psql.go] on them.  The instance tables of a cluster are
    found by their name, and a statement on a table that does not exist is an
    error.  A row is the record the code writes and reads back: the JSON
    columns hold maps and lists of strings, which [encoding/json] round-trips
    up to the difference between nil and empty; the [cluster_id] is not a
    column, so a read sets it from the cluster it was asked for; the
    [saga_idempotency_key] column is written once from columns that no
    statement updates, so it is the key of the row.  Timestamps written by
    [CURRENT_TIMESTAMP] are arguments. *)

From S2P Require Import Prelude GoMonad Model Naming Sequence.

(** ** Tables *)

(** A notification on a channel. *)
Record StoreNotification := mkStoreNotification {
  sn_Channel : string;
  sn_Payload : string;
}.

Record DB := mkDB {
  db_clusters : gmap string Cluster;
  db_saga_templates : gmap string SagaTemplate;
  db_saga_step_templates : gmap string SagaStepTemplate;
  db_saga_instances : gmap string (gmap string SagaInstance);
  db_saga_step_instances : gmap string (gmap string SagaStepInstance);
  db_saga_annexes : gmap string (gmap string SagaAnnex);
  db_notifications : list StoreNotification;
}.

Definition set_db_saga_instances v (d : DB) : DB :=
  mkDB (db_clusters d) (db_saga_templates d) (db_saga_step_templates d) v
    (db_saga_step_instances d) (db_saga_annexes d) (db_notifications d).
Definition set_db_saga_step_instances v (d : DB) : DB :=
  mkDB (db_clusters d) (db_saga_templates d) (db_saga_step_templates d)
    (db_saga_instances d) v (db_saga_annexes d) (db_notifications d).
Definition set_db_notifications v (d : DB) : DB :=
  mkDB (db_clusters d) (db_saga_templates d) (db_saga_step_templates d)
    (db_saga_instances d) (db_saga_step_instances d) (db_saga_annexes d) v.

Definition undefined_table {A} : result A := Err (Errorf "relation does not exist").

(** ** Reads *)

Definition saga_table (cid : string) (d : DB) : option (gmap string SagaInstance) :=
  db_saga_instances d !! getSagaInstancesTableName cid.
Definition step_table (cid : string) (d : DB) : option (gmap string SagaStepInstance) :=
  db_saga_step_instances d !! getSagaStepInstancesTableName cid.

(** The rows as [scan] returns them. *)
Definition saga_rows (cid : string) (d : DB) : gmap string SagaInstance :=
  set_si_ClusterId cid <$> default ∅ (saga_table cid d).
Definition step_rows (cid : string) (d : DB) : gmap string SagaStepInstance :=
  set_ssi_ClusterId cid <$> default ∅ (step_table cid d).

(** [SELECT ... WHERE saga_instance_id = $1] *)
Definition steps_of (cid sid : string) (d : DB) : gmap string SagaStepInstance :=
  filter (λ kx, ssi_SagaInstanceId kx.2 = sid) (step_rows cid d).

(** [SELECT ... WHERE parent_saga_instance_id = $1 ORDER BY created_at ASC];
    the column of a saga without a parent is [NULL], which equals nothing. *)
Definition children_of (cid sid : string) (d : DB) : gmap string SagaInstance :=
  filter (λ kx, si_ParentSagaInstanceId kx.2 = sid ∧ sid ≠ "") (saga_rows cid d).

Definition has_tables (cid : string) (d : DB) : Prop :=
  is_Some (saga_table cid d) ∧ is_Some (step_table cid d).

Definition sql_select_saga (cid id : string) (d : DB) : result SagaInstance :=
  match saga_table cid d with
  | None => undefined_table
  | Some _ =>
      match saga_rows cid d !! id with
      | Some g => Ok g
      | None => Err ErrSagaInstanceNotFound
      end
  end.

Definition sql_select_step (cid id : string) (d : DB) : result SagaStepInstance :=
  match step_table cid d with
  | None => undefined_table
  | Some _ =>
      match step_rows cid d !! id with
      | Some x => Ok x
      | None => Err ErrSagaStepInstanceNotFound
      end
  end.

(** The rows of a query, in the order [order] puts them in. *)
Definition sql_select_steps_of (order : ∀ A, list A → list A) (cid sid : string) (d : DB) :
    result (list SagaStepInstance) :=
  match step_table cid d with
  | None => undefined_table
  | Some _ => Ok (order _ (map_to_list (steps_of cid sid d)).*2)
  end.

Definition older_saga (x y : SagaInstance) : Prop := (si_CreatedAt x ≤ si_CreatedAt y)%Z.

#[export] Instance older_saga_dec x y : Decision (older_saga x y).
Proof. unfold older_saga. apply _. Defined.

Definition sql_select_children (order : ∀ A, list A → list A) (cid sid : string) (d : DB) :
    result (list SagaInstance) :=
  match saga_table cid d with
  | None => undefined_table
  | Some _ =>
      Ok (merge_sort older_saga
            (order _ (map_to_list (children_of cid sid d)).*2))
  end.

(** The [CASE s.state WHEN ...] of the polling query compares the column
    with these strings. *)
Definition poll_priority (st : SagaStepStateEnum) : nat :=
  let s := SagaStepStateEnum_string st in
  if decide (s = "SAGA_STEP_EXECUTION_SUCCEEDED") then 1
  else if decide (s = "SAGA_STEP_EXECUTION_FAILED") then 2
  else if decide (s = "SAGA_STEP_EXECUTION_RUNNING") then 3
  else if decide (s = "SAGA_STEP_EXECUTION_CANDIDATE") then 4
  else if decide (s = "SAGA_STEP_COMPENSATION_SUCCEEDED") then 5
  else if decide (s = "SAGA_STEP_COMPENSATION_FAILED") then 6
  else if decide (s = "SAGA_STEP_COMPENSATION_RUNNING") then 7
  else if decide (s = "SAGA_STEP_COMPENSATION_CANDIDATE") then 8
  else 9.

(** The lexicographic order of the [ORDER BY] clause. *)
Definition poll_before (x y : SagaStepInstance) : Prop :=
  poll_priority (ssi_State x) < poll_priority (ssi_State y) ∨
  poll_priority (ssi_State x) = poll_priority (ssi_State y) ∧
    (ssi_CreatedAt x ≤ ssi_CreatedAt y)%Z.

#[export] Instance poll_before_dec x y : Decision (poll_before x y).
Proof. unfold poll_before. apply _. Defined.

Definition poll_selects (cid affinity : string) (sagaStates : list SagaStateEnum)
    (stepStates : list SagaStepStateEnum) (d : DB) (x : SagaStepInstance) : bool :=
  bool_decide (ssi_Affinity x = affinity) &&
  bool_decide (ssi_State x ∈ stepStates) &&
  match saga_rows cid d !! ssi_SagaInstanceId x with
  | Some g => bool_decide (si_State g ∈ sagaStates)
  | None => false
  end.

Definition sql_poll (order : ∀ A, list A → list A) (cid affinity : string)
    (sagaStates : list SagaStateEnum) (stepStates : list SagaStepStateEnum) (d : DB) :
    result (list SagaStepInstance) :=
  match saga_table cid d, step_table cid d with
  | Some _, Some _ =>
      Ok (merge_sort poll_before
            (base.filter (λ x, poll_selects cid affinity sagaStates stepStates d x = true)
               (order _ (map_to_list (step_rows cid d)).*2)))
  | _, _ => undefined_table
  end.

(** ** Writes *)

(** [UPDATE saga_instances SET ... WHERE instance_id = $n] *)
Definition upd_saga (cid id : string) (f : SagaInstance → SagaInstance) (d : DB) : DB :=
  set_db_saga_instances
    (alter (alter f id) (getSagaInstancesTableName cid) (db_saga_instances d)) d.

Definition upd_step (cid id : string) (f : SagaStepInstance → SagaStepInstance) (d : DB) : DB :=
  set_db_saga_step_instances
    (alter (alter f id) (getSagaStepInstancesTableName cid) (db_saga_step_instances d)) d.

Definition sql_update_saga (cid id : string) (f : SagaInstance → SagaInstance) (d : DB) :
    result DB :=
  match saga_table cid d with
  | None => undefined_table
  | Some _ => Ok (upd_saga cid id f d)
  end.

Definition sql_update_step (cid id : string) (f : SagaStepInstance → SagaStepInstance) (d : DB) :
    result DB :=
  match step_table cid d with
  | None => undefined_table
  | Some _ => Ok (upd_step cid id f d)
  end.

(** [UPDATE saga_instances SET ... WHERE instance_id = $2 AND state = $3],
    with the number of rows it changed. *)
Definition sql_update_saga_if (cid id : string) (from : SagaStateEnum)
    (f : SagaInstance → SagaInstance) (d : DB) : result (DB * nat) :=
  match saga_table cid d with
  | None => undefined_table
  | Some _ =>
      match saga_rows cid d !! id with
      | Some g =>
          if saga_state_eqb (si_State g) from then Ok (upd_saga cid id f d, 1) else Ok (d, 0)
      | None => Ok (d, 0)
      end
  end.

Definition sql_notify (n : StoreNotification) (d : DB) : result DB :=
  Ok (set_db_notifications (db_notifications d ++ [n]) d).

(** Some row has the idempotency key. *)
Definition saga_key_taken (cid key : string) (d : DB) : bool :=
  bool_decide (Exists (λ g, saga_SagaIdempotencyKey g = key) (map_to_list (saga_rows cid d)).*2).
Definition step_key_taken (cid key : string) (d : DB) : bool :=
  bool_decide (Exists (λ x, step_SagaIdempotencyKey x = key) (map_to_list (step_rows cid d)).*2).

Definition sql_saga_key_exists (cid key : string) (d : DB) : result bool :=
  match saga_table cid d with
  | None => undefined_table
  | Some _ => Ok (saga_key_taken cid key d)
  end.

Definition sql_step_key_exists (cid key : string) (d : DB) : result bool :=
  match step_table cid d with
  | None => undefined_table
  | Some _ => Ok (step_key_taken cid key d)
  end.

Definition duplicate_key {A} : result A := Err (Errorf "duplicate key value violates unique constraint").

(** [INSERT INTO saga_instances]: the database checks the primary key, that
    the idempotency key is unique, and the foreign key to the template. *)
Definition sql_insert_saga (ts : Z) (g : SagaInstance) (d : DB) : result DB :=
  match saga_table (si_ClusterId g) d with
  | None => undefined_table
  | Some t =>
      if bool_decide (is_Some (t !! si_InstanceId g)) ||
         saga_key_taken (si_ClusterId g) (saga_SagaIdempotencyKey g) d
      then duplicate_key
      else
        match db_saga_templates d !! si_SagaTemplateId g with
        | None => Err (Errorf "violates foreign key constraint")
        | Some _ =>
            Ok (set_db_saga_instances
                  (<[getSagaInstancesTableName (si_ClusterId g) :=
                       <[si_InstanceId g := set_si_CreatedAt ts (set_si_UpdatedAt ts g)]> t]>
                     (db_saga_instances d)) d)
        end
  end.

Definition sql_insert_step (ts : Z) (x : SagaStepInstance) (d : DB) : result DB :=
  match step_table (ssi_ClusterId x) d with
  | None => undefined_table
  | Some t =>
      if bool_decide (is_Some (t !! ssi_InstanceId x)) ||
         step_key_taken (ssi_ClusterId x) (step_SagaIdempotencyKey x) d
      then duplicate_key
      else
        match saga_rows (ssi_ClusterId x) d !! ssi_SagaInstanceId x,
              db_saga_templates d !! ssi_SagaTemplateId x,
              db_saga_step_templates d !! ssi_SagaStepTemplateId x with
        | Some _, Some _, Some _ =>
            Ok (set_db_saga_step_instances
                  (<[getSagaStepInstancesTableName (ssi_ClusterId x) :=
                       <[ssi_InstanceId x := set_ssi_CreatedAt ts (set_ssi_UpdatedAt ts x)]> t]>
                     (db_saga_step_instances d)) d)
        | _, _, _ => Err (Errorf "violates foreign key constraint")
        end
  end.

(** What a new row has passed. *)
Lemma insert_checked {A} (o : option A) (taken : bool) :
  bool_decide (is_Some o) || taken = false → o = None ∧ taken = false.
Proof. intros [Ho%bool_decide_eq_false ?]%orb_false_iff. split; [|done]. by apply eq_None_not_Some. Qed.

(** ** What the updates do to the reads

    The functions the statements apply to a row leave its identity alone and
    do not look at the cluster. *)

Class step_update (f : SagaStepInstance → SagaStepInstance) : Prop := {
  su_cluster : ∀ c x, f (set_ssi_ClusterId c x) = set_ssi_ClusterId c (f x);
  su_id : ∀ x, ssi_InstanceId (f x) = ssi_InstanceId x;
  su_saga : ∀ x, ssi_SagaInstanceId (f x) = ssi_SagaInstanceId x;
  su_prev : ∀ x, ssi_PreviousSagaStepInstanceId (f x) = ssi_PreviousSagaStepInstanceId x;
  su_next : ∀ x, ssi_NextSagaStepInstanceId (f x) = ssi_NextSagaStepInstanceId x;
}.

Class saga_update (f : SagaInstance → SagaInstance) : Prop := {
  gu_cluster : ∀ c x, f (set_si_ClusterId c x) = set_si_ClusterId c (f x);
  gu_id : ∀ x, si_InstanceId (f x) = si_InstanceId x;
  gu_parent : ∀ x, si_ParentSagaInstanceId (f x) = si_ParentSagaInstanceId x;
}.

Section updates.
Implicit Types (d : DB) (cid sid id : string).

Lemma saga_table_upd_step cid cid' id f d :
  saga_table cid (upd_step cid' id f d) = saga_table cid d.
Proof. done. Qed.

Lemma saga_rows_upd_step cid cid' id f d :
  saga_rows cid (upd_step cid' id f d) = saga_rows cid d.
Proof. done. Qed.

Lemma step_rows_upd_saga cid cid' id f d :
  step_rows cid (upd_saga cid' id f d) = step_rows cid d.
Proof. done. Qed.

Lemma step_rows_upd cid id f d :
  step_update f → step_rows cid (upd_step cid id f d) = alter f id (step_rows cid d).
Proof.
  intros Hf. unfold step_rows, step_table, upd_step. simpl. rewrite lookup_alter_eq.
  destruct (db_saga_step_instances d !! _) as [t|]; simpl.
  - apply map_eq. intros k. rewrite lookup_fmap, !lookup_alter, lookup_fmap.
    case_decide; [|by rewrite lookup_fmap].
    subst k. destruct (t !! id) as [x|]; csimpl; [|done]. by rewrite su_cluster.
  - rewrite fmap_empty. apply map_eq. intros k. by rewrite lookup_alter, lookup_empty; case_decide.
Qed.

Lemma step_rows_upd_ne cid cid' id f d :
  cid ≠ cid' → step_rows cid (upd_step cid' id f d) = step_rows cid d.
Proof.
  intros Hne. unfold step_rows, step_table, upd_step. simpl.
  rewrite lookup_alter_ne; [done|]. intros Heq. simplify_eq.
Qed.

Lemma saga_rows_upd cid id f d :
  saga_update f → saga_rows cid (upd_saga cid id f d) = alter f id (saga_rows cid d).
Proof.
  intros Hf. unfold saga_rows, saga_table, upd_saga. simpl. rewrite lookup_alter_eq.
  destruct (db_saga_instances d !! _) as [t|]; simpl.
  - apply map_eq. intros k. rewrite lookup_fmap, !lookup_alter, lookup_fmap.
    case_decide; [|by rewrite lookup_fmap].
    subst k. destruct (t !! id) as [x|]; csimpl; [|done]. by rewrite gu_cluster.
  - rewrite fmap_empty. apply map_eq. intros k. by rewrite lookup_alter, lookup_empty; case_decide.
Qed.

Lemma saga_rows_upd_ne cid cid' id f d :
  cid ≠ cid' → saga_rows cid (upd_saga cid' id f d) = saga_rows cid d.
Proof.
  intros Hne. unfold saga_rows, saga_table, upd_saga. simpl.
  rewrite lookup_alter_ne; [done|]. intros Heq. simplify_eq.
Qed.

Lemma step_table_upd cid cid' id f d :
  is_Some (step_table cid (upd_step cid' id f d)) ↔ is_Some (step_table cid d).
Proof.
  unfold step_table, upd_step. simpl. rewrite lookup_alter.
  case_decide as Heq; [|done]. rewrite fmap_is_Some. by rewrite Heq.
Qed.

Lemma saga_table_upd cid cid' id f d :
  is_Some (saga_table cid (upd_saga cid' id f d)) ↔ is_Some (saga_table cid d).
Proof.
  unfold saga_table, upd_saga. simpl. rewrite lookup_alter.
  case_decide as Heq; [|done]. rewrite fmap_is_Some. by rewrite Heq.
Qed.

Lemma steps_of_upd cid sid id f d :
  step_update f → steps_of cid sid (upd_step cid id f d) = alter f id (steps_of cid sid d).
Proof.
  intros Hf. unfold steps_of. rewrite step_rows_upd by done.
  apply map_eq. intros k. apply option_eq. intros x.
  rewrite map_lookup_filter_Some. simpl. rewrite !lookup_alter.
  case_decide as Hk; [subst k|symmetry; apply map_lookup_filter_Some].
  rewrite !fmap_Some. split.
  - intros [(y & Hy & ->) Hs]. exists y. rewrite su_saga in Hs by done.
    split; [|done]. by apply map_lookup_filter_Some.
  - intros (y & Hy & ->). apply map_lookup_filter_Some in Hy as [Hy Hs].
    split; [by exists y|]. by rewrite su_saga.
Qed.
End updates.

(** ** The properties *)

(** The strings of the [ORDER BY CASE] are not the values of the states, so
    every step has the lowest priority and the polling query orders by the
    time of creation alone. *)
Theorem poll_ignores_priority x y :
  poll_priority (ssi_State x) = 9 ∧
  (poll_before x y ↔ (ssi_CreatedAt x ≤ ssi_CreatedAt y)%Z).
Proof.
  assert (∀ st, poll_priority st = 9) as H9 by (by intros []).
  split; [done|]. unfold poll_before. rewrite !H9. split; [|by right].
  intros [?|[_ ?]]; [lia|done].
Qed.
