(* ===== verification/Focus.v ===== *)
(** * One saga inside the database

    [focus cid sid d g ss]: in the database [d], the saga [sid] of cluster
    [cid] reads as [g] and its steps are exactly the chain [ss].  [outside]
    relates two databases that agree on everything but that saga and its
    steps.  Every statement the coordinator issues is either an update of the
    focused saga, or an update of one step of the chain. *)

From S2P Require Import Prelude GoMonad Model Naming Sequence Database.

(** ** Definitions *)

Record focus (cid sid : string) (d : DB) (g : SagaInstance) (ss : list SagaStepInstance) : Prop := {
  focus_tables : has_tables cid d;
  focus_saga : saga_rows cid d !! sid = Some g;
  focus_id : si_InstanceId g = sid;
  focus_steps : steps_of cid sid d = steps_map ss;
  focus_chain : chain ss;
  focus_dots : Forall (λ x, no_dot (ssi_InstanceId x) = true) ss;
}.

Record outside (cid sid : string) (d d' : DB) : Prop := {
  out_clusters : db_clusters d' = db_clusters d;
  out_templates : db_saga_templates d' = db_saga_templates d;
  out_step_templates : db_saga_step_templates d' = db_saga_step_templates d;
  out_saga_tables : ∀ c, is_Some (saga_table c d') ↔ is_Some (saga_table c d);
  out_step_tables : ∀ c, is_Some (step_table c d') ↔ is_Some (step_table c d);
  out_saga : ∀ c i, (c, i) ≠ (cid, sid) → saga_rows c d' !! i = saga_rows c d !! i;
  out_steps : ∀ c i, (c, i) ≠ (cid, sid) → steps_of c i d' = steps_of c i d;
}.

#[export] Instance outside_refl cid sid : Reflexive (outside cid sid).
Proof. by split. Qed.

#[export] Instance outside_trans cid sid : Transitive (outside cid sid).
Proof.
  intros d1 d2 d3 [A1 A2 A3 A4 A5 A6 A7] [B1 B2 B3 B4 B5 B6 B7]. split.
  - congruence.
  - congruence.
  - congruence.
  - intros c. by rewrite B4, A4.
  - intros c. by rewrite B5, A5.
  - intros c i Hne. by rewrite B6, A6.
  - intros c i Hne. by rewrite B7, A7.
Qed.

Lemma out_tables cid sid d d' c : outside cid sid d d' → has_tables c d' ↔ has_tables c d.
Proof. intros Ho. unfold has_tables. by rewrite (out_saga_tables _ _ _ _ Ho), (out_step_tables _ _ _ _ Ho). Qed.

(** ** Facts *)

Section focus.
Context {cid sid : string}.
Implicit Types (d : DB) (g : SagaInstance) (ss pre post : list SagaStepInstance)
  (x : SagaStepInstance).

Lemma focus_step_row d g ss x :
  focus cid sid d g ss → x ∈ ss → step_rows cid d !! ssi_InstanceId x = Some x.
Proof.
  intros Hf Hx. assert (steps_of cid sid d !! ssi_InstanceId x = Some x) as Hl.
  { rewrite (focus_steps _ _ _ _ _ Hf). apply steps_map_lookup; [|done].
    apply (focus_chain _ _ _ _ _ Hf). }
  unfold steps_of in Hl. by apply map_lookup_filter_Some in Hl as [? _].
Qed.

Lemma focus_step_saga d g ss x :
  focus cid sid d g ss → x ∈ ss → ssi_SagaInstanceId x = sid.
Proof.
  intros Hf Hx. assert (steps_of cid sid d !! ssi_InstanceId x = Some x) as Hl.
  { rewrite (focus_steps _ _ _ _ _ Hf). apply steps_map_lookup; [|done].
    apply (focus_chain _ _ _ _ _ Hf). }
  unfold steps_of in Hl. by apply map_lookup_filter_Some in Hl as [_ ?].
Qed.

Lemma focus_step_in d g ss x :
  focus cid sid d g ss → step_rows cid d !! ssi_InstanceId x = Some x →
  ssi_SagaInstanceId x = sid → x ∈ ss.
Proof.
  intros Hf Hx Hs. assert (steps_of cid sid d !! ssi_InstanceId x = Some x) as Hl.
  { unfold steps_of. by apply map_lookup_filter_Some. }
  rewrite (focus_steps _ _ _ _ _ Hf) in Hl. apply steps_map_lookup in Hl as [? _]; [done|].
  apply (focus_chain _ _ _ _ _ Hf).
Qed.

Lemma step_rows_cluster d k x : step_rows cid d !! k = Some x → ssi_ClusterId x = cid.
Proof. unfold step_rows. rewrite lookup_fmap, fmap_Some. by intros (y & _ & ->). Qed.

Lemma saga_rows_cluster d k g : saga_rows cid d !! k = Some g → si_ClusterId g = cid.
Proof. unfold saga_rows. rewrite lookup_fmap, fmap_Some. by intros (y & _ & ->). Qed.

Lemma focus_step_cluster d g ss x :
  focus cid sid d g ss → x ∈ ss → ssi_ClusterId x = cid.
Proof. intros Hf Hx. by eapply step_rows_cluster, focus_step_row. Qed.

Lemma focus_saga_cluster d g ss : focus cid sid d g ss → si_ClusterId g = cid.
Proof. intros Hf. eapply saga_rows_cluster, Hf. Qed.

(** The chain is the saga's steps in the only possible order. *)
Lemma focus_order d g ss all :
  focus cid sid d g ss → all ≡ₚ (map_to_list (steps_of cid sid d)).*2 →
  OrderSagaStepsInSequence all = Some ss.
Proof.
  intros [_ _ _ Hs Hc _] Hp. apply order_chain; [done|]. rewrite Hp, Hs.
  apply steps_map_to_list, Hc.
Qed.

Lemma focus_det d g ss g' ss' :
  focus cid sid d g ss → focus cid sid d g' ss' → g' = g ∧ ss' = ss.
Proof.
  intros H1 H2. split.
  - destruct H1 as [_ H1 _ _ _ _], H2 as [_ H2 _ _ _ _]. congruence.
  - pose proof (focus_order d g ss _ H1 (reflexivity _)) as E1.
    pose proof (focus_order d g' ss' _ H2 (reflexivity _)) as E2. congruence.
Qed.
End focus.

(** ** Updates of a chain *)

Lemma fmap_ids_update f pre x post :
  step_update f →
  ssi_InstanceId <$> (pre ++ f x :: post) = ssi_InstanceId <$> (pre ++ x :: post).
Proof. intros Hf. rewrite !fmap_app. csimpl. by rewrite su_id. Qed.

Lemma linked_update f prev pre x post :
  step_update f → linked prev (pre ++ x :: post) → linked prev (pre ++ f x :: post).
Proof.
  intros Hf. revert prev. induction pre as [|y pre IH]; intros prev; simpl.
  - by rewrite su_prev, su_next, su_id.
  - intros (Hp & Hn & Hl). split; [done|]. split; [|by apply IH].
    rewrite Hn. destruct pre; simpl; [by rewrite su_id|done].
Qed.

Lemma chain_update f pre x post :
  step_update f → chain (pre ++ x :: post) → chain (pre ++ f x :: post).
Proof.
  intros Hf [Hl Hn He]. split.
  - by apply linked_update.
  - by rewrite fmap_ids_update.
  - apply Forall_app in He as [? He]. apply Forall_cons in He as [? ?].
    apply Forall_app. split; [done|]. constructor; [|done]. by rewrite su_id.
Qed.

Lemma steps_map_update f pre x post :
  step_update f → NoDup (ssi_InstanceId <$> pre ++ x :: post) →
  alter f (ssi_InstanceId x) (steps_map (pre ++ x :: post)) =
  steps_map (pre ++ f x :: post).
Proof.
  intros Hf Hnd. apply map_eq. intros k. apply option_eq. intros y.
  rewrite steps_map_lookup by by rewrite fmap_ids_update.
  rewrite lookup_alter.
  assert (steps_map (pre ++ x :: post) !! ssi_InstanceId x = Some x) as Hx.
  { apply steps_map_lookup; [done|]. split; [set_solver|done]. }
  assert (∀ z, z ∈ pre ++ post → ssi_InstanceId z ≠ ssi_InstanceId x) as Hne.
  { intros z Hz Heq. rewrite fmap_app in Hnd. csimpl in Hnd.
    apply NoDup_app in Hnd as (_ & Hd & Hp). apply NoDup_cons in Hp as [Hp _].
    apply elem_of_app in Hz as [Hz|Hz].
    - apply (Hd (ssi_InstanceId x)); [|by left]. rewrite <-Heq. set_solver.
    - apply Hp. rewrite <-Heq. set_solver. }
  case_decide as Hk.
  - subst k. rewrite Hx. simpl. split.
    + intros [= <-]. split; [set_solver|]. by apply su_id.
    + intros [Hy Hid]. f_equal. destruct (decide (y = f x)) as [->|Hyx]; [done|].
      exfalso. apply (Hne y); [|done]. set_solver.
  - rewrite steps_map_lookup by done. split; intros [Hy <-].
    + split; [|done]. destruct (decide (y = x)) as [->|]; [done|set_solver].
    + split; [|done]. destruct (decide (y = f x)) as [->|]; [|set_solver].
      destruct Hk. by rewrite su_id.
Qed.

(** ** The two updates *)

Lemma focus_upd_step cid sid d g pre x post f :
  focus cid sid d g (pre ++ x :: post) → step_update f →
  focus cid sid (upd_step cid (ssi_InstanceId x) f d) g (pre ++ f x :: post) ∧
  outside cid sid d (upd_step cid (ssi_InstanceId x) f d).
Proof.
  intros Hf Hu. assert (x ∈ pre ++ x :: post) as Hin by set_solver.
  pose proof (focus_step_row _ _ _ _ Hf Hin) as Hrow.
  pose proof (focus_step_saga _ _ _ _ Hf Hin) as Hsaga.
  destruct Hf as [[Ht1 Ht2] Hg Hid Hs Hc Hd]. split; split; try done.
  - split; [done|]. by apply step_table_upd.
  - rewrite steps_of_upd, Hs by done. apply steps_map_update; [done|]. apply Hc.
  - by apply chain_update.
  - apply Forall_app in Hd as [? [? ?]%Forall_cons]. apply Forall_app. split; [done|].
    constructor; [by rewrite su_id|done].
  - intros c. by rewrite step_table_upd.
  - intros c i Hne. destruct (decide (c = cid)) as [->|Hc'].
    + rewrite steps_of_upd by done. apply alter_absent.
      unfold steps_of. apply map_lookup_filter_None. right.
      intros y Hy Hys. simpl in Hys. simplify_eq. congruence.
    + unfold steps_of. by rewrite step_rows_upd_ne.
Qed.

Lemma focus_upd_saga cid sid d g ss f :
  focus cid sid d g ss → saga_update f →
  focus cid sid (upd_saga cid sid f d) (f g) ss ∧
  outside cid sid d (upd_saga cid sid f d).
Proof.
  intros [[Ht1 Ht2] Hg Hid Hs Hc Hd] Hu. split; split; try done.
  - split; [|done]. by apply saga_table_upd.
  - rewrite saga_rows_upd, lookup_alter_eq, Hg by done. done.
  - by rewrite gu_id.
  - intros c. by rewrite saga_table_upd.
  - intros c i Hne. destruct (decide (c = cid)) as [->|Hc'].
    + rewrite saga_rows_upd by done. apply lookup_alter_ne. congruence.
    + by rewrite saga_rows_upd_ne.
Qed.

(** An update of another saga is not seen. *)
Lemma focus_upd_saga_ne cid sid d g ss c i f :
  (c, i) ≠ (cid, sid) → saga_update f → focus cid sid d g ss →
  focus cid sid (upd_saga c i f d) g ss.
Proof.
  intros Hne Hu [[Ht1 Ht2] Hg Hid Hs Hc Hd]. split; try done.
  - split; [|done]. by apply saga_table_upd.
  - destruct (decide (cid = c)) as [->|Hcc].
    + rewrite saga_rows_upd by done. rewrite lookup_alter_ne; [done|congruence].
    + by rewrite saga_rows_upd_ne.
Qed.
