(* ===== verification/Store.v ===== *)
(** * What the coordinator asks of a store

    The part of the [Store] interface of [pkg/trax/store.go] that the
    coordinator uses, as a type class of operations, and the contract of a
    transactional store, as a second class: a store is seen as a committed
    database and the transaction, if any, that the calling goroutine has
    opened; each operation is one or more statements, each of which does what
    Database.v says it does or fails.  Any statement may fail: the law of a
    statement says what a failure leaves behind, and the client has to live
    with all of it. *)

From S2P Require Import Prelude GoMonad Model Naming GoStrings Sequence Database.

(** ** The operations *)

Class Store (St : Type) := {
  HealthCheck : M St (result unit);
  BeginTransaction : M St (result unit);
  CommitTransaction : M St (result unit);
  RollbackTransaction : M St (result unit);
  GetSagaTemplate (id : string) : M St (result SagaTemplate);
  GetSagaStepTemplate (id : string) : M St (result SagaStepTemplate);
  ListSagaTemplates : M St (result (list SagaTemplate));
  ListClusterIds : M St (result (list string));
  SaveSagaInstanceIdempotently (sagaInstance : SagaInstance) : M St (result bool);
  (** The update methods change the object they are given too: they return
      the object as the caller sees it after a call that succeeded. *)
  UpdateSagaState (sagaInstance : SagaInstance) (state : SagaStateEnum) :
    M St (result SagaInstance);
  GetSagaInstance (clusterId id : string) : M St (result SagaInstance);
  SaveSagaStepInstanceIdempotently (sagaStepInstance : SagaStepInstance) : M St (result bool);
  UpdateSagaStepState (sagaStepInstance : SagaStepInstance) (state : SagaStepStateEnum) :
    M St (result SagaStepInstance);
  UpdateSagaStepResult (sagaStepInstance : SagaStepInstance) : M St (result unit);
  UpdateSagaStepCompensationResult (sagaStepInstance : SagaStepInstance) : M St (result unit);
  UpdateSagaStepInstanceExecutionHistory (sagaStepInstance : SagaStepInstance) :
    M St (result unit);
  GetSagaStepInstance (clusterId id : string) : M St (result SagaStepInstance);
  GetSagaStepInstancesByAffinityAndOneOfSagaStatesAndOneOfSagaStepStates
    (clusterId affinity : string) (sagaStates : list SagaStateEnum)
    (sagaStepStates : list SagaStepStateEnum) : M St (result (list SagaStepInstance));
  ListSagaStepInstancesBySagaInstanceId (clusterId sagaInstanceId : string) :
    M St (result (list SagaStepInstance));
  GetChildSagaInstances (clusterId parentSagaInstanceId : string) :
    M St (result (list SagaInstance));
  TriggerSagaCompensation (clusterId sagaInstanceId : string) : M St (result unit);
  ForceMarkSagaCompensated (clusterId sagaInstanceId reason : string) : M St (result unit);
}.

(** ** The rows the updates write *)

Definition row_saga_state (state : SagaStateEnum) (reason : string) (ts : Z)
    (g : SagaInstance) : SagaInstance :=
  set_si_UpdatedAt ts (set_si_CompensationReason reason (set_si_State state g)).

Definition row_saga_state_only (state : SagaStateEnum) (ts : Z) (g : SagaInstance) :
    SagaInstance :=
  set_si_UpdatedAt ts (set_si_State state g).

Definition row_step_state (state : SagaStepStateEnum) (ts : Z) (x : SagaStepInstance) :
    SagaStepInstance :=
  set_ssi_UpdatedAt ts (set_ssi_State state x).

Definition row_step_result (v : gmap string string) (ts : Z) (x : SagaStepInstance) :
    SagaStepInstance :=
  set_ssi_UpdatedAt ts (set_ssi_Result v x).

Definition row_step_compensation_result (v : gmap string string) (ts : Z)
    (x : SagaStepInstance) : SagaStepInstance :=
  set_ssi_UpdatedAt ts (set_ssi_CompensationResult v x).

Definition row_step_history (eid : string) (h : list SagaStepExecutionLog) (ts : Z)
    (x : SagaStepInstance) : SagaStepInstance :=
  set_ssi_UpdatedAt ts (set_ssi_ExecutionHistory h (set_ssi_ExecutionId eid x)).

Section row_updates.
#[local] Ltac row := split; intros; reflexivity.

#[export] Instance row_saga_state_update s r ts : saga_update (row_saga_state s r ts).
Proof. row. Qed.
#[export] Instance row_saga_state_only_update s ts : saga_update (row_saga_state_only s ts).
Proof. row. Qed.
#[export] Instance row_step_state_update s ts : step_update (row_step_state s ts).
Proof. row. Qed.
#[export] Instance row_step_result_update v ts : step_update (row_step_result v ts).
Proof. row. Qed.
#[export] Instance row_step_compensation_result_update v ts :
  step_update (row_step_compensation_result v ts).
Proof. row. Qed.
#[export] Instance row_step_history_update e h ts : step_update (row_step_history e h ts).
Proof. row. Qed.
End row_updates.

(** ** The view of a store *)

(** The committed database, and the working copy of the open transaction
    with the flag that says that a statement of it has failed. *)
Record view := View {
  v_com : DB;
  v_tx : option (DB * bool);
}.

(** The database the next statement runs on, and whether it can run. *)
Definition v_cur (v : view) : DB :=
  match v_tx v with Some (w, _) => w | None => v_com v end.
Definition v_alive (v : view) : Prop :=
  match v_tx v with Some (_, failed) => failed = false | None => True end.
Definition v_put (d : DB) (v : view) : view :=
  match v_tx v with
  | Some (_, failed) => View (v_com v) (Some (d, failed))
  | None => View d None
  end.

(** The contract of an operation: which results and which views it may
    end in. *)
Definition spec (A : Type) : Type := view → result A → view → Prop.

Section specs.

(** Whether statements may fail for reasons of their own: the network, the
    server. *)
Context (faulty : Prop).

(** A statement: [R d a d'] says that it may turn [d] into [d'] and answer
    [a]; [E d e] that it finds nothing and answers with the error [e], which
    harms nothing; [bad d] that it makes no sense on [d], a table being
    missing.  A statement that is refused, or whose answer is lost, leaves a
    transaction dead or alive; outside a transaction it may have taken effect
    before its answer was lost. *)
Definition stmt {A} (R : DB → A → DB → Prop) (E : DB → goerror → Prop)
    (bad : DB → Prop) : spec A :=
  λ v r v',
    match r with
    | Ok a => v_alive v ∧ ∃ d, R (v_cur v) a d ∧ v' = v_put d v
    | Err e =>
        v_alive v ∧ E (v_cur v) e ∧ v' = v ∨
        (∃ msg, e = Errorf msg) ∧ (faulty ∨ ¬ v_alive v ∨ bad (v_cur v)) ∧
        match v_tx v with
        | None => v' = v ∨ ∃ a d, R (v_com v) a d ∧ v' = View d None
        | Some (w, failed) => ∃ failed', (failed = true → failed' = true) ∧
            v' = View (v_com v) (Some (w, failed'))
        end
    end.

Definition no_error : DB → goerror → Prop := λ _ _, False.
Definition never : DB → Prop := λ _, False.

(** A query whose answers are the [a] with [R d a]. *)
Definition query {A} (R : DB → A → Prop) (E : DB → goerror → Prop) (bad : DB → Prop) : spec A :=
  stmt (λ d a d', R d a ∧ d' = d) E bad.

Definition spec_ret {A} (a : A) : spec A := λ v r v', r = Ok a ∧ v' = v.
Definition spec_err {A} (e : goerror) : spec A := λ v r v', r = Err e ∧ v' = v.

(** A call that does not go through the transaction. *)
Definition spec_elsewhere : spec unit :=
  λ v r v', v' = v ∧ match r with Ok _ => True | Err e => faulty ∧ ∃ msg, e = Errorf msg end.

(** One statement after another, stopping at an error... *)
Definition spec_bind {A B} (p : spec A) (k : A → spec B) : spec B :=
  λ v r v', ∃ r1 v1, p v r1 v1 ∧
    match r1 with Ok a => k a v1 r v' | Err e => r = Err e ∧ v' = v1 end.

(** ... and one whose error is only logged. *)
Definition spec_ignore {A B} (p : spec A) (k : spec B) : spec B :=
  λ v r v', ∃ r1 v1, p v r1 v1 ∧ k v1 r v'.

(** ** The statements *)

(** An [UPDATE] or [INSERT] answers nothing the callers look at. *)
Definition update_of (f : Z → DB → result DB) : spec unit :=
  stmt (λ d _ d', ∃ ts, f ts d = Ok d') no_error (λ d, ∃ ts e, f ts d = Err e).

Definition notify_step (x : SagaStepInstance) (state : SagaStepStateEnum) : StoreNotification :=
  mkStoreNotification "trax_saga_events"
    (json_text [("cluster_id", ssi_ClusterId x); ("saga_instance_id", ssi_SagaInstanceId x);
                ("step_instance_id", ssi_InstanceId x); ("state", SagaStepStateEnum_string state)]).

(** The statements after an insert or an update of a step: a notification
    for the candidate states. *)
Definition spec_notify {A} (x : SagaStepInstance) (state : SagaStepStateEnum) (a : A) : spec A :=
  match state with
  | SagaStepStateEnum_ExecutionCandidate | SagaStepStateEnum_CompensationCandidate =>
      spec_ignore (update_of (λ _, sql_notify (notify_step x state))) (spec_ret a)
  | _ => spec_ret a
  end.

Definition spec_UpdateSagaState (g : SagaInstance) (state : SagaStateEnum) : spec SagaInstance :=
  spec_bind
    (update_of (λ ts, sql_update_saga (si_ClusterId g) (si_InstanceId g)
                        (row_saga_state state (si_CompensationReason g) ts)))
    (λ _, spec_ret (set_si_State state g)).

Definition spec_UpdateSagaStepState (x : SagaStepInstance) (state : SagaStepStateEnum) :
    spec SagaStepInstance :=
  spec_bind
    (update_of (λ ts, sql_update_step (ssi_ClusterId x) (ssi_InstanceId x)
                        (row_step_state state ts)))
    (λ _, spec_notify x state (set_ssi_State state x)).

Definition spec_update_step (x : SagaStepInstance)
    (f : Z → SagaStepInstance → SagaStepInstance) : spec unit :=
  update_of (λ ts, sql_update_step (ssi_ClusterId x) (ssi_InstanceId x) (f ts)).

(** An update guarded by the state of the row; no row is an error. *)
Definition spec_update_if (cid id : string) (from : SagaStateEnum)
    (f : Z → SagaInstance → SagaInstance) : spec unit :=
  spec_bind (stmt (λ d n d', ∃ ts, sql_update_saga_if cid id from (f ts) d = Ok (d', n)) no_error
               (λ d, saga_table cid d = None))
    (λ n v r v', if decide (n = 0) then ∃ msg, spec_err (Errorf msg) v r v'
                 else spec_ret tt v r v').

Definition spec_SaveSagaInstanceIdempotently (g : SagaInstance) : spec bool :=
  spec_bind
    (query (λ d b, sql_saga_key_exists (si_ClusterId g) (saga_SagaIdempotencyKey g) d = Ok b)
       no_error (λ d, saga_table (si_ClusterId g) d = None))
    (λ b, if b then spec_ret false
          else spec_bind (update_of (λ ts, sql_insert_saga ts g)) (λ _, spec_ret true)).

Definition spec_SaveSagaStepInstanceIdempotently (x : SagaStepInstance) : spec bool :=
  spec_bind
    (query (λ d b, sql_step_key_exists (ssi_ClusterId x) (step_SagaIdempotencyKey x) d = Ok b)
       no_error (λ d, step_table (ssi_ClusterId x) d = None))
    (λ b, if b then spec_ret false
          else spec_bind (update_of (λ ts, sql_insert_step ts x))
                 (λ _, spec_notify x (ssi_State x) true)).

Definition spec_begin : spec unit := λ v r v',
  match r with
  | Ok _ => v_tx v = None ∧ v' = View (v_com v) (Some (v_com v, false))
  | Err e => (∃ msg, e = Errorf msg) ∧ v' = v ∧ (faulty ∨ is_Some (v_tx v))
  end.

(** Whatever a commit or a rollback answers, the transaction is over; a
    commit whose answer was lost may have happened. *)
Definition spec_commit : spec unit := λ v r v',
  match r with
  | Ok _ => ∃ w, v_tx v = Some (w, false) ∧ v' = View w None
  | Err e => (∃ msg, e = Errorf msg) ∧ v_tx v' = None ∧
      (faulty ∨ v_tx v = None ∨ ∃ w, v_tx v = Some (w, true)) ∧
      (v_com v' = v_com v ∨ v_tx v = Some (v_com v', false))
  end.

Definition spec_rollback : spec unit := λ v r v',
  v' = View (v_com v) None ∧ (is_ok r = true → is_Some (v_tx v)) ∧
  match r with Ok _ => True | Err e => ∃ msg, e = Errorf msg end.
End specs.

(** ** The contract *)

Definition implements {St A} (vw : St → view) (m : M St (result A)) (p : spec A) : Prop :=
  ∀ s, wp m (returns (λ r s', p (vw s) r (vw s'))) s.

Class StoreLaws (St : Type) `{Store St} := {
  vw : St → view;
  faulty : Prop;
  law_HealthCheck : implements vw HealthCheck (spec_elsewhere faulty);
  law_BeginTransaction : implements vw BeginTransaction (spec_begin faulty);
  law_CommitTransaction : implements vw CommitTransaction (spec_commit faulty);
  law_RollbackTransaction : implements vw RollbackTransaction spec_rollback;
  law_GetSagaTemplate id : implements vw (GetSagaTemplate id)
    (query faulty (λ d t, db_saga_templates d !! id = Some t)
       (λ d e, db_saga_templates d !! id = None ∧ ∃ msg, e = Errorf msg) never);
  law_GetSagaStepTemplate id : implements vw (GetSagaStepTemplate id)
    (query faulty (λ d t, db_saga_step_templates d !! id = Some t)
       (λ d e, db_saga_step_templates d !! id = None ∧ ∃ msg, e = Errorf msg) never);
  law_ListSagaTemplates : implements vw ListSagaTemplates
    (query faulty (λ d ts, ts ≡ₚ (map_to_list (db_saga_templates d)).*2) no_error never);
  law_ListClusterIds : implements vw ListClusterIds
    (query faulty (λ d ids, ids ≡ₚ (map_to_list (db_clusters d)).*1) no_error never);
  law_SaveSagaInstanceIdempotently g : implements vw (SaveSagaInstanceIdempotently g)
    (spec_SaveSagaInstanceIdempotently faulty g);
  law_UpdateSagaState g state : implements vw (UpdateSagaState g state)
    (spec_UpdateSagaState faulty g state);
  law_GetSagaInstance cid id : implements vw (GetSagaInstance cid id)
    (query faulty (λ d g, sql_select_saga cid id d = Ok g)
       (λ d e, is_Some (saga_table cid d) ∧ sql_select_saga cid id d = Err e)
       (λ d, saga_table cid d = None));
  law_SaveSagaStepInstanceIdempotently x : implements vw (SaveSagaStepInstanceIdempotently x)
    (spec_SaveSagaStepInstanceIdempotently faulty x);
  law_UpdateSagaStepState x state : implements vw (UpdateSagaStepState x state)
    (spec_UpdateSagaStepState faulty x state);
  law_UpdateSagaStepResult x : implements vw (UpdateSagaStepResult x)
    (spec_update_step faulty x (row_step_result (ssi_Result x)));
  law_UpdateSagaStepCompensationResult x : implements vw (UpdateSagaStepCompensationResult x)
    (spec_update_step faulty x (row_step_compensation_result (ssi_CompensationResult x)));
  law_UpdateSagaStepInstanceExecutionHistory x :
    implements vw (UpdateSagaStepInstanceExecutionHistory x)
      (spec_update_step faulty x (row_step_history (ssi_ExecutionId x) (ssi_ExecutionHistory x)));
  law_GetSagaStepInstance cid id : implements vw (GetSagaStepInstance cid id)
    (query faulty (λ d x, sql_select_step cid id d = Ok x)
       (λ d e, is_Some (step_table cid d) ∧ sql_select_step cid id d = Err e)
       (λ d, step_table cid d = None));
  law_GetSagaStepInstances cid affinity sagaStates stepStates :
    implements vw
      (GetSagaStepInstancesByAffinityAndOneOfSagaStatesAndOneOfSagaStepStates
         cid affinity sagaStates stepStates)
      (query faulty (λ d xs, ∀ x, x ∈ xs ↔
          ∃ k, step_rows cid d !! k = Some x ∧
            poll_selects cid affinity sagaStates stepStates d x = true) no_error
         (λ d, ¬ has_tables cid d));
  law_ListSagaStepInstancesBySagaInstanceId cid sid :
    implements vw (ListSagaStepInstancesBySagaInstanceId cid sid)
      (query faulty (λ d xs, is_Some (step_table cid d) ∧
                      xs ≡ₚ (map_to_list (steps_of cid sid d)).*2) no_error
         (λ d, step_table cid d = None));
  law_GetChildSagaInstances cid sid : implements vw (GetChildSagaInstances cid sid)
    (query faulty (λ d gs, gs ≡ₚ (map_to_list (children_of cid sid d)).*2) no_error
       (λ d, saga_table cid d = None));
  law_TriggerSagaCompensation cid id : implements vw (TriggerSagaCompensation cid id)
    (spec_update_if faulty cid id SagaStateEnum_Committed
       (row_saga_state_only SagaStateEnum_CompensationRequested));
  law_ForceMarkSagaCompensated cid id reason :
    implements vw (ForceMarkSagaCompensated cid id reason)
      (λ v r v', if decide (reason = "") then ∃ msg, spec_err (Errorf msg) v r v'
                 else spec_update_if faulty cid id SagaStateEnum_Blocked
                        (row_saga_state SagaStateEnum_Compensated
                           ("[FORCE-MARKED] " +:+ reason)) v r v');
}.
