(* ===== verification/PsqlStore.v ===== *)
(** * The PostgreSQL store

    [psqlStore] of [pkg/trax/store_psql.go]: the statements of Database.v, run
    on a server by the goroutine that calls.  The store keeps the transaction
    of each goroutine in a map ([txMap]); a statement of a goroutine that has
    one goes to the transaction, any other to the database.

    The server is a parameter: which statements fail and how, what its clock
    says, in which order it returns rows.  A transaction is the list of the
    statements it has carried out, which its goroutine sees on top of what is
    committed (the isolation level is the default, READ COMMITTED) and which
    take effect when it commits.  On the server the locks that a statement
    takes keep off whoever would make it come out otherwise until the
    transaction is over.  Here such a one is let through and the transaction is
    aborted, as the server does with the victim of a deadlock: a transaction
    goes on, and commits, only while each of its statements would still do
    what it did and give the answer it gave. *)

From S2P Require Import Prelude GoMonad Model Naming Sequence Database Store.

Local Open Scope go_scope.

(** ** The server *)

(** What happens to a statement: it is carried out; the server refuses it;
    the connection is lost when it has been carried out; its answer cannot be
    converted; the connection is lost after some rows of its answer. *)
Inductive Fault :=
  | NoFault
  | Refused
  | Lost
  | Unreadable
  | Cut (rows : nat).

Record Server := mkServer {
  srv_fault : nat → Fault;
  srv_now : nat → Z;
  srv_order : nat → ∀ A, list A → list A;
}.

(** The rows of an answer are the rows of the query, and an answer is never
    cut short: [ListSagaStepInstancesBySagaInstanceId] and
    [GetChildSagaInstances] do not look at [rows.Err()], so they take a cut
    answer for a complete one. *)
Class Delivers (srv : Server) : Prop := {
  delivers_order : ∀ n A (l : list A), srv_order srv n A l ≡ₚ l;
  delivers_all : ∀ n k, srv_fault srv n ≠ Cut k;
}.

(** A statement that has been carried out and answered, if it would give the
    same answer again. *)
Definition again {A} `{EqDecision A} (f : DB → result (DB * A)) (a : A) (d : DB) : option DB :=
  match f d with
  | Ok (d', a') => if decide (a' = a) then Some d' else None
  | Err _ => None
  end.

Record Tx := mkTx {
  tx_writes : list (DB → option DB);
  tx_failed : bool;
}.

(** The store as the goroutine [ps_gid] sees it; [ps_n] counts the
    statements. *)
Record psqlStore (srv : Server) := mkPsqlStore {
  ps_db : DB;
  ps_txMap : gmap nat Tx;
  ps_gid : nat;
  ps_n : nat;
}.
Arguments mkPsqlStore {srv}.
Arguments ps_db {srv}.
Arguments ps_txMap {srv}.
Arguments ps_gid {srv}.
Arguments ps_n {srv}.

(** The statements of a transaction on top of a database. *)
Definition replay (writes : list (DB → option DB)) (d : DB) : option DB :=
  foldl (λ o f, o ≫= f) (Some d) writes.

Section psql.
Context {srv : Server}.
Implicit Types (s : psqlStore srv).

Definition ps_tx s : option Tx := ps_txMap s !! ps_gid s.

Definition set_db (d : DB) : M (psqlStore srv) unit :=
  modify (λ s, mkPsqlStore d (ps_txMap s) (ps_gid s) (ps_n s)).
Definition set_tx (t : Tx) : M (psqlStore srv) unit :=
  modify (λ s, mkPsqlStore (ps_db s) (<[ps_gid s := t]> (ps_txMap s)) (ps_gid s) (ps_n s)).
Definition delete_tx : M (psqlStore srv) unit :=
  modify (λ s, mkPsqlStore (ps_db s) (delete (ps_gid s) (ps_txMap s)) (ps_gid s) (ps_n s)).
Definition ask : M (psqlStore srv) nat := λ s,
  (Ret (ps_n s), mkPsqlStore (ps_db s) (ps_txMap s) (ps_gid s) (S (ps_n s))).

Definition error {A} (msg : string) : M (psqlStore srv) (result A) := ret (Err (Errorf msg)).

(** *** Transactions *)

(** A round trip to the server that concerns no data. *)
Definition ping : M (psqlStore srv) (result unit) :=
  n <- ask ;;
  match srv_fault srv n with NoFault => ret (Ok tt) | _ => error "database ping failed" end.

Definition psql_BeginTransaction : M (psqlStore srv) (result unit) :=
  s <- get_state ;;
  match ps_tx s with
  | Some _ => error "goroutine already has an active transaction"
  | None =>
      _ <-? ping else e => ret (Err e) ;;
      _ <-? ping else e => ret (Err e) ;;
      set_tx (mkTx [] false) ;;; ret (Ok tt)
  end.

(** A commit that is refused, or that the server answers by rolling back
    because a statement has failed or the transaction was aborted, changes
    nothing; one whose answer is lost has happened. *)
Definition psql_CommitTransaction : M (psqlStore srv) (result unit) :=
  s <- get_state ;;
  match ps_tx s with
  | None => error "no active transaction for goroutine"
  | Some t =>
      n <- ask ;;
      delete_tx ;;;
      if tx_failed t then error "failed to commit transaction"
      else
        match srv_fault srv n, replay (tx_writes t) (ps_db s) with
        | Refused, _ | _, None => error "failed to commit transaction"
        | Lost, Some d => set_db d ;;; error "failed to commit transaction"
        | _, Some d => set_db d ;;; ret (Ok tt)
        end
  end.

Definition psql_RollbackTransaction : M (psqlStore srv) (result unit) :=
  s <- get_state ;;
  match ps_tx s with
  | None => error "no active transaction for goroutine"
  | Some t =>
      r <- ping ;;
      delete_tx ;;;
      match r with Ok _ => ret (Ok tt) | Err _ => error "failed to rollback transaction" end
  end.

(** *** Statements *)

(** [executor.ExecContext]: a statement that changes the database. *)
Definition exec {A} `{EqDecision A} (f : Z → DB → result (DB * A)) :
    M (psqlStore srv) (result A) :=
  s <- get_state ;;
  n <- ask ;;
  let ts := srv_now srv n in
  match ps_tx s with
  | None =>
      match srv_fault srv n, f ts (ps_db s) with
      | Refused, _ | _, Err _ => error "failed to execute"
      | Lost, Ok (d, _) => set_db d ;;; error "failed to execute"
      | _, Ok (d, a) => set_db d ;;; ret (Ok a)
      end
  | Some (mkTx ws failed) =>
      if failed : bool then error "current transaction is aborted"
      else
        match replay ws (ps_db s) with
        | None => set_tx (mkTx ws true) ;;; error "deadlock detected"
        | Some d =>
            match srv_fault srv n, f ts d with
            | Refused, _ | Lost, _ | _, Err _ =>
                set_tx (mkTx ws true) ;;; error "failed to execute"
            | _, Ok (_, a) => set_tx (mkTx (ws ++ [again (f ts) a]) false) ;;; ret (Ok a)
            end
        end
  end.

(** [executor.QueryContext] and [executor.QueryRowContext]: [cut] is what
    the method makes of an answer of which only some rows have arrived. *)
Definition query_with {A} (cut : A → nat → option A) (q : nat → DB → result A) :
    M (psqlStore srv) (result A) :=
  s <- get_state ;;
  n <- ask ;;
  match ps_tx s with
  | None =>
      match srv_fault srv n, q n (ps_db s) with
      | NoFault, Ok a => ret (Ok a)
      | Cut k, Ok a =>
          match cut a k with Some a' => ret (Ok a') | None => error "failed to query" end
      | _, _ => error "failed to query"
      end
  | Some (mkTx ws failed) =>
      if failed : bool then error "current transaction is aborted"
      else
        match replay ws (ps_db s) with
        | None => set_tx (mkTx ws true) ;;; error "deadlock detected"
        | Some d =>
            match srv_fault srv n, q n d with
            | NoFault, Ok a => ret (Ok a)
            | Unreadable, Ok _ => error "failed to scan"
            | Cut k, Ok a =>
                set_tx (mkTx ws true) ;;;
                match cut a k with Some a' => ret (Ok a') | None => error "failed to query" end
            | _, _ => set_tx (mkTx ws true) ;;; error "failed to query"
            end
        end
  end.

Definition query_all {A} (q : nat → DB → result A) : M (psqlStore srv) (result A) :=
  query_with (λ _ _, None) q.

(** A query of one row; there being none is not an error of the server. *)
Definition query_row {A} (norows : goerror) (q : DB → result (option A)) :
    M (psqlStore srv) (result A) :=
  o <-? query_all (λ _, q) else e => ret (Err e) ;;
  ret (match o with Some a => Ok a | None => Err norows end).

(** [UPDATE] of whatever rows there are. *)
Definition exec_update (f : Z → DB → result DB) : M (psqlStore srv) (result unit) :=
  exec (λ ts d, result_map (λ d', (d', tt)) (f ts d)).
End psql.

(** ** The operations *)

Section operations.
Context {srv : Server}.
#[local] Notation Sql := (M (psqlStore srv)).

(** [s.db] and not the transaction. *)
Definition psql_HealthCheck : Sql (result unit) :=
  _ <-? ping else _ => error "database ping failed" ;;
  _ <-? ping else _ => error "database query failed" ;;
  ret (Ok tt).

Definition psql_GetSagaTemplate (id : string) : Sql (result SagaTemplate) :=
  query_row (Errorf "saga template not found") (λ d, Ok (db_saga_templates d !! id)).

Definition psql_GetSagaStepTemplate (id : string) : Sql (result SagaStepTemplate) :=
  query_row (Errorf "saga step template not found") (λ d, Ok (db_saga_step_templates d !! id)).

(** [ORDER BY template_id], in the server's collation. *)
Definition psql_ListSagaTemplates : Sql (result (list SagaTemplate)) :=
  query_all (λ n d, Ok (srv_order srv n _ (map_to_list (db_saga_templates d)).*2)).

Definition psql_ListClusterIds : Sql (result (list string)) :=
  query_all (λ n d, Ok (srv_order srv n _ (map_to_list (db_clusters d)).*1)).

Definition psql_SaveSagaInstanceIdempotently (sagaInstance : SagaInstance) : Sql (result bool) :=
  exists_ <-? query_all (λ _, sql_saga_key_exists (si_ClusterId sagaInstance)
                                (saga_SagaIdempotencyKey sagaInstance))
  else e => ret (Err e) ;;
  if exists_ : bool then ret (Ok false)
  else
    _ <-? exec_update (λ ts, sql_insert_saga ts sagaInstance) else e => ret (Err e) ;;
    ret (Ok true).

Definition psql_UpdateSagaState (sagaInstance : SagaInstance) (state : SagaStateEnum) :
    Sql (result SagaInstance) :=
  _ <-? exec_update (λ ts, sql_update_saga (si_ClusterId sagaInstance)
          (si_InstanceId sagaInstance)
          (row_saga_state state (si_CompensationReason sagaInstance) ts))
  else e => ret (Err e) ;;
  ret (Ok (set_si_State state sagaInstance)).

Definition psql_GetSagaInstance (clusterId id : string) : Sql (result SagaInstance) :=
  query_row ErrSagaInstanceNotFound (λ d,
    match saga_table clusterId d with
    | None => undefined_table
    | Some _ => Ok (saga_rows clusterId d !! id)
    end).

(** The notification for the candidate states; its failure is logged. *)
Definition notifyCandidate (sagaStepInstance : SagaStepInstance) (state : SagaStepStateEnum) :
    Sql unit :=
  match state with
  | SagaStepStateEnum_ExecutionCandidate | SagaStepStateEnum_CompensationCandidate =>
      exec_update (λ _, sql_notify (notify_step sagaStepInstance state)) ;;; ret tt
  | _ => ret tt
  end.

Definition psql_SaveSagaStepInstanceIdempotently (sagaStepInstance : SagaStepInstance) :
    Sql (result bool) :=
  exists_ <-? query_all (λ _, sql_step_key_exists (ssi_ClusterId sagaStepInstance)
                                (step_SagaIdempotencyKey sagaStepInstance))
  else e => ret (Err e) ;;
  if exists_ : bool then ret (Ok false)
  else
    _ <-? exec_update (λ ts, sql_insert_step ts sagaStepInstance) else e => ret (Err e) ;;
    notifyCandidate sagaStepInstance (ssi_State sagaStepInstance) ;;;
    ret (Ok true).

Definition psql_UpdateSagaStepState (sagaStepInstance : SagaStepInstance)
    (state : SagaStepStateEnum) : Sql (result SagaStepInstance) :=
  _ <-? exec_update (λ ts, sql_update_step (ssi_ClusterId sagaStepInstance)
          (ssi_InstanceId sagaStepInstance) (row_step_state state ts))
  else e => ret (Err e) ;;
  notifyCandidate sagaStepInstance state ;;;
  ret (Ok (set_ssi_State state sagaStepInstance)).

Definition update_step_row (sagaStepInstance : SagaStepInstance)
    (f : Z → SagaStepInstance → SagaStepInstance) : Sql (result unit) :=
  exec_update (λ ts, sql_update_step (ssi_ClusterId sagaStepInstance)
                       (ssi_InstanceId sagaStepInstance) (f ts)).

Definition psql_UpdateSagaStepResult (sagaStepInstance : SagaStepInstance) : Sql (result unit) :=
  update_step_row sagaStepInstance (row_step_result (ssi_Result sagaStepInstance)).

Definition psql_UpdateSagaStepCompensationResult (sagaStepInstance : SagaStepInstance) :
    Sql (result unit) :=
  update_step_row sagaStepInstance
    (row_step_compensation_result (ssi_CompensationResult sagaStepInstance)).

Definition psql_UpdateSagaStepInstanceExecutionHistory (sagaStepInstance : SagaStepInstance) :
    Sql (result unit) :=
  update_step_row sagaStepInstance
    (row_step_history (ssi_ExecutionId sagaStepInstance)
       (ssi_ExecutionHistory sagaStepInstance)).

Definition psql_GetSagaStepInstance (clusterId instanceId : string) :
    Sql (result SagaStepInstance) :=
  query_row ErrSagaStepInstanceNotFound (λ d,
    match step_table clusterId d with
    | None => undefined_table
    | Some _ => Ok (step_rows clusterId d !! instanceId)
    end).

(** [rows.Err()] is checked. *)
Definition psql_GetSagaStepInstances (clusterId affinity : string)
    (sagaStates : list SagaStateEnum) (sagaStepStates : list SagaStepStateEnum) :
    Sql (result (list SagaStepInstance)) :=
  query_all (λ n, sql_poll (srv_order srv n) clusterId affinity sagaStates sagaStepStates).

(** [rows.Err()] is not checked. *)
Definition psql_ListSagaStepInstancesBySagaInstanceId (clusterId sagaInstanceId : string) :
    Sql (result (list SagaStepInstance)) :=
  query_with (λ rows k, Some (take k rows))
    (λ n, sql_select_steps_of (srv_order srv n) clusterId sagaInstanceId).

Definition psql_GetChildSagaInstances (clusterId parentSagaInstanceId : string) :
    Sql (result (list SagaInstance)) :=
  query_with (λ rows k, Some (take k rows))
    (λ n, sql_select_children (srv_order srv n) clusterId parentSagaInstanceId).

(** An update guarded by a state; no row is an error of the method. *)
Definition update_saga_if (clusterId sagaInstanceId : string) (from : SagaStateEnum)
    (msg : string) (f : Z → SagaInstance → SagaInstance) : Sql (result unit) :=
  rowsAffected <-? exec (λ ts, sql_update_saga_if clusterId sagaInstanceId from (f ts))
  else e => ret (Err e) ;;
  if decide (rowsAffected = 0) then error ("saga instance " +:+ sagaInstanceId +:+ msg)
  else ret (Ok tt).

Definition psql_TriggerSagaCompensation (clusterId sagaInstanceId : string) :
    Sql (result unit) :=
  update_saga_if clusterId sagaInstanceId SagaStateEnum_Committed
    " is not in COMMITTED state, cannot trigger compensation"
    (row_saga_state_only SagaStateEnum_CompensationRequested).

Definition psql_ForceMarkSagaCompensated (clusterId sagaInstanceId reason : string) :
    Sql (result unit) :=
  if decide (reason = "") then error "reason is required for force-mark compensated"
  else
    update_saga_if clusterId sagaInstanceId SagaStateEnum_Blocked
      " is not in BLOCKED state, cannot force-mark compensated"
      (row_saga_state SagaStateEnum_Compensated ("[FORCE-MARKED] " +:+ reason)).

#[export] Instance psqlStore_Store : Store (psqlStore srv) := {
  HealthCheck := psql_HealthCheck;
  BeginTransaction := psql_BeginTransaction;
  CommitTransaction := psql_CommitTransaction;
  RollbackTransaction := psql_RollbackTransaction;
  GetSagaTemplate := psql_GetSagaTemplate;
  GetSagaStepTemplate := psql_GetSagaStepTemplate;
  ListSagaTemplates := psql_ListSagaTemplates;
  ListClusterIds := psql_ListClusterIds;
  SaveSagaInstanceIdempotently := psql_SaveSagaInstanceIdempotently;
  UpdateSagaState := psql_UpdateSagaState;
  GetSagaInstance := psql_GetSagaInstance;
  SaveSagaStepInstanceIdempotently := psql_SaveSagaStepInstanceIdempotently;
  UpdateSagaStepState := psql_UpdateSagaStepState;
  UpdateSagaStepResult := psql_UpdateSagaStepResult;
  UpdateSagaStepCompensationResult := psql_UpdateSagaStepCompensationResult;
  UpdateSagaStepInstanceExecutionHistory := psql_UpdateSagaStepInstanceExecutionHistory;
  GetSagaStepInstance := psql_GetSagaStepInstance;
  GetSagaStepInstancesByAffinityAndOneOfSagaStatesAndOneOfSagaStepStates :=
    psql_GetSagaStepInstances;
  ListSagaStepInstancesBySagaInstanceId := psql_ListSagaStepInstancesBySagaInstanceId;
  GetChildSagaInstances := psql_GetChildSagaInstances;
  TriggerSagaCompensation := psql_TriggerSagaCompensation;
  ForceMarkSagaCompensated := psql_ForceMarkSagaCompensated;
}.
End operations.

(** A server that carries out every statement and returns rows in the order
    of their keys. *)
Definition calm_server : Server := mkServer (λ _, NoFault) (λ _, 0%Z) (λ _ _ l, l).

#[export] Instance calm_server_delivers : Delivers calm_server.
Proof. by split. Qed.
