(* ===== verification/Listener.v ===== *)
(** * The notifications of the PostgreSQL store

    [Listen], [Unlisten], [Notifications] and [Close] of
    [pkg/trax/store_psql.go], and the goroutine that forwards what [pq.Listener]
    hands out to the one channel that the coordinator reads.  Of [pq.Listener]
    only what its documentation says is used: it hands out the notifications of
    the channels it listens on in their order, with a nil one at any time (after
    a reconnection, or because it was closed).  The methods hold a mutex and are
    single steps here, although the goroutine, which does not take the mutex,
    may in fact run between two of their statements. *)

From stdpp Require Import relations.
From S2P Require Import Prelude GoMonad Model Naming Database.

(** ** State *)

#[export] Instance StoreNotification_eq_dec : EqDecision StoreNotification.
Proof. solve_decision. Defined.

(** [pq.Listener]: what waits in its channel, [None] for a nil one. *)
Record PqListener := mkPqListener {
  pq_pending : list (option StoreNotification);
  pq_closed : bool;
}.

(** A Go channel with what was taken from it. *)
Record NotifChan := mkNotifChan {
  nc_buffer : list StoreNotification;
  nc_closed : bool;
  nc_taken : list StoreNotification;
}.

(** Where a goroutine of the store is: at the head of its loop, in the [select]
    with the listener and the context it has evaluated, with a notification in
    hand, sending it on a channel, waiting for ever on the nil channel, about to
    ping, at its end, or in a panic that ends the process. *)
Inductive Goroutine :=
  | AtTop
  | Selecting (listener context : nat)
  | Holding (n : StoreNotification)
  | Sending (channel : nat) (n : StoreNotification)
  | StuckOnNil
  | Pinging
  | Over
  | Crashed.

(** Listeners, channels and contexts have numbers; a context is cancelled or
    not.  The first field is every notification that the server has sent. *)
Record Listening := mkListening {
  l_sent : list StoreNotification;
  l_listeners : list PqListener;
  l_chans : list NotifChan;
  l_contexts : list bool;
  l_goroutines : list Goroutine;
  l_listener : option nat;
  l_notifChan : option nat;
  l_context : option nat;
  l_listened : list string;
}.

Definition NewPsqlStore : Listening := mkListening [] [] [] [] [] None None None [].

Definition with_goroutines (f : list Goroutine → list Goroutine) (s : Listening) : Listening :=
  mkListening (l_sent s) (l_listeners s) (l_chans s) (l_contexts s) (f (l_goroutines s))
    (l_listener s) (l_notifChan s) (l_context s) (l_listened s).
Definition with_listeners (f : list PqListener → list PqListener) (s : Listening) : Listening :=
  mkListening (l_sent s) (f (l_listeners s)) (l_chans s) (l_contexts s) (l_goroutines s)
    (l_listener s) (l_notifChan s) (l_context s) (l_listened s).
Definition with_chans (f : list NotifChan → list NotifChan) (s : Listening) : Listening :=
  mkListening (l_sent s) (l_listeners s) (f (l_chans s)) (l_contexts s) (l_goroutines s)
    (l_listener s) (l_notifChan s) (l_context s) (l_listened s).
Definition with_listened (f : list string → list string) (s : Listening) : Listening :=
  mkListening (l_sent s) (l_listeners s) (l_chans s) (l_contexts s) (l_goroutines s)
    (l_listener s) (l_notifChan s) (l_context s) (f (l_listened s)).

(** ** Methods *)

(** [s.listener.Close(); s.listener = nil; s.listenerCancel(); close(s.notifChan);
    s.notifChan = nil] *)
Definition tear_down (s : Listening) : Listening :=
  let close_pq p := mkPqListener (pq_pending p) true in
  let close_chan c := mkNotifChan (nc_buffer c) true (nc_taken c) in
  mkListening (l_sent s)
    (match l_listener s with Some i => alter close_pq i (l_listeners s) | None => l_listeners s end)
    (match l_notifChan s with Some i => alter close_chan i (l_chans s) | None => l_chans s end)
    (match l_context s with Some i => <[i := true]> (l_contexts s) | None => l_contexts s end)
    (l_goroutines s) None None (l_context s) (l_listened s).

(** The first call makes the listener, the channel and the goroutine. *)
Definition start_listener (s : Listening) : Listening :=
  match l_listener s with
  | Some _ => s
  | None =>
      mkListening (l_sent s) (l_listeners s ++ [mkPqListener [] false]) (l_chans s ++ [mkNotifChan [] false []])
        (l_contexts s ++ [false]) (l_goroutines s ++ [AtTop])
        (Some (length (l_listeners s))) (Some (length (l_chans s))) (Some (length (l_contexts s))) (l_listened s)
  end.

(** [fails]: the error of [pq.Listener], if any. *)
Definition Listen (channel : string) (fails : option string) (s : Listening) : result unit * Listening :=
  if existsb (String.eqb channel) (l_listened s) then (Ok tt, s)
  else
    let s := start_listener s in
    match fails with
    | Some err =>
        (Err (Errorf ("failed to listen on channel " +:+ channel +:+ ": " +:+ err)),
         match l_listened s with [] => tear_down s | _ => s end)
    | None => (Ok tt, with_listened (cons channel) s)
    end.

Definition Unlisten (channel : string) (fails : option string) (s : Listening) : result unit * Listening :=
  match l_listener s with
  | None => (Err (Errorf "not currently listening on any channel"), s)
  | Some _ =>
      match fails with
      | Some err => (Err (Errorf ("failed to unlisten on channel " +:+ channel +:+ ": " +:+ err)), s)
      | None =>
          let s := with_listened (List.filter (λ c, negb (String.eqb channel c))) s in
          (Ok tt, match l_listened s with [] => tear_down s | _ => s end)
      end
  end.

Definition Notifications (s : Listening) : option nat := l_notifChan s.

Definition Close (s : Listening) : Listening := with_listened (λ _, []) (tear_down s).

(** ** Goroutines *)

(** [make(chan *StoreNotification, 100)] *)
Definition chan_capacity : nat := 100.

(** One step of a goroutine; [timer] is whether the 90 seconds of the [select]
    are over.  The result has the goroutines that it starts. *)
Inductive goroutine_step (s : Listening) : Goroutine → Goroutine → list Goroutine → Listening → Prop :=
  (** [select { case <-s.listenerCtx.Done(): case n := <-s.listener.Notify: ... }] *)
  | gs_select i x :
      l_listener s = Some i → l_context s = Some x → goroutine_step s AtTop (Selecting i x) [] s
  | gs_select_nil : l_listener s = None → goroutine_step s AtTop Crashed [] s
  | gs_done i x : l_contexts s !! x = Some true → goroutine_step s (Selecting i x) Over [] s
  | gs_receive i x n p :
      l_listeners s !! i = Some p → head (pq_pending p) = Some (Some n) →
      goroutine_step s (Selecting i x) (Holding n) []
        (with_listeners <[i := mkPqListener (tail (pq_pending p)) (pq_closed p)]> s)
  | gs_receive_nil i x p :
      l_listeners s !! i = Some p → head (pq_pending p) = Some None →
      goroutine_step s (Selecting i x) AtTop []
        (with_listeners <[i := mkPqListener (tail (pq_pending p)) (pq_closed p)]> s)
  | gs_timer i x : goroutine_step s (Selecting i x) AtTop [Pinging] s
  (** [s.notifChan <- ...] *)
  | gs_send c n : l_notifChan s = Some c → goroutine_step s (Holding n) (Sending c n) [] s
  | gs_send_nil n : l_notifChan s = None → goroutine_step s (Holding n) StuckOnNil [] s
  | gs_sent c n ch :
      l_chans s !! c = Some ch → nc_closed ch = false → length (nc_buffer ch) < chan_capacity →
      goroutine_step s (Sending c n) AtTop []
        (with_chans <[c := mkNotifChan (nc_buffer ch ++ [n]) false (nc_taken ch)]> s)
  | gs_send_closed c n ch :
      l_chans s !! c = Some ch → nc_closed ch = true → goroutine_step s (Sending c n) Crashed [] s
  (** [s.listener.Ping()] *)
  | gs_ping i : l_listener s = Some i → goroutine_step s Pinging Over [] s
  | gs_ping_nil : l_listener s = None → goroutine_step s Pinging Crashed [] s.

(** ** The store at work *)

Inductive listening_step : Listening → Listening → Prop :=
  | ls_listen s channel fails : listening_step s (Listen channel fails s).2
  | ls_unlisten s channel fails : listening_step s (Unlisten channel fails s).2
  | ls_close s : listening_step s (Close s)
  (** The server sends a notification to the listener that is open; nothing is
      sent to one that is closed. *)
  | ls_notify s i p n :
      l_listener s = Some i → l_listeners s !! i = Some p → pq_closed p = false →
      listening_step s (mkListening (l_sent s ++ [n])
        (<[i := mkPqListener (pq_pending p ++ [Some n]) false]> (l_listeners s)) (l_chans s) (l_contexts s)
        (l_goroutines s) (l_listener s) (l_notifChan s) (l_context s) (l_listened s))
  | ls_reconnected s i p :
      l_listeners s !! i = Some p →
      listening_step s (with_listeners <[i := mkPqListener (pq_pending p ++ [None]) (pq_closed p)]> s)
  | ls_goroutine s g g' k started s' :
      Crashed ∉ l_goroutines s → l_goroutines s !! k = Some g → goroutine_step s g g' started s' →
      listening_step s (with_goroutines (λ gs, <[k := g']> gs ++ started) s')
  (** The coordinator takes a notification. *)
  | ls_take s c ch n rest :
      l_chans s !! c = Some ch → nc_buffer ch = n :: rest →
      listening_step s (with_chans <[c := mkNotifChan rest (nc_closed ch) (nc_taken ch ++ [n])]> s).

(** ** While nothing is closed *)

Definition nothing_closed (s : Listening) : Prop := Forall (λ c, nc_closed c = false) (l_chans s).

(** What a goroutine has in its hands. *)
Definition carried (g : Goroutine) : list StoreNotification :=
  match g with Holding n | Sending _ n => [n] | _ => [] end.

(** The store before its first [Listen], or with one listener, one channel and
    one goroutine that forwards, among pings; what the server has sent is what
    the coordinator has taken, then what is in the channel, then what the
    goroutine holds, then what waits in the listener. *)
Inductive forwarding : Listening → Prop :=
  | fw_idle : forwarding (mkListening [] [] [] [] [] None None None [])
  | fw_busy p buffer taken g pings names :
      length buffer ≤ chan_capacity →
      g ∈ [AtTop; Selecting 0 0] ∨ (∃ n, g = Holding n ∨ g = Sending 0 n) →
      Forall (λ g, g = Pinging ∨ g = Over) pings →
      forwarding (mkListening (taken ++ buffer ++ carried g ++ omap id p)
        [mkPqListener p false] [mkNotifChan buffer false taken] [false] (g :: pings)
        (Some 0) (Some 0) (Some 0) names).

Lemma tear_down_closes s c : l_notifChan s = Some c → c < length (l_chans s) → ¬ nothing_closed (tear_down s).
Proof.
  intros Hc Hlt Hopen. destruct (lookup_lt_is_Some_2 _ _ Hlt) as [ch Hch].
  unfold nothing_closed, tear_down in Hopen. cbn in Hopen. rewrite Hc in Hopen.
  assert (nc_closed (mkNotifChan (nc_buffer ch) true (nc_taken ch)) = false); [|done].
  apply (Forall_lookup_1 _ _ c _ Hopen). by rewrite list_lookup_alter_eq, Hch.
Qed.

Lemma forwarding_busy s : forwarding s → l_listener s <> None →
  l_notifChan s = Some 0 ∧ length (l_chans s) = 1.
Proof. by intros []. Qed.

Lemma start_forwarding s : forwarding s → forwarding (start_listener s) ∧ l_listener (start_listener s) = Some 0.
Proof.
  intros []; cbn; (split; [|done]).
  - apply (fw_busy [] [] [] AtTop []); [unfold chan_capacity; simpl; lia|set_solver|done].
  - by apply fw_busy.
Qed.

Lemma forwarding_Listen channel fails s :
  forwarding s → nothing_closed (Listen channel fails s).2 → forwarding (Listen channel fails s).2.
Proof.
  intros Hfw Hopen. unfold Listen in *. destruct (existsb _ _); [done|].
  destruct (start_forwarding s Hfw) as [Hfw' Hl]. destruct fails as [err|].
  - cbn [snd] in *. destruct (l_listened _); [|done].
    destruct (forwarding_busy _ Hfw') as [? ?]; [congruence|].
    exfalso. eapply tear_down_closes; [done| |done]. lia.
  - cbn [snd]. destruct Hfw'; [done|]. by apply fw_busy.
Qed.

Lemma forwarding_Unlisten channel fails s :
  forwarding s → nothing_closed (Unlisten channel fails s).2 → forwarding (Unlisten channel fails s).2.
Proof.
  intros Hfw Hopen. unfold Unlisten in *. destruct Hfw as [|p buffer taken g pings names Hb Hg Hp]; [by apply fw_idle|].
  cbn [l_listener] in *. destruct fails as [err|]; [by apply fw_busy|]. cbn in Hopen |- *.
  destruct (List.filter _ names); [|by apply fw_busy].
  exfalso. eapply (tear_down_closes _ 0); [| |exact Hopen]; [done|simpl; lia].
Qed.

Lemma forwarding_Close s : forwarding s → nothing_closed (Close s) → forwarding (Close s).
Proof.
  intros [] Hopen; [by apply fw_idle|]. exfalso.
  apply (tear_down_closes (with_listened (λ _, []) (mkListening (taken ++ buffer ++ carried g ++ omap id p)
    [mkPqListener p false] [mkNotifChan buffer false taken] [false] (g :: pings)
    (Some 0) (Some 0) (Some 0) names)) 0); [done|simpl; lia|exact Hopen].
Qed.

(** What the forwarding goroutine does, step by step, in a store that is busy. *)
Lemma forwarding_goroutine s g g' k started s' :
  forwarding s → l_goroutines s !! k = Some g → goroutine_step s g g' started s' →
  forwarding (with_goroutines (λ gs, <[k := g']> gs ++ started) s').
Proof.
  intros [|p buffer taken g0 pings names Hb Hg Hp] Hk Hstep; [done|]. cbn in Hk.
  destruct k as [|k].
  - simplify_eq/=.
    assert (∀ p buffer g' started, length buffer ≤ chan_capacity →
      g' ∈ [AtTop; Selecting 0 0] ∨ (∃ n, g' = Holding n ∨ g' = Sending 0 n) →
      Forall (λ g, g = Pinging ∨ g = Over) started → ∀ sent, sent = taken ++ buffer ++ carried g' ++ omap id p →
      forwarding (mkListening sent [mkPqListener p false] [mkNotifChan buffer false taken] [false]
        (g' :: pings ++ started) (Some 0) (Some 0) (Some 0) names)) as Hfw.
    { intros. subst. apply fw_busy; [done..|]. by apply Forall_app. }
    destruct Hg as [Hg|(n & [->| ->])];
      [apply elem_of_cons in Hg as [->|[->|Hg%elem_of_nil]%elem_of_cons]; [| |done]|..];
      inversion Hstep; subst; simplify_eq/=.
    + apply Hfw; [done|set_solver|done|done].
    + apply Hfw; [done|set_solver|done|]. destruct p as [|[m|] p]; by simplify_eq/=.
    + apply Hfw; [done|set_solver|done|]. destruct p as [|[m|] p]; by simplify_eq/=.
    + apply Hfw; [done|set_solver|by repeat constructor|done].
    + apply Hfw; [done|naive_solver|done|done].
    + apply Hfw; [rewrite length_app; simpl; lia|set_solver|done|]. by rewrite <- !app_assoc.
  - cbn in Hk.
    assert (g = Pinging ∨ g = Over) as Hping by (by eapply (Forall_lookup_1 _ _ _ _ Hp)).
    destruct Hping as [->| ->]; inversion Hstep; subst; simplify_eq/=.
    unfold with_goroutines; cbn. rewrite app_nil_r. apply fw_busy; [done..|]. apply Forall_insert; auto.
Qed.

Lemma goroutine_step_chans s g g' started s' :
  goroutine_step s g g' started s' → nothing_closed s' → nothing_closed s.
Proof.
  intros [] Hopen; try done. unfold nothing_closed in *. cbn in Hopen.
  apply Forall_lookup_2. intros i c' Hc'. destruct (decide (i = c)) as [->|Hne]; [by simplify_eq|].
  apply (Forall_lookup_1 _ _ i c' Hopen). by rewrite list_lookup_insert_ne.
Qed.

Lemma tear_down_chans s : nothing_closed (tear_down s) → nothing_closed s.
Proof.
  unfold nothing_closed, tear_down. cbn. destruct (l_notifChan s) as [c|]; [|done].
  intros Hopen. apply Forall_lookup_2. intros i ch Hi. destruct (decide (i = c)) as [->|Hne].
  - assert (nc_closed (mkNotifChan (nc_buffer ch) true (nc_taken ch)) = false); [|done].
    apply (Forall_lookup_1 _ _ c _ Hopen). by rewrite list_lookup_alter_eq, Hi.
  - apply (Forall_lookup_1 _ _ i ch Hopen). by rewrite list_lookup_alter_ne.
Qed.

Lemma start_listener_chans s : nothing_closed (start_listener s) → nothing_closed s.
Proof.
  unfold start_listener. destruct (l_listener s); [done|]. unfold nothing_closed. cbn.
  by intros [? _]%Forall_app.
Qed.

(** What is closed stays closed. *)
Lemma listening_step_chans s s' : listening_step s s' → nothing_closed s' → nothing_closed s.
Proof.
  intros [] Hopen; try done.
  - unfold Listen in Hopen. destruct (existsb _ _); [done|]. apply start_listener_chans.
    destruct fails; [|done]. cbn in Hopen. destruct (l_listened _); [by apply tear_down_chans|done].
  - unfold Unlisten in Hopen. destruct (l_listener s0), fails; try done. cbn in Hopen.
    destruct (List.filter _ _); [|done]. by apply tear_down_chans in Hopen.
  - by apply tear_down_chans in Hopen.
  - by eapply goroutine_step_chans.
  - unfold nothing_closed in *. cbn in Hopen. apply Forall_lookup_2. intros i c' Hc'.
    destruct (decide (i = c)) as [->|Hne].
    + simplify_eq.
      assert (nc_closed (mkNotifChan rest (nc_closed ch) (nc_taken ch ++ [n])) = false); [|done].
      apply (Forall_lookup_1 _ _ c _ Hopen). apply list_lookup_insert_eq. by eapply lookup_lt_Some.
    + apply (Forall_lookup_1 _ _ i c' Hopen). by rewrite list_lookup_insert_ne.
Qed.

Lemma forwarding_step s s' : listening_step s s' → nothing_closed s' → forwarding s → forwarding s'.
Proof.
  intros [] Hopen Hfw.
  - by apply forwarding_Listen.
  - by apply forwarding_Unlisten.
  - by apply forwarding_Close.
  - destruct Hfw as [|q buffer taken g pings names]; simplify_eq/=.
    match goal with |- forwarding (mkListening ?sent _ _ _ _ _ _ _ _) =>
      replace sent with (taken ++ buffer ++ carried g ++ omap id (q ++ [Some n])) end; [by apply fw_busy|].
    rewrite omap_app. cbn. by rewrite <- !app_assoc.
  - destruct Hfw as [|q buffer taken g pings names]; simplify_eq/=.
    destruct i as [|]; simplify_eq/=.
    replace (omap id q) with (omap id (q ++ [None])) by (rewrite omap_app; cbn; by rewrite app_nil_r).
    by apply fw_busy.
  - by eapply forwarding_goroutine.
  - destruct Hfw as [|q buffer taken g pings names Hb]; simplify_eq/=. destruct c as [|]; simplify_eq/=.
    replace (taken ++ n :: rest ++ carried g ++ omap id q)
      with ((taken ++ [n]) ++ rest ++ carried g ++ omap id q) by (by rewrite <- !app_assoc).
    apply fw_busy; [simpl in Hb; lia|done..].
Qed.

(** As long as nothing has been closed, every notification that the server has
    sent is on its way to the coordinator or there, once and in its place: there
    is one listener, one channel and one goroutine that forwards, and the
    process does not crash. *)
Theorem nothing_is_lost_while_open s :
  rtc listening_step NewPsqlStore s → nothing_closed s → forwarding s.
Proof.
  intros Hs. revert s Hs. apply (rtc_ind_r (λ s, nothing_closed s → forwarding s)); [by intros; apply fw_idle|].
  intros s s' _ Hstep IH Hopen. eapply forwarding_step; [done..|]. by eapply IH, listening_step_chans.
Qed.

(** ** Everything arrives *)

(** The steps of the goroutine and of the coordinator alone. *)
Inductive delivery_step : Listening → Listening → Prop :=
  | ds_goroutine s g g' k s' :
      l_goroutines s !! k = Some g → g' ≠ Crashed → goroutine_step s g g' [] s' →
      delivery_step s (with_goroutines (λ gs, <[k := g']> gs ++ []) s')
  | ds_take s c ch n rest :
      l_chans s !! c = Some ch → nc_buffer ch = n :: rest →
      delivery_step s (with_chans <[c := mkNotifChan rest (nc_closed ch) (nc_taken ch ++ [n])]> s).

Definition taken_of (s : Listening) : list StoreNotification := concat (nc_taken <$> l_chans s).

(** How far the goroutine is from the head of its loop, and what is left to do. *)
Definition phase (g : Goroutine) : nat :=
  match g with Holding _ => 5 | Sending _ _ => 4 | AtTop => 2 | _ => 1 end.
Definition left_to_do (s : Listening) : nat :=
  match l_listeners s, l_chans s, l_goroutines s with
  | [p], [ch], g :: _ => 10 * length (pq_pending p) + length (nc_buffer ch) + phase g
  | _, _, _ => 0
  end.

Lemma delivery_is_listening s s' : Crashed ∉ l_goroutines s → delivery_step s s' → listening_step s s'.
Proof. intros Hok Hstep. revert Hok. destruct Hstep; intros Hok; [by eapply ls_goroutine|by eapply ls_take]. Qed.

Lemma forwarding_no_crash s : forwarding s → Crashed ∉ l_goroutines s.
Proof.
  intros [|p buffer taken g pings names Hb Hg Hp]; cbn; [set_solver|].
  rewrite not_elem_of_cons. split.
  - intros <-. destruct Hg as [Hg|(n & [|])]; [set_solver|done..].
  - intros Hin. by destruct (proj1 (Forall_forall _ _) Hp _ Hin).
Qed.

(** The coordinator takes what there is in the channel first. *)
Lemma delivery_progress s : forwarding s → taken_of s ≠ l_sent s →
  ∃ s', delivery_step s s' ∧ left_to_do s' < left_to_do s ∧ l_sent s' = l_sent s ∧ nothing_closed s'.
Proof.
  intros [|p buffer taken g pings names Hb Hg Hp] Hmore; [done|].
  unfold taken_of in Hmore. cbn in Hmore. rewrite app_nil_r in Hmore.
  destruct buffer as [|n buffer].
  2:{ eexists. split; [by eapply (ds_take _ 0)|]. cbn. split; [lia|]. split; [done|by repeat constructor]. }
  assert (∀ g' s', g' ≠ Crashed → goroutine_step (mkListening (taken ++ [] ++ carried g ++ omap id p)
        [mkPqListener p false] [mkNotifChan [] false taken] [false] (g :: pings) (Some 0) (Some 0) (Some 0) names)
        g g' [] s' →
      left_to_do (with_goroutines (λ gs, <[0 := g']> gs ++ []) s') < 10 * length p + phase g →
      l_sent s' = taken ++ [] ++ carried g ++ omap id p → nothing_closed s' → ∃ s'',
      delivery_step (mkListening (taken ++ [] ++ carried g ++ omap id p)
        [mkPqListener p false] [mkNotifChan [] false taken] [false] (g :: pings) (Some 0) (Some 0) (Some 0) names) s'' ∧
      left_to_do s'' < 10 * length p + 0 + phase g ∧ l_sent s'' = taken ++ [] ++ carried g ++ omap id p ∧ nothing_closed s'')
    as Hgo.
  { intros g' s' Hg' Hstep Hless Hsent Hopen. eexists. split; [by eapply (ds_goroutine _ g g' 0)|].
    split; [lia|done]. }
  destruct Hg as [Hg|(n & [->| ->])];
    [apply elem_of_cons in Hg as [->|[->|Hg%elem_of_nil]%elem_of_cons]; [| |done]|..]; cbn in Hgo, Hmore |- *.
  - eapply (Hgo (Selecting 0 0)); [done|by apply gs_select| |done|by repeat constructor]. cbn. lia.
  - destruct p as [|[n|] p]; [by rewrite app_nil_r in Hmore| |].
    + eapply (Hgo (Holding n)); [done|by eapply gs_receive| |done|by repeat constructor]. cbn. lia.
    + eapply (Hgo AtTop); [done|by eapply gs_receive_nil| |done|by repeat constructor]. cbn. lia.
  - eapply (Hgo (Sending 0 n)); [done|by apply gs_send| |done|by repeat constructor]. cbn. lia.
  - eapply (Hgo AtTop); [done| |..].
    + eapply gs_sent; [done|done|]. cbn. unfold chan_capacity. lia.
    + cbn. lia.
    + done.
    + by repeat constructor.
Qed.

Lemma delivery_completes s :
  forwarding s → ∃ s', rtc delivery_step s s' ∧ taken_of s' = l_sent s ∧ l_sent s' = l_sent s.
Proof.
  remember (left_to_do s) as m eqn:Hm. revert s Hm. induction (lt_wf m) as [m _ IH]. intros s -> Hfw.
  destruct (decide (taken_of s = l_sent s)) as [Heq|Hne]; [by exists s|].
  destruct (delivery_progress s Hfw Hne) as (s1 & Hstep & Hless & Hsent & Hopen).
  destruct (IH _ Hless s1) as (s2 & Hrun & Htaken & Hsent'); [done| |].
  { eapply forwarding_step; [|done|done]. by apply delivery_is_listening, Hstep; apply forwarding_no_crash. }
  exists s2. split; [by eapply rtc_l|]. by rewrite Htaken, Hsent', Hsent.
Qed.


(** ** When the last channel is left

    [Unlisten] tears the listener down while the goroutine, which reads the
    fields of the store without the mutex, still runs. *)

Definition note (payload : string) : StoreNotification := mkStoreNotification "events" payload.

Ltac now_the s := eapply rtc_l; [apply s|cbn].
Ltac goroutine k step := eapply rtc_l; [eapply (ls_goroutine _ _ _ k); [set_solver|done|eapply step; first [done|unfold chan_capacity; simpl; lia]]|cbn].


(** The goroutine comes back to its [select] and finds no listener. *)
Example last_unlisten_may_crash :
  ∃ s, rtc listening_step NewPsqlStore s ∧ Crashed ∈ l_goroutines s.
Proof.
  eexists. split.
  - now_the (ls_listen NewPsqlStore "events" None). eapply rtc_l; [apply (ls_unlisten _ "events" None)|cbn].
    goroutine 0 gs_select_nil. apply rtc_refl.
  - set_solver.
Qed.

(** It is about to send on the channel that is being closed. *)
Example last_unlisten_may_close_under_the_sender :
  ∃ s, rtc listening_step NewPsqlStore s ∧ is_Some (l_context s) ∧ l_sent s = [note "a"] ∧
    Crashed ∈ l_goroutines s ∧ taken_of s = [].
Proof.
  eexists. split.
  - now_the (ls_listen NewPsqlStore "events" None). goroutine 0 gs_select.
    eapply rtc_l; [eapply (ls_notify _ 0 _ (note "a")); done|cbn].
    goroutine 0 gs_receive. goroutine 0 gs_send.
    eapply rtc_l; [apply (ls_unlisten _ "events" None)|cbn].
    goroutine 0 gs_send_closed. apply rtc_refl.
  - cbn. split; [by eexists|]. split; [done|]. split; [set_solver|done].
Qed.

(** It has a notification in hand and waits for ever on the nil channel. *)
Example last_unlisten_may_leave_it_stuck :
  ∃ s, rtc listening_step NewPsqlStore s ∧ StuckOnNil ∈ l_goroutines s ∧ l_sent s = [note "a"] ∧ taken_of s = [].
Proof.
  eexists. split.
  - now_the (ls_listen NewPsqlStore "events" None). goroutine 0 gs_select.
    eapply rtc_l; [eapply (ls_notify _ 0 _ (note "a")); done|cbn].
    goroutine 0 gs_receive.
    eapply rtc_l; [apply (ls_unlisten _ "events" None)|cbn].
    goroutine 0 gs_send_nil. apply rtc_refl.
  - cbn. split; [set_solver|done].
Qed.

(** A store that listens again soon enough has two goroutines that forward, for
    the one that was to end goes on with the new listener; so the coordinator
    may get what was sent in another order. *)
Example listening_again_may_reorder :
  ∃ s, rtc listening_step NewPsqlStore s ∧ l_sent s = [note "a"; note "b"] ∧ taken_of s = [note "b"; note "a"].
Proof.
  eexists. split.
  - now_the (ls_listen NewPsqlStore "events" None). eapply rtc_l; [apply (ls_unlisten _ "events" None)|cbn].
    eapply rtc_l; [apply (ls_listen _ "events" None)|cbn].
    goroutine 0 gs_select. goroutine 1 gs_select.
    eapply rtc_l; [eapply (ls_notify _ 1 _ (note "a")); done|cbn].
    eapply rtc_l; [eapply (ls_notify _ 1 _ (note "b")); done|cbn].
    goroutine 0 gs_receive. goroutine 1 gs_receive. goroutine 1 gs_send. goroutine 1 gs_sent.
    goroutine 0 gs_send. goroutine 0 gs_sent.
    eapply rtc_l; [eapply (ls_take _ 1); done|cbn]. eapply rtc_l; [eapply (ls_take _ 1); done|cbn].
    apply rtc_refl.
  - done.
Qed.
