(* ===== verification/PsqlLaws.v ===== *)
(** * The transactions of the goroutines are kept apart

    The store of PsqlStore.v keeps one transaction per goroutine in [txMap].
    What a goroutine does never touches the transaction of another one; what
    it does inside its own stays there until it commits; and a commit makes
    all of it visible or nothing, whatever the others commit meanwhile.  The
    store honours the contract of Store.v. *)

From S2P Require Import Prelude GoMonad Model Naming Sequence Database Store PsqlStore.

Local Open Scope go_scope.

Section isolation.
Context {srv : Server}.
Implicit Types (s : psqlStore srv).

(** The goroutine is the same, and so are the transactions of the others. *)
Definition apart s s' : Prop :=
  ps_gid s' = ps_gid s ∧ ∀ k, k ≠ ps_gid s → ps_txMap s' !! k = ps_txMap s !! k.

(** Nothing leaves the transaction, if there is one. *)
Definition inside s s' : Prop :=
  is_Some (ps_tx s) → ps_db s' = ps_db s ∧ is_Some (ps_tx s').

Definition stays {A} (m : M (psqlStore srv) A) : Prop :=
  ∀ s, apart s (m s).2 ∧ inside s (m s).2.

#[local] Lemma apart_trans s1 s2 s3 : apart s1 s2 → apart s2 s3 → apart s1 s3.
Proof.
  intros [G12 H12] [G23 H23]. split; [congruence|]. intros k Hk. rewrite H23, H12; congruence.
Qed.

#[local] Lemma inside_trans s1 s2 s3 : inside s1 s2 → inside s2 s3 → inside s1 s3.
Proof.
  intros H12 H23 H. destruct (H12 H) as [E12 H2]. destruct (H23 H2) as [E23 H3].
  split; [congruence|done].
Qed.

Lemma stays_ret {A} (a : A) : stays (ret a).
Proof. intros s. by repeat split. Qed.

Lemma stays_bind {A B} (m : M (psqlStore srv) A) (k : A → M (psqlStore srv) B) :
  stays m → (∀ a, stays (k a)) → stays (bind m k).
Proof.
  intros Hm Hk s. specialize (Hm s) as [Ha Hi]. unfold bind. destruct (m s) as [[a|msg|] s1].
  - destruct (Hk a s1) as [Ha' Hi']. simpl in *.
    split; [by eapply apart_trans|by eapply inside_trans].
  - by split.
  - by split.
Qed.

Lemma stays_or_else {A B} (m : M (psqlStore srv) (result A)) early
    (k : A → M (psqlStore srv) B) :
  stays m → (∀ e, stays (early e)) → (∀ a, stays (k a)) → stays (or_else m early k).
Proof. intros Hm He Hk. apply stays_bind; [done|]. intros [a|e]; auto. Qed.

(** One step of a statement: the number is counted, and the transaction of
    the goroutine or the database may change. *)
Lemma apart_set_tx s t n :
  apart s (mkPsqlStore (ps_db s) (<[ps_gid s := t]> (ps_txMap s)) (ps_gid s) n).
Proof. split; [done|]. intros k Hk. simpl. by rewrite lookup_insert_ne. Qed.

Lemma inside_set_tx s t n :
  inside s (mkPsqlStore (ps_db s) (<[ps_gid s := t]> (ps_txMap s)) (ps_gid s) n).
Proof. intros _. split; [done|]. unfold ps_tx. simpl. rewrite lookup_insert_eq. by eexists. Qed.

Lemma inside_no_tx s d n :
  ps_tx s = None → inside s (mkPsqlStore d (ps_txMap s) (ps_gid s) n).
Proof. intros Hn. unfold inside. rewrite Hn. by intros []. Qed.

Lemma stays_ping : stays ping.
Proof. intros s. unfold ping, bind, ask. simpl. by destruct (srv_fault srv (ps_n s)). Qed.

Lemma stays_exec {A} `{EqDecision A} (f : Z → DB → result (DB * A)) : stays (exec f).
Proof.
  intros s. unfold exec, bind, get_state, ask, set_tx, set_db, modify, error, ret. simpl.
  destruct (ps_tx s) as [[ws []]|] eqn:Htx; [by split|..].
  - destruct (replay ws (ps_db s)), (srv_fault srv (ps_n s)); simpl;
      try match goal with |- context [f ?a ?b] => destruct (f a b) as [[]|] end;
      simpl; (split; [apply apart_set_tx|apply inside_set_tx]).
  - destruct (srv_fault srv (ps_n s)); simpl;
      try match goal with |- context [f ?a ?b] => destruct (f a b) as [[]|] end;
      simpl; (split; [by split|by apply inside_no_tx]).
Qed.

Lemma stays_query {A} cut (q : nat → DB → result A) : stays (query_with cut q).
Proof.
  intros s. unfold query_with, bind, get_state, ask, set_tx, modify, error, ret. simpl.
  destruct (ps_tx s) as [[ws []]|] eqn:Htx; [by split|..].
  - destruct (replay ws (ps_db s)), (srv_fault srv (ps_n s)) as [| | | |k]; simpl;
      try match goal with |- context [q ?m ?d] => destruct (q m d) as [a|] end;
      try destruct (cut a k);
      simpl; (split; [apply apart_set_tx || by split|apply inside_set_tx || by split]).
  - destruct (srv_fault srv (ps_n s)) as [| | | |k]; simpl;
      try match goal with |- context [q ?m ?d] => destruct (q m d) as [a|] end;
      try destruct (cut a k);
      simpl; (split; [by split|by apply inside_no_tx]).
Qed.

Lemma stays_query_row {A} norows (q : DB → result (option A)) : stays (query_row norows q).
Proof. apply stays_or_else; [apply stays_query|intros; apply stays_ret..]. Qed.

Lemma stays_notify x st : stays (notifyCandidate (srv := srv) x st).
Proof.
  unfold notifyCandidate. destruct st; try apply stays_ret.
  all: apply stays_bind; [apply stays_exec|intros; apply stays_ret].
Qed.

Lemma stays_begin : stays (psql_BeginTransaction (srv := srv)).
Proof.
  intros s. unfold psql_BeginTransaction, bind, get_state. simpl.
  destruct (ps_tx s) as [t|] eqn:Htx; [by split|]. unfold or_else, bind.
  pose proof (stays_ping s) as [Ha _]. destruct (ping s) as [[[]|msg|] s1] eqn:H1; simpl in *;
    try (split; [done|by intros []; congruence]).
  pose proof (stays_ping s1) as [Ha1 _]. destruct (ping s1) as [[[]|msg|] s2] eqn:H2; simpl in *;
    try (split; [by eapply apart_trans|by intros []; congruence]).
  split; [|by intros []; congruence]. eapply apart_trans; [exact Ha|].
  eapply apart_trans; [exact Ha1|apply apart_set_tx].
Qed.

Lemma stays_update_saga_if c id from msg f : stays (update_saga_if (srv := srv) c id from msg f).
Proof.
  apply stays_or_else; [apply stays_exec|intros; apply stays_ret|].
  intros n. by case_decide; apply stays_ret.
Qed.

(** ** Properties *)

(** No operation of a goroutine touches the transaction of another
    goroutine, and what it writes inside its own transaction stays there: the
    committed database does not change and the transaction stays open. *)
Theorem statements_stay_inside :
  stays (psql_BeginTransaction (srv := srv)) ∧
  (∀ g, stays (psql_SaveSagaInstanceIdempotently (srv := srv) g)) ∧
  (∀ g st, stays (psql_UpdateSagaState (srv := srv) g st)) ∧
  (∀ c id, stays (psql_GetSagaInstance (srv := srv) c id)) ∧
  (∀ x, stays (psql_SaveSagaStepInstanceIdempotently (srv := srv) x)) ∧
  (∀ x st, stays (psql_UpdateSagaStepState (srv := srv) x st)) ∧
  (∀ x, stays (psql_UpdateSagaStepResult (srv := srv) x)) ∧
  (∀ x, stays (psql_UpdateSagaStepCompensationResult (srv := srv) x)) ∧
  (∀ x, stays (psql_UpdateSagaStepInstanceExecutionHistory (srv := srv) x)) ∧
  (∀ c id, stays (psql_GetSagaStepInstance (srv := srv) c id)) ∧
  (∀ c id, stays (psql_ListSagaStepInstancesBySagaInstanceId (srv := srv) c id)) ∧
  (∀ c id, stays (psql_GetChildSagaInstances (srv := srv) c id)) ∧
  (∀ c id, stays (psql_TriggerSagaCompensation (srv := srv) c id)) ∧
  (∀ c id reason, stays (psql_ForceMarkSagaCompensated (srv := srv) c id reason)).
Proof.
  repeat match goal with |- _ ∧ _ => split end; intros; try apply stays_query_row; try apply stays_query; try apply stays_exec;
    try apply stays_update_saga_if.
  - apply stays_begin.
  - apply stays_or_else; [apply stays_query|intros; apply stays_ret|]. intros []; [apply stays_ret|].
    apply stays_or_else; [apply stays_exec|intros; apply stays_ret..].
  - apply stays_or_else; [apply stays_exec|intros; apply stays_ret..].
  - apply stays_or_else; [apply stays_query|intros; apply stays_ret|]. intros []; [apply stays_ret|].
    apply stays_or_else; [apply stays_exec|intros; apply stays_ret|].
    intros []. apply stays_bind; [apply stays_notify|intros; apply stays_ret].
  - apply stays_or_else; [apply stays_exec|intros; apply stays_ret|].
    intros []. apply stays_bind; [apply stays_notify|intros; apply stays_ret].
  - unfold psql_ForceMarkSagaCompensated. case_decide; [apply stays_ret|apply stays_update_saga_if].
Qed.

(** A transaction of a goroutine that looks at no error: its statements one after
    another, while the others, before each of them and before the commit, make
    of the database what they want. *)
Definition meanwhile (others : DB → DB) : M (psqlStore srv) unit :=
  modify (λ s, mkPsqlStore (others (ps_db s)) (ps_txMap s) (ps_gid s) (ps_n s)).

Fixpoint statements (fs : list ((Z → DB → result DB) * (DB → DB))) : M (psqlStore srv) unit :=
  match fs with
  | [] => ret tt
  | (f, others) :: fs => meanwhile others ;;; exec_update f ;;; statements fs
  end.

Definition transaction (fs : list ((Z → DB → result DB) * (DB → DB))) (others : DB → DB) :
    M (psqlStore srv) (result unit) :=
  _ <-? psql_BeginTransaction else e => ret (Err e) ;;
  statements fs ;;; meanwhile others ;;; psql_CommitTransaction.

(** What the others have made of the database in the end. *)
Definition left_by_others (fs : list ((Z → DB → result DB) * (DB → DB))) (others : DB → DB) (d : DB) : DB :=
  others (foldl (λ d fo, fo.2 d) d fs).

(** Each statement has been carried out, in their order, with nothing between
    them. *)
Inductive carried_out : list (Z → DB → result DB) → DB → DB → Prop :=
  | co_nil d : carried_out [] d d
  | co_cons f fs ts d d1 d2 : f ts d = Ok d1 → carried_out fs d1 d2 → carried_out (f :: fs) d d2.

Lemma carried_out_snoc fs f ts d d1 d2 :
  carried_out fs d d1 → f ts d1 = Ok d2 → carried_out (fs ++ [f]) d d2.
Proof. induction 1; intros Hf; simpl; eauto using carried_out. Qed.

(** The transaction has carried out [fs], or has failed. *)
Definition holds_statements (fs : list (Z → DB → result DB)) (t : Tx) : Prop :=
  tx_failed t = true ∨ ∀ d d', replay (tx_writes t) d = Some d' → carried_out fs d d'.

Lemma replay_app ws f d : replay (ws ++ [f]) d = replay ws d ≫= f.
Proof. unfold replay. by rewrite foldl_app. Qed.

Lemma exec_update_holds fs f s t :
  ps_tx s = Some t → holds_statements fs t →
  ∃ r s' t', exec_update f s = (Ret r, s') ∧ ps_tx s' = Some t' ∧ apart s s' ∧ ps_db s' = ps_db s ∧
    holds_statements (fs ++ [f]) t'.
Proof.
  intros Ht Hh. destruct (stays_exec (λ ts d, result_map (λ d', (d', tt)) (f ts d)) s) as [Ha Hin].
  destruct Hin as [Hdb [t' Ht']]; [by eexists|].
  unfold exec_update. destruct (exec _ s) as [o s'] eqn:He. simpl in *.
  assert (∃ r, o = Ret r ∧ holds_statements (fs ++ [f]) t') as (r & -> & Hh').
  2: by exists r, s', t'.
  revert He. unfold exec, bind, get_state, ask, set_tx, modify, error, ret. simpl. rewrite Ht.
  destruct t as [ws []]; 
    [intros [= <- <-]; eexists; split; [done|left]; unfold ps_tx in *; simpl in *; rewrite Ht in Ht';
     by injection Ht' as <-|].
  destruct Hh as [|Hh]; [done|]. simpl in Hh.
  assert (∀ t'' n, ps_tx (mkPsqlStore (srv := srv) (ps_db s) (<[ps_gid s := t'']> (ps_txMap s)) (ps_gid s) n) = Some t'')
    as Hput by (intros; unfold ps_tx; simpl; apply lookup_insert_eq).
  destruct (replay ws (ps_db s)) as [d|]; simpl;
    [|intros [= <- <-]; rewrite Hput in Ht'; injection Ht' as <-; eexists; split; [done|by left]].
  destruct (srv_fault srv (ps_n s)); simpl; destruct (f (srv_now srv (ps_n s)) d) as [d1|e] eqn:Hf; simpl;
    intros [= <- <-]; rewrite Hput in Ht'; injection Ht' as <-; eexists; (split; [done|]); (try by left).
  all: right; simpl; intros d0 d2; rewrite replay_app; intros (d3 & Hr & Hd)%bind_Some;
    unfold again in Hd; destruct (f _ d3) as [d4|] eqn:Hf3; simplify_eq/=; eapply carried_out_snoc; eauto.
Qed.

Lemma statements_holds fs done s t :
  ps_tx s = Some t → holds_statements done t →
  ∃ s' t', statements fs s = (Ret tt, s') ∧ ps_tx s' = Some t' ∧ apart s s' ∧
    ps_db s' = foldl (λ d fo, fo.2 d) (ps_db s) fs ∧ holds_statements (done ++ fs.*1) t'.
Proof.
  revert done s t. induction fs as [|[f others] fs IH]; intros done s t Ht Hh; simpl.
  { exists s, t. rewrite app_nil_r. repeat split; done. }
  unfold bind, meanwhile, modify. simpl.
  set (s1 := mkPsqlStore (others (ps_db s)) (ps_txMap s) (ps_gid s) (ps_n s)).
  destruct (exec_update_holds done f s1 t Ht Hh) as (r & s2 & t2 & -> & Ht2 & Ha2 & Hd2 & Hh2).
  destruct (IH _ _ _ Ht2 Hh2) as (s3 & t3 & -> & Ht3 & Ha3 & Hd3 & Hh3).
  exists s3, t3. split; [done|]. split; [done|]. split; [eapply apart_trans; [exact Ha2|exact Ha3]|].
  split; [by rewrite Hd3, Hd2|]. by rewrite <- app_assoc in Hh3.
Qed.

Lemma commit_outcome s t :
  ps_tx s = Some t →
  ∃ r s', psql_CommitTransaction s = (Ret r, s') ∧ ps_tx s' = None ∧ apart s s' ∧
    (ps_db s' = ps_db s ∧ r ≠ Ok tt ∨ tx_failed t = false ∧ replay (tx_writes t) (ps_db s) = Some (ps_db s')).
Proof.
  intros Htx. unfold psql_CommitTransaction, bind, get_state. simpl. rewrite Htx.
  unfold ask, delete_tx, set_db, modify, error, ret. simpl.
  assert (∀ d, apart s (mkPsqlStore d (delete (ps_gid s) (ps_txMap s)) (ps_gid s) (S (ps_n s))))
    as Hap by by intros d; split; [|intros k Hk; simpl; by rewrite lookup_delete_ne].
  assert (∀ d n, ps_tx (mkPsqlStore (srv := srv) d (delete (ps_gid s) (ps_txMap s)) (ps_gid s) n)
    = None) as Hno by (intros d n; unfold ps_tx; simpl; apply lookup_delete_eq).
  destruct (tx_failed t); simpl.
  { eexists _, _. split; [done|]. split; [apply Hno|]. split; [apply Hap|]. by left. }
  destruct (srv_fault srv (ps_n s)), (replay (tx_writes t) (ps_db s)); simpl; eexists _, _; (split; [reflexivity|]);
    (split; [apply Hno|]); (split; [apply Hap|]); auto.
Qed.


(** A rollback drops what the transaction has written, whatever the server
    answers. *)
Theorem rollback_drops_everything s t :
  ps_tx s = Some t →
  ∃ r s', psql_RollbackTransaction s = (Ret r, s') ∧ ps_tx s' = None ∧ apart s s' ∧
    ps_db s' = ps_db s.
Proof.
  intros Htx. unfold psql_RollbackTransaction, bind, get_state. simpl. rewrite Htx.
  unfold ping, bind, ask, delete_tx, modify, error, ret. simpl.
  destruct (srv_fault srv (ps_n s)); simpl; eexists _, _; (split; [reflexivity|]);
    (split; [apply lookup_delete_eq|]); (split; [|done]);
    (split; [done|]); intros k Hk; simpl; by rewrite lookup_delete_ne.
Qed.
End isolation.

(** A server on which the third statement fails. *)
Definition flaky_server : Server :=
  mkServer (λ n, if decide (n = 2) then Refused else NoFault) (λ _, 0%Z) (λ _ _ l, l).

Definition two_goroutines : psqlStore flaky_server :=
  mkPsqlStore (mkDB ∅ ∅ ∅ ∅ ∅ ∅ []) (<[0 := mkTx [] false]> {[1 := mkTx [] true]}) 0 2.

(** Two notifications, while somebody else deletes the clusters; the other
    goroutine's transaction stays as it is. *)
Definition two_notes : list ((Z → DB → result DB) * (DB → DB)) :=
  [(λ _, sql_notify (mkStoreNotification "c" "one"), λ d, d);
   (λ _, sql_notify (mkStoreNotification "c" "two"),
    λ d, mkDB ∅ (db_saga_templates d) (db_saga_step_templates d) (db_saga_instances d)
           (db_saga_step_instances d) (db_saga_annexes d) (db_notifications d))].

Definition one_busy_goroutine : psqlStore flaky_server :=
  mkPsqlStore (mkDB ∅ ∅ ∅ ∅ ∅ ∅ []) {[1 := mkTx [] true]} 0 3.


Example both_notes_are_sent :
  (let '(r, s) := transaction two_notes (λ d, d) one_busy_goroutine in
   (r, sn_Payload <$> db_notifications (ps_db s))) = (Ret (Ok tt), ["one"; "two"]).
Proof. by vm_compute. Qed.

Lemma rollback_drops_everything_witness :
  ∃ r s', psql_RollbackTransaction two_goroutines = (Ret r, s') ∧ ps_tx s' = None ∧
    apart two_goroutines s' ∧ ps_db s' = ps_db two_goroutines.
Proof. apply (rollback_drops_everything two_goroutines (mkTx [] false)). reflexivity. Defined.

(** ** What the statements change *)

(** Rows other than the one named, and the other tables, are as they were. *)
Definition one_step_row (cid id : string) (f : SagaStepInstance → SagaStepInstance) (d d' : DB) : Prop :=
  (∀ k, step_rows cid d' !! k = if decide (k = id) then f <$> step_rows cid d !! id else step_rows cid d !! k) ∧
  (∀ c, c ≠ cid → step_rows c d' = step_rows c d) ∧ (∀ c, saga_rows c d' = saga_rows c d) ∧
  db_clusters d' = db_clusters d ∧ db_saga_templates d' = db_saga_templates d ∧
  db_saga_step_templates d' = db_saga_step_templates d ∧ db_saga_annexes d' = db_saga_annexes d.

Definition one_saga_row (cid id : string) (f : SagaInstance → SagaInstance) (d d' : DB) : Prop :=
  (∀ k, saga_rows cid d' !! k = if decide (k = id) then f <$> saga_rows cid d !! id else saga_rows cid d !! k) ∧
  (∀ c, c ≠ cid → saga_rows c d' = saga_rows c d) ∧ (∀ c, step_rows c d' = step_rows c d) ∧
  db_clusters d' = db_clusters d ∧ db_saga_templates d' = db_saga_templates d ∧
  db_saga_step_templates d' = db_saga_step_templates d ∧ db_saga_annexes d' = db_saga_annexes d.

(** A new saga has a template; its identifier and its key were not there. *)
Definition new_saga_row (ts : Z) (g : SagaInstance) (d d' : DB) : Prop :=
  let cid := si_ClusterId g in
  is_Some (db_saga_templates d !! si_SagaTemplateId g) ∧ saga_rows cid d !! si_InstanceId g = None ∧
  (∀ k h, saga_rows cid d !! k = Some h → saga_SagaIdempotencyKey h ≠ saga_SagaIdempotencyKey g) ∧
  saga_rows cid d' = <[si_InstanceId g := set_si_CreatedAt ts (set_si_UpdatedAt ts g)]> (saga_rows cid d) ∧
  (∀ c, c ≠ cid → saga_rows c d' = saga_rows c d) ∧ (∀ c, step_rows c d' = step_rows c d).

Lemma update_step_one_row cid id f d d' :
  step_update f → sql_update_step cid id f d = Ok d' → one_step_row cid id f d d'.
Proof.
  intros Hf. unfold sql_update_step. destruct (step_table cid d); [|done]. intros [= <-]. split.
  - intros k. rewrite step_rows_upd, lookup_alter by done. repeat case_decide; congruence.
  - split; [|done]. intros c Hc. by apply step_rows_upd_ne.
Qed.

Lemma update_saga_one_row cid id f d d' :
  saga_update f → sql_update_saga cid id f d = Ok d' → one_saga_row cid id f d d'.
Proof.
  intros Hf. unfold sql_update_saga. destruct (saga_table cid d); [|done]. intros [= <-]. split.
  - intros k. rewrite saga_rows_upd, lookup_alter by done. repeat case_decide; congruence.
  - split; [|done]. intros c Hc. by apply saga_rows_upd_ne.
Qed.

Lemma insert_saga_one_row ts g d d' : sql_insert_saga ts g d = Ok d' → new_saga_row ts g d d'.
Proof.
  unfold sql_insert_saga, new_saga_row. destruct (saga_table _ d) as [t|] eqn:Ht; [|done].
  destruct (_ || _) eqn:Hn; [done|]. apply insert_checked in Hn as [Hn Hkey].
  destruct (db_saga_templates d !! _) as [tp|]; [|done]. intros [= <-].
  split; [by eexists|]. assert (saga_rows (si_ClusterId g) d = set_si_ClusterId (si_ClusterId g) <$> t) as Hrows
    by (unfold saga_rows; by rewrite Ht).
  split; [by rewrite Hrows, lookup_fmap, Hn|]. split.
  { intros k h Hh Heq. apply bool_decide_eq_false in Hkey. apply Hkey, Exists_exists.
    exists h. split; [|done]. apply list_elem_of_fmap. exists (k, h). split; [done|]. by apply elem_of_map_to_list. }
  split; [|split; [|done]].
  - rewrite Hrows. unfold saga_rows, saga_table. simpl. rewrite lookup_insert_eq. simpl.
    rewrite fmap_insert. by f_equal.
  - intros c Hc. unfold saga_rows, saga_table. simpl. rewrite lookup_insert_ne; [done|].
    intros Heq. by simplify_eq.
Qed.

(** ** The PostgreSQL store honours the contract

    Every operation of PsqlStore.v does what Store.v promises of it, on a
    server that delivers every row; it fails by itself only if some statement
    fails. *)

Section laws.
Context {srv : Server}.
Implicit Types (s : psqlStore srv).

(** The goroutine's view. *)
Definition tx_view (d : DB) (t : Tx) : DB * bool :=
  match replay (tx_writes t) d with Some w => (w, tx_failed t) | None => (d, true) end.

Definition psql_view s : view := View (ps_db s) (tx_view (ps_db s) <$> ps_tx s).

#[local] Notation implements := (implements psql_view).

Lemma ps_tx_insert s t n :
  ps_tx (mkPsqlStore (srv := srv) (ps_db s) (<[ps_gid s := t]> (ps_txMap s)) (ps_gid s) n) = Some t.
Proof. unfold ps_tx. simpl. by rewrite lookup_insert_eq. Qed.

Lemma ps_tx_delete s d n :
  ps_tx (mkPsqlStore (srv := srv) d (delete (ps_gid s) (ps_txMap s)) (ps_gid s) n) = None.
Proof. unfold ps_tx. simpl. by rewrite lookup_delete_eq. Qed.

(** *** Composition *)

Lemma implements_ret {A} (a : A) : implements (ret (Ok a)) (spec_ret a).
Proof. intros s. by apply wp_ret. Qed.

Lemma implements_bind {A B} (m : M (psqlStore srv) (result A)) p
    (k : A → M (psqlStore srv) (result B)) pk :
  implements m p → (∀ a, implements (k a) (pk a)) →
  implements (or_else m (λ e, ret (Err e)) k) (spec_bind p pk).
Proof.
  intros Hm Hk s. apply wp_or_else. eapply wp_returns_mono; [|apply Hm].
  intros [a|e] s1 Hp; simpl.
  - eapply wp_returns_mono; [|apply Hk]. intros r s2 Hr. by exists (Ok a), (psql_view s1).
  - apply wp_ret. by exists (Err e), (psql_view s1).
Qed.

Lemma implements_ignore {A B} (m : M (psqlStore srv) (result A)) p
    (k : M (psqlStore srv) (result B)) pk :
  implements m p → implements k pk → implements (bind m (λ _, k)) (spec_ignore p pk).
Proof.
  intros Hm Hk s. apply wp_bind_ret. eapply wp_returns_mono; [|apply Hm].
  intros r1 s1 Hp. simpl. eapply wp_returns_mono; [|apply Hk]. intros r s2 Hr.
  by exists r1, (psql_view s1).
Qed.

Definition psql_faulty : Prop := ∃ n, srv_fault srv n ≠ NoFault.


Lemma implements_stmt_mono {A} (m : M (psqlStore srv) (result A)) R R' E E' (bad bad' : DB → Prop) :
  (∀ d a d', R d a d' → R' d a d') → (∀ d e, E d e → E' d e) → (∀ d, bad d → bad' d) →
  implements m (stmt psql_faulty R E bad) → implements m (stmt psql_faulty R' E' bad').
Proof.
  intros HR HE Hb Hm s. eapply wp_returns_mono; [|apply Hm]. intros [a|e] s1; simpl.
  - intros [? (d & ? & ?)]. eauto 6.
  - intros [(? & ? & ?)|(? & Hw & Hv)]; [left; auto|right]. split; [done|].
    split; [naive_solver|].
    destruct (ps_tx s); simpl in *; [done|]. destruct Hv as [?|(a & d & ? & ?)]; eauto 6.
Qed.

Lemma fault_faulty n fault : srv_fault srv n = fault → fault ≠ NoFault → psql_faulty.
Proof. intros <- ?. by exists n. Qed.

(** *** The statements *)

Lemma psql_view_tx s ws b :
  ps_tx s = Some (mkTx ws b) →
  psql_view s = View (ps_db s) (Some (tx_view (ps_db s) (mkTx ws b))).
Proof. unfold psql_view. by intros ->. Qed.

Lemma psql_view_no_tx s : ps_tx s = None → psql_view s = View (ps_db s) None.
Proof. unfold psql_view. by intros ->. Qed.

Lemma psql_view_idle s d n :
  ps_tx s = None → psql_view (mkPsqlStore (srv := srv) d (ps_txMap s) (ps_gid s) n) = View d None.
Proof. unfold psql_view, ps_tx. simpl. by intros ->. Qed.

Lemma psql_view_put s t n :
  psql_view (mkPsqlStore (srv := srv) (ps_db s) (<[ps_gid s := t]> (ps_txMap s)) (ps_gid s) n) =
  View (ps_db s) (Some (tx_view (ps_db s) t)).
Proof. unfold psql_view. by rewrite ps_tx_insert. Qed.

Lemma psql_view_asked s n :
  psql_view (mkPsqlStore (srv := srv) (ps_db s) (ps_txMap s) (ps_gid s) n) = psql_view s.
Proof. done. Qed.

(** Failures. *)
Lemma stmt_tx_error {A} R E bad com w (b b' : bool) msg :
  (b = true → b' = true) → psql_faulty ∨ b = true ∨ bad w →
  stmt (A := A) psql_faulty R E bad (View com (Some (w, b))) (Err (Errorf msg)) (View com (Some (w, b'))).
Proof.
  intros Hb Hw. right. split; [by eexists|]. split; [|by exists b'].
  destruct Hw as [?|[->|?]]; [by left|right; left; unfold v_alive; simpl; done|by right; right].
Qed.

Lemma stmt_db_error {A} R E bad com msg :
  psql_faulty ∨ bad com →
  stmt (A := A) psql_faulty R E bad (View com None) (Err (Errorf msg)) (View com None).
Proof. intros Hw. right. split; [by eexists|]. split; [|by left]. naive_solver. Qed.

(** Reading a transaction: its statements on top of the database, or dead. *)
Lemma tx_view_cases d ws :
  (∃ w, replay ws d = Some w ∧ ∀ b', tx_view d (mkTx ws b') = (w, b')) ∨
  (replay ws d = None ∧ ∀ b', tx_view d (mkTx ws b') = (d, true)).
Proof. unfold tx_view. simpl. destruct (replay ws d) as [w|]; [left; by exists w|by right]. Qed.

Lemma tx_view_again {A} `{EqDecision A} d ws w f d' (a : A) :
  replay ws d = Some w → f w = Ok (d', a) → tx_view d (mkTx (ws ++ [again f a]) false) = (d', false).
Proof.
  intros Hr Hf. unfold tx_view. simpl. rewrite replay_app, Hr. simpl. unfold again.
  by rewrite Hf, decide_True.
Qed.

Lemma exec_law {A} `{EqDecision A} (f : Z → DB → result (DB * A)) :
  implements (exec f) (stmt psql_faulty (λ d a d', ∃ ts, f ts d = Ok (d', a)) no_error
                         (λ d, ∃ ts e, f ts d = Err e)).
Proof.
  intros s. unfold wp, exec, bind, get_state, ask. cbn -[psql_view stmt ps_tx].
  set (ts := srv_now srv (ps_n s)). pose proof (fault_faulty (ps_n s)) as Hfault.
  destruct (ps_tx s) as [[ws []]|] eqn:Ht; cbn -[psql_view stmt ps_tx].
  - rewrite psql_view_asked, (psql_view_tx _ _ _ Ht).
    destruct (tx_view_cases (ps_db s) ws) as [(w & _ & ->)|[_ ->]];
      (apply stmt_tx_error; [done|by right; left]).
  - destruct (tx_view_cases (ps_db s) ws) as [(w & Hr & Hv)|[Hr Hv]]; rewrite Hr;
      cbn -[psql_view stmt ps_tx].
    2: { rewrite psql_view_put, (psql_view_tx _ _ _ Ht), !Hv. apply stmt_tx_error; [done|by right; left]. }
    destruct (srv_fault srv (ps_n s)) eqn:Hs, (f ts w) as [[d a]|e] eqn:Hf;
      cbn -[psql_view stmt ps_tx]; rewrite psql_view_put, (psql_view_tx _ _ _ Ht), !Hv;
      try (apply stmt_tx_error; [done|]; first [left; by apply (Hfault _ eq_refl) | by eauto]).
    all: split; [done|]; exists d; split; [by exists ts|]; by rewrite (tx_view_again _ _ _ _ _ _ Hr Hf).
  - destruct (srv_fault srv (ps_n s)) eqn:Hs, (f ts (ps_db s)) as [[d a]|e] eqn:Hf;
      cbn -[psql_view stmt ps_tx]; rewrite psql_view_idle, (psql_view_no_tx _ Ht) by done;
      try (apply stmt_db_error; first [left; by apply (Hfault _ eq_refl) | by eauto]).
    all: try (split; [done|]; exists d; split; [by exists ts|done]).
    right. split; [by eexists|]. split; [left; by apply (Hfault _ eq_refl)|]. right. exists a, d.
    split; [by exists ts|done].
Qed.

Lemma exec_update_law (f : Z → DB → result DB) :
  implements (exec_update f) (update_of psql_faulty f).
Proof.
  eapply implements_stmt_mono; [| | |apply exec_law]; [|done|].
  - intros d [] d' (ts & Hf). exists ts. destruct (f ts d); by simplify_eq/=.
  - intros d (ts & e & Hf). exists ts, e. destruct (f ts d); by simplify_eq/=.
Qed.

(** A query whose answer, when it is cut short, is an error or is never cut short. *)
Lemma query_with_law {A} cut (q : nat → DB → result A) :
  (∀ a k, cut a k = None) ∨ (∀ n k, srv_fault srv n ≠ Cut k) →
  implements (query_with cut q) (query psql_faulty (λ d a, ∃ n, q n d = Ok a) no_error
                                   (λ d, ∃ n e, q n d = Err e)).
Proof.
  intros Hcut s. unfold wp, query_with, bind, get_state, ask.
  cbn -[psql_view stmt query ps_tx]. pose proof (fault_faulty (ps_n s)) as Hfault.
  assert (∀ a k, srv_fault srv (ps_n s) = Cut k → cut a k = None) as Hnone
    by (intros a k Hk; destruct Hcut as [Hcut|Hcut]; [done|by edestruct Hcut]). clear Hcut.
  destruct (ps_tx s) as [[ws []]|] eqn:Ht; cbn -[psql_view stmt query ps_tx].
  - rewrite psql_view_asked, (psql_view_tx _ _ _ Ht).
    destruct (tx_view_cases (ps_db s) ws) as [(w & _ & ->)|[_ ->]];
      (apply stmt_tx_error; [done|by right; left]).
  - destruct (tx_view_cases (ps_db s) ws) as [(w & Hr & Hv)|[Hr Hv]]; rewrite Hr;
      cbn -[psql_view stmt query ps_tx].
    2: { rewrite psql_view_put, (psql_view_tx _ _ _ Ht), !Hv. apply stmt_tx_error; [done|by right; left]. }
    destruct (srv_fault srv (ps_n s)) as [| | | |k], (q (ps_n s) w) as [a|e] eqn:Hq;
      cbn -[psql_view stmt query ps_tx]; rewrite ?(Hnone _ _ eq_refl);
      cbn -[psql_view stmt query ps_tx];
      rewrite ?psql_view_put, ?psql_view_asked, (psql_view_tx _ _ _ Ht), ?Hv;
      try (apply stmt_tx_error; [done|]; first [left; by apply (Hfault _ eq_refl) | by eauto]).
    split; [done|]. exists w. split; [split; [by eexists|done]|done].
  - destruct (srv_fault srv (ps_n s)) as [| | | |k], (q (ps_n s) (ps_db s)) as [a|e] eqn:Hq;
      cbn -[psql_view stmt query ps_tx]; rewrite ?(Hnone _ _ eq_refl);
      cbn -[psql_view stmt query ps_tx];
      rewrite ?psql_view_asked, (psql_view_no_tx _ Ht);
      try (apply stmt_db_error; first [left; by apply (Hfault _ eq_refl) | by eauto]).
    split; [done|]. exists (ps_db s). split; [split; [by eexists|done]|done].
Qed.

Lemma query_row_law {A} norows (q : DB → result (option A)) (E : DB → goerror → Prop) bad :
  (∀ d, q d = Ok None → E d norows) → (∀ d e, q d = Err e → bad d) →
  implements (query_row norows q) (query psql_faulty (λ d a, q d = Ok (Some a)) E bad).
Proof.
  intros HE Hb s. unfold query_row. apply wp_or_else.
  eapply wp_returns_mono; [|apply (query_with_law _ (λ _, q)); by left].
  intros [[a|]|e] s1; cbn -[psql_view].
  - intros [Ha (d & [[n Hq] ->] & Hv)]. split; [done|]. by eexists.
  - intros [Ha (d & [[n Hq] ->] & Hv)]. left. split; [done|]. split; [by apply HE|].
    unfold v_cur, v_put, v_alive in *. by destruct (psql_view s) as [com [[w b]|]]; simpl in *.
  - intros [(_ & [] & _)|(He & Hw & Hv)]. right. split; [done|]. split.
    { destruct Hw as [?|[?|(n & e' & Hq)]]; eauto. }
    destruct (psql_view s) as [com [[w b]|]]; cbn -[psql_view] in *; [done|].
    left. destruct Hv as [Hv|(a & d & [[n _] ->] & Hv)]; [done|]. by rewrite Hv.
Qed.

Lemma query_cut_law {A} cut (q : nat → DB → result A) (R : DB → A → Prop) (bad : DB → Prop) :
  (∀ a k, cut a k = None) ∨ (∀ n k, srv_fault srv n ≠ Cut k) →
  (∀ n d a, q n d = Ok a → R d a) → (∀ n d e, q n d = Err e → bad d) →
  implements (query_with cut q) (query psql_faulty R no_error bad).
Proof.
  intros Hc HR Hb. eapply implements_stmt_mono; [| | |by apply query_with_law]; [|done|].
  - intros d a d' [[n Hq] ->]. split; [by eapply HR|done].
  - intros d (n & e & Hq). by eapply Hb.
Qed.

Lemma query_all_law {A} (q : nat → DB → result A) (R : DB → A → Prop) (bad : DB → Prop) :
  (∀ n d a, q n d = Ok a → R d a) → (∀ n d e, q n d = Err e → bad d) →
  implements (query_all q) (query psql_faulty R no_error bad).
Proof. apply query_cut_law. by left. Qed.

Lemma notifyCandidate_law {A} x st (a : A) :
  implements (bind (notifyCandidate x st) (λ _, ret (Ok a))) (spec_notify psql_faulty x st a).
Proof.
  assert (implements (bind (bind (exec_update (λ _, sql_notify (notify_step x st))) (λ _, ret tt))
    (λ _, ret (Ok a))) (spec_ignore (update_of psql_faulty (λ _, sql_notify (notify_step x st))) (spec_ret a))).
  { intros s. apply wp_bind_ret, wp_bind_ret. eapply wp_returns_mono; [|apply exec_update_law].
    intros r s1 Hp. apply wp_ret, wp_ret. by exists r, (psql_view s1). }
  assert (implements (bind (ret tt) (λ _, ret (Ok a))) (spec_ret a)).
  { intros s. by apply wp_bind_ret, wp_ret, wp_ret. }
  unfold notifyCandidate, spec_notify. by destruct st.
Qed.

Lemma update_saga_if_law cid id from msg f :
  implements (update_saga_if cid id from msg f) (spec_update_if psql_faulty cid id from f).
Proof.
  apply implements_bind.
  { eapply implements_stmt_mono; [| | |apply exec_law]; [done|done|].
    intros d (ts & e & He). unfold sql_update_saga_if in He.
    destruct (saga_table cid d); [|done]. destruct (saga_rows cid d !! id); [|done].
    by destruct (saga_state_eqb _ _). }
  intros n s. cbv beta. case_decide; [by apply wp_ret; eexists|by apply wp_ret].
Qed.

(** *** Transactions *)

Lemma wp_get_state s (Q : psqlStore srv → psqlStore srv → Prop) :
  Q s s → wp get_state (returns Q) s.
Proof. done. Qed.

Lemma wp_error {A} msg s (Q : result A → psqlStore srv → Prop) :
  Q (Err (Errorf msg)) s → wp (error msg) (returns Q) s.
Proof. done. Qed.

Lemma ping_law : implements ping (spec_elsewhere psql_faulty).
Proof.
  intros s. unfold wp, ping, bind, ask. cbn -[psql_view].
  destruct (srv_fault srv (ps_n s)) eqn:Hs; cbn -[psql_view]; (split; [done|]); [done|..].
  all: split; [by apply (fault_faulty _ _ Hs)|by eexists].
Qed.

Lemma ping_ok s :
  wp ping (returns (λ r s', (∃ n, s' = mkPsqlStore (ps_db s) (ps_txMap s) (ps_gid s) n) ∧
                            match r with Ok _ => True | Err e => psql_faulty ∧ ∃ msg, e = Errorf msg end)) s.
Proof.
  unfold wp, ping, bind, ask. cbn.
  destruct (srv_fault srv (ps_n s)) eqn:Hs; cbn; (split; [by eexists|]); [done|..].
  all: split; [by apply (fault_faulty _ _ Hs)|by eexists].
Qed.

Lemma begin_law : implements psql_BeginTransaction (spec_begin psql_faulty).
Proof.
  intros s. unfold psql_BeginTransaction. apply wp_bind_ret, wp_get_state.
  destruct (ps_tx s) as [t|] eqn:Ht.
  { apply wp_error. split; [by eexists|]. split; [done|]. right.
    unfold psql_view. rewrite Ht. by eexists. }
  apply wp_or_else. eapply wp_returns_mono; [|apply ping_ok].
  intros [[]|e] s1 [[n ->] He]; 
    [|by destruct He as [? He]; apply wp_ret; split; [exact He|]; split; [|left]].
  apply wp_or_else. eapply wp_returns_mono; [|apply ping_ok].
  intros [[]|e] s2 [[n' ->] He']; 
    [|by destruct He' as [? He']; apply wp_ret; split; [exact He'|]; split; [|left]].
  unfold wp, bind, set_tx, modify. cbn -[psql_view spec_begin].
  rewrite psql_view_put, (psql_view_no_tx _ Ht). done.
Qed.

Lemma commit_law : implements psql_CommitTransaction (spec_commit psql_faulty).
Proof.
  intros s. unfold psql_CommitTransaction. apply wp_bind_ret, wp_get_state.
  destruct (ps_tx s) as [[ws b]|] eqn:Ht.
  2: { apply wp_error. unfold spec_commit. rewrite (psql_view_no_tx _ Ht). simpl.
       split; [by eexists|]. split; [done|]. split; [by right; left|by left]. }
  unfold wp, bind, ask, delete_tx, set_db, modify. cbn -[psql_view replay].
  assert (∀ d n, psql_view (mkPsqlStore (srv := srv) d (delete (ps_gid s) (ps_txMap s)) (ps_gid s) n)
                 = View d None) as Hv by (intros d n; unfold psql_view; by rewrite ps_tx_delete).
  unfold spec_commit. destruct b; [|destruct (tx_view_cases (ps_db s) ws) as [(w & Hr & Htv)|[Hr Htv]]].
  - cbn -[psql_view replay]. rewrite Hv, (psql_view_tx _ _ _ Ht). split; [by eexists|].
    split; [done|]. split; [right; right|by left]. simpl.
    destruct (tx_view_cases (ps_db s) ws) as [(w & _ & ->)|[_ ->]]; by eexists.
  - rewrite Hr. destruct (srv_fault srv (ps_n s)) eqn:Hs; cbn -[psql_view replay];
      rewrite Hv, (psql_view_tx _ _ _ Ht), Htv; simpl; first
      [ by eexists
      | split; [by eexists|]; split; [done|]; split; [left; by apply (fault_faulty _ _ Hs)|];
        first [by left|by right] ].
  - rewrite Hr. destruct (srv_fault srv (ps_n s)); cbn -[psql_view replay];
      rewrite Hv, (psql_view_tx _ _ _ Ht), Htv; simpl;
      (split; [by eexists|]); (split; [done|]); (split; [right; right; by eexists|by left]).
Qed.

Lemma rollback_law : implements psql_RollbackTransaction spec_rollback.
Proof.
  intros s. unfold psql_RollbackTransaction. apply wp_bind_ret, wp_get_state.
  destruct (ps_tx s) as [[ws b]|] eqn:Ht.
  2: { apply wp_error. unfold spec_rollback. rewrite (psql_view_no_tx _ Ht). simpl.
       split; [done|]. split; [done|by eexists]. }
  apply wp_bind_ret. eapply wp_returns_mono; [|apply ping_ok].
  intros r s1 [[n ->] _]. unfold wp, bind, delete_tx, modify. cbn -[psql_view].
  assert (psql_view (mkPsqlStore (srv := srv) (ps_db s) (delete (ps_gid s) (ps_txMap s)) (ps_gid s) n)
                 = View (ps_db s) None) as Hv by (unfold psql_view; by rewrite ps_tx_delete).
  destruct r; cbn -[psql_view]; unfold spec_rollback; rewrite Hv, (psql_view_tx _ _ _ Ht);
    simpl; (split; [done|]); (split; [by eexists|]); [done|by eexists].
Qed.

Lemma health_law : implements psql_HealthCheck (spec_elsewhere psql_faulty).
Proof.
  intros s. unfold psql_HealthCheck. apply wp_or_else.
  eapply wp_returns_mono; [|apply ping_law]. intros [[]|e] s1 [Hv He].
  2: { apply wp_error. split; [done|]. split; [apply He|by eexists]. }
  apply wp_or_else. eapply wp_returns_mono; [|apply ping_law]. intros [[]|e] s2 [Hv2 He2].
  - apply wp_ret. split; [congruence|done].
  - apply wp_error. split; [congruence|]. split; [apply He2|by eexists].
Qed.

Lemma force_mark_law cid id reason :
  implements (psql_ForceMarkSagaCompensated cid id reason)
    (λ v r v', if decide (reason = "") then ∃ msg, spec_err (Errorf msg) v r v'
               else spec_update_if psql_faulty cid id SagaStateEnum_Blocked
                      (row_saga_state SagaStateEnum_Compensated
                         ("[FORCE-MARKED] " +:+ reason)) v r v').
Proof.
  intros s. unfold psql_ForceMarkSagaCompensated. case_decide.
  - apply wp_error. by eexists.
  - apply update_saga_if_law.
Qed.

Lemma template_law id : implements (psql_GetSagaTemplate id)
  (query psql_faulty (λ d t, db_saga_templates d !! id = Some t)
     (λ d e, db_saga_templates d !! id = None ∧ ∃ msg, e = Errorf msg) never).
Proof.
  eapply implements_stmt_mono; [| | |apply (query_row_law _ _
    (λ d e, db_saga_templates d !! id = None ∧ ∃ msg, e = Errorf msg) never)]; try done.
  - intros d t d' [[= H] ->]. done.
  - intros d [= H]. split; [done|by eexists].
Qed.

Lemma step_template_law id : implements (psql_GetSagaStepTemplate id)
  (query psql_faulty (λ d t, db_saga_step_templates d !! id = Some t)
     (λ d e, db_saga_step_templates d !! id = None ∧ ∃ msg, e = Errorf msg) never).
Proof.
  eapply implements_stmt_mono; [| | |apply (query_row_law _ _
    (λ d e, db_saga_step_templates d !! id = None ∧ ∃ msg, e = Errorf msg) never)]; try done.
  - intros d t d' [[= H] ->]. done.
  - intros d [= H]. split; [done|by eexists].
Qed.

Lemma get_saga_law cid id : implements (psql_GetSagaInstance cid id)
  (query psql_faulty (λ d g, sql_select_saga cid id d = Ok g)
     (λ d e, is_Some (saga_table cid d) ∧ sql_select_saga cid id d = Err e)
     (λ d, saga_table cid d = None)).
Proof.
  eapply implements_stmt_mono; [| | |apply (query_row_law _ _
    (λ d e, is_Some (saga_table cid d) ∧ sql_select_saga cid id d = Err e)
    (λ d, saga_table cid d = None))]; try done.
  - intros d g d' [Hg ->]. split; [|done]. unfold sql_select_saga.
    destruct (saga_table cid d); [|done]. by injection Hg as ->.
  - intros d Hn. unfold sql_select_saga.
    destruct (saga_table cid d); [|done]. injection Hn as ->. split; [by eexists|done].
  - intros d e. by destruct (saga_table cid d).
Qed.

Lemma get_step_law cid id : implements (psql_GetSagaStepInstance cid id)
  (query psql_faulty (λ d x, sql_select_step cid id d = Ok x)
     (λ d e, is_Some (step_table cid d) ∧ sql_select_step cid id d = Err e)
     (λ d, step_table cid d = None)).
Proof.
  eapply implements_stmt_mono; [| | |apply (query_row_law _ _
    (λ d e, is_Some (step_table cid d) ∧ sql_select_step cid id d = Err e)
    (λ d, step_table cid d = None))]; try done.
  - intros d g d' [Hg ->]. split; [|done]. unfold sql_select_step.
    destruct (step_table cid d); [|done]. by injection Hg as ->.
  - intros d Hn. unfold sql_select_step.
    destruct (step_table cid d); [|done]. injection Hn as ->. split; [by eexists|done].
  - intros d e. by destruct (step_table cid d).
Qed.

(** The rows of an answer are those of the query, in some order. *)
Definition in_some_order : Prop := ∀ n A (l : list A), srv_order srv n A l ≡ₚ l.
Definition never_cut : Prop := ∀ n k, srv_fault srv n ≠ Cut k.

Lemma poll_law (Ho : in_some_order) cid affinity sagaStates stepStates :
  implements (psql_GetSagaStepInstances cid affinity sagaStates stepStates)
    (query psql_faulty (λ d xs, ∀ x, x ∈ xs ↔
        ∃ k, step_rows cid d !! k = Some x ∧
          poll_selects cid affinity sagaStates stepStates d x = true) no_error
      (λ d, ¬ has_tables cid d)).
Proof.
  apply query_all_law.
  2: { intros n d e. unfold sql_poll. intros He [[t1 Ht1] [t2 Ht2]]. by rewrite Ht1, Ht2 in He. }
  intros n d xs Hq x. unfold sql_poll in Hq.
  destruct (saga_table cid d); [|done]. destruct (step_table cid d); [|done].
  injection Hq as <-. rewrite merge_sort_Permutation, list_elem_of_filter, (Ho n).
  rewrite list_elem_of_fmap. split.
  - intros (Hp & [k y] & -> & Hk%elem_of_map_to_list). by exists k.
  - intros (k & Hk%elem_of_map_to_list & Hp). split; [done|]. by exists (k, x).
Qed.

Lemma list_steps_law (Ho : in_some_order) (Hc : never_cut) cid sid :
  implements (psql_ListSagaStepInstancesBySagaInstanceId cid sid)
    (query psql_faulty (λ d xs, is_Some (step_table cid d) ∧
                    xs ≡ₚ (map_to_list (steps_of cid sid d)).*2) no_error
      (λ d, step_table cid d = None)).
Proof.
  apply query_cut_law; [by right|..].
  2: { intros n d e. unfold sql_select_steps_of. by destruct (step_table cid d). }
  intros n d xs Hq. unfold sql_select_steps_of in Hq.
  destruct (step_table cid d); [|done]. injection Hq as <-. split; [by eexists|].
  apply Ho.
Qed.

Lemma children_law (Ho : in_some_order) (Hc : never_cut) cid sid : implements (psql_GetChildSagaInstances cid sid)
  (query psql_faulty (λ d gs, gs ≡ₚ (map_to_list (children_of cid sid d)).*2) no_error
     (λ d, saga_table cid d = None)).
Proof.
  apply query_cut_law; [by right|..].
  2: { intros n d e. unfold sql_select_children. by destruct (saga_table cid d). }
  intros n d xs Hq. unfold sql_select_children in Hq.
  destruct (saga_table cid d); [|done]. injection Hq as <-.
  by rewrite merge_sort_Permutation, (Ho n).
Qed.

Lemma save_saga_law g : implements (psql_SaveSagaInstanceIdempotently g)
  (spec_SaveSagaInstanceIdempotently psql_faulty g).
Proof.
  apply implements_bind.
  { apply query_all_law; [done|]. intros n d e. unfold sql_saga_key_exists.
    by destruct (saga_table _ d). }
  intros []; [apply implements_ret|].
  apply implements_bind; [apply exec_update_law|]. intros []. apply implements_ret.
Qed.

Lemma save_step_law x : implements (psql_SaveSagaStepInstanceIdempotently x)
  (spec_SaveSagaStepInstanceIdempotently psql_faulty x).
Proof.
  apply implements_bind.
  { apply query_all_law; [done|]. intros n d e. unfold sql_step_key_exists.
    by destruct (step_table _ d). }
  intros []; [apply implements_ret|].
  apply implements_bind; [apply exec_update_law|]. intros []. apply notifyCandidate_law.
Qed.

Lemma update_saga_law g st : implements (psql_UpdateSagaState g st) (spec_UpdateSagaState psql_faulty g st).
Proof. apply implements_bind; [apply exec_update_law|]. intros []. apply implements_ret. Qed.

Lemma update_step_law x st :
  implements (psql_UpdateSagaStepState x st) (spec_UpdateSagaStepState psql_faulty x st).
Proof.
  apply implements_bind; [apply exec_update_law|]. intros []. apply notifyCandidate_law.
Qed.

Lemma templates_law (Ho : in_some_order) : implements psql_ListSagaTemplates
  (query psql_faulty (λ d ts, ts ≡ₚ (map_to_list (db_saga_templates d)).*2) no_error never).
Proof. apply query_all_law; [|done]. intros n d ts [= <-]. apply Ho. Qed.

Lemma clusters_law (Ho : in_some_order) : implements psql_ListClusterIds
  (query psql_faulty (λ d ids, ids ≡ₚ (map_to_list (db_clusters d)).*1) no_error never).
Proof. apply query_all_law; [|done]. intros n d ids [= <-]. apply Ho. Qed.

Lemma update_row_law x f : implements (update_step_row x f) (spec_update_step psql_faulty x f).
Proof. apply exec_update_law. Qed.


Context `{!Delivers srv}.

#[export] Instance psqlStore_StoreLaws : StoreLaws (psqlStore srv) := {|
  vw := psql_view;
  faulty := psql_faulty;
  law_HealthCheck := health_law;
  law_BeginTransaction := begin_law;
  law_CommitTransaction := commit_law;
  law_RollbackTransaction := rollback_law;
  law_GetSagaTemplate := template_law;
  law_GetSagaStepTemplate := step_template_law;
  law_ListSagaTemplates := templates_law delivers_order;
  law_ListClusterIds := clusters_law delivers_order;
  law_SaveSagaInstanceIdempotently := save_saga_law;
  law_UpdateSagaState := update_saga_law;
  law_GetSagaInstance := get_saga_law;
  law_SaveSagaStepInstanceIdempotently := save_step_law;
  law_UpdateSagaStepState := update_step_law;
  law_UpdateSagaStepResult x := update_row_law x (row_step_result (ssi_Result x));
  law_UpdateSagaStepCompensationResult x :=
    update_row_law x (row_step_compensation_result (ssi_CompensationResult x));
  law_UpdateSagaStepInstanceExecutionHistory x :=
    update_row_law x (row_step_history (ssi_ExecutionId x) (ssi_ExecutionHistory x));
  law_GetSagaStepInstance := get_step_law;
  law_GetSagaStepInstances := poll_law delivers_order;
  law_ListSagaStepInstancesBySagaInstanceId := list_steps_law delivers_order delivers_all;
  law_GetChildSagaInstances := children_law delivers_order delivers_all;
  law_TriggerSagaCompensation cid id := update_saga_if_law cid id SagaStateEnum_Committed
    " is not in COMMITTED state, cannot trigger compensation" (row_saga_state_only SagaStateEnum_CompensationRequested);
  law_ForceMarkSagaCompensated := force_mark_law;
|}.
End laws.
