(* ===== verification/Catalogue.v ===== *)
(** * Templates, clusters, annexes: the statements

    The rest of the [trax] schema: the statements of
    [pkg/trax/store_psql.go] on the tables of templates and clusters, on the
    annexes of a cluster, and the listings.  The foreign keys are those of the
    tables that [createClusterTables] and the start-up scripts create; a
    statement that would break one is an error, and the references of a
    database hold after every statement ([well_formed], at the end of the
    file, with the statements of Database.v). *)

From S2P Require Import Prelude GoMonad Model Naming GoStrings Query Database Store PsqlStore.

Definition set_db_clusters v (d : DB) : DB :=
  mkDB v (db_saga_templates d) (db_saga_step_templates d) (db_saga_instances d)
    (db_saga_step_instances d) (db_saga_annexes d) (db_notifications d).
Definition set_db_saga_templates v (d : DB) : DB :=
  mkDB (db_clusters d) v (db_saga_step_templates d) (db_saga_instances d)
    (db_saga_step_instances d) (db_saga_annexes d) (db_notifications d).
Definition set_db_saga_step_templates v (d : DB) : DB :=
  mkDB (db_clusters d) (db_saga_templates d) v (db_saga_instances d)
    (db_saga_step_instances d) (db_saga_annexes d) (db_notifications d).
Definition set_db_saga_annexes v (d : DB) : DB :=
  mkDB (db_clusters d) (db_saga_templates d) (db_saga_step_templates d) (db_saga_instances d)
    (db_saga_step_instances d) v (db_notifications d).

Definition foreign_key {A} : result A := Err (Errorf "violates foreign key constraint").

(** A change of one row by its key, with the number of rows it changed. *)
Definition touch {A} (set : gmap string A → DB → DB) (m : gmap string A) (id : string)
    (f : option A → option A) (d : DB) : DB * nat :=
  match m !! id with
  | Some _ => (set (partial_alter f id m) d, 1)
  | None => (d, 0)
  end.

(** ** Who refers to a template *)

(** Some row of some table. *)
Definition some_row {A} (P : A → bool) (tables : gmap string (gmap string A)) : bool :=
  existsb (λ t, existsb P (map_to_list t).*2) (map_to_list tables).*2.

Definition template_in_use (tid : string) (d : DB) : bool :=
  existsb (λ t, String.eqb (sst_SagaTemplateId t) tid) (map_to_list (db_saga_step_templates d)).*2 ||
  some_row (λ g, String.eqb (si_SagaTemplateId g) tid) (db_saga_instances d) ||
  some_row (λ x, String.eqb (ssi_SagaTemplateId x) tid) (db_saga_step_instances d).

Definition step_template_in_use (tid : string) (d : DB) : bool :=
  some_row (λ x, String.eqb (ssi_SagaStepTemplateId x) tid) (db_saga_step_instances d).

(** ** Templates *)

Definition template_event (fields : list (string * string)) : StoreNotification :=
  mkStoreNotification "trax_template_events" (json_text fields).

Definition sql_insert_template (t : SagaTemplate) (d : DB) : result DB :=
  match db_saga_templates d !! st_TemplateId t with
  | Some _ => duplicate_key
  | None => Ok (set_db_saga_templates (<[st_TemplateId t := t]> (db_saga_templates d)) d)
  end.

Definition sql_update_template (t : SagaTemplate) (d : DB) : result (DB * nat) :=
  Ok (touch set_db_saga_templates (db_saga_templates d) (st_TemplateId t) (λ _, Some t) d).

(** [DELETE ... WHERE saga_template_id = $1] *)
Definition sql_delete_step_templates_of (tid : string) (d : DB) : result (DB * nat) :=
  let rows := filter (λ kt, sst_SagaTemplateId kt.2 = tid) (db_saga_step_templates d) in
  if existsb (λ id, step_template_in_use id d) (map_to_list rows).*1 then foreign_key
  else Ok (set_db_saga_step_templates
             (filter (λ kt, sst_SagaTemplateId kt.2 ≠ tid) (db_saga_step_templates d)) d,
           size rows).

Definition sql_delete_template (tid : string) (d : DB) : result (DB * nat) :=
  if bool_decide (is_Some (db_saga_templates d !! tid)) && template_in_use tid d then foreign_key
  else Ok (touch set_db_saga_templates (db_saga_templates d) tid (λ _, None) d).

Definition sql_insert_step_template (t : SagaStepTemplate) (d : DB) : result DB :=
  match db_saga_step_templates d !! sst_TemplateId t,
        db_saga_templates d !! sst_SagaTemplateId t with
  | Some _, _ => duplicate_key
  | None, None => foreign_key
  | None, Some _ =>
      Ok (set_db_saga_step_templates (<[sst_TemplateId t := t]> (db_saga_step_templates d)) d)
  end.

Definition sql_update_step_template (t : SagaStepTemplate) (d : DB) : result (DB * nat) :=
  match db_saga_step_templates d !! sst_TemplateId t,
        db_saga_templates d !! sst_SagaTemplateId t with
  | Some _, None => foreign_key
  | _, _ =>
      Ok (touch set_db_saga_step_templates (db_saga_step_templates d) (sst_TemplateId t)
            (λ _, Some t) d)
  end.

Definition sql_delete_step_template (tid : string) (d : DB) : result (DB * nat) :=
  if bool_decide (is_Some (db_saga_step_templates d !! tid)) && step_template_in_use tid d
  then foreign_key
  else Ok (touch set_db_saga_step_templates (db_saga_step_templates d) tid (λ _, None) d).

(** ** Clusters: no table refers to them *)

(** [ON CONFLICT (id) DO NOTHING] *)
Definition sql_insert_cluster (c : Cluster) (d : DB) : result (DB * nat) :=
  match db_clusters d !! cl_Id c with
  | Some _ => Ok (d, 0)
  | None => Ok (set_db_clusters (<[cl_Id c := c]> (db_clusters d)) d, 1)
  end.

Definition sql_update_cluster (c : Cluster) (d : DB) : result (DB * nat) :=
  Ok (touch set_db_clusters (db_clusters d) (cl_Id c) (λ _, Some c) d).

Definition sql_delete_cluster (id : string) (d : DB) : result (DB * nat) :=
  Ok (touch set_db_clusters (db_clusters d) id (λ _, None) d).

(** [CREATE TABLE IF NOT EXISTS]; the tables that refer to another one of the
    cluster need it to be there. *)
Definition create_if_absent {A} (name : string) (tables : gmap string (gmap string A)) :
    gmap string (gmap string A) :=
  match tables !! name with Some _ => tables | None => <[name := ∅]> tables end.

Definition sql_create_saga_table (cid : string) (d : DB) : result DB :=
  Ok (set_db_saga_instances
        (create_if_absent (getSagaInstancesTableName cid) (db_saga_instances d)) d).

Definition sql_create_annex_table (cid : string) (d : DB) : result DB :=
  match saga_table cid d with
  | None => undefined_table
  | Some _ =>
      Ok (set_db_saga_annexes
            (create_if_absent (getSagaAnnexesTableName cid) (db_saga_annexes d)) d)
  end.

Definition sql_create_step_table (cid : string) (d : DB) : result DB :=
  match saga_table cid d with
  | None => undefined_table
  | Some _ =>
      Ok (set_db_saga_step_instances
            (create_if_absent (getSagaStepInstancesTableName cid) (db_saga_step_instances d)) d)
  end.

(** ** Annexes *)

Definition annex_table (cid : string) (d : DB) : option (gmap string SagaAnnex) :=
  db_saga_annexes d !! getSagaAnnexesTableName cid.
Definition annex_rows (cid : string) (d : DB) : gmap string SagaAnnex :=
  set_an_ClusterId cid <$> default ∅ (annex_table cid d).

Definition annexes_of (cid sid : string) (d : DB) : gmap string SagaAnnex :=
  filter (λ kx, an_SagaInstanceId kx.2 = sid) (annex_rows cid d).

(** [INSERT ... ON CONFLICT (iid) DO UPDATE]: the time of creation of a row
    that is there is kept. *)
Definition sql_upsert_annex (ts : Z) (a : SagaAnnex) (d : DB) : result DB :=
  match annex_table (an_ClusterId a) d with
  | None => undefined_table
  | Some t =>
      match saga_rows (an_ClusterId a) d !! an_SagaInstanceId a with
      | None => foreign_key
      | Some _ =>
          let created := match t !! an_Iid a with Some a' => an_CreatedAt a' | None => ts end in
          Ok (set_db_saga_annexes
                (<[getSagaAnnexesTableName (an_ClusterId a) :=
                     <[an_Iid a := set_an_CreatedAt created (set_an_UpdatedAt ts a)]> t]>
                   (db_saga_annexes d)) d)
      end
  end.

(** [annex_iids = (COALESCE(annex_iids, '[]') - $1) || to_jsonb($1)] *)
Definition attach_iid (iid : string) (ts : Z) (g : SagaInstance) : SagaInstance :=
  set_si_UpdatedAt ts
    (set_si_AnnexIids ((λ iids, filter (λ i, i ≠ iid) iids ++ [iid]) <$> si_AnnexIids g) g).

(** A saga that was saved with nil has the JSON [null] in the column, which
    [COALESCE] keeps: it is not the [NULL] of SQL.  An element cannot be
    deleted from it. *)

Definition sql_attach_annex (cid sid iid : string) (ts : Z) (d : DB) : result (DB * nat) :=
  match saga_table cid d with
  | None => undefined_table
  | Some _ =>
      match saga_rows cid d !! sid with
      | Some g =>
          match si_AnnexIids g with
          | Some _ => Ok (upd_saga cid sid (attach_iid iid ts) d, 1)
          | None => Err (Errorf "cannot delete from scalar")
          end
      | None => Ok (d, 0)
      end
  end.

Definition older_annex (x y : SagaAnnex) : Prop := (an_CreatedAt x ≤ an_CreatedAt y)%Z.

#[export] Instance older_annex_dec x y : Decision (older_annex x y).
Proof. unfold older_annex. apply _. Defined.

(** The listing has every column but the bytes. *)
Definition sql_select_annexes (order : ∀ A, list A → list A) (cid sid : string) (d : DB) :
    result (list SagaAnnex) :=
  match annex_table cid d with
  | None => undefined_table
  | Some _ =>
      Ok (set_an_ContentData [] <$>
            merge_sort older_annex (order _ (map_to_list (annexes_of cid sid d)).*2))
  end.

(** ** Well-formed databases

    Every row is under its key, and what it refers to is there: a step
    template has its saga template, a saga its template, a step its saga and
    its templates, an annex its saga. *)

Record well_formed (d : DB) : Prop := {
  wf_template : ∀ id t, db_saga_templates d !! id = Some t → st_TemplateId t = id;
  wf_step_template : ∀ id t, db_saga_step_templates d !! id = Some t →
    sst_TemplateId t = id ∧ is_Some (db_saga_templates d !! sst_SagaTemplateId t);
  wf_cluster : ∀ id c, db_clusters d !! id = Some c → cl_Id c = id;
  wf_saga : ∀ cid id g, saga_rows cid d !! id = Some g →
    si_InstanceId g = id ∧ is_Some (db_saga_templates d !! si_SagaTemplateId g);
  wf_step : ∀ cid id x, step_rows cid d !! id = Some x →
    ssi_InstanceId x = id ∧ is_Some (saga_rows cid d !! ssi_SagaInstanceId x) ∧
    is_Some (db_saga_templates d !! ssi_SagaTemplateId x) ∧
    is_Some (db_saga_step_templates d !! ssi_SagaStepTemplateId x);
  wf_annex : ∀ cid id a, annex_rows cid d !! id = Some a →
    an_Iid a = id ∧ is_Some (saga_rows cid d !! an_SagaInstanceId a);
}.

(** A statement keeps the database well-formed. *)
Definition sound {A} (f : DB → result (DB * A)) : Prop :=
  ∀ d d' a, well_formed d → f d = Ok (d', a) → well_formed d'.
Definition sound_update (f : DB → result DB) : Prop :=
  ∀ d d', well_formed d → f d = Ok d' → well_formed d'.

(** A function on rows that the updates apply: it leaves alone what other
    rows refer to and what refers to other rows. *)
Class saga_refs (f : SagaInstance → SagaInstance) : Prop := {
  gr_update :: saga_update f;
  gr_template : ∀ g, si_SagaTemplateId (f g) = si_SagaTemplateId g;
}.
Class step_refs (f : SagaStepInstance → SagaStepInstance) : Prop := {
  sr_update :: step_update f;
  sr_template : ∀ x, ssi_SagaTemplateId (f x) = ssi_SagaTemplateId x;
  sr_step_template : ∀ x, ssi_SagaStepTemplateId (f x) = ssi_SagaStepTemplateId x;
}.

Section row_refs.
#[local] Ltac row := split; [apply _|intros; reflexivity..].

#[export] Instance row_saga_state_refs s r ts : saga_refs (row_saga_state s r ts).
Proof. row. Qed.
#[export] Instance row_saga_state_only_refs s ts : saga_refs (row_saga_state_only s ts).
Proof. row. Qed.
#[export] Instance attach_iid_refs iid ts : saga_refs (attach_iid iid ts).
Proof. split; [split|]; intros; reflexivity. Qed.
#[export] Instance row_step_state_refs s ts : step_refs (row_step_state s ts).
Proof. row. Qed.
#[export] Instance row_step_result_refs v ts : step_refs (row_step_result v ts).
Proof. row. Qed.
#[export] Instance row_step_compensation_result_refs v ts :
  step_refs (row_step_compensation_result v ts).
Proof. row. Qed.
#[export] Instance row_step_history_refs e h ts : step_refs (row_step_history e h ts).
Proof. row. Qed.
End row_refs.

Section well_formedness.
Implicit Types (d : DB) (cid id : string).

Lemma touch_set {A} set (m : gmap string A) id f d d' n :
  touch set m id f d = (d', n) →
  d' = d ∧ n = 0 ∧ m !! id = None ∨ ∃ a, m !! id = Some a ∧ n = 1 ∧ d' = set (partial_alter f id m) d.
Proof. unfold touch. destruct (m !! id) eqn:Hm; intros [= <- <-]; [right; eauto|by left]. Qed.

Lemma some_row_false {A} P (tables : gmap string (gmap string A)) name t id x :
  some_row P tables = false → tables !! name = Some t → t !! id = Some x → P x = false.
Proof.
  intros Hs Ht Hx. destruct (P x) eqn:HP; [|done]. rewrite <-Hs. symmetry.
  apply existsb_exists. exists t. split.
  { apply list_elem_of_In, list_elem_of_fmap. exists (name, t). split; [done|].
    by apply elem_of_map_to_list. }
  apply existsb_exists. exists x. split; [|done].
  apply list_elem_of_In, list_elem_of_fmap. exists (id, x). split; [done|].
  by apply elem_of_map_to_list.
Qed.

Lemma saga_rows_some cid id d g :
  saga_rows cid d !! id = Some g →
  ∃ t g', db_saga_instances d !! getSagaInstancesTableName cid = Some t ∧ t !! id = Some g' ∧
    g = set_si_ClusterId cid g'.
Proof.
  unfold saga_rows, saga_table. destruct (db_saga_instances d !! _) as [t|]; simpl.
  - rewrite lookup_fmap. intros (g' & Hg & ->)%fmap_Some. eauto.
  - by rewrite fmap_empty, lookup_empty.
Qed.

Lemma step_rows_some cid id d x :
  step_rows cid d !! id = Some x →
  ∃ t x', db_saga_step_instances d !! getSagaStepInstancesTableName cid = Some t ∧ t !! id = Some x' ∧
    x = set_ssi_ClusterId cid x'.
Proof.
  unfold step_rows, step_table. destruct (db_saga_step_instances d !! _) as [t|]; simpl.
  - rewrite lookup_fmap. intros (g' & Hg & ->)%fmap_Some. eauto.
  - by rewrite fmap_empty, lookup_empty.
Qed.

Lemma template_not_in_use tid d :
  template_in_use tid d = false →
  (∀ id t, db_saga_step_templates d !! id = Some t → sst_SagaTemplateId t ≠ tid) ∧
  (∀ cid id g, saga_rows cid d !! id = Some g → si_SagaTemplateId g ≠ tid) ∧
  (∀ cid id x, step_rows cid d !! id = Some x → ssi_SagaTemplateId x ≠ tid).
Proof.
  intros [[Ht Hg]%orb_false_iff Hx]%orb_false_iff. repeat split.
  - intros id t Hid <-. apply not_true_iff_false in Ht. apply Ht, existsb_exists. exists t.
    split; [|apply String.eqb_refl]. apply list_elem_of_In, list_elem_of_fmap.
    exists (id, t). by rewrite elem_of_map_to_list.
  - intros cid id g (t & g' & Htab & Hid & ->)%saga_rows_some Heq.
    pose proof (some_row_false _ _ _ _ _ _ Hg Htab Hid) as Hn%String.eqb_neq. done.
  - intros cid id g (t & g' & Htab & Hid & ->)%step_rows_some Heq.
    pose proof (some_row_false _ _ _ _ _ _ Hx Htab Hid) as Hn%String.eqb_neq. done.
Qed.

Lemma step_template_not_in_use tid d :
  step_template_in_use tid d = false →
  ∀ cid id x, step_rows cid d !! id = Some x → ssi_SagaStepTemplateId x ≠ tid.
Proof.
  intros Hx cid id g (t & g' & Htab & Hid & ->)%step_rows_some Heq.
  pose proof (some_row_false _ _ _ _ _ _ Hx Htab Hid) as Hn%String.eqb_neq. done.
Qed.

(** *** Sagas, steps *)

Lemma wf_new_saga ts g d d' :
  well_formed d → sql_insert_saga ts g d = Ok d' → well_formed d'.
Proof.
  intros W. unfold sql_insert_saga.
  destruct (saga_table (si_ClusterId g) d) as [t|] eqn:Ht; [|done].
  destruct (_ || _) eqn:Hg; [done|]. apply insert_checked in Hg as [Hg _].
  destruct (db_saga_templates d !! si_SagaTemplateId g) eqn:Htp; [|done]. intros [= <-].
  set (d' := set_db_saga_instances _ _).
  assert (∀ cid, ∃ X, saga_rows cid d' = X ∪ saga_rows cid d ∧
    ∀ id h, X !! id = Some h → si_InstanceId h = id ∧ si_SagaTemplateId h = si_SagaTemplateId g)
    as Hrows.
  { intros cid. unfold saga_rows at 1, saga_table at 1, d'. simpl.
    destruct (decide (getSagaInstancesTableName (si_ClusterId g) = getSagaInstancesTableName cid)) as [Hc|Hc].
    - rewrite Hc, lookup_insert_eq. simpl. rewrite fmap_insert.
      eexists {[si_InstanceId g := _]}. split.
      + unfold saga_rows, saga_table in *. rewrite <-Hc, Ht. simpl. apply insert_union_singleton_l.
      + intros id h [<- <-]%lookup_singleton_Some. done.
    - rewrite lookup_insert_ne by done. exists ∅. split; [by rewrite (left_id_L ∅ (∪))|].
      intros id h. by rewrite lookup_empty. }
  assert (∀ cid id, is_Some (saga_rows cid d !! id) → is_Some (saga_rows cid d' !! id)) as Hmono.
  { intros cid id Hs. destruct (Hrows cid) as (X & -> & _). apply lookup_union_is_Some. by right. }
  destruct W as [Wt Ws Wc Wg Wx Wa]. split; try done.
  - intros cid id h Hh. destruct (Hrows cid) as (X & HX & HXs). rewrite HX in Hh.
    apply lookup_union_Some_raw in Hh as [Hh|[_ Hh]]; [|by eapply Wg].
    destruct (HXs _ _ Hh) as [-> ->]. split; [done|]. simpl. by eexists.
  - intros cid id x Hx. destruct (Wx cid id x Hx) as (? & ? & ? & ?). eauto.
  - intros cid id a Ha. destruct (Wa cid id a Ha) as (? & ?). eauto.
Qed.

Lemma wf_new_step ts x d d' :
  well_formed d → sql_insert_step ts x d = Ok d' → well_formed d'.
Proof.
  intros W. unfold sql_insert_step.
  destruct (step_table (ssi_ClusterId x) d) as [t|] eqn:Ht; [|done].
  destruct (_ || _) eqn:Hx; [done|]. apply insert_checked in Hx as [Hx _].
  destruct (saga_rows _ d !! _) eqn:Hg; [|done].
  destruct (db_saga_templates d !! _) eqn:Htp; [|done].
  destruct (db_saga_step_templates d !! _) eqn:Hstp; [|done]. intros [= <-].
  destruct W as [Wt Ws Wc Wg Wx Wa]. split; try done.
  intros cid id y Hy.
  destruct (decide (ssi_ClusterId x = cid)) as [<-|Hc].
  - unfold step_rows, step_table in Hy. simpl in Hy. rewrite lookup_insert_eq in Hy. simpl in Hy.
    rewrite fmap_insert in Hy.
    apply lookup_insert_Some in Hy as [[<- <-]|[_ Hy]]; [repeat split; simpl; eauto|].
    apply (Wx (ssi_ClusterId x)). unfold step_rows, step_table in *. by rewrite Ht.
  - apply (Wx cid). unfold step_rows, step_table in *. simpl in Hy.
    rewrite lookup_insert_ne in Hy; [done|]. intros Heq. by simplify_eq.
Qed.

Lemma saga_rows_upd_cases cid cid' id f d :
  saga_update f →
  saga_rows cid (upd_saga cid' id f d) = if decide (cid = cid') then alter f id (saga_rows cid d)
                                         else saga_rows cid d.
Proof.
  intros Hf. case_decide as Hc; [subst; by apply saga_rows_upd|by apply saga_rows_upd_ne].
Qed.

Lemma step_rows_upd_cases cid cid' id f d :
  step_update f →
  step_rows cid (upd_step cid' id f d) = if decide (cid = cid') then alter f id (step_rows cid d)
                                         else step_rows cid d.
Proof.
  intros Hf. case_decide as Hc; [subst; by apply step_rows_upd|by apply step_rows_upd_ne].
Qed.

Lemma wf_upd_saga cid id f d : saga_refs f → well_formed d → well_formed (upd_saga cid id f d).
Proof.
  intros Hf W. pose proof gr_update as Hu.
  assert (∀ c i, is_Some (saga_rows c d !! i) → is_Some (saga_rows c (upd_saga cid id f d) !! i))
    as Hmono.
  { intros c i Hi. rewrite saga_rows_upd_cases by done. case_decide; [|done].
    rewrite lookup_alter. case_decide; [by apply fmap_is_Some; subst|done]. }
  destruct W as [Wt Ws Wc Wg Wx Wa]. split; try done.
  - intros c i g. rewrite saga_rows_upd_cases by done. case_decide; [|by apply Wg].
    intros [(-> & g' & Hg & ->)|(_ & Hg)]%lookup_alter_Some; [|by eapply Wg].
    rewrite gu_id, gr_template by done. by eapply Wg.
  - intros c i x Hx. destruct (Wx c i x Hx) as (? & ? & ? & ?). eauto.
  - intros c i a Ha. destruct (Wa c i a Ha) as (? & ?). eauto.
Qed.

Lemma wf_upd_step cid id f d : step_refs f → well_formed d → well_formed (upd_step cid id f d).
Proof.
  intros Hf W. pose proof sr_update as Hu. destruct W as [Wt Ws Wc Wg Wx Wa]. split; try done.
  intros c i x. rewrite step_rows_upd_cases by done. case_decide; [|by apply Wx].
  intros [(-> & x' & Hx & ->)|(_ & Hx)]%lookup_alter_Some; [|by eapply Wx].
  rewrite su_id, su_saga, sr_template, sr_step_template by done. by eapply Wx.
Qed.

Lemma sound_update_saga cid id f : saga_refs f → sound_update (sql_update_saga cid id f).
Proof.
  intros Hf d d' W. unfold sql_update_saga. destruct (saga_table cid d); [|done].
  intros [= <-]. by apply wf_upd_saga.
Qed.

Lemma sound_update_step cid id f : step_refs f → sound_update (sql_update_step cid id f).
Proof.
  intros Hf d d' W. unfold sql_update_step. destruct (step_table cid d); [|done].
  intros [= <-]. by apply wf_upd_step.
Qed.

Lemma sound_update_saga_if cid id from f : saga_refs f → sound (sql_update_saga_if cid id from f).
Proof.
  intros Hf d d' n W. unfold sql_update_saga_if. destruct (saga_table cid d) as [t|]; [|done].
  destruct (saga_rows cid d !! id) as [g|]; [|by intros [= <- _]].
  destruct (saga_state_eqb _ _); intros [= <- _]; [by apply wf_upd_saga|done].
Qed.

Lemma sound_notify n : sound_update (sql_notify n).
Proof. intros d d' [] [= <-]. by split. Qed.

Lemma sound_attach cid sid iid ts : sound (sql_attach_annex cid sid iid ts).
Proof.
  intros d d' n W. unfold sql_attach_annex. destruct (saga_table cid d); [|done].
  destruct (saga_rows cid d !! sid) as [h|]; [|by intros [= <- _]].
  destruct (si_AnnexIids h); intros [= <- _]. apply wf_upd_saga; [apply _|done].
Qed.

Lemma sound_upsert_annex ts a : sound_update (sql_upsert_annex ts a).
Proof.
  intros d d' W. unfold sql_upsert_annex.
  destruct (annex_table (an_ClusterId a) d) as [t|] eqn:Ht; [|done].
  destruct (saga_rows _ d !! _) eqn:Hg; [|done]. intros [= <-].
  destruct W as [Wt Ws Wc Wg Wx Wa]. split; try done.
  intros cid id b Hb. destruct (decide (an_ClusterId a = cid)) as [<-|Hc].
  - unfold annex_rows, annex_table in Hb. simpl in Hb. rewrite lookup_insert_eq in Hb. simpl in Hb.
    rewrite fmap_insert in Hb.
    apply lookup_insert_Some in Hb as [[<- <-]|[_ Hb]]; [split; simpl; eauto|].
    apply (Wa (an_ClusterId a)). unfold annex_rows, annex_table in *. by rewrite Ht.
  - apply (Wa cid). unfold annex_rows, annex_table in *. simpl in Hb.
    rewrite lookup_insert_ne in Hb; [done|]. intros Heq. by simplify_eq.
Qed.

(** *** Templates and clusters *)

(** The templates that other rows refer to are still there. *)
Lemma wf_templates m d :
  well_formed d → (∀ id t, m !! id = Some t → st_TemplateId t = id) →
  (∀ id t, db_saga_step_templates d !! id = Some t → is_Some (m !! sst_SagaTemplateId t)) →
  (∀ cid id g, saga_rows cid d !! id = Some g → is_Some (m !! si_SagaTemplateId g)) →
  (∀ cid id x, step_rows cid d !! id = Some x → is_Some (m !! ssi_SagaTemplateId x)) →
  well_formed (set_db_saga_templates m d).
Proof.
  intros [Wt Ws Wc Wg Wx Wa] Hm H1 H2 H3. split; try done.
  - intros id t Ht. split; [by eapply Ws|by eapply H1].
  - intros cid id g Hg. split; [by eapply Wg|by eapply H2].
  - intros cid id x Hx. destruct (Wx cid id x Hx) as (? & ? & ? & ?).
    repeat split; [done..|by eapply H3|done].
Qed.

Lemma wf_templates_superset m d :
  well_formed d → (∀ id t, m !! id = Some t → st_TemplateId t = id) →
  (∀ id, is_Some (db_saga_templates d !! id) → is_Some (m !! id)) →
  well_formed (set_db_saga_templates m d).
Proof.
  intros W Hm Hs. destruct (W) as [Wt Ws Wc Wg Wx Wa]. apply wf_templates; try done.
  - intros id t Ht. by apply Hs, (Ws id t).
  - intros cid id g Hg. by apply Hs, (Wg cid id g).
  - intros cid id x Hx. by apply Hs, (Wx cid id x).
Qed.

Lemma wf_step_templates m d :
  well_formed d →
  (∀ id t, m !! id = Some t → sst_TemplateId t = id ∧ is_Some (db_saga_templates d !! sst_SagaTemplateId t)) →
  (∀ cid id x, step_rows cid d !! id = Some x → is_Some (m !! ssi_SagaStepTemplateId x)) →
  well_formed (set_db_saga_step_templates m d).
Proof.
  intros [Wt Ws Wc Wg Wx Wa] Hm Hx. split; try done.
  intros cid id x Hid. destruct (Wx cid id x Hid) as (? & ? & ? & ?).
  repeat split; [done..|by eapply Hx].
Qed.

Lemma sound_insert_template t : sound_update (sql_insert_template t).
Proof.
  intros d d' W. unfold sql_insert_template.
  destruct (db_saga_templates d !! st_TemplateId t) eqn:Ht; [done|]. intros [= <-].
  apply wf_templates_superset; [done|..].
  - intros id u [[<- <-]|[_ Hu]]%lookup_insert_Some; [done|by apply (wf_template d W)].
  - intros id Hid. apply lookup_insert_is_Some. destruct (decide (st_TemplateId t = id)); auto.
Qed.

Lemma sound_update_template t : sound (sql_update_template t).
Proof.
  intros d d' n W [= [(-> & _)|(u & Hu & _ & ->)]%touch_set]; [done|].
  apply wf_templates_superset; [done|..].
  - intros id v. rewrite lookup_partial_alter. case_decide as Hi; [|by apply (wf_template d W)].
    by intros [= <-].
  - intros id Hid. rewrite lookup_partial_alter. by case_decide.
Qed.

Lemma sound_delete_template tid : sound (sql_delete_template tid).
Proof.
  intros d d' n W. unfold sql_delete_template. destruct (bool_decide _ && _) eqn:Huse; [done|].
  intros [= [(-> & _)|(u & Hu & _ & ->)]%touch_set]; [done|].
  apply andb_false_iff in Huse as [Huse|Huse].
  { apply bool_decide_eq_false in Huse. destruct Huse. by eexists. }
  apply template_not_in_use in Huse as (H1 & H2 & H3).
  assert (∀ id, id ≠ tid → partial_alter (λ _, None) tid (db_saga_templates d) !! id =
    db_saga_templates d !! id) as Hne by (intros id Hid; by rewrite lookup_partial_alter_ne).
  apply wf_templates; [done|..].
  - intros id t. rewrite lookup_partial_alter. case_decide; [done|]. by apply (wf_template d W).
  - intros id t Ht. rewrite Hne by (by eapply H1). by eapply (wf_step_template d W).
  - intros cid id g Hg. rewrite Hne by (by eapply H2). by eapply (wf_saga d W).
  - intros cid id x Hx. rewrite Hne by (by eapply H3). by eapply (wf_step d W).
Qed.

Lemma sound_insert_step_template t : sound_update (sql_insert_step_template t).
Proof.
  intros d d' W. unfold sql_insert_step_template.
  destruct (db_saga_step_templates d !! sst_TemplateId t) eqn:Ht; [done|].
  destruct (db_saga_templates d !! _) eqn:Htp; [|done]. intros [= <-].
  apply wf_step_templates; [done|..].
  - intros id u [[<- <-]|[_ Hu]]%lookup_insert_Some; [by rewrite Htp|by apply (wf_step_template d W)].
  - intros cid id x Hx. apply lookup_insert_is_Some. right. split; [|by eapply (wf_step d W)].
    intros Heq. destruct (wf_step d W cid id x Hx) as (_ & _ & _ & [u Hu]). congruence.
Qed.

Lemma sound_update_step_template t : sound (sql_update_step_template t).
Proof.
  intros d d' n W. unfold sql_update_step_template.
  destruct (db_saga_step_templates d !! sst_TemplateId t) as [u|] eqn:Hu,
    (db_saga_templates d !! sst_SagaTemplateId t) as [v|] eqn:Hv; try done;
    intros [= [(-> & _)|(w & Hw & _ & ->)]%touch_set]; try done; try congruence.
  apply wf_step_templates; [done|..].
  - intros id y. rewrite lookup_partial_alter. case_decide as Hi; [|by apply (wf_step_template d W)].
    intros [= <-]. by rewrite Hv.
  - intros cid id x Hx. rewrite lookup_partial_alter. case_decide; [done|]. by eapply (wf_step d W).
Qed.

Lemma sound_delete_step_template tid : sound (sql_delete_step_template tid).
Proof.
  intros d d' n W. unfold sql_delete_step_template. destruct (bool_decide _ && _) eqn:Huse; [done|].
  intros [= [(-> & _)|(u & Hu & _ & ->)]%touch_set]; [done|].
  apply andb_false_iff in Huse as [Huse|Huse].
  { apply bool_decide_eq_false in Huse. destruct Huse. by eexists. }
  apply wf_step_templates; [done|..].
  - intros id t. rewrite lookup_partial_alter. case_decide; [done|]. by apply (wf_step_template d W).
  - intros cid id x Hx. rewrite lookup_partial_alter_ne; [by eapply (wf_step d W)|].
    intros Heq. by eapply step_template_not_in_use.
Qed.

Lemma sound_delete_step_templates_of tid : sound (sql_delete_step_templates_of tid).
Proof.
  intros d d' n W. unfold sql_delete_step_templates_of. set (rows := filter _ _).
  destruct (existsb _ _) eqn:Huse; [done|]. intros [= <- _].
  apply wf_step_templates; [done|..].
  - intros id t [Ht _]%map_lookup_filter_Some. by apply (wf_step_template d W).
  - intros cid id x Hx. destruct (wf_step d W cid id x Hx) as (_ & _ & _ & [u Hu]).
    exists u. apply map_lookup_filter_Some. split; [done|]. intros Hut. simpl in Hut.
    assert (step_template_in_use (ssi_SagaStepTemplateId x) d = false) as Hno.
    { apply not_true_iff_false. intros Hyes. apply not_true_iff_false in Huse. apply Huse.
      apply existsb_exists. exists (ssi_SagaStepTemplateId x). split; [|done].
      apply list_elem_of_In, list_elem_of_fmap. exists (ssi_SagaStepTemplateId x, u). split; [done|].
      apply elem_of_map_to_list, map_lookup_filter_Some. done. }
    by eapply step_template_not_in_use.
Qed.

Lemma wf_clusters m d :
  well_formed d → (∀ id c, m !! id = Some c → cl_Id c = id) → well_formed (set_db_clusters m d).
Proof. intros [] Hm. by split. Qed.

Lemma sound_insert_cluster c : sound (sql_insert_cluster c).
Proof.
  intros d d' n W. unfold sql_insert_cluster. destruct (db_clusters d !! cl_Id c); intros [= <- _]; [done|].
  apply wf_clusters; [done|].
  intros id u [[<- <-]|[_ Hu]]%lookup_insert_Some; [done|by apply (wf_cluster d W)].
Qed.

Lemma sound_update_cluster c : sound (sql_update_cluster c).
Proof.
  intros d d' n W [= [(-> & _)|(u & Hu & _ & ->)]%touch_set]; [done|]. apply wf_clusters; [done|].
  intros id v. rewrite lookup_partial_alter. case_decide; [by intros [= <-]|by apply (wf_cluster d W)].
Qed.

Lemma sound_delete_cluster id : sound (sql_delete_cluster id).
Proof.
  intros d d' n W [= [(-> & _)|(u & Hu & _ & ->)]%touch_set]; [done|]. apply wf_clusters; [done|].
  intros i v. rewrite lookup_partial_alter. case_decide; [done|by apply (wf_cluster d W)].
Qed.

(** *** New tables are empty *)

Lemma default_create {A} name n' (tables : gmap string (gmap string A)) :
  default ∅ (create_if_absent name tables !! n') = default ∅ (tables !! n').
Proof.
  unfold create_if_absent. destruct (tables !! name) eqn:Hn; [done|].
  destruct (decide (name = n')) as [<-|Hne]; [by rewrite lookup_insert_eq, Hn|].
  by rewrite lookup_insert_ne.
Qed.

Lemma wf_same_rows d d' :
  (∀ cid, saga_rows cid d' = saga_rows cid d) → (∀ cid, step_rows cid d' = step_rows cid d) →
  (∀ cid, annex_rows cid d' = annex_rows cid d) → db_clusters d' = db_clusters d →
  db_saga_templates d' = db_saga_templates d →
  db_saga_step_templates d' = db_saga_step_templates d → well_formed d → well_formed d'.
Proof.
  intros Hg Hx Ha Hc Ht Hs [Wt Ws Wc Wg Wx Wa].
  split; intros *; rewrite ?Hg, ?Hx, ?Ha, ?Hc, ?Ht, ?Hs; eauto.
Qed.

Lemma sound_create_saga_table cid : sound_update (sql_create_saga_table cid).
Proof.
  intros d d' W [= <-]. revert W. apply wf_same_rows; try done.
  intros c. unfold saga_rows, saga_table. simpl. by rewrite default_create.
Qed.

Lemma sound_create_annex_table cid : sound_update (sql_create_annex_table cid).
Proof.
  intros d d' W. unfold sql_create_annex_table. destruct (saga_table cid d); [|done]. intros [= <-].
  revert W. apply wf_same_rows; try done.
  intros c. unfold annex_rows, annex_table. simpl. by rewrite default_create.
Qed.

Lemma sound_create_step_table cid : sound_update (sql_create_step_table cid).
Proof.
  intros d d' W. unfold sql_create_step_table. destruct (saga_table cid d); [|done]. intros [= <-].
  revert W. apply wf_same_rows; try done.
  intros c. unfold step_rows, step_table. simpl. by rewrite default_create.
Qed.
End well_formedness.

(** ** The PostgreSQL store: templates, clusters, annexes, listings

    The operations of [pkg/trax/store_psql.go] that PsqlStore.v does not
    have: those of the control plane, which the coordinator does not call but
    for its start-up.  What the server makes of the text of a condition, an
    order and a page is a parameter ([Interpreter]).

    [ListSagaInstances], [ListSagaInstancesPaginated], [ListSagaInstanceIds],
    the two listings of steps, [GetSagaHierarchy] and [ListSagaAnnexes] do not
    look at [rows.Err()], so they take an answer that is cut short for a
    complete one. *)

Local Open Scope go_scope.

Record Interpreter := mkInterpreter {
  in_where : string → list string → SagaInstance → bool;
  in_page : string → string → list SagaInstance → list SagaInstance;
  in_other_count : string → list string → DB → result nat;
  in_other_rows : string → list string → DB → result (list SagaInstance);
}.

Section operations.
Context {srv : Server}.
#[local] Notation Sql := (M (psqlStore srv)).

(** A statement whose error is dropped. *)
Definition exec_ignored (f : DB → result DB) : Sql unit :=
  exec_update (λ _, f) ;;; ret tt.

(** A statement on [s.db], whatever transaction the goroutine has. *)
Definition exec_direct (f : DB → result DB) : Sql (result unit) :=
  s <- get_state ;;
  n <- ask ;;
  match srv_fault srv n, f (ps_db s) with
  | Refused, _ | _, Err _ => error "failed to execute"
  | Lost, Ok d => set_db d ;;; error "failed to execute"
  | _, Ok d => set_db d ;;; ret (Ok tt)
  end.

Definition query_direct {A} (q : nat → DB → result A) : Sql (result A) :=
  s <- get_state ;;
  n <- ask ;;
  match srv_fault srv n, q n (ps_db s) with
  | NoFault, Ok a => ret (Ok a)
  | _, _ => error "failed to query"
  end.

(** An answer that may be cut short without anyone noticing. *)
Definition query_rows {A} (q : nat → DB → result (list A)) : Sql (result (list A)) :=
  query_with (λ rows k, Some (take k rows)) q.

(** A change that has to find its row. *)
Definition exec_found (f : DB → result (DB * nat)) (notfound : goerror)
    (k : Sql (result unit)) : Sql (result unit) :=
  rowsAffected <-? exec (λ _, f) else e => ret (Err e) ;;
  if decide (rowsAffected = 0) then ret (Err notfound) else k.

(** *** [Init] *)

Definition getClusterIds : Sql (result (list string)) :=
  query_direct (λ n d, Ok (srv_order srv n _ (map_to_list (db_clusters d)).*1)).

(** An index changes no row. *)
Definition cluster_indexes : nat := 10.

Fixpoint create_indexes (n : nat) : Sql (result unit) :=
  match n with
  | O => ret (Ok tt)
  | S n => _ <-? exec_direct Ok else e => ret (Err e) ;; create_indexes n
  end.

Definition createClusterTables (clusterId : string) : Sql (result unit) :=
  _ <-? exec_direct (sql_create_saga_table clusterId) else e => ret (Err e) ;;
  _ <-? exec_direct (sql_create_annex_table clusterId) else e => ret (Err e) ;;
  _ <-? exec_direct (sql_create_step_table clusterId) else e => ret (Err e) ;;
  create_indexes cluster_indexes.

Fixpoint create_all (clusterIds : list string) : Sql (result unit) :=
  match clusterIds with
  | [] => ret (Ok tt)
  | clusterId :: clusterIds =>
      _ <-? createClusterTables clusterId else e => ret (Err e) ;; create_all clusterIds
  end.

Definition psql_Init : Sql (result unit) :=
  _ <-? ping else e => ret (Err e) ;;
  clusterIds <-? getClusterIds else e => ret (Err e) ;;
  create_all clusterIds.

(** [NOTIFY channel, $1]: [NOTIFY] is not a statement that takes parameters,
    its payload has to be a literal. *)
Definition psql_Notify (channel payload : string) : Sql (result unit) :=
  exec_update (λ _ _, Err (Errorf "syntax error")).

(** *** Templates *)

Definition psql_SaveSagaTemplateIdempotently (t : SagaTemplate) : Sql (result bool) :=
  exists_ <-? query_all (λ _ d, Ok (bool_decide (is_Some (db_saga_templates d !! st_TemplateId t))))
  else e => ret (Err e) ;;
  if exists_ : bool then ret (Ok false)
  else
    _ <-? exec_update (λ _, sql_insert_template t) else e => ret (Err e) ;;
    exec_ignored (sql_notify (template_event
      [("action", "create"); ("type", "saga_template"); ("template_id", st_TemplateId t)])) ;;;
    ret (Ok true).

Definition psql_ListSagaTemplateIds : Sql (result (list string)) :=
  query_all (λ n d, Ok (srv_order srv n _ (map_to_list (db_saga_templates d)).*1)).

Definition psql_UpdateSagaTemplate (t : SagaTemplate) : Sql (result unit) :=
  exec_found (sql_update_template t) (Errorf ("saga template not found: " +:+ st_TemplateId t))
    (exec_ignored (sql_notify (template_event
       [("action", "update"); ("type", "saga_template"); ("template_id", st_TemplateId t)])) ;;;
     ret (Ok tt)).

(** Two statements: unless the goroutine has a transaction, the first one
    stands when the second one fails. *)
Definition psql_DeleteSagaTemplate (templateId : string) : Sql (result unit) :=
  _ <-? exec (λ _, sql_delete_step_templates_of templateId) else e => ret (Err e) ;;
  exec_found (sql_delete_template templateId) (Errorf ("saga template not found: " +:+ templateId))
    (exec_ignored (sql_notify (template_event
       [("action", "delete"); ("type", "saga_template"); ("template_id", templateId)])) ;;;
     ret (Ok tt)).

Definition psql_SaveSagaStepTemplateIdempotently (t : SagaStepTemplate) : Sql (result bool) :=
  exists_ <-? query_all
    (λ _ d, Ok (bool_decide (is_Some (db_saga_step_templates d !! sst_TemplateId t))))
  else e => ret (Err e) ;;
  if exists_ : bool then ret (Ok false)
  else
    _ <-? exec_update (λ _, sql_insert_step_template t) else e => ret (Err e) ;;
    exec_ignored (sql_notify (template_event
      [("action", "create"); ("type", "saga_step_template"); ("template_id", sst_TemplateId t);
       ("saga_template_id", sst_SagaTemplateId t)])) ;;;
    ret (Ok true).

Definition psql_ListSagaStepTemplates : Sql (result (list SagaStepTemplate)) :=
  query_all (λ n d, Ok (srv_order srv n _ (map_to_list (db_saga_step_templates d)).*2)).

Definition psql_ListSagaStepTemplateIds : Sql (result (list string)) :=
  query_all (λ n d, Ok (srv_order srv n _ (map_to_list (db_saga_step_templates d)).*1)).

Definition psql_UpdateSagaStepTemplate (t : SagaStepTemplate) : Sql (result unit) :=
  exec_found (sql_update_step_template t)
    (Errorf ("saga step template not found: " +:+ sst_TemplateId t))
    (exec_ignored (sql_notify (template_event
       [("action", "update"); ("type", "saga_step_template"); ("template_id", sst_TemplateId t);
        ("saga_template_id", sst_SagaTemplateId t)])) ;;;
     ret (Ok tt)).

Definition psql_DeleteSagaStepTemplate (templateId : string) : Sql (result unit) :=
  exec_found (sql_delete_step_template templateId)
    (Errorf ("saga step template not found: " +:+ templateId))
    (exec_ignored (sql_notify (template_event
       [("action", "delete"); ("type", "saga_step_template"); ("template_id", templateId)])) ;;;
     ret (Ok tt)).

(** *** Clusters *)

Definition psql_SaveClusterIdempotently (cluster : Cluster) : Sql (result bool) :=
  rowsAffected <-? exec (λ _, sql_insert_cluster cluster) else e => ret (Err e) ;;
  ret (Ok (0 <? rowsAffected)).

Definition psql_GetCluster (id : string) : Sql (result Cluster) :=
  query_row (Errorf "cluster not found") (λ d, Ok (db_clusters d !! id)).

Definition psql_UpdateCluster (cluster : Cluster) : Sql (result unit) :=
  exec_found (sql_update_cluster cluster) (Errorf "cluster not found") (ret (Ok tt)).

Definition psql_DeleteCluster (id : string) : Sql (result unit) :=
  exec_found (sql_delete_cluster id) (Errorf "cluster not found") (ret (Ok tt)).

Definition psql_ListClusters : Sql (result (list Cluster)) :=
  query_all (λ n d, Ok (srv_order srv n _ (map_to_list (db_clusters d)).*2)).

(** *** Sagas and steps *)

(** The rows of a table, if there is such a table. *)
Definition in_table {T A} (table : option T) (a : A) : result A :=
  match table with None => undefined_table | Some _ => Ok a end.

Definition psql_GetSagaInstanceBySagaIdempotencyKey (clusterId sagaIdempotencyKey : string) :
    Sql (result SagaInstance) :=
  query_row ErrSagaInstanceNotFound (λ d, in_table (saga_table clusterId d)
    (List.find (λ g, String.eqb (saga_SagaIdempotencyKey g) sagaIdempotencyKey)
       (map_to_list (saga_rows clusterId d)).*2)).

Definition psql_GetSagaStepBySagaIdempotencyKey (clusterId sagaStepIdempotencyKey : string) :
    Sql (result SagaStepInstance) :=
  query_row ErrSagaStepInstanceNotFound (λ d, in_table (step_table clusterId d)
    (List.find (λ x, String.eqb (step_SagaIdempotencyKey x) sagaStepIdempotencyKey)
       (map_to_list (step_rows clusterId d)).*2)).

Definition newer_saga (x y : SagaInstance) : Prop := (si_CreatedAt y ≤ si_CreatedAt x)%Z.
#[local] Instance newer_saga_dec x y : Decision (newer_saga x y).
Proof. unfold newer_saga. apply _. Defined.

Definition psql_ListSagaInstances (clusterId : string) : Sql (result (list SagaInstance)) :=
  query_rows (λ n d, in_table (saga_table clusterId d)
    (merge_sort newer_saga (srv_order srv n _ (map_to_list (saga_rows clusterId d)).*2))).

Definition psql_ListSagaInstanceIds (clusterId : string) : Sql (result (list string)) :=
  query_rows (λ n d, in_table (saga_table clusterId d)
    (srv_order srv n _ (map_to_list (saga_rows clusterId d)).*1)).

Definition psql_ListSagaStepInstances (clusterId : string) :
    Sql (result (list SagaStepInstance)) :=
  query_rows (λ n d, in_table (step_table clusterId d)
    (srv_order srv n _ (map_to_list (step_rows clusterId d)).*2)).

Definition psql_ListSagaStepInstanceIds (clusterId : string) : Sql (result (list string)) :=
  query_rows (λ n d, in_table (step_table clusterId d)
    (srv_order srv n _ (map_to_list (step_rows clusterId d)).*1)).

(** The column is [NULL] in a saga without a root. *)
Definition hierarchy_of (cid rid : string) (d : DB) : gmap string SagaInstance :=
  filter (λ kx, si_RootSagaInstanceId kx.2 = rid ∧ rid ≠ "") (saga_rows cid d).

Definition shallower (x y : SagaInstance) : Prop :=
  (si_SagaDepth x < si_SagaDepth y ∨
   si_SagaDepth x = si_SagaDepth y ∧ si_CreatedAt x ≤ si_CreatedAt y)%Z.
#[local] Instance shallower_dec x y : Decision (shallower x y).
Proof. unfold shallower. apply _. Defined.

Definition psql_GetSagaHierarchy (clusterId rootSagaInstanceId : string) :
    Sql (result (list SagaInstance)) :=
  query_rows (λ n d, in_table (saga_table clusterId d)
    (merge_sort shallower
       (srv_order srv n _ (map_to_list (hierarchy_of clusterId rootSagaInstanceId d)).*2))).

(** *** The paginated listing *)

Definition matching (int : Interpreter) (text : string) (args : list string) (cid : string) (d : DB) :
    gmap string SagaInstance :=
  filter (λ kx, in_where int text args kx.2 = true) (saga_rows cid d).

(** The server runs a statement whose parameters it can bind and whose
    operators exist; the table it reads is the cluster's as long as the
    cluster's identifier, which stands in the text, is a plain name.  What it
    makes of another text is a parameter ([other]). *)
Definition run_statement {A} (clusterId whereClause : string) (args : list string)
    (other : result A) (table : option (gmap string SagaInstance)) (a : A) : result A :=
  if plain_cluster clusterId then
    if accepts whereClause (length args) then in_table table a
    else Err (Errorf "the statement is not accepted")
  else other.

Definition psql_ListSagaInstancesPaginated (int : Interpreter)
    (range : gmap string string → list (string * string)) (clusterId : string)
    (opts : option QueryOptions) : Sql (result (list SagaInstance * nat)) :=
  let local := local_options opts in
  let '(whereClause, args) := where_clause range local in
  let orderByClause := BuildOrderByClause (Some local) "" in
  let paginationClause := BuildPaginationClause (Some local) in
  totalCount <-? query_all (λ _ d, run_statement clusterId whereClause args
    (in_other_count int (countQuery clusterId whereClause) args d) (saga_table clusterId d)
    (size (matching int whereClause args clusterId d)))
  else e => ret (Err e) ;;
  instances <-? query_rows (λ n d, run_statement clusterId whereClause args
    (in_other_rows int (pageQuery clusterId whereClause orderByClause paginationClause) args d)
    (saga_table clusterId d)
    (in_page int orderByClause paginationClause
       (srv_order srv n _ (map_to_list (matching int whereClause args clusterId d)).*2)))
  else e => ret (Err e) ;;
  ret (Ok (instances, totalCount)).

(** *** Annexes *)

(** Two statements: unless the goroutine has a transaction, the annex stands
    when attaching it fails. *)
Definition psql_CreateSagaAnnex (annex : SagaAnnex) : Sql (result unit) :=
  if String.eqb (an_Iid annex) "" || String.eqb (an_SagaInstanceId annex) "" ||
     String.eqb (an_ClusterId annex) ""
  then error "annex iid, saga_instance_id and cluster_id are required"
  else
    let contentLength :=
      if (an_ContentLength annex =? 0)%Z then Z.of_nat (length (an_ContentData annex))
      else an_ContentLength annex in
    _ <-? exec_update (λ ts, sql_upsert_annex ts (set_an_ContentLength contentLength annex))
    else e => ret (Err e) ;;
    rows <-? exec (λ ts, sql_attach_annex (an_ClusterId annex) (an_SagaInstanceId annex)
                           (an_Iid annex) ts)
    else e => ret (Err e) ;;
    if decide (rows = 0) then ret (Err ErrSagaInstanceNotFound) else ret (Ok tt).

Definition psql_ListSagaAnnexes (clusterId sagaInstanceId : string) :
    Sql (result (list SagaAnnex)) :=
  query_rows (λ n, sql_select_annexes (srv_order srv n) clusterId sagaInstanceId).

Definition psql_GetSagaAnnexBytes (clusterId annexIid : string) : Sql (result SagaAnnex) :=
  query_row (Errorf ("annex not found: " +:+ annexIid)) (λ d,
    in_table (annex_table clusterId d) (annex_rows clusterId d !! annexIid)).
End operations.
