(* ===== verification/Integrity.v ===== *)
(** * The store keeps its tables well-formed

    Every operation of the PostgreSQL store (PsqlStore.v, Catalogue.v), in
    or out of a transaction, on whatever server, keeps the committed database
    well-formed in the sense of Catalogue.v, and so does every sequence of
    operations of any number of goroutines. *)

From S2P Require Import Prelude GoMonad Model Naming GoStrings Query Database Store PsqlStore.
From S2P Require Import Catalogue.

(** ** The operations, as data *)

Inductive Call :=
  | CallInit
  | CallHealthCheck
  | CallBeginTransaction
  | CallCommitTransaction
  | CallRollbackTransaction
  | CallNotify (channel payload : string)
  | CallSaveSagaTemplateIdempotently (t : SagaTemplate)
  | CallGetSagaTemplate (id : string)
  | CallListSagaTemplates
  | CallListSagaTemplateIds
  | CallUpdateSagaTemplate (t : SagaTemplate)
  | CallDeleteSagaTemplate (id : string)
  | CallSaveSagaStepTemplateIdempotently (t : SagaStepTemplate)
  | CallGetSagaStepTemplate (id : string)
  | CallListSagaStepTemplates
  | CallListSagaStepTemplateIds
  | CallUpdateSagaStepTemplate (t : SagaStepTemplate)
  | CallDeleteSagaStepTemplate (id : string)
  | CallSaveSagaInstanceIdempotently (g : SagaInstance)
  | CallUpdateSagaState (g : SagaInstance) (state : SagaStateEnum)
  | CallGetSagaInstance (cid id : string)
  | CallSaveSagaStepInstanceIdempotently (x : SagaStepInstance)
  | CallUpdateSagaStepState (x : SagaStepInstance) (state : SagaStepStateEnum)
  | CallUpdateSagaStepResult (x : SagaStepInstance)
  | CallUpdateSagaStepCompensationResult (x : SagaStepInstance)
  | CallUpdateSagaStepInstanceExecutionHistory (x : SagaStepInstance)
  | CallGetSagaStepInstance (cid id : string)
  | CallGetSagaStepBySagaIdempotencyKey (cid key : string)
  | CallGetSagaStepInstances (cid affinity : string) (sagaStates : list SagaStateEnum)
      (stepStates : list SagaStepStateEnum)
  | CallListSagaInstances (cid : string)
  | CallListSagaInstancesPaginated (int : Interpreter)
      (range : gmap string string → list (string * string)) (cid : string)
      (opts : option QueryOptions)
  | CallListSagaInstanceIds (cid : string)
  | CallListSagaStepInstances (cid : string)
  | CallListSagaStepInstanceIds (cid : string)
  | CallListSagaStepInstancesBySagaInstanceId (cid sid : string)
  | CallGetChildSagaInstances (cid sid : string)
  | CallGetSagaHierarchy (cid rid : string)
  | CallTriggerSagaCompensation (cid sid : string)
  | CallForceMarkSagaCompensated (cid sid reason : string)
  | CallCreateSagaAnnex (a : SagaAnnex)
  | CallListSagaAnnexes (cid sid : string)
  | CallGetSagaAnnexBytes (cid iid : string)
  | CallSaveClusterIdempotently (c : Cluster)
  | CallGetCluster (id : string)
  | CallUpdateCluster (c : Cluster)
  | CallDeleteCluster (id : string)
  | CallListClusters
  | CallListClusterIds.

Section integrity.
Context {srv : Server}.
Implicit Types (s : psqlStore srv).
#[local] Notation Sql := (M (psqlStore srv)).

Definition drop_result {A} (m : Sql A) : Sql unit := bind m (λ _, ret tt).

Definition perform (c : Call) : Sql unit :=
  match c with
  | CallInit => drop_result psql_Init
  | CallHealthCheck => drop_result psql_HealthCheck
  | CallBeginTransaction => drop_result psql_BeginTransaction
  | CallCommitTransaction => drop_result psql_CommitTransaction
  | CallRollbackTransaction => drop_result psql_RollbackTransaction
  | CallNotify channel payload => drop_result (psql_Notify channel payload)
  | CallSaveSagaTemplateIdempotently t => drop_result (psql_SaveSagaTemplateIdempotently t)
  | CallGetSagaTemplate id => drop_result (psql_GetSagaTemplate id)
  | CallListSagaTemplates => drop_result psql_ListSagaTemplates
  | CallListSagaTemplateIds => drop_result psql_ListSagaTemplateIds
  | CallUpdateSagaTemplate t => drop_result (psql_UpdateSagaTemplate t)
  | CallDeleteSagaTemplate id => drop_result (psql_DeleteSagaTemplate id)
  | CallSaveSagaStepTemplateIdempotently t => drop_result (psql_SaveSagaStepTemplateIdempotently t)
  | CallGetSagaStepTemplate id => drop_result (psql_GetSagaStepTemplate id)
  | CallListSagaStepTemplates => drop_result psql_ListSagaStepTemplates
  | CallListSagaStepTemplateIds => drop_result psql_ListSagaStepTemplateIds
  | CallUpdateSagaStepTemplate t => drop_result (psql_UpdateSagaStepTemplate t)
  | CallDeleteSagaStepTemplate id => drop_result (psql_DeleteSagaStepTemplate id)
  | CallSaveSagaInstanceIdempotently g => drop_result (psql_SaveSagaInstanceIdempotently g)
  | CallUpdateSagaState g state => drop_result (psql_UpdateSagaState g state)
  | CallGetSagaInstance cid id => drop_result (psql_GetSagaInstance cid id)
  | CallSaveSagaStepInstanceIdempotently x =>
      drop_result (psql_SaveSagaStepInstanceIdempotently x)
  | CallUpdateSagaStepState x state => drop_result (psql_UpdateSagaStepState x state)
  | CallUpdateSagaStepResult x => drop_result (psql_UpdateSagaStepResult x)
  | CallUpdateSagaStepCompensationResult x =>
      drop_result (psql_UpdateSagaStepCompensationResult x)
  | CallUpdateSagaStepInstanceExecutionHistory x =>
      drop_result (psql_UpdateSagaStepInstanceExecutionHistory x)
  | CallGetSagaStepInstance cid id => drop_result (psql_GetSagaStepInstance cid id)
  | CallGetSagaStepBySagaIdempotencyKey cid key =>
      drop_result (psql_GetSagaStepBySagaIdempotencyKey cid key)
  | CallGetSagaStepInstances cid affinity sagaStates stepStates =>
      drop_result (psql_GetSagaStepInstances cid affinity sagaStates stepStates)
  | CallListSagaInstances cid => drop_result (psql_ListSagaInstances cid)
  | CallListSagaInstancesPaginated int range cid opts =>
      drop_result (psql_ListSagaInstancesPaginated int range cid opts)
  | CallListSagaInstanceIds cid => drop_result (psql_ListSagaInstanceIds cid)
  | CallListSagaStepInstances cid => drop_result (psql_ListSagaStepInstances cid)
  | CallListSagaStepInstanceIds cid => drop_result (psql_ListSagaStepInstanceIds cid)
  | CallListSagaStepInstancesBySagaInstanceId cid sid =>
      drop_result (psql_ListSagaStepInstancesBySagaInstanceId cid sid)
  | CallGetChildSagaInstances cid sid => drop_result (psql_GetChildSagaInstances cid sid)
  | CallGetSagaHierarchy cid rid => drop_result (psql_GetSagaHierarchy cid rid)
  | CallTriggerSagaCompensation cid sid => drop_result (psql_TriggerSagaCompensation cid sid)
  | CallForceMarkSagaCompensated cid sid reason =>
      drop_result (psql_ForceMarkSagaCompensated cid sid reason)
  | CallCreateSagaAnnex a => drop_result (psql_CreateSagaAnnex a)
  | CallListSagaAnnexes cid sid => drop_result (psql_ListSagaAnnexes cid sid)
  | CallGetSagaAnnexBytes cid iid => drop_result (psql_GetSagaAnnexBytes cid iid)
  | CallSaveClusterIdempotently c => drop_result (psql_SaveClusterIdempotently c)
  | CallGetCluster id => drop_result (psql_GetCluster id)
  | CallUpdateCluster c => drop_result (psql_UpdateCluster c)
  | CallDeleteCluster id => drop_result (psql_DeleteCluster id)
  | CallListClusters => drop_result psql_ListClusters
  | CallListClusterIds => drop_result psql_ListClusterIds
  end.

(** A goroutine makes a call; the calls of a history come from any of them. *)
Definition as_goroutine (gid : nat) s : psqlStore srv :=
  mkPsqlStore (ps_db s) (ps_txMap s) gid (ps_n s).

Definition history_step s (gc : nat * Call) : psqlStore srv :=
  (perform gc.2 (as_goroutine gc.1 s)).2.

Definition run_history (history : list (nat * Call)) s : psqlStore srv :=
  foldl history_step s history.

(** ** The invariant *)

(** A change that a transaction has pending keeps a database well-formed,
    whichever it is applied to when the transaction commits. *)
Definition sound_write (w : DB → option DB) : Prop :=
  ∀ d d', well_formed d → w d = Some d' → well_formed d'.

Record intact s : Prop := {
  it_db : well_formed (ps_db s);
  it_tx : ∀ gid t, ps_txMap s !! gid = Some t → Forall sound_write (tx_writes t);
}.

Definition preserves {A} (m : Sql A) : Prop := ∀ s, intact s → intact (m s).2.

Lemma intact_db s d n : intact s → well_formed d →
  intact (mkPsqlStore d (ps_txMap s) (ps_gid s) n).
Proof. intros [_ Ht] Hd. by split. Qed.

Lemma intact_n s n : intact s → intact (mkPsqlStore (ps_db s) (ps_txMap s) (ps_gid s) n).
Proof. intros Hi. apply intact_db; [done|apply Hi]. Qed.

Lemma intact_tx s t n : intact s → Forall sound_write (tx_writes t) →
  intact (mkPsqlStore (ps_db s) (<[ps_gid s := t]> (ps_txMap s)) (ps_gid s) n).
Proof.
  intros [Hd Ht] Hw. split; [done|]. simpl.
  intros gid u [[_ <-]|[_ Hu]]%lookup_insert_Some; eauto.
Qed.

Lemma intact_no_tx s d n : intact s → well_formed d →
  intact (mkPsqlStore d (delete (ps_gid s) (ps_txMap s)) (ps_gid s) n).
Proof.
  intros [_ Ht] Hd. split; [done|]. simpl. intros gid u [_ Hu]%lookup_delete_Some. eauto.
Qed.

Lemma replay_sound ws d d' :
  Forall sound_write ws → well_formed d → replay ws d = Some d' → well_formed d'.
Proof.
  intros Hw Hd. revert d'. induction ws as [|w ws IH] using rev_ind; intros d'; [by intros [= <-]|].
  apply Forall_app in Hw as [Hws [Hw _]%Forall_cons]. unfold replay. rewrite foldl_app.
  fold (replay ws d). intros (d1 & Hr & Hd')%bind_Some. eapply Hw; [|done]. by apply IH.
Qed.

Lemma preserves_ret {A} (a : A) : preserves (ret a).
Proof. by intros s. Qed.

Lemma preserves_bind {A B} (m : Sql A) (k : A → Sql B) :
  preserves m → (∀ a, preserves (k a)) → preserves (bind m k).
Proof.
  intros Hm Hk s Hi. specialize (Hm s Hi). unfold bind. destruct (m s) as [[a|msg|] s1]; [|done..].
  by apply Hk.
Qed.

Lemma preserves_or_else {A B} (m : Sql (result A)) early (k : A → Sql B) :
  preserves m → (∀ e, preserves (early e)) → (∀ a, preserves (k a)) →
  preserves (or_else m early k).
Proof. intros Hm He Hk. apply preserves_bind; [done|]. intros [a|e]; auto. Qed.

Lemma preserves_exec {A} `{EqDecision A} (f : Z → DB → result (DB * A)) :
  (∀ ts, sound (f ts)) → preserves (exec f).
Proof.
  intros Hf s Hi. unfold exec, bind, get_state, ask, set_tx, set_db, modify, error, ret. simpl.
  destruct (ps_tx s) as [[ws []]|] eqn:Htx; [by apply intact_n|..].
  - pose proof (it_tx s Hi _ _ Htx) as Hws. simpl in Hws.
    destruct (replay ws (ps_db s)) as [w|], (srv_fault srv (ps_n s)); simpl;
      try destruct (f _ w) as [[]|]; simpl; apply (intact_tx s); try done.
    all: simpl; apply Forall_app; split; [done|]; apply Forall_singleton; intros d1 d2 Hd; unfold again.
    all: destruct (f _ d1) as [[d3 a']|] eqn:Hfd; [|done]; case_decide; [intros [= <-]|done]; by eapply Hf.
  - destruct (srv_fault srv (ps_n s)); simpl;
      try (destruct (f _ _) as [[d a]|] eqn:Hfd; simpl); try (by apply (intact_n s));
      apply (intact_db s); try done; eapply Hf; try done; apply Hi.
Qed.

Lemma preserves_exec_update (f : Z → DB → result DB) :
  (∀ ts, sound_update (f ts)) → preserves (exec_update f).
Proof.
  intros Hf. apply preserves_exec. intros ts d d' a Hd Hfd. destruct (f ts d) eqn:He; simplify_eq/=.
  by eapply Hf.
Qed.

Lemma preserves_query {A} cut (q : nat → DB → result A) : preserves (query_with cut q).
Proof.
  intros s Hi. unfold query_with, bind, get_state, ask, set_tx, modify, error, ret. simpl.
  destruct (ps_tx s) as [[ws []]|] eqn:Htx; [by apply intact_n|..].
  - pose proof (it_tx s Hi _ _ Htx) as Hws. simpl in Hws.
    destruct (replay ws (ps_db s)), (srv_fault srv (ps_n s)) as [| | | |k]; simpl;
      try destruct (q _ _) as [a|]; try destruct (cut a k); simpl;
      first [by apply (intact_tx s)|by apply (intact_n s)].
  - destruct (srv_fault srv (ps_n s)) as [| | | |k]; simpl;
      try destruct (q _ _) as [a|]; try destruct (cut a k); simpl; by apply (intact_n s).
Qed.

Lemma preserves_query_all {A} (q : nat → DB → result A) : preserves (query_all q).
Proof. apply preserves_query. Qed.

Lemma preserves_query_rows {A} (q : nat → DB → result (list A)) : preserves (query_rows q).
Proof. apply preserves_query. Qed.

Lemma preserves_query_row {A} norows (q : DB → result (option A)) : preserves (query_row norows q).
Proof. apply preserves_or_else; [apply preserves_query|intros; apply preserves_ret..]. Qed.

Lemma preserves_ping : preserves ping.
Proof. intros s Hi. unfold ping, bind, ask. simpl. by destruct (srv_fault srv (ps_n s)); apply intact_n. Qed.

Lemma preserves_error {A} msg : preserves (error (A := A) msg).
Proof. apply preserves_ret. Qed.

Lemma preserves_drop {A} (m : Sql A) : preserves m → preserves (drop_result m).
Proof. intros Hm. by apply preserves_bind; [|intros; apply preserves_ret]. Qed.

Lemma preserves_exec_direct f : sound_update f → preserves (exec_direct f).
Proof.
  intros Hf s Hi. unfold exec_direct, bind, get_state, ask, set_db, modify, error, ret. simpl.
  destruct (srv_fault srv (ps_n s)); simpl; try (by apply (intact_n s));
    destruct (f (ps_db s)) eqn:Hfd; simpl; try (by apply (intact_n s));
    apply (intact_db s); try done; eapply Hf; try done; apply Hi.
Qed.

Lemma preserves_query_direct {A} (q : nat → DB → result A) : preserves (query_direct q).
Proof.
  intros s Hi. unfold query_direct, bind, get_state, ask, error, ret. simpl.
  by destruct (srv_fault srv (ps_n s)), (q (ps_n s) (ps_db s)); apply (intact_n s).
Qed.

Lemma preserves_begin : preserves psql_BeginTransaction.
Proof.
  unfold psql_BeginTransaction. apply preserves_bind; [by intros s|]. intros s0.
  destruct (ps_tx s0); [apply preserves_error|].
  do 2 (apply preserves_or_else; [apply preserves_ping|intros; apply preserves_ret|intros []]).
  apply preserves_bind; [|intros; apply preserves_ret]. intros s Hi. by apply (intact_tx s).
Qed.

Lemma preserves_commit : preserves psql_CommitTransaction.
Proof.
  intros s Hi. unfold psql_CommitTransaction, bind, get_state. simpl.
  destruct (ps_tx s) as [t|] eqn:Htx; [|done].
  assert (∀ d, replay (tx_writes t) (ps_db s) = Some d → well_formed d) as Hd
    by (intros d; apply replay_sound; [by eapply Hi|apply Hi]).
  unfold ask, delete_tx, set_db, modify, error, ret. simpl.
  destruct (tx_failed t); simpl; [apply (intact_no_tx s); [done|apply Hi]|].
  destruct (srv_fault srv (ps_n s)), (replay (tx_writes t) (ps_db s)); simpl; apply (intact_no_tx s);
    auto; apply Hi.
Qed.

Lemma preserves_rollback : preserves psql_RollbackTransaction.
Proof.
  unfold psql_RollbackTransaction. apply preserves_bind; [by intros s|]. intros s0.
  destruct (ps_tx s0); [|apply preserves_error].
  apply preserves_bind; [apply preserves_ping|]. intros r.
  apply preserves_bind; [|intros []; destruct r; apply preserves_ret].
  intros s Hi. apply (intact_no_tx s); [done|apply Hi].
Qed.
End integrity.

Create HintDb preserves.
#[export] Hint Resolve preserves_ret preserves_error preserves_query preserves_query_row
  preserves_query_all preserves_query_rows
  preserves_ping preserves_query_direct preserves_begin preserves_commit preserves_rollback :
  preserves.
#[export] Hint Resolve sound_insert_template sound_update_template sound_delete_template
  sound_insert_step_template sound_update_step_template sound_delete_step_template
  sound_delete_step_templates_of sound_insert_cluster sound_update_cluster sound_delete_cluster
  sound_create_saga_table sound_create_annex_table sound_create_step_table sound_notify
  sound_attach sound_upsert_annex : preserves.

(** ** The properties *)

Section properties.
Context {srv : Server}.
Implicit Types (s : psqlStore srv).

(** Taking an operation apart into its statements. *)
#[local] Ltac statements :=
  repeat first
    [ solve [intros; cbv beta; auto with preserves]
    | simple apply preserves_exec_update; intros
    | simple apply preserves_exec; intros
    | simple apply preserves_or_else; intros
    | simple apply preserves_bind; intros
    | match goal with |- preserves (match ?x with _ => _ end) => destruct x end ].

Lemma preserves_ignored f : sound_update f → preserves (exec_ignored (srv := srv) f).
Proof. intros Hf. unfold exec_ignored. statements. Qed.

Lemma preserves_found f e (k : M (psqlStore srv) (result unit)) :
  sound f → preserves k → preserves (exec_found f e k).
Proof. intros Hf Hk. unfold exec_found. statements. Qed.

Lemma preserves_update_saga_if cid id from msg f :
  (∀ ts, saga_refs (f ts)) → preserves (update_saga_if (srv := srv) cid id from msg f).
Proof.
  intros Hf. unfold update_saga_if. statements. by apply sound_update_saga_if.
Qed.

Lemma preserves_update_step_row x f :
  (∀ ts, step_refs (f ts)) → preserves (update_step_row (srv := srv) x f).
Proof. intros Hf. unfold update_step_row. statements. by apply sound_update_step. Qed.

Lemma preserves_init : preserves (psql_Init (srv := srv)).
Proof.
  assert (∀ n, preserves (create_indexes (srv := srv) n)) as Hidx.
  { induction n as [|n IH]; simpl; [apply preserves_ret|].
    apply preserves_or_else; [|intros; apply preserves_ret|done].
    apply preserves_exec_direct. intros d d' Hd [= <-]. done. }
  assert (∀ cid, preserves (createClusterTables (srv := srv) cid)) as Htab.
  { intros cid. unfold createClusterTables.
    do 3 (apply preserves_or_else; [by apply preserves_exec_direct; auto with preserves|intros; apply preserves_ret|intros _]).
    apply Hidx. }
  apply preserves_or_else; [apply preserves_ping|intros; apply preserves_ret|intros _].
  apply preserves_or_else; [apply preserves_query_direct|intros; apply preserves_ret|].
  intros cids. induction cids as [|cid cids IH]; simpl; [apply preserves_ret|].
  apply preserves_or_else; [apply Htab|intros; apply preserves_ret|done].
Qed.

Lemma preserves_notify_candidate x state : preserves (notifyCandidate (srv := srv) x state).
Proof. unfold notifyCandidate. destruct state; statements. Qed.

#[local] Hint Resolve preserves_init preserves_ignored preserves_found preserves_update_saga_if
  preserves_update_step_row preserves_notify_candidate : preserves.
#[local] Hint Resolve sound_update_saga sound_update_step wf_new_saga wf_new_step : preserves.
#[local] Hint Extern 1 (saga_refs _) => apply _ : preserves.
#[local] Hint Extern 1 (step_refs _) => apply _ : preserves.
#[local] Hint Extern 1 (sound_update (sql_insert_saga _ _)) =>
  intros ???; apply wf_new_saga : preserves.
#[local] Hint Extern 1 (sound_update (sql_insert_step _ _)) =>
  intros ???; apply wf_new_step : preserves.
#[local] Hint Extern 1 (sound_update (λ _, Err _)) => intros ???; done : preserves.
#[local] Ltac head t := lazymatch t with ?f _ => head f | _ => t end.

Lemma preserves_perform c : preserves (perform (srv := srv) c).
Proof.
  destruct c; simpl perform; apply preserves_drop; try (solve [auto with preserves]).
  all: lazymatch goal with |- preserves ?m => let h := head m in unfold h end.
  all: try (solve [auto with preserves]); statements.
  all: apply preserves_found; statements.
Qed.

(** What any number of goroutines do to the store, one operation after
    another in any order and in or out of transactions, on a server that may
    refuse, lose, garble or cut short anything: the database stays
    well-formed. *)
Theorem database_stays_well_formed history s :
  intact s → intact (run_history history s).
Proof.
  unfold run_history. revert s. induction history as [|[gid c] history IH]; intros s Hi; simpl; [done|].
  apply IH. apply preserves_perform. destruct Hi as [Hd Ht]. by split.
Qed.
End properties.

(** The database of a fresh installation. *)
Definition fresh_store (srv : Server) : psqlStore srv :=
  mkPsqlStore (mkDB ∅ ∅ ∅ ∅ ∅ ∅ []) ∅ 0 0.

Lemma fresh_intact srv : intact (fresh_store srv).
Proof.
  assert (∀ cid (d := ps_db (fresh_store srv)), saga_rows cid d = ∅ ∧ step_rows cid d = ∅ ∧ annex_rows cid d = ∅)
    as Hempty by done.
  split; [|done]. split; try done; intros cid id ?; destruct (Hempty cid) as (Hg & Hx & Ha);
    rewrite ?Hg, ?Hx, ?Ha; done.
Qed.

Lemma database_stays_well_formed_witness :
  intact (run_history
    [(1, CallSaveClusterIdempotently (mkCluster "main" "Main" "" ∅ [] ∅));
     (1, CallInit);
     (2, CallBeginTransaction);
     (2, CallSaveSagaTemplateIdempotently (mkSagaTemplate "order" "" "" ∅ [] ∅ []));
     (1, CallDeleteSagaTemplate "order");
     (2, CallSaveSagaStepTemplateIdempotently (mkSagaStepTemplate "pay" "order" "" "" ∅ [] ∅));
     (2, CallCommitTransaction);
     (1, CallDeleteSagaStepTemplate "pay")] (fresh_store calm_server)).
Proof. apply database_stays_well_formed, fresh_intact. Defined.
