(* ===== verification/CatalogueSpec.v ===== *)
(** * What a catalogue promises

    The clusters and the templates of a store, as three maps, and what each
    operation answers and makes of them: the contract that the PostgreSQL
    store and the in-memory store share.  [CatalogueStore] is the interface
    with its law; its clients' theorem is at the end of the section
    [histories].  The PostgreSQL store satisfies it where no foreign key is
    in the way, on a server without faults and outside of transactions. *)

From S2P Require Import Prelude GoMonad Model Naming GoStrings Database Store PsqlStore Catalogue.
From S2P Require Import Integrity.

Local Open Scope go_scope.

(** ** The abstract catalogue *)

Record Cat := mkCat {
  c_clusters : gmap string Cluster;
  c_templates : gmap string SagaTemplate;
  c_step_templates : gmap string SagaStepTemplate;
}.

Inductive CatOp :=
  | SaveCluster (c : Cluster)
  | GetCluster (id : string)
  | UpdateCluster (c : Cluster)
  | DeleteCluster (id : string)
  | ListClusterIdsOp
  | ListClustersOp
  | SaveTemplate (t : SagaTemplate)
  | GetTemplate (id : string)
  | UpdateTemplate (t : SagaTemplate)
  | DeleteTemplate (id : string)
  | ListTemplateIds
  | ListTemplates
  | SaveStepTemplate (t : SagaStepTemplate)
  | GetStepTemplate (id : string)
  | UpdateStepTemplate (t : SagaStepTemplate)
  | DeleteStepTemplate (id : string)
  | ListStepTemplateIds
  | ListStepTemplates.

Inductive Answer :=
  | Saved (new : bool)
  | Done
  | Failed (e : goerror)
  | OneCluster (c : Cluster)
  | OneTemplate (t : SagaTemplate)
  | OneStepTemplate (t : SagaStepTemplate)
  | Ids (l : list string)
  | Clusters (l : list Cluster)
  | Templates (l : list SagaTemplate)
  | StepTemplates (l : list SagaStepTemplate).

(** Listings come in any order. *)
Definition same_answer (a b : Answer) : Prop :=
  match a, b with
  | Ids l, Ids k => l ≡ₚ k
  | Clusters l, Clusters k => l ≡ₚ k
  | Templates l, Templates k => l ≡ₚ k
  | StepTemplates l, StepTemplates k => l ≡ₚ k
  | _, _ => a = b
  end.

#[export] Instance same_answer_equiv : Equivalence same_answer.
Proof.
  split.
  - intros []; simpl; reflexivity.
  - intros [] []; simpl; intros H; solve [by symmetry|congruence].
  - intros [] [] []; simpl; intros H1 H2; solve [congruence|by rewrite H1].
Qed.

Definition with_clusters v C := mkCat v (c_templates C) (c_step_templates C).
Definition with_templates v C := mkCat (c_clusters C) v (c_step_templates C).
Definition with_step_templates v C := mkCat (c_clusters C) (c_templates C) v.

(** Save what is not there; replace or remove what is; look up. *)
Definition a_save {A} (m : gmap string A) (set : gmap string A → Cat → Cat) (id : string) (a : A)
    (C : Cat) : Answer * Cat :=
  match m !! id with Some _ => (Saved false, C) | None => (Saved true, set (<[id := a]> m) C) end.
Definition a_change {A} (m : gmap string A) (id : string) (e : goerror) (C C' : Cat) :
    Answer * Cat :=
  match m !! id with Some _ => (Done, C') | None => (Failed e, C) end.
Definition a_get {A} (m : gmap string A) (id : string) (e : goerror) (f : A → Answer) (C : Cat) :
    Answer * Cat :=
  (match m !! id with Some a => f a | None => Failed e end, C).
Definition ids {A} (m : gmap string A) : Answer := Ids (map_to_list m).*1.
Definition objects {A} (m : gmap string A) : list A := (map_to_list m).*2.

Definition a_step (op : CatOp) (C : Cat) : Answer * Cat :=
  let cs := c_clusters C in
  let ts := c_templates C in
  let xs := c_step_templates C in
  match op with
  | SaveCluster c => a_save cs with_clusters (cl_Id c) c C
  | GetCluster id => a_get cs id (Errorf "cluster not found") OneCluster C
  | UpdateCluster c =>
      a_change cs (cl_Id c) (Errorf "cluster not found") C (with_clusters (<[cl_Id c := c]> cs) C)
  | DeleteCluster id =>
      a_change cs id (Errorf "cluster not found") C (with_clusters (delete id cs) C)
  | ListClusterIdsOp => (ids cs, C)
  | ListClustersOp => (Clusters (objects cs), C)
  | SaveTemplate t => a_save ts with_templates (st_TemplateId t) t C
  | GetTemplate id => a_get ts id (Errorf "saga template not found") OneTemplate C
  | UpdateTemplate t =>
      a_change ts (st_TemplateId t) (Errorf ("saga template not found: " +:+ st_TemplateId t)) C
        (with_templates (<[st_TemplateId t := t]> ts) C)
  | DeleteTemplate id =>
      a_change ts id (Errorf ("saga template not found: " +:+ id)) C
        (mkCat cs (delete id ts) (filter (λ kx, sst_SagaTemplateId kx.2 ≠ id) xs))
  | ListTemplateIds => (ids ts, C)
  | ListTemplates => (Templates (objects ts), C)
  | SaveStepTemplate t => a_save xs with_step_templates (sst_TemplateId t) t C
  | GetStepTemplate id => a_get xs id (Errorf "saga step template not found") OneStepTemplate C
  | UpdateStepTemplate t =>
      a_change xs (sst_TemplateId t)
        (Errorf ("saga step template not found: " +:+ sst_TemplateId t)) C
        (with_step_templates (<[sst_TemplateId t := t]> xs) C)
  | DeleteStepTemplate id =>
      a_change xs id (Errorf ("saga step template not found: " +:+ id)) C
        (with_step_templates (delete id xs) C)
  | ListStepTemplateIds => (ids xs, C)
  | ListStepTemplates => (StepTemplates (objects xs), C)
  end.

(** ** The interface *)

(** [shows s C]: the store [s] holds the catalogue [C]; [admits s op]: what
    else the store holds does not stand in the way of [op]. *)
Class CatalogueStore (St : Type) := {
  run_op : CatOp → M St Answer;
  shows : St → Cat → Prop;
  admits : St → CatOp → Prop;
  catalogue_law : ∀ op s C, shows s C → admits s op →
    wp (run_op op) (returns (λ a s', same_answer a (a_step op C).1 ∧ shows s' (a_step op C).2)) s;
}.

(** A history of operations, each of which is admitted when it is run. *)
Fixpoint run_ops `{CatalogueStore St} (ops : list CatOp) : M St (list Answer) :=
  match ops with
  | [] => ret []
  | op :: ops => a <- run_op op ;; l <- run_ops ops ;; ret (a :: l)
  end.

Fixpoint a_steps (ops : list CatOp) (C : Cat) : list Answer :=
  match ops with
  | [] => []
  | op :: ops => (a_step op C).1 :: a_steps ops (a_step op C).2
  end.

Fixpoint all_admitted `{CatalogueStore St} (ops : list CatOp) (s : St) : Prop :=
  match ops with
  | [] => True
  | op :: ops => admits s op ∧ all_admitted ops (run_op op s).2
  end.

Lemma run_ops_spec `{CatalogueStore St} ops s C :
  shows s C → all_admitted ops s →
  wp (run_ops ops) (returns (λ l _, Forall2 same_answer l (a_steps ops C))) s.
Proof.
  revert s C. induction ops as [|op ops IH]; intros s C Hs; simpl; [intros _; apply wp_ret; constructor|].
  intros [Ha Hall]. pose proof (catalogue_law op s C Hs Ha) as Hlaw.
  apply wp_bind_ret. unfold wp in *. destruct (run_op op s) as [[a|msg|] s1]; simpl in *; [|done..].
  destruct Hlaw as [Hans Hs1]. specialize (IH s1 _ Hs1 Hall).
  apply (wp_bind_ret (run_ops ops)). unfold wp. eapply wp_returns_mono; [|exact IH].
  intros l s2 Hl. apply wp_ret. by constructor.
Qed.

(** ** The PostgreSQL store *)

Section psql.
Context {srv : Server}.
Implicit Types (s : psqlStore srv).
#[local] Notation Sql := (M (psqlStore srv)).

Definition answer {A} (m : Sql (result A)) (f : A → Answer) : Sql Answer :=
  r <- m ;; ret (match r with Ok a => f a | Err e => Failed e end).

Definition psql_op (op : CatOp) : Sql Answer :=
  match op with
  | SaveCluster c => answer (psql_SaveClusterIdempotently c) Saved
  | GetCluster id => answer (psql_GetCluster id) OneCluster
  | UpdateCluster c => answer (psql_UpdateCluster c) (λ _, Done)
  | DeleteCluster id => answer (psql_DeleteCluster id) (λ _, Done)
  | ListClusterIdsOp => answer psql_ListClusterIds Ids
  | ListClustersOp => answer psql_ListClusters Clusters
  | SaveTemplate t => answer (psql_SaveSagaTemplateIdempotently t) Saved
  | GetTemplate id => answer (psql_GetSagaTemplate id) OneTemplate
  | UpdateTemplate t => answer (psql_UpdateSagaTemplate t) (λ _, Done)
  | DeleteTemplate id => answer (psql_DeleteSagaTemplate id) (λ _, Done)
  | ListTemplateIds => answer psql_ListSagaTemplateIds Ids
  | ListTemplates => answer psql_ListSagaTemplates Templates
  | SaveStepTemplate t => answer (psql_SaveSagaStepTemplateIdempotently t) Saved
  | GetStepTemplate id => answer (psql_GetSagaStepTemplate id) OneStepTemplate
  | UpdateStepTemplate t => answer (psql_UpdateSagaStepTemplate t) (λ _, Done)
  | DeleteStepTemplate id => answer (psql_DeleteSagaStepTemplate id) (λ _, Done)
  | ListStepTemplateIds => answer psql_ListSagaStepTemplateIds Ids
  | ListStepTemplates => answer psql_ListSagaStepTemplates StepTemplates
  end.

Definition cat_of (d : DB) : Cat :=
  mkCat (db_clusters d) (db_saga_templates d) (db_saga_step_templates d).

Definition psql_shows s (C : Cat) : Prop :=
  ps_tx s = None ∧ well_formed (ps_db s) ∧ cat_of (ps_db s) = C.

(** No foreign key is in the way. *)
Definition psql_admits s (op : CatOp) : Prop :=
  let d := ps_db s in
  match op with
  | DeleteTemplate id =>
      is_ok (sql_delete_step_templates_of id d) = true ∧
      some_row (λ g, String.eqb (si_SagaTemplateId g) id) (db_saga_instances d) = false ∧
      some_row (λ x, String.eqb (ssi_SagaTemplateId x) id) (db_saga_step_instances d) = false
  | SaveStepTemplate t | UpdateStepTemplate t =>
      is_Some (db_saga_templates d !! sst_SagaTemplateId t)
  | DeleteStepTemplate id => step_template_in_use id d = false
  | _ => True
  end.

Context (Hquiet : ∀ n, srv_fault srv n = NoFault).
Context (Horder : ∀ n A (l : list A), srv_order srv n A l ≡ₚ l).

(** *** Statements on a server without faults *)

(** The store after a statement outside of transactions. *)
Definition after s d : psqlStore srv := mkPsqlStore d (ps_txMap s) (ps_gid s) (S (ps_n s)).

Lemma after_idle s d : ps_tx s = None → ps_tx (after s d) = None.
Proof. done. Qed.

Lemma wp_exec_idle {A} `{EqDecision A} (f : Z → DB → result (DB * A)) (Q : result A → psqlStore srv → Prop) s :
  ps_tx s = None →
  match f (srv_now srv (ps_n s)) (ps_db s) with
  | Ok (d, a) => Q (Ok a) (after s d)
  | Err _ => Q (Err (Errorf "failed to execute")) (after s (ps_db s))
  end → wp (exec f) (returns Q) s.
Proof.
  intros Ht. unfold wp, exec, bind, get_state, ask, set_db, modify, error, ret. simpl.
  rewrite Ht, Hquiet. by destruct (f _ _) as [[d a]|e].
Qed.

Lemma wp_exec_update_idle (f : Z → DB → result DB) (Q : result unit → psqlStore srv → Prop) s :
  ps_tx s = None →
  match f (srv_now srv (ps_n s)) (ps_db s) with
  | Ok d => Q (Ok tt) (after s d)
  | Err _ => Q (Err (Errorf "failed to execute")) (after s (ps_db s))
  end → wp (exec_update f) (returns Q) s.
Proof. intros Ht H. apply wp_exec_idle; [done|]. by destruct (f _ _). Qed.

Lemma wp_query_idle {A} cut (q : nat → DB → result A) (Q : result A → psqlStore srv → Prop) s :
  ps_tx s = None →
  Q (match q (ps_n s) (ps_db s) with Ok a => Ok a | Err _ => Err (Errorf "failed to query") end)
    (after s (ps_db s)) →
  wp (query_with cut q) (returns Q) s.
Proof.
  intros Ht. unfold wp, query_with, bind, get_state, ask, error, ret. simpl.
  rewrite Ht, Hquiet. by destruct (q _ _).
Qed.

Lemma wp_query_row_idle {A} norows (q : DB → result (option A)) (Q : result A → psqlStore srv → Prop) s :
  ps_tx s = None →
  Q (match q (ps_db s) with
     | Ok (Some a) => Ok a
     | Ok None => Err norows
     | Err _ => Err (Errorf "failed to query")
     end) (after s (ps_db s)) →
  wp (query_row norows q) (returns Q) s.
Proof.
  intros Ht H. apply wp_or_else, wp_query_idle; [done|]. by destruct (q (ps_db s)) as [[a|]|e].
Qed.

Lemma wp_ignored_idle (f : DB → result DB) (Q : unit → psqlStore srv → Prop) s :
  ps_tx s = None →
  Q tt (after s (match f (ps_db s) with Ok d => d | Err _ => ps_db s end)) →
  wp (exec_ignored f) (returns Q) s.
Proof.
  intros Ht H. apply wp_bind_ret, wp_exec_update_idle; [done|].
  by destruct (f (ps_db s)).
Qed.

(** A row is found and changed, or it is not there. *)
Lemma wp_found_idle f e (k : Sql (result unit)) (Q : result unit → psqlStore srv → Prop) s d n :
  ps_tx s = None → f (ps_db s) = Ok (d, n) →
  (if decide (n = 0) then Q (Err e) (after s d) else wp k (returns Q) (after s d)) →
  wp (exec_found f e k) (returns Q) s.
Proof.
  intros Ht Hf H. apply wp_or_else, wp_exec_idle; [done|]. rewrite Hf. by destruct (decide (n = 0)).
Qed.

(** *** The operations *)

Definition law_of (op : CatOp) : Prop := ∀ s C,
  psql_shows s C → psql_admits s op →
  wp (psql_op op) (returns (λ a s', same_answer a (a_step op C).1 ∧ psql_shows s' (a_step op C).2)) s.

Lemma wp_answer {A} (m : Sql (result A)) f (Q : Answer → psqlStore srv → Prop) s :
  wp m (returns (λ r s', Q (match r with Ok a => f a | Err e => Failed e end) s')) s →
  wp (answer m f) (returns Q) s.
Proof. intros H. by apply wp_bind_ret. Qed.

Lemma law_change {A} (sql : DB → result (DB * nat)) set (m : gmap string A) id f e k s C C' :
  psql_shows s C → sound sql → sql (ps_db s) = Ok (touch set m id f (ps_db s)) →
  (is_Some (m !! id) → cat_of (set (partial_alter f id m) (ps_db s)) = C') →
  (∀ s', psql_shows s' C' → wp k (returns (λ r s'', r = Ok tt ∧ psql_shows s'' C')) s') →
  wp (exec_found sql e k) (returns (λ r s',
    same_answer (match r with Ok _ => Done | Err e => Failed e end) (a_change m id e C C').1 ∧
    psql_shows s' (a_change m id e C C').2)) s.
Proof.
  intros (Ht & Hw & HC) Hs Hsql Hcat Hk. unfold touch, a_change in *.
  destruct (m !! id) eqn:Hid; (eapply wp_found_idle; [done|exact Hsql|]); simpl; [|done].
  eapply wp_returns_mono; [|apply Hk]; [by intros r s' [-> ?]|].
  split; [done|]. split; [by eapply Hs|]. apply Hcat. by eexists.
Qed.

Lemma law_notified s C n (r : result unit) :
  psql_shows s C →
  wp (exec_ignored (sql_notify n) ;;; ret r) (returns (λ r' s', r' = r ∧ psql_shows s' C)) s.
Proof.
  intros (Ht & Hw & HC). apply wp_bind_ret, wp_ignored_idle; [done|]. apply wp_ret.
  split; [done|]. split; [done|]. split; [by eapply sound_notify|done].
Qed.

Lemma law_save {A} (m : DB → gmap string A) (insert_ : DB → result DB) set id a n s C :
  psql_shows s C → sound_update insert_ →
  (m (ps_db s) !! id = None → ∃ d, insert_ (ps_db s) = Ok d ∧ cat_of d = set (<[id := a]> (m (ps_db s))) C) →
  wp (exists_ <-? query_all (λ _ d, Ok (bool_decide (is_Some (m d !! id)))) else e => ret (Err e) ;;
      if exists_ : bool then ret (Ok false)
      else
        _ <-? exec_update (λ _, insert_) else e => ret (Err e) ;;
        exec_ignored (sql_notify n) ;;; ret (Ok true))
    (returns (λ r s',
       same_answer (match r with Ok b => Saved b | Err e => Failed e end)
         (a_save (m (ps_db s)) set id a C).1 ∧
       psql_shows s' (a_save (m (ps_db s)) set id a C).2)) s.
Proof.
  intros (Ht & Hw & HC) Hs Hins. unfold a_save. apply wp_or_else, wp_query_idle; [done|].
  destruct (m (ps_db s) !! id) eqn:Hid; simpl; [by apply wp_ret|].
  destruct (Hins eq_refl) as (d & Hd & Hcat).
  apply wp_or_else, wp_exec_update_idle; [done|]. simpl. rewrite Hd.
  apply wp_bind_ret, wp_ignored_idle; [done|]. apply wp_ret. split; [done|].
  split; [done|]. split; [|done]. simpl. eapply sound_notify; [|done]. by eapply Hs.
Qed.

(** In a well-formed database the templates that are not there have no step
    templates either. *)
Lemma no_orphans id d :
  well_formed d → db_saga_templates d !! id = None →
  filter (λ kt : string * SagaStepTemplate, sst_SagaTemplateId kt.2 ≠ id) (db_saga_step_templates d) =
    db_saga_step_templates d.
Proof.
  intros Hw Hid. apply map_filter_id. intros k t Ht Heq. simpl in Heq.
  destruct (wf_step_template d Hw k t Ht) as [_ [u Hu]]. congruence.
Qed.

Lemma law_delete_template id : law_of (DeleteTemplate id).
Proof.
  intros s C Hshow (Hok & Hg & Hx). destruct Hshow as (Ht & Hw & <-). apply wp_answer.
  apply wp_or_else, wp_exec_idle; [done|].
  destruct (sql_delete_step_templates_of id (ps_db s)) as [[d n]|] eqn:Hdel; [|done].
  pose proof (sound_delete_step_templates_of id _ _ _ Hw Hdel) as Hwd.
  unfold sql_delete_step_templates_of in Hdel. destruct (existsb _ _); [done|]. injection Hdel as Hd _.
  assert (cat_of d = with_step_templates
    (filter (λ kt, sst_SagaTemplateId kt.2 ≠ id) (db_saga_step_templates (ps_db s))) (cat_of (ps_db s)))
    as Hcat by by subst d.
  set (X := filter _ _) in *.
  assert (template_in_use id d = false) as Huse.
  { unfold template_in_use. subst d. cbn [db_saga_instances db_saga_step_instances set_db_saga_step_templates].
    rewrite Hg, Hx, !orb_false_r. apply not_true_iff_false. intros (t & Hin & Heq)%existsb_exists.
    apply list_elem_of_In, list_elem_of_fmap in Hin as ([k t'] & -> & Hk).
    apply elem_of_map_to_list, map_lookup_filter_Some in Hk as [_ Hk]. simpl in *.
    by apply String.eqb_eq in Heq. }
  assert (db_saga_templates d = db_saga_templates (ps_db s)) as Htd by by subst d.
  assert (sql_delete_template id d = Ok (touch set_db_saga_templates (db_saga_templates d) id (λ _, None) d))
    as Hsql by (unfold sql_delete_template; by rewrite Huse, andb_false_r).
  simpl. unfold a_change. fold X. rewrite <-Htd.
  assert (psql_shows (after s d) (cat_of d)) as Hshow by done.
  eapply wp_returns_mono; [|eapply (law_change _ _ _ _ _ _ _ _ _
    (mkCat (db_clusters d) (delete id (db_saga_templates d)) X) Hshow (sound_delete_template id) Hsql);
    [intros _; by subst d|intros s'; apply law_notified]].
  intros r s' [H1 H2]. unfold a_change in *.
  destruct (db_saga_templates d !! id) eqn:Hid; [by subst d|].
  split; [done|]. simpl in H2. rewrite Hcat in H2. rewrite Htd in Hid.
  subst X. rewrite (no_orphans id) in H2 by done. done.
Qed.

Lemma psql_law op : law_of op.
Proof.
  destruct op as [c|id|c|id| | |t|id|t|id| | |t|id|t|id| |]; try apply law_delete_template;
    intros s C Hshow Had; pose proof Hshow as (Ht & Hw & <-); apply wp_answer; simpl;
    try (apply wp_query_row_idle; [done|]; unfold a_get; by destruct (_ !! id));
    try (apply wp_query_idle; [done|]; split; [apply Horder|done]).
  - apply wp_or_else, wp_exec_idle; [done|]. pose proof (sound_insert_cluster c (ps_db s)) as Hs.
    unfold sql_insert_cluster, a_save in *. destruct (db_clusters (ps_db s) !! cl_Id c);
      apply wp_ret; (split; [done|]); (split; [done|]); (split; [by eapply Hs|done]).
  - by apply (law_change _ set_db_clusters _ _ (λ _, Some c)); [|apply sound_update_cluster| | |].
  - by apply (law_change _ set_db_clusters _ _ (λ _, None)); [|apply sound_delete_cluster| | |].
  - apply (law_save db_saga_templates); [done|apply sound_insert_template|].
    intros Hid. unfold sql_insert_template. rewrite Hid. by eexists.
  - by apply (law_change _ set_db_saga_templates _ _ (λ _, Some t));
      [|apply sound_update_template| | |intros s'; apply law_notified].
  - apply (law_save db_saga_step_templates); [done|apply sound_insert_step_template|].
    intros Hid. unfold sql_insert_step_template. destruct Had as [u Hu]. rewrite Hid, Hu. by eexists.
  - apply (law_change _ set_db_saga_step_templates _ _ (λ _, Some t));
      [done|apply sound_update_step_template| |done|intros s'; apply law_notified].
    unfold sql_update_step_template. destruct Had as [u Hu]. rewrite Hu.
    by destruct (db_saga_step_templates (ps_db s) !! sst_TemplateId t).
  - apply (law_change _ set_db_saga_step_templates _ _ (λ _, None));
      [done|apply sound_delete_step_template| |done|intros s'; apply law_notified].
    unfold sql_delete_step_template. simpl in Had. by rewrite Had, andb_false_r.
Qed.

(** The PostgreSQL store on a server without faults is a catalogue. *)
#[local] Instance psql_catalogue : CatalogueStore (psqlStore srv) := {
  run_op := psql_op;
  shows := psql_shows;
  admits := psql_admits;
  catalogue_law op s C := psql_law op s C;
}.
End psql.
