(* ===== verification/PsqlCatalogueSpecs.v ===== *)
(** * The control plane's operations on the PostgreSQL store

    What [Init] builds, what a listing shows, how annexes are attached, and
    what a deletion that fails half-way leaves behind. *)

From S2P Require Import Prelude GoMonad Model Naming GoStrings Query Database Store.
From S2P Require Import PsqlStore Catalogue Integrity CatalogueSpec.

Local Open Scope go_scope.

(** ** Tables *)

Section init.
Context {srv : Server}.
Implicit Types (s : psqlStore srv).

Definition all_tables (cid : string) (d : DB) : Prop :=
  is_Some (saga_table cid d) ∧ is_Some (annex_table cid d) ∧ is_Some (step_table cid d).

(** What a call leaves behind includes the tables there were, and the
    clusters are the same. *)
Definition more_tables (d d' : DB) : Prop :=
  db_clusters d' = db_clusters d ∧
  ∀ cid, (is_Some (saga_table cid d) → is_Some (saga_table cid d')) ∧
         (is_Some (annex_table cid d) → is_Some (annex_table cid d')) ∧
         (is_Some (step_table cid d) → is_Some (step_table cid d')).

#[local] Instance more_tables_refl : Reflexive more_tables.
Proof. intros d. split; [done|]. intros cid. tauto. Qed.
#[local] Instance more_tables_trans : Transitive more_tables.
Proof.
  intros d1 d2 d3 [C12 T12] [C23 T23]. split; [congruence|]. intros cid.
  specialize (T12 cid). specialize (T23 cid). tauto.
Qed.

Lemma create_if_absent_some {A} name n' (tables : gmap string (gmap string A)) :
  (is_Some (tables !! n') → is_Some (create_if_absent name tables !! n')) ∧
  is_Some (create_if_absent name tables !! name).
Proof.
  unfold create_if_absent. destruct (tables !! name) eqn:Hn; [done|]. split.
  - intros Hs. apply lookup_insert_is_Some. destruct (decide (name = n')); auto.
  - rewrite lookup_insert_eq. by eexists.
Qed.

Lemma create_saga_table_more cid d d' :
  sql_create_saga_table cid d = Ok d' → more_tables d d' ∧ is_Some (saga_table cid d').
Proof.
  intros [= <-]. split; [|apply (create_if_absent_some _ "")]. split; [done|].
  intros c. split; [|done]. apply create_if_absent_some.
Qed.

Lemma create_annex_table_more cid d d' :
  sql_create_annex_table cid d = Ok d' → more_tables d d' ∧ is_Some (annex_table cid d').
Proof.
  unfold sql_create_annex_table. destruct (saga_table cid d); [|done]. intros [= <-].
  split; [|apply (create_if_absent_some _ "")]. split; [done|].
  intros c. split; [done|]. split; [apply create_if_absent_some|done].
Qed.

Lemma create_step_table_more cid d d' :
  sql_create_step_table cid d = Ok d' → more_tables d d' ∧ is_Some (step_table cid d').
Proof.
  unfold sql_create_step_table. destruct (saga_table cid d); [|done]. intros [= <-].
  split; [|apply (create_if_absent_some _ "")]. split; [done|].
  intros c. split; [done|]. split; [done|apply create_if_absent_some].
Qed.

(** A statement that creates something: when it answers, it is there; it may
    be there when it fails. *)
Lemma wp_exec_direct f (P : DB → Prop) s :
  (∀ d d', f d = Ok d' → more_tables d d' ∧ P d') →
  wp (exec_direct f) (returns (λ r s', more_tables (ps_db s) (ps_db s') ∧ (r = Ok tt → P (ps_db s')))) s.
Proof.
  intros Hf. unfold wp, exec_direct, bind, get_state, ask, set_db, modify, error, ret. simpl.
  destruct (srv_fault srv (ps_n s)), (f (ps_db s)) as [d|e] eqn:Hd; simpl;
    try (by split); destruct (Hf _ _ Hd); by split.
Qed.

Lemma wp_create_indexes n s :
  wp (create_indexes n) (returns (λ _ s', more_tables (ps_db s) (ps_db s'))) s.
Proof.
  revert s. induction n as [|n IH]; intros s; simpl; [by apply wp_ret|].
  apply wp_or_else. eapply wp_returns_mono; [|apply (wp_exec_direct Ok (λ _, True))].
  - intros [[]|e] s1 [H1 _]; [|by apply wp_ret].
    eapply wp_returns_mono; [|apply IH]. intros r s2 H2. by etransitivity.
  - by intros d d' [= <-].
Qed.

Lemma wp_createClusterTables cid s :
  wp (createClusterTables cid) (returns (λ r s', more_tables (ps_db s) (ps_db s') ∧
    (r = Ok tt → all_tables cid (ps_db s')))) s.
Proof.
  unfold createClusterTables. apply wp_or_else.
  eapply wp_returns_mono; [|apply wp_exec_direct, create_saga_table_more].
  intros [[]|e] s1 [M1 P1]; [|by apply wp_ret]. specialize (P1 eq_refl).
  apply wp_or_else. eapply wp_returns_mono; [|apply wp_exec_direct, create_annex_table_more].
  intros [[]|e] s2 [M2 P2]; [|apply wp_ret; split; [by etransitivity|done]]. specialize (P2 eq_refl).
  apply wp_or_else. eapply wp_returns_mono; [|apply wp_exec_direct, create_step_table_more].
  intros [[]|e] s3 [M3 P3];
    [|apply wp_ret; split; [by etransitivity; [|etransitivity]|done]].
  specialize (P3 eq_refl). eapply wp_returns_mono; [|apply wp_create_indexes].
  intros r s4 M4. split; [by do 3 (etransitivity; [done|])|]. intros _.
  destruct M2 as [_ T2], M3 as [_ T3], M4 as [_ T4].
  specialize (T2 cid). specialize (T3 cid). specialize (T4 cid).
  unfold all_tables. tauto.
Qed.

Lemma wp_create_all cids s :
  wp (create_all cids) (returns (λ r s', more_tables (ps_db s) (ps_db s') ∧
    (r = Ok tt → ∀ cid, cid ∈ cids → all_tables cid (ps_db s')))) s.
Proof.
  revert s. induction cids as [|c cids IH]; intros s; simpl.
  { apply wp_ret. split; [done|]. by intros _ cid Hc%not_elem_of_nil. }
  apply wp_or_else. eapply wp_returns_mono; [|apply wp_createClusterTables].
  intros [[]|e] s1 [M1 P1]; [|by apply wp_ret]. specialize (P1 eq_refl).
  eapply wp_returns_mono; [|apply IH]. intros r s2 [M2 P2]. split; [by etransitivity|].
  intros Hr cid [->|Hc]%elem_of_cons; [|by apply P2].
  destruct M2 as [_ T2]. specialize (T2 c). unfold all_tables in *. tauto.
Qed.
End init.

Section properties.
Context {srv : Server}.
Implicit Types (s : psqlStore srv).

(** When [Init] succeeds, every cluster of the database has its three
    tables; whether or not it succeeds, no table and no cluster is lost. *)
Theorem init_creates_tables s
    (Horder : ∀ n A (l : list A), srv_order srv n A l ≡ₚ l) :
  ∃ r s', psql_Init s = (Ret r, s') ∧ db_clusters (ps_db s') = db_clusters (ps_db s) ∧
    (∀ cid, all_tables cid (ps_db s) → all_tables cid (ps_db s')) ∧
    (r = Ok tt → ∀ cid, is_Some (db_clusters (ps_db s) !! cid) → all_tables cid (ps_db s')).
Proof.
  apply ret_wp. unfold psql_Init. apply wp_or_else.
  assert (wp ping (returns (λ _ s', ps_db s' = ps_db s)) s) as Hping.
  { unfold wp, ping, bind, ask. simpl. by destruct (srv_fault srv (ps_n s)). }
  eapply wp_returns_mono; [|exact Hping].
  intros [[]|e] s1 H1; [|by apply wp_ret; simpl; rewrite H1].
  apply wp_or_else.
  assert (wp getClusterIds (returns (λ r s', ps_db s' = ps_db s1 ∧
    ∀ l, r = Ok l → l ≡ₚ (map_to_list (db_clusters (ps_db s1))).*1)) s1) as Hids.
  { unfold wp, getClusterIds, query_direct, bind, get_state, ask, error, ret. simpl.
    destruct (srv_fault srv (ps_n s1)); simpl; split; try done. intros l [= <-]. apply Horder. }
  eapply wp_returns_mono; [|exact Hids].
  intros [ids|e] s2 [H2 Hl]; [|by apply wp_ret; simpl; rewrite H2, H1]. specialize (Hl ids eq_refl).
  eapply wp_returns_mono; [|apply wp_create_all]. intros r s3 [[HC HT] HP].
  rewrite H2, H1 in *. split; [done|]. split.
  { intros cid Hall. specialize (HT cid). unfold all_tables in *. tauto. }
  intros Hr cid [c Hc]. apply HP; [done|]. rewrite Hl. apply list_elem_of_fmap. exists (cid, c).
  by rewrite elem_of_map_to_list.
Qed.

(** *** The listing of sagas *)

Lemma query_refused {A} cut (q : nat → DB → result A) s :
  (∀ n d, ∃ e, q n d = Err e) → ∃ e s', query_with cut q s = (Ret (Err e), s').
Proof.
  intros Hq. unfold query_with, bind, get_state, ask, set_tx, modify, error, ret.
  destruct (ps_tx s) as [[ws []]|]; [by repeat eexists|..].
  - destruct (replay ws (ps_db s)) as [d|]; [|by repeat eexists].
    destruct (Hq (ps_n s) d) as [e ->]. destruct (srv_fault srv (ps_n s)); by repeat eexists.
  - destruct (Hq (ps_n s) (ps_db s)) as [e ->].
    destruct (srv_fault srv (ps_n s)); by repeat eexists.
Qed.

(** A listing with a search is refused by the server, whatever is searched
    for: some of the columns that are compared with [ILIKE] are JSONB and are
    not cast to text; and with a filter besides, the placeholders are numbered
    past the arguments. *)
Theorem searches_are_refused int range cid (o : QueryOptions) s
    (Hrange : ∀ m, range m ≡ₚ map_to_list m) :
  plain_cluster cid = true → qo_Search o ≠ "" →
  ∃ e s', psql_ListSagaInstancesPaginated int range cid (Some o) s = (Ret (Err e), s').
Proof.
  intros Hplain Hs. unfold psql_ListSagaInstancesPaginated.
  assert (qo_Search (local_options (Some o)) ≠ "") as Hs'.
  { unfold local_options. simpl. by destruct (qo_SortBy o). }
  pose proof (searched_untyped range Hrange _ Hs') as Ht.
  destruct (where_clause range (local_options (Some o))) as [text args]. simpl in Ht.
  assert (accepts text (length args) = false) as Ha by (unfold accepts; by rewrite Ht, andb_false_r).
  unfold or_else, bind.
  destruct (query_refused (λ _ _, None)
    (λ _ d, run_statement cid text args (in_other_count int (countQuery cid text) args d)
       (saga_table cid d) (size (matching int text args cid d))) s) as (e & s' & Hq).
  { intros n d. unfold run_statement. rewrite Hplain, Ha. by eexists. }
  unfold query_all. rewrite Hq. by eexists e, s'.
Qed.

(** What the server does with the clauses, as far as the listing goes: the
    empty condition holds of every row; a page is made of rows, each once, and
    no more of them than the limit. *)
Class Pages (int : Interpreter) : Prop := {
  pages_everything : ∀ g, in_where int "" [] g = true;
  pages_rows : ∀ order page l, in_page int order page l ⊆+ l;
  pages_limit : ∀ order o l, (0 < qo_Limit o)%Z →
    length (in_page int order (BuildPaginationClause (Some o)) l) ≤ Z.to_nat (qo_Limit o);
}.

(** Without a search the listing answers, on a server without faults: the
    number of sagas that pass the filters, and some of them, at most as many
    as the limit. *)
Theorem listing_answers int range cid (o : QueryOptions) s `{!Pages int}
    (Hrange : ∀ m, range m ≡ₚ map_to_list m)
    (Hquiet : ∀ n, srv_fault srv n = NoFault)
    (Horder : ∀ n A (l : list A), srv_order srv n A l ≡ₚ l) :
  plain_cluster cid = true → qo_Search o = "" → ps_tx s = None →
  is_Some (saga_table cid (ps_db s)) →
  ∃ rows s', let local := local_options (Some o) in
    let '(text, args) := where_clause range local in
    psql_ListSagaInstancesPaginated int range cid (Some o) s =
      (Ret (Ok (rows, size (matching int text args cid (ps_db s)))), s') ∧
    args = (applied_filters range local).*2 ∧
    rows ⊆+ (map_to_list (matching int text args cid (ps_db s))).*2 ∧
    ((0 < qo_Limit o)%Z → length rows ≤ Z.to_nat (qo_Limit o)) ∧
    ps_db s' = ps_db s.
Proof.
  intros Hplain Hs Ht [t Htab]. unfold psql_ListSagaInstancesPaginated.
  assert (qo_Search (local_options (Some o)) = "") as Hs'.
  { unfold local_options. simpl. by destruct (qo_SortBy o). }
  assert (qo_Limit (local_options (Some o)) = qo_Limit o) as Hlim.
  { unfold local_options. simpl. by destruct (qo_SortBy o). }
  pose proof (unsearched_accepted range Hrange _ Hs') as Hacc.
  destruct (where_clause range (local_options (Some o))) as [text args]. destruct Hacc as [Ha Hargs].
  set (order := BuildOrderByClause _ _). set (page := BuildPaginationClause _). cbv zeta.
  set (m := matching int text args cid (ps_db s)).
  set (rows := in_page int order page (srv_order srv (S (ps_n s)) _ (map_to_list m).*2)).
  assert (∀ A other (a : A), run_statement cid text args other (saga_table cid (ps_db s)) a = Ok a)
    as Hrun by (intros A other a; unfold run_statement; by rewrite Hplain, Ha, Htab).
  match goal with |- ∃ _ _, ?op s = _ ∧ _ =>
    assert (wp op (returns (λ r s', r = Ok (rows, size m) ∧ ps_db s' = ps_db s)) s) as Hop end.
  { apply wp_or_else, (wp_query_idle Hquiet); [done|]. rewrite Hrun.
    apply wp_or_else, (wp_query_idle Hquiet); [done|]. simpl. rewrite Hrun. by apply wp_ret. }
  destruct (ret_wp _ _ _ Hop) as (r & s' & Heq & -> & Hd). exists rows, s'.
  split; [exact Heq|]. split; [done|]. split; [|split; [|done]].
  - etransitivity; [apply pages_rows|]. by rewrite Horder.
  - intros Hl. rewrite <-Hlim. apply pages_limit. by rewrite Hlim.
Qed.
End properties.

(** A store with one cluster and no tables, and one with the tables and a
    saga. *)
Definition bare_store : psqlStore calm_server :=
  mkPsqlStore (mkDB {["main" := mkCluster "main" "Main" "" ∅ [] ∅]} ∅ ∅ ∅ ∅ ∅ []) ∅ 0 0.

Definition one_saga_store : psqlStore calm_server :=
  mkPsqlStore
    (mkDB ∅ ∅ ∅
       {[getSagaInstancesTableName "main" := {["s1" := sample_saga SagaStateEnum_Blocked ""]}]}
       ∅ ∅ []) ∅ 0 0.

Lemma init_creates_tables_witness :
  ∃ s', psql_Init bare_store = (Ret (Ok tt), s') ∧ all_tables "main" (ps_db s').
Proof.
  destruct (init_creates_tables bare_store (λ _ _ _, reflexivity _)) as (r & s' & Hrun & _ & _ & Hall).
  assert (r = Ok tt) as ->.
  { assert (H : (psql_Init bare_store).1 = Ret r) by (rewrite Hrun; reflexivity).
    vm_compute in H. congruence. }
  exists s'. split; [exact Hrun|]. apply (Hall eq_refl). by eexists.
Defined.

(** A server that shows the first row of every page. *)
Definition sample_interpreter : Interpreter :=
  mkInterpreter (λ _ _ _, true) (λ _ page l, if String.eqb page "" then l else take 1 l)
    (λ _ _ _, Err (Errorf "syntax error")) (λ _ _ _, Err (Errorf "syntax error")).

Lemma searches_are_refused_witness :
  ∃ e s', psql_ListSagaInstancesPaginated sample_interpreter map_to_list "main"
    (Some (mkQueryOptions 0 50 "" "" [] "acme" ∅)) one_saga_store = (Ret (Err e), s').
Proof.
  apply (searches_are_refused sample_interpreter map_to_list "main"
    (mkQueryOptions 0 50 "" "" [] "acme" ∅) one_saga_store (λ m, reflexivity _)); done.
Defined.

#[export] Instance sample_interpreter_pages : Pages sample_interpreter.
Proof.
  split; [done|..].
  - intros order page l. simpl. destruct (String.eqb page ""); [done|]. apply sublist_submseteq.
    apply sublist_take.
  - intros order o l Hl. unfold BuildPaginationClause. rewrite (proj2 (Z.leb_gt _ _)) by lia.
    simpl. rewrite length_take. lia.
Qed.

Lemma listing_answers_witness :
  ∃ rows s',
    psql_ListSagaInstancesPaginated sample_interpreter map_to_list "main"
      (Some (mkQueryOptions 0 50 "" "" [] "" ∅)) one_saga_store = (Ret (Ok (rows, 1)), s') ∧
    length rows ≤ 50.
Proof.
  destruct (listing_answers sample_interpreter map_to_list "main"
    (mkQueryOptions 0 50 "" "" [] "" ∅) one_saga_store (λ m, reflexivity _) (λ _, eq_refl)
    (λ _ _ _, reflexivity _) eq_refl eq_refl eq_refl ltac:(by eexists)) as (rows & s' & H).
  exists rows, s'. simpl in H. destruct H as (Hrun & _ & _ & Hlen & _).
  split; [exact Hrun|exact (Hlen eq_refl)].
Defined.

(** ** Annexes *)

Section annexes.
Context {srv : Server}.
Context (Hquiet : ∀ n, srv_fault srv n = NoFault).
Implicit Types (s : psqlStore srv).

(** The length that is stored. *)
Definition annex_length (a : SagaAnnex) : Z :=
  if (an_ContentLength a =? 0)%Z then Z.of_nat (length (an_ContentData a)) else an_ContentLength a.

Lemma annex_rows_upsert ts a t d d' :
  annex_table (an_ClusterId a) d = Some t → sql_upsert_annex ts a d = Ok d' →
  saga_rows (an_ClusterId a) d' = saga_rows (an_ClusterId a) d ∧
  is_Some (saga_table (an_ClusterId a) d') ∧
  ∃ created, annex_rows (an_ClusterId a) d' =
    <[an_Iid a := set_an_CreatedAt created (set_an_UpdatedAt ts a)]> (annex_rows (an_ClusterId a) d).
Proof.
  intros Ht. unfold sql_upsert_annex. rewrite Ht.
  destruct (saga_rows (an_ClusterId a) d !! _) eqn:Hg; [|done]. intros [= <-].
  split; [done|]. split.
  { unfold saga_rows in Hg. unfold saga_table at 1. simpl. unfold saga_table in *.
    destruct (db_saga_instances d !! _); [by eexists|]. simpl in Hg.
    by rewrite fmap_empty, lookup_empty in Hg. }
  eexists. unfold annex_rows, annex_table in *. simpl. rewrite lookup_insert_eq, Ht. simpl.
  by rewrite fmap_insert.
Qed.

(** An annex of a saga that is there is stored.  If the saga has a list of
    annexes it lists it exactly once, however often it is sent; if it was saved
    with nil the statement that attaches fails, and the row of the annex stays.
    For a saga that is not there nothing is stored, and the error is not
    [ErrSagaInstanceNotFound]. *)
Lemma annex_is_attached a s :
  let cid := an_ClusterId a in
  let sid := an_SagaInstanceId a in
  an_Iid a ≠ "" → sid ≠ "" → cid ≠ "" → ps_tx s = None → is_Some (annex_table cid (ps_db s)) →
  match saga_rows cid (ps_db s) !! sid with
  | Some g => ∃ s' created updated,
      psql_CreateSagaAnnex a s =
        (Ret (if si_AnnexIids g then Ok tt else Err (Errorf "failed to execute")), s') ∧ ps_tx s' = None ∧
      annex_rows cid (ps_db s') !! an_Iid a =
        Some (set_an_CreatedAt created (set_an_UpdatedAt updated
                (set_an_ContentLength (annex_length a) a))) ∧
      ∃ g', saga_rows cid (ps_db s') !! sid = Some g' ∧
        si_AnnexIids g' = (λ iids, filter (λ i, i ≠ an_Iid a) iids ++ [an_Iid a]) <$> si_AnnexIids g
  | None => ∃ s', psql_CreateSagaAnnex a s = (Ret (Err (Errorf "failed to execute")), s') ∧
      ps_db s' = ps_db s
  end.
Proof.
  intros cid sid Hi Hs Hc Ht [t Htab].
  set (a' := set_an_ContentLength (annex_length a) a).
  assert (String.eqb (an_Iid a) "" || String.eqb sid "" || String.eqb cid "" = false) as Hguard.
  { by rewrite !(proj2 (String.eqb_neq _ _)). }
  assert (∀ (Q : result unit → psqlStore srv → Prop),
    match sql_upsert_annex (srv_now srv (ps_n s)) a' (ps_db s) with
    | Ok d => match sql_attach_annex cid sid (an_Iid a) (srv_now srv (S (ps_n s))) d with
              | Ok (d', n) => if decide (n = 0) then Q (Err ErrSagaInstanceNotFound) (after (after s d) d')
                              else Q (Ok tt) (after (after s d) d')
              | Err _ => Q (Err (Errorf "failed to execute")) (after (after s d) d)
              end
    | Err _ => Q (Err (Errorf "failed to execute")) (after s (ps_db s))
    end → wp (psql_CreateSagaAnnex a) (returns Q) s) as Hop.
  { intros Q HQ. unfold psql_CreateSagaAnnex. fold sid cid. rewrite Hguard.
    apply wp_or_else, (wp_exec_update_idle Hquiet); [done|]. fold (annex_length a). fold a'.
    destruct (sql_upsert_annex _ a' (ps_db s)) as [d|e]; [|done].
    apply wp_or_else, (wp_exec_idle Hquiet); [done|]. cbn [ps_n after ps_db].
    destruct (sql_attach_annex _ _ _ _ d) as [[d' n]|e']; [|done]. by destruct (decide (n = 0)). }
  destruct (saga_rows cid (ps_db s) !! sid) as [g|] eqn:Hg.
  - destruct (sql_upsert_annex (srv_now srv (ps_n s)) a' (ps_db s)) as [d|e] eqn:Hup.
    2: { unfold sql_upsert_annex in Hup. change (an_ClusterId a') with cid in Hup.
         change (an_SagaInstanceId a') with sid in Hup. by rewrite Htab, Hg in Hup. }
    destruct (annex_rows_upsert _ a' t _ _ Htab Hup) as (Hrows & [t' Ht'] & created & Hann).
    change (an_ClusterId a') with cid in *.
    destruct (si_AnnexIids g) as [iids|] eqn:Hiids.
    2: { assert (sql_attach_annex cid sid (an_Iid a) (srv_now srv (S (ps_n s))) d =
           Err (Errorf "cannot delete from scalar")) as Hat
           by (unfold sql_attach_annex; by rewrite Ht', Hrows, Hg, Hiids).
         pose proof (Hop (λ r s', r = Err (Errorf "failed to execute") ∧ ps_db s' = d ∧ ps_tx s' = None)) as Herr.
         rewrite Hat in Herr.
         destruct (ret_wp _ _ _ (Herr (conj eq_refl (conj eq_refl Ht)))) as (r & s' & Heq & -> & Hd & Htx).
         exists s', created, (srv_now srv (ps_n s)). split; [done|]. split; [done|]. rewrite Hd. split.
         - rewrite Hann. by rewrite lookup_insert_eq.
         - exists g. by rewrite Hrows. }
    set (d' := upd_saga cid sid (attach_iid (an_Iid a) (srv_now srv (S (ps_n s)))) d).
    assert (sql_attach_annex cid sid (an_Iid a) (srv_now srv (S (ps_n s))) d = Ok (d', 1)) as Hat
      by (unfold sql_attach_annex; by rewrite Ht', Hrows, Hg, Hiids).
    pose proof (Hop (λ r s', r = Ok tt ∧ ps_db s' = d' ∧ ps_tx s' = None)) as Hok. rewrite Hat in Hok.
    destruct (ret_wp _ _ _ (Hok (conj eq_refl (conj eq_refl Ht)))) as (r & s' & Heq & -> & Hd & Htx).
    exists s', created, (srv_now srv (ps_n s)). split; [done|]. split; [done|]. rewrite Hd. split.
    + change (annex_rows cid d') with (annex_rows cid d). rewrite Hann. by rewrite lookup_insert_eq.
    + eexists. unfold d'. rewrite saga_rows_upd by (apply gr_update).
      rewrite lookup_alter_eq, Hrows, Hg. split; [done|]. simpl. by rewrite Hiids.
  - pose proof (Hop (λ r s', r = Err (Errorf "failed to execute") ∧ ps_db s' = ps_db s)) as Herr.
    unfold sql_upsert_annex in Herr. change (an_ClusterId a') with cid in Herr.
    change (an_SagaInstanceId a') with sid in Herr. rewrite Htab, Hg in Herr.
    destruct (ret_wp _ _ _ (Herr (conj eq_refl eq_refl))) as (r & s' & Heq & -> & Hd). by exists s'.
Qed.
End annexes.

(** ** Deletions *)

Section deletions.
Context {srv : Server}.
Implicit Types (s : psqlStore srv).

(** When the second statement of a deletion fails outside of a transaction,
    the template is left without its steps. *)
Theorem half_deleted id s d n :
  ps_tx s = None → srv_fault srv (ps_n s) = NoFault → srv_fault srv (S (ps_n s)) = Refused →
  sql_delete_step_templates_of id (ps_db s) = Ok (d, n) →
  ∃ e s', psql_DeleteSagaTemplate id s = (Ret (Err e), s') ∧
    db_saga_templates (ps_db s') = db_saga_templates (ps_db s) ∧
    ∀ k t, db_saga_step_templates (ps_db s') !! k = Some t → sst_SagaTemplateId t ≠ id.
Proof.
  intros Ht H0 H1 Hd. unfold psql_DeleteSagaTemplate, exec_found, exec, or_else, bind, get_state, ask,
    set_db, modify, error, ret.
  rewrite Ht, H0, Hd. cbn [ps_n ps_db ps_txMap ps_gid]. unfold ps_tx in *. cbn [ps_txMap ps_gid].
  rewrite Ht, H1. eexists _, _. split; [reflexivity|]. cbn [ps_db].
  unfold sql_delete_step_templates_of in Hd. destruct (existsb _ _); [done|].
  injection Hd as <- <-. split; [done|]. intros k t. simpl. by intros [_ Hk]%map_lookup_filter_Some.
Qed.

(** A cluster that is saved gets no tables until the next [Init]. *)
Theorem saved_cluster_has_no_tables c s (cid := cl_Id c) :
  ps_tx s = None → ¬ is_Some (saga_table cid (ps_db s)) →
  ¬ is_Some (saga_table cid (ps_db (psql_SaveClusterIdempotently c s).2)).
Proof.
  intros Ht Hno. unfold psql_SaveClusterIdempotently, or_else, exec, bind, get_state, ask, set_db,
    modify, error, ret. rewrite Ht. unfold sql_insert_cluster.
  by destruct (srv_fault srv (ps_n s)), (db_clusters (ps_db s) !! cl_Id c).
Qed.
End deletions.
