(* ===== verification/Inmem.v ===== *)
(** * The in-memory store

    [inMemoryStore] of [pkg/trax/store_inmem.go]: maps of pointers to objects
    that the caller made and still holds.  The objects live in a heap, one
    address space per type; an operation takes and returns addresses, so two
    holders of an address see each other's writes.  A map is ranged over in an
    order that may be different each time: [order n] is that of the [n]-th
    range loop. *)

From stdpp Require Import pretty.
From S2P Require Import Prelude GoMonad Model Naming GoStrings Query Json.

Local Open Scope go_scope.

Definition ptr : Type := nat.

Record inMemoryStore := mkInMemoryStore {
  (* the heap *)
  hp_template : gmap ptr SagaTemplate;
  hp_step_template : gmap ptr SagaStepTemplate;
  hp_saga : gmap ptr SagaInstance;
  hp_step : gmap ptr SagaStepInstance;
  hp_cluster : gmap ptr Cluster;
  hp_annex : gmap ptr SagaAnnex;
  (* the fields of the store *)
  im_sagaTemplates : gmap string ptr;
  im_sagaStepTemplates : gmap string ptr;
  im_sagaInstances : gmap string ptr;
  im_sagaStepInstances : gmap string ptr;
  im_clusters : gmap string ptr;
  im_sagaAnnexes : gmap string ptr;
  (* range loops so far *)
  im_n : nat;
}.

(** The store of [NewInMemoryStore] in a program with a given heap. *)
Definition NewInMemoryStore (s : inMemoryStore) : inMemoryStore :=
  mkInMemoryStore (hp_template s) (hp_step_template s) (hp_saga s) (hp_step s) (hp_cluster s)
    (hp_annex s) ∅ ∅ ∅ ∅ ∅ ∅ (im_n s).

Definition set_hp_template v s := mkInMemoryStore v (hp_step_template s) (hp_saga s) (hp_step s)
  (hp_cluster s) (hp_annex s) (im_sagaTemplates s) (im_sagaStepTemplates s) (im_sagaInstances s)
  (im_sagaStepInstances s) (im_clusters s) (im_sagaAnnexes s) (im_n s).
Definition set_hp_step_template v s := mkInMemoryStore (hp_template s) v (hp_saga s) (hp_step s)
  (hp_cluster s) (hp_annex s) (im_sagaTemplates s) (im_sagaStepTemplates s) (im_sagaInstances s)
  (im_sagaStepInstances s) (im_clusters s) (im_sagaAnnexes s) (im_n s).
Definition set_hp_cluster v s := mkInMemoryStore (hp_template s) (hp_step_template s) (hp_saga s)
  (hp_step s) v (hp_annex s) (im_sagaTemplates s) (im_sagaStepTemplates s) (im_sagaInstances s)
  (im_sagaStepInstances s) (im_clusters s) (im_sagaAnnexes s) (im_n s).
Definition set_hp_saga v s := mkInMemoryStore (hp_template s) (hp_step_template s) v (hp_step s)
  (hp_cluster s) (hp_annex s) (im_sagaTemplates s) (im_sagaStepTemplates s) (im_sagaInstances s)
  (im_sagaStepInstances s) (im_clusters s) (im_sagaAnnexes s) (im_n s).
Definition set_hp_step v s := mkInMemoryStore (hp_template s) (hp_step_template s) (hp_saga s) v
  (hp_cluster s) (hp_annex s) (im_sagaTemplates s) (im_sagaStepTemplates s) (im_sagaInstances s)
  (im_sagaStepInstances s) (im_clusters s) (im_sagaAnnexes s) (im_n s).
Definition set_hp_annex v s := mkInMemoryStore (hp_template s) (hp_step_template s) (hp_saga s)
  (hp_step s) (hp_cluster s) v (im_sagaTemplates s) (im_sagaStepTemplates s) (im_sagaInstances s)
  (im_sagaStepInstances s) (im_clusters s) (im_sagaAnnexes s) (im_n s).
Definition set_im_sagaTemplates v s := mkInMemoryStore (hp_template s) (hp_step_template s)
  (hp_saga s) (hp_step s) (hp_cluster s) (hp_annex s) v (im_sagaStepTemplates s)
  (im_sagaInstances s) (im_sagaStepInstances s) (im_clusters s) (im_sagaAnnexes s) (im_n s).
Definition set_im_sagaStepTemplates v s := mkInMemoryStore (hp_template s) (hp_step_template s)
  (hp_saga s) (hp_step s) (hp_cluster s) (hp_annex s) (im_sagaTemplates s) v (im_sagaInstances s)
  (im_sagaStepInstances s) (im_clusters s) (im_sagaAnnexes s) (im_n s).
Definition set_im_sagaInstances v s := mkInMemoryStore (hp_template s) (hp_step_template s)
  (hp_saga s) (hp_step s) (hp_cluster s) (hp_annex s) (im_sagaTemplates s)
  (im_sagaStepTemplates s) v (im_sagaStepInstances s) (im_clusters s) (im_sagaAnnexes s) (im_n s).
Definition set_im_sagaStepInstances v s := mkInMemoryStore (hp_template s) (hp_step_template s)
  (hp_saga s) (hp_step s) (hp_cluster s) (hp_annex s) (im_sagaTemplates s)
  (im_sagaStepTemplates s) (im_sagaInstances s) v (im_clusters s) (im_sagaAnnexes s) (im_n s).
Definition set_im_clusters v s := mkInMemoryStore (hp_template s) (hp_step_template s)
  (hp_saga s) (hp_step s) (hp_cluster s) (hp_annex s) (im_sagaTemplates s)
  (im_sagaStepTemplates s) (im_sagaInstances s) (im_sagaStepInstances s) v (im_sagaAnnexes s)
  (im_n s).
Definition set_im_sagaAnnexes v s := mkInMemoryStore (hp_template s) (hp_step_template s)
  (hp_saga s) (hp_step s) (hp_cluster s) (hp_annex s) (im_sagaTemplates s)
  (im_sagaStepTemplates s) (im_sagaInstances s) (im_sagaStepInstances s) (im_clusters s) v (im_n s).
Definition set_im_n v s := mkInMemoryStore (hp_template s) (hp_step_template s)
  (hp_saga s) (hp_step s) (hp_cluster s) (hp_annex s) (im_sagaTemplates s)
  (im_sagaStepTemplates s) (im_sagaInstances s) (im_sagaStepInstances s) (im_clusters s)
  (im_sagaAnnexes s) v.

(** ** Sorting

    [sort.SliceStable]: elements that [less] does not tell apart keep their
    order. *)

Section sorting.
Context {A : Type} (less : A → A → bool).

Fixpoint insert_sorted (x : A) (l : list A) : list A :=
  match l with
  | [] => [x]
  | y :: l => if less y x then y :: insert_sorted x l else x :: y :: l
  end.

Definition SliceStable (l : list A) : list A := foldr insert_sorted [] l.
End sorting.

Definition inMemorySagaSortKey (s : SagaInstance) (column : string) : string :=
  if String.eqb column "instance_id" then si_InstanceId s
  else if String.eqb column "created_at" then pretty (si_CreatedAt s)
  else if String.eqb column "updated_at" then pretty (si_UpdatedAt s)
  else if String.eqb column "state" then SagaStateEnum_string (si_State s)
  else if String.eqb column "saga_template_id" then si_SagaTemplateId s
  else if String.eqb column "saga_submitter_id" then si_SagaSubmitterId s
  else if String.eqb column "trace_id" then si_TraceId s
  else if String.eqb column "execution_id" then si_ExecutionId s
  else if String.eqb column "zone_id" then si_ZoneId s
  else "".

Definition haystack (instance : SagaInstance) : string :=
  lower (Join
    [si_InstanceId instance; si_ZoneId instance; si_TraceId instance; si_ExecutionId instance;
     si_SagaSubmitterId instance; si_Origin instance; si_OriginIdempotencyKey instance;
     json_map (si_Labels instance); json_list (si_Tags instance); json_map (si_Metadata instance);
     json_map (si_Input instance); SagaStateEnum_string (si_State instance);
     si_SagaTemplateId instance; si_ParentSagaInstanceId instance;
     si_ParentSagaStepInstanceId instance; si_RootSagaInstanceId instance;
     si_CompensationReason instance] " ").

(** ** The operations *)

Section operations.
Context (order : nat → ∀ A, list A → list A).
#[local] Notation IM := (M inMemoryStore).

Definition fails {A} (msg : string) : IM (result A) := ret (Err (Errorf msg)).

(** Dereferencing. *)
Definition load {A} (heap : inMemoryStore → gmap ptr A) (p : ptr) : IM A := λ s,
  match heap s !! p with
  | Some a => (Ret a, s)
  | None => (Panic "invalid memory address or nil pointer dereference", s)
  end.

(** [&T{...}]: a new object, at an address that is not in use. *)
Definition new {A} (heap : inMemoryStore → gmap ptr A)
    (set : gmap ptr A → inMemoryStore → inMemoryStore) (a : A) : IM ptr := λ s,
  let p := fresh (dom (heap s)) in (Ret p, set (<[p := a]> (heap s)) s).

Fixpoint load_all {A} (heap : inMemoryStore → gmap ptr A) (ps : list ptr) : IM (list (ptr * A)) :=
  match ps with
  | [] => ret []
  | p :: ps => a <- load heap p ;; l <- load_all heap ps ;; ret ((p, a) :: l)
  end.

Definition range_map {A} (m : gmap string A) : IM (list (string * A)) := λ s,
  (Ret (order (im_n s) _ (map_to_list m)), set_im_n (S (im_n s)) s).

(** The objects of a map that satisfy a condition, as they are ranged over. *)
Definition select {A} (heap : inMemoryStore → gmap ptr A) (m : inMemoryStore → gmap string ptr)
    (P : A → bool) : IM (list (ptr * A)) :=
  s <- get_state ;;
  entries <- range_map (m s) ;;
  objects <- load_all heap entries.*2 ;;
  ret (List.filter (λ pa, P pa.2) objects).

Definition find_first {A} (heap : inMemoryStore → gmap ptr A) (m : inMemoryStore → gmap string ptr)
    (P : A → bool) (notfound : goerror) : IM (result ptr) :=
  found <- select heap m P ;;
  ret (match found with (p, _) :: _ => Ok p | [] => Err notfound end).

Definition list_where {A} (heap : inMemoryStore → gmap ptr A) (m : inMemoryStore → gmap string ptr)
    (P : A → bool) : IM (result (list ptr)) :=
  found <- select heap m P ;; ret (Ok found.*1).

Definition list_keys (m : inMemoryStore → gmap string ptr) : IM (result (list string)) :=
  s <- get_state ;; entries <- range_map (m s) ;; ret (Ok entries.*1).

(** [if _, exists := m[key]; exists { return false, nil }; m[key] = p] *)
Definition save_once (m : inMemoryStore → gmap string ptr)
    (set : gmap string ptr → inMemoryStore → inMemoryStore) (key : string) (p : ptr) :
    IM (result bool) :=
  s <- get_state ;;
  match m s !! key with
  | Some _ => ret (Ok false)
  | None => modify (set (<[key := p]> (m s))) ;;; ret (Ok true)
  end.

Definition require_key (m : inMemoryStore → gmap string ptr) (key : string) (e : goerror)
    (k : IM (result unit)) : IM (result unit) :=
  s <- get_state ;;
  match m s !! key with None => ret (Err e) | Some _ => k end.

Definition get_key (m : inMemoryStore → gmap string ptr) (key : string) (e : goerror) :
    IM (result ptr) :=
  s <- get_state ;;
  ret (match m s !! key with None => Err e | Some p => Ok p end).

Definition im_Init : IM (result unit) := ret (Ok tt).
Definition im_Close : IM (result unit) := ret (Ok tt).
Definition im_HealthCheck : IM (result unit) := ret (Ok tt).
Definition im_Listen (channel : string) : IM (result unit) :=
  fails "LISTEN/NOTIFY not supported for in-memory store".
Definition im_Unlisten (channel : string) : IM (result unit) :=
  fails "UNLISTEN not supported for in-memory store".
Definition im_Notify (channel payload : string) : IM (result unit) := ret (Ok tt).
Definition im_BeginTransaction : IM (result unit) := ret (Ok tt).
Definition im_CommitTransaction : IM (result unit) := ret (Ok tt).
Definition im_RollbackTransaction : IM (result unit) := ret (Ok tt).

(** *** Templates *)

Definition im_SaveSagaTemplateIdempotently (sagaTemplate : ptr) : IM (result bool) :=
  t <- load hp_template sagaTemplate ;;
  save_once im_sagaTemplates set_im_sagaTemplates (st_TemplateId t) sagaTemplate.

Definition im_GetSagaTemplate (templateId : string) : IM (result ptr) :=
  get_key im_sagaTemplates templateId (Errorf "saga template not found").

Definition im_ListSagaTemplates : IM (result (list ptr)) :=
  s <- get_state ;; entries <- range_map (im_sagaTemplates s) ;; ret (Ok entries.*2).
Definition im_ListSagaTemplateIds : IM (result (list string)) := list_keys im_sagaTemplates.

Definition im_UpdateSagaTemplate (sagaTemplate : ptr) : IM (result unit) :=
  t <- load hp_template sagaTemplate ;;
  require_key im_sagaTemplates (st_TemplateId t)
    (Errorf ("saga template not found: " +:+ st_TemplateId t))
    (modify (λ s, set_im_sagaTemplates (<[st_TemplateId t := sagaTemplate]> (im_sagaTemplates s)) s) ;;;
     ret (Ok tt)).

(** [for id, step := range s.sagaStepTemplates]; deleting the entry at hand
    is allowed in a range loop. *)
Fixpoint delete_steps_of (templateId : string) (entries : list (string * ptr)) : IM unit :=
  match entries with
  | [] => ret tt
  | (id, p) :: entries =>
      step <- load hp_step_template p ;;
      (if String.eqb (sst_SagaTemplateId step) templateId
       then modify (λ s, set_im_sagaStepTemplates (delete id (im_sagaStepTemplates s)) s)
       else ret tt) ;;;
      delete_steps_of templateId entries
  end.

Definition im_DeleteSagaTemplate (templateId : string) : IM (result unit) :=
  require_key im_sagaTemplates templateId (Errorf ("saga template not found: " +:+ templateId))
    (s <- get_state ;;
     entries <- range_map (im_sagaStepTemplates s) ;;
     delete_steps_of templateId entries ;;;
     modify (λ s, set_im_sagaTemplates (delete templateId (im_sagaTemplates s)) s) ;;;
     ret (Ok tt)).

Definition im_SaveSagaStepTemplateIdempotently (sagaStepTemplate : ptr) : IM (result bool) :=
  t <- load hp_step_template sagaStepTemplate ;;
  save_once im_sagaStepTemplates set_im_sagaStepTemplates (sst_TemplateId t) sagaStepTemplate.

Definition im_GetSagaStepTemplate (templateId : string) : IM (result ptr) :=
  get_key im_sagaStepTemplates templateId (Errorf "saga step template not found").

Definition im_ListSagaStepTemplates : IM (result (list ptr)) :=
  s <- get_state ;; entries <- range_map (im_sagaStepTemplates s) ;; ret (Ok entries.*2).
Definition im_ListSagaStepTemplateIds : IM (result (list string)) := list_keys im_sagaStepTemplates.

Definition im_UpdateSagaStepTemplate (sagaStepTemplate : ptr) : IM (result unit) :=
  t <- load hp_step_template sagaStepTemplate ;;
  require_key im_sagaStepTemplates (sst_TemplateId t)
    (Errorf ("saga step template not found: " +:+ sst_TemplateId t))
    (modify (λ s, set_im_sagaStepTemplates
                    (<[sst_TemplateId t := sagaStepTemplate]> (im_sagaStepTemplates s)) s) ;;;
     ret (Ok tt)).

Definition im_DeleteSagaStepTemplate (templateId : string) : IM (result unit) :=
  require_key im_sagaStepTemplates templateId
    (Errorf ("saga step template not found: " +:+ templateId))
    (modify (λ s, set_im_sagaStepTemplates (delete templateId (im_sagaStepTemplates s)) s) ;;;
     ret (Ok tt)).

(** *** Clusters *)

Definition im_SaveClusterIdempotently (cluster : ptr) : IM (result bool) :=
  c <- load hp_cluster cluster ;;
  save_once im_clusters set_im_clusters (cl_Id c) cluster.

Definition im_GetCluster (id : string) : IM (result ptr) :=
  get_key im_clusters id (Errorf "cluster not found").

Definition im_UpdateCluster (cluster : ptr) : IM (result unit) :=
  c <- load hp_cluster cluster ;;
  require_key im_clusters (cl_Id c) (Errorf "cluster not found")
    (modify (λ s, set_im_clusters (<[cl_Id c := cluster]> (im_clusters s)) s) ;;; ret (Ok tt)).

Definition im_DeleteCluster (id : string) : IM (result unit) :=
  require_key im_clusters id (Errorf "cluster not found")
    (modify (λ s, set_im_clusters (delete id (im_clusters s)) s) ;;; ret (Ok tt)).

Definition im_ListClusters : IM (result (list ptr)) :=
  s <- get_state ;; entries <- range_map (im_clusters s) ;; ret (Ok entries.*2).
Definition im_ListClusterIds : IM (result (list string)) := list_keys im_clusters.

(** *** Sagas *)

Definition im_SaveSagaInstanceIdempotently (saga : ptr) : IM (result bool) :=
  g <- load hp_saga saga ;;
  save_once im_sagaInstances set_im_sagaInstances (saga_SagaIdempotencyKey g) saga.

Definition write_saga (f : SagaInstance → SagaInstance) (p : ptr) : IM unit :=
  modify (λ s, set_hp_saga (alter f p (hp_saga s)) s).

(** The object of the caller is written, which may not be the one in the
    map. *)
Definition im_UpdateSagaState (saga : ptr) (state : SagaStateEnum) : IM (result unit) :=
  g <- load hp_saga saga ;;
  require_key im_sagaInstances (saga_SagaIdempotencyKey g) ErrSagaInstanceNotFound
    (write_saga (set_si_State state) saga ;;; ret (Ok tt)).

(** The cluster is not looked at. *)
Definition im_GetSagaInstance (clusterId instanceId : string) : IM (result ptr) :=
  find_first hp_saga im_sagaInstances (λ g, String.eqb (si_InstanceId g) instanceId)
    ErrSagaInstanceNotFound.

Definition in_cluster (clusterId : string) (g : SagaInstance) : bool :=
  String.eqb (si_ClusterId g) clusterId.

Definition im_ListSagaInstances (clusterId : string) : IM (result (list ptr)) :=
  list_where hp_saga im_sagaInstances (in_cluster clusterId).

Definition im_ListSagaInstanceIds (clusterId : string) : IM (result (list string)) :=
  found <- select hp_saga im_sagaInstances (in_cluster clusterId) ;;
  ret (Ok ((λ pg : ptr * SagaInstance, si_InstanceId pg.2) <$> found)).

Definition im_GetChildSagaInstances (clusterId parentSagaInstanceId : string) :
    IM (result (list ptr)) :=
  list_where hp_saga im_sagaInstances
    (λ g, in_cluster clusterId g && String.eqb (si_ParentSagaInstanceId g) parentSagaInstanceId).

Definition im_GetSagaHierarchy (clusterId rootSagaInstanceId : string) : IM (result (list ptr)) :=
  list_where hp_saga im_sagaInstances
    (λ g, in_cluster clusterId g && String.eqb (si_RootSagaInstanceId g) rootSagaInstanceId).

(** The first saga found is the one that counts, whatever its state. *)
Definition update_if (clusterId sagaInstanceId : string) (from : SagaStateEnum) (msg : string)
    (f : SagaInstance → SagaInstance) : IM (result unit) :=
  found <- select hp_saga im_sagaInstances
    (λ g, in_cluster clusterId g && String.eqb (si_InstanceId g) sagaInstanceId) ;;
  match found with
  | [] => ret (Err ErrSagaInstanceNotFound)
  | (p, g) :: _ =>
      if negb (saga_state_eqb (si_State g) from)
      then fails ("saga instance " +:+ sagaInstanceId +:+ msg +:+ " (current: " +:+
                  SagaStateEnum_string (si_State g) +:+ ")")
      else write_saga f p ;;; ret (Ok tt)
  end.

Definition im_TriggerSagaCompensation (clusterId sagaInstanceId : string) : IM (result unit) :=
  update_if clusterId sagaInstanceId SagaStateEnum_Committed " is not in COMMITTED state"
    (set_si_State SagaStateEnum_CompensationRequested).

Definition im_ForceMarkSagaCompensated (clusterId sagaInstanceId reason : string) :
    IM (result unit) :=
  if String.eqb reason "" then fails "reason is required for force-mark compensated"
  else
    update_if clusterId sagaInstanceId SagaStateEnum_Blocked " is not in BLOCKED state"
      (λ g, set_si_CompensationReason ("[FORCE-MARKED] " +:+ reason)
              (set_si_State SagaStateEnum_Compensated g)).

(** *** The paginated listing *)

Definition filter_value (opts : QueryOptions) (key : string) : string :=
  default "" (qo_Filters opts !! key).

Definition listed (clusterId : string) (opts : QueryOptions) (g : SagaInstance) : bool :=
  let needle := lower (TrimSpace (qo_Search opts)) in
  let passes key value := let f := filter_value opts key in String.eqb f "" || String.eqb value f in
  in_cluster clusterId g &&
  passes "state" (SagaStateEnum_string (si_State g)) &&
  passes "saga_template_id" (si_SagaTemplateId g) &&
  passes "saga_submitter_id" (si_SagaSubmitterId g) &&
  (String.eqb needle "" || contains needle (haystack g)).

(** The order of the first sort column. *)
Definition sorted_sagas (opts : QueryOptions) (all : list (ptr * SagaInstance)) :
    list (ptr * SagaInstance) :=
  match qo_SortBy opts with
  | [] => all
  | primary :: _ =>
      let key x := inMemorySagaSortKey x.2 (sc_Column primary) in
      let desc := EqualFold (sc_Direction primary) "DESC" in
      SliceStable (λ x y, if desc then String.ltb (key y) (key x) else String.ltb (key x) (key y)) all
  end.

(** [all[offset:end]]; a slice expression whose bounds are out of order
    panics. *)
Definition slice {A} (l : list A) (offset end_ : Z) : IM (list A) :=
  if (0 <=? offset)%Z && (offset <=? end_)%Z && (end_ <=? Z.of_nat (length l))%Z
  then ret (take (Z.to_nat (end_ - offset)) (drop (Z.to_nat offset) l))
  else panic "slice bounds out of range".

Definition paginate {A} (all : list A) (opts : QueryOptions) : IM (list A) :=
  let totalCount := Z.of_nat (length all) in
  let offset := if (qo_Offset opts <? 0)%Z then 0%Z else qo_Offset opts in
  let limit := qo_Limit opts in
  if (totalCount <=? offset)%Z then ret []
  else
    let end_ :=
      if (0 <? limit)%Z && (int64_add offset limit <? totalCount)%Z then int64_add offset limit
      else totalCount in
    slice all offset end_.

Definition im_ListSagaInstancesPaginated (clusterId : string) (opts : option QueryOptions) :
    IM (result (list ptr * nat)) :=
  let opts := default no_options opts in
  found <- select hp_saga im_sagaInstances (listed clusterId opts) ;;
  let all := sorted_sagas opts found in
  page <- paginate all opts ;;
  ret (Ok (page.*1, length all)).

(** *** Steps *)

Definition im_SaveSagaStepInstanceIdempotently (sagaStepInstance : ptr) : IM (result bool) :=
  x <- load hp_step sagaStepInstance ;;
  save_once im_sagaStepInstances set_im_sagaStepInstances (step_SagaIdempotencyKey x)
    sagaStepInstance.

Definition im_UpdateSagaStepState (sagaStep : ptr) (state : SagaStepStateEnum) : IM (result unit) :=
  x <- load hp_step sagaStep ;;
  require_key im_sagaStepInstances (step_SagaIdempotencyKey x) ErrSagaStepInstanceNotFound
    (modify (λ s, set_hp_step (alter (set_ssi_State state) sagaStep (hp_step s)) s) ;;; ret (Ok tt)).

(** [UpdateSagaStepResult], [UpdateSagaStepCompensationResult] and
    [UpdateSagaStepInstanceExecutionHistory]: the object is taken to be the
    one in the map, so that nothing is left to do. *)
Definition step_known (sagaStepInstance : ptr) : IM (result unit) :=
  x <- load hp_step sagaStepInstance ;;
  require_key im_sagaStepInstances (step_SagaIdempotencyKey x) ErrSagaStepInstanceNotFound
    (ret (Ok tt)).
Definition im_UpdateSagaStepResult : ptr → IM (result unit) := step_known.
Definition im_UpdateSagaStepCompensationResult : ptr → IM (result unit) := step_known.
Definition im_UpdateSagaStepInstanceExecutionHistory : ptr → IM (result unit) := step_known.

Definition step_in_cluster (clusterId : string) (x : SagaStepInstance) : bool :=
  String.eqb (ssi_ClusterId x) clusterId.

Definition im_GetSagaStepInstance (clusterId instanceId : string) : IM (result ptr) :=
  find_first hp_step im_sagaStepInstances
    (λ x, step_in_cluster clusterId x && String.eqb (ssi_InstanceId x) instanceId)
    ErrSagaStepInstanceNotFound.

Definition im_GetSagaStepBySagaIdempotencyKey (clusterId sagaStepIdempotentId : string) :
    IM (result ptr) :=
  get_key im_sagaStepInstances sagaStepIdempotentId ErrSagaStepInstanceNotFound.

Definition im_ListSagaStepInstances (clusterId : string) : IM (result (list ptr)) :=
  list_where hp_step im_sagaStepInstances (step_in_cluster clusterId).

Definition im_ListSagaStepInstanceIds (clusterId : string) : IM (result (list string)) :=
  found <- select hp_step im_sagaStepInstances (step_in_cluster clusterId) ;;
  ret (Ok ((λ px : ptr * SagaStepInstance, ssi_InstanceId px.2) <$> found)).

Definition im_ListSagaStepInstancesBySagaInstanceId (clusterId sagaInstanceId : string) :
    IM (result (list ptr)) :=
  list_where hp_step im_sagaStepInstances
    (λ x, step_in_cluster clusterId x && String.eqb (ssi_SagaInstanceId x) sagaInstanceId).

(** The loop of the polling query: each step looks for its saga in a loop of
    its own, by the identifier alone. *)
Fixpoint poll_steps (affinity : string) (sagaStates : list SagaStateEnum)
    (sagaStepStates : list SagaStepStateEnum) (steps : list (ptr * SagaStepInstance)) :
    IM (list ptr) :=
  match steps with
  | [] => ret []
  | (p, sagaStep) :: steps =>
      if negb (String.eqb (ssi_Affinity sagaStep) affinity)
      then poll_steps affinity sagaStates sagaStepStates steps
      else
        found <- select hp_saga im_sagaInstances
          (λ g, String.eqb (si_InstanceId g) (ssi_SagaInstanceId sagaStep)) ;;
        rest <- poll_steps affinity sagaStates sagaStepStates steps ;;
        match found with
        | [] => ret rest
        | (_, sagaInstance) :: _ =>
            if existsb (saga_state_eqb (si_State sagaInstance)) sagaStates &&
               existsb (step_state_eqb (ssi_State sagaStep)) sagaStepStates
            then ret (p :: rest) else ret rest
        end
  end.

Definition im_GetSagaStepInstances (clusterId affinity : string)
    (sagaStates : list SagaStateEnum) (sagaStepStates : list SagaStepStateEnum) :
    IM (result (list ptr)) :=
  steps <- select hp_step im_sagaStepInstances (λ _, true) ;;
  found <- poll_steps affinity sagaStates sagaStepStates steps ;;
  ret (Ok found).

(** *** Annexes *)

Definition im_CreateSagaAnnex (annex : ptr) : IM (result unit) :=
  a <- load hp_annex annex ;;
  if String.eqb (an_Iid a) "" || String.eqb (an_SagaInstanceId a) ""
  then fails "annex iid and saga_instance_id are required"
  else
    s <- get_state ;;
    match im_sagaInstances s !! an_SagaInstanceId a with
    | None => fails ("saga instance not found: " +:+ an_SagaInstanceId a)
    | Some saga =>
        g <- load hp_saga saga ;;
        if negb (String.eqb (si_ClusterId g) (an_ClusterId a))
        then fails ("saga instance not found: " +:+ an_SagaInstanceId a)
        else
          let cp :=
            if (an_ContentLength a =? 0)%Z
            then set_an_ContentLength (Z.of_nat (length (an_ContentData a))) a else a in
          p <- new hp_annex set_hp_annex cp ;;
          modify (λ s, set_im_sagaAnnexes (<[an_Iid cp := p]> (im_sagaAnnexes s)) s) ;;;
          write_saga (λ g, set_si_AnnexIids (Some (default [] (si_AnnexIids g) ++ [an_Iid cp])) g) saga ;;;
          ret (Ok tt)
    end.

(** Copies without the bytes. *)
Definition im_ListSagaAnnexes (clusterId sagaInstanceId : string) : IM (result (list SagaAnnex)) :=
  found <- select hp_annex im_sagaAnnexes
    (λ a, String.eqb (an_ClusterId a) clusterId && String.eqb (an_SagaInstanceId a) sagaInstanceId) ;;
  ret (Ok ((λ pa : ptr * SagaAnnex, set_an_ContentData [] pa.2) <$> found)).

Definition im_GetSagaAnnexBytes (clusterId annexIid : string) : IM (result SagaAnnex) :=
  s <- get_state ;;
  match im_sagaAnnexes s !! annexIid with
  | None => fails ("annex not found: " +:+ annexIid)
  | Some p =>
      a <- load hp_annex p ;;
      if negb (String.eqb (an_ClusterId a) clusterId) then fails ("annex not found: " +:+ annexIid)
      else ret (Ok a)
  end.
End operations.
