(* ===== verification/InmemSpecs.v ===== *)
(** * What the in-memory store does

    The in-memory store is a catalogue in the sense of CatalogueSpec.v, so it
    and the PostgreSQL store answer alike; its pages; and where it is not what
    its interface asks for. *)

From stdpp Require Import pretty.
From S2P Require Import Prelude GoMonad Model Naming GoStrings Query Database Store PsqlStore.
From S2P Require Import Catalogue Integrity CatalogueSpec Inmem.

Local Open Scope go_scope.

Section catalogue.
Context (order : nat → ∀ A, list A → list A).
Context (Horder : ∀ n A (l : list A), order n A l ≡ₚ l).
#[local] Notation IM := (M inMemoryStore).
Implicit Types (s : inMemoryStore).

(** The map [m] of pointers shows the map [dm] of objects. *)
Definition points {A} (heap : gmap ptr A) (m : gmap string ptr) (dm : gmap string A) : Prop :=
  ∀ id, match m !! id with
        | Some p => ∃ a, heap !! p = Some a ∧ dm !! id = Some a
        | None => dm !! id = None
        end.

Lemma points_new {A} (heap : gmap ptr A) m dm p a :
  heap !! p = None → points heap m dm → points (<[p := a]> heap) m dm.
Proof.
  intros Hp Hm id. specialize (Hm id). destruct (m !! id) as [q|]; [|done].
  destruct Hm as (b & Hq & Hb). exists b. split; [|done]. by rewrite lookup_insert_ne by congruence.
Qed.

Lemma points_insert {A} (heap : gmap ptr A) m dm id p a :
  heap !! p = Some a → points heap m dm → points heap (<[id := p]> m) (<[id := a]> dm).
Proof.
  intros Hp Hm id'. destruct (decide (id = id')) as [<-|Hne].
  - rewrite !lookup_insert_eq. by exists a.
  - rewrite !lookup_insert_ne by done. apply Hm.
Qed.

Lemma points_delete {A} (heap : gmap ptr A) m dm id :
  points heap m dm → points heap (delete id m) (delete id dm).
Proof.
  intros Hm id'. destruct (decide (id = id')) as [<-|Hne].
  - by rewrite !lookup_delete_eq.
  - rewrite !lookup_delete_ne by done. apply Hm.
Qed.

Lemma points_keys {A} (heap : gmap ptr A) m dm :
  points heap m dm → (map_to_list m).*1 ≡ₚ (map_to_list dm).*1.
Proof.
  intros Hm. apply NoDup_Permutation; [apply NoDup_fst_map_to_list..|].
  intros k. rewrite !list_elem_of_fmap. specialize (Hm k). split.
  - intros ([k' p] & -> & Hk%elem_of_map_to_list). simpl in *. rewrite Hk in Hm.
    destruct Hm as (a & _ & Ha). exists (k', a). by rewrite elem_of_map_to_list.
  - intros ([k' a] & -> & Hk%elem_of_map_to_list). simpl in *.
    destruct (m !! k') as [p|] eqn:Hp; [|congruence].
    exists (k', p). by rewrite elem_of_map_to_list.
Qed.

Definition im_shows s (C : Cat) : Prop :=
  points (hp_cluster s) (im_clusters s) (c_clusters C) ∧
  points (hp_template s) (im_sagaTemplates s) (c_templates C) ∧
  points (hp_step_template s) (im_sagaStepTemplates s) (c_step_templates C).

(** The caller makes an object and hands its address over; an answer is
    looked at through its address. *)
Definition im_answer {A} (m : IM (result A)) (f : A → Answer) : IM Answer :=
  r <- m ;; ret (match r with Ok a => f a | Err e => Failed e end).

Definition im_look {A} (m : IM (result ptr)) (heap : inMemoryStore → gmap ptr A) (f : A → Answer) :
    IM Answer :=
  r <- m ;;
  match r with
  | Ok p => a <- load heap p ;; ret (f a)
  | Err e => ret (Failed e)
  end.

Definition im_look_all {A} (m : IM (result (list ptr))) (heap : inMemoryStore → gmap ptr A)
    (f : list A → Answer) : IM Answer :=
  r <- m ;;
  match r with
  | Ok ps => l <- load_all heap ps ;; ret (f l.*2)
  | Err e => ret (Failed e)
  end.

Definition im_op (op : CatOp) : IM Answer :=
  match op with
  | SaveCluster c =>
      p <- new hp_cluster set_hp_cluster c ;; im_answer (im_SaveClusterIdempotently p) Saved
  | GetCluster id => im_look (im_GetCluster id) hp_cluster OneCluster
  | UpdateCluster c =>
      p <- new hp_cluster set_hp_cluster c ;; im_answer (im_UpdateCluster p) (λ _, Done)
  | DeleteCluster id => im_answer (im_DeleteCluster id) (λ _, Done)
  | ListClusterIdsOp => im_answer (im_ListClusterIds order) Ids
  | ListClustersOp => im_look_all (im_ListClusters order) hp_cluster Clusters
  | SaveTemplate t =>
      p <- new hp_template set_hp_template t ;; im_answer (im_SaveSagaTemplateIdempotently p) Saved
  | GetTemplate id => im_look (im_GetSagaTemplate id) hp_template OneTemplate
  | UpdateTemplate t =>
      p <- new hp_template set_hp_template t ;; im_answer (im_UpdateSagaTemplate p) (λ _, Done)
  | DeleteTemplate id => im_answer (im_DeleteSagaTemplate order id) (λ _, Done)
  | ListTemplateIds => im_answer (im_ListSagaTemplateIds order) Ids
  | ListTemplates => im_look_all (im_ListSagaTemplates order) hp_template Templates
  | SaveStepTemplate t =>
      p <- new hp_step_template set_hp_step_template t ;;
      im_answer (im_SaveSagaStepTemplateIdempotently p) Saved
  | GetStepTemplate id => im_look (im_GetSagaStepTemplate id) hp_step_template OneStepTemplate
  | UpdateStepTemplate t =>
      p <- new hp_step_template set_hp_step_template t ;;
      im_answer (im_UpdateSagaStepTemplate p) (λ _, Done)
  | DeleteStepTemplate id => im_answer (im_DeleteSagaStepTemplate id) (λ _, Done)
  | ListStepTemplateIds => im_answer (im_ListSagaStepTemplateIds order) Ids
  | ListStepTemplates => im_look_all (im_ListSagaStepTemplates order) hp_step_template StepTemplates
  end.

Lemma wp_im_answer {A} (m : IM (result A)) f (Q : Answer → inMemoryStore → Prop) s :
  wp m (returns (λ r s', Q (match r with Ok a => f a | Err e => Failed e end) s')) s →
  wp (im_answer m f) (returns Q) s.
Proof. intros H. by apply wp_bind_ret. Qed.

Lemma wp_new {A} heap set (a : A) (Q : ptr → inMemoryStore → Prop) s :
  (∀ p, heap s !! p = None → Q p (set (<[p := a]> (heap s)) s)) → wp (new heap set a) (returns Q) s.
Proof. intros H. apply H, not_elem_of_dom, is_fresh. Qed.

Lemma wp_load {A} (heap : inMemoryStore → gmap ptr A) p a (Q : A → inMemoryStore → Prop) s :
  heap s !! p = Some a → Q a s → wp (load heap p) (returns Q) s.
Proof. intros Hp H. unfold wp, load. by rewrite Hp. Qed.

Lemma wp_save_once m set key p (Q : result bool → inMemoryStore → Prop) s :
  match m s !! key with Some _ => Q (Ok false) s | None => Q (Ok true) (set (<[key := p]> (m s)) s) end →
  wp (save_once m set key p) (returns Q) s.
Proof. unfold wp, save_once, bind, get_state. simpl. by destruct (m s !! key). Qed.

Lemma wp_require_key m key e k (Q : result unit → inMemoryStore → Prop) s :
  match m s !! key with None => Q (Err e) s | Some _ => wp k (returns Q) s end →
  wp (require_key m key e k) (returns Q) s.
Proof. unfold wp, require_key, bind, get_state. simpl. by destruct (m s !! key). Qed.

Lemma wp_modify f (Q : unit → inMemoryStore → Prop) s : Q tt (f s) → wp (modify f) (returns Q) s.
Proof. done. Qed.

Lemma wp_list_keys {A} (heap : gmap ptr A) m dm (Q : result (list string) → inMemoryStore → Prop) s :
  points heap (m s) dm →
  (∀ l, l ≡ₚ (map_to_list dm).*1 → Q (Ok l) (set_im_n (S (im_n s)) s)) →
  wp (list_keys order m) (returns Q) s.
Proof.
  intros Hm HQ. unfold wp, list_keys, range_map, bind, get_state, ret. simpl. apply HQ.
  rewrite Horder. by eapply points_keys.
Qed.

(** What the pointers of a range loop lead to. *)
Lemma load_entries {A} (heap : inMemoryStore → gmap ptr A) entries s :
  Forall (λ kp : string * ptr, is_Some (heap s !! kp.2)) entries →
  ∃ l, load_all heap entries.*2 s = (Ret l, s) ∧
    l.*2 = (omap (λ kp : string * ptr, (λ a, (kp.1, a)) <$> heap s !! kp.2) entries).*2.
Proof.
  induction 1 as [|[k p] entries [a Ha] _ (l & Hl & Heq)]; [by exists []|].
  cbn [fst snd] in Ha. exists ((p, a) :: l). rewrite fmap_cons. cbn [load_all snd]. unfold bind, load.
  rewrite Ha, Hl. split; [done|]. simpl. rewrite Ha. simpl. by f_equal.
Qed.

Lemma points_entries {A} (heap : gmap ptr A) m dm :
  points heap m dm →
  omap (λ kp : string * ptr, (λ a, (kp.1, a)) <$> heap !! kp.2) (map_to_list m) ≡ₚ map_to_list dm.
Proof.
  intros Hm. apply NoDup_Permutation.
  - assert (Hsub : ∀ l : list (string * ptr), NoDup l.*1 →
      NoDup (omap (λ kp : string * ptr, (λ a, (kp.1, a)) <$> heap !! kp.2) l)).
    { induction l as [|[k p] l IH]; [by constructor|]. intros [Hk Hl]%NoDup_cons. simpl.
      destruct (heap !! p) as [a|]; simpl; [|by apply IH]. constructor; [|by apply IH].
      intros ([k' p'] & Hin & Heq)%list_elem_of_omap. simpl in Heq.
      destruct (heap !! p'); simplify_eq/=. apply Hk, list_elem_of_fmap. by exists (k, p'). }
    apply Hsub, NoDup_fst_map_to_list.
  - apply NoDup_map_to_list.
  - intros [k a]. rewrite elem_of_map_to_list, list_elem_of_omap. specialize (Hm k). split.
    + intros ([k' p] & Hin%elem_of_map_to_list & Heq). simpl in Heq.
      destruct (heap !! p) as [a'|] eqn:Hp; simplify_eq/=. rewrite Hin in Hm.
      destruct Hm as (a' & Ha & Hd). congruence.
    + intros Hk. destruct (m !! k) as [p|] eqn:Hp; [|congruence]. destruct Hm as (a' & Ha & Hd).
      exists (k, p). rewrite elem_of_map_to_list. split; [done|]. simpl. rewrite Ha. simpl. congruence.
Qed.

Lemma wp_look_all {A} (heap : inMemoryStore → gmap ptr A) m dm f (Q : Answer → inMemoryStore → Prop) s :
  (∀ n, heap (set_im_n n s) = heap s) → points (heap s) (m s) dm →
  (∀ l, l ≡ₚ objects dm → Q (f l) (set_im_n (S (im_n s)) s)) →
  wp (im_look_all (s <- get_state ;; entries <- range_map order (m s) ;; ret (Ok entries.*2)) heap f)
    (returns Q) s.
Proof.
  intros Hheap Hm HQ. set (s1 := set_im_n (S (im_n s)) s). pose proof (points_entries _ _ _ Hm) as He.
  set (entries := order (im_n s) _ (map_to_list (m s))).
  assert (entries ≡ₚ map_to_list (m s)) as Hperm by apply Horder.
  destruct (load_entries heap entries s1) as (l & Hl & Heq).
  { rewrite Hperm. apply Forall_forall. intros [k p] Hk%elem_of_map_to_list. specialize (Hm k).
    rewrite Hk in Hm. destruct Hm as (a & Ha & _). unfold s1. rewrite Hheap. by eexists. }
  unfold wp, im_look_all, range_map, bind, get_state, ret. simpl. fold entries. fold s1. rewrite Hl. simpl.
  apply HQ. rewrite Heq. unfold s1. rewrite Hheap, Hperm, He. done.
Qed.

(** *** Deleting the steps of a template *)

Definition has_template (templateId : string) s (kp : string * ptr) : bool :=
  match hp_step_template s !! kp.2 with
  | Some t => String.eqb (sst_SagaTemplateId t) templateId
  | None => false
  end.

Lemma delete_steps_spec templateId entries s (Q : unit → inMemoryStore → Prop) :
  (∀ kp, kp ∈ entries → is_Some (hp_step_template s !! kp.2)) →
  Q tt (set_im_sagaStepTemplates
          (foldl (λ m kp, if has_template templateId s kp then delete kp.1 m else m)
             (im_sagaStepTemplates s) entries) s) →
  wp (delete_steps_of templateId entries) (returns Q) s.
Proof.
  revert s. induction entries as [|[k p] entries IH]; intros s Hall HQ; simpl.
  { apply wp_ret. by destruct s. }
  destruct (Hall (k, p)) as [t Ht]; [left|]. simpl in Ht.
  apply wp_bind_ret. apply (wp_load _ _ t); [done|].
  assert (has_template templateId s (k, p) = String.eqb (sst_SagaTemplateId t) templateId) as Hh
    by (unfold has_template; simpl; by rewrite Ht).
  simpl in HQ. rewrite Hh in HQ. apply wp_bind_ret.
  destruct (String.eqb _ _); [apply wp_modify|apply wp_ret]; apply IH; try done;
    intros kp Hkp; apply Hall; by right.
Qed.

Lemma lookup_foldl_delete (P : string * ptr → bool) entries (m : gmap string ptr) k :
  foldl (λ m kp, if P kp then delete kp.1 m else m) m entries !! k =
    if existsb (λ kp, P kp && String.eqb kp.1 k) entries then None else m !! k.
Proof.
  revert m. induction entries as [|[k' p] entries IH]; intros m; simpl; [done|].
  rewrite IH. destruct (existsb _ entries); [by rewrite orb_true_r|]. rewrite orb_false_r.
  destruct (P (k', p)); simpl; [|done]. destruct (String.eqb_spec k' k) as [->|Hne].
  - apply lookup_delete_eq.
  - by apply lookup_delete_ne.
Qed.

Lemma points_steps_deleted templateId s dm entries :
  entries ≡ₚ map_to_list (im_sagaStepTemplates s) →
  points (hp_step_template s) (im_sagaStepTemplates s) dm →
  points (hp_step_template s)
    (foldl (λ m kp, if has_template templateId s kp then delete kp.1 m else m)
       (im_sagaStepTemplates s) entries)
    (filter (λ kx, sst_SagaTemplateId kx.2 ≠ templateId) dm).
Proof.
  intros Hperm Hm id. rewrite lookup_foldl_delete. specialize (Hm id).
  destruct (existsb _ entries) eqn:Hex.
  - apply existsb_exists in Hex as ([k p] & Hin & [HP Hk%String.eqb_eq]%andb_true_iff). simpl in Hk. subst k.
    apply list_elem_of_In in Hin. rewrite Hperm, elem_of_map_to_list in Hin. rewrite Hin in Hm.
    destruct Hm as (t & Ht & Hdm). unfold has_template in HP. simpl in HP. rewrite Ht in HP.
    apply String.eqb_eq in HP. apply map_lookup_filter_None. right. intros t' Ht'. simpl.
    assert (t' = t) as -> by congruence. tauto.
  - destruct (im_sagaStepTemplates s !! id) as [p|] eqn:Hid.
    + destruct Hm as (t & Ht & Hdm). exists t. split; [done|]. apply map_lookup_filter_Some.
      split; [done|]. simpl. intros Heq. apply not_true_iff_false in Hex. apply Hex, existsb_exists.
      exists (id, p). split.
      * apply list_elem_of_In. by rewrite Hperm, elem_of_map_to_list.
      * apply andb_true_iff. split; [|apply String.eqb_refl]. unfold has_template. simpl.
        rewrite Ht. by apply String.eqb_eq.
    + apply map_lookup_filter_None. by left.
Qed.

(** *** The operations *)

Definition im_law_of (op : CatOp) : Prop := ∀ s C, im_shows s C →
  wp (im_op op) (returns (λ a s', same_answer a (a_step op C).1 ∧ im_shows s' (a_step op C).2)) s.

Lemma im_delete_template id : im_law_of (DeleteTemplate id).
Proof.
  intros s C (Hc & Ht & Hx). apply wp_im_answer, wp_require_key. simpl. unfold a_change.
  pose proof (Ht id) as Hid.
  destruct (im_sagaTemplates s !! id) as [p|]; [destruct Hid as (t & _ & ->)|by rewrite Hid].
  apply wp_bind_ret. unfold wp at 1, get_state. simpl.
  apply wp_bind_ret. unfold wp at 1, range_map. simpl.
  set (entries := order _ _ _). set (s1 := set_im_n _ s).
  assert (entries ≡ₚ map_to_list (im_sagaStepTemplates s1)) as Hperm by apply Horder.
  apply wp_bind_ret, delete_steps_spec.
  { intros [k q] Hkq. rewrite Hperm, elem_of_map_to_list in Hkq. specialize (Hx k). simpl in *.
    rewrite Hkq in Hx. destruct Hx as (a & Ha & _). by eexists. }
  apply wp_bind_ret, wp_modify, wp_ret. split; [done|]. simpl.
  split; [done|]. split; [by apply points_delete|]. by apply (points_steps_deleted id s1).
Qed.

(** Both halves of a catalogue law, case by case on the entry. *)
#[local] Ltac entry H id :=
  let Hid := fresh in pose proof (H id) as Hid; revert Hid; simpl;
  unfold a_save, a_change, a_get;
  match goal with
  | |- match ?x with _ => _ end → _ =>
      destruct x; [intros (? & ? & Hid); rewrite Hid|intros Hid; rewrite Hid]
  end.
#[local] Ltac made p := apply wp_bind_ret, wp_new; intros p ?; apply wp_im_answer, wp_bind_ret;
  eapply wp_load; [apply lookup_insert_eq|].
#[local] Ltac shown := split; [done|]; split_and!; simpl;
  repeat first [done | by apply points_new | by apply points_delete
               | apply points_insert; [apply lookup_insert_eq|]].

Lemma im_law op : im_law_of op.
Proof.
  destruct op as [c|id|c|id| | |t|id|t|id| | |t|id|t|id| |]; try apply im_delete_template;
    intros s C Hshow; pose proof Hshow as (Hc & Ht & Hx).
  - made p. apply wp_save_once. entry Hc (cl_Id c); shown.
  - apply wp_bind_ret. unfold wp at 1, im_GetCluster, get_key, get_state, bind, ret.
    entry Hc id; [|done]. apply wp_bind_ret. eapply wp_load; [done|]. by apply wp_ret.
  - made p. apply wp_require_key. entry Hc (cl_Id c); [|shown].
    apply wp_bind_ret, wp_modify, wp_ret. shown.
  - apply wp_im_answer, wp_require_key. entry Hc id; [|shown].
    apply wp_bind_ret, wp_modify, wp_ret. shown.
  - apply wp_im_answer. eapply wp_list_keys; [exact Hc|]. intros l Hl. by split.
  - eapply wp_look_all; [done|exact Hc|]. intros l Hl. by split.
  - made p. apply wp_save_once. entry Ht (st_TemplateId t); shown.
  - apply wp_bind_ret. unfold wp at 1, im_GetSagaTemplate, get_key, get_state, bind, ret.
    entry Ht id; [|done]. apply wp_bind_ret. eapply wp_load; [done|]. by apply wp_ret.
  - made p. apply wp_require_key. entry Ht (st_TemplateId t); [|shown].
    apply wp_bind_ret, wp_modify, wp_ret. shown.
  - apply wp_im_answer. eapply wp_list_keys; [exact Ht|]. intros l Hl. by split.
  - eapply wp_look_all; [done|exact Ht|]. intros l Hl. by split.
  - made p. apply wp_save_once. entry Hx (sst_TemplateId t); shown.
  - apply wp_bind_ret. unfold wp at 1, im_GetSagaStepTemplate, get_key, get_state, bind, ret.
    entry Hx id; [|done]. apply wp_bind_ret. eapply wp_load; [done|]. by apply wp_ret.
  - made p. apply wp_require_key. entry Hx (sst_TemplateId t); [|shown].
    apply wp_bind_ret, wp_modify, wp_ret. shown.
  - apply wp_im_answer, wp_require_key. entry Hx id; [|shown].
    apply wp_bind_ret, wp_modify, wp_ret. shown.
  - apply wp_im_answer. eapply wp_list_keys; [exact Hx|]. intros l Hl. by split.
  - eapply wp_look_all; [done|exact Hx|]. intros l Hl. by split.
Qed.

(** The in-memory store is a catalogue; nothing stands in the way of an
    operation, it has no foreign keys. *)
#[local] Instance im_catalogue : CatalogueStore inMemoryStore := {
  run_op := im_op;
  shows := im_shows;
  admits _ _ := True;
  catalogue_law op s C Hs _ := im_law op s C Hs;
}.
End catalogue.

(** ** Pages *)

Section pages.
#[local] Notation IM := (M inMemoryStore).
Implicit Types (s : inMemoryStore) (opts : QueryOptions).

(** The sum that the code takes does not wrap. *)
Definition no_wrap opts : Prop :=
  (0 ≤ qo_Offset opts)%Z ∧ in_int64 (qo_Offset opts + Z.max 0 (qo_Limit opts)).

Lemma paginate_page {A} (all : list A) opts s :
  no_wrap opts →
  paginate all opts s =
    (Ret (let rest := drop (Z.to_nat (qo_Offset opts)) all in
          if (0 <? qo_Limit opts)%Z then take (Z.to_nat (qo_Limit opts)) rest else rest), s).
Proof.
  intros [H0 Hw]. unfold paginate, int64_add, slice.
  rewrite (proj2 (Z.ltb_ge _ _) H0). destruct (Z.leb_spec (Z.of_nat (length all)) (qo_Offset opts)).
  { rewrite drop_ge by lia. by destruct (_ <? _)%Z; rewrite ?take_nil. }
  destruct (Z.ltb_spec 0 (qo_Limit opts)); simpl.
  - rewrite wrap64_id by (by rewrite Z.max_r in Hw by lia).
    destruct (Z.ltb_spec (qo_Offset opts + qo_Limit opts) (Z.of_nat (length all))).
    + repeat (rewrite (proj2 (Z.leb_le _ _)); [|lia]). simpl. unfold ret. do 3 f_equal. lia.
    + repeat (rewrite (proj2 (Z.leb_le _ _)); [|lia]). simpl. unfold ret. do 2 f_equal.
      rewrite !take_ge; [done|rewrite length_drop; lia..].
  - repeat (rewrite (proj2 (Z.leb_le _ _)); [|lia]). simpl. unfold ret. do 2 f_equal.
    rewrite take_ge; [done|rewrite length_drop; lia].
Qed.

(** A sum that wraps ends in a slice whose bounds are out of order. *)
Lemma paginate_wraps {A} (all : list A) opts s :
  (0 < qo_Offset opts < Z.of_nat (length all))%Z →
  in_int64 (qo_Limit opts) → (2 ^ 63 ≤ qo_Offset opts + qo_Limit opts)%Z →
  in_int64 (qo_Offset opts) →
  paginate all opts s = (Panic "slice bounds out of range", s).
Proof.
  unfold in_int64. intros Ho Hl Hs Hi. unfold paginate, int64_add, slice.
  rewrite (proj2 (Z.ltb_ge _ _)) by lia. rewrite (proj2 (Z.leb_gt _ _)) by lia.
  rewrite (proj2 (Z.ltb_lt 0 _)) by lia. simpl.
  assert (wrap64 (qo_Offset opts + qo_Limit opts) = qo_Offset opts + qo_Limit opts - 2 ^ 64)%Z as ->.
  { unfold wrap64. rewrite <-(Z.mod_unique _ (2 ^ 64) 1
      (qo_Offset opts + qo_Limit opts + 2 ^ 63 - 2 ^ 64)); lia. }
  rewrite (proj2 (Z.ltb_lt _ _)) by lia. rewrite (proj2 (Z.leb_le 0 _)) by lia.
  by rewrite (proj2 (Z.leb_gt _ _)) by lia.
Qed.

(** The options of page [n] of a listing, [size] to a page. *)
Definition page_options (size : nat) (n : nat) : QueryOptions :=
  mkQueryOptions (Z.of_nat (n * size)) (Z.of_nat size) "" "" [] "" ∅.

Lemma page_take_drop {A} (all : list A) size n s :
  0 < size → in_int64 (Z.of_nat (n * size + size)) →
  paginate all (page_options size n) s = (Ret (take size (drop (n * size) all)), s).
Proof.
  intros Hs Hi. rewrite paginate_page.
  - unfold page_options. cbn [qo_Offset qo_Limit].
    rewrite (proj2 (Z.ltb_lt _ _)) by lia. by rewrite !Nat2Z.id.
  - split; unfold page_options; cbn [qo_Offset qo_Limit]; [lia|].
    rewrite Z.max_r by lia. by rewrite <-Nat2Z.inj_add.
Qed.

(** The pages, one after another. *)
Fixpoint pages {A} (all : list A) (size from count : nat) : IM (list A) :=
  match count with
  | O => ret []
  | S count =>
      page <- paginate all (page_options size from) ;;
      rest <- pages all size (S from) count ;;
      ret (page ++ rest)
  end.

Lemma pages_spec {A} (all : list A) size from count s :
  0 < size → in_int64 (Z.of_nat ((from + count) * size)) →
  pages all size from count s = (Ret (take (count * size) (drop (from * size) all)), s).
Proof.
  intros Hs. revert from. induction count as [|count IH]; intros from Hi; [done|].
  cbn [pages]. unfold bind at 1.
  rewrite page_take_drop by first [done|revert Hi; unfold in_int64; nia].
  unfold bind. rewrite IH by (revert Hi; unfold in_int64; nia). unfold ret. do 2 f_equal.
  rewrite (Nat.mul_succ_l count), (Nat.mul_succ_l from), (Nat.add_comm (count * size)).
  rewrite <-drop_drop. by rewrite take_take_drop || by rewrite firstn_skipn_comm.
Qed.
End pages.

(** ** Sorting *)

Section sorting.
Context {A : Type} (less : A → A → bool).

Lemma insert_sorted_perm x l : insert_sorted less x l ≡ₚ x :: l.
Proof.
  induction l as [|y l IH]; simpl; [done|]. destruct (less y x); [|done].
  rewrite IH. apply Permutation_swap.
Qed.

Lemma SliceStable_perm l : SliceStable less l ≡ₚ l.
Proof. induction l as [|x l IH]; simpl; [done|]. by rewrite insert_sorted_perm, IH. Qed.

Lemma SliceStable_sorted l :
  (∀ x y, less x y = true → less y x = false) →
  Sorted (λ x y, less y x = false) (SliceStable less l).
Proof.
  intros Hasym. induction l as [|x l IH]; simpl; [constructor|].
  generalize dependent (SliceStable less l). clear l. intros l IH.
  induction IH as [|y l Hs IH Hd]; simpl; [by repeat constructor|].
  destruct (less y x) eqn:Hyx; [|by repeat constructor].
  constructor; [done|]. destruct l as [|z l]; simpl; [by constructor; apply Hasym|].
  inversion Hd; subst. destruct (less z x); constructor; auto.
Qed.

(** Elements that are not told apart keep their order. *)
Lemma SliceStable_stable (P : A → bool) l :
  (∀ x y, P x = true → P y = true → less x y = false) →
  List.filter P (SliceStable less l) = List.filter P l.
Proof.
  intros HP. assert (∀ x l, List.filter P (insert_sorted less x l) = List.filter P (x :: l)) as Hins.
  { intros x k. induction k as [|y k IH]; [done|]. cbn [insert_sorted].
    destruct (less y x) eqn:Hyx; [|done]. cbn [List.filter] in *. rewrite IH.
    destruct (P x) eqn:Hx, (P y) eqn:Hy; try done. by rewrite HP in Hyx. }
  induction l as [|x l IH]; [done|]. cbn [SliceStable foldr]. rewrite Hins. cbn [List.filter].
  unfold SliceStable in IH. by rewrite IH.
Qed.
End sorting.

Lemma string_ltb_asym x y : String.ltb x y = true → String.ltb y x = false.
Proof.
  unfold String.ltb. pose proof (String.compare_antisym x y) as H. revert H.
  destruct (String.compare x y), (String.compare y x); simpl; congruence.
Qed.

(** ** Listings *)

Section listings.
Context (order : nat → ∀ A, list A → list A).
Context (Horder : ∀ n A (l : list A), order n A l ≡ₚ l).
#[local] Notation IM := (M inMemoryStore).
Implicit Types (s : inMemoryStore) (opts : QueryOptions).

(** The pointers of a map lead to objects. *)
Definition valid {A} (heap : gmap ptr A) (m : gmap string ptr) : Prop :=
  ∀ k p, m !! k = Some p → is_Some (heap !! p).

Lemma load_all_spec {A} (heap : inMemoryStore → gmap ptr A) ps s :
  Forall (λ p, is_Some (heap s !! p)) ps →
  ∃ l, load_all heap ps s = (Ret l, s) ∧ l.*1 = ps ∧ Forall (λ pa, heap s !! pa.1 = Some pa.2) l.
Proof.
  induction 1 as [|p ps [a Ha] _ (l & Hl & <- & Hall)]; simpl.
  { exists []. by repeat split. }
  exists ((p, a) :: l). unfold bind, load. rewrite Ha, Hl. repeat split. by constructor.
Qed.

(** A range loop that picks objects sees each entry once. *)
Lemma select_spec {A} (heap : inMemoryStore → gmap ptr A) m (P : A → bool) s :
  (∀ n, heap (set_im_n n s) = heap s) → valid (heap s) (m s) →
  ∃ objects, select order heap m P s =
      (Ret (List.filter (λ pa, P pa.2) objects), set_im_n (S (im_n s)) s) ∧
    objects.*1 ≡ₚ (map_to_list (m s)).*2 ∧ Forall (λ pa, heap s !! pa.1 = Some pa.2) objects.
Proof.
  intros Hheap Hvalid. set (s1 := set_im_n (S (im_n s)) s).
  destruct (load_all_spec heap (order (im_n s) _ (map_to_list (m s))).*2 s1) as (l & Hl & Hps & Hall).
  { rewrite Horder. apply Forall_forall. intros p Hp.
    apply list_elem_of_fmap in Hp as ([k q] & -> & Hk%elem_of_map_to_list).
    unfold s1. rewrite Hheap. by eapply Hvalid. }
  exists l. unfold select, bind, get_state, range_map. fold s1. rewrite Hl.
  split; [done|]. split; [by rewrite Hps, Horder|]. unfold s1 in Hall. by rewrite Hheap in Hall.
Qed.

(** What a listing shows of the sagas in some order: one page of the stable
    sort by the first sort column. *)
Definition page_of opts (all : list (ptr * SagaInstance)) : list (ptr * SagaInstance) :=
  let rest := drop (Z.to_nat (qo_Offset opts)) (sorted_sagas opts all) in
  if (0 <? qo_Limit opts)%Z then take (Z.to_nat (qo_Limit opts)) rest else rest.

Lemma sorted_sagas_perm opts all : sorted_sagas opts all ≡ₚ all.
Proof. unfold sorted_sagas. destruct (qo_SortBy opts); [done|]. apply SliceStable_perm. Qed.

Lemma listing_spec s cid opts :
  valid (hp_saga s) (im_sagaInstances s) → no_wrap opts →
  ∃ objects, objects.*1 ≡ₚ (map_to_list (im_sagaInstances s)).*2 ∧
    Forall (λ pg, hp_saga s !! pg.1 = Some pg.2) objects ∧
    let all := List.filter (λ pg, listed cid opts pg.2) objects in
    im_ListSagaInstancesPaginated order cid (Some opts) s =
      (Ret (Ok ((page_of opts all).*1, length all)), set_im_n (S (im_n s)) s).
Proof.
  intros Hv Hw. destruct (select_spec hp_saga im_sagaInstances (listed cid opts) s) as (l & Hl & Hps & Hall);
    [done|done|].
  exists l. split; [done|]. split; [done|]. cbv zeta.
  unfold im_ListSagaInstancesPaginated. change (default no_options (Some opts)) with opts.
  unfold bind at 1. rewrite Hl. unfold bind. rewrite paginate_page by done. unfold ret, page_of.
  by rewrite (Permutation_length (sorted_sagas_perm opts _)).
Qed.
End listings.

(** ** The properties *)

(** C35: the two stores answer alike to every history of calls about clusters
    and templates: they save, refuse, find, change, delete and list the same
    things, listings of identifiers and of whole objects being in an order of
    their own.  The PostgreSQL store is on a server without faults and outside
    of transactions, and no foreign key refuses a call: a step template is saved
    or changed when its saga template is there, and templates are deleted when
    no saga or step refers to them. *)
Theorem stores_answer_alike (srv : Server) (order : nat → ∀ A, list A → list A)
    (Hquiet : ∀ n, srv_fault srv n = NoFault)
    (Hsrv : ∀ n A (l : list A), srv_order srv n A l ≡ₚ l)
    (Horder : ∀ n A (l : list A), order n A l ≡ₚ l)
    (history : list CatOp) (C : Cat) (s : psqlStore srv) (t : inMemoryStore) :
  psql_shows s C → im_shows t C →
  @all_admitted _ (psql_catalogue Hquiet Hsrv) history s →
  ∃ l l' s' t',
    @run_ops _ (psql_catalogue Hquiet Hsrv) history s = (Ret l, s') ∧
    @run_ops _ (im_catalogue order Horder) history t = (Ret l', t') ∧
    Forall2 same_answer l l'.
Proof.
  intros Hs Ht Had.
  destruct (ret_wp _ _ _ (@run_ops_spec _ (psql_catalogue Hquiet Hsrv) history s C Hs Had))
    as (l & s' & Hl & H1).
  assert (@all_admitted _ (im_catalogue order Horder) history t) as Had'.
  { clear. revert t. induction history as [|op history IH]; intros t; simpl; auto. }
  destruct (ret_wp _ _ _ (@run_ops_spec _ (im_catalogue order Horder) history t C Ht Had'))
    as (l' & t' & Hl' & H2).
  exists l, l', s', t'. split; [done|]. split; [done|].
  clear -H1 H2. generalize dependent (a_steps history C). intros k H1. revert l'.
  induction H1 as [|a b l k Ha H1 IH]; intros l' H2; inversion H2; subst; constructor; auto.
  by transitivity b.
Qed.

(** Where a foreign key refuses a call, they do not. *)
Example foreign_keys_tell_them_apart :
  let t := mkSagaStepTemplate "pay" "order" "" "" ∅ [] ∅ in
  (psql_op (SaveStepTemplate t) (fresh_store calm_server)).1 = Ret (Failed (Errorf "failed to execute")) ∧
  (im_op (λ _ _ l, l) (SaveStepTemplate t)
     (NewInMemoryStore (mkInMemoryStore ∅ ∅ ∅ ∅ ∅ ∅ ∅ ∅ ∅ ∅ ∅ ∅ 0))).1 = Ret (Saved true).
Proof. by vm_compute. Qed.

Lemma stores_answer_alike_witness :
  let order : nat → ∀ A, list A → list A := λ _ _ l, l in
  ∃ l l' s' t',
    @run_ops _ (psql_catalogue (srv := calm_server) (λ _, eq_refl) (λ _ _ _, reflexivity _))
      [SaveTemplate (mkSagaTemplate "order" "" "" ∅ [] ∅ []); ListTemplates;
       SaveStepTemplate (mkSagaStepTemplate "pay" "order" "" "" ∅ [] ∅); DeleteTemplate "order";
       GetStepTemplate "pay"] (fresh_store calm_server) = (Ret l, s') ∧
    @run_ops _ (im_catalogue order (λ _ _ _, reflexivity _))
      [SaveTemplate (mkSagaTemplate "order" "" "" ∅ [] ∅ []); ListTemplates;
       SaveStepTemplate (mkSagaStepTemplate "pay" "order" "" "" ∅ [] ∅); DeleteTemplate "order";
       GetStepTemplate "pay"] (NewInMemoryStore (mkInMemoryStore ∅ ∅ ∅ ∅ ∅ ∅ ∅ ∅ ∅ ∅ ∅ ∅ 0)) =
      (Ret l', t') ∧
    Forall2 same_answer l l'.
Proof.
  apply (stores_answer_alike calm_server (λ _ _ l, l) (λ _, eq_refl) (λ _ _ _, reflexivity _)
    (λ _ _ _, reflexivity _) _ (mkCat ∅ ∅ ∅)).
  - split; [reflexivity|]. split; [apply fresh_intact|reflexivity].
  - split; [|split]; intros id; reflexivity.
  - vm_compute. repeat split. by eexists.
Defined.

(** Page after page, each item of a listing is shown once, in order, as long
    as the numbers stay below [2^63]; past that, a page panics
    ([paginate_wraps]). *)
Theorem pages_show_everything {A} (all : list A) (size count : nat) (s : inMemoryStore) :
  0 < size → length all ≤ count * size → in_int64 (Z.of_nat (count * size)) →
  pages all size 0 count s = (Ret all, s).
Proof.
  intros Hs Hl Hi. rewrite pages_spec by done. by rewrite drop_0, take_ge.
Qed.

Lemma pages_show_everything_witness :
  pages [1; 2; 3; 4; 5] 2 0 3 (NewInMemoryStore (mkInMemoryStore ∅ ∅ ∅ ∅ ∅ ∅ ∅ ∅ ∅ ∅ ∅ ∅ 0)) =
    (Ret [1; 2; 3; 4; 5], NewInMemoryStore (mkInMemoryStore ∅ ∅ ∅ ∅ ∅ ∅ ∅ ∅ ∅ ∅ ∅ ∅ 0)).
Proof. apply (pages_show_everything [1; 2; 3; 4; 5] 2 3); [lia|simpl; lia|by vm_compute]. Defined.

(** *** Where the store is not what its interface asks for *)

Section divergences.
Context (order : nat → ∀ A, list A → list A).
Implicit Types (s : inMemoryStore).

(** Every key of the map of sagas is an idempotency key. *)
Definition saga_keys s : Prop :=
  ∀ k p, im_sagaInstances s !! k = Some p → ∃ c z t i, k = getSagaIdempotencyKey c z t i.

Lemma saved_saga_keys p s : saga_keys s → saga_keys (im_SaveSagaInstanceIdempotently p s).2.
Proof.
  intros Hk. unfold im_SaveSagaInstanceIdempotently, bind, load.
  destruct (hp_saga s !! p) as [g|]; [|done]. unfold save_once, bind, get_state. simpl.
  destruct (im_sagaInstances s !! _) eqn:Hg; [done|].
  unfold saga_keys. simpl.
  intros k q [[<- <-]|[_ Hq]]%lookup_insert_Some; [by repeat eexists|by eapply Hk].
Qed.

(** An annex names its saga by the identifier, the map has the sagas by
    their idempotency keys: no annex is ever taken. *)
Theorem annexes_are_refused annex a s :
  saga_keys s → hp_annex s !! annex = Some a →
  String.prefix "sidk:" (an_SagaInstanceId a) = false →
  ∃ msg, im_CreateSagaAnnex annex s = (Ret (Err (Errorf msg)), s).
Proof.
  intros Hk Ha Hp. unfold im_CreateSagaAnnex, bind, load. rewrite Ha.
  destruct (String.eqb (an_Iid a) "" || String.eqb (an_SagaInstanceId a) "") eqn:He; [by eexists|].
  unfold get_state. destruct (im_sagaInstances s !! an_SagaInstanceId a) as [p|] eqn:Hs; [|by eexists].
  destruct (Hk _ _ Hs) as (c & z & t & i & Hkey). rewrite Hkey in Hp.
  unfold getSagaIdempotencyKey in Hp. by destruct c.
Qed.

(** A rollback leaves everything as it is. *)
Theorem rollback_undoes_nothing saga state s :
  let s1 := (im_UpdateSagaState saga state (im_BeginTransaction s).2).2 in
  (im_RollbackTransaction s1).2 = s1.
Proof. done. Qed.

(** Any two numbers of milliseconds are compared as texts. *)
Theorem created_at_sorts_as_text g1 g2 :
  si_CreatedAt g1 = 9%Z → si_CreatedAt g2 = 10%Z →
  (sorted_sagas (mkQueryOptions 0 0 "" "" [mkSortColumn "created_at" "ASC"] "" ∅)
     [(1, g1); (2, g2)]).*1 = [2; 1].
Proof.
  intros H1 H2. unfold sorted_sagas, SliceStable, inMemorySagaSortKey. simpl.
  unfold inMemorySagaSortKey. simpl. by rewrite H1, H2.
Qed.

(** The cluster that is asked for does not matter. *)
Theorem sagas_of_all_clusters c c' id s :
  im_GetSagaInstance order c id s = im_GetSagaInstance order c' id s.
Proof. done. Qed.
End divergences.
