(* ===== verification/Messages.v ===== *)
(** * Messages between the coordinator, the executors and the submitters

    The message envelope and the payloads of [pkg/trax/messages.go].  On the
    wire a payload's [Data] is the JSON of one of the payload structures;
    here it is the structure itself, and data that no structure decodes is
    [PayloadData_Other].  The request and result messages are built by one
    function each, with the fields the code's builder chains set; the fields
    a chain leaves alone have the values of [NewTraxMessageBuilder], whose
    random identifiers and clock reading are arguments. *)

From stdpp Require Import pretty.
From S2P Require Import Prelude Model.

Record SessionParams := mkSessionParams {
  sp_SessionId : string;
  sp_AuthProvider : string;
  sp_TokenType : string;
  sp_Token : string;
  sp_Identity : string;
}.

Definition Anonymous : SessionParams := mkSessionParams "none" "none" "none" "none" "none".

Record SagaSubmissionRequestPayload := mkSagaSubmissionRequestPayload {
  sr_SagaSubmitterId : string;
  sr_SagaTemplateId : string;
  sr_SagaInstanceId : string;
  sr_ZoneId : string;
  sr_SagaInput : gmap string string;
  sr_ParentSagaInstanceId : string;
  sr_ParentSagaStepInstanceId : string;
  sr_RootSagaInstanceId : string;
  sr_SagaDepth : Z;
}.

(** The execution request and the compensation request have the same
    fields. *)
Record SagaStepRequestPayload := mkSagaStepRequestPayload {
  rq_SagaSubmitterId : string;
  rq_SagaInstanceId : string;
  rq_SagaStepInstanceId : string;
  rq_ZoneId : string;
  rq_CoordinatorAffinity : string;
  rq_Input : gmap string string;
  rq_Extra : gmap string string;
  rq_Metadata : gmap string string;
  rq_RootSagaInstanceId : string;
  rq_SagaDepth : Z;
}.

Record SagaStepExecutionResultPayload := mkSagaStepExecutionResultPayload {
  er_SagaSubmitterId : string;
  er_SagaInstanceId : string;
  er_SagaStepInstanceId : string;
  er_ZoneId : string;
  er_Status : ExecutionResultStatusEnum;
  er_ExecutionResult : gmap string string;
}.

(** The types of payloads, from [pkg/trax/mq.go]. *)
Definition FollowSagaSubmitterType : string := "FOLLOW_SAGA_SUBMITTER".
Definition SagaSubmissionRequestType : string := "SAGA_SUBMISSION_REQUEST".
Definition SagaSubmissionFailureType : string := "SAGA_SUBMISSION_FAILURE".
Definition SagaSubmissionSuccessType : string := "SAGA_SUBMISSION_SUCCESS".
Definition SagaStepExecutionResultType : string := "SAGA_STEP_EXECUTION_RESULT".
Definition SagaStepExecutionRequestType : string := "SAGA_STEP_EXECUTION_REQUEST".
Definition SagaStepCompensationRequestType : string := "SAGA_STEP_COMPENSATION_REQUEST".

(** A payload with its data.  [Errors] holds the messages of the errors; data
    that does not decode is [PayloadData_Other] with the type it claims. *)
Inductive PayloadData :=
  | SagaPayloadType_FollowSagaSubmitter (sagaSubmitterId : string)
  | SagaPayloadType_SagaSubmissionRequest (p : SagaSubmissionRequestPayload)
  | SagaPayloadType_SagaSubmissionFailure (targetSubmitterId : string)
      (request : Payload) (errors : list string) (extra : string)
  | SagaPayloadType_SagaSubmissionSuccess (targetSubmitterId : string)
      (request : Payload) (extra : string)
  | SagaPayloadType_SagaStepExecutionResult (p : SagaStepExecutionResultPayload)
  | SagaPayloadType_SagaStepExecutionRequest (p : SagaStepRequestPayload)
  | SagaPayloadType_SagaStepCompensationRequest (p : SagaStepRequestPayload)
  | PayloadData_Other (type data : string)
with Payload :=
  | mkPayload (metadata contentType encoding : string) (data : PayloadData).

Definition pl_Metadata (p : Payload) : string := let 'mkPayload m _ _ _ := p in m.
Definition pl_ContentType (p : Payload) : string := let 'mkPayload _ c _ _ := p in c.
Definition pl_Encoding (p : Payload) : string := let 'mkPayload _ _ e _ := p in e.
Definition pl_Data (p : Payload) : PayloadData := let 'mkPayload _ _ _ d := p in d.

(** [NewPayloadBuilder().Type(...).Json(...).Build()] *)
Definition json_payload (d : PayloadData) : Payload := mkPayload "" "application/json" "utf-8" d.

Record TraxMessage := mkTraxMessage {
  msg_Type : string;
  msg_Version : string;
  msg_MessageId : string;
  msg_RefMessageId : string;
  msg_ExecutionId : string;
  msg_RefExecutionId : string;
  msg_TraceId : string;
  msg_ClusterId : string;
  msg_Timestamp : string;
  msg_Metadata : gmap string string;
  msg_Tags : list string;
  msg_Origin : string;
  msg_OriginIdempotencyKey : string;
  msg_Issuer : string;
  msg_Submitter : string;
  msg_SubmitterAffinityGroup : string;
  msg_Referrer : string;
  msg_Session : SessionParams;
  msg_Payloads : list Payload;
}.

(** [strconv.FormatInt(time.Now().UnixMilli(), 10)] *)
Definition FormatInt (z : Z) : string := pretty z.

(** [common.SubComponent] is set by the daemon that runs the component. *)
Section messages.
Context (SubComponent : string).

(** The message of an execution or compensation request. *)
Definition step_request_message (messageId : string) (timestamp : Z)
    (sagaInstance : SagaInstance) (sagaStepInstance : SagaStepInstance)
    (d : PayloadData) : TraxMessage :=
  mkTraxMessage "trax.TraxMessage" "v1.0.0" messageId "" (ssi_ExecutionId sagaStepInstance) ""
    (si_TraceId sagaInstance) (si_ClusterId sagaInstance) (FormatInt timestamp) ∅ []
    (si_Origin sagaInstance) (si_OriginIdempotencyKey sagaInstance)
    SubComponent "" "" "" Anonymous [json_payload d].

Definition step_request_payload (affinityGroup : string) (sagaInstance : SagaInstance)
    (sagaStepInstance : SagaStepInstance) (input : gmap string string) :
    SagaStepRequestPayload :=
  mkSagaStepRequestPayload (si_SagaSubmitterId sagaInstance) (si_InstanceId sagaInstance)
    (ssi_InstanceId sagaStepInstance) (si_ZoneId sagaInstance) affinityGroup input ∅
    (ssi_Metadata sagaStepInstance) (si_RootSagaInstanceId sagaInstance)
    (si_SagaDepth sagaInstance).

(** The answer to a saga submission. *)
Definition submission_reply_message (affinityGroup messageId : string) (timestamp : Z)
    (msg : TraxMessage) (d : PayloadData) : TraxMessage :=
  mkTraxMessage "trax.TraxMessage" "v1.0.0" messageId (msg_MessageId msg)
    (msg_ExecutionId msg) "" (msg_TraceId msg) (msg_ClusterId msg) (FormatInt timestamp) ∅ []
    (msg_Origin msg) (msg_OriginIdempotencyKey msg) SubComponent SubComponent affinityGroup ""
    (msg_Session msg) [json_payload d].
End messages.
