(* ===== verification/World.v ===== *)
(** * The world a coordinator method runs in

    A method of the coordinator runs in a world made of the store, the
    messages published so far, the goroutines it has started and the number
    of questions it has asked its surroundings: the clock, the random
    generator, the message broker, the lock service and the deadline of its
    context.  The
    answers are functions of that number, so that a theorem about a method is
    a theorem about every sequence of answers. *)

From S2P Require Import Prelude GoMonad Random Model Messages Store.

(** A message handed to the broker: on a topic exchange with a routing key,
    or on a node. *)
Inductive Published :=
  | PubTopic (exchange routingKey : string) (msg : TraxMessage)
  | PubNode (node : string) (msg : TraxMessage).

(** [go c.processStepWithMutex(ctx, cluster, saga, step, reason)] *)
Record Spawn := mkSpawn {
  sp_ClusterId : string;
  sp_SagaInstanceId : string;
  sp_SagaStepInstanceId : string;
  sp_TriggerReason : string;
}.

Record World (St : Type) := mkWorld {
  w_store : St;
  w_published : list Published;
  w_spawned : list Spawn;
  w_tick : nat;
}.
Arguments mkWorld {St}.
Arguments w_store {St}.
Arguments w_published {St}.
Arguments w_spawned {St}.
Arguments w_tick {St}.

(** What the broker does with a message: it may report an error for a message
    it has taken. *)
Inductive MqOutcome := MqSent | MqNotSent | MqSentWithError.

Record Env := mkEnv {
  env_now : nat → Z;
  env_rand : nat → nat → nat;
  env_mq : nat → MqOutcome;
  env_ctx_done : nat → bool;
  env_lock : nat → bool;
}.

Section world.
Context {St : Type} (env : Env).
Implicit Types (w : World St).

(** A call of the store. *)
Definition call {A} (m : M St A) : M (World St) A := λ w,
  match m (w_store w) with
  | (o, s) => (o, mkWorld s (w_published w) (w_spawned w) (w_tick w))
  end.

Definition tick : M (World St) nat := λ w,
  (Ret (w_tick w), mkWorld (w_store w) (w_published w) (w_spawned w) (S (w_tick w))).

(** [time.Now().UnixMilli()] *)
Definition time_now : M (World St) Z := bind tick (λ n, ret (env_now env n)).

(** [common.SecureRandomString(32)] *)
Definition SecureRandomString : M (World St) string :=
  bind tick (λ n, ret (random_string (env_rand env n) 32)).

(** [<-ctx.Done()] in a [select] with a default. *)
Definition ctx_done : M (World St) bool := bind tick (λ n, ret (env_ctx_done env n)).

Definition add_published (p : Published) : M (World St) unit :=
  modify (λ w, mkWorld (w_store w) (w_published w ++ [p]) (w_spawned w) (w_tick w)).

Definition publish (p : Published) : M (World St) (result unit) :=
  bind tick (λ n,
    match env_mq env n with
    | MqSent => bind (add_published p) (λ _, ret (Ok tt))
    | MqNotSent => ret (Err (Errorf "failed to publish"))
    | MqSentWithError => bind (add_published p) (λ _, ret (Err (Errorf "failed to publish")))
    end).

(** [go f()]: the goroutine is recorded, it runs later. *)
Definition spawn (sp : Spawn) : M (World St) unit :=
  modify (λ w, mkWorld (w_store w) (w_published w) (w_spawned w ++ [sp]) (w_tick w)).

(** [cache.Mutex(ctx, key, ttl, 0, cb)]: with a timeout of zero the lock is
    had at once or not at all. *)
Definition Mutex (cb : M (World St) unit) : M (World St) (result unit) :=
  bind tick (λ n,
    if env_lock env n then bind cb (λ _, ret (Ok tt))
    else ret (Err (Errorf "failed to acquire the lock"))).
End world.
