(* ===== verification/Executor.v ===== *)
(** * The executor of a step

    [pkg/trax/executor.go] with [step_configuration.go], [idempotent_service.go]
    and the contexts of [saga_context.go]: the callback of the executor's
    inbox, the goroutine it detaches for sub-sagas, and the guard that keeps
    two of them from running the service for the same key at once.

    Callbacks run at the same time: the message client starts a goroutine per
    message and gives a message out again when its callback takes too long.
    So a callback is a tree of _actions_, each of which is one step: a question
    to the service, a section under [inFlightMu], a message published.  [perform]
    does the action at the root of a tree, [run] a whole callback by itself, and
    [pool_step] any interleaving of the goroutines of one process. *)

From S2P Require Import Prelude GoMonad Model Naming Json Messages World.
Local Open Scope string_scope.

(** ** [idempotent_service.go] *)

Inductive SagaIdempotencyKeyStatusEnum :=
  | SagaIdempotencyKeyStatusEnum_Unknown
  | SagaIdempotencyKeyStatusEnum_NotSeen
  | SagaIdempotencyKeyStatusEnum_InProgress
  | SagaIdempotencyKeyStatusEnum_Completed
  | SagaIdempotencyKeyStatusEnum_Other (s : string).

#[export] Instance SagaIdempotencyKeyStatusEnum_eq_dec : EqDecision SagaIdempotencyKeyStatusEnum.
Proof. solve_decision. Defined.

(** [Error] is the text of the error, if there is one. *)
Record IdempotentServiceExecutionResult := mkIdempotentServiceExecutionResult {
  isr_Result : gmap string string;
  isr_Error : option string;
}.

(** ** [step_configuration.go] *)

Record StepConfiguration := mkStepConfiguration {
  ExecutionTimeoutMsec : Z;
  CompensationTimeoutMsec : Z;
}.

Definition StepConfigurationMetadataKey : string := "step_configuration".
Definition DefaultStepTimeoutMsec : Z := 180000.

Definition StepConfiguration_fields : list (Field StepConfiguration) :=
  [ field "execution_timeout_msec" ExecutionTimeoutMsec
      (λ v c, mkStepConfiguration v (CompensationTimeoutMsec c)) kept JInt decode_int64;
    field "compensation_timeout_msec" CompensationTimeoutMsec
      (λ v c, mkStepConfiguration (ExecutionTimeoutMsec c) v) kept JInt decode_int64 ].

Definition is_space (c : Ascii.ascii) : bool :=
  let n := Ascii.N_of_ascii c in (n =? 32)%N || ((9 <=? n)%N && (n <=? 13)%N).

Fixpoint blank (s : string) : bool :=
  match s with EmptyString => true | String c s => is_space c && blank s end.

Definition positive_or (default v : Z) : Z := if (0 <? v)%Z then v else default.

(** [parse] is the JSON parser: [None] for a text that is not JSON. *)
Definition ParseStepConfiguration (parse : string → option Json)
    (metadata : gmap string string) : StepConfiguration :=
  let cfg := mkStepConfiguration DefaultStepTimeoutMsec DefaultStepTimeoutMsec in
  match metadata !! StepConfigurationMetadataKey with
  | None => cfg
  | Some raw =>
      if blank raw then cfg
      else
        match parse raw with
        | None => cfg
        | Some j =>
            match unmarshal (decode_struct StepConfiguration_fields) (mkStepConfiguration 0 0) j with
            | None => cfg
            | Some parsed =>
                mkStepConfiguration
                  (positive_or (ExecutionTimeoutMsec cfg) (ExecutionTimeoutMsec parsed))
                  (positive_or (CompensationTimeoutMsec cfg) (CompensationTimeoutMsec parsed))
            end
        end
  end.

(** [time.Duration(msec) * time.Millisecond], in nanoseconds. *)
Definition step_timeout (msec : Z) : Z := wrap64 (msec * 1000000).

(** ** What the service finds in its context *)

(** [defaultSagaContext], without the submitter and the address it uses. *)
Record SagaContext := mkSagaContext {
  sc_parentSagaInstanceId : string;
  sc_parentSagaStepInstanceId : string;
  sc_rootSagaInstanceId : string;
  sc_sagaDepth : Z;
  sc_clusterId : string;
}.

(** The deadline is the one put on for the step; [None] in a detached
    goroutine. *)
Record ServiceContext := mkServiceContext {
  ctx_sagaContext : option SagaContext;
  ctx_stepMetadata : gmap string string;
  ctx_timeout : option Z;
}.

(** ** The executor *)

Record Executor := mkExecutor {
  ex_clusterId : string;
  ex_sagaTemplateId : string;
  ex_sagaStepTemplateId : string;
  ex_hasSagaSubmitter : bool;
  ex_traxCtrlURL : string;
}.

Definition isSubSagaExecutor (e : Executor) : bool :=
  ex_hasSagaSubmitter e && negb (bool_decide (ex_traxCtrlURL e = "")).

(** [done] has been closed when there is a final status. *)
Record InFlightEntry := mkInFlightEntry {
  ife_done : bool;
  ife_status : ExecutionResultStatusEnum;
  ife_result : gmap string string;
}.

Definition new_entry : InFlightEntry := mkInFlightEntry false (ExecutionResultStatusEnum_Other "") ∅.

Inductive GuardAnswer := AlreadyInFlight | Registered | NotRegistered.

(** What a goroutine of the executor does next.  [comp] tells compensation
    from execution: they have a service method and a map each. *)
Inductive action :=
  | Finished (r : result unit)
  | Crash (msg : string)
  | GetStatus (comp : bool) (key : string) (k : result SagaIdempotencyKeyStatusEnum → action)
  (** [inFlightMu.Lock(); ...; inFlightMu.Unlock()]: is the key in flight?  If
      not, an entry is made when [register]. *)
  | Guard (comp : bool) (key : string) (register : bool) (k : GuardAnswer → action)
  (** [ExecuteSync] or [CompensateSync] *)
  | CallService (comp : bool) (ctx : ServiceContext) (key : string) (input : gmap string string)
      (k : result (option IdempotentServiceExecutionResult) → action)
  (** The final status is written to the entry, and the entry is closed. *)
  | Complete (comp : bool) (key : string) (status : ExecutionResultStatusEnum)
      (res : gmap string string) (k : action)
  (** [delete(inFlight, key)] under the lock *)
  | Unregister (comp : bool) (key : string) (k : action)
  (** The message is built with a random identifier and the clock. *)
  | Publish (exchange routingKey : string) (msg : string → Z → TraxMessage)
      (k : result unit → action)
  (** [go goroutine] *)
  | Start (goroutine k : action).

Section executor.
Context (parse : string → option Json) (SubComponent : string) (e : Executor).

Definition status_text (s : ExecutionResultStatusEnum) : string :=
  match s with
  | ExecutionResultStatusEnum_Unknown => "UNKNOWN"
  | ExecutionResultStatusEnum_Success => "EXECUTION_RESULT_STATUS_ENUM_SUCCESS"
  | ExecutionResultStatusEnum_InExecution => "EXECUTION_RESULT_STATUS_ENUM_IN_EXECUTION"
  | ExecutionResultStatusEnum_Failed => "EXECUTION_RESULT_STATUS_ENUM_FAILED"
  | ExecutionResultStatusEnum_Retry => "EXECUTION_RESULT_STATUS_ENUM_RETRY"
  | ExecutionResultStatusEnum_Error => "EXECUTION_RESULT_STATUS_ENUM_ERROR"
  | ExecutionResultStatusEnum_Other s => s
  end.

(** The message of a result. *)
Definition result_message (msg : TraxMessage) (req : SagaStepRequestPayload)
    (status : ExecutionResultStatusEnum) (resultMap : gmap string string)
    (messageId : string) (timestamp : Z) : TraxMessage :=
  mkTraxMessage "trax.TraxMessage" "v1.0.0" messageId (msg_MessageId msg) (msg_ExecutionId msg) ""
    (msg_TraceId msg) (msg_ClusterId msg) (FormatInt timestamp) ∅ [] (msg_Origin msg) ""
    SubComponent SubComponent (rq_CoordinatorAffinity req) "" (msg_Session msg)
    [json_payload (SagaPayloadType_SagaStepExecutionResult
       (mkSagaStepExecutionResultPayload (msg_Submitter msg) (rq_SagaInstanceId req)
          (rq_SagaStepInstanceId req) (rq_ZoneId req) status resultMap))].

Definition publishExecutionResult (msg : TraxMessage) (req : SagaStepRequestPayload)
    (status : ExecutionResultStatusEnum) (resultMap : gmap string string)
    (k : result unit → action) : action :=
  Publish (getStepTopicExchangeName (ex_clusterId e))
    (getStepResponseRoutingKey (ex_clusterId e) (rq_CoordinatorAffinity req)
       (ex_sagaTemplateId e) (ex_sagaStepTemplateId e))
    (result_message msg req status resultMap) k.

(** The same with compensation in its name. *)
Definition publishCompensationResult (msg : TraxMessage) (req : SagaStepRequestPayload)
    (status : ExecutionResultStatusEnum) (resultMap : gmap string string)
    (k : result unit → action) : action :=
  Publish (getStepTopicExchangeName (ex_clusterId e))
    (getStepResponseRoutingKey (ex_clusterId e) (rq_CoordinatorAffinity req)
       (ex_sagaTemplateId e) (ex_sagaStepTemplateId e))
    (result_message msg req status resultMap) k.

Definition request_key (req : SagaStepRequestPayload) : string :=
  getSagaStepIdempotencyKey (ex_clusterId e) (rq_CoordinatorAffinity req)
    (ex_sagaTemplateId e) (ex_sagaStepTemplateId e) (rq_SagaInstanceId req).

Definition sagaContext_of (req : SagaStepRequestPayload) : SagaContext :=
  mkSagaContext (rq_SagaInstanceId req) (rq_SagaStepInstanceId req) (rq_RootSagaInstanceId req)
    (rq_SagaDepth req) (ex_clusterId e).

Definition step_context (req : SagaStepRequestPayload) (timeout : option Z) : ServiceContext :=
  mkServiceContext (if isSubSagaExecutor e then Some (sagaContext_of req) else None)
    (rq_Metadata req) timeout.

Definition error_map (msg : string) : gmap string string := {["error" := msg]}.

(** What becomes of an answer of the service; a nil result without an error
    is dereferenced. *)
Definition service_outcome (failedTo errorIn key : string)
    (r : result (option IdempotentServiceExecutionResult)) :
    option (ExecutionResultStatusEnum * gmap string string) :=
  match r with
  | Err err =>
      Some (ExecutionResultStatusEnum_Error,
        error_map ("failed to " ++ failedTo ++ " saga step instance with idempotent key '" ++ key ++
          "': " ++ error_text err))
  | Ok None => None
  | Ok (Some res) =>
      match isr_Error res with
      | Some err =>
          Some (ExecutionResultStatusEnum_Failed,
            error_map (errorIn ++ " error in saga step instance with idempotent key '" ++ key ++
              "': " ++ err))
      | None => Some (ExecutionResultStatusEnum_Success, isr_Result res)
      end
  end.

(** The goroutine of [detachExecution]. *)
Definition detachExecution (key : string) (msg : TraxMessage) (req : SagaStepRequestPayload) :
    action :=
  CallService false (mkServiceContext (Some (sagaContext_of req)) (rq_Metadata req) None) key
    (rq_Input req) (λ r,
      match service_outcome "execute" "execution" key r with
      | None => Crash "invalid memory address or nil pointer dereference"
      | Some (status, resultMap) =>
          Complete false key status resultMap
            (Unregister false key
              (publishExecutionResult msg req status resultMap (λ _, Finished (Ok tt))))
      end).

(** The statuses with which the code goes on; for any other the answer is
    that the step is in execution. *)
Definition status_handled (status : SagaIdempotencyKeyStatusEnum) : bool :=
  match status with
  | SagaIdempotencyKeyStatusEnum_InProgress
  | SagaIdempotencyKeyStatusEnum_NotSeen
  | SagaIdempotencyKeyStatusEnum_Completed => true
  | _ => false
  end.

(** The end of an execution request: the answer. *)
Definition answerExecution (msg : TraxMessage) (req : SagaStepRequestPayload)
    (status : ExecutionResultStatusEnum) (resultMap : gmap string string) : action :=
  publishExecutionResult msg req status resultMap (λ r,
    match r with
    | Ok _ => Finished (Ok tt)
    | Err err =>
        Finished (Err (Errorf ("failed to publish execution result for '" ++ ex_sagaTemplateId e ++
          ":" ++ ex_sagaStepTemplateId e ++ "' (status=" ++ status_text status ++ "): " ++
          error_text err)))
    end).

(** A registered execution: detached, or run to the end. *)
Definition executeRegistered (key : string) (msg : TraxMessage) (req : SagaStepRequestPayload) :
    action :=
  if isSubSagaExecutor e then
    Start (detachExecution key msg req)
      (answerExecution msg req ExecutionResultStatusEnum_InExecution ∅)
  else
    CallService false
      (step_context req
         (Some (step_timeout (ExecutionTimeoutMsec (ParseStepConfiguration parse (rq_Metadata req))))))
      key (rq_Input req) (λ r,
        match service_outcome "execute" "execution" key r with
        | None => Crash "invalid memory address or nil pointer dereference"
        | Some (status, resultMap) =>
            Complete false key status resultMap
              (Unregister false key (answerExecution msg req status resultMap))
        end).

(** The callback's branch for an execution request.  A key that is in
    progress without being in flight was left by a process that has died: only
    an executor of sub-sagas takes it up again. *)
Definition handleExecutionRequest (msg : TraxMessage) (req : SagaStepRequestPayload) : action :=
  let key := request_key req in
  GetStatus false key (λ r,
    match r with
    | Err err =>
        answerExecution msg req ExecutionResultStatusEnum_Error
          (error_map ("failed to check if saga step instance with idempotent key '" ++ key ++
            "' has already been executed: " ++ error_text err))
    | Ok status =>
        if status_handled status then
          Guard false key
            (isSubSagaExecutor e ||
             negb (bool_decide (status = SagaIdempotencyKeyStatusEnum_InProgress)))
            (λ g,
              match g with
              | AlreadyInFlight | NotRegistered =>
                  answerExecution msg req ExecutionResultStatusEnum_InExecution ∅
              | Registered => executeRegistered key msg req
              end)
        else answerExecution msg req ExecutionResultStatusEnum_InExecution ∅
    end).

Definition answerCompensation (msg : TraxMessage) (req : SagaStepRequestPayload)
    (status : ExecutionResultStatusEnum) (resultMap : gmap string string) : action :=
  publishCompensationResult msg req status resultMap (λ r,
    match r with
    | Ok _ => Finished (Ok tt)
    | Err err =>
        Finished (Err (Errorf ("failed to publish saga compensation result: " ++ error_text err)))
    end).

Definition compensateRegistered (key : string) (msg : TraxMessage) (req : SagaStepRequestPayload) :
    action :=
  CallService true
    (step_context req
       (Some (step_timeout (CompensationTimeoutMsec (ParseStepConfiguration parse (rq_Metadata req))))))
    key (rq_Input req) (λ r,
      match service_outcome "compensate" "compensation" key r with
      | None => Crash "invalid memory address or nil pointer dereference"
      | Some (status, resultMap) =>
          Complete true key status resultMap
            (Unregister true key (answerCompensation msg req status resultMap))
      end).

(** The branch for a compensation request: nothing is detached. *)
Definition handleCompensationRequest (msg : TraxMessage) (req : SagaStepRequestPayload) : action :=
  let key := request_key req in
  GetStatus true key (λ r,
    match r with
    | Err err =>
        answerCompensation msg req ExecutionResultStatusEnum_Error
          (error_map ("failed to check if saga step instance with idempotent key '" ++ key ++
            "' has already been compensated: " ++ error_text err))
    | Ok status =>
        if status_handled status then
          Guard true key (negb (bool_decide (status = SagaIdempotencyKeyStatusEnum_InProgress)))
            (λ g,
              match g with
              | AlreadyInFlight | NotRegistered =>
                  answerCompensation msg req ExecutionResultStatusEnum_InExecution ∅
              | Registered => compensateRegistered key msg req
              end)
        else answerCompensation msg req ExecutionResultStatusEnum_InExecution ∅
    end).

(** The callback of the inbox: messages it has no use for are dropped. *)
Definition handleMessage (msg : TraxMessage) : action :=
  match msg_Payloads msg with
  | [] => Finished (Ok tt)
  | p :: _ =>
      match pl_Data p with
      | SagaPayloadType_SagaStepExecutionRequest req => handleExecutionRequest msg req
      | SagaPayloadType_SagaStepCompensationRequest req => handleCompensationRequest msg req
      | _ => Finished (Ok tt)
      end
  end.
End executor.

(** ** Timeouts *)

Lemma positive_or_pos d v : (0 < d)%Z → (0 < positive_or d v)%Z.
Proof. unfold positive_or. destruct (0 <? v)%Z eqn:Hv; [by apply Z.ltb_lt in Hv|done]. Qed.

(** Whatever the metadata hold, text that is not JSON or values of the
    wrong type included, both timeouts are positive.  Below nine and a quarter
    million seconds a timeout is what it says in nanoseconds; the product is
    not checked, and a larger value can turn into a deadline that has passed
    before the step is begun. *)
Theorem ParseStepConfiguration_timeouts parse metadata :
  let cfg := ParseStepConfiguration parse metadata in
  (0 < ExecutionTimeoutMsec cfg)%Z ∧ (0 < CompensationTimeoutMsec cfg)%Z ∧
  (∀ msec, (0 < msec <= 9223372036854)%Z →
     step_timeout msec = (msec * 1000000)%Z ∧ (0 < step_timeout msec)%Z) ∧
  (step_timeout 9223372036855 < 0)%Z.
Proof.
  split_and!.
  - unfold ParseStepConfiguration. repeat case_match; simpl; by try apply positive_or_pos.
  - unfold ParseStepConfiguration. repeat case_match; simpl; by try apply positive_or_pos.
  - intros msec Hm. unfold step_timeout. rewrite wrap64_id by (unfold in_int64; lia). lia.
  - reflexivity.
Qed.

(** A step says how long it may take. *)
Example step_configuration_read :
  ParseStepConfiguration
    (λ _, Some (JObject [("Execution_Timeout_MSEC", JInt 5000); ("compensation_timeout_msec", JNull)]))
    {["step_configuration" := "{...}"]} = mkStepConfiguration 5000 180000.
Proof. vm_compute. reflexivity. Qed.

(** One value of the wrong type spoils the other one. *)
Example step_configuration_spoiled :
  ParseStepConfiguration
    (λ _, Some (JObject [("execution_timeout_msec", JInt 5000);
                         ("compensation_timeout_msec", JString "7000")]))
    {["step_configuration" := "{...}"]} = mkStepConfiguration 180000 180000.
Proof. vm_compute. reflexivity. Qed.
