(* ===== verification/Builders.v ===== *)
(** * The builders of [pkg/trax/messages.go]

    A message is put together by a chain of calls on a builder.  A builder
    holds the structure it builds, and every method sets a part of it and
    returns the builder, so a method is a function on the structure and a chain
    their composition, written [b |> f x |> g y].  The structures are those on
    the wire: a payload holds the text of its data. *)

From stdpp Require Import pretty.
From S2P Require Import Prelude Model Messages.

Declare Scope builder_scope.
Delimit Scope builder_scope with builder.
Notation "b |> f" := (f b) (at level 50, left associativity, only parsing) : builder_scope.
Open Scope builder_scope.

(** ** The structures that Messages.v does not have *)

Record WirePayload := mkWirePayload {
  wp_Metadata : string;
  wp_Type : string;
  wp_ContentType : string;
  wp_Encoding : string;
  wp_Data : string;
}.

Record WireMessage := mkWireMessage {
  wm_Type : string;
  wm_Version : string;
  wm_MessageId : string;
  wm_RefMessageId : string;
  wm_ExecutionId : string;
  wm_RefExecutionId : string;
  wm_TraceId : string;
  wm_ClusterId : string;
  wm_Timestamp : string;
  wm_Metadata : gmap string string;
  wm_Tags : list string;
  wm_Origin : string;
  wm_OriginIdempotencyKey : string;
  wm_Issuer : string;
  wm_Submitter : string;
  wm_SubmitterAffinityGroup : string;
  wm_Referrer : string;
  wm_Session : SessionParams;
  wm_Payloads : list WirePayload;
}.

Record FollowSagaSubmitterPayload := mkFollowSagaSubmitterPayload {
  fs_SagaSubmitterId : string;
}.

Record SagaSubmissionFailurePayload := mkSagaSubmissionFailurePayload {
  sf_SagaTargetSubmitterId : string;
  sf_SagaSubmissionRequestPayload : WirePayload;
  sf_Errors : list string;
  sf_Extra : string;
}.

Record SagaSubmissionSuccessPayload := mkSagaSubmissionSuccessPayload {
  ss_SagaTargetSubmitterId : string;
  ss_SagaSubmissionRequestPayload : WirePayload;
  ss_Extra : string;
}.

(** ** Session parameters and payloads *)

Module SessionParamsBuilder.
Definition New : SessionParams := mkSessionParams "" "" "" "" "".

Definition SessionId (v : string) (b : SessionParams) : SessionParams :=
  mkSessionParams v (sp_AuthProvider b) (sp_TokenType b) (sp_Token b) (sp_Identity b).

Definition AuthProvider (v : string) (b : SessionParams) : SessionParams :=
  mkSessionParams (sp_SessionId b) v (sp_TokenType b) (sp_Token b) (sp_Identity b).

Definition TokenType (v : string) (b : SessionParams) : SessionParams :=
  mkSessionParams (sp_SessionId b) (sp_AuthProvider b) v (sp_Token b) (sp_Identity b).

Definition Token (v : string) (b : SessionParams) : SessionParams :=
  mkSessionParams (sp_SessionId b) (sp_AuthProvider b) (sp_TokenType b) v (sp_Identity b).

Definition Identity (v : string) (b : SessionParams) : SessionParams :=
  mkSessionParams (sp_SessionId b) (sp_AuthProvider b) (sp_TokenType b) (sp_Token b) v.

Definition Anonymous (b : SessionParams) : SessionParams :=
  mkSessionParams "none" "none" "none" "none" "none".

Definition Build (b : SessionParams) : SessionParams := b.
End SessionParamsBuilder.

Module PayloadBuilder.
Definition New : WirePayload := mkWirePayload "" "" "" "" "".

Definition Metadata (v : string) (b : WirePayload) : WirePayload :=
  mkWirePayload v (wp_Type b) (wp_ContentType b) (wp_Encoding b) (wp_Data b).

Definition Type_ (v : string) (b : WirePayload) : WirePayload :=
  mkWirePayload (wp_Metadata b) v (wp_ContentType b) (wp_Encoding b) (wp_Data b).

Definition ContentType (v : string) (b : WirePayload) : WirePayload :=
  mkWirePayload (wp_Metadata b) (wp_Type b) v (wp_Encoding b) (wp_Data b).

Definition Encoding (v : string) (b : WirePayload) : WirePayload :=
  mkWirePayload (wp_Metadata b) (wp_Type b) (wp_ContentType b) v (wp_Data b).

Definition Data (v : string) (b : WirePayload) : WirePayload :=
  mkWirePayload (wp_Metadata b) (wp_Type b) (wp_ContentType b) (wp_Encoding b) v.

Definition Json (data : string) (b : WirePayload) : WirePayload :=
  mkWirePayload (wp_Metadata b) (wp_Type b) "application/json" "utf-8" data.

Definition Xml (data : string) (b : WirePayload) : WirePayload :=
  mkWirePayload (wp_Metadata b) (wp_Type b) "application/xml" "utf-8" data.

Definition PlainText (data : string) (b : WirePayload) : WirePayload :=
  mkWirePayload (wp_Metadata b) (wp_Type b) "text/plain" "utf-8" data.

Definition Build (b : WirePayload) : WirePayload := b.
End PayloadBuilder.

(** [metadata ...string]: the first one counts. *)
Definition with_metadata (metadata : list string) (b : WirePayload) : WirePayload :=
  match metadata with [] => b | m :: _ => b |> PayloadBuilder.Metadata m end.

Definition NewJsonPayload (data : string) (metadata : list string) : WirePayload :=
  with_metadata metadata (PayloadBuilder.New |> PayloadBuilder.Json data) |> PayloadBuilder.Build.
Definition NewXmlPayload (data : string) (metadata : list string) : WirePayload :=
  with_metadata metadata (PayloadBuilder.New |> PayloadBuilder.Xml data) |> PayloadBuilder.Build.
Definition NewPlainTextPayload (data : string) (metadata : list string) : WirePayload :=
  with_metadata metadata (PayloadBuilder.New |> PayloadBuilder.PlainText data) |> PayloadBuilder.Build.

(** ** Messages *)

Module TraxMessageBuilder.
(** The identifiers are drawn at random, the timestamp is read from the
    clock. *)
Definition New (messageId traceId executionId : string) (now : Z) : WireMessage :=
  mkWireMessage "trax.TraxMessage" "v1.0.0" messageId "" executionId "" traceId "" (FormatInt now)
    ∅ [] "" "" "" "" "" "" SessionParamsBuilder.New [].

Definition MessageId (v : string) (b : WireMessage) : WireMessage :=
  mkWireMessage (wm_Type b) (wm_Version b) v (wm_RefMessageId b) (wm_ExecutionId b)
    (wm_RefExecutionId b) (wm_TraceId b) (wm_ClusterId b) (wm_Timestamp b) (wm_Metadata b)
    (wm_Tags b) (wm_Origin b) (wm_OriginIdempotencyKey b) (wm_Issuer b) (wm_Submitter b)
    (wm_SubmitterAffinityGroup b) (wm_Referrer b) (wm_Session b) (wm_Payloads b).

Definition RefMessageId (v : string) (b : WireMessage) : WireMessage :=
  mkWireMessage (wm_Type b) (wm_Version b) (wm_MessageId b) v (wm_ExecutionId b)
    (wm_RefExecutionId b) (wm_TraceId b) (wm_ClusterId b) (wm_Timestamp b) (wm_Metadata b)
    (wm_Tags b) (wm_Origin b) (wm_OriginIdempotencyKey b) (wm_Issuer b) (wm_Submitter b)
    (wm_SubmitterAffinityGroup b) (wm_Referrer b) (wm_Session b) (wm_Payloads b).

Definition ExecutionId (v : string) (b : WireMessage) : WireMessage :=
  mkWireMessage (wm_Type b) (wm_Version b) (wm_MessageId b) (wm_RefMessageId b) v
    (wm_RefExecutionId b) (wm_TraceId b) (wm_ClusterId b) (wm_Timestamp b) (wm_Metadata b)
    (wm_Tags b) (wm_Origin b) (wm_OriginIdempotencyKey b) (wm_Issuer b) (wm_Submitter b)
    (wm_SubmitterAffinityGroup b) (wm_Referrer b) (wm_Session b) (wm_Payloads b).

Definition RefExecutionId (v : string) (b : WireMessage) : WireMessage :=
  mkWireMessage (wm_Type b) (wm_Version b) (wm_MessageId b) (wm_RefMessageId b) (wm_ExecutionId b)
    v (wm_TraceId b) (wm_ClusterId b) (wm_Timestamp b) (wm_Metadata b) (wm_Tags b) (wm_Origin b)
    (wm_OriginIdempotencyKey b) (wm_Issuer b) (wm_Submitter b) (wm_SubmitterAffinityGroup b)
    (wm_Referrer b) (wm_Session b) (wm_Payloads b).

Definition TraceId (v : string) (b : WireMessage) : WireMessage :=
  mkWireMessage (wm_Type b) (wm_Version b) (wm_MessageId b) (wm_RefMessageId b) (wm_ExecutionId b)
    (wm_RefExecutionId b) v (wm_ClusterId b) (wm_Timestamp b) (wm_Metadata b) (wm_Tags b)
    (wm_Origin b) (wm_OriginIdempotencyKey b) (wm_Issuer b) (wm_Submitter b)
    (wm_SubmitterAffinityGroup b) (wm_Referrer b) (wm_Session b) (wm_Payloads b).

Definition ClusterId (v : string) (b : WireMessage) : WireMessage :=
  mkWireMessage (wm_Type b) (wm_Version b) (wm_MessageId b) (wm_RefMessageId b) (wm_ExecutionId b)
    (wm_RefExecutionId b) (wm_TraceId b) v (wm_Timestamp b) (wm_Metadata b) (wm_Tags b)
    (wm_Origin b) (wm_OriginIdempotencyKey b) (wm_Issuer b) (wm_Submitter b)
    (wm_SubmitterAffinityGroup b) (wm_Referrer b) (wm_Session b) (wm_Payloads b).

Definition Timestamp (v : string) (b : WireMessage) : WireMessage :=
  mkWireMessage (wm_Type b) (wm_Version b) (wm_MessageId b) (wm_RefMessageId b) (wm_ExecutionId b)
    (wm_RefExecutionId b) (wm_TraceId b) (wm_ClusterId b) v (wm_Metadata b) (wm_Tags b)
    (wm_Origin b) (wm_OriginIdempotencyKey b) (wm_Issuer b) (wm_Submitter b)
    (wm_SubmitterAffinityGroup b) (wm_Referrer b) (wm_Session b) (wm_Payloads b).

Definition Metadata (v : gmap string string) (b : WireMessage) : WireMessage :=
  mkWireMessage (wm_Type b) (wm_Version b) (wm_MessageId b) (wm_RefMessageId b) (wm_ExecutionId b)
    (wm_RefExecutionId b) (wm_TraceId b) (wm_ClusterId b) (wm_Timestamp b) v (wm_Tags b)
    (wm_Origin b) (wm_OriginIdempotencyKey b) (wm_Issuer b) (wm_Submitter b)
    (wm_SubmitterAffinityGroup b) (wm_Referrer b) (wm_Session b) (wm_Payloads b).

Definition Tags (v : list string) (b : WireMessage) : WireMessage :=
  mkWireMessage (wm_Type b) (wm_Version b) (wm_MessageId b) (wm_RefMessageId b) (wm_ExecutionId b)
    (wm_RefExecutionId b) (wm_TraceId b) (wm_ClusterId b) (wm_Timestamp b) (wm_Metadata b) v
    (wm_Origin b) (wm_OriginIdempotencyKey b) (wm_Issuer b) (wm_Submitter b)
    (wm_SubmitterAffinityGroup b) (wm_Referrer b) (wm_Session b) (wm_Payloads b).

Definition Origin (v : string) (b : WireMessage) : WireMessage :=
  mkWireMessage (wm_Type b) (wm_Version b) (wm_MessageId b) (wm_RefMessageId b) (wm_ExecutionId b)
    (wm_RefExecutionId b) (wm_TraceId b) (wm_ClusterId b) (wm_Timestamp b) (wm_Metadata b)
    (wm_Tags b) v (wm_OriginIdempotencyKey b) (wm_Issuer b) (wm_Submitter b)
    (wm_SubmitterAffinityGroup b) (wm_Referrer b) (wm_Session b) (wm_Payloads b).

Definition OriginIdempotencyKey (v : string) (b : WireMessage) : WireMessage :=
  mkWireMessage (wm_Type b) (wm_Version b) (wm_MessageId b) (wm_RefMessageId b) (wm_ExecutionId b)
    (wm_RefExecutionId b) (wm_TraceId b) (wm_ClusterId b) (wm_Timestamp b) (wm_Metadata b)
    (wm_Tags b) (wm_Origin b) v (wm_Issuer b) (wm_Submitter b) (wm_SubmitterAffinityGroup b)
    (wm_Referrer b) (wm_Session b) (wm_Payloads b).

Definition Issuer (v : string) (b : WireMessage) : WireMessage :=
  mkWireMessage (wm_Type b) (wm_Version b) (wm_MessageId b) (wm_RefMessageId b) (wm_ExecutionId b)
    (wm_RefExecutionId b) (wm_TraceId b) (wm_ClusterId b) (wm_Timestamp b) (wm_Metadata b)
    (wm_Tags b) (wm_Origin b) (wm_OriginIdempotencyKey b) v (wm_Submitter b)
    (wm_SubmitterAffinityGroup b) (wm_Referrer b) (wm_Session b) (wm_Payloads b).

Definition Submitter (v : string) (b : WireMessage) : WireMessage :=
  mkWireMessage (wm_Type b) (wm_Version b) (wm_MessageId b) (wm_RefMessageId b) (wm_ExecutionId b)
    (wm_RefExecutionId b) (wm_TraceId b) (wm_ClusterId b) (wm_Timestamp b) (wm_Metadata b)
    (wm_Tags b) (wm_Origin b) (wm_OriginIdempotencyKey b) (wm_Issuer b) v
    (wm_SubmitterAffinityGroup b) (wm_Referrer b) (wm_Session b) (wm_Payloads b).

Definition SubmitterAffinityGroup (v : string) (b : WireMessage) : WireMessage :=
  mkWireMessage (wm_Type b) (wm_Version b) (wm_MessageId b) (wm_RefMessageId b) (wm_ExecutionId b)
    (wm_RefExecutionId b) (wm_TraceId b) (wm_ClusterId b) (wm_Timestamp b) (wm_Metadata b)
    (wm_Tags b) (wm_Origin b) (wm_OriginIdempotencyKey b) (wm_Issuer b) (wm_Submitter b) v
    (wm_Referrer b) (wm_Session b) (wm_Payloads b).

Definition Referrer (v : string) (b : WireMessage) : WireMessage :=
  mkWireMessage (wm_Type b) (wm_Version b) (wm_MessageId b) (wm_RefMessageId b) (wm_ExecutionId b)
    (wm_RefExecutionId b) (wm_TraceId b) (wm_ClusterId b) (wm_Timestamp b) (wm_Metadata b)
    (wm_Tags b) (wm_Origin b) (wm_OriginIdempotencyKey b) (wm_Issuer b) (wm_Submitter b)
    (wm_SubmitterAffinityGroup b) v (wm_Session b) (wm_Payloads b).

Definition Session (v : SessionParams) (b : WireMessage) : WireMessage :=
  mkWireMessage (wm_Type b) (wm_Version b) (wm_MessageId b) (wm_RefMessageId b) (wm_ExecutionId b)
    (wm_RefExecutionId b) (wm_TraceId b) (wm_ClusterId b) (wm_Timestamp b) (wm_Metadata b)
    (wm_Tags b) (wm_Origin b) (wm_OriginIdempotencyKey b) (wm_Issuer b) (wm_Submitter b)
    (wm_SubmitterAffinityGroup b) (wm_Referrer b) v (wm_Payloads b).

Definition Payloads (v : list WirePayload) (b : WireMessage) : WireMessage :=
  mkWireMessage (wm_Type b) (wm_Version b) (wm_MessageId b) (wm_RefMessageId b) (wm_ExecutionId b)
    (wm_RefExecutionId b) (wm_TraceId b) (wm_ClusterId b) (wm_Timestamp b) (wm_Metadata b)
    (wm_Tags b) (wm_Origin b) (wm_OriginIdempotencyKey b) (wm_Issuer b) (wm_Submitter b)
    (wm_SubmitterAffinityGroup b) (wm_Referrer b) (wm_Session b) v.

(** The header and the query parameter of a request; [None] for no request. *)
Definition TraceIdFromGinContext (c : option (string * string)) (b : WireMessage) : WireMessage :=
  match c with
  | None => b
  | Some (header, query) =>
      let traceId := if bool_decide (header = "") then query else header in
      if bool_decide (traceId = "") then b else b |> TraceId traceId
  end.

Definition TimestampNow (now : Z) (b : WireMessage) : WireMessage := b |> Timestamp (FormatInt now).

Definition AddMetadata (key value : string) (b : WireMessage) : WireMessage :=
  b |> Metadata (<[key := value]> (wm_Metadata b)).

Definition AddTag (tag : string) (b : WireMessage) : WireMessage := b |> Tags (wm_Tags b ++ [tag]).

Definition SessionBuilder (sessionBuilder : SessionParams) (b : WireMessage) : WireMessage :=
  b |> Session (SessionParamsBuilder.Build sessionBuilder).

Definition AnonymousSession (b : WireMessage) : WireMessage :=
  b |> Session (SessionParamsBuilder.New |> SessionParamsBuilder.Anonymous |> SessionParamsBuilder.Build).

Definition AddPayload (payload : WirePayload) (b : WireMessage) : WireMessage :=
  b |> Payloads (wm_Payloads b ++ [payload]).

Definition AddPayloadBuilder (payloadBuilder : WirePayload) (b : WireMessage) : WireMessage :=
  b |> AddPayload (PayloadBuilder.Build payloadBuilder).

Definition Payload (payload : WirePayload) (b : WireMessage) : WireMessage :=
  b |> Payloads [payload].

Definition PayloadBuilder_ (payloadBuilder : WirePayload) (b : WireMessage) : WireMessage :=
  b |> Payload (PayloadBuilder.Build payloadBuilder).

Definition AddJsonPayload (data : string) (b : WireMessage) : WireMessage :=
  b |> AddPayload (PayloadBuilder.New |> PayloadBuilder.Json data |> PayloadBuilder.Build).
Definition AddXmlPayload (data : string) (b : WireMessage) : WireMessage :=
  b |> AddPayload (PayloadBuilder.New |> PayloadBuilder.Xml data |> PayloadBuilder.Build).
Definition AddPlainTextPayload (data : string) (b : WireMessage) : WireMessage :=
  b |> AddPayload (PayloadBuilder.New |> PayloadBuilder.PlainText data |> PayloadBuilder.Build).
Definition JsonPayload (data : string) (b : WireMessage) : WireMessage :=
  b |> Payload (PayloadBuilder.New |> PayloadBuilder.Json data |> PayloadBuilder.Build).
Definition XmlPayload (data : string) (b : WireMessage) : WireMessage :=
  b |> Payload (PayloadBuilder.New |> PayloadBuilder.Xml data |> PayloadBuilder.Build).
Definition PlainTextPayload (data : string) (b : WireMessage) : WireMessage :=
  b |> Payload (PayloadBuilder.New |> PayloadBuilder.PlainText data |> PayloadBuilder.Build).

Definition described_payload (payloadType encoding data metadata : string) : WirePayload :=
  PayloadBuilder.New |> PayloadBuilder.Type_ payloadType |> PayloadBuilder.Encoding encoding
    |> PayloadBuilder.Data data |> PayloadBuilder.Metadata metadata |> PayloadBuilder.Build.
Definition PayloadWithMetadata (payloadType encoding data metadata : string) (b : WireMessage) :
    WireMessage := b |> Payload (described_payload payloadType encoding data metadata).
Definition AddPayloadWithMetadata (payloadType encoding data metadata : string) (b : WireMessage) :
    WireMessage := b |> AddPayload (described_payload payloadType encoding data metadata).

Definition ClearPayloads (b : WireMessage) : WireMessage := b |> Payloads [].
Definition PayloadCount (b : WireMessage) : nat := length (wm_Payloads b).
Definition HasPayloads (b : WireMessage) : bool := 0 <? length (wm_Payloads b).
Definition Build (b : WireMessage) : WireMessage := b.
End TraxMessageBuilder.

(** The factory methods take the fresh builder. *)
Definition NewAnonymousMessage (b : WireMessage) : WireMessage :=
  b |> TraxMessageBuilder.AnonymousSession.
Definition NewAuthenticatedMessage (session : SessionParams) (b : WireMessage) : WireMessage :=
  b |> TraxMessageBuilder.Session session.
Definition NewJsonMessage (payload : string) (b : WireMessage) : WireMessage :=
  b |> TraxMessageBuilder.JsonPayload payload.
Definition NewAnonymousJsonMessage (payload : string) (b : WireMessage) : WireMessage :=
  b |> TraxMessageBuilder.AnonymousSession |> TraxMessageBuilder.JsonPayload payload.
Definition NewReplyMessage (originalMessage b : WireMessage) : WireMessage :=
  b |> TraxMessageBuilder.RefMessageId (wm_MessageId originalMessage)
    |> TraxMessageBuilder.TraceId (wm_TraceId originalMessage)
    |> TraxMessageBuilder.RefExecutionId (wm_ExecutionId originalMessage).
Definition NewMultiPayloadMessage (payloads : list WirePayload) (b : WireMessage) : WireMessage :=
  b |> TraxMessageBuilder.Payloads payloads.
Definition NewAnonymousMultiPayloadMessage (payloads : list WirePayload) (b : WireMessage) : WireMessage :=
  b |> TraxMessageBuilder.AnonymousSession |> TraxMessageBuilder.Payloads payloads.

(** ** Payload structures *)

Module FollowSagaSubmitterPayloadBuilder.
Definition New : FollowSagaSubmitterPayload := mkFollowSagaSubmitterPayload "".

Definition SagaSubmitterId (v : string) (b : FollowSagaSubmitterPayload) : FollowSagaSubmitterPayload :=
  mkFollowSagaSubmitterPayload v.

Definition Build (b : FollowSagaSubmitterPayload) : FollowSagaSubmitterPayload := b.
End FollowSagaSubmitterPayloadBuilder.

Module SagaSubmissionRequestPayloadBuilder.
Definition New : SagaSubmissionRequestPayload := mkSagaSubmissionRequestPayload "" "" "" "" ∅ "" "" "" 0.

Definition SagaSubmitterId (v : string) (b : SagaSubmissionRequestPayload) : SagaSubmissionRequestPayload :=
  mkSagaSubmissionRequestPayload v (sr_SagaTemplateId b) (sr_SagaInstanceId b) (sr_ZoneId b)
    (sr_SagaInput b) (sr_ParentSagaInstanceId b) (sr_ParentSagaStepInstanceId b)
    (sr_RootSagaInstanceId b) (sr_SagaDepth b).

Definition SagaTemplateId (v : string) (b : SagaSubmissionRequestPayload) : SagaSubmissionRequestPayload :=
  mkSagaSubmissionRequestPayload (sr_SagaSubmitterId b) v (sr_SagaInstanceId b) (sr_ZoneId b)
    (sr_SagaInput b) (sr_ParentSagaInstanceId b) (sr_ParentSagaStepInstanceId b)
    (sr_RootSagaInstanceId b) (sr_SagaDepth b).

Definition SagaInstanceId (v : string) (b : SagaSubmissionRequestPayload) : SagaSubmissionRequestPayload :=
  mkSagaSubmissionRequestPayload (sr_SagaSubmitterId b) (sr_SagaTemplateId b) v (sr_ZoneId b)
    (sr_SagaInput b) (sr_ParentSagaInstanceId b) (sr_ParentSagaStepInstanceId b)
    (sr_RootSagaInstanceId b) (sr_SagaDepth b).

Definition ZoneId (v : string) (b : SagaSubmissionRequestPayload) : SagaSubmissionRequestPayload :=
  mkSagaSubmissionRequestPayload (sr_SagaSubmitterId b) (sr_SagaTemplateId b)
    (sr_SagaInstanceId b) v (sr_SagaInput b) (sr_ParentSagaInstanceId b)
    (sr_ParentSagaStepInstanceId b) (sr_RootSagaInstanceId b) (sr_SagaDepth b).

Definition SagaInput (v : gmap string string) (b : SagaSubmissionRequestPayload) : SagaSubmissionRequestPayload :=
  mkSagaSubmissionRequestPayload (sr_SagaSubmitterId b) (sr_SagaTemplateId b)
    (sr_SagaInstanceId b) (sr_ZoneId b) v (sr_ParentSagaInstanceId b)
    (sr_ParentSagaStepInstanceId b) (sr_RootSagaInstanceId b) (sr_SagaDepth b).

Definition ParentSagaInstanceId (v : string) (b : SagaSubmissionRequestPayload) : SagaSubmissionRequestPayload :=
  mkSagaSubmissionRequestPayload (sr_SagaSubmitterId b) (sr_SagaTemplateId b)
    (sr_SagaInstanceId b) (sr_ZoneId b) (sr_SagaInput b) v (sr_ParentSagaStepInstanceId b)
    (sr_RootSagaInstanceId b) (sr_SagaDepth b).

Definition ParentSagaStepInstanceId (v : string) (b : SagaSubmissionRequestPayload) : SagaSubmissionRequestPayload :=
  mkSagaSubmissionRequestPayload (sr_SagaSubmitterId b) (sr_SagaTemplateId b)
    (sr_SagaInstanceId b) (sr_ZoneId b) (sr_SagaInput b) (sr_ParentSagaInstanceId b) v
    (sr_RootSagaInstanceId b) (sr_SagaDepth b).

Definition RootSagaInstanceId (v : string) (b : SagaSubmissionRequestPayload) : SagaSubmissionRequestPayload :=
  mkSagaSubmissionRequestPayload (sr_SagaSubmitterId b) (sr_SagaTemplateId b)
    (sr_SagaInstanceId b) (sr_ZoneId b) (sr_SagaInput b) (sr_ParentSagaInstanceId b)
    (sr_ParentSagaStepInstanceId b) v (sr_SagaDepth b).

Definition SagaDepth (v : Z) (b : SagaSubmissionRequestPayload) : SagaSubmissionRequestPayload :=
  mkSagaSubmissionRequestPayload (sr_SagaSubmitterId b) (sr_SagaTemplateId b)
    (sr_SagaInstanceId b) (sr_ZoneId b) (sr_SagaInput b) (sr_ParentSagaInstanceId b)
    (sr_ParentSagaStepInstanceId b) (sr_RootSagaInstanceId b) v.

Definition AddSagaInputEntry (key value : string) (b : SagaSubmissionRequestPayload) : SagaSubmissionRequestPayload :=
  b |> SagaInput (<[key := value]> (sr_SagaInput b)).

Definition Build (b : SagaSubmissionRequestPayload) : SagaSubmissionRequestPayload := b.
End SagaSubmissionRequestPayloadBuilder.

Module SagaSubmissionFailurePayloadBuilder.
Definition New : SagaSubmissionFailurePayload := mkSagaSubmissionFailurePayload "" PayloadBuilder.New [] "{}".

Definition SagaTargetSubmitterId (v : string) (b : SagaSubmissionFailurePayload) : SagaSubmissionFailurePayload :=
  mkSagaSubmissionFailurePayload v (sf_SagaSubmissionRequestPayload b) (sf_Errors b) (sf_Extra b).

Definition SagaSubmissionRequestPayload (v : WirePayload) (b : SagaSubmissionFailurePayload) : SagaSubmissionFailurePayload :=
  mkSagaSubmissionFailurePayload (sf_SagaTargetSubmitterId b) v (sf_Errors b) (sf_Extra b).

Definition Errors (v : list string) (b : SagaSubmissionFailurePayload) : SagaSubmissionFailurePayload :=
  mkSagaSubmissionFailurePayload (sf_SagaTargetSubmitterId b) (sf_SagaSubmissionRequestPayload b)
    v (sf_Extra b).

Definition Extra (v : string) (b : SagaSubmissionFailurePayload) : SagaSubmissionFailurePayload :=
  mkSagaSubmissionFailurePayload (sf_SagaTargetSubmitterId b) (sf_SagaSubmissionRequestPayload b)
    (sf_Errors b) v.

Definition Build (b : SagaSubmissionFailurePayload) : SagaSubmissionFailurePayload := b.
End SagaSubmissionFailurePayloadBuilder.

Module SagaSubmissionSuccessPayloadBuilder.
Definition New : SagaSubmissionSuccessPayload := mkSagaSubmissionSuccessPayload "" PayloadBuilder.New "{}".

Definition SagaTargetSubmitterId (v : string) (b : SagaSubmissionSuccessPayload) : SagaSubmissionSuccessPayload :=
  mkSagaSubmissionSuccessPayload v (ss_SagaSubmissionRequestPayload b) (ss_Extra b).

Definition SagaSubmissionRequestPayload (v : WirePayload) (b : SagaSubmissionSuccessPayload) : SagaSubmissionSuccessPayload :=
  mkSagaSubmissionSuccessPayload (ss_SagaTargetSubmitterId b) v (ss_Extra b).

Definition Extra (v : string) (b : SagaSubmissionSuccessPayload) : SagaSubmissionSuccessPayload :=
  mkSagaSubmissionSuccessPayload (ss_SagaTargetSubmitterId b) (ss_SagaSubmissionRequestPayload b)
    v.

Definition Build (b : SagaSubmissionSuccessPayload) : SagaSubmissionSuccessPayload := b.
End SagaSubmissionSuccessPayloadBuilder.

(** The execution request; the builder of the compensation request is the
    same line by line. *)
Module SagaStepExecutionRequestPayloadBuilder.
Definition New : SagaStepRequestPayload := mkSagaStepRequestPayload "" "" "" "" "" ∅ ∅ ∅ "" 0.

Definition SagaSubmitterId (v : string) (b : SagaStepRequestPayload) : SagaStepRequestPayload :=
  mkSagaStepRequestPayload v (rq_SagaInstanceId b) (rq_SagaStepInstanceId b) (rq_ZoneId b)
    (rq_CoordinatorAffinity b) (rq_Input b) (rq_Extra b) (rq_Metadata b) (rq_RootSagaInstanceId b)
    (rq_SagaDepth b).

Definition SagaInstanceId (v : string) (b : SagaStepRequestPayload) : SagaStepRequestPayload :=
  mkSagaStepRequestPayload (rq_SagaSubmitterId b) v (rq_SagaStepInstanceId b) (rq_ZoneId b)
    (rq_CoordinatorAffinity b) (rq_Input b) (rq_Extra b) (rq_Metadata b) (rq_RootSagaInstanceId b)
    (rq_SagaDepth b).

Definition SagaStepInstanceId (v : string) (b : SagaStepRequestPayload) : SagaStepRequestPayload :=
  mkSagaStepRequestPayload (rq_SagaSubmitterId b) (rq_SagaInstanceId b) v (rq_ZoneId b)
    (rq_CoordinatorAffinity b) (rq_Input b) (rq_Extra b) (rq_Metadata b) (rq_RootSagaInstanceId b)
    (rq_SagaDepth b).

Definition ZoneId (v : string) (b : SagaStepRequestPayload) : SagaStepRequestPayload :=
  mkSagaStepRequestPayload (rq_SagaSubmitterId b) (rq_SagaInstanceId b) (rq_SagaStepInstanceId b)
    v (rq_CoordinatorAffinity b) (rq_Input b) (rq_Extra b) (rq_Metadata b)
    (rq_RootSagaInstanceId b) (rq_SagaDepth b).

Definition CoordinatorAffinity (v : string) (b : SagaStepRequestPayload) : SagaStepRequestPayload :=
  mkSagaStepRequestPayload (rq_SagaSubmitterId b) (rq_SagaInstanceId b) (rq_SagaStepInstanceId b)
    (rq_ZoneId b) v (rq_Input b) (rq_Extra b) (rq_Metadata b) (rq_RootSagaInstanceId b)
    (rq_SagaDepth b).

Definition Input (v : gmap string string) (b : SagaStepRequestPayload) : SagaStepRequestPayload :=
  mkSagaStepRequestPayload (rq_SagaSubmitterId b) (rq_SagaInstanceId b) (rq_SagaStepInstanceId b)
    (rq_ZoneId b) (rq_CoordinatorAffinity b) v (rq_Extra b) (rq_Metadata b)
    (rq_RootSagaInstanceId b) (rq_SagaDepth b).

Definition Extra (v : gmap string string) (b : SagaStepRequestPayload) : SagaStepRequestPayload :=
  mkSagaStepRequestPayload (rq_SagaSubmitterId b) (rq_SagaInstanceId b) (rq_SagaStepInstanceId b)
    (rq_ZoneId b) (rq_CoordinatorAffinity b) (rq_Input b) v (rq_Metadata b)
    (rq_RootSagaInstanceId b) (rq_SagaDepth b).

Definition Metadata (v : gmap string string) (b : SagaStepRequestPayload) : SagaStepRequestPayload :=
  mkSagaStepRequestPayload (rq_SagaSubmitterId b) (rq_SagaInstanceId b) (rq_SagaStepInstanceId b)
    (rq_ZoneId b) (rq_CoordinatorAffinity b) (rq_Input b) (rq_Extra b) v (rq_RootSagaInstanceId b)
    (rq_SagaDepth b).

Definition RootSagaInstanceId (v : string) (b : SagaStepRequestPayload) : SagaStepRequestPayload :=
  mkSagaStepRequestPayload (rq_SagaSubmitterId b) (rq_SagaInstanceId b) (rq_SagaStepInstanceId b)
    (rq_ZoneId b) (rq_CoordinatorAffinity b) (rq_Input b) (rq_Extra b) (rq_Metadata b) v
    (rq_SagaDepth b).

Definition SagaDepth (v : Z) (b : SagaStepRequestPayload) : SagaStepRequestPayload :=
  mkSagaStepRequestPayload (rq_SagaSubmitterId b) (rq_SagaInstanceId b) (rq_SagaStepInstanceId b)
    (rq_ZoneId b) (rq_CoordinatorAffinity b) (rq_Input b) (rq_Extra b) (rq_Metadata b)
    (rq_RootSagaInstanceId b) v.

Definition AddInputEntry (key value : string) (b : SagaStepRequestPayload) : SagaStepRequestPayload :=
  b |> Input (<[key := value]> (rq_Input b)).

Definition AddExtraEntry (key value : string) (b : SagaStepRequestPayload) : SagaStepRequestPayload :=
  b |> Extra (<[key := value]> (rq_Extra b)).

Definition Build (b : SagaStepRequestPayload) : SagaStepRequestPayload := b.
End SagaStepExecutionRequestPayloadBuilder.

Module SagaStepCompensationRequestPayloadBuilder.
Include SagaStepExecutionRequestPayloadBuilder.
End SagaStepCompensationRequestPayloadBuilder.

Module SagaStepExecutionResultPayloadBuilder.
Definition New : SagaStepExecutionResultPayload := mkSagaStepExecutionResultPayload "" "" "" "" (ExecutionResultStatusEnum_Other "") ∅.

Definition SagaSubmitterId (v : string) (b : SagaStepExecutionResultPayload) : SagaStepExecutionResultPayload :=
  mkSagaStepExecutionResultPayload v (er_SagaInstanceId b) (er_SagaStepInstanceId b) (er_ZoneId b)
    (er_Status b) (er_ExecutionResult b).

Definition SagaInstanceId (v : string) (b : SagaStepExecutionResultPayload) : SagaStepExecutionResultPayload :=
  mkSagaStepExecutionResultPayload (er_SagaSubmitterId b) v (er_SagaStepInstanceId b)
    (er_ZoneId b) (er_Status b) (er_ExecutionResult b).

Definition SagaStepInstanceId (v : string) (b : SagaStepExecutionResultPayload) : SagaStepExecutionResultPayload :=
  mkSagaStepExecutionResultPayload (er_SagaSubmitterId b) (er_SagaInstanceId b) v (er_ZoneId b)
    (er_Status b) (er_ExecutionResult b).

Definition ZoneId (v : string) (b : SagaStepExecutionResultPayload) : SagaStepExecutionResultPayload :=
  mkSagaStepExecutionResultPayload (er_SagaSubmitterId b) (er_SagaInstanceId b)
    (er_SagaStepInstanceId b) v (er_Status b) (er_ExecutionResult b).

Definition Status (v : ExecutionResultStatusEnum) (b : SagaStepExecutionResultPayload) : SagaStepExecutionResultPayload :=
  mkSagaStepExecutionResultPayload (er_SagaSubmitterId b) (er_SagaInstanceId b)
    (er_SagaStepInstanceId b) (er_ZoneId b) v (er_ExecutionResult b).

Definition ExecutionResult (v : gmap string string) (b : SagaStepExecutionResultPayload) : SagaStepExecutionResultPayload :=
  mkSagaStepExecutionResultPayload (er_SagaSubmitterId b) (er_SagaInstanceId b)
    (er_SagaStepInstanceId b) (er_ZoneId b) (er_Status b) v.

Definition AddExecutionResultEntry (key value : string) (b : SagaStepExecutionResultPayload) : SagaStepExecutionResultPayload :=
  b |> ExecutionResult (<[key := value]> (er_ExecutionResult b)).

Definition Build (b : SagaStepExecutionResultPayload) : SagaStepExecutionResultPayload := b.
End SagaStepExecutionResultPayloadBuilder.
