(* ===== verification/Wire.v ===== *)
(** * Messages as bytes

    The structures of [pkg/trax/messages.go] with their JSON tags, what
    [json.Marshal] writes for them and what [json.Unmarshal] reads, and the
    message as it travels: a [WireMessage] whose payloads hold the text of
    their data.  [send] makes one from a message of Messages.v, [receive] reads
    it as the consumers do, by the type that the payload claims.  The printer
    and the parser of JSON texts are those of [encoding/json]; of them only
    their round trip on valid UTF-8 is used (class [JsonTextLaws]). *)

From S2P Require Import Prelude Model Json Messages Executor Builders.
From Stdlib Require Import Strings.Ascii.

(** ** Texts *)

(** The bytes of a string. *)
Definition bytes (s : string) : list N := Ascii.N_of_ascii <$> String.list_ascii_of_string s.

Definition between (lo hi b : N) : bool := (lo <=? b)%N && (b <=? hi)%N.

(** Valid UTF-8, as [utf8.Valid] has it: no surrogates, nothing overlong,
    nothing above U+10FFFF.  [json.Marshal] replaces other bytes. *)
Fixpoint utf8 (fuel : nat) (l : list N) : bool :=
  match fuel with
  | O => false
  | S fuel =>
      match l with
      | [] => true
      | a :: l =>
          if (a <=? 127)%N then utf8 fuel l
          else
            match l with
            | b :: l =>
                if between 194 223 a then between 128 191 b && utf8 fuel l
                else
                  match l with
                  | c :: l =>
                      if (a =? 224)%N then between 160 191 b && between 128 191 c && utf8 fuel l
                      else if (a =? 237)%N then between 128 159 b && between 128 191 c && utf8 fuel l
                      else if between 225 239 a then between 128 191 b && between 128 191 c && utf8 fuel l
                      else
                        match l with
                        | d :: l =>
                            let tail := between 128 191 c && between 128 191 d && utf8 fuel l in
                            if (a =? 240)%N then between 144 191 b && tail
                            else if (a =? 244)%N then between 128 143 b && tail
                            else between 241 243 a && between 128 191 b && tail
                        | [] => false
                        end
                  | [] => false
                  end
            | [] => false
            end
      end
  end.

Definition utf8_string (s : string) : bool := utf8 (S (String.length s)) (bytes s).

(** What the program writes: no fractions, and strings of valid UTF-8. *)
Fixpoint printable (j : Json) : bool :=
  match j with
  | JNull | JBool _ | JInt _ => true
  | JFraction _ => false
  | JString s => utf8_string s
  | JArray l => forallb printable l
  | JObject members => forallb (λ m, utf8_string m.1 && printable m.2) members
  end.

Class JsonText := {
  print : Json → string;
  parse : string → option Json;
}.

Class JsonTextLaws `{!JsonText} : Prop := {
  parse_print j : printable j = true → parse (print j) = Some j;
  print_utf8 j : printable j = true → utf8_string (print j) = true;
}.

(** ** Structures with tags *)

(** A structure that can be written and read: its fields and its zero value;
    [in_range] keeps its integers within [int64] and its enumerations within
    their names. *)
Class Codec (A : Type) := {
  fields : list (Field A);
  zero : A;
  in_range : A → Prop;
}.

Definition encode_as {A} `{!Codec A} (a : A) : Json := marshal_struct fields a.
Definition decode_as {A} `{!Codec A} : decoder A := decode_struct fields.

Class CodecLaws (A : Type) `{!Codec A} : Prop :=
  decode_encode_as (a : A) : in_range a → decode_as (encode_as a) zero = (a, true).

(** [json.Marshal] and [json.Unmarshal] into a new variable. *)
Definition Marshal `{!JsonText} {A} `{!Codec A} (a : A) : string := print (encode_as a).
Definition Unmarshal `{!JsonText} {A} `{!Codec A} (text : string) : option A :=
  match parse text with Some j => unmarshal decode_as zero j | None => None end.

(** The field of an accumulator after reading what is written for [r]. *)
Definition copy {R} (r acc : R) (f : Field R) : R :=
  if f_omit f r then acc else (f_decode f (f_marshal f r) acc).1.

(** A field is found by its name and what is written for it has its type. *)
Definition field_ok {R} (fs : list (Field R)) (r : R) (f : Field R) : Prop :=
  find_field fs (f_name f) = Some f ∧ ∀ acc, (f_decode f (f_marshal f r) acc).2 = true.

Lemma decode_members_written {R} (fs gs : list (Field R)) (r acc : R) :
  Forall (field_ok fs r) gs →
  decode_members fs (omap (λ f, if f_omit f r then None else Some (f_name f, f_marshal f r)) gs) acc =
    (foldl (copy r) acc gs, true).
Proof.
  intros Hgs. revert acc. induction Hgs as [|f gs [Hfind Hok] _ IH]; intros acc; csimpl; [done|].
  unfold copy at 2. destruct (f_omit f r); [apply IH|]. cbn [decode_members]. rewrite Hfind.
  specialize (Hok acc). destruct (f_decode f (f_marshal f r) acc) as [r' ok]. simpl in *. subst ok.
  by rewrite IH.
Qed.

Lemma decode_struct_written {R} (fs : list (Field R)) (r z : R) :
  Forall (field_ok fs r) fs → foldl (copy r) z fs = r →
  decode_struct fs (marshal_struct fs r) z = (r, true).
Proof. intros Hok Hr. simpl. by rewrite decode_members_written, Hr. Qed.

Lemma decode_struct_ok {R} (fs : list (Field R)) (r z : R) :
  Forall (field_ok fs r) fs → (decode_struct fs (marshal_struct fs r) z).2 = true.
Proof. intros Hok. simpl. by rewrite decode_members_written. Qed.

(** ** Reading and writing fields *)

Definition string_field {R} (name : string) (get : R → string) (set : string → R → R) : Field R :=
  field name get set kept JString decode_string.

(** [omitempty] *)
Definition is_empty (s : string) : bool := bool_decide (s = "").
Definition optional_string {R} (name : string) (get : R → string) (set : string → R → R) : Field R :=
  field name get set is_empty JString decode_string.
Definition optional_int {R} (name : string) (get : R → Z) (set : Z → R → R) : Field R :=
  field name get set (λ z, bool_decide (z = 0%Z)) JInt decode_int64.
Definition map_field {R} (name : string) (get : R → gmap string string)
    (set : gmap string string → R → R) : Field R :=
  field name get set kept marshal_map decode_map.
Definition optional_map {R} (name : string) (get : R → gmap string string)
    (set : gmap string string → R → R) : Field R :=
  field name get set (λ m, bool_decide (m = ∅)) marshal_map decode_map.
Definition strings_field {R} (name : string) (get : R → list string)
    (set : list string → R → R) : Field R :=
  field name get set kept (marshal_list JString) (decode_list decode_string "").

Lemma decode_map_ok m old : (decode_map (marshal_map m) old).2 = true.
Proof. unfold marshal_map. cbn -[merge_sort]. by rewrite decode_entries_written. Qed.

Lemma decode_list_ok {A} (d : decoder A) z (f : A → Json) l old :
  Forall (λ a, (d (f a) z).2 = true) l → (decode_list d z (marshal_list f l) old).2 = true.
Proof.
  unfold marshal_list. simpl. induction 1 as [|a l Ha _ IH]; csimpl; [done|].
  destruct (d (f a) z) as [v ok]. destruct (decode_elements d z (f <$> l)) as [vs oks].
  simpl in *. by subst.
Qed.

Lemma decode_int64_ok z old : in_int64 z → (decode_int64 (JInt z) old).2 = true.
Proof. intros Hz. by rewrite decode_int64_written. Qed.
(** ** The structures *)

(** The statuses by their names; any other text is itself. *)
Definition status_of_text (s : string) : ExecutionResultStatusEnum :=
  match List.find (λ st, String.eqb (status_text st) s)
    [ExecutionResultStatusEnum_Unknown; ExecutionResultStatusEnum_Success;
     ExecutionResultStatusEnum_InExecution; ExecutionResultStatusEnum_Failed;
     ExecutionResultStatusEnum_Retry; ExecutionResultStatusEnum_Error] with
  | Some st => st
  | None => ExecutionResultStatusEnum_Other s
  end.

Definition decode_status : decoder ExecutionResultStatusEnum := λ j old,
  match j with JNull => (old, true) | JString s => (status_of_text s, true) | _ => (old, false) end.

(** The fields that no method of the builder sets. *)
Definition TraxMessage_set_Type (v : string) (b : WireMessage) : WireMessage :=
  mkWireMessage v (wm_Version b) (wm_MessageId b) (wm_RefMessageId b) (wm_ExecutionId b)
    (wm_RefExecutionId b) (wm_TraceId b) (wm_ClusterId b) (wm_Timestamp b) (wm_Metadata b)
    (wm_Tags b) (wm_Origin b) (wm_OriginIdempotencyKey b) (wm_Issuer b) (wm_Submitter b)
    (wm_SubmitterAffinityGroup b) (wm_Referrer b) (wm_Session b) (wm_Payloads b).

Definition TraxMessage_set_Version (v : string) (b : WireMessage) : WireMessage :=
  mkWireMessage (wm_Type b) v (wm_MessageId b) (wm_RefMessageId b) (wm_ExecutionId b)
    (wm_RefExecutionId b) (wm_TraceId b) (wm_ClusterId b) (wm_Timestamp b) (wm_Metadata b)
    (wm_Tags b) (wm_Origin b) (wm_OriginIdempotencyKey b) (wm_Issuer b) (wm_Submitter b)
    (wm_SubmitterAffinityGroup b) (wm_Referrer b) (wm_Session b) (wm_Payloads b).

#[export] Instance SessionParams_codec : Codec SessionParams := {
  fields :=
    [ string_field "session_id" sp_SessionId SessionParamsBuilder.SessionId;
      string_field "auth_provider" sp_AuthProvider SessionParamsBuilder.AuthProvider;
      string_field "token_type" sp_TokenType SessionParamsBuilder.TokenType;
      string_field "token" sp_Token SessionParamsBuilder.Token;
      string_field "identity" sp_Identity SessionParamsBuilder.Identity ];
  zero := mkSessionParams "" "" "" "" "";
  in_range r := True;
}.

#[export] Instance WirePayload_codec : Codec WirePayload := {
  fields :=
    [ string_field "metadata" wp_Metadata PayloadBuilder.Metadata;
      string_field "type" wp_Type PayloadBuilder.Type_;
      string_field "content_type" wp_ContentType PayloadBuilder.ContentType;
      string_field "encoding" wp_Encoding PayloadBuilder.Encoding;
      string_field "data" wp_Data PayloadBuilder.Data ];
  zero := mkWirePayload "" "" "" "" "";
  in_range r := True;
}.

#[export] Instance WireMessage_codec : Codec WireMessage := {
  fields :=
    [ string_field "type" wm_Type TraxMessage_set_Type;
      string_field "version" wm_Version TraxMessage_set_Version;
      string_field "message_id" wm_MessageId TraxMessageBuilder.MessageId;
      string_field "ref_message_id" wm_RefMessageId TraxMessageBuilder.RefMessageId;
      string_field "execution_id" wm_ExecutionId TraxMessageBuilder.ExecutionId;
      string_field "ref_execution_id" wm_RefExecutionId TraxMessageBuilder.RefExecutionId;
      string_field "trace_id" wm_TraceId TraxMessageBuilder.TraceId;
      string_field "cluster_id" wm_ClusterId TraxMessageBuilder.ClusterId;
      string_field "timestamp" wm_Timestamp TraxMessageBuilder.Timestamp;
      map_field "metadata" wm_Metadata TraxMessageBuilder.Metadata;
      strings_field "tags" wm_Tags TraxMessageBuilder.Tags;
      string_field "origin" wm_Origin TraxMessageBuilder.Origin;
      string_field "origin_idempotency_key" wm_OriginIdempotencyKey TraxMessageBuilder.OriginIdempotencyKey;
      string_field "issuer" wm_Issuer TraxMessageBuilder.Issuer;
      string_field "submitter" wm_Submitter TraxMessageBuilder.Submitter;
      string_field "submitter_affinity_group" wm_SubmitterAffinityGroup TraxMessageBuilder.SubmitterAffinityGroup;
      string_field "referrer" wm_Referrer TraxMessageBuilder.Referrer;
      field "session_params" wm_Session TraxMessageBuilder.Session kept encode_as decode_as;
      field "payloads" wm_Payloads TraxMessageBuilder.Payloads kept
      (marshal_list encode_as) (decode_list decode_as zero) ];
  zero := mkWireMessage "" "" "" "" "" "" "" "" "" ∅ [] "" "" "" "" "" ""
    (mkSessionParams "" "" "" "" "") [];
  in_range r := True;
}.

#[export] Instance FollowSagaSubmitterPayload_codec : Codec FollowSagaSubmitterPayload := {
  fields :=
    [ string_field "saga_submitter_id" fs_SagaSubmitterId FollowSagaSubmitterPayloadBuilder.SagaSubmitterId ];
  zero := mkFollowSagaSubmitterPayload "";
  in_range r := True;
}.

#[export] Instance SagaSubmissionRequestPayload_codec : Codec SagaSubmissionRequestPayload := {
  fields :=
    [ string_field "saga_submitter_id" sr_SagaSubmitterId SagaSubmissionRequestPayloadBuilder.SagaSubmitterId;
      string_field "saga_template_id" sr_SagaTemplateId SagaSubmissionRequestPayloadBuilder.SagaTemplateId;
      string_field "saga_instance_id" sr_SagaInstanceId SagaSubmissionRequestPayloadBuilder.SagaInstanceId;
      string_field "zone_id" sr_ZoneId SagaSubmissionRequestPayloadBuilder.ZoneId;
      map_field "saga_input" sr_SagaInput SagaSubmissionRequestPayloadBuilder.SagaInput;
      optional_string "parent_saga_instance_id" sr_ParentSagaInstanceId SagaSubmissionRequestPayloadBuilder.ParentSagaInstanceId;
      optional_string "parent_saga_step_instance_id" sr_ParentSagaStepInstanceId SagaSubmissionRequestPayloadBuilder.ParentSagaStepInstanceId;
      optional_string "root_saga_instance_id" sr_RootSagaInstanceId SagaSubmissionRequestPayloadBuilder.RootSagaInstanceId;
      optional_int "saga_depth" sr_SagaDepth SagaSubmissionRequestPayloadBuilder.SagaDepth ];
  zero := mkSagaSubmissionRequestPayload "" "" "" "" ∅ "" "" "" 0;
  in_range r := in_int64 (sr_SagaDepth r);
}.

#[export] Instance SagaSubmissionFailurePayload_codec : Codec SagaSubmissionFailurePayload := {
  fields :=
    [ string_field "saga_target_submitter_id" sf_SagaTargetSubmitterId SagaSubmissionFailurePayloadBuilder.SagaTargetSubmitterId;
      field "saga_submission_request_payload" sf_SagaSubmissionRequestPayload SagaSubmissionFailurePayloadBuilder.SagaSubmissionRequestPayload kept encode_as decode_as;
      strings_field "errors" sf_Errors SagaSubmissionFailurePayloadBuilder.Errors;
      string_field "extra" sf_Extra SagaSubmissionFailurePayloadBuilder.Extra ];
  zero := mkSagaSubmissionFailurePayload "" (mkWirePayload "" "" "" "" "") [] "";
  in_range r := True;
}.

#[export] Instance SagaSubmissionSuccessPayload_codec : Codec SagaSubmissionSuccessPayload := {
  fields :=
    [ string_field "saga_target_submitter_id" ss_SagaTargetSubmitterId SagaSubmissionSuccessPayloadBuilder.SagaTargetSubmitterId;
      field "saga_submission_request_payload" ss_SagaSubmissionRequestPayload SagaSubmissionSuccessPayloadBuilder.SagaSubmissionRequestPayload kept encode_as decode_as;
      string_field "extra" ss_Extra SagaSubmissionSuccessPayloadBuilder.Extra ];
  zero := mkSagaSubmissionSuccessPayload "" (mkWirePayload "" "" "" "" "") "";
  in_range r := True;
}.

(** The execution request and the compensation request. *)
#[export] Instance SagaStepRequestPayload_codec : Codec SagaStepRequestPayload := {
  fields :=
    [ string_field "saga_submitter_id" rq_SagaSubmitterId SagaStepExecutionRequestPayloadBuilder.SagaSubmitterId;
      string_field "saga_instance_id" rq_SagaInstanceId SagaStepExecutionRequestPayloadBuilder.SagaInstanceId;
      string_field "saga_step_instance_id" rq_SagaStepInstanceId SagaStepExecutionRequestPayloadBuilder.SagaStepInstanceId;
      string_field "zone_id" rq_ZoneId SagaStepExecutionRequestPayloadBuilder.ZoneId;
      string_field "coordinator_affinity" rq_CoordinatorAffinity SagaStepExecutionRequestPayloadBuilder.CoordinatorAffinity;
      map_field "input" rq_Input SagaStepExecutionRequestPayloadBuilder.Input;
      map_field "extra" rq_Extra SagaStepExecutionRequestPayloadBuilder.Extra;
      optional_map "metadata" rq_Metadata SagaStepExecutionRequestPayloadBuilder.Metadata;
      optional_string "root_saga_instance_id" rq_RootSagaInstanceId SagaStepExecutionRequestPayloadBuilder.RootSagaInstanceId;
      optional_int "saga_depth" rq_SagaDepth SagaStepExecutionRequestPayloadBuilder.SagaDepth ];
  zero := mkSagaStepRequestPayload "" "" "" "" "" ∅ ∅ ∅ "" 0;
  in_range r := in_int64 (rq_SagaDepth r);
}.

#[export] Instance SagaStepExecutionResultPayload_codec : Codec SagaStepExecutionResultPayload := {
  fields :=
    [ string_field "saga_submitter_id" er_SagaSubmitterId SagaStepExecutionResultPayloadBuilder.SagaSubmitterId;
      string_field "saga_instance_id" er_SagaInstanceId SagaStepExecutionResultPayloadBuilder.SagaInstanceId;
      string_field "saga_step_instance_id" er_SagaStepInstanceId SagaStepExecutionResultPayloadBuilder.SagaStepInstanceId;
      string_field "zone_id" er_ZoneId SagaStepExecutionResultPayloadBuilder.ZoneId;
      field "status" er_Status SagaStepExecutionResultPayloadBuilder.Status kept (λ s, JString (status_text s)) decode_status;
      map_field "execution_result" er_ExecutionResult SagaStepExecutionResultPayloadBuilder.ExecutionResult ];
  zero := mkSagaStepExecutionResultPayload "" "" "" "" (ExecutionResultStatusEnum_Other "") ∅;
  in_range r := status_of_text (status_text (er_Status r)) = er_Status r;
}.

(** ** Every structure can be read back *)

Lemma decode_as_written {A} `{!Codec A} (a : A) :
  Forall (field_ok fields a) fields → foldl (copy a) zero fields = a →
  decode_as (encode_as a) zero = (a, true).
Proof. apply decode_struct_written. Qed.

Lemma decode_as_ok {A} `{!Codec A} (a old : A) :
  Forall (field_ok fields a) fields → (decode_as (encode_as a) old).2 = true.
Proof. apply decode_struct_ok. Qed.

#[local] Opaque decode_as encode_as.

#[local] Arguments marshal_map : simpl never.
#[local] Arguments decode_map : simpl never.
#[local] Arguments marshal_list : simpl never.
#[local] Arguments decode_list : simpl never.
#[local] Arguments decode_int64 : simpl never.
#[local] Arguments decode_status : simpl never.

Lemma decode_list_strings_ok l old :
  (decode_list decode_string "" (marshal_list JString l) old).2 = true.
Proof. by apply decode_list_ok, Forall_true. Qed.

Lemma decode_status_written s old :
  status_of_text (status_text s) = s → decode_status (JString (status_text s)) old = (s, true).
Proof. unfold decode_status. by intros ->. Qed.

(** [(let '(a, ok) := p in (f a, ok)).2] is [p.2]. *)
Lemma field_flag {A R} (p : A * bool) (f : A → R) : (let '(a, ok) := p in (f a, ok)).2 = p.2.
Proof. by destruct p. Qed.

(** Each field is found by its name and read without an error. *)
Ltac fields_ok :=
  repeat (apply List.Forall_cons;
    [split; [reflexivity|intros acc; simpl; rewrite ?field_flag]|]); [..|apply List.Forall_nil];
  try first [done|apply decode_map_ok|apply decode_list_strings_ok].

(** What is read is what was written, field by field. *)
Ltac fields_copied :=
  unfold copy; simpl;
  repeat first
    [ progress rewrite ?decode_marshal_map, ?decode_marshal_strings; simpl
    | rewrite decode_int64_written by done; simpl
    | rewrite decode_status_written by done; simpl
    | progress unfold is_empty
    | case_bool_decide; subst; simpl ];
  try done.

#[export] Instance SessionParams_codec_laws : CodecLaws SessionParams.
Proof. intros [] _. apply decode_as_written; [fields_ok|fields_copied]. Qed.

#[export] Instance WirePayload_codec_laws : CodecLaws WirePayload.
Proof. intros [] _. apply decode_as_written; [fields_ok|fields_copied]. Qed.

#[export] Instance FollowSagaSubmitterPayload_codec_laws : CodecLaws FollowSagaSubmitterPayload.
Proof. intros [] _. apply decode_as_written; [fields_ok|fields_copied]. Qed.

#[export] Instance SagaSubmissionRequestPayload_codec_laws : CodecLaws SagaSubmissionRequestPayload.
Proof.
  intros [] Hd. simpl in Hd. apply decode_as_written; [fields_ok|fields_copied].
  by apply decode_int64_ok.
Qed.

#[export] Instance SagaStepRequestPayload_codec_laws : CodecLaws SagaStepRequestPayload.
Proof.
  intros [] Hd. simpl in Hd. apply decode_as_written; [fields_ok|fields_copied].
  by apply decode_int64_ok.
Qed.

#[export] Instance SagaStepExecutionResultPayload_codec_laws :
  CodecLaws SagaStepExecutionResultPayload.
Proof.
  intros [] Hs. simpl in Hs. apply decode_as_written; [fields_ok|fields_copied].
  by rewrite Hs.
Qed.

(** Structures within structures. *)
Lemma decode_payload_written p :
  decode_as (encode_as p) (mkWirePayload "" "" "" "" "") = (p, true).
Proof. exact (decode_encode_as p I). Qed.

Lemma decode_session_written x : decode_as (encode_as x) (mkSessionParams "" "" "" "" "") = (x, true).
Proof. exact (decode_encode_as x I). Qed.

Lemma decode_session_ok (x old : SessionParams) : (decode_as (encode_as x) old).2 = true.
Proof. destruct x. apply decode_as_ok. fields_ok. Qed.

Lemma decode_payload_ok (p old : WirePayload) : (decode_as (encode_as p) old).2 = true.
Proof. destruct p. apply decode_as_ok. fields_ok. Qed.

Lemma decode_payloads_ok (ps old : list WirePayload) :
  (decode_list decode_as zero (marshal_list encode_as ps) old).2 = true.
Proof. apply decode_list_ok, Forall_true. intros p. apply decode_payload_ok. Qed.

Lemma decode_payloads_written (ps : list WirePayload) :
  decode_list decode_as zero (marshal_list encode_as ps) [] = (ps, true).
Proof. apply decode_marshal_list, Forall_true. intros p. by apply decode_encode_as. Qed.

#[export] Instance SagaSubmissionFailurePayload_codec_laws : CodecLaws SagaSubmissionFailurePayload.
Proof.
  intros [] _. apply decode_as_written; [fields_ok; apply decode_payload_ok|].
  fields_copied. by rewrite decode_payload_written.
Qed.

#[export] Instance SagaSubmissionSuccessPayload_codec_laws : CodecLaws SagaSubmissionSuccessPayload.
Proof.
  intros [] _. apply decode_as_written; [fields_ok; apply decode_payload_ok|].
  fields_copied. by rewrite decode_payload_written.
Qed.

(** The message has too many fields for [simpl]; one copied field at a time. *)
Section copies.
Context {R : Type}.
Implicit Types (r acc : R).

Lemma copy_field {A} name (get : R → A) set m (d : decoder A) r acc a :
  d (m (get r)) (get acc) = (a, true) → copy r acc (field name get set kept m d) = set a acc.
Proof. intros Hd. unfold copy. simpl. by rewrite Hd. Qed.

Lemma copy_string name get set r acc : copy r acc (string_field name get set) = set (get r) acc.
Proof. by apply copy_field. Qed.

Lemma copy_map name get set r acc :
  get acc = ∅ → copy r acc (map_field name get set) = set (get r) acc.
Proof. intros Ha. apply copy_field. rewrite Ha. apply decode_marshal_map. Qed.

Lemma copy_strings name get set r acc :
  get acc = [] → copy r acc (strings_field name get set) = set (get r) acc.
Proof. intros Ha. apply copy_field. rewrite Ha. apply decode_marshal_strings. Qed.

Lemma copy_struct {A} `{!Codec A} name get set r acc :
  decode_as (encode_as (get r)) (get acc) = (get r, true) →
  copy r acc (field name get set kept encode_as decode_as) = set (get r) acc.
Proof. intros Ha. by apply copy_field. Qed.
End copies.

Lemma WireMessage_copied (m : WireMessage) : foldl (copy m) zero fields = m.
Proof.
  destruct m. cbn [foldl fields WireMessage_codec].
  rewrite !copy_string. rewrite copy_map by reflexivity. rewrite copy_strings by reflexivity.
  rewrite copy_struct by apply decode_session_written.
  erewrite copy_field by apply decode_payloads_written. reflexivity.
Qed.

#[export] Instance WireMessage_codec_laws : CodecLaws WireMessage.
Proof.
  intros m _. apply decode_as_written; [|apply WireMessage_copied].
  fields_ok; first [apply decode_session_ok|apply decode_payloads_ok].
Qed.

(** ** Sending and receiving *)

Definition data_type (d : PayloadData) : string :=
  match d with
  | SagaPayloadType_FollowSagaSubmitter _ => FollowSagaSubmitterType
  | SagaPayloadType_SagaSubmissionRequest _ => SagaSubmissionRequestType
  | SagaPayloadType_SagaSubmissionFailure _ _ _ _ => SagaSubmissionFailureType
  | SagaPayloadType_SagaSubmissionSuccess _ _ _ => SagaSubmissionSuccessType
  | SagaPayloadType_SagaStepExecutionResult _ => SagaStepExecutionResultType
  | SagaPayloadType_SagaStepExecutionRequest _ => SagaStepExecutionRequestType
  | SagaPayloadType_SagaStepCompensationRequest _ => SagaStepCompensationRequestType
  | PayloadData_Other type _ => type
  end.

Section travel.
Context `{!JsonText}.

Fixpoint data_text (d : PayloadData) : string :=
  match d with
  | SagaPayloadType_FollowSagaSubmitter sid => Marshal (mkFollowSagaSubmitterPayload sid)
  | SagaPayloadType_SagaSubmissionRequest p => Marshal p
  | SagaPayloadType_SagaSubmissionFailure target request errors extra =>
      Marshal (mkSagaSubmissionFailurePayload target (wire_payload request) errors extra)
  | SagaPayloadType_SagaSubmissionSuccess target request extra =>
      Marshal (mkSagaSubmissionSuccessPayload target (wire_payload request) extra)
  | SagaPayloadType_SagaStepExecutionResult p => Marshal p
  | SagaPayloadType_SagaStepExecutionRequest p => Marshal p
  | SagaPayloadType_SagaStepCompensationRequest p => Marshal p
  | PayloadData_Other _ data => data
  end
with wire_payload (p : Payload) : WirePayload :=
  match p with
  | mkPayload metadata contentType encoding d =>
      mkWirePayload metadata (data_type d) contentType encoding (data_text d)
  end.

Definition wire_message (m : TraxMessage) : WireMessage :=
  mkWireMessage (msg_Type m) (msg_Version m) (msg_MessageId m) (msg_RefMessageId m)
    (msg_ExecutionId m) (msg_RefExecutionId m) (msg_TraceId m) (msg_ClusterId m)
    (msg_Timestamp m) (msg_Metadata m) (msg_Tags m) (msg_Origin m) (msg_OriginIdempotencyKey m)
    (msg_Issuer m) (msg_Submitter m) (msg_SubmitterAffinityGroup m) (msg_Referrer m)
    (msg_Session m) (wire_payload <$> msg_Payloads m).

(** [msg.Json()] *)
Definition send (m : TraxMessage) : string := Marshal (wire_message m).

(** Data as its consumers read it: by the type, and no further when it does
    not decode.  The answers to a submission are only logged. *)
Definition read_data (type text : string) : PayloadData :=
  let as_ {A} `{!Codec A} (f : A → PayloadData) :=
    match Unmarshal text with Some p => f p | None => PayloadData_Other type text end in
  if bool_decide (type = FollowSagaSubmitterType) then
    as_ (λ p, SagaPayloadType_FollowSagaSubmitter (fs_SagaSubmitterId p))
  else if bool_decide (type = SagaSubmissionRequestType) then
    as_ SagaPayloadType_SagaSubmissionRequest
  else if bool_decide (type = SagaStepExecutionResultType) then
    as_ SagaPayloadType_SagaStepExecutionResult
  else if bool_decide (type = SagaStepExecutionRequestType) then
    as_ SagaPayloadType_SagaStepExecutionRequest
  else if bool_decide (type = SagaStepCompensationRequestType) then
    as_ SagaPayloadType_SagaStepCompensationRequest
  else PayloadData_Other type text.

Definition read_payload (p : WirePayload) : Payload :=
  mkPayload (wp_Metadata p) (wp_ContentType p) (wp_Encoding p) (read_data (wp_Type p) (wp_Data p)).

Definition read_message (m : WireMessage) : TraxMessage :=
  mkTraxMessage (wm_Type m) (wm_Version m) (wm_MessageId m) (wm_RefMessageId m)
    (wm_ExecutionId m) (wm_RefExecutionId m) (wm_TraceId m) (wm_ClusterId m)
    (wm_Timestamp m) (wm_Metadata m) (wm_Tags m) (wm_Origin m) (wm_OriginIdempotencyKey m)
    (wm_Issuer m) (wm_Submitter m) (wm_SubmitterAffinityGroup m) (wm_Referrer m)
    (wm_Session m) (read_payload <$> wm_Payloads m).

Definition receive (text : string) : option TraxMessage := read_message <$> Unmarshal text.
End travel.

(** ** What arrives is what was sent *)

(** Data that a consumer decodes, in range and of clean strings. *)
Definition clean_data (d : PayloadData) : Prop :=
  match d with
  | SagaPayloadType_FollowSagaSubmitter sid =>
      printable (encode_as (mkFollowSagaSubmitterPayload sid)) = true
  | SagaPayloadType_SagaSubmissionRequest p => in_range p ∧ printable (encode_as p) = true
  | SagaPayloadType_SagaStepExecutionResult p => in_range p ∧ printable (encode_as p) = true
  | SagaPayloadType_SagaStepExecutionRequest p => in_range p ∧ printable (encode_as p) = true
  | SagaPayloadType_SagaStepCompensationRequest p => in_range p ∧ printable (encode_as p) = true
  | SagaPayloadType_SagaSubmissionFailure _ _ _ _ | SagaPayloadType_SagaSubmissionSuccess _ _ _ => False
  | PayloadData_Other type text =>
      utf8_string type = true ∧ utf8_string text = true ∧
      type ∉ [FollowSagaSubmitterType; SagaSubmissionRequestType; SagaStepExecutionResultType;
              SagaStepExecutionRequestType; SagaStepCompensationRequestType]
  end.

Definition clean_payload (p : Payload) : Prop :=
  utf8_string (pl_Metadata p) = true ∧ utf8_string (pl_ContentType p) = true ∧
  utf8_string (pl_Encoding p) = true ∧ clean_data (pl_Data p).

(** The message without its payloads. *)
Definition envelope (m : TraxMessage) : WireMessage :=
  mkWireMessage (msg_Type m) (msg_Version m) (msg_MessageId m) (msg_RefMessageId m)
    (msg_ExecutionId m) (msg_RefExecutionId m) (msg_TraceId m) (msg_ClusterId m)
    (msg_Timestamp m) (msg_Metadata m) (msg_Tags m) (msg_Origin m) (msg_OriginIdempotencyKey m)
    (msg_Issuer m) (msg_Submitter m) (msg_SubmitterAffinityGroup m) (msg_Referrer m)
    (msg_Session m) [].

Definition clean (m : TraxMessage) : Prop :=
  printable (encode_as (envelope m)) = true ∧ Forall clean_payload (msg_Payloads m).
