(* ===== verification/Submitter.v ===== *)
(** * The submitter of sagas

    [pkg/trax/submitter.go]: a submitter announces itself to the coordinator
    over HTTP, starts a consumer for every inbox it is told of, and publishes
    the requests for sagas.  The answers to its announcements, whether a
    message is taken and when its context is done are up to the environment. *)

From S2P Require Import Prelude GoMonad Model Random Json Messages World.

Local Open Scope go_scope.

(** ** What the coordinator answers *)

Record SubmitterNodeNames := mkSubmitterNodeNames { nn_Inbox : string; nn_Outbox : string }.

#[export] Instance SubmitterNodeNames_eq_dec : EqDecision SubmitterNodeNames.
Proof. solve_decision. Defined.

(** A nil pointer in the map is [None]. *)
Record PostAnnounceSagaSubmitterResponse := mkPostAnnounceSagaSubmitterResponse {
  ar_ClusterIds : list string;
  ar_NodeNamesPerClusterMap : gmap string (option SubmitterNodeNames);
}.

(** The fields have no tags: their names are those of the structure. *)
Definition SubmitterNodeNames_fields : list (Field SubmitterNodeNames) :=
  [ field "Inbox" nn_Inbox (λ v n, mkSubmitterNodeNames v (nn_Outbox n)) kept JString decode_string;
    field "Outbox" nn_Outbox (λ v n, mkSubmitterNodeNames (nn_Inbox n) v) kept JString decode_string ].

Definition decode_node_names : decoder (option SubmitterNodeNames) := λ j old,
  match j with
  | JNull => (None, true)
  | _ =>
      let '(n, ok) := decode_struct SubmitterNodeNames_fields j (mkSubmitterNodeNames "" "") in
      (Some n, ok)
  end.

Fixpoint decode_node_map (members : list (string * Json))
    (old : gmap string (option SubmitterNodeNames)) :
    gmap string (option SubmitterNodeNames) * bool :=
  match members with
  | [] => (old, true)
  | (k, j) :: members =>
      let '(n, ok) := decode_node_names j None in
      let '(m, ok') := decode_node_map members (<[k := n]> old) in (m, ok && ok')
  end.

Definition decode_node_names_map : decoder (gmap string (option SubmitterNodeNames)) := λ j old,
  match j with
  | JNull => (∅, true)
  | JObject members => decode_node_map members old
  | _ => (old, false)
  end.

(** Only reading is of interest here. *)
Definition PostAnnounceSagaSubmitterResponse_fields :
    list (Field PostAnnounceSagaSubmitterResponse) :=
  [ field "cluster_ids" ar_ClusterIds
      (λ v r, mkPostAnnounceSagaSubmitterResponse v (ar_NodeNamesPerClusterMap r)) kept
      (marshal_list JString) (decode_list decode_string "");
    field "node_names_per_cluster" ar_NodeNamesPerClusterMap
      (λ v r, mkPostAnnounceSagaSubmitterResponse (ar_ClusterIds r) v) kept
      (λ _, JNull) decode_node_names_map ].

(** The answer to an announcement: no answer, or a status with a body, which
    is a JSON value or something else. *)
Inductive AnnounceAnswer :=
  | AnnounceError
  | AnnounceStatus (code : Z) (body : option Json).

(** ** The submitter *)

Record Submitter := mkSubmitter {
  sb_id : string;
  sb_clusterIds : list string;
  sb_nodeNames : gmap string SubmitterNodeNames;
  sb_ready : bool;
  sb_traxCtrlURL : string;
  sb_consumersStarted : gset string;
}.

Definition NewDefaultSagaSubmitter (id : string) : Submitter := mkSubmitter id [] ∅ false "" ∅.

(** Besides the submitter: the nodes consumers were started on, the messages
    published, the pauses made between announcements (in nanoseconds), the
    number of announcements, and the questions asked of the environment. *)
Record SubmitterWorld := mkSubmitterWorld {
  sw_submitter : Submitter;
  sw_consumers : list string;
  sw_published : list Published;
  sw_pauses : list Z;
  sw_announced : nat;
  sw_tick : nat;
}.

Record SubmitterEnv := mkSubmitterEnv {
  se_env : Env;
  se_announce : nat → AnnounceAnswer;
}.

Definition IsReadyToAcceptSagaSubmissionRequests (s : Submitter) : bool := sb_ready s.
Definition IsReadyWithClusters (s : Submitter) : bool :=
  sb_ready s && negb (bool_decide (sb_clusterIds s = [])).
Definition GetDefaultClusterId (s : Submitter) : string :=
  match sb_clusterIds s with cid :: _ => cid | [] => "" end.
Definition GetClusterIds (s : Submitter) : list string := sb_clusterIds s.

Definition set_sb_ready (b : bool) (s : Submitter) : Submitter :=
  mkSubmitter (sb_id s) (sb_clusterIds s) (sb_nodeNames s) b (sb_traxCtrlURL s)
    (sb_consumersStarted s).
Definition SetTraxCtrlURL (url : string) (s : Submitter) : Submitter :=
  mkSubmitter (sb_id s) (sb_clusterIds s) (sb_nodeNames s) (sb_ready s) url
    (sb_consumersStarted s).
(** The consumers are left alone: they stay subscribed. *)
Definition ResetForTesting (s : Submitter) : Submitter :=
  mkSubmitter (sb_id s) [] ∅ false (sb_traxCtrlURL s) (sb_consumersStarted s).

(** The clusters are only taken over when the submitter was not ready. *)
Definition become_ready (clusterIds : list string) (s : Submitter) : Submitter :=
  if sb_ready s then s
  else mkSubmitter (sb_id s) clusterIds (sb_nodeNames s) true (sb_traxCtrlURL s)
         (sb_consumersStarted s).

Definition add_nodes (cid : string) (n : SubmitterNodeNames) (s : Submitter) : Submitter :=
  mkSubmitter (sb_id s) (sb_clusterIds s) (<[cid := n]> (sb_nodeNames s)) (sb_ready s)
    (sb_traxCtrlURL s) ({[nn_Inbox n]} ∪ sb_consumersStarted s).

Section submitter.
Context (env : SubmitterEnv).
#[local] Notation Go := (M SubmitterWorld).

Definition submitter_tick : Go nat := λ w,
  (Ret (sw_tick w), mkSubmitterWorld (sw_submitter w) (sw_consumers w) (sw_published w)
    (sw_pauses w) (sw_announced w) (S (sw_tick w))).

Definition with_submitter (f : Submitter → Submitter) : Go unit :=
  modify (λ w, mkSubmitterWorld (f (sw_submitter w)) (sw_consumers w) (sw_published w)
    (sw_pauses w) (sw_announced w) (sw_tick w)).

Definition start_consumer (node : string) : Go unit :=
  modify (λ w, mkSubmitterWorld (sw_submitter w) (sw_consumers w ++ [node]) (sw_published w)
    (sw_pauses w) (sw_announced w) (sw_tick w)).

Definition pause (ns : Z) : Go unit :=
  modify (λ w, mkSubmitterWorld (sw_submitter w) (sw_consumers w) (sw_published w)
    (sw_pauses w ++ [ns]) (sw_announced w) (sw_tick w)).

Definition submitter_ctx_done : Go bool := n <- submitter_tick ;; ret (env_ctx_done (se_env env) n).

Definition announceToCoordinator : Go AnnounceAnswer :=
  n <- submitter_tick ;;
  modify (λ w, mkSubmitterWorld (sw_submitter w) (sw_consumers w) (sw_published w)
    (sw_pauses w) (S (sw_announced w)) (sw_tick w)) ;;;
  ret (se_announce env n).

(** The loop over the clusters of an answer.  A cluster without node names is
    a nil pointer that is dereferenced. *)
Fixpoint startConsumers (names : gmap string (option SubmitterNodeNames)) (clusterIds : list string) :
    Go unit :=
  match clusterIds with
  | [] => ret tt
  | clusterId :: clusterIds =>
      match names !! clusterId with
      | Some (Some n) =>
          w <- get_state ;;
          with_submitter (add_nodes clusterId n) ;;;
          (if decide (nn_Inbox n ∈ sb_consumersStarted (sw_submitter w)) then ret tt
           else start_consumer (nn_Inbox n)) ;;;
          startConsumers names clusterIds
      | _ => panic "invalid memory address or nil pointer dereference"
      end
  end.

Definition processAnnouncementResponse (body : option Json) : Go unit :=
  match body with
  | None => ret tt
  | Some j =>
      match unmarshal (decode_struct PostAnnounceSagaSubmitterResponse_fields)
              (mkPostAnnounceSagaSubmitterResponse [] ∅) j with
      | None => ret tt
      | Some respBody =>
          with_submitter (become_ready (ar_ClusterIds respBody)) ;;;
          startConsumers (ar_NodeNamesPerClusterMap respBody) (ar_ClusterIds respBody)
      end
  end.

Definition announcementBackoffInitial : Z := 1000000000.
Definition announcementBackoffMaxRetries : nat := 5.

(** [time.Duration(float64(backoff) * 2.0)], capped; the durations are far
    below the point at which a [float64] is not exact. *)
Definition next_backoff (interval backoff : Z) : Z := Z.min (backoff * 2) interval.

Definition accepted (a : AnnounceAnswer) : option (option Json) :=
  match a with
  | AnnounceStatus code body => if (code =? 200)%Z then Some body else None
  | AnnounceError => None
  end.

(** [false]: the context is done, and so is the announcement. *)
Fixpoint fastRetry (interval : Z) (retries : nat) (backoff : Z) : Go bool :=
  match retries with
  | O => ret true
  | S retries =>
      stop <- submitter_ctx_done ;;
      if stop : bool then ret false
      else
        pause backoff ;;;
        answer <- announceToCoordinator ;;
        match accepted answer with
        | Some body => processAnnouncementResponse body ;;; ret true
        | None => fastRetry interval retries (next_backoff interval backoff)
        end
  end.

(** One turn of the loop of [StartAnnouncement], with the sleep at its end. *)
Definition announceRound (interval : Z) : Go bool :=
  answer <- announceToCoordinator ;;
  go_on <- match accepted answer with
           | Some body => processAnnouncementResponse body ;;; ret true
           | None =>
               with_submitter (set_sb_ready false) ;;;
               fastRetry interval announcementBackoffMaxRetries announcementBackoffInitial
           end ;;
  (if go_on : bool then pause interval else ret tt) ;;;
  ret go_on.

Fixpoint StartAnnouncement (fuel : nat) (interval : Z) : Go unit :=
  match fuel with
  | O => hang
  | S fuel =>
      go_on <- announceRound interval ;;
      if go_on : bool then StartAnnouncement fuel interval else ret tt
  end.

(** ** Submission *)

Definition submitter_rand : Go string :=
  n <- submitter_tick ;; ret (random_string (env_rand (se_env env) n) 32).

Definition submitter_now : Go Z := n <- submitter_tick ;; ret (env_now (se_env env) n).

Definition PublishToNode (node : string) (msg : TraxMessage) : Go (result unit) :=
  let taken := modify (λ w, mkSubmitterWorld (sw_submitter w) (sw_consumers w)
    (sw_published w ++ [PubNode node msg]) (sw_pauses w) (sw_announced w) (sw_tick w)) in
  n <- submitter_tick ;;
  match env_mq (se_env env) n with
  | MqSent => taken ;;; ret (Ok tt)
  | MqNotSent => ret (Err (Errorf "failed to publish"))
  | MqSentWithError => taken ;;; ret (Err (Errorf "failed to publish"))
  end.

(** The arguments of [SubmitSaga]. *)
Record SagaArgs := mkSagaArgs {
  sa_participantId : string;
  sa_traceId : string;
  sa_zoneId : string;
  sa_origin : string;
  sa_originIdempotencyKey : string;
  sa_issuer : string;
  sa_referrer : string;
  sa_tags : list string;
  sa_metadata : gmap string string;
  sa_sagaTemplateId : string;
  sa_sagaInput : gmap string string;
}.

(** The further arguments of [SubmitSubSaga]. *)
Record ParentArgs := mkParentArgs {
  pa_parentSagaInstanceId : string;
  pa_parentSagaStepInstanceId : string;
  pa_rootSagaInstanceId : string;
  pa_sagaDepth : Z;
}.

Definition no_parent : ParentArgs := mkParentArgs "" "" "" 0.

Definition submission_payload (id sagaInstanceId : string) (a : SagaArgs) (p : ParentArgs) :
    SagaSubmissionRequestPayload :=
  mkSagaSubmissionRequestPayload id (sa_sagaTemplateId a) sagaInstanceId (sa_zoneId a)
    (sa_sagaInput a) (pa_parentSagaInstanceId p) (pa_parentSagaStepInstanceId p)
    (pa_rootSagaInstanceId p) (pa_sagaDepth p).

(** The message; an empty [originIdempotencyKey] is not set, which leaves it
    empty. *)
Definition submission_message (id sagaInstanceId messageId executionId : string) (timestamp : Z)
    (a : SagaArgs) (p : ParentArgs) : TraxMessage :=
  mkTraxMessage "trax.TraxMessage" "v1.0.0" messageId "" executionId "" (sa_traceId a)
    (sa_participantId a) (FormatInt timestamp) (sa_metadata a) (sa_tags a) (sa_origin a)
    (sa_originIdempotencyKey a) (sa_issuer a) id "" (sa_referrer a) Anonymous
    [json_payload (SagaPayloadType_SagaSubmissionRequest (submission_payload id sagaInstanceId a p))].

(** [SubmitSaga] and [SubmitSubSaga] differ in the parent and in a text. *)
Definition submit (failure : string) (a : SagaArgs) (p : ParentArgs) : Go (result string) :=
  w <- get_state ;;
  let s := sw_submitter w in
  match sb_nodeNames s !! sa_participantId a with
  | None => ret (Err (Errorf ("cluster id not found: " +:+ sa_participantId a)))
  | Some n =>
      sagaInstanceId <- submitter_rand ;;
      messageId <- submitter_rand ;;
      traceId <- submitter_rand ;;
      executionId <- submitter_rand ;;
      timestamp <- submitter_now ;;
      _ <-? PublishToNode (nn_Outbox n)
              (submission_message (sb_id s) sagaInstanceId messageId executionId timestamp a p)
      else _ => ret (Err (Errorf (failure +:+ nn_Outbox n))) ;;
      ret (Ok sagaInstanceId)
  end.

Definition SubmitSaga (a : SagaArgs) : Go (result string) :=
  submit "failed to publish saga submission request to node " a no_parent.

Definition SubmitSubSaga (a : SagaArgs) (p : ParentArgs) : Go (result string) :=
  submit "failed to publish sub-saga submission request to node " a p.
End submitter.

(** [WaitUntilReadyToAcceptSagaSubmissionRequests]: each turn says whether the
    context is done and what the submitter is like by then. *)
Fixpoint WaitUntilReady (turns : nat → bool * Submitter) (fuel i : nat) : option (result unit) :=
  match fuel with
  | O => None
  | S fuel =>
      if (turns i).1 then Some (Err (Errorf "context done"))
      else if IsReadyWithClusters (turns i).2 then Some (Ok tt)
      else WaitUntilReady turns fuel (S i)
  end.

(** ** What a submitter keeps to

    Whatever it is answered, a submitter consumes each of its inboxes once and
    knows the nodes of every cluster it says it has; its announcements are
    bounded in number and pauses, and the loop that makes them does not end by
    itself. *)

Local Open Scope go_scope.

(** ** The invariant *)

Record consumes_once (w : SubmitterWorld) : Prop := {
  co_nodup : NoDup (sw_consumers w);
  co_started n : n ∈ sw_consumers w ↔ n ∈ sb_consumersStarted (sw_submitter w);
  co_inboxes cid n : sb_nodeNames (sw_submitter w) !! cid = Some n →
    nn_Inbox n ∈ sw_consumers w;
}.

Definition knows_clusters (s : Submitter) : Prop :=
  sb_ready s = true → ∀ cid, cid ∈ sb_clusterIds s → is_Some (sb_nodeNames s !! cid).

Definition submitter_ok (w : SubmitterWorld) : Prop :=
  consumes_once w ∧ knows_clusters (sw_submitter w).

(** [m] keeps [I] if it returns; a panic ends the process. *)
Definition upholds {A} (I : SubmitterWorld → Prop) (m : M SubmitterWorld A) : Prop :=
  ∀ w, I w → wp m (λ o w', match o with Ret _ => I w' | _ => True end) w.

Lemma upholds_ret {A} I (a : A) : upholds I (ret a).
Proof. by intros w Hw. Qed.

Lemma upholds_bind {A B} I (m : M SubmitterWorld A) (k : A → M SubmitterWorld B) :
  upholds I m → (∀ a, upholds I (k a)) → upholds I (bind m k).
Proof.
  intros Hm Hk w Hw. apply wp_bind. eapply wp_mono; [|by apply Hm].
  intros [a|msg|] w' Hw'; [by apply Hk|done|done].
Qed.

Lemma wp_run {A} (m k : M SubmitterWorld A) Q w w1 : m w = k w1 → wp k Q w1 → wp m Q w.
Proof. unfold wp. by intros ->. Qed.

(** What a submitter does without touching its nodes. *)
Definition same_nodes (w w' : SubmitterWorld) : Prop :=
  sw_submitter w' = sw_submitter w ∧ sw_consumers w' = sw_consumers w.

Lemma same_nodes_ok w w' : same_nodes w w' → submitter_ok w → submitter_ok w'.
Proof. intros [Hs Hc] [[Hn Hst Hi] Hk]. split; [split|]; rewrite ?Hs, ?Hc; done. Qed.

Definition quiet {A} (m : M SubmitterWorld A) : Prop :=
  ∀ w, same_nodes w (m w).2.

Lemma quiet_upholds {A} (m : M SubmitterWorld A) : quiet m → upholds submitter_ok m.
Proof.
  intros Hm w Hw. unfold wp. specialize (Hm w). destruct (m w) as [[a|msg|] w']; simpl in *; [|done..].
  by eapply same_nodes_ok.
Qed.

Lemma quiet_bind {A B} (m : M SubmitterWorld A) (k : A → M SubmitterWorld B) :
  quiet m → (∀ a, quiet (k a)) → quiet (bind m k).
Proof.
  intros Hm Hk w. unfold bind. specialize (Hm w). destruct (m w) as [[a|msg|] w1]; simpl in *; [|done..].
  specialize (Hk a w1). destruct Hm, Hk. split; congruence.
Qed.

Lemma consumes_once_add cid n w :
  consumes_once w →
  consumes_once (mkSubmitterWorld (add_nodes cid n (sw_submitter w))
    (if decide (nn_Inbox n ∈ sb_consumersStarted (sw_submitter w)) then sw_consumers w
     else sw_consumers w ++ [nn_Inbox n])
    (sw_published w) (sw_pauses w) (sw_announced w) (sw_tick w)).
Proof.
  intros [Hn Hst Hi].
  assert (Hin : ∀ x, x ∈ (if decide (nn_Inbox n ∈ sb_consumersStarted (sw_submitter w))
    then sw_consumers w else sw_consumers w ++ [nn_Inbox n]) ↔ x ∈ sw_consumers w ∨ x = nn_Inbox n).
  { intros x. case_decide as Hd; [|set_solver]. apply Hst in Hd. set_solver. }
  split; simpl.
  - case_decide as Hd; [done|]. rewrite <-Hst in Hd. apply NoDup_app.
    split; [done|]. split; [set_solver|apply NoDup_singleton].
  - intros x. rewrite Hin, elem_of_union, elem_of_singleton, Hst. tauto.
  - intros c m Hm. apply Hin. apply lookup_insert_Some in Hm as [[_ ->]|[_ Hm]]; [by right|].
    left. by eapply Hi.
Qed.

Section specs.
Context (env : SubmitterEnv).

(** The loop adds the nodes of every cluster it is given, and takes none
    away. *)
Lemma startConsumers_spec names cids w :
  consumes_once w →
  wp (startConsumers names cids) (λ o w', match o with
    | Ret _ => consumes_once w' ∧
        sb_clusterIds (sw_submitter w') = sb_clusterIds (sw_submitter w) ∧
        sb_ready (sw_submitter w') = sb_ready (sw_submitter w) ∧
        (∀ cid, is_Some (sb_nodeNames (sw_submitter w) !! cid) ∨ cid ∈ cids →
           is_Some (sb_nodeNames (sw_submitter w') !! cid))
    | _ => True end) w.
Proof.
  revert w. induction cids as [|cid cids IH]; intros w Hw; cbn [startConsumers].
  { apply wp_ret. split_and!; [done..|]. intros c [?|Hc]; [done|by apply elem_of_nil in Hc]. }
  destruct (names !! cid) as [[n|]|]; [|done..].
  pose proof (consumes_once_add cid n w Hw) as Hadd.
  match type of Hadd with consumes_once ?w1 =>
    assert (Hrun : ∀ k : M SubmitterWorld unit,
      (w0 <- get_state ;; with_submitter (add_nodes cid n) ;;;
       (if decide (nn_Inbox n ∈ sb_consumersStarted (sw_submitter w0)) then ret tt
        else start_consumer (nn_Inbox n)) ;;; k) w = k w1) end.
  { intros k. unfold bind, get_state, with_submitter, modify. simpl. by case_decide. }
  eapply wp_run; [apply Hrun|]. specialize (IH _ Hadd). revert IH. apply wp_mono.
  intros [[]|msg|] w2; [|done..]. simpl. intros (Hc & Hcl & Hr & Hall). split_and!; [done..|].
  intros c Hor. apply Hall. rewrite lookup_insert_is_Some.
  destruct Hor as [Hs|[->|Hc']%elem_of_cons]; [|by left; left|by right].
  left. destruct (decide (cid = c)); [by left|by right].
Qed.

Lemma processAnnouncementResponse_ok body : upholds submitter_ok (processAnnouncementResponse body).
Proof.
  unfold processAnnouncementResponse. destruct body as [j|]; [|apply upholds_ret].
  destruct (unmarshal _ _ j) as [resp|]; [|apply upholds_ret].
  intros w [Hc Hk].
  set (w1 := mkSubmitterWorld (become_ready (ar_ClusterIds resp) (sw_submitter w)) (sw_consumers w)
    (sw_published w) (sw_pauses w) (sw_announced w) (sw_tick w)).
  apply (wp_run _ (startConsumers (ar_NodeNamesPerClusterMap resp) (ar_ClusterIds resp)) _ _ w1);
    [done|].
  assert (Hw1 : consumes_once w1).
  { destruct Hc as [Hn Hst Hi]. split; simpl; [done|..].
    - intros n. rewrite Hst. unfold become_ready. by destruct (sb_ready _).
    - intros cid n. unfold become_ready. destruct (sb_ready _); apply Hi. }
  eapply wp_mono; [|apply (startConsumers_spec _ _ w1 Hw1)].
  intros [[]|msg|] w2; [|done..]. intros (Hc2 & Hcl & _ & Hall). split; [done|].
  intros _ cid Hcid. apply Hall. rewrite Hcl in Hcid. simpl in *.
  unfold become_ready in *. destruct (sb_ready (sw_submitter w)) eqn:Hr; simpl in *; [|by right].
  left. by apply Hk.
Qed.

Lemma submitter_tick_quiet : quiet submitter_tick.
Proof. by intros w. Qed.

Lemma pause_quiet ns : quiet (pause ns).
Proof. by intros w. Qed.

Lemma announceToCoordinator_quiet : quiet (announceToCoordinator env).
Proof. by intros w. Qed.

Lemma fastRetry_ok interval retries backoff :
  upholds submitter_ok (fastRetry env interval retries backoff).
Proof.
  revert backoff. induction retries as [|retries IH]; intros backoff; cbn [fastRetry];
    [apply upholds_ret|].
  apply upholds_bind; [by apply quiet_upholds; intros w|]. intros [|]; [apply upholds_ret|].
  apply upholds_bind; [apply quiet_upholds, pause_quiet|]. intros _.
  apply upholds_bind; [apply quiet_upholds, announceToCoordinator_quiet|]. intros answer.
  destruct (accepted answer); [|apply IH].
  apply upholds_bind; [apply processAnnouncementResponse_ok|intros; apply upholds_ret].
Qed.

Lemma announceRound_ok interval : upholds submitter_ok (announceRound env interval).
Proof.
  unfold announceRound. apply upholds_bind; [apply quiet_upholds, announceToCoordinator_quiet|].
  intros answer. apply upholds_bind.
  - destruct (accepted answer).
    + apply upholds_bind; [apply processAnnouncementResponse_ok|intros; apply upholds_ret].
    + apply upholds_bind; [|intros; apply fastRetry_ok].
      intros w [[Hn Hst Hi] Hk]. split; [split|]; done.
  - intros [|]; (apply upholds_bind; [|intros; apply upholds_ret]);
      [apply quiet_upholds, pause_quiet|apply upholds_ret].
Qed.

Lemma submit_quiet failure a p : quiet (submit env failure a p).
Proof.
  unfold submit. apply quiet_bind; [by intros w|]. intros w0. destruct (_ !! _); [|by intros w].
  repeat (apply quiet_bind; [by intros w|intros ?]).
  apply quiet_bind; [|by intros []; intros w].
  intros w. unfold PublishToNode, bind, submitter_tick, modify, ret. simpl.
  by destruct (env_mq _ _).
Qed.
End specs.

(** ** The life of a submitter *)

Inductive submitter_step : SubmitterWorld → SubmitterWorld → Prop :=
  | step_announce env interval go_on w w' :
      announceRound env interval w = (Ret go_on, w') → submitter_step w w'
  | step_submit env failure a p r w w' :
      submit env failure a p w = (Ret r, w') → submitter_step w w'
  | step_reset w :
      submitter_step w (with_submitter ResetForTesting w).2
  | step_url url w :
      submitter_step w (with_submitter (SetTraxCtrlURL url) w).2.

Definition new_submitter (id : string) : SubmitterWorld :=
  mkSubmitterWorld (NewDefaultSagaSubmitter id) [] [] [] 0 0.

Definition submitter_reachable (id : string) (w : SubmitterWorld) : Prop :=
  rtc submitter_step (new_submitter id) w.

Lemma submitter_step_ok w w' : submitter_step w w' → submitter_ok w → submitter_ok w'.
Proof.
  destruct 1 as [env interval go_on w w' Hrun|env failure a p r w w' Hrun|w|url w]; intros Hw.
  - pose proof (announceRound_ok env interval w Hw) as Hr. unfold wp in Hr. by rewrite Hrun in Hr.
  - pose proof (submit_quiet env failure a p w) as Hq. rewrite Hrun in Hq. by eapply same_nodes_ok.
  - destruct Hw as [[Hn Hst Hi] Hk]. split; [split|]; simpl; done.
  - destruct Hw as [[Hn Hst Hi] Hk]. split; [split|]; simpl; done.
Qed.

Lemma submitter_reachable_ok id w : submitter_reachable id w → submitter_ok w.
Proof.
  assert (Hinv : ∀ w1 w2, rtc submitter_step w1 w2 → submitter_ok w1 → submitter_ok w2)
    by (induction 1; eauto using submitter_step_ok).
  intros Hr. apply (Hinv _ _ Hr). split; [split|done]; simpl; [constructor|set_solver|done].
Qed.

(** ** Submission *)

Definition fresh (env : SubmitterEnv) (n : nat) : string := random_string (env_rand (se_env env) n) 32.

(** A submission is one message to the outbox of its cluster, with a new
    random identifier for the saga, which is the answer; for a cluster that is
    not known nothing is sent; and when the broker reports a failure, the
    message may have been taken all the same. *)
Theorem submission_sends_one_message env failure a p w :
  let s := sw_submitter w in
  let t := sw_tick w in
  match sb_nodeNames s !! sa_participantId a with
  | None => submit env failure a p w =
      (Ret (Err (Errorf ("cluster id not found: " +:+ sa_participantId a))), w)
  | Some n =>
      let msg := submission_message (sb_id s) (fresh env t) (fresh env (1 + t)) (fresh env (3 + t))
        (env_now (se_env env) (4 + t)) a p in
      ∃ r w', submit env failure a p w = (Ret r, w') ∧ sw_submitter w' = s ∧
        (r = Ok (fresh env t) ∧ sw_published w' = sw_published w ++ [PubNode (nn_Outbox n) msg] ∨
         r = Err (Errorf (failure +:+ nn_Outbox n)) ∧
         (sw_published w' = sw_published w ∨
          sw_published w' = sw_published w ++ [PubNode (nn_Outbox n) msg]))
  end.
Proof.
  simpl. destruct (_ !! _) as [n|] eqn:Hn.
  - unfold submit, bind, get_state, ret. rewrite Hn.
    unfold submitter_rand, submitter_now, PublishToNode, or_else, submitter_tick, bind, modify, ret.
    simpl. destruct (env_mq (se_env env) (5 + sw_tick w)) eqn:Hmq; simpl in Hmq; rewrite Hmq; simpl;
      eexists _, _; (split; [reflexivity|]); (split; [reflexivity|]); simpl; auto.
  - unfold submit, bind, get_state, ret. by rewrite Hn.
Qed.

(** C18: whatever a submitter is answered, and however often it is reset: it
    never starts two consumers on one inbox; it has one on the inbox of every
    cluster whose nodes it knows; and while it says it is ready, every cluster
    it names has its nodes, so that a saga for it is published to its outbox
    as soon as the broker takes the message. *)
Theorem submitter_consumes_once id w :
  submitter_reachable id w →
  let s := sw_submitter w in
  NoDup (sw_consumers w) ∧
  (∀ cid n, sb_nodeNames s !! cid = Some n → nn_Inbox n ∈ sw_consumers w) ∧
  (IsReadyToAcceptSagaSubmissionRequests s = true → ∀ cid, cid ∈ GetClusterIds s →
   ∃ n, sb_nodeNames s !! cid = Some n ∧
     ∀ env failure a p, sa_participantId a = cid →
       env_mq (se_env env) (5 + sw_tick w) = MqSent →
       ∃ sagaInstanceId msg w', submit env failure a p w = (Ret (Ok sagaInstanceId), w') ∧
         sw_published w' = sw_published w ++ [PubNode (nn_Outbox n) msg]).
Proof.
  intros [[Hn Hst Hi] Hk]%submitter_reachable_ok. cbv zeta. split_and!; [done..|].
  intros Hr cid Hcid. destruct (Hk Hr cid Hcid) as [n Hcn]. exists n. split; [done|].
  intros env failure a p <- Hmq. do 3 eexists.
  unfold submit, bind, get_state, ret. rewrite Hcn.
  unfold submitter_rand, submitter_now, PublishToNode, or_else, submitter_tick, bind, modify, ret.
  simpl in *. rewrite Hmq. by split.
Qed.

(** ** Announcements *)

(** The pauses of the fast retries. *)
Fixpoint backoffs (interval : Z) (n : nat) (backoff : Z) : list Z :=
  match n with
  | O => []
  | S n => backoff :: backoffs interval n (next_backoff interval backoff)
  end.

(** What an announcement may do to the pauses and the count. *)
Definition bounded (ps : list Z) (n : nat) (w w' : SubmitterWorld) : Prop :=
  sw_announced w' ≤ sw_announced w + n ∧
  ∃ qs, qs `prefix_of` ps ∧ sw_pauses w' = sw_pauses w ++ qs.

Lemma startConsumers_bounded names cids w : bounded [] 0 w (startConsumers names cids w).2.
Proof.
  revert w. induction cids as [|cid cids IH]; intros w; cbn [startConsumers].
  { split; [simpl; lia|]. exists []. by rewrite app_nil_r. }
  destruct (names !! cid) as [[n|]|]; [|by split; [simpl; lia|exists []; rewrite app_nil_r]..].
  unfold bind, get_state, with_submitter, modify. simpl.
  case_decide; simpl;
    match goal with |- bounded _ _ _ (startConsumers _ _ ?w1).2 => exact (IH w1) end.
Qed.

Lemma processAnnouncementResponse_bounded body w :
  bounded [] 0 w (processAnnouncementResponse body w).2.
Proof.
  assert (Hw : bounded [] 0 w w) by (split; [lia|exists []; by rewrite app_nil_r]).
  unfold processAnnouncementResponse. destruct body as [j|]; [|done].
  destruct (unmarshal _ _ j) as [resp|]; [|done]. unfold bind, with_submitter, modify. simpl.
  match goal with |- bounded _ _ _ (startConsumers ?a ?b ?w1).2 => exact (startConsumers_bounded a b w1) end.
Qed.

(** Something that adds no pauses, and then [k]. *)
Lemma bounded_bind {A B} ps n n' (m : M SubmitterWorld A) (k : A → M SubmitterWorld B) w :
  bounded [] n w (m w).2 → (∀ a, bounded ps n' (m w).2 (k a (m w).2).2) →
  bounded ps (n + n') w (bind m k w).2.
Proof.
  intros [Hn (qs & Hq & Hp)] Hk. apply prefix_nil_inv in Hq as ->. rewrite app_nil_r in Hp.
  unfold bind. destruct (m w) as [[a|msg|] w1]; simpl in *.
  - destruct (Hk a) as [Hn2 Hp2]. split; [lia|]. by rewrite <-Hp.
  - split; [lia|]. exists []. rewrite app_nil_r. split; [apply prefix_nil|done].
  - split; [lia|]. exists []. rewrite app_nil_r. split; [apply prefix_nil|done].
Qed.

Lemma fastRetry_bounded env interval n backoff w :
  bounded (backoffs interval n backoff) n w (fastRetry env interval n backoff w).2.
Proof.
  revert backoff w. induction n as [|n IH]; intros backoff w; cbn [fastRetry backoffs].
  { split; [simpl; lia|]. exists []. by rewrite app_nil_r. }
  unfold bind at 1, submitter_ctx_done, submitter_tick, ret. cbn [fst snd bind].
  destruct (env_ctx_done _ _).
  { split; [simpl; lia|]. exists []. rewrite app_nil_r. split; [apply prefix_nil|done]. }
  set (w1 := mkSubmitterWorld (sw_submitter w) (sw_consumers w) (sw_published w)
    (sw_pauses w ++ [backoff]) (S (sw_announced w)) (S (S (sw_tick w)))).
  set (k := match accepted (se_announce env (S (sw_tick w))) with
            | Some body => processAnnouncementResponse body ;;; ret true
            | None => fastRetry env interval n (next_backoff interval backoff)
            end).
  change (bounded (backoff :: backoffs interval n (next_backoff interval backoff)) (S n) w (k w1).2).
  assert (Hk : bounded (backoffs interval n (next_backoff interval backoff)) n w1 (k w1).2).
  { unfold k. destruct (accepted _) as [body|]; [|apply IH].
    apply (bounded_bind _ 0 n).
    - apply processAnnouncementResponse_bounded.
    - intros []. split; [simpl; lia|]. exists []. rewrite app_nil_r. split; [apply prefix_nil|done]. }
  destruct Hk as [Hn (qs & Hq & Hp)]. split; [simpl in *; lia|].
  exists (backoff :: qs). split; [by apply prefix_cons|]. rewrite Hp. simpl. by rewrite <-(assoc_L (++)).
Qed.

Lemma next_backoff_le interval backoff : (next_backoff interval backoff ≤ 2 * backoff)%Z.
Proof. unfold next_backoff. lia. Qed.

Definition pauses_total (ps : list Z) : Z := foldr Z.add 0%Z ps.

Lemma pauses_total_app ps qs : pauses_total (ps ++ qs) = (pauses_total ps + pauses_total qs)%Z.
Proof. unfold pauses_total. induction ps as [|p ps IH]; simpl; [done|]. rewrite IH. lia. Qed.

Lemma pauses_total_nonneg ps : Forall (λ ns, 0 < ns)%Z ps → (0 ≤ pauses_total ps)%Z.
Proof. unfold pauses_total. induction 1; simpl; lia. Qed.

Lemma backoffs_range interval :
  (0 < interval)%Z →
  Forall (λ ns, 0 < ns ≤ Z.max announcementBackoffInitial interval)%Z
    (backoffs interval announcementBackoffMaxRetries announcementBackoffInitial) ∧
  (pauses_total (backoffs interval announcementBackoffMaxRetries announcementBackoffInitial) ≤
    31 * 1000000000)%Z.
Proof.
  intros Hi. unfold announcementBackoffMaxRetries, announcementBackoffInitial, next_backoff, pauses_total.
  cbn [backoffs foldr]. unfold next_backoff. split; [|lia]. repeat constructor; lia.
Qed.

Lemma announceRound_bounded env interval w :
  (0 < interval)%Z →
  sw_announced (announceRound env interval w).2 ≤ sw_announced w + 6 ∧
  ∃ qs, sw_pauses (announceRound env interval w).2 = sw_pauses w ++ qs ∧
    Forall (λ ns, 0 < ns ≤ Z.max announcementBackoffInitial interval)%Z qs ∧
    (pauses_total qs ≤ 31 * 1000000000 + interval)%Z.
Proof.
  intros Hi. destruct (backoffs_range interval Hi) as [Hr Ht].
  set (ps := backoffs interval announcementBackoffMaxRetries announcementBackoffInitial) in *.
  assert (Hpre : ∀ qs, qs `prefix_of` ps →
    Forall (λ ns, 0 < ns ≤ Z.max announcementBackoffInitial interval)%Z qs ∧
    (pauses_total qs ≤ 31 * 1000000000)%Z).
  { intros qs [rs Hqs]. rewrite Hqs in Hr, Ht. apply Forall_app in Hr as [Hr Hrs].
    split; [done|]. rewrite pauses_total_app in Ht.
    assert (0 ≤ pauses_total rs)%Z; [|lia]. apply pauses_total_nonneg.
    eapply Forall_impl; [exact Hrs|]. simpl. lia. }
  set (w1 := (announceToCoordinator env w).2).
  set (m := match accepted (se_announce env (sw_tick w)) with
            | Some body => processAnnouncementResponse body ;;; ret true
            | None => with_submitter (set_sb_ready false) ;;;
                fastRetry env interval announcementBackoffMaxRetries announcementBackoffInitial
            end).
  assert (Hm : bounded ps 5 w1 (m w1).2).
  { unfold m. destruct (accepted _) as [body|].
    - apply (bounded_bind _ 0 5); [apply processAnnouncementResponse_bounded|].
      intros []. split; [simpl; lia|]. exists []. rewrite app_nil_r. split; [apply prefix_nil|done].
    - apply (bounded_bind _ 0 5); [|intros; apply fastRetry_bounded].
      split; [simpl; lia|]. exists []. by rewrite app_nil_r. }
  assert (Hrun : announceRound env interval w =
    bind m (λ go_on, (if go_on : bool then pause interval else ret tt) ;;; ret go_on) w1) by done.
  destruct Hm as [Hn (qs & Hq & Hp)]. destruct (Hpre qs Hq) as [Hall Htot].
  assert (Hw1 : sw_announced w1 = S (sw_announced w) ∧ sw_pauses w1 = sw_pauses w) by done.
  destruct Hw1 as [Ha1 Hp1]. rewrite Ha1 in Hn. rewrite Hp1 in Hp.
  rewrite Hrun. unfold bind. destruct (m w1) as [[[|]|msg|] w2]; simpl in *.
  - split; [lia|]. exists (qs ++ [interval]). rewrite Hp, <-(assoc_L (++)). split; [done|].
    split; [apply Forall_app; split; [done|constructor; [lia|done]]|].
    rewrite pauses_total_app. simpl. lia.
  - split; [lia|]. exists qs. split_and!; [done..|lia].
  - split; [lia|]. exists qs. split_and!; [done..|lia].
  - split; [lia|]. exists qs. split_and!; [done..|lia].
Qed.

(** One turn of the announcement makes at most six attempts, and its pauses
    are positive, none longer than a second or the interval, and all but the
    last, which is the interval, add up to at most thirty-one seconds. *)
Theorem announcement_is_bounded env interval w :
  (0 < interval)%Z →
  sw_announced (announceRound env interval w).2 ≤ sw_announced w + 6 ∧
  ∃ qs, sw_pauses (announceRound env interval w).2 = sw_pauses w ++ qs ∧
    Forall (λ ns, 0 < ns ≤ Z.max announcementBackoffInitial interval)%Z qs ∧
    (pauses_total qs ≤ 31 * 1000000000 + interval)%Z.
Proof. apply announceRound_bounded. Qed.

(** As long as the coordinator accepts the announcements, the loop goes on for
    ever: only the fast retries look at the context. *)
Theorem announcement_ignores_context env interval fuel w :
  (∀ n, is_Some (accepted (se_announce env n))) →
  (StartAnnouncement env fuel interval w).1 ≠ Ret tt.
Proof.
  intros Hacc. revert w. induction fuel as [|fuel IH]; intros w; cbn [StartAnnouncement]; [done|].
  destruct (Hacc (sw_tick w)) as [body Hbody].
  unfold bind at 1. unfold announceRound. unfold bind at 1. cbn -[StartAnnouncement]. rewrite Hbody.
  unfold bind. destruct (processAnnouncementResponse body _) as [[[]|msg|] w1]; [|done..].
  simpl. apply IH.
Qed.

(** ** Two examples *)

(** The coordinator answers the second announcement. *)
Definition patient_env : SubmitterEnv :=
  mkSubmitterEnv (mkEnv (λ n, Z.of_nat n) (λ n i, n + i) (λ _, MqSent) (λ _, false) (λ _, true))
    (λ n, if decide (n = 0) then AnnounceStatus 503 None
          else AnnounceStatus 200 (Some (JObject
            [("cluster_ids", JArray [JString "main"]);
             ("node_names_per_cluster", JObject
               [("main", JObject [("Inbox", JString "q_in"); ("Outbox", JString "x_out")])])]))).

Definition announced : SubmitterWorld :=
  (announceRound patient_env 30000000000 (new_submitter "sub1")).2.

Lemma announced_reachable : submitter_reachable "sub1" announced.
Proof.
  eapply rtc_l; [|apply rtc_refl]. eapply (step_announce patient_env 30000000000 true).
  vm_compute. reflexivity.
Qed.

Lemma submitter_consumes_once_witness :
  submitter_reachable "sub1" announced ∧ sw_consumers announced = ["q_in"] ∧
  IsReadyWithClusters (sw_submitter announced) = true ∧
  ∃ n, sb_nodeNames (sw_submitter announced) !! "main" = Some n.
Proof.
  split; [apply announced_reachable|]. split; [vm_compute; reflexivity|].
  split; [vm_compute; reflexivity|].
  destruct (submitter_consumes_once "sub1" announced announced_reachable) as (_ & _ & Hall).
  destruct (Hall ltac:(vm_compute; reflexivity) "main" ltac:(vm_compute; left)) as (n & Hn & _).
  by exists n.
Defined.

Lemma announcement_is_bounded_witness :
  sw_pauses announced = [1000000000; 30000000000]%Z ∧
  sw_announced announced ≤ sw_announced (new_submitter "sub1") + 6 ∧
  ∃ qs, sw_pauses announced = sw_pauses (new_submitter "sub1") ++ qs ∧
    Forall (λ ns, 0 < ns ≤ Z.max announcementBackoffInitial 30000000000)%Z qs ∧
    (pauses_total qs ≤ 31 * 1000000000 + 30000000000)%Z.
Proof.
  split; [vm_compute; reflexivity|].
  apply (announcement_is_bounded patient_env 30000000000 (new_submitter "sub1")). lia.
Defined.
