(* ===== verification/SubSaga.v ===== *)
(** * Waiting for a saga

    Two loops wait for a saga to come to its end by asking the control service
    over HTTP: [WaitForSagaCompletion] of [pkg/trax/submitter.go] and
    [pollForCompletion] of [pkg/trax/sub_saga_executor.go], which gives up early
    on a saga that was never seen.  Both files have the same functions to read
    a saga and to collect the outputs of its steps; they are modelled once.  A
    turn of a loop is what one tick of its timer finds: whether the context is
    done, the time, and the answers of the service. *)

From stdpp Require Import pretty.
From S2P Require Import Prelude GoMonad Model Json Messages World Executor Submitter.

(** ** HTTP *)

(** No answer, or a status with a body that is a JSON value or not. *)
Inductive HttpAnswer :=
  | HttpError (err : string)
  | HttpResponse (code : Z) (body : option Json).

(** ** The saga as the service shows it *)

Definition parse_state {A} (names : list (A * string)) (unknown : A) (s : string) : A :=
  match List.find (λ p, String.eqb p.2 s) names with Some p => p.1 | None => unknown end.

(** [SagaStateEnum(s)]: a string that names no state is as good as UNKNOWN to
    the code that follows. *)
Definition saga_state_of (s : string) : SagaStateEnum :=
  parse_state
    ((λ st, (st, SagaStateEnum_string st)) <$>
     [SagaStateEnum_Running; SagaStateEnum_Committed; SagaStateEnum_Compensated;
      SagaStateEnum_Blocked; SagaStateEnum_InvalidState; SagaStateEnum_CompensationRequested;
      SagaStateEnum_Paused; SagaStateEnum_Cancelled])
    SagaStateEnum_Unknown s.

(** The answer of the service; [Metadata] and [Input] are texts of JSON. *)
Record ApiSaga := mkApiSaga {
  as_InstanceId : string;
  as_ClusterId : string;
  as_ZoneId : string;
  as_TraceId : string;
  as_ExecutionId : string;
  as_SagaSubmitterId : string;
  as_Labels : gmap string string;
  as_Tags : list string;
  as_Metadata : string;
  as_State : string;
  as_SagaTemplateId : string;
  as_Input : string;
  as_SagaInstanceIds : list string;
  as_SagaIdempotencyKey : string;
  as_CreatedAt : Z;
  as_UpdatedAt : Z;
}.

Definition ApiSaga_fields : list (Field ApiSaga) :=
  [ field "instance_id" as_InstanceId
      (λ (v : string) r, mkApiSaga v (as_ClusterId r) (as_ZoneId r) (as_TraceId r) (as_ExecutionId r)
         (as_SagaSubmitterId r) (as_Labels r) (as_Tags r) (as_Metadata r) (as_State r)
         (as_SagaTemplateId r) (as_Input r) (as_SagaInstanceIds r) (as_SagaIdempotencyKey r)
         (as_CreatedAt r) (as_UpdatedAt r)) kept JString decode_string;
    field "cluster_id" as_ClusterId
      (λ (v : string) r, mkApiSaga (as_InstanceId r) v (as_ZoneId r) (as_TraceId r) (as_ExecutionId r)
         (as_SagaSubmitterId r) (as_Labels r) (as_Tags r) (as_Metadata r) (as_State r)
         (as_SagaTemplateId r) (as_Input r) (as_SagaInstanceIds r) (as_SagaIdempotencyKey r)
         (as_CreatedAt r) (as_UpdatedAt r)) kept JString decode_string;
    field "zone_id" as_ZoneId
      (λ (v : string) r, mkApiSaga (as_InstanceId r) (as_ClusterId r) v (as_TraceId r)
         (as_ExecutionId r) (as_SagaSubmitterId r) (as_Labels r) (as_Tags r) (as_Metadata r)
         (as_State r) (as_SagaTemplateId r) (as_Input r) (as_SagaInstanceIds r)
         (as_SagaIdempotencyKey r) (as_CreatedAt r) (as_UpdatedAt r)) kept JString decode_string;
    field "trace_id" as_TraceId
      (λ (v : string) r, mkApiSaga (as_InstanceId r) (as_ClusterId r) (as_ZoneId r) v (as_ExecutionId r)
         (as_SagaSubmitterId r) (as_Labels r) (as_Tags r) (as_Metadata r) (as_State r)
         (as_SagaTemplateId r) (as_Input r) (as_SagaInstanceIds r) (as_SagaIdempotencyKey r)
         (as_CreatedAt r) (as_UpdatedAt r)) kept JString decode_string;
    field "execution_id" as_ExecutionId
      (λ (v : string) r, mkApiSaga (as_InstanceId r) (as_ClusterId r) (as_ZoneId r) (as_TraceId r) v
         (as_SagaSubmitterId r) (as_Labels r) (as_Tags r) (as_Metadata r) (as_State r)
         (as_SagaTemplateId r) (as_Input r) (as_SagaInstanceIds r) (as_SagaIdempotencyKey r)
         (as_CreatedAt r) (as_UpdatedAt r)) kept JString decode_string;
    field "saga_submitter_id" as_SagaSubmitterId
      (λ (v : string) r, mkApiSaga (as_InstanceId r) (as_ClusterId r) (as_ZoneId r) (as_TraceId r)
         (as_ExecutionId r) v (as_Labels r) (as_Tags r) (as_Metadata r) (as_State r)
         (as_SagaTemplateId r) (as_Input r) (as_SagaInstanceIds r) (as_SagaIdempotencyKey r)
         (as_CreatedAt r) (as_UpdatedAt r)) kept JString decode_string;
    field "labels" as_Labels
      (λ (v : gmap string string) r, mkApiSaga (as_InstanceId r) (as_ClusterId r) (as_ZoneId r)
         (as_TraceId r) (as_ExecutionId r) (as_SagaSubmitterId r) v (as_Tags r) (as_Metadata r)
         (as_State r) (as_SagaTemplateId r) (as_Input r) (as_SagaInstanceIds r)
         (as_SagaIdempotencyKey r) (as_CreatedAt r) (as_UpdatedAt r)) kept marshal_map decode_map;
    field "tags" as_Tags
      (λ (v : list string) r, mkApiSaga (as_InstanceId r) (as_ClusterId r) (as_ZoneId r) (as_TraceId r)
         (as_ExecutionId r) (as_SagaSubmitterId r) (as_Labels r) v (as_Metadata r) (as_State r)
         (as_SagaTemplateId r) (as_Input r) (as_SagaInstanceIds r) (as_SagaIdempotencyKey r)
         (as_CreatedAt r) (as_UpdatedAt r)) kept (marshal_list JString) (decode_list decode_string "");
    field "metadata" as_Metadata
      (λ (v : string) r, mkApiSaga (as_InstanceId r) (as_ClusterId r) (as_ZoneId r) (as_TraceId r)
         (as_ExecutionId r) (as_SagaSubmitterId r) (as_Labels r) (as_Tags r) v (as_State r)
         (as_SagaTemplateId r) (as_Input r) (as_SagaInstanceIds r) (as_SagaIdempotencyKey r)
         (as_CreatedAt r) (as_UpdatedAt r)) kept JString decode_string;
    field "state" as_State
      (λ (v : string) r, mkApiSaga (as_InstanceId r) (as_ClusterId r) (as_ZoneId r) (as_TraceId r)
         (as_ExecutionId r) (as_SagaSubmitterId r) (as_Labels r) (as_Tags r) (as_Metadata r) v
         (as_SagaTemplateId r) (as_Input r) (as_SagaInstanceIds r) (as_SagaIdempotencyKey r)
         (as_CreatedAt r) (as_UpdatedAt r)) kept JString decode_string;
    field "saga_template_id" as_SagaTemplateId
      (λ (v : string) r, mkApiSaga (as_InstanceId r) (as_ClusterId r) (as_ZoneId r) (as_TraceId r)
         (as_ExecutionId r) (as_SagaSubmitterId r) (as_Labels r) (as_Tags r) (as_Metadata r)
         (as_State r) v (as_Input r) (as_SagaInstanceIds r) (as_SagaIdempotencyKey r)
         (as_CreatedAt r) (as_UpdatedAt r)) kept JString decode_string;
    field "input_data" as_Input
      (λ (v : string) r, mkApiSaga (as_InstanceId r) (as_ClusterId r) (as_ZoneId r) (as_TraceId r)
         (as_ExecutionId r) (as_SagaSubmitterId r) (as_Labels r) (as_Tags r) (as_Metadata r)
         (as_State r) (as_SagaTemplateId r) v (as_SagaInstanceIds r) (as_SagaIdempotencyKey r)
         (as_CreatedAt r) (as_UpdatedAt r)) kept JString decode_string;
    field "saga_instance_ids" as_SagaInstanceIds
      (λ (v : list string) r, mkApiSaga (as_InstanceId r) (as_ClusterId r) (as_ZoneId r) (as_TraceId r)
         (as_ExecutionId r) (as_SagaSubmitterId r) (as_Labels r) (as_Tags r) (as_Metadata r)
         (as_State r) (as_SagaTemplateId r) (as_Input r) v (as_SagaIdempotencyKey r)
         (as_CreatedAt r) (as_UpdatedAt r)) kept (marshal_list JString) (decode_list decode_string "");
    field "saga_idempotency_key" as_SagaIdempotencyKey
      (λ (v : string) r, mkApiSaga (as_InstanceId r) (as_ClusterId r) (as_ZoneId r) (as_TraceId r)
         (as_ExecutionId r) (as_SagaSubmitterId r) (as_Labels r) (as_Tags r) (as_Metadata r)
         (as_State r) (as_SagaTemplateId r) (as_Input r) (as_SagaInstanceIds r) v (as_CreatedAt r)
         (as_UpdatedAt r)) kept JString decode_string;
    field "created_at" as_CreatedAt
      (λ (v : Z) r, mkApiSaga (as_InstanceId r) (as_ClusterId r) (as_ZoneId r) (as_TraceId r)
         (as_ExecutionId r) (as_SagaSubmitterId r) (as_Labels r) (as_Tags r) (as_Metadata r)
         (as_State r) (as_SagaTemplateId r) (as_Input r) (as_SagaInstanceIds r)
         (as_SagaIdempotencyKey r) v (as_UpdatedAt r)) kept JInt decode_int64;
    field "updated_at" as_UpdatedAt
      (λ (v : Z) r, mkApiSaga (as_InstanceId r) (as_ClusterId r) (as_ZoneId r) (as_TraceId r)
         (as_ExecutionId r) (as_SagaSubmitterId r) (as_Labels r) (as_Tags r) (as_Metadata r)
         (as_State r) (as_SagaTemplateId r) (as_Input r) (as_SagaInstanceIds r)
         (as_SagaIdempotencyKey r) (as_CreatedAt r) v) kept JInt decode_int64 ].

Definition empty_api_saga : ApiSaga :=
  mkApiSaga "" "" "" "" "" "" ∅ [] "" "" "" "" [] "" 0 0.

(** A step in the list of a saga's steps. *)
Record ApiStep := mkApiStep {
  ap_InstanceId : string;
  ap_State : string;
  ap_Result : string;
  ap_CompensationResult : string;
  ap_SagaStepTemplateId : string;
}.

Definition ap_InstanceId_field : Field ApiStep :=
  field "instance_id" ap_InstanceId
    (λ v r, mkApiStep v (ap_State r) (ap_Result r) (ap_CompensationResult r) (ap_SagaStepTemplateId r))
    kept JString decode_string.
Definition ap_State_field : Field ApiStep :=
  field "state" ap_State
    (λ v r, mkApiStep (ap_InstanceId r) v (ap_Result r) (ap_CompensationResult r)
      (ap_SagaStepTemplateId r))
    kept JString decode_string.
Definition ap_Result_field : Field ApiStep :=
  field "result_data" ap_Result
    (λ v r, mkApiStep (ap_InstanceId r) (ap_State r) v (ap_CompensationResult r)
      (ap_SagaStepTemplateId r))
    kept JString decode_string.
Definition ap_CompensationResult_field : Field ApiStep :=
  field "compensation_result_data" ap_CompensationResult
    (λ v r, mkApiStep (ap_InstanceId r) (ap_State r) (ap_Result r) v (ap_SagaStepTemplateId r))
    kept JString decode_string.
Definition ap_SagaStepTemplateId_field : Field ApiStep :=
  field "saga_step_template_id" ap_SagaStepTemplateId
    (λ v r, mkApiStep (ap_InstanceId r) (ap_State r) (ap_Result r) (ap_CompensationResult r) v)
    kept JString decode_string.

Definition ApiStep_fields : list (Field ApiStep) :=
  [ap_InstanceId_field; ap_State_field; ap_Result_field; ap_CompensationResult_field;
   ap_SagaStepTemplateId_field].
(** The structure for compensation outputs has no [result_data]. *)
Definition ApiStep_compensation_fields : list (Field ApiStep) :=
  [ap_InstanceId_field; ap_State_field; ap_CompensationResult_field; ap_SagaStepTemplateId_field].

Definition empty_api_step : ApiStep := mkApiStep "" "" "" "" "".

(** [listResp]: the steps. *)
Definition listResp_fields (fs : list (Field ApiStep)) : list (Field (list ApiStep)) :=
  [ field "saga_step_instances" id (λ v _, v) kept (λ _, JNull)
      (decode_list (decode_struct fs) empty_api_step) ].

Section waiting.
Context (parse : string → option Json).

(** [json.Unmarshal] into a nil map, its error only logged. *)
Definition lenient_map (text : string) : gmap string string :=
  if bool_decide (text = "") then ∅
  else match parse text with Some j => (decode_map j ∅).1 | None => ∅ end.

(** The status check and the decoding that all calls share. *)
Definition decode_answer {A} (d : decoder A) (zero : A) (a : HttpAnswer) : result A :=
  match a with
  | HttpError err => Err (Errorf ("failed to execute request: " +:+ err))
  | HttpResponse code body =>
      if negb (code =? 200)%Z then Err (Errorf ("unexpected status code " +:+ pretty code))
      else
        match body ≫= unmarshal d zero with
        | Some v => Ok v
        | None => Err (Errorf "failed to decode response")
        end
  end.

Definition getSagaInstance (a : HttpAnswer) : result SagaInstance :=
  result_map (λ r,
    mkSagaInstance (as_InstanceId r) (as_ClusterId r) (as_ZoneId r) (as_TraceId r)
      (as_ExecutionId r) (as_SagaSubmitterId r) "" "" (as_Labels r) (as_Tags r)
      (lenient_map (as_Metadata r)) (saga_state_of (as_State r)) (as_SagaTemplateId r)
      (lenient_map (as_Input r)) (as_SagaInstanceIds r) "" "" "" 0 "" None (as_CreatedAt r)
      (as_UpdatedAt r))
    (decode_answer (decode_struct ApiSaga_fields) empty_api_saga a).

(** The outputs of one step: those of its text, if it counts. *)
Definition step_outputs (counts : ApiStep → bool) (text : ApiStep → string) (step : ApiStep) :
    option (gmap string string) :=
  if negb (counts step) then None
  else if bool_decide (text step = "") then None
  else parse (text step) ≫= unmarshal decode_map ∅.

(** Later steps override earlier ones. *)
Definition combine_outputs (counts : ApiStep → bool) (text : ApiStep → string)
    (steps : list ApiStep) : gmap string string :=
  foldl (λ outputs step,
    match step_outputs counts text step with Some m => m ∪ outputs | None => outputs end) ∅ steps.

Definition executed (step : ApiStep) : bool :=
  bool_decide (ap_State step = SagaStepStateEnum_string SagaStepStateEnum_ExecutionSucceeded) ||
  bool_decide (ap_State step = SagaStepStateEnum_string SagaStepStateEnum_ExecutionDone).

Definition compensated (step : ApiStep) : bool :=
  bool_decide (ap_State step = SagaStepStateEnum_string SagaStepStateEnum_CompensationDone).

Definition extractOutputsFromSteps (a : HttpAnswer) : result (gmap string string) :=
  result_map (combine_outputs executed ap_Result)
    (decode_answer (decode_struct (listResp_fields ApiStep_fields)) [] a).

Definition extractCompensationOutputsFromSteps (a : HttpAnswer) : result (gmap string string) :=
  result_map (combine_outputs compensated ap_CompensationResult)
    (decode_answer (decode_struct (listResp_fields ApiStep_compensation_fields)) [] a).

(** ** The loops *)

(** [SagaCompletionResult] and [SubSagaResult]. *)
Record CompletionResult := mkCompletionResult {
  cr_SagaInstanceId : string;
  cr_State : SagaStateEnum;
  cr_Outputs : gmap string string;
  cr_Error : string;
}.

(** A pointer and an error: both may be there. *)
Definition Completion : Type := option CompletionResult * option string.

Record Turn := mkTurn {
  t_ctx_done : bool;
  t_now : Z;
  t_saga : HttpAnswer;
  t_steps : HttpAnswer;
}.

(** The cases that both loops have in common: [None] is [continue]. *)
Definition committed (sagaInstanceId : string) (t : Turn) : Completion :=
  match extractOutputsFromSteps (t_steps t) with
  | Err err => (None, Some ("saga committed but failed to extract outputs: " +:+ error_text err))
  | Ok outputs => (Some (mkCompletionResult sagaInstanceId SagaStateEnum_Committed outputs ""), None)
  end.

Definition stopped (sagaInstanceId : string) (state : SagaStateEnum) (outputs : gmap string string)
    (what err : string) : Completion :=
  (Some (mkCompletionResult sagaInstanceId state outputs what), Some err).

Definition wait_turn (sagaInstanceId : string) (deadline : Z) (t : Turn) : option Completion :=
  if t_ctx_done t then Some (None, Some "context done")
  else if (deadline <? t_now t)%Z then
    Some (None, Some ("timeout waiting for saga " +:+ sagaInstanceId +:+ " to complete"))
  else
    match getSagaInstance (t_saga t) with
    | Err _ => None
    | Ok sagaInstance =>
        match si_State sagaInstance with
        | SagaStateEnum_Committed => Some (committed sagaInstanceId t)
        | SagaStateEnum_Compensated =>
            Some (stopped sagaInstanceId SagaStateEnum_Compensated ∅
              "saga was compensated (rolled back)" ("saga " +:+ sagaInstanceId +:+ " was compensated"))
        | SagaStateEnum_Blocked =>
            Some (stopped sagaInstanceId SagaStateEnum_Blocked ∅
              "saga is blocked and requires intervention" ("saga " +:+ sagaInstanceId +:+ " is blocked"))
        | SagaStateEnum_InvalidState =>
            Some (stopped sagaInstanceId SagaStateEnum_InvalidState ∅
              "saga entered invalid state" ("saga " +:+ sagaInstanceId +:+ " entered invalid state"))
        | _ => None
        end
    end.

Fixpoint wait_loop (sagaInstanceId : string) (deadline : Z) (turns : nat → Turn) (fuel i : nat) :
    outcome Completion :=
  match fuel with
  | O => Hang
  | S fuel =>
      match wait_turn sagaInstanceId deadline (turns i) with
      | Some r => Ret r
      | None => wait_loop sagaInstanceId deadline turns fuel (S i)
      end
  end.

(** [start] is the time of the call; a ticker needs a positive interval. *)
Definition WaitForSagaCompletion (traxCtrlURL sagaInstanceId : string)
    (pollInterval maxWaitTime start : Z) (turns : nat → Turn) (fuel : nat) : outcome Completion :=
  if bool_decide (traxCtrlURL = "") then
    Ret (None, Some "traxCtrlURL not set - call SetTraxCtrlURL first")
  else if (pollInterval <=? 0)%Z then Panic "non-positive interval for NewTicker"
  else wait_loop sagaInstanceId (start + maxWaitTime) turns fuel 0.

(** What [pollForCompletion] remembers from turn to turn. *)
Record PollState := mkPollState {
  ps_consecutiveErrors : nat;
  ps_lastError : option string;
  ps_everFoundSaga : bool;
}.

Definition maxConsecutiveErrors : nat := 15.

Definition poll_turn (sagaInstanceId : string) (deadline : Z) (ps : PollState) (t : Turn) :
    Completion + PollState :=
  if t_ctx_done t then inl (None, Some "context done")
  else if (deadline <? t_now t)%Z then
    inl (None, Some ("timeout waiting for sub-saga " +:+ sagaInstanceId +:+ " to complete"))
  else
    match getSagaInstance (t_saga t) with
    | Err err =>
        let n := S (ps_consecutiveErrors ps) in
        if negb (ps_everFoundSaga ps) && (maxConsecutiveErrors <=? n) then
          inl (None, Some ("sub-saga " +:+ sagaInstanceId +:+ " not found after " +:+ pretty n +:+
                 " consecutive poll attempts"))
        else inr (mkPollState n (Some (error_text err)) (ps_everFoundSaga ps))
    | Ok sagaInstance =>
        match si_State sagaInstance with
        | SagaStateEnum_Committed => inl (committed sagaInstanceId t)
        | SagaStateEnum_Compensated =>
            inl (stopped sagaInstanceId SagaStateEnum_Compensated
              (match extractCompensationOutputsFromSteps (t_steps t) with Ok m => m | Err _ => ∅ end)
              "sub-saga was compensated (rolled back)"
              ("sub-saga " +:+ sagaInstanceId +:+ " was compensated"))
        | SagaStateEnum_Blocked =>
            inl (stopped sagaInstanceId SagaStateEnum_Blocked ∅
              "sub-saga is blocked and requires intervention"
              ("sub-saga " +:+ sagaInstanceId +:+ " is blocked"))
        | SagaStateEnum_InvalidState =>
            inl (stopped sagaInstanceId SagaStateEnum_InvalidState ∅
              "sub-saga entered invalid state"
              ("sub-saga " +:+ sagaInstanceId +:+ " entered invalid state"))
        | _ => inr (mkPollState 0 (ps_lastError ps) true)
        end
    end.

Fixpoint poll_loop (sagaInstanceId : string) (deadline : Z) (turns : nat → Turn) (fuel i : nat)
    (ps : PollState) : outcome Completion :=
  match fuel with
  | O => Hang
  | S fuel =>
      match poll_turn sagaInstanceId deadline ps (turns i) with
      | inl r => Ret r
      | inr ps => poll_loop sagaInstanceId deadline turns fuel (S i) ps
      end
  end.

Record SubSagaExecutor := mkSubSagaExecutor {
  sx_traxCtrlURL : string;
  sx_pollInterval : Z;
  sx_maxWaitTime : Z;
}.

Definition second : Z := 1000000000.

(** [NewSubSagaExecutor] and its options. *)
Definition NewSubSagaExecutor (traxCtrlURL : string) (opts : list (SubSagaExecutor → SubSagaExecutor)) :
    SubSagaExecutor :=
  foldl (λ e opt, opt e) (mkSubSagaExecutor traxCtrlURL (2 * second) (600 * second)) opts.

Definition WithPollInterval (interval : Z) (e : SubSagaExecutor) : SubSagaExecutor :=
  mkSubSagaExecutor (sx_traxCtrlURL e) interval (sx_maxWaitTime e).
Definition WithMaxWaitTime (maxWait : Z) (e : SubSagaExecutor) : SubSagaExecutor :=
  mkSubSagaExecutor (sx_traxCtrlURL e) (sx_pollInterval e) maxWait.

Definition pollForCompletion (e : SubSagaExecutor) (sagaInstanceId : string) (start : Z)
    (turns : nat → Turn) (fuel : nat) : outcome Completion :=
  if (sx_pollInterval e <=? 0)%Z then Panic "non-positive interval for NewTicker"
  else poll_loop sagaInstanceId (start + sx_maxWaitTime e) turns fuel 0 (mkPollState 0 None false).

(** ** Sub-sagas *)

(** The result of a poll that ended with an error is dropped. *)
Definition SpawnAndWaitWithParent (env : SubmitterEnv) (e : SubSagaExecutor)
    (clusterId sagaTemplateId : string) (sagaInput : gmap string string)
    (originIdempotencyKey : string) (parent : ParentArgs)
    (start : Z) (turns : nat → Turn) (fuel : nat) : M SubmitterWorld Completion := λ w,
  let args := mkSagaArgs clusterId "" "default-zone" "sub-saga" originIdempotencyKey "" "" [] ∅
    sagaTemplateId sagaInput in
  let child := mkParentArgs (pa_parentSagaInstanceId parent) (pa_parentSagaStepInstanceId parent)
    (pa_rootSagaInstanceId parent) (int64_add (pa_sagaDepth parent) 1) in
  match SubmitSubSaga env args child w with
  | (Ret (Err err), w') =>
      (Ret (None, Some ("failed to submit sub-saga " +:+ sagaTemplateId +:+ ": " +:+ error_text err)), w')
  | (Ret (Ok sagaInstanceId), w') =>
      match pollForCompletion e sagaInstanceId start turns fuel with
      | Ret (_, Some err) =>
          (Ret (None, Some ("failed to poll for sub-saga " +:+ sagaInstanceId +:+ " completion: " +:+ err)), w')
      | Ret (r, None) => (Ret (r, None), w')
      | Panic msg => (Panic msg, w')
      | Hang => (Hang, w')
      end
  | (Panic msg, w') => (Panic msg, w')
  | (Hang, w') => (Hang, w')
  end.
End waiting.

(** The options of [SpawnSubSaga]. *)
Record SubSagaOptions := mkSubSagaOptions { so_timeout : Z; so_pollInterval : Z }.

Definition WithSubSagaTimeout (d : Z) (o : SubSagaOptions) : SubSagaOptions :=
  mkSubSagaOptions d (so_pollInterval o).
Definition WithSubSagaPollInterval (d : Z) (o : SubSagaOptions) : SubSagaOptions :=
  mkSubSagaOptions (so_timeout o) d.

(** [defaultSagaContext.SpawnSubSaga], with the context of Executor.v. *)
Definition SpawnSubSaga (parse : string → option Json) (env : SubmitterEnv) (traxCtrlURL : string)
    (sc : SagaContext) (sagaTemplateId : string) (sagaInput : gmap string string)
    (originIdempotencyKey : string) (opts : list (SubSagaOptions → SubSagaOptions))
    (start : Z) (turns : nat → Turn) (fuel : nat) : M SubmitterWorld Completion :=
  let options := foldl (λ o opt, opt o) (mkSubSagaOptions (600 * second) (2 * second)) opts in
  SpawnAndWaitWithParent parse env
    (NewSubSagaExecutor traxCtrlURL
       [WithPollInterval (so_pollInterval options); WithMaxWaitTime (so_timeout options)])
    (sc_clusterId sc) sagaTemplateId sagaInput originIdempotencyKey
    (mkParentArgs (sc_parentSagaInstanceId sc) (sc_parentSagaStepInstanceId sc)
       (sc_rootSagaInstanceId sc) (sc_sagaDepth sc))
    start turns fuel.

(** ** What waiting for a saga comes to

    The two loops end in time, they say the same about a saga that is seen
    early enough, a saga that is never seen is given up after fifteen attempts,
    and the outputs of a saga are those of its steps, the later one first. *)

Section loops.
Context (parse : string → option Json).
Implicit Types (turns : nat → Turn) (t : Turn) (ps : PollState).
Implicit Types (sid : string) (i j fuel : nat) (deadline : Z).

(** ** Ending *)

Lemma wait_loop_ends sid deadline turns fuel i j :
  (deadline < t_now (turns (i + j)%nat))%Z → j < fuel →
  ∃ r, wait_loop parse sid deadline turns fuel i = Ret r.
Proof.
  revert i j. induction fuel as [|fuel IH]; intros i j Hd Hj; [lia|]. cbn [wait_loop].
  destruct (wait_turn parse sid deadline (turns i)) as [r|] eqn:Ht; [by exists r|].
  destruct j as [|j].
  - rewrite Nat.add_0_r in Hd. unfold wait_turn in Ht. destruct (t_ctx_done _); [done|].
    by rewrite (proj2 (Z.ltb_lt _ _) Hd) in Ht.
  - apply (IH (S i) j); [by rewrite Nat.add_succ_l, <-Nat.add_succ_r|lia].
Qed.

Lemma poll_loop_ends sid deadline turns fuel i j ps :
  (deadline < t_now (turns (i + j)%nat))%Z → j < fuel →
  ∃ r, poll_loop parse sid deadline turns fuel i ps = Ret r.
Proof.
  revert i j ps. induction fuel as [|fuel IH]; intros i j ps Hd Hj; [lia|]. cbn [poll_loop].
  destruct (poll_turn parse sid deadline ps (turns i)) as [r|ps'] eqn:Ht; [by exists r|].
  destruct j as [|j].
  - rewrite Nat.add_0_r in Hd. unfold poll_turn in Ht. destruct (t_ctx_done _); [done|].
    by rewrite (proj2 (Z.ltb_lt _ _) Hd) in Ht.
  - apply (IH (S i) j); [by rewrite Nat.add_succ_l, <-Nat.add_succ_r|lia].
Qed.

(** How many turns a ticker with this interval makes before the time is up. *)
Definition enough_turns (interval maxWait : Z) : nat := 2 + Z.to_nat (maxWait / interval).

(** The ticks of a ticker: the [i]-th comes no earlier than it is due. *)
Definition ticks (start interval : Z) turns : Prop :=
  ∀ i, (start + (Z.of_nat i + 1) * interval ≤ t_now (turns i))%Z.

Lemma ticks_reach start interval maxWait turns :
  (0 < interval)%Z → (0 ≤ maxWait)%Z → ticks start interval turns →
  (start + maxWait < t_now (turns (Z.to_nat (maxWait / interval))))%Z.
Proof.
  intros Hi Hm Ht. specialize (Ht (Z.to_nat (maxWait / interval))). simpl.
  rewrite Z2Nat.id in Ht by (by apply Z.div_pos).
  pose proof (Z.mul_succ_div_gt maxWait interval Hi). lia.
Qed.

(** ** The same verdict *)

(** What a caller can tell: the state and the outputs of a committed saga,
    and whether there is an error. *)
Definition verdict_of (c : Completion) : option (SagaStateEnum * option (gmap string string)) * bool :=
  ((λ r, (cr_State r, if bool_decide (cr_State r = SagaStateEnum_Committed)
                      then Some (cr_Outputs r) else None)) <$> c.1,
   bool_decide (c.2 = None)).

(** The polling loop does not give up at this turn for lack of answers. *)
Definition patient ps : Prop :=
  ps_everFoundSaga ps = true ∨ S (ps_consecutiveErrors ps) < maxConsecutiveErrors.

Lemma turns_agree sid deadline ps t :
  patient ps →
  match wait_turn parse sid deadline t, poll_turn parse sid deadline ps t with
  | Some r, inl r' => verdict_of r = verdict_of r'
  | None, inr ps' =>
      match getSagaInstance parse (t_saga t) with
      | Ok _ => ps_everFoundSaga ps' = true
      | Err _ => ps_everFoundSaga ps' = ps_everFoundSaga ps ∧
          ps_consecutiveErrors ps' = S (ps_consecutiveErrors ps)
      end
  | _, _ => False
  end.
Proof.
  intros Hp. unfold wait_turn, poll_turn. destruct (t_ctx_done t); [done|].
  destruct (deadline <? t_now t)%Z; [done|].
  destruct (getSagaInstance parse (t_saga t)) as [s|err] eqn:Hs.
  - by destruct (si_State s).
  - assert (negb (ps_everFoundSaga ps) && (maxConsecutiveErrors <=? S (ps_consecutiveErrors ps)) = false)
      as ->; [|done].
    destruct Hp as [->|Hp]; [done|]. apply andb_false_iff. right. by apply Nat.leb_gt.
Qed.

(** The saga is seen at one of the turns from [i] to [j]. *)
Definition seen turns (j : nat) : Prop := ∃ s, getSagaInstance parse (t_saga (turns j)) = Ok s.

Lemma loops_agree sid deadline turns fuel i ps j :
  ps_everFoundSaga ps = true ∨
    (seen turns j ∧ i ≤ j ∧ ps_consecutiveErrors ps = i ∧ j < maxConsecutiveErrors) →
  match wait_loop parse sid deadline turns fuel i, poll_loop parse sid deadline turns fuel i ps with
  | Ret r, Ret r' => verdict_of r = verdict_of r'
  | Hang, Hang => True
  | _, _ => False
  end.
Proof.
  revert i ps. induction fuel as [|fuel IH]; intros i ps Hp; cbn [wait_loop poll_loop]; [done|].
  destruct (decide (ps_everFoundSaga ps = true ∨ i < j)) as [Hpat|Hpat].
  - assert (patient ps) as Hpa.
    { unfold patient. destruct Hp as [Hp|(_ & _ & Hn & Hj)]; [by left|].
      destruct Hpat as [?|Hij]; [by left|right; lia]. }
    pose proof (turns_agree sid deadline ps (turns i) Hpa) as Ht.
    destruct (wait_turn _ _ _ _) as [r|], (poll_turn _ _ _ _ _) as [r'|ps']; try done.
    apply IH. destruct (getSagaInstance parse (t_saga (turns i))); [by left|].
    destruct Ht as [Hf Hn]. rewrite Hf, Hn.
    destruct Hp as [Hp|(Hs & Hij & Hi & Hj)]; [by left|].
    destruct Hpat as [?|?]; [by left|]. right. split_and!; [done|lia|lia|done].
  - assert (i = j ∧ ps_everFoundSaga ps = false) as [-> Hf].
    { destruct Hp as [Hp|(_ & Hij & _)]; [tauto|]. destruct (ps_everFoundSaga ps); [tauto|]. lia. }
    destruct Hp as [Hp|([s Hs] & _ & Hn & Hj)]; [congruence|].
    unfold wait_turn, poll_turn. destruct (t_ctx_done _); [done|].
    destruct (deadline <? _)%Z; [done|]. rewrite Hs.
    destruct (si_State s) eqn:Hst; try done; by apply IH; left.
Qed.

(** ** Giving up *)

Lemma unseen_given_up sid deadline turns fuel : ∀ i ps,
  ps_everFoundSaga ps = false → ps_consecutiveErrors ps = i → i < maxConsecutiveErrors →
  (∀ j, i ≤ j < maxConsecutiveErrors → t_ctx_done (turns j) = false ∧
     (t_now (turns j) ≤ deadline)%Z ∧ ¬ seen turns j) →
  maxConsecutiveErrors - i ≤ fuel →
  poll_loop parse sid deadline turns fuel i ps =
    Ret (None, Some ("sub-saga " +:+ sid +:+ " not found after " +:+ pretty maxConsecutiveErrors +:+
      " consecutive poll attempts")).
Proof.
  induction fuel as [|fuel IH]; intros i ps Hf Hi Hlt Hall Hfuel; [lia|]. cbn [poll_loop].
  destruct (Hall i) as (Hc & Hd & Hs); [lia|]. unfold poll_turn. rewrite Hc.
  rewrite (proj2 (Z.ltb_ge _ _) Hd).
  destruct (getSagaInstance parse (t_saga (turns i))) as [s|err] eqn:Hg; [by destruct Hs; exists s|].
  rewrite Hf, Hi. cbn [negb andb]. destruct (maxConsecutiveErrors <=? S i) eqn:Hle.
  - apply Nat.leb_le in Hle. assert (S i = maxConsecutiveErrors) as -> by lia. done.
  - apply Nat.leb_gt in Hle. apply IH; [done|done|lia| |lia]. intros j Hj. apply Hall. lia.
Qed.
End loops.

(** C19: both loops end: a timer that ticks at its interval, and whatever the
    service answers, leave at most [maxWait / interval + 2] turns before there
    is a result or an error. *)
Theorem waiting_ends parse url sid interval maxWait start turns :
  url ≠ "" → (0 < interval)%Z → (0 ≤ maxWait)%Z → ticks start interval turns →
  (∃ r, WaitForSagaCompletion parse url sid interval maxWait start turns
          (enough_turns interval maxWait) = Ret r) ∧
  (∃ r, pollForCompletion parse (mkSubSagaExecutor url interval maxWait) sid start turns
          (enough_turns interval maxWait) = Ret r).
Proof.
  intros Hu Hi Hm Ht. pose proof (ticks_reach _ _ _ _ Hi Hm Ht) as Hd.
  unfold WaitForSagaCompletion, pollForCompletion. cbn [sx_pollInterval sx_maxWaitTime].
  rewrite bool_decide_false, (proj2 (Z.leb_gt _ _) Hi) by done. unfold enough_turns. split.
  - eapply wait_loop_ends; [exact Hd|lia].
  - eapply poll_loop_ends; [exact Hd|lia].
Qed.

(** The two loops are the same: when the saga is seen within the first
    fifteen turns, they stop at the same turn with the same state, the same
    outputs of a committed saga, and an error or none. *)
Theorem waits_agree parse url sid interval maxWait start turns fuel j :
  url ≠ "" → seen parse turns j → j < maxConsecutiveErrors →
  match WaitForSagaCompletion parse url sid interval maxWait start turns fuel,
        pollForCompletion parse (mkSubSagaExecutor url interval maxWait) sid start turns fuel with
  | Ret r, Ret r' => verdict_of r = verdict_of r'
  | Hang, Hang => True
  | Panic msg, Panic msg' => msg = msg'
  | _, _ => False
  end.
Proof.
  intros Hu Hs Hj. unfold WaitForSagaCompletion, pollForCompletion.
  cbn [sx_pollInterval sx_maxWaitTime]. rewrite bool_decide_false by done.
  destruct (interval <=? 0)%Z; [done|].
  pose proof (loops_agree parse sid (start + maxWait) turns fuel 0 (mkPollState 0 None false) j) as Hl.
  assert (Ha : seen parse turns j ∧ 0 ≤ j ∧ 0 = 0 ∧ j < maxConsecutiveErrors)
    by (split_and!; [done|lia|done|done]).
  specialize (Hl (or_intror Ha)).
  by destruct (wait_loop _ _ _ _ _ _), (poll_loop _ _ _ _ _ _ _).
Qed.

(** A sub-saga that the service has not shown within fifteen turns is given
    up with an error, long before the time is up. *)
Theorem unseen_saga_given_up parse e sid start turns fuel :
  (0 < sx_pollInterval e)%Z →
  (∀ j, j < maxConsecutiveErrors → t_ctx_done (turns j) = false ∧
     (t_now (turns j) ≤ start + sx_maxWaitTime e)%Z ∧ ¬ seen parse turns j) →
  maxConsecutiveErrors ≤ fuel →
  pollForCompletion parse e sid start turns fuel =
    Ret (None, Some ("sub-saga " +:+ sid +:+ " not found after " +:+ pretty maxConsecutiveErrors +:+
      " consecutive poll attempts")).
Proof.
  intros Hi Hall Hf. unfold pollForCompletion. rewrite (proj2 (Z.leb_gt _ _) Hi).
  apply unseen_given_up; [done|done|unfold maxConsecutiveErrors; lia| |lia]. intros j Hj. apply Hall. lia.
Qed.

(** ** Outputs *)

Section outputs.
Context (parse : string → option Json) (counts : ApiStep → bool) (text : ApiStep → string).

Lemma combine_outputs_snoc steps step :
  combine_outputs parse counts text (steps ++ [step]) =
    match step_outputs parse counts text step with
    | Some m => m ∪ combine_outputs parse counts text steps
    | None => combine_outputs parse counts text steps
    end.
Proof. unfold combine_outputs. by rewrite foldl_app. Qed.

Lemma combine_outputs_last steps k :
  combine_outputs parse counts text steps !! k =
    last (omap (λ step, step_outputs parse counts text step ≫= lookup k) steps).
Proof.
  induction steps as [|step steps IH] using rev_ind; [done|].
  rewrite combine_outputs_snoc, omap_app. csimpl.
  destruct (step_outputs parse counts text step) as [m|]; csimpl.
  - rewrite lookup_union. destruct (m !! k) as [v|]; csimpl.
    + rewrite last_snoc. by destruct (_ !! k).
    + rewrite app_nil_r, <-IH. by destruct (_ !! k).
  - by rewrite app_nil_r, IH.
Qed.
End outputs.

(** The output of a saga under a key is that of the last of its steps, in
    the order of the answer, that was executed and whose result has the key;
    steps in other states and results that are not maps of strings count for
    nothing. *)
Theorem outputs_of_last_step parse a steps k :
  decode_answer (decode_struct (listResp_fields ApiStep_fields)) [] a = Ok steps →
  ∃ outputs, extractOutputsFromSteps parse a = Ok outputs ∧
    outputs !! k =
      last (omap (λ step, step_outputs parse executed ap_Result step ≫= lookup k) steps).
Proof.
  intros Ha. unfold extractOutputsFromSteps. rewrite Ha. eexists. split; [reflexivity|].
  apply combine_outputs_last.
Qed.

(** The result of a sub-saga that was not committed never reaches the caller,
    nor do the compensation outputs that were collected for it. *)
Theorem failed_sub_saga_has_no_result parse env e cid tmpl input key parent start turns fuel w r err :
  (SpawnAndWaitWithParent parse env e cid tmpl input key parent start turns fuel w).1 = Ret (r, Some err) →
  r = None.
Proof.
  unfold SpawnAndWaitWithParent. destruct (SubmitSubSaga _ _ _ w) as [[[sid|e1]|msg|] w']; [|naive_solver..].
  destruct (pollForCompletion _ _ _ _ _ _) as [[r' [err'|]]|msg|]; naive_solver.
Qed.

(** ** Examples *)

Definition saga_answer (state : string) : HttpAnswer :=
  HttpResponse 200 (Some (JObject [("instance_id", JString "s1"); ("state", JString state)])).

Definition step_answer (state result : string) : Json :=
  JObject [("state", JString state); ("result_data", JString result)].

(** The first two turns find nothing, then the saga runs, then it is
    committed; a turn takes two seconds. *)
Definition sample_turns (i : nat) : Turn :=
  mkTurn false (Z.of_nat i * 2 * second + 2 * second)
    (match i with
     | 0 | 1 => HttpResponse 404 None
     | 2 => saga_answer "SAGA_STATE_ENUM_RUNNING"
     | _ => saga_answer "SAGA_STATE_ENUM_COMMITTED"
     end)
    (HttpResponse 200 (Some (JObject
       [("saga_step_instances", JArray
          [step_answer "SAGA_STEP_STATE_ENUM_EXECUTION_DONE" "one";
           step_answer "SAGA_STEP_STATE_ENUM_EXECUTION_PENDING" "one";
           step_answer "SAGA_STEP_STATE_ENUM_EXECUTION_DONE" "two";
           step_answer "SAGA_STEP_STATE_ENUM_EXECUTION_DONE" "three"])]))).

Definition sample_parse (text : string) : option Json :=
  if decide (text = "one") then Some (JObject [("a", JString "1"); ("b", JString "1")])
  else if decide (text = "two") then Some (JObject [("b", JString "2")])
  else None.

Lemma sample_ticks : ticks 0 (2 * second) sample_turns.
Proof. intros i. unfold sample_turns, second. simpl. lia. Qed.

Lemma waiting_ends_witness :
  (∃ r, WaitForSagaCompletion sample_parse "http://traxctrl" "s1" (2 * second) (600 * second) 0
          sample_turns (enough_turns (2 * second) (600 * second)) = Ret r) ∧
  (∃ r, pollForCompletion sample_parse
          (mkSubSagaExecutor "http://traxctrl" (2 * second) (600 * second)) "s1" 0 sample_turns
          (enough_turns (2 * second) (600 * second)) = Ret r).
Proof.
  apply (waiting_ends sample_parse "http://traxctrl" "s1" (2 * second) (600 * second) 0 sample_turns);
    [discriminate|unfold second; lia|unfold second; lia|apply sample_ticks].
Defined.

Lemma waits_agree_witness :
  WaitForSagaCompletion sample_parse "http://traxctrl" "s1" (2 * second) (600 * second) 0 sample_turns 5 =
    Ret (Some (mkCompletionResult "s1" SagaStateEnum_Committed
      (<["a" := "1"]> (<["b" := "2"]> ∅)) ""), None) ∧
  match WaitForSagaCompletion sample_parse "http://traxctrl" "s1" (2 * second) (600 * second) 0
          sample_turns 5,
        pollForCompletion sample_parse (mkSubSagaExecutor "http://traxctrl" (2 * second) (600 * second))
          "s1" 0 sample_turns 5 with
  | Ret r, Ret r' => verdict_of r = verdict_of r'
  | Hang, Hang => True
  | Panic msg, Panic msg' => msg = msg'
  | _, _ => False
  end.
Proof.
  split; [vm_compute; reflexivity|].
  apply (waits_agree sample_parse "http://traxctrl" "s1" (2 * second) (600 * second) 0 sample_turns 5 2);
    [discriminate|eexists; vm_compute; reflexivity|unfold maxConsecutiveErrors; lia].
Defined.

(** A saga that no one has created. *)
Definition no_turns (i : nat) : Turn :=
  mkTurn false (Z.of_nat i * 2 * second) (HttpResponse 404 None) (HttpResponse 404 None).

Lemma unseen_saga_given_up_witness :
  pollForCompletion sample_parse (NewSubSagaExecutor "http://traxctrl" []) "s1" 0 no_turns 15 =
    Ret (None, Some ("sub-saga " +:+ "s1" +:+ " not found after " +:+ pretty maxConsecutiveErrors +:+
      " consecutive poll attempts")).
Proof.
  apply (unseen_saga_given_up sample_parse (NewSubSagaExecutor "http://traxctrl" []) "s1" 0 no_turns 15).
  - reflexivity.
  - intros j Hj. split; [reflexivity|]. split.
    + unfold no_turns, second, maxConsecutiveErrors in *. cbn [t_now sx_maxWaitTime NewSubSagaExecutor foldl].
      unfold second. lia.
    + intros [s Hs]. vm_compute in Hs. discriminate.
  - unfold maxConsecutiveErrors. lia.
Defined.

Lemma outputs_of_last_step_witness :
  ∃ steps, decode_answer (decode_struct (listResp_fields ApiStep_fields)) []
             (t_steps (sample_turns 3)) = Ok steps ∧
  ∃ outputs, extractOutputsFromSteps sample_parse (t_steps (sample_turns 3)) = Ok outputs ∧
    outputs !! "b" =
      last (omap (λ step, step_outputs sample_parse executed ap_Result step ≫= lookup "b") steps).
Proof.
  eexists. split; [vm_compute; reflexivity|].
  apply (outputs_of_last_step sample_parse (t_steps (sample_turns 3))). vm_compute. reflexivity.
Defined.
