(* ===== verification/Coordinator.v ===== *)
(** * The coordinator's step processing

    [processSagaStep] of [pkg/trax/coordinator.go] and the functions it is
    made of: the verified state transitions, one handler per step state, the
    validation of a saga's step states, the start of the compensation of a
    committed saga, and the two bodies that run under the saga's lock.

    A pointer to a saga or to a step that a function receives and changes is
    an argument and a part of the result.  [defer]red rollbacks are
    [in_transaction].  Log lines are left out, and the text of an error is
    kept short, since no caller looks at it. *)

From Stdlib Require Import Strings.Ascii.
From S2P Require Import Prelude GoMonad Model Naming Sequence Validation Messages Store World.

Local Open Scope go_scope.

(** ** Pure parts *)

Definition currentStepIndexIn (orderedSteps : list SagaStepInstance) (id : string) :
    option nat :=
  find_index (λ step, bool_decide (ssi_InstanceId step = id)) orderedSteps.

(** [if currentStepIndex > 0 { previousStep := orderedSteps[currentStepIndex-1] ... }] *)
Definition previousStepOf (orderedSteps : list SagaStepInstance) (i : nat) :
    option SagaStepInstance :=
  match i with 0 => None | S j => orderedSteps !! j end.

(** [if currentStepIndex < len(orderedSteps)-1 { nextStep := orderedSteps[currentStepIndex+1] ... }] *)
Definition nextStepOf (orderedSteps : list SagaStepInstance) (i : nat) :
    option SagaStepInstance := orderedSteps !! S i.

(** There is such a step and it is not in the state. *)
Definition notInState (st : SagaStepStateEnum) (o : option SagaStepInstance) : bool :=
  match o with Some step => negb (step_state_eqb (ssi_State step) st) | None => false end.

Definition emptyExecutionLog (nowTs : Z) (isCompensation : bool) : SagaStepExecutionLog :=
  mkSagaStepExecutionLog nowTs 0 0 0 0 ∅ "" isCompensation ∅.

(** A change of [lastExecutionLog], which points into the history. *)
Definition updateLastLog (f : SagaStepExecutionLog → SagaStepExecutionLog)
    (step : SagaStepInstance) : SagaStepInstance :=
  set_ssi_ExecutionHistory
    (alter f (pred (length (ssi_ExecutionHistory step))) (ssi_ExecutionHistory step)) step.

(** The input of a step: the saga's input, overlaid with the results of the
    previous steps in order; [None] when one of them is not done. *)
Fixpoint collectInput (input : gmap string string) (previousSteps : list SagaStepInstance) :
    option (gmap string string) :=
  match previousSteps with
  | [] => Some input
  | step :: previousSteps =>
      if step_state_eqb (ssi_State step) SagaStepStateEnum_ExecutionDone
      then collectInput (ssi_Result step ∪ input) previousSteps
      else None
  end.

(** The loop over the forward results, up to and including the current step;
    with it, the steps after the current one, if it was found. *)
Fixpoint forwardResults (id : string) (input : gmap string string)
    (orderedSteps : list SagaStepInstance) :
    gmap string string * option (list SagaStepInstance) :=
  match orderedSteps with
  | [] => (input, None)
  | step :: orderedSteps =>
      if bool_decide (ssi_InstanceId step = id)
      then (ssi_Result step ∪ input, Some orderedSteps)
      else forwardResults id (ssi_Result step ∪ input) orderedSteps
  end.

(** The loop over the compensation results of the later steps. *)
Fixpoint compensationResults (input : gmap string string)
    (laterSteps : list SagaStepInstance) : gmap string string :=
  match laterSteps with
  | [] => input
  | step :: laterSteps =>
      compensationResults
        (if step_state_eqb (ssi_State step) SagaStepStateEnum_CompensationDone
         then ssi_CompensationResult step ∪ input else input) laterSteps
  end.

Definition compensationInput (sagaInstance : SagaInstance) (id : string)
    (orderedSteps : list SagaStepInstance) : gmap string string :=
  match forwardResults id (si_Input sagaInstance) orderedSteps with
  | (input, Some laterSteps) => compensationResults input laterSteps
  | (input, None) => input
  end.

Fixpoint firstFailure (h : list SagaStepExecutionLog) : option string :=
  match h with
  | [] => None
  | log :: h =>
      if log_IsCompensation log then firstFailure h
      else if negb (bool_decide (log_ExecutionError log = "")) then Some (log_ExecutionError log)
      else match log_ExecutionResult log !! "error" with
           | Some errMsg =>
               if negb (bool_decide (errMsg = "")) then Some errMsg else firstFailure h
           | None => firstFailure h
           end
  end.

Definition extractCompensationReason (failedStep : SagaStepInstance) : string :=
  "step '" +:+ ssi_SagaStepTemplateId failedStep +:+ "' failed: " +:+
  default "unknown error" (firstFailure (ssi_ExecutionHistory failedStep)).

(** Every step but the one at index [i] is done. *)
Definition allOthersDone (i : nat) (orderedSteps : list SagaStepInstance) : bool :=
  forallb (λ step, step_state_eqb (ssi_State step) SagaStepStateEnum_ExecutionDone)
    (take i orderedSteps ++ drop (S i) orderedSteps).

(** The check of the sequence [COMPENSATION_DONE* EXECUTION_ABORTED*]. *)
Fixpoint compensatedSequence (seenAborted : bool) (orderedSteps : list SagaStepInstance) : bool :=
  match orderedSteps with
  | [] => true
  | step :: orderedSteps =>
      if step_state_eqb (ssi_State step) SagaStepStateEnum_ExecutionAborted
      then compensatedSequence true orderedSteps
      else if step_state_eqb (ssi_State step) SagaStepStateEnum_CompensationDone
      then if seenAborted then false else compensatedSequence seenAborted orderedSteps
      else false
  end.

(** The outcome of the body of a transaction: the value of [committed], with
    what the function returns, or of [mustInvalidateSagaInstance]. *)
Inductive verdict :=
  | Committed (followUpProcessingRequired : bool)
  | Abandoned (mustInvalidateSagaInstance : bool).

(** ** The coordinator *)

Section coordinator.
Context {St : Type} `{!Store St} (env : Env).
Context (SubComponent affinityGroup : string) (executionTimeoutMs : Z).

#[local] Notation Go := (M (World St)).

(** A handler ends with its answer, whether more processing is required,
    and with the two objects it was given as they are then. *)
Definition objects : Type := SagaInstance * SagaStepInstance.

Definition noFollowUp (o : objects) : Go (bool * objects) := ret (false, o).

(** *** State transitions *)

Definition transitSagaToState (sagaInstance : SagaInstance) (targetState : SagaStateEnum) :
    Go (result unit * SagaInstance) :=
  r <- call (UpdateSagaState sagaInstance targetState) ;;
  match r with
  | Err _ => ret (Err (Errorf "[SAGA-TRANSITION] FAILED"), sagaInstance)
  | Ok sagaInstance =>
      fresh <-? call (GetSagaInstance (si_ClusterId sagaInstance) (si_InstanceId sagaInstance))
      else _ => ret (Err (Errorf "[SAGA-TRANSITION] failed to verify"), sagaInstance) ;;
      if negb (saga_state_eqb (si_State fresh) targetState)
      then panic "the saga instance must be in the target state"
      else ret (Ok tt, sagaInstance)
  end.

Definition transitSagaStepToState (sagaInstance : SagaInstance)
    (sagaStepInstance : SagaStepInstance) (targetState : SagaStepStateEnum) :
    Go (result unit * SagaStepInstance) :=
  r <- call (UpdateSagaStepState sagaStepInstance targetState) ;;
  match r with
  | Err _ => ret (Err (Errorf "[STEP-TRANSITION] FAILED"), sagaStepInstance)
  | Ok sagaStepInstance =>
      freshInstance <-? call (GetSagaStepInstance (si_ClusterId sagaInstance)
                                (ssi_InstanceId sagaStepInstance))
      else _ => ret (Err (Errorf "[STEP-TRANSITION] failed to verify"), sagaStepInstance) ;;
      if negb (step_state_eqb (ssi_State freshInstance) targetState)
      then panic "the saga step instance must be in the target state"
      else ret (Ok tt, freshInstance)
  end.

Definition transitSagaToInvalidState sagaInstance :=
  transitSagaToState sagaInstance SagaStateEnum_InvalidState.
Definition transitSagaToBlockedState sagaInstance :=
  transitSagaToState sagaInstance SagaStateEnum_Blocked.
Definition transitSagaToCommittedState sagaInstance :=
  transitSagaToState sagaInstance SagaStateEnum_Committed.
Definition transitSagaToCompensatedState sagaInstance :=
  transitSagaToState sagaInstance SagaStateEnum_Compensated.

Definition transitSagaStepToExecutionBlockedState sagaInstance sagaStepInstance :=
  transitSagaStepToState sagaInstance sagaStepInstance SagaStepStateEnum_ExecutionBlocked.
Definition transitSagaStepToExecutionRunningState sagaInstance sagaStepInstance :=
  transitSagaStepToState sagaInstance sagaStepInstance SagaStepStateEnum_ExecutionRunning.
Definition transitSagaStepToExecutionSucceededState sagaInstance sagaStepInstance :=
  transitSagaStepToState sagaInstance sagaStepInstance SagaStepStateEnum_ExecutionSucceeded.
Definition transitSagaStepToExecutionFailedState sagaInstance sagaStepInstance :=
  transitSagaStepToState sagaInstance sagaStepInstance SagaStepStateEnum_ExecutionFailed.
Definition transitSagaStepToExecutionCandidateState sagaInstance sagaStepInstance :=
  transitSagaStepToState sagaInstance sagaStepInstance SagaStepStateEnum_ExecutionCandidate.
Definition transitSagaStepToExecutionDoneState sagaInstance sagaStepInstance :=
  transitSagaStepToState sagaInstance sagaStepInstance SagaStepStateEnum_ExecutionDone.
Definition transitSagaStepToExecutionAbortedState sagaInstance sagaStepInstance :=
  transitSagaStepToState sagaInstance sagaStepInstance SagaStepStateEnum_ExecutionAborted.
Definition transitSagaStepToCompensationPendingState sagaInstance sagaStepInstance :=
  transitSagaStepToState sagaInstance sagaStepInstance SagaStepStateEnum_CompensationPending.
Definition transitSagaStepToCompensationCandidateState sagaInstance sagaStepInstance :=
  transitSagaStepToState sagaInstance sagaStepInstance SagaStepStateEnum_CompensationCandidate.
Definition transitSagaStepToCompensationRunningState sagaInstance sagaStepInstance :=
  transitSagaStepToState sagaInstance sagaStepInstance SagaStepStateEnum_CompensationRunning.
Definition transitSagaStepToCompensationDoneState sagaInstance sagaStepInstance :=
  transitSagaStepToState sagaInstance sagaStepInstance SagaStepStateEnum_CompensationDone.
Definition transitSagaStepToCompensationBlockedState sagaInstance sagaStepInstance :=
  transitSagaStepToState sagaInstance sagaStepInstance SagaStepStateEnum_CompensationBlocked.
Definition transitSagaStepToCompensationSucceededState sagaInstance sagaStepInstance :=
  transitSagaStepToState sagaInstance sagaStepInstance SagaStepStateEnum_CompensationSucceeded.
Definition transitSagaStepToCompensationFailedState sagaInstance sagaStepInstance :=
  transitSagaStepToState sagaInstance sagaStepInstance SagaStepStateEnum_CompensationFailed.

(** *** Transactions with a deferred rollback *)

(** The second half of the deferred function: mark the saga invalid in a
    transaction of its own.  The handlers differ in whether a failing
    commit is followed by a rollback. *)
Definition invalidateSaga (rollbackFailedCommit : bool) (sagaInstance : SagaInstance) :
    Go SagaInstance :=
  _ <-? call BeginTransaction else _ => ret sagaInstance ;;
  ' (r, sagaInstance) <- transitSagaToInvalidState sagaInstance ;;
  match r with
  | Err _ => call RollbackTransaction ;;; ret sagaInstance
  | Ok _ =>
      _ <-? call CommitTransaction else _ =>
        (if rollbackFailedCommit then call RollbackTransaction ;;; ret sagaInstance
         else ret sagaInstance) ;;
      ret sagaInstance
  end.

(** [BeginTransaction], the deferred rollback, and the body.  A body that
    panics has not asked for the saga to be invalidated. *)
Definition in_transaction (rollbackFailedCommit : bool) (o : objects)
    (body : Go (verdict * objects)) : Go (bool * objects) :=
  _ <-? call BeginTransaction else _ => noFollowUp o ;;
  with_defer body
    (λ '(v, o),
      match v with
      | Committed followUp => ret (followUp, o)
      | Abandoned mustInvalidate =>
          call RollbackTransaction ;;;
          if mustInvalidate then
            sagaInstance <- invalidateSaga rollbackFailedCommit o.1 ;;
            noFollowUp (sagaInstance, o.2)
          else noFollowUp o
      end)
    (call RollbackTransaction ;;; ret tt).

Definition abandon (mustInvalidate : bool) (o : objects) : Go (verdict * objects) :=
  ret (Abandoned mustInvalidate, o).

Definition commit (followUp : bool) (o : objects) : Go (verdict * objects) :=
  _ <-? call CommitTransaction else _ => abandon false o ;;
  ret (Committed followUp, o).

(** The call of [OrderSagaStepsInSequence], which may never return. *)
Definition orderSteps (allSteps : list SagaStepInstance) : Go (list SagaStepInstance) :=
  match OrderSagaStepsInSequence allSteps with
  | Some orderedSteps => ret orderedSteps
  | None => hang
  end.

Definition listSteps (sagaInstance : SagaInstance) : Go (result (list SagaStepInstance)) :=
  call (ListSagaStepInstancesBySagaInstanceId (si_ClusterId sagaInstance)
          (si_InstanceId sagaInstance)).

(** Mark the saga invalid, outside a transaction, and stop. *)
Definition giveUp (o : objects) : Go (bool * objects) :=
  ' (_, sagaInstance) <- transitSagaToInvalidState o.1 ;;
  noFollowUp (sagaInstance, o.2).

(** *** EXECUTION_CANDIDATE *)

Definition processExecutionCandidate (o : objects) : Go (bool * objects) :=
  let '(sagaInstance, sagaStepInstance) := o in
  match ssi_ExecutionHistory sagaStepInstance with
  | _ :: _ =>
      ' (_, sagaStepInstance) <-
        transitSagaStepToExecutionBlockedState sagaInstance sagaStepInstance ;;
      noFollowUp (sagaInstance, sagaStepInstance)
  | [] =>
      allSteps <-? listSteps sagaInstance else _ => noFollowUp o ;;
      orderedSteps <- orderSteps allSteps ;;
      match currentStepIndexIn orderedSteps (ssi_InstanceId sagaStepInstance) with
      | None => giveUp o
      | Some i =>
          if notInState SagaStepStateEnum_ExecutionDone (previousStepOf orderedSteps i)
          then giveUp o
          else if notInState SagaStepStateEnum_ExecutionPending (nextStepOf orderedSteps i)
          then giveUp o
          else
            executionId <- SecureRandomString env ;;
            nowTs <- time_now env ;;
            let sagaStepInstance :=
              set_ssi_ExecutionHistory [emptyExecutionLog nowTs false]
                (set_ssi_ExecutionId executionId sagaStepInstance) in
            _ <-? call BeginTransaction
            else _ => noFollowUp (sagaInstance, sagaStepInstance) ;;
            _ <-? call (UpdateSagaStepInstanceExecutionHistory sagaStepInstance)
            else _ => (call RollbackTransaction ;;;
                       noFollowUp (sagaInstance, sagaStepInstance)) ;;
            ' (r, sagaStepInstance) <-
              transitSagaStepToExecutionRunningState sagaInstance sagaStepInstance ;;
            match r with
            | Err _ => call RollbackTransaction ;;; noFollowUp (sagaInstance, sagaStepInstance)
            | Ok _ =>
                _ <-? call (UpdateSagaStepInstanceExecutionHistory sagaStepInstance)
                else _ => (call RollbackTransaction ;;;
                           noFollowUp (sagaInstance, sagaStepInstance)) ;;
                _ <-? call CommitTransaction
                else _ => (call RollbackTransaction ;;;
                           noFollowUp (sagaInstance, sagaStepInstance)) ;;
                ret (true, (sagaInstance, sagaStepInstance))
            end
      end
  end.

(** *** EXECUTION_RUNNING *)

(** The request was sent, no later than now... *)
Definition requestSent (nowTs : Z) (log : SagaStepExecutionLog) : bool :=
  ((log_NextExecutionTs log <=? nowTs) &&
   ((0 <? log_ExecutionRequestSentTs log) && (log_ExecutionRequestSentTs log <=? nowTs)))%Z.

Definition withinTimeout (nowTs : Z) (log : SagaStepExecutionLog) : bool :=
  requestSent nowTs log &&
  ((0 <? log_ExecutionTimeoutTs log) && (nowTs <=? log_ExecutionTimeoutTs log))%Z.

Definition timedOut (nowTs : Z) (log : SagaStepExecutionLog) : bool :=
  requestSent nowTs log &&
  ((0 <? log_ExecutionTimeoutTs log) && (log_ExecutionTimeoutTs log <? nowTs))%Z.

(** ... or it is time to send it. *)
Definition readyToSend (nowTs : Z) (log : SagaStepExecutionLog) : bool :=
  ((log_NextExecutionTs log <=? nowTs) && (log_ExecutionRequestSentTs log =? 0) &&
   (log_ExecutionTimeoutTs log =? 0))%Z.

Definition waitForResult (o : objects) (nowTs : Z) (log : SagaStepExecutionLog) :
    Go (bool * objects) :=
  if (log_ExecutionResultReceivedTs log =? 0)%Z then noFollowUp o
  else if (log_ExecutionResultReceivedTs log <=? nowTs)%Z
  then panic "CRITICAL: this state should never be reached"
  else noFollowUp o.

(** The body of the timeout branch, of both running states. *)
Definition timeoutBody
    (transitToFailed : SagaInstance → SagaStepInstance → Go (result unit * SagaStepInstance))
    (nowTs : Z) (o : objects) : Go (verdict * objects) :=
  let '(sagaInstance, sagaStepInstance) := o in
  let sagaStepInstance := updateLastLog (set_log_LogConclusionTs nowTs) sagaStepInstance in
  _ <-? call (UpdateSagaStepInstanceExecutionHistory sagaStepInstance)
  else _ => abandon false (sagaInstance, sagaStepInstance) ;;
  ' (r, sagaStepInstance) <- transitToFailed sagaInstance sagaStepInstance ;;
  match r with
  | Err _ => abandon false (sagaInstance, sagaStepInstance)
  | Ok _ => commit true (sagaInstance, sagaStepInstance)
  end.

(** Publish a request with the input, note when, and commit: the end of the
    send branch of both running states. *)
Definition publishRequest (request : SagaStepRequestPayload → PayloadData)
    (input : gmap string string) (o : objects) : Go (verdict * objects) :=
  let '(sagaInstance, sagaStepInstance) := o in
  messageId <- SecureRandomString env ;;
  traceId <- SecureRandomString env ;;
  executionId <- SecureRandomString env ;;
  timestamp <- time_now env ;;
  _ <-? publish env (PubTopic (getStepTopicExchangeName (si_ClusterId sagaInstance))
          (getStepRequestRoutingKey (si_ClusterId sagaInstance) affinityGroup
             (si_SagaTemplateId sagaInstance) (ssi_SagaStepTemplateId sagaStepInstance))
          (step_request_message SubComponent messageId timestamp sagaInstance sagaStepInstance
             (request (step_request_payload affinityGroup sagaInstance sagaStepInstance input))))
  else _ => abandon false o ;;
  nowTs <- time_now env ;;
  let sagaStepInstance :=
    updateLastLog (λ log, set_log_ExecutionTimeoutTs (int64_add nowTs executionTimeoutMs)
                            (set_log_ExecutionRequestSentTs nowTs log)) sagaStepInstance in
  _ <-? call (UpdateSagaStepInstanceExecutionHistory sagaStepInstance)
  else _ => abandon false (sagaInstance, sagaStepInstance) ;;
  commit false (sagaInstance, sagaStepInstance).

Definition sendExecutionRequest (o : objects) : Go (verdict * objects) :=
  let '(sagaInstance, sagaStepInstance) := o in
  allSteps <-? listSteps sagaInstance else _ => abandon false o ;;
  match getPreviousStepsInOrder allSteps sagaStepInstance with
  | None => hang
  | Some previousSteps =>
      match collectInput (si_Input sagaInstance) previousSteps with
      | None => abandon true o
      | Some input => publishRequest SagaPayloadType_SagaStepExecutionRequest input o
      end
  end.

Definition processExecutionRunning (o : objects) : Go (bool * objects) :=
  match last (ssi_ExecutionHistory o.2) with
  | None =>
      ' (_, sagaStepInstance) <- transitSagaStepToExecutionBlockedState o.1 o.2 ;;
      noFollowUp (o.1, sagaStepInstance)
  | Some lastExecutionLog =>
      nowTs <- time_now env ;;
      if withinTimeout nowTs lastExecutionLog then waitForResult o nowTs lastExecutionLog
      else if timedOut nowTs lastExecutionLog
      then in_transaction true o
             (timeoutBody transitSagaStepToExecutionFailedState nowTs o)
      else if readyToSend nowTs lastExecutionLog
      then in_transaction true o (sendExecutionRequest o)
      else noFollowUp o
  end.

(** *** EXECUTION_SUCCEEDED *)

Definition succeededBody (o : objects) : Go (verdict * objects) :=
  let '(sagaInstance, sagaStepInstance) := o in
  allSteps <-? listSteps sagaInstance else _ => abandon false o ;;
  orderedSteps <- orderSteps allSteps ;;
  match currentStepIndexIn orderedSteps (ssi_InstanceId sagaStepInstance) with
  | None => abandon true o
  | Some i =>
      ' (r, sagaStepInstance) <-
        transitSagaStepToExecutionDoneState sagaInstance sagaStepInstance ;;
      match r, nextStepOf orderedSteps i with
      | Err _, _ => abandon false (sagaInstance, sagaStepInstance)
      | Ok _, Some nextStep =>
          if negb (step_state_eqb (ssi_State nextStep) SagaStepStateEnum_ExecutionPending)
          then abandon true (sagaInstance, sagaStepInstance)
          else
            ' (r, _) <- transitSagaStepToExecutionCandidateState sagaInstance nextStep ;;
            match r with
            | Err _ => abandon false (sagaInstance, sagaStepInstance)
            | Ok _ => commit false (sagaInstance, sagaStepInstance)
            end
      | Ok _, None =>
          if negb (allOthersDone i orderedSteps)
          then abandon true (sagaInstance, sagaStepInstance)
          else if negb (step_state_eqb (ssi_State sagaStepInstance)
                          SagaStepStateEnum_ExecutionDone)
          then abandon true (sagaInstance, sagaStepInstance)
          else
            ' (r, sagaInstance) <- transitSagaToCommittedState sagaInstance ;;
            match r with
            | Err _ => abandon false (sagaInstance, sagaStepInstance)
            | Ok _ => commit false (sagaInstance, sagaStepInstance)
            end
      end
  end.

Definition processExecutionSucceeded (o : objects) : Go (bool * objects) :=
  in_transaction false o (succeededBody o).

(** *** EXECUTION_FAILED *)

(** The two loops; [Some v] is an early return. *)
Definition abortNextSteps (sagaInstance : SagaInstance) (nextSteps : list SagaStepInstance) :
    Go (option verdict) :=
  range_loop nextSteps (λ nextStep,
    if step_state_eqb (ssi_State nextStep) SagaStepStateEnum_ExecutionAborted then ret None
    else if negb (step_state_eqb (ssi_State nextStep) SagaStepStateEnum_ExecutionPending)
    then ret None
    else
      ' (r, _) <- transitSagaStepToExecutionAbortedState sagaInstance nextStep ;;
      ret (match r with Err _ => Some (Abandoned false) | Ok _ => None end)).

Definition compensatePreviousSteps (sagaInstance : SagaInstance)
    (previousSteps : list SagaStepInstance) : Go (option verdict) :=
  range_loop previousSteps (λ prevStep,
    if negb (step_state_eqb (ssi_State prevStep) SagaStepStateEnum_ExecutionDone)
    then ret (Some (Abandoned true))
    else
      ' (r, _) <- transitSagaStepToCompensationPendingState sagaInstance prevStep ;;
      ret (match r with Err _ => Some (Abandoned false) | Ok _ => None end)).

Definition failedBody (o : objects) : Go (verdict * objects) :=
  let '(sagaInstance, sagaStepInstance) := o in
  allSteps <-? listSteps sagaInstance else _ => abandon false o ;;
  orderedSteps <- orderSteps allSteps ;;
  match currentStepIndexIn orderedSteps (ssi_InstanceId sagaStepInstance) with
  | None => abandon true o
  | Some i =>
      let sagaInstance := set_si_CompensationReason
        (extractCompensationReason sagaStepInstance) sagaInstance in
      sagaInstance <-? call (UpdateSagaState sagaInstance (si_State sagaInstance))
      else _ => abandon false (sagaInstance, sagaStepInstance) ;;
      v <- abortNextSteps sagaInstance (drop (S i) orderedSteps) ;;
      match v with
      | Some v => ret (v, (sagaInstance, sagaStepInstance))
      | None =>
          v <- compensatePreviousSteps sagaInstance (take i orderedSteps) ;;
          match v with
          | Some v => ret (v, (sagaInstance, sagaStepInstance))
          | None =>
              ' (r, sagaStepInstance) <-
                transitSagaStepToCompensationCandidateState sagaInstance sagaStepInstance ;;
              match r with
              | Err _ => abandon false (sagaInstance, sagaStepInstance)
              | Ok _ => commit true (sagaInstance, sagaStepInstance)
              end
          end
      end
  end.

Definition processExecutionFailed (o : objects) : Go (bool * objects) :=
  in_transaction false o (failedBody o).

(** *** COMPENSATION_CANDIDATE *)

(** The loop over the child sagas that this step spawned: trigger the
    compensation of the committed ones and find out whether there is one to
    wait for. *)
Fixpoint hasUncompensatedChildren (sagaStepInstanceId : string)
    (childSagas : list SagaInstance) : Go bool :=
  match childSagas with
  | [] => ret false
  | child :: childSagas =>
      if negb (bool_decide (si_ParentSagaStepInstanceId child = sagaStepInstanceId))
      then hasUncompensatedChildren sagaStepInstanceId childSagas
      else
        match si_State child with
        | SagaStateEnum_Committed =>
            call (TriggerSagaCompensation (si_ClusterId child) (si_InstanceId child)) ;;;
            hasUncompensatedChildren sagaStepInstanceId childSagas ;;; ret true
        | SagaStateEnum_Compensated => hasUncompensatedChildren sagaStepInstanceId childSagas
        | _ => hasUncompensatedChildren sagaStepInstanceId childSagas ;;; ret true
        end
  end.

Definition processCompensationCandidate (o : objects) : Go (bool * objects) :=
  let '(sagaInstance, sagaStepInstance) := o in
  allSteps <-? listSteps sagaInstance else _ => noFollowUp o ;;
  orderedSteps <- orderSteps allSteps ;;
  match currentStepIndexIn orderedSteps (ssi_InstanceId sagaStepInstance) with
  | None => giveUp o
  | Some i =>
      if notInState SagaStepStateEnum_CompensationPending (previousStepOf orderedSteps i)
      then giveUp o
      else if negb (forallb (λ nextStep,
             step_state_eqb (ssi_State nextStep) SagaStepStateEnum_ExecutionAborted ||
             step_state_eqb (ssi_State nextStep) SagaStepStateEnum_CompensationDone)
             (drop (S i) orderedSteps))
      then giveUp o
      else
        childSagas <-? call (GetChildSagaInstances (si_ClusterId sagaInstance)
                               (si_InstanceId sagaInstance))
        else _ => noFollowUp o ;;
        mustWait <- hasUncompensatedChildren (ssi_InstanceId sagaStepInstance) childSagas ;;
        if mustWait : bool then noFollowUp o
        else
          nowTs <- time_now env ;;
          let newExecutionHistory :=
            ssi_ExecutionHistory sagaStepInstance ++ [emptyExecutionLog nowTs true] in
          _ <-? call BeginTransaction else _ => noFollowUp o ;;
          ' (r, sagaStepInstance) <-
            transitSagaStepToCompensationRunningState sagaInstance sagaStepInstance ;;
          match r with
          | Err _ => call RollbackTransaction ;;; noFollowUp (sagaInstance, sagaStepInstance)
          | Ok _ =>
              let sagaStepInstance :=
                set_ssi_ExecutionHistory newExecutionHistory sagaStepInstance in
              _ <-? call (UpdateSagaStepInstanceExecutionHistory sagaStepInstance)
              else _ => (call RollbackTransaction ;;;
                         noFollowUp (sagaInstance, sagaStepInstance)) ;;
              _ <-? call CommitTransaction
              else _ => noFollowUp (sagaInstance, sagaStepInstance) ;;
              ret (true, (sagaInstance, sagaStepInstance))
          end
  end.

(** *** COMPENSATION_RUNNING *)

(** A failure to read the steps is not an error here: the request is sent
    with the saga's input. *)
Definition sendCompensationRequest (o : objects) : Go (verdict * objects) :=
  let '(sagaInstance, sagaStepInstance) := o in
  allSteps <- listSteps sagaInstance ;;
  match allSteps with
  | Err _ =>
      publishRequest SagaPayloadType_SagaStepCompensationRequest (si_Input sagaInstance) o
  | Ok allSteps =>
      orderedSteps <- orderSteps allSteps ;;
      publishRequest SagaPayloadType_SagaStepCompensationRequest
        (compensationInput sagaInstance (ssi_InstanceId sagaStepInstance) orderedSteps) o
  end.

Definition processCompensationRunning (o : objects) : Go (bool * objects) :=
  match last (ssi_ExecutionHistory o.2) with
  | None => giveUp o
  | Some lastExecutionLog =>
      nowTs <- time_now env ;;
      if negb (log_IsCompensation lastExecutionLog) then giveUp o
      else if withinTimeout nowTs lastExecutionLog then waitForResult o nowTs lastExecutionLog
      else if timedOut nowTs lastExecutionLog
      then in_transaction true o
             (timeoutBody transitSagaStepToCompensationFailedState nowTs o)
      else if readyToSend nowTs lastExecutionLog
      then in_transaction true o (sendCompensationRequest o)
      else noFollowUp o
  end.

(** *** COMPENSATION_SUCCEEDED *)

(** The second part: this step is done, and so may be the saga. *)
Definition compensationDoneBody (i : nat) (orderedSteps : list SagaStepInstance)
    (o : objects) : Go (verdict * objects) :=
  let '(sagaInstance, sagaStepInstance) := o in
  ' (r, sagaStepInstance) <-
    transitSagaStepToCompensationDoneState sagaInstance sagaStepInstance ;;
  match r with
  | Err _ => abandon false (sagaInstance, sagaStepInstance)
  | Ok _ =>
      match i with
      | S _ => commit true (sagaInstance, sagaStepInstance)
      | 0 =>
          if negb (step_state_eqb (ssi_State sagaStepInstance)
                     SagaStepStateEnum_CompensationDone)
          then abandon true (sagaInstance, sagaStepInstance)
          else if negb (compensatedSequence false (<[i := sagaStepInstance]> orderedSteps))
          then abandon true (sagaInstance, sagaStepInstance)
          else
            ' (r, sagaInstance) <- transitSagaToCompensatedState sagaInstance ;;
            match r with
            | Err _ => abandon false (sagaInstance, sagaStepInstance)
            | Ok _ => commit true (sagaInstance, sagaStepInstance)
            end
      end
  end.

Definition compensationSucceededBody (o : objects) : Go (verdict * objects) :=
  let '(sagaInstance, sagaStepInstance) := o in
  allSteps <-? listSteps sagaInstance else _ => abandon false o ;;
  orderedSteps <- orderSteps allSteps ;;
  match currentStepIndexIn orderedSteps (ssi_InstanceId sagaStepInstance) with
  | None => abandon true o
  | Some i =>
      match previousStepOf orderedSteps i with
      | Some previousStep =>
          if negb (step_state_eqb (ssi_State previousStep)
                     SagaStepStateEnum_CompensationPending)
          then abandon true o
          else
            ' (r, _) <- transitSagaStepToCompensationCandidateState sagaInstance previousStep ;;
            match r with
            | Err _ => call RollbackTransaction ;;; abandon false o
            | Ok _ => compensationDoneBody i orderedSteps o
            end
      | None => compensationDoneBody i orderedSteps o
      end
  end.

Definition processCompensationSucceeded (o : objects) : Go (bool * objects) :=
  in_transaction false o (compensationSucceededBody o).

(** *** COMPENSATION_FAILED *)

Definition compensationFailedBody (o : objects) : Go (verdict * objects) :=
  let '(sagaInstance, sagaStepInstance) := o in
  ' (r, sagaStepInstance) <-
    transitSagaStepToCompensationBlockedState sagaInstance sagaStepInstance ;;
  match r with
  | Err _ => abandon false (sagaInstance, sagaStepInstance)
  | Ok _ =>
      ' (r, sagaInstance) <- transitSagaToBlockedState sagaInstance ;;
      match r with
      | Err _ => abandon false (sagaInstance, sagaStepInstance)
      | Ok _ => commit false (sagaInstance, sagaStepInstance)
      end
  end.

Definition processCompensationFailed (o : objects) : Go (bool * objects) :=
  in_transaction false o (compensationFailedBody o).

(** *** The dispatch *)

Definition processSagaStep (o : objects) : Go (bool * objects) :=
  match ssi_State o.2 with
  | SagaStepStateEnum_ExecutionCandidate => processExecutionCandidate o
  | SagaStepStateEnum_ExecutionRunning => processExecutionRunning o
  | SagaStepStateEnum_ExecutionSucceeded => processExecutionSucceeded o
  | SagaStepStateEnum_ExecutionFailed => processExecutionFailed o
  | SagaStepStateEnum_CompensationCandidate => processCompensationCandidate o
  | SagaStepStateEnum_CompensationRunning => processCompensationRunning o
  | SagaStepStateEnum_CompensationSucceeded => processCompensationSucceeded o
  | SagaStepStateEnum_CompensationFailed => processCompensationFailed o
  | SagaStepStateEnum_ExecutionDone | SagaStepStateEnum_CompensationDone => noFollowUp o
  | _ => giveUp o
  end.

(** *** Validation *)

Definition isSagaStateValid (o : objects) : Go bool :=
  allSteps <-? listSteps o.1 else _ => ret false ;;
  match allSteps with
  | [] => ret true
  | _ =>
      orderedSteps <- orderSteps allSteps ;;
      ret (match currentStepIndexIn orderedSteps (ssi_InstanceId o.2) with
           | None => false
           | Some i => validSequence orderedSteps i
           end)
  end.

(** *** The compensation of a committed saga *)

Definition compensationReasonFor (sagaInstance : SagaInstance) : Go string :=
  if bool_decide (si_ParentSagaInstanceId sagaInstance = "")
  then ret "compensation requested for committed saga"
  else
    parentSaga <- call (GetSagaInstance (si_ClusterId sagaInstance)
                          (si_ParentSagaInstanceId sagaInstance)) ;;
    ret ("cascading from parent saga '" +:+ si_ParentSagaInstanceId sagaInstance +:+ "'" +:+
         match parentSaga with
         | Ok parentSaga =>
             if bool_decide (si_CompensationReason parentSaga = "") then ""
             else String "010"%char "  ← " +:+ si_CompensationReason parentSaga
         | Err _ => ""
         end).

Definition initiateCompensationBody (sagaInstance : SagaInstance)
    (orderedSteps : list SagaStepInstance) (lastStep : SagaStepInstance) :
    Go (verdict * objects) :=
  reason <- compensationReasonFor sagaInstance ;;
  let sagaInstance := set_si_CompensationReason reason sagaInstance in
  ' (r, lastStep) <- transitSagaStepToCompensationCandidateState sagaInstance lastStep ;;
  match r with
  | Err _ => abandon false (sagaInstance, lastStep)
  | Ok _ =>
      v <- range_loop (take (pred (length orderedSteps)) orderedSteps) (λ step,
        ' (r, _) <- transitSagaStepToCompensationPendingState sagaInstance step ;;
        ret (match r with Err _ => Some (Abandoned false) | Ok _ => None end)) ;;
      match v with
      | Some v => ret (v, (sagaInstance, lastStep))
      | None =>
          sagaInstance <-? call (UpdateSagaState sagaInstance SagaStateEnum_Running)
          else _ => abandon false (sagaInstance, lastStep) ;;
          commit false (sagaInstance, lastStep)
      end
  end.

Definition initiateCompensationForCommittedSaga (sagaInstance : SagaInstance) : Go unit :=
  allSteps <-? listSteps sagaInstance else _ => ret tt ;;
  match allSteps with
  | [] => transitSagaToInvalidState sagaInstance ;;; ret tt
  | _ =>
      orderedSteps <- orderSteps allSteps ;;
      if negb (forallb (λ step, step_state_eqb (ssi_State step)
                                  SagaStepStateEnum_ExecutionDone) orderedSteps)
      then transitSagaToInvalidState sagaInstance ;;; ret tt
      else
        match last orderedSteps with
        | None => panic "index out of range"
        | Some lastStep =>
            in_transaction true (sagaInstance, lastStep)
              (initiateCompensationBody sagaInstance orderedSteps lastStep) ;;;
            ret tt
        end
  end.

(** *** Under the saga's lock *)

(** The loop that repeats [processSagaStep] while it asks for more, at most
    eleven times. *)
Fixpoint followUpLoop (n : nat) (o : objects) : Go unit :=
  match n with
  | 0 => ret tt
  | S n =>
      ' (followUpProcessingRequired, o) <- processSagaStep o ;;
      if followUpProcessingRequired : bool then followUpLoop n o else ret tt
  end.

Definition validateAndProcess (o : objects) : Go unit :=
  valid <- isSagaStateValid o ;;
  if negb valid then transitSagaToInvalidState o.1 ;;; ret tt
  else followUpLoop 11 o.

(** Read the saga and its steps again, and find the step among them. *)
Definition refresh (clusterId sagaInstanceId sagaStepInstanceId : string) :
    Go (option objects) :=
  sagaInstance <-? call (GetSagaInstance clusterId sagaInstanceId) else _ => ret None ;;
  allSteps <-? call (ListSagaStepInstancesBySagaInstanceId clusterId sagaInstanceId)
  else _ => ret None ;;
  ret (match list_find (λ step, ssi_InstanceId step = sagaStepInstanceId) allSteps with
       | Some (_, freshSagaStepInstance) => Some (sagaInstance, freshSagaStepInstance)
       | None => None
       end).

(** What the polling loop runs for each step it has found. *)
Definition processPolledStep (clusterId : string) (sagaStepInstance : SagaStepInstance) :
    Go unit :=
  Mutex env (
    fresh <- refresh clusterId (ssi_SagaInstanceId sagaStepInstance)
               (ssi_InstanceId sagaStepInstance) ;;
    match fresh with
    | None => ret tt
    | Some o =>
        if saga_state_eqb (si_State o.1) SagaStateEnum_CompensationRequested
        then initiateCompensationForCommittedSaga o.1
        else
          match ssi_State o.2 with
          | SagaStepStateEnum_ExecutionDone
          | SagaStepStateEnum_CompensationDone
          | SagaStepStateEnum_ExecutionAborted
          | SagaStepStateEnum_CompensationBlocked
          | SagaStepStateEnum_ExecutionRunning
          | SagaStepStateEnum_CompensationRunning
          | SagaStepStateEnum_ExecutionPending
          | SagaStepStateEnum_CompensationPending => ret tt
          | _ => validateAndProcess o
          end
    end) ;;; ret tt.

Definition processStepWithMutex (sp : Spawn) : Go unit :=
  Mutex env (
    fresh <- refresh (sp_ClusterId sp) (sp_SagaInstanceId sp) (sp_SagaStepInstanceId sp) ;;
    match fresh with
    | None => ret tt
    | Some o =>
        match ssi_State o.2 with
        | SagaStepStateEnum_ExecutionDone
        | SagaStepStateEnum_CompensationDone
        | SagaStepStateEnum_ExecutionRunning
        | SagaStepStateEnum_CompensationRunning => ret tt
        | _ => validateAndProcess o
        end
    end) ;;; ret tt.
End coordinator.
