(* ===== verification/Inputs.v ===== *)
(** * What the participants are sent

    The data the coordinator puts together for a step: the input of an
    execution request, the input of a compensation request, the reason of a
    compensation, and the deadline of a request. *)

From S2P Require Import Prelude GoMonad Model Naming Sequence Validation Database Store.
From S2P Require Import World.
From S2P Require Import Coordinator.

(** ** Overlays *)

(** Maps laid over a base, the later ones over the earlier ones. *)
Definition overlay (base : gmap string string) (ms : list (gmap string string)) :
    gmap string string :=
  foldl (λ acc m, m ∪ acc) base ms.

(** The value of the last map that has one. *)
Definition last_value (k : string) (ms : list (gmap string string)) : option string :=
  last (omap (λ m : gmap string string, m !! k) ms).

Lemma overlay_app base ms ms' : overlay base (ms ++ ms') = overlay (overlay base ms) ms'.
Proof. apply foldl_app. Qed.

Lemma overlay_lookup base ms k :
  overlay base ms !! k = match last_value k ms with Some v => Some v | None => base !! k end.
Proof.
  unfold last_value. induction ms as [|m ms IH] using rev_ind; [done|].
  rewrite overlay_app, omap_app. simpl. rewrite lookup_union, IH.
  destruct (m !! k) as [v|] eqn:Hm; simpl.
  - rewrite last_snoc. by destruct (match last _ with Some _ => _ | None => _ end).
  - rewrite app_nil_r. by destruct (match last _ with Some _ => _ | None => _ end).
Qed.

Lemma collectInput_overlay input steps :
  collectInput input steps =
  if forallb (λ x, step_state_eqb (ssi_State x) SagaStepStateEnum_ExecutionDone) steps
  then Some (overlay input (ssi_Result <$> steps)) else None.
Proof.
  revert input. induction steps as [|x steps IH]; intros input; [done|]. csimpl.
  destruct (step_state_eqb _ _); simpl; [apply IH|done].
Qed.

Lemma forwardResults_at pre x post input :
  (∀ y, y ∈ pre → ssi_InstanceId y ≠ ssi_InstanceId x) →
  forwardResults (ssi_InstanceId x) input (pre ++ x :: post) =
  (overlay input (ssi_Result <$> pre ++ [x]), Some post).
Proof.
  revert input. induction pre as [|y pre IH]; intros input Hne; simpl.
  - by rewrite bool_decide_true.
  - rewrite bool_decide_false by (apply Hne; by left). rewrite IH; [done|].
    intros z Hz. apply Hne. by right.
Qed.

(** The compensation results of the steps that are compensated. *)
Definition compensated_results (steps : list SagaStepInstance) : list (gmap string string) :=
  omap (λ x, if step_state_eqb (ssi_State x) SagaStepStateEnum_CompensationDone
             then Some (ssi_CompensationResult x) else None) steps.

Lemma compensationResults_overlay input steps :
  compensationResults input steps = overlay input (compensated_results steps).
Proof.
  revert input. induction steps as [|x steps IH]; intros input; [done|]. csimpl.
  unfold compensated_results. csimpl. by destruct (step_state_eqb _ _); rewrite IH.
Qed.

(** ** Failures *)

(** The failure a log tells of. *)
Definition failure_of (log : SagaStepExecutionLog) : option string :=
  if log_IsCompensation log then None
  else if decide (log_ExecutionError log = "")
  then match log_ExecutionResult log !! "error" with
       | Some "" | None => None
       | Some e => Some e
       end
  else Some (log_ExecutionError log).

Lemma firstFailure_head h : firstFailure h = head (omap failure_of h).
Proof.
  induction h as [|log h IH]; [done|]. csimpl. unfold failure_of.
  destruct (log_IsCompensation log); [done|].
  destruct (decide (log_ExecutionError log = "")) as [He|He].
  - rewrite bool_decide_true by done. simpl.
    destruct (log_ExecutionResult log !! "error") as [[|c e]|]; [done| |done].
    by rewrite bool_decide_false.
  - by rewrite bool_decide_false.
Qed.

(** ** Properties *)

(** The input of an execution request exists exactly when all previous
    steps are done; each value in it comes from the last previous step whose
    result has it, or else from the input of the saga. *)
Theorem collectInput_overlays input steps :
  (is_Some (collectInput input steps) ↔ Forall Done steps) ∧
  ∀ m k, collectInput input steps = Some m →
    m !! k = match last_value k (ssi_Result <$> steps) with
             | Some v => Some v
             | None => input !! k
             end.
Proof.
  rewrite collectInput_overlay.
  destruct (forallb _ steps) eqn:Hd.
  - apply forallb_in_state in Hd. split; [by split; [|eauto]|].
    intros m k [= <-]. apply overlay_lookup.
  - split; [|done]. split; [by intros []|].
    intros Hf%forallb_in_state. congruence.
Qed.

(** The input of a compensation request: each value comes from the last
    later step that is compensated and whose compensation result has it, or
    else from the forward result of the step or the last step before it that
    has it, or else from the input of the saga. *)
Theorem compensationInput_overlays g pre x post k :
  NoDup (ssi_InstanceId <$> pre ++ x :: post) →
  compensationInput g (ssi_InstanceId x) (pre ++ x :: post) !! k =
  match last_value k (compensated_results post) with
  | Some v => Some v
  | None =>
      match last_value k (ssi_Result <$> pre ++ [x]) with
      | Some v => Some v
      | None => si_Input g !! k
      end
  end.
Proof.
  intros Hnd. unfold compensationInput. rewrite forwardResults_at.
  - rewrite compensationResults_overlay, overlay_lookup. by rewrite overlay_lookup.
  - intros y Hy Heq. rewrite fmap_app in Hnd. csimpl in Hnd.
    apply NoDup_app in Hnd as (_ & Hd & _). apply (Hd (ssi_InstanceId y)).
    + apply list_elem_of_fmap. eauto.
    + rewrite Heq. by left.
Qed.

Lemma compensationInput_overlays_witness :
  compensationInput (sample_saga SagaStateEnum_Running "") "b"
    (sample_steps SagaStepStateEnum_CompensationPending SagaStepStateEnum_CompensationRunning
       SagaStepStateEnum_CompensationDone) !! "amount" = Some "10".
Proof.
  rewrite (compensationInput_overlays (sample_saga SagaStateEnum_Running "")
    [sample_step "a" "" "b" SagaStepStateEnum_CompensationPending []]
    (sample_step "b" "a" "c" SagaStepStateEnum_CompensationRunning [])
    [sample_step "c" "b" "" SagaStepStateEnum_CompensationDone []]);
    [reflexivity|apply (bool_decide_unpack _); vm_compute; exact I].
Defined.

(** The reason of a compensation names the failed step and the first
    failure in its history that is not one of a compensation. *)
Theorem extractCompensationReason_first x :
  extractCompensationReason x =
  "step '" +:+ ssi_SagaStepTemplateId x +:+ "' failed: " +:+
  default "unknown error" (head (omap failure_of (ssi_ExecutionHistory x))).
Proof. unfold extractCompensationReason. by rewrite firstFailure_head. Qed.

(** The log of a request that is sent at [now]. *)
Definition log_sent (now executionTimeoutMs : Z) (log : SagaStepExecutionLog) :
    SagaStepExecutionLog :=
  set_log_ExecutionTimeoutTs (int64_add now executionTimeoutMs)
    (set_log_ExecutionRequestSentTs now log).

(** A request sent at [now] is given up at [later] exactly when more than
    the timeout has passed, if the deadline fits into 64 bits; when the sum
    overflows, the deadline is negative and the request is never given up. *)
Theorem timeout_deadline now executionTimeoutMs later log :
  (0 < now < 2 ^ 63)%Z → (0 < executionTimeoutMs < 2 ^ 63)%Z →
  (log_NextExecutionTs log ≤ now)%Z → (now ≤ later)%Z →
  timedOut later (log_sent now executionTimeoutMs log) =
  bool_decide (now + executionTimeoutMs < 2 ^ 63 ∧ now + executionTimeoutMs < later)%Z.
Proof.
  intros Hn Ht Hl Hle. unfold timedOut, requestSent, log_sent. simpl.
  rewrite (proj2 (Z.leb_le (log_NextExecutionTs log) later)) by lia.
  rewrite (proj2 (Z.ltb_lt 0 now)) by lia.
  rewrite (proj2 (Z.leb_le _ _) Hle). simpl. unfold int64_add.
  destruct (Z.lt_ge_cases (now + executionTimeoutMs) (2 ^ 63)) as [Hs|Hs].
  - rewrite wrap64_id by (unfold in_int64; lia).
    rewrite (proj2 (Z.ltb_lt 0 (now + executionTimeoutMs))) by lia. simpl.
    destruct (Z.ltb_spec (now + executionTimeoutMs) later);
      [rewrite bool_decide_true by lia|rewrite bool_decide_false by lia]; done.
  - rewrite bool_decide_false by lia. apply andb_false_iff. left. apply Z.ltb_ge.
    unfold wrap64. rewrite <-(Z.mod_unique (now + executionTimeoutMs + 2 ^ 63) (2 ^ 64) 1
      (now + executionTimeoutMs + 2 ^ 63 - 2 ^ 64)); lia.
Qed.

Lemma timeout_deadline_witness :
  timedOut 901001 (log_sent 1000 900000 (sample_log 0 0 false)) = true.
Proof.
  rewrite (timeout_deadline 1000 900000 901001 (sample_log 0 0 false));
    [reflexivity|lia|lia|simpl; lia|lia].
Defined.
