(* ===== verification/Results.v ===== *)
(** * The coordinator's processing of execution results

    [processSagaStepExecutionResult] of [pkg/trax/coordinator.go] and the
    callback of the results queue that calls it. *)

From S2P Require Import Prelude GoMonad Model Naming Store Messages World Coordinator.

Local Open Scope go_scope.

(** The states in which a result is late or a duplicate. *)
Definition ignoresResult (state : SagaStepStateEnum) : bool :=
  match state with
  | SagaStepStateEnum_ExecutionSucceeded
  | SagaStepStateEnum_ExecutionDone
  | SagaStepStateEnum_ExecutionFailed
  | SagaStepStateEnum_ExecutionAborted
  | SagaStepStateEnum_ExecutionBlocked
  | SagaStepStateEnum_CompensationPending
  | SagaStepStateEnum_CompensationCandidate
  | SagaStepStateEnum_CompensationSucceeded
  | SagaStepStateEnum_CompensationDone
  | SagaStepStateEnum_CompensationFailed => true
  | _ => false
  end.

(** The state a result moves the step to and the reason given to the
    goroutine that is started then; [None] for a status that changes
    nothing. *)
Definition resultTransition (isCompensation : bool) (status : ExecutionResultStatusEnum) :
    option (SagaStepStateEnum * string) :=
  match status with
  | ExecutionResultStatusEnum_Success =>
      Some (if isCompensation
            then (SagaStepStateEnum_CompensationSucceeded, "COMPENSATION_SUCCEEDED")
            else (SagaStepStateEnum_ExecutionSucceeded, "EXECUTION_SUCCEEDED"))
  | ExecutionResultStatusEnum_Failed
  | ExecutionResultStatusEnum_Error
  | ExecutionResultStatusEnum_Retry =>
      Some (if isCompensation
            then (SagaStepStateEnum_CompensationFailed, "COMPENSATION_FAILED")
            else (SagaStepStateEnum_ExecutionFailed, "EXECUTION_FAILED"))
  | ExecutionResultStatusEnum_InExecution => None
  | ExecutionResultStatusEnum_Unknown
  | ExecutionResultStatusEnum_Other _ =>
      Some (if isCompensation
            then (SagaStepStateEnum_CompensationFailed, "COMPENSATION_FAILED_UNKNOWN")
            else (SagaStepStateEnum_ExecutionFailed, "EXECUTION_FAILED_UNKNOWN"))
  end.

(** [committed], and if it is false the saga to invalidate: [Some] when
    [mustInvalidateSagaInstance && sagaInstance != nil]. *)
Inductive ending :=
  | WasCommitted
  | NotCommitted (toInvalidate : option SagaInstance).

Section results.
Context {St : Type} `{!Store St} (env : Env).

#[local] Notation Go := (M (World St)).

Definition failWith (msg : string) : Go (result unit * ending) :=
  ret (Err (Errorf msg), NotCommitted None).

Definition commitResult : Go (result unit * ending) :=
  _ <-? call CommitTransaction else _ => failWith "failed to commit transaction" ;;
  ret (Ok tt, WasCommitted).

(** [select { case <-timeoutCtx.Done(): return ...; default: }] *)
Definition unlessCancelled (k : Go (result unit * ending)) : Go (result unit * ending) :=
  done <- ctx_done env ;;
  if done : bool then failWith "saga processing cancelled" else k.

(** Keep the result in the field for results of its kind. *)
Definition storeResult (isCompensationResult : bool)
    (executionResult : SagaStepExecutionResultPayload) (sagaStepInstance : SagaStepInstance) :
    Go (result unit * SagaStepInstance) :=
  if isCompensationResult then
    let sagaStepInstance :=
      set_ssi_CompensationResult (er_ExecutionResult executionResult) sagaStepInstance in
    r <- call (UpdateSagaStepCompensationResult sagaStepInstance) ;;
    ret (r, sagaStepInstance)
  else
    let sagaStepInstance :=
      set_ssi_Result (er_ExecutionResult executionResult) sagaStepInstance in
    r <- call (UpdateSagaStepResult sagaStepInstance) ;;
    ret (r, sagaStepInstance).

(** The switch over the status. *)
Definition transitByResult (isCompensation : bool)
    (executionResult : SagaStepExecutionResultPayload) (sagaInstance : SagaInstance)
    (sagaStepInstance : SagaStepInstance) : Go (result unit * ending) :=
  match resultTransition isCompensation (er_Status executionResult) with
  | None => unlessCancelled commitResult
  | Some (targetState, reason) =>
      ' (r, _) <- transitSagaStepToState sagaInstance sagaStepInstance targetState ;;
      match r with
      | Err _ => failWith "failed to transition"
      | Ok _ =>
          spawn (mkSpawn (si_ClusterId sagaInstance) (er_SagaInstanceId executionResult)
                   (er_SagaStepInstanceId executionResult) reason) ;;;
          unlessCancelled commitResult
      end
  end.

(** From the update of the result data on. *)
Definition applyResult (executionResult : SagaStepExecutionResultPayload)
    (sagaInstance : SagaInstance) (sagaStepInstance : SagaStepInstance) :
    Go (result unit * ending) :=
  let isCompensationResult :=
    match last (ssi_ExecutionHistory sagaStepInstance) with
    | Some log => log_IsCompensation log
    | None => false
    end in
  ' (r, sagaStepInstance) <-
    storeResult isCompensationResult executionResult sagaStepInstance ;;
  match r with
  | Err _ => failWith "failed to update saga step result"
  | Ok _ =>
      match last (ssi_ExecutionHistory sagaStepInstance) with
      | None =>
          ret (Err (Errorf "CRITICAL: saga step has no execution history but received execution result"),
               NotCommitted (Some sagaInstance))
      | Some lastExecutionLog =>
          nowTs <- time_now env ;;
          let sagaStepInstance :=
            updateLastLog (λ log, set_log_LogConclusionTs nowTs
              (set_log_ExecutionResult (er_ExecutionResult executionResult)
                 (set_log_ExecutionResultReceivedTs nowTs log))) sagaStepInstance in
          _ <-? call (UpdateSagaStepInstanceExecutionHistory sagaStepInstance)
          else _ => failWith "failed to update saga step execution history" ;;
          unlessCancelled
            (transitByResult (log_IsCompensation lastExecutionLog) executionResult
               sagaInstance sagaStepInstance)
      end
  end.

Definition resultBody (clusterId : string)
    (executionResult : SagaStepExecutionResultPayload) : Go (result unit * ending) :=
  r <- call (GetSagaStepInstance clusterId (er_SagaStepInstanceId executionResult)) ;;
  match r with
  | Err ErrSagaStepInstanceNotFound => ret (Ok tt, NotCommitted None)
  | Err _ => failWith "failed to get saga step instance"
  | Ok sagaStepInstance =>
      unlessCancelled (
        if ignoresResult (ssi_State sagaStepInstance) then commitResult
        else
          r <- call (GetSagaInstance clusterId (er_SagaInstanceId executionResult)) ;;
          match r with
          | Err ErrSagaInstanceNotFound => ret (Ok tt, NotCommitted None)
          | Err _ => failWith "failed to get saga instance"
          | Ok sagaInstance =>
              unlessCancelled (applyResult executionResult sagaInstance sagaStepInstance)
          end)
  end.

(** A context that is done before the rollback is deferred leaves the
    transaction open. *)
Definition processSagaStepExecutionResult (clusterId : string)
    (executionResult : SagaStepExecutionResultPayload) : Go (result unit) :=
  _ <-? call BeginTransaction else _ => ret (Err (Errorf "failed to begin transaction")) ;;
  done <- ctx_done env ;;
  if done : bool
  then ret (Err (Errorf "saga processing cancelled after BeginTransaction"))
  else
    with_defer (resultBody clusterId executionResult)
      (λ '(r, e),
        match e with
        | WasCommitted => ret r
        | NotCommitted toInvalidate =>
            call RollbackTransaction ;;;
            match toInvalidate with
            | None => ret r
            | Some sagaInstance => invalidateSaga true sagaInstance ;;; ret r
            end
        end)
      (call RollbackTransaction ;;; ret tt).

(** The callback of the results queue; [None] is a body that is not the
    JSON of a message. *)
Definition consumeResult (clusterId : string) (isTraxMessage : bool)
    (body : option TraxMessage) : Go (result unit) :=
  if negb isTraxMessage then ret (Ok tt)
  else
    match body with
    | None => ret (Ok tt)
    | Some msg =>
        match msg_Payloads msg with
        | [] => ret (Ok tt)
        | p :: _ =>
            match pl_Data p with
            | SagaPayloadType_SagaStepExecutionResult executionResult =>
                if decide (er_Status executionResult = ExecutionResultStatusEnum_InExecution)
                then ret (Ok tt)
                else processSagaStepExecutionResult clusterId executionResult
            | _ => ret (Ok tt)
            end
        end
    end.
End results.

(** ** The coordinator's processing of saga submissions

    The callback that [followSagaSubmitterIfNeeded] of
    [pkg/trax/coordinator.go] installs on a submitter's outbox: it creates the
    saga and its steps from the templates, in one transaction, and answers the
    submitter. *)

Local Open Scope go_scope.

Section submission.
Context {St : Type} `{!Store St} (env : Env).
Context (SubComponent affinityGroup : string).
(** [getSagaSubmitterInboxNodeNames(c.mqClient, ...)], the publish node. *)
Context (submitterInboxNodeName : string → string → string).

#[local] Notation Go := (M (World St)).

(** The saga as the request describes it, with no steps yet. *)
Definition newSagaInstance (executionId : string) (msg : TraxMessage)
    (payload : SagaSubmissionRequestPayload) (sagaTemplate : SagaTemplate) : SagaInstance :=
  let instanceId := sr_SagaInstanceId payload in
  mkSagaInstance instanceId (msg_ClusterId msg) (sr_ZoneId payload) (msg_TraceId msg)
    executionId (msg_Issuer msg) (msg_Origin msg) (msg_OriginIdempotencyKey msg)
    ∅ (st_Tags sagaTemplate) (msg_Metadata msg) SagaStateEnum_Running
    (sr_SagaTemplateId payload) (sr_SagaInput payload) []
    (sr_ParentSagaInstanceId payload) (sr_ParentSagaStepInstanceId payload)
    (if bool_decide (sr_RootSagaInstanceId payload = "") then instanceId
     else sr_RootSagaInstanceId payload)
    (sr_SagaDepth payload) "" None 0 0.

Definition newSagaStepInstance (instanceId executionId : string) (msg : TraxMessage)
    (payload : SagaSubmissionRequestPayload) (sagaStepTemplateId : string)
    (sagaStepTemplate : SagaStepTemplate) (state : SagaStepStateEnum) : SagaStepInstance :=
  mkSagaStepInstance instanceId (msg_ClusterId msg) (sr_ZoneId payload)
    (sr_SagaInstanceId payload) (msg_TraceId msg) executionId
    (sst_Labels sagaStepTemplate) (sst_Tags sagaStepTemplate) (sst_Metadata sagaStepTemplate)
    affinityGroup state ∅ ∅ (sr_SagaTemplateId payload) sagaStepTemplateId "" "" [] 0 0.

(** The loop over the step templates; the first step is the candidate. *)
Fixpoint buildSteps (msg : TraxMessage) (payload : SagaSubmissionRequestPayload)
    (state : SagaStepStateEnum) (sagaStepTemplateIds : list string) :
    Go (result (list SagaStepInstance)) :=
  match sagaStepTemplateIds with
  | [] => ret (Ok [])
  | sagaStepTemplateId :: sagaStepTemplateIds =>
      sagaStepTemplate <-? call (GetSagaStepTemplate sagaStepTemplateId)
      else _ => (call RollbackTransaction ;;;
                 ret (Err (Errorf "failed to get saga step template"))) ;;
      instanceId <- SecureRandomString env ;;
      executionId <- SecureRandomString env ;;
      rest <-? buildSteps msg payload SagaStepStateEnum_ExecutionPending sagaStepTemplateIds
      else e => ret (Err e) ;;
      ret (Ok (newSagaStepInstance instanceId executionId msg payload sagaStepTemplateId
                 sagaStepTemplate state :: rest))
  end.

(** The loop that sets the links. *)
Fixpoint linkSteps (previous : string) (steps : list SagaStepInstance) :
    list SagaStepInstance :=
  match steps with
  | [] => []
  | step :: steps =>
      set_ssi_NextSagaStepInstanceId
        (match steps with
         | [] => ssi_NextSagaStepInstanceId step
         | next :: _ => ssi_InstanceId next
         end)
        (set_ssi_PreviousSagaStepInstanceId previous step)
        :: linkSteps (ssi_InstanceId step) steps
  end.

(** The loop that saves the steps; a step that exists is skipped. *)
Fixpoint saveSteps (steps : list SagaStepInstance) : Go (result unit) :=
  match steps with
  | [] => ret (Ok tt)
  | step :: steps =>
      _ <-? call (SaveSagaStepInstanceIdempotently step)
      else _ => (call RollbackTransaction ;;;
                 ret (Err (Errorf "failed to save saga step instance idempotently"))) ;;
      saveSteps steps
  end.

(** [logic()]; [ready] is the value of [c.IsReady(ctx)]. *)
Definition submitSaga (ready : bool) (msg : TraxMessage)
    (payload : option SagaSubmissionRequestPayload) : Go (result unit) :=
  if negb ready then ret (Err (Errorf "coordinator is not ready to accept saga submissions"))
  else
    match payload with
    | None => ret (Err (Errorf "failed to unmarshal SagaSubmissionRequestPayload"))
    | Some payload =>
        _ <-? call BeginTransaction
        else _ => ret (Err (Errorf "failed to begin transaction")) ;;
        sagaTemplate <-? call (GetSagaTemplate (sr_SagaTemplateId payload))
        else _ => (call RollbackTransaction ;;;
                   ret (Err (Errorf "failed to get saga template"))) ;;
        executionId <- SecureRandomString env ;;
        let sagaInstance := newSagaInstance executionId msg payload sagaTemplate in
        steps <-? buildSteps msg payload SagaStepStateEnum_ExecutionCandidate
                    (st_SagaStepTemplateIds sagaTemplate)
        else e => ret (Err e) ;;
        let sagaInstance := set_si_SagaInstanceIds (ssi_InstanceId <$> steps) sagaInstance in
        let steps := linkSteps "" steps in
        saved <-? call (SaveSagaInstanceIdempotently sagaInstance)
        else _ => (call RollbackTransaction ;;;
                   ret (Err (Errorf "failed to save saga instance idempotently"))) ;;
        r <- (if saved : bool then saveSteps steps else ret (Ok tt)) ;;
        match r with
        | Err e => ret (Err e)
        | Ok _ =>
            _ <-? call CommitTransaction
            else _ => ret (Err (Errorf "failed to commit transaction")) ;;
            ret (Ok tt)
        end
    end.

(** The answer goes to the submitter's inbox. *)
Definition reply (msg : TraxMessage) (d : PayloadData) : Go (result unit) :=
  messageId <- SecureRandomString env ;;
  traceId <- SecureRandomString env ;;
  executionId <- SecureRandomString env ;;
  timestamp <- time_now env ;;
  publish env (PubNode (submitterInboxNodeName (msg_ClusterId msg) (msg_Submitter msg))
    (submission_reply_message SubComponent affinityGroup messageId timestamp msg d)).

(** The end of the callback: the answer to [msg], whose first payload is
    [p]. *)
Definition answerSubmission (msg : TraxMessage) (p : Payload) (r : result unit) :
    Go (result unit) :=
  reply msg
    (match r with
     | Err e => SagaPayloadType_SagaSubmissionFailure (msg_Submitter msg) p [error_text e] "{}"
     | Ok _ => SagaPayloadType_SagaSubmissionSuccess (msg_Submitter msg) p "{}"
     end).

(** The callback.  A message without payloads is an index out of range. *)
Definition consumeSubmission (ready : bool) (msg : TraxMessage) : Go (result unit) :=
  match msg_Payloads msg with
  | [] => panic "index out of range"
  | p :: _ =>
      match pl_Data p with
      | SagaPayloadType_SagaSubmissionRequest payload =>
          r <- submitSaga ready msg (Some payload) ;;
          answerSubmission msg p r
      | PayloadData_Other type _ =>
          if bool_decide (type = SagaSubmissionRequestType) then
            r <- submitSaga ready msg None ;;
            answerSubmission msg p r
          else ret (Ok tt)
      | _ => ret (Ok tt)
      end
  end.
End submission.
