(* ===== verification/ExecutorPool.v ===== *)
(** * The executor's goroutines

    [perform] does one action, [run] does a goroutine's actions one after the
    other, [pool_step] lets the goroutines of a process take turns in any order,
    receive messages, and die with the process.  The theorems: the service is
    never run twice at once for one key, the guard forgets no key, and every
    request is answered, with an answer the coordinator understands. *)

From S2P Require Import Prelude GoMonad Model Naming Json Messages World Results Executor.

(** ** Performing actions *)

Record ExState := mkExState {
  exs_exec : gmap string InFlightEntry;
  exs_comp : gmap string InFlightEntry;
  exs_published : list Published;
}.

Definition inFlight (comp : bool) (st : ExState) : gmap string InFlightEntry :=
  if comp then exs_comp st else exs_exec st.

Definition set_inFlight (comp : bool) (m : gmap string InFlightEntry) (st : ExState) : ExState :=
  if comp then mkExState (exs_exec st) m (exs_published st)
  else mkExState m (exs_comp st) (exs_published st).

Definition send (p : Published) (st : ExState) : ExState :=
  mkExState (exs_exec st) (exs_comp st) (exs_published st ++ [p]).

(** What the surroundings say when an action asks them. *)
Record Answer := mkAnswer {
  ans_status : result SagaIdempotencyKeyStatusEnum;
  ans_service : result (option IdempotentServiceExecutionResult);
  ans_mq : MqOutcome;
  ans_messageId : string;
  ans_now : Z;
}.

Definition complete_entry (status : ExecutionResultStatusEnum) (res : gmap string string)
    (_ : InFlightEntry) : InFlightEntry := mkInFlightEntry true status res.

(** One action: what remains to be done, the goroutines started, the new
    state. *)
Definition perform (ans : Answer) (a : action) (st : ExState) :
    option (action * list action * ExState) :=
  match a with
  | Finished _ | Crash _ => None
  | GetStatus _ _ k => Some (k (ans_status ans), [], st)
  | Guard comp key register k =>
      match inFlight comp st !! key with
      | Some _ => Some (k AlreadyInFlight, [], st)
      | None =>
          if register
          then Some (k Registered, [], set_inFlight comp (<[key := new_entry]> (inFlight comp st)) st)
          else Some (k NotRegistered, [], st)
      end
  | CallService _ _ _ _ k => Some (k (ans_service ans), [], st)
  | Complete comp key status res k =>
      Some (k, [], set_inFlight comp (alter (complete_entry status res) key (inFlight comp st)) st)
  | Unregister comp key k => Some (k, [], set_inFlight comp (delete key (inFlight comp st)) st)
  | Publish exchange routingKey m k =>
      let p := PubTopic exchange routingKey (m (ans_messageId ans) (ans_now ans)) in
      match ans_mq ans with
      | MqSent => Some (k (Ok tt), [], send p st)
      | MqNotSent => Some (k (Err (Errorf "failed to publish")), [], st)
      | MqSentWithError => Some (k (Err (Errorf "failed to publish")), [], send p st)
      end
  | Start g k => Some (k, [g], st)
  end.

(** A goroutine by itself: how it ends, the goroutines it has started, the
    state it leaves. *)
Fixpoint run (ans : nat → Answer) (n : nat) (a : action) (st : ExState) :
    outcome (result unit) * list action * ExState :=
  match a with
  | Finished r => (Ret r, [], st)
  | Crash msg => (Panic msg, [], st)
  | GetStatus _ _ k => run ans (S n) (k (ans_status (ans n))) st
  | Guard comp key register k =>
      match inFlight comp st !! key with
      | Some _ => run ans (S n) (k AlreadyInFlight) st
      | None =>
          if register
          then run ans (S n) (k Registered)
                 (set_inFlight comp (<[key := new_entry]> (inFlight comp st)) st)
          else run ans (S n) (k NotRegistered) st
      end
  | CallService _ _ _ _ k => run ans (S n) (k (ans_service (ans n))) st
  | Complete comp key status res k =>
      run ans (S n) k
        (set_inFlight comp (alter (complete_entry status res) key (inFlight comp st)) st)
  | Unregister comp key k =>
      run ans (S n) k (set_inFlight comp (delete key (inFlight comp st)) st)
  | Publish exchange routingKey m k =>
      let p := PubTopic exchange routingKey (m (ans_messageId (ans n)) (ans_now (ans n))) in
      match ans_mq (ans n) with
      | MqSent => run ans (S n) (k (Ok tt)) (send p st)
      | MqNotSent => run ans (S n) (k (Err (Errorf "failed to publish"))) st
      | MqSentWithError => run ans (S n) (k (Err (Errorf "failed to publish"))) (send p st)
      end
  | Start g k => let '(o, gs, st) := run ans (S n) k st in (o, g :: gs, st)
  end.

(** ** The process *)

Record Pool := mkPool {
  p_state : ExState;
  p_goroutines : list action;
  p_received : list TraxMessage;
}.

Definition crashed (a : action) : bool := match a with Crash _ => true | _ => false end.
Definition finished (a : action) : bool := match a with Finished _ => true | _ => false end.

Section pool.
Context (parse : string → option Json) (SubComponent : string) (e : Executor).

(** A message comes in; a goroutine does something, unless one has panicked,
    which ends the process; the process dies and is started again, without
    its memory. *)
Inductive pool_step : Pool → Pool → Prop :=
  | step_receive p msg :
      pool_step p (mkPool (p_state p)
        (p_goroutines p ++ [handleMessage parse SubComponent e msg]) (p_received p ++ [msg]))
  | step_perform st l a k ans a' started st' received :
      forallb (λ b, negb (crashed b)) (l ++ a :: k) = true →
      perform ans a st = Some (a', started, st') →
      pool_step (mkPool st (l ++ a :: k) received)
        (mkPool st' (l ++ a' :: k ++ started) received)
  | step_restart p :
      pool_step p (mkPool (mkExState ∅ ∅ (exs_published (p_state p))) [] (p_received p)).

Definition initial_pool : Pool := mkPool (mkExState ∅ ∅ []) [] [].

Definition pool_reachable (p : Pool) : Prop := rtc pool_step initial_pool p.
End pool.

(** ** Who holds a key *)

(** [safe h a]: a goroutine that holds the key [h], if any, uses it properly
    in all it may do: it calls the service only for the key it holds, gives
    the key back or hands it to the goroutine it starts, and holds none in the
    end. *)
Fixpoint safe (h : option (bool * string)) (a : action) : Prop :=
  match a with
  | Finished _ => h = None
  | Crash _ => True
  | GetStatus _ _ k => ∀ r, safe h (k r)
  | Guard comp key register k =>
      h = None ∧ safe None (k AlreadyInFlight) ∧ safe None (k NotRegistered) ∧
      (register = true → safe (Some (comp, key)) (k Registered))
  | CallService comp _ key _ k => h = Some (comp, key) ∧ ∀ r, safe h (k r)
  | Complete comp key _ _ k => h = Some (comp, key) ∧ safe h k
  | Unregister comp key k => h = Some (comp, key) ∧ safe None k
  | Publish _ _ _ k => ∀ r, safe h (k r)
  | Start g k => safe h g ∧ safe None k
  end.

Section safe.
Context (parse : string → option Json) (SubComponent : string) (e : Executor).

Lemma answerExecution_safe msg req s m : safe None (answerExecution SubComponent e msg req s m).
Proof. by intros [|]. Qed.

Lemma answerCompensation_safe msg req s m :
  safe None (answerCompensation SubComponent e msg req s m).
Proof. by intros [|]. Qed.

Lemma detachExecution_safe key msg req :
  safe (Some (false, key)) (detachExecution SubComponent e key msg req).
Proof.
  simpl. split; [done|]. intros r. by destruct (service_outcome _ _ _ r) as [[s m]|]; simpl.
Qed.

Lemma executeRegistered_safe key msg req :
  safe (Some (false, key)) (executeRegistered parse SubComponent e key msg req).
Proof.
  unfold executeRegistered. destruct (isSubSagaExecutor e).
  - split; [apply detachExecution_safe|apply answerExecution_safe].
  - split; [done|]. intros r.
    destruct (service_outcome _ _ _ r) as [[s m]|]; [|done].
    split; [done|]. split; [done|]. apply answerExecution_safe.
Qed.

Lemma handleExecutionRequest_safe msg req :
  safe None (handleExecutionRequest parse SubComponent e msg req).
Proof.
  intros [s|err]; [|apply answerExecution_safe].
  destruct (status_handled s); [|apply answerExecution_safe].
  split_and!; [done|apply answerExecution_safe..|].
  intros _. apply executeRegistered_safe.
Qed.

Lemma handleCompensationRequest_safe msg req :
  safe None (handleCompensationRequest parse SubComponent e msg req).
Proof.
  intros [s|err]; [|apply answerCompensation_safe].
  destruct (status_handled s); [|apply answerCompensation_safe].
  split_and!; [done|apply answerCompensation_safe..|].
  intros _. split; [done|]. intros r.
  destruct (service_outcome _ _ _ r) as [[s' m]|]; [|done].
  split; [done|]. split; [done|]. apply answerCompensation_safe.
Qed.

Lemma handleMessage_safe msg : safe None (handleMessage parse SubComponent e msg).
Proof.
  unfold handleMessage. destruct (msg_Payloads msg) as [|p l]; [done|].
  destruct (pl_Data p); try done;
    [apply handleExecutionRequest_safe|apply handleCompensationRequest_safe].
Qed.
End safe.

(** ** The in-flight guard *)

Definition holders (hs : list (option (bool * string))) : list (bool * string) := omap id hs.

(** Each goroutine uses the key it holds properly, no key is held twice, and
    the keys in flight are the keys held. *)
Definition pool_ok (p : Pool) : Prop :=
  ∃ hs, Forall2 safe hs (p_goroutines p) ∧ NoDup (holders hs) ∧
    ∀ comp key, is_Some (inFlight comp (p_state p) !! key) ↔ (comp, key) ∈ holders hs.

Lemma inFlight_set comp comp' m st :
  inFlight comp (set_inFlight comp' m st) = if decide (comp = comp') then m else inFlight comp st.
Proof. by destruct comp, comp'. Qed.

Lemma holders_mid hs h hs' : holders (hs ++ h :: hs') ≡ₚ holders (h :: hs ++ hs').
Proof.
  unfold holders. rewrite !omap_app. csimpl. rewrite omap_app.
  destruct h as [x|]; simpl; [|done]. by rewrite Permutation_middle.
Qed.

Section pool_invariant.
Context (parse : string → option Json) (SubComponent : string) (e : Executor).

(** What one action does to the keys held: it keeps the key of its goroutine,
    or takes one that is free, or gives it back, or hands it on. *)
Lemma perform_keys ans h a st a' started st' :
  safe h a → crashed a = false → perform ans a st = Some (a', started, st') →
  (∃ h' hs, safe h' a' ∧ Forall2 safe hs started ∧
     (holders (h' :: hs) = holders [h] ∧
        (∀ comp key, is_Some (inFlight comp st' !! key) ↔ is_Some (inFlight comp st !! key)) ∨
      (∃ comp key, h = None ∧ holders (h' :: hs) = [(comp, key)] ∧
        inFlight comp st !! key = None ∧
        ∀ comp' key', is_Some (inFlight comp' st' !! key') ↔
          (comp', key') = (comp, key) ∨ is_Some (inFlight comp' st !! key')) ∨
      (∃ comp key, h = Some (comp, key) ∧ holders (h' :: hs) = [] ∧
        ∀ comp' key', is_Some (inFlight comp' st' !! key') ↔
          (comp', key') ≠ (comp, key) ∧ is_Some (inFlight comp' st !! key')))).
Proof.
  destruct a as [r|m|comp key k|comp key register k|comp ctx key input k|comp key s res k
    |comp key k|x rk m k|g k]; simpl; intros Hs _ Hp; try done.
  - injection Hp as <- <- <-. exists h, []. split; [apply Hs|]. split; [constructor|]. by left.
  - destruct Hs as (-> & Ha & Hn & Hr).
    destruct (inFlight comp st !! key) as [en|] eqn:Hk.
    { injection Hp as <- <- <-. exists None, []. split; [done|]. split; [constructor|]. by left. }
    destruct register; injection Hp as <- <- <-.
    + exists (Some (comp, key)), []. split; [by apply Hr|]. split; [constructor|].
      right. left. exists comp, key. split_and!; [done..|]. intros comp' key'.
      rewrite inFlight_set. case_decide as Hc; [subst comp'|naive_solver].
      rewrite lookup_insert_is_Some'. naive_solver.
    + exists None, []. split; [done|]. split; [constructor|]. by left.
  - destruct Hs as [-> Hs]. injection Hp as <- <- <-. exists (Some (comp, key)), [].
    split; [apply Hs|]. split; [constructor|]. by left.
  - destruct Hs as [-> Hs]. injection Hp as <- <- <-. exists (Some (comp, key)), [].
    split; [done|]. split; [constructor|]. left. split; [done|]. intros comp' key'.
    rewrite inFlight_set. case_decide; [subst comp'|done]. by rewrite lookup_alter_is_Some.
  - destruct Hs as [-> Hs]. injection Hp as <- <- <-. exists None, [].
    split; [done|]. split; [constructor|]. right. right. exists comp, key. split_and!; [done..|].
    intros comp' key'. rewrite inFlight_set. case_decide as Hc; [subst comp'|naive_solver].
    rewrite lookup_delete_is_Some. naive_solver.
  - exists h, []. destruct (ans_mq ans); injection Hp as <- <- <-;
      (split; [apply Hs|]); (split; [constructor|]); by left.
  - destruct Hs as [Hg Hk]. injection Hp as <- <- <-. exists None, [h].
    split; [done|]. split; [by constructor|]. by left.
Qed.

Lemma pool_step_ok p p' : pool_step parse SubComponent e p p' → pool_ok p → pool_ok p'.
Proof.
  destruct 1 as [p msg|st l a k ans a' started st' received Hc Hp|p].
  - intros (hs & Hs & Hnd & Hk). exists (hs ++ [None]). split_and!.
    + apply Forall2_app; [done|]. constructor; [apply handleMessage_safe|constructor].
    + unfold holders in *. by rewrite omap_app, app_nil_r.
    + intros comp key. unfold holders in *. rewrite omap_app, app_nil_r. apply Hk.
  - intros (hs & Hs & Hnd & Hk). simpl in *.
    apply Forall2_app_inv_r in Hs as (hs1 & hs2 & Hl & Hs & ->).
    apply Forall2_cons_inv_r in Hs as (h & hs2' & Ha & Hr & ->).
    assert (Hca : crashed a = false).
    { rewrite forallb_app in Hc. apply andb_true_iff in Hc as [_ Hc]. simpl in Hc.
      by destruct (crashed a). }
    destruct (perform_keys _ _ _ _ _ _ _ Ha Hca Hp) as (h' & hs' & Ha' & Hs' & Hcase).
    exists (hs1 ++ h' :: hs2' ++ hs'). split.
    { apply Forall2_app; [done|]. constructor; [done|]. by apply Forall2_app. }
    assert (Hperm : holders (hs1 ++ h' :: hs2' ++ hs') ≡ₚ
      holders (h' :: hs') ++ holders (hs1 ++ hs2')).
    { rewrite holders_mid, (assoc_L (++) hs1). unfold holders. simpl.
      destruct h'; simpl; rewrite (omap_app _ (hs1 ++ hs2')); [apply perm_skip|];
        apply Permutation_app_comm. }
    assert (Hperm0 : holders (hs1 ++ h :: hs2') ≡ₚ holders [h] ++ holders (hs1 ++ hs2')).
    { rewrite holders_mid. unfold holders. by destruct h. }
    simpl. rewrite Hperm. setoid_rewrite Hperm. rewrite Hperm0 in Hnd. setoid_rewrite Hperm0 in Hk.
    destruct Hcase as [[-> Hk']|[(comp & key & -> & -> & Hfree & Hk')|(comp & key & -> & -> & Hk')]].
    + split; [done|]. intros comp key. by rewrite Hk'.
    + simpl in Hnd. split.
      * apply NoDup_cons. split; [|done]. intros Hin. apply (Hk comp key) in Hin.
        rewrite Hfree in Hin. by destruct Hin.
      * intros comp' key'. rewrite Hk', Hk. simpl. set_solver.
    + simpl in Hnd. apply NoDup_cons in Hnd as [Hni Hnd]. split; [done|].
      intros comp' key'. rewrite Hk', Hk. simpl. set_solver.
  - intros _. exists []. simpl. split; [constructor|]. split; [constructor|].
    intros [] key; simpl; rewrite lookup_empty; split; [by intros []|set_solver|by intros []|set_solver].
Qed.

Lemma initial_pool_ok : pool_ok initial_pool.
Proof.
  exists []. simpl. split; [constructor|]. split; [constructor|].
  intros [] key; simpl; rewrite lookup_empty; split; [by intros []|set_solver|by intros []|set_solver].
Qed.

Lemma reachable_pool_ok p : pool_reachable parse SubComponent e p → pool_ok p.
Proof.
  assert (Hinv : ∀ q r, rtc (pool_step parse SubComponent e) q r → pool_ok q → pool_ok r)
    by (induction 1; eauto using pool_step_ok).
  intros Hr. apply (Hinv _ _ Hr), initial_pool_ok.
Qed.
End pool_invariant.

(** Where the keys of two goroutines are known, they differ. *)
Lemma holders_distinct hs i j x y :
  NoDup (holders hs) → hs !! i = Some (Some x) → hs !! j = Some (Some y) → x = y → i = j.
Proof.
  revert i j. induction hs as [|h hs IH]; intros i j Hnd Hi Hj ->; [done|].
  assert (Hin : ∀ n, hs !! n = Some (Some y) → y ∈ holders hs).
  { intros n Hn%list_elem_of_lookup_2. apply list_elem_of_omap. by exists (Some y). }
  unfold holders in *. destruct i as [|i], j as [|j]; simplify_eq/=; [done|..].
  - apply NoDup_cons in Hnd as [Hni _]. by destruct Hni; eapply Hin.
  - apply NoDup_cons in Hnd as [Hni _]. by destruct Hni; eapply Hin.
  - f_equal. apply (IH i j); try done. destruct h; [by apply NoDup_cons in Hnd as [_ ?]|done].
Qed.

(** A call of the service holds its key. *)
Lemma calls_distinct parse SubComponent e p i j comp key c c' input input' k k' :
  pool_reachable parse SubComponent e p →
  p_goroutines p !! i = Some (CallService comp c key input k) →
  p_goroutines p !! j = Some (CallService comp c' key input' k') →
  i = j.
Proof.
  intros (hs & Hs & Hnd & _)%reachable_pool_ok Hi Hj.
  destruct (Forall2_lookup_r _ _ _ _ _ Hs Hi) as (h & Hhi & -> & _).
  destruct (Forall2_lookup_r _ _ _ _ _ Hs Hj) as (h' & Hhj & -> & _).
  by eapply holders_distinct.
Qed.


(** The guard forgets no key: when every goroutine has come to its end,
    no key is in flight, so the next request for any key is taken up again. *)
Theorem guard_is_released parse SubComponent e p :
  pool_reachable parse SubComponent e p →
  forallb finished (p_goroutines p) = true →
  exs_exec (p_state p) = ∅ ∧ exs_comp (p_state p) = ∅.
Proof.
  intros (hs & Hs & _ & Hk)%reachable_pool_ok Hf.
  assert (Hnil : holders hs = []).
  { clear Hk. revert Hf. induction Hs as [|h a hs l Ha Hs IH]; [done|]. simpl.
    intros [Hfa Hfl]%andb_true_iff. destruct a; try done. simpl in Ha. subst h. by apply IH. }
  rewrite Hnil in Hk.
  assert (Hempty : ∀ comp, inFlight comp (p_state p) = ∅).
  { intros comp. apply map_empty. intros key. apply eq_None_not_Some.
    rewrite Hk. apply not_elem_of_nil. }
  split; [apply (Hempty false)|apply (Hempty true)].
Qed.

(** ** Every answer is one the coordinator understands *)

(** What a goroutine may publish. *)
Fixpoint publishes (P : Published → Prop) (a : action) : Prop :=
  match a with
  | Finished _ | Crash _ => True
  | GetStatus _ _ k => ∀ r, publishes P (k r)
  | Guard _ _ _ k => ∀ g, publishes P (k g)
  | CallService _ _ _ _ k => ∀ r, publishes P (k r)
  | Complete _ _ _ _ k => publishes P k
  | Unregister _ _ k => publishes P k
  | Publish exchange routingKey m k =>
      (∀ id ts, P (PubTopic exchange routingKey (m id ts))) ∧ ∀ r, publishes P (k r)
  | Start g k => publishes P g ∧ publishes P k
  end.

Lemma publishes_mono (P Q : Published → Prop) a :
  (∀ x, P x → Q x) → publishes P a → publishes Q a.
Proof.
  intros HPQ. induction a; simpl; try done; try (intros Hp r; by auto); try tauto.
  intros [Hm Hk]. split; auto.
Qed.

(** The statuses an executor gives. *)
Definition executor_status (s : ExecutionResultStatusEnum) : bool :=
  match s with
  | ExecutionResultStatusEnum_Success
  | ExecutionResultStatusEnum_InExecution
  | ExecutionResultStatusEnum_Failed
  | ExecutionResultStatusEnum_Error => true
  | _ => false
  end.

(** The request of a message. *)
Definition request_of (msg : TraxMessage) : option SagaStepRequestPayload :=
  p ← head (msg_Payloads msg);
  match pl_Data p with
  | SagaPayloadType_SagaStepExecutionRequest req
  | SagaPayloadType_SagaStepCompensationRequest req => Some req
  | _ => None
  end.

Section answers.
Context (parse : string → option Json) (SubComponent : string) (e : Executor).

(** [p] answers the request in [msg]. *)
Definition answers (msg : TraxMessage) (p : Published) : Prop :=
  ∃ req status resultMap id ts,
    request_of msg = Some req ∧ executor_status status = true ∧
    p = PubTopic (getStepTopicExchangeName (ex_clusterId e))
          (getStepResponseRoutingKey (ex_clusterId e) (rq_CoordinatorAffinity req)
             (ex_sagaTemplateId e) (ex_sagaStepTemplateId e))
          (result_message SubComponent msg req status resultMap id ts).

Lemma answers_intro msg req s m :
  request_of msg = Some req → executor_status s = true →
  ∀ id ts, answers msg (PubTopic (getStepTopicExchangeName (ex_clusterId e))
    (getStepResponseRoutingKey (ex_clusterId e) (rq_CoordinatorAffinity req)
       (ex_sagaTemplateId e) (ex_sagaStepTemplateId e))
    (result_message SubComponent msg req s m id ts)).
Proof. intros. repeat eexists; done. Qed.

Lemma answerExecution_publishes msg req s m :
  request_of msg = Some req → executor_status s = true →
  publishes (answers msg) (answerExecution SubComponent e msg req s m).
Proof. intros Hr Hs. split; [by apply answers_intro|]. by intros [|]. Qed.

Lemma answerCompensation_publishes msg req s m :
  request_of msg = Some req → executor_status s = true →
  publishes (answers msg) (answerCompensation SubComponent e msg req s m).
Proof. intros Hr Hs. split; [by apply answers_intro|]. by intros [|]. Qed.

Lemma service_outcome_status f x key r s m :
  service_outcome f x key r = Some (s, m) → executor_status s = true.
Proof. destruct r as [[[res [err|]]|]|err]; simpl; intros; by simplify_eq. Qed.

Lemma handleMessage_publishes msg :
  publishes (answers msg) (handleMessage parse SubComponent e msg).
Proof.
  unfold handleMessage. destruct (msg_Payloads msg) as [|p l] eqn:Hp; [done|].
  assert (Hr : request_of msg = match pl_Data p with
    | SagaPayloadType_SagaStepExecutionRequest req
    | SagaPayloadType_SagaStepCompensationRequest req => Some req | _ => None end).
  { unfold request_of. by rewrite Hp. }
  destruct (pl_Data p) as [| | | | |req|req|]; try done.
  - intros [s|err]; [|by apply answerExecution_publishes].
    destruct (status_handled s); [|by apply answerExecution_publishes].
    intros []; try by apply answerExecution_publishes.
    unfold executeRegistered. destruct (isSubSagaExecutor e).
    + split; [|by apply answerExecution_publishes]. intros r.
      destruct (service_outcome _ _ _ r) as [[s' m]|] eqn:Ho; [|done].
      apply service_outcome_status in Ho. split; [by apply answers_intro|done].
    + intros r. destruct (service_outcome _ _ _ r) as [[s' m]|] eqn:Ho; [|done].
      apply service_outcome_status in Ho. by apply answerExecution_publishes.
  - intros [s|err]; [|by apply answerCompensation_publishes].
    destruct (status_handled s); [|by apply answerCompensation_publishes].
    intros []; try by apply answerCompensation_publishes.
    intros r. destruct (service_outcome _ _ _ r) as [[s' m]|] eqn:Ho; [|done].
    apply service_outcome_status in Ho. by apply answerCompensation_publishes.
Qed.

Definition answered_only (p : Pool) : Prop :=
  let P x := ∃ msg, msg ∈ p_received p ∧ answers msg x in
  Forall P (exs_published (p_state p)) ∧ Forall (publishes P) (p_goroutines p).

Lemma perform_publishes P ans a st a' started st' :
  publishes P a → perform ans a st = Some (a', started, st') →
  publishes P a' ∧ Forall (publishes P) started ∧
  ∃ l, exs_published st' = exs_published st ++ l ∧ Forall P l.
Proof.
  assert (Hset : ∀ comp m st, exs_published (set_inFlight comp m st) = exs_published st ++ [])
    by (intros []; intros; by rewrite app_nil_r).
  assert (Hsame : ∃ l, exs_published st = exs_published st ++ l ∧ Forall P l)
    by (exists []; by rewrite app_nil_r).
  destruct a; simpl; intros Hs Hp; try done; repeat case_match; simplify_eq;
    split_and?; try naive_solver.
Qed.

Lemma pool_step_answered p p' :
  pool_step parse SubComponent e p p' → answered_only p → answered_only p'.
Proof.
  destruct 1 as [p msg|st l a k ans a' started st' received Hc Hp|p].
  - intros [Hpub Hgo]. split.
    + eapply Forall_impl; [done|]. intros x (m & ? & ?). exists m. set_solver.
    + apply Forall_app. split.
      * eapply Forall_impl; [done|]. intros b. apply publishes_mono.
        intros x (m & ? & ?). exists m. set_solver.
      * constructor; [|constructor]. eapply publishes_mono; [|apply handleMessage_publishes].
        intros x Hx. exists msg. set_solver.
  - intros [Hpub [Hl [Ha Hk]%Forall_cons]%Forall_app]. simpl in *.
    destruct (perform_publishes _ _ _ _ _ _ _ Ha Hp) as (Ha' & Hst & new & Heq & Hnew).
    split; simpl; [rewrite Heq; by apply Forall_app|].
    apply Forall_app. split; [done|]. constructor; [done|]. by apply Forall_app.
  - intros [Hpub _]. split; [done|constructor].
Qed.

Lemma reachable_answered p : pool_reachable parse SubComponent e p → answered_only p.
Proof.
  assert (Hinv : ∀ q r, rtc (pool_step parse SubComponent e) q r →
    answered_only q → answered_only r) by (induction 1; eauto using pool_step_answered).
  intros Hr. apply (Hinv _ _ Hr). by split.
Qed.
End answers.

(** Whatever an executor publishes answers a request it has received: it
    goes to the results of the coordinator that asked, refers to the request's
    message, names its saga and step, and has one of four statuses: in
    execution, which the coordinator skips, or one that succeeds or fails the
    step. *)
Theorem answers_fit_requests parse SubComponent e p x :
  pool_reachable parse SubComponent e p → x ∈ exs_published (p_state p) →
  ∃ msg req m res,
    msg ∈ p_received p ∧ request_of msg = Some req ∧
    x = PubTopic (getStepTopicExchangeName (ex_clusterId e))
          (getStepResponseRoutingKey (ex_clusterId e) (rq_CoordinatorAffinity req)
             (ex_sagaTemplateId e) (ex_sagaStepTemplateId e)) m ∧
    msg_RefMessageId m = msg_MessageId msg ∧
    msg_Payloads m = [json_payload (SagaPayloadType_SagaStepExecutionResult res)] ∧
    er_SagaInstanceId res = rq_SagaInstanceId req ∧
    er_SagaStepInstanceId res = rq_SagaStepInstanceId req ∧
    (er_Status res = ExecutionResultStatusEnum_InExecution ∨
     ∀ comp, resultTransition comp (er_Status res) =
       Some (if comp : bool then (SagaStepStateEnum_CompensationSucceeded, "COMPENSATION_SUCCEEDED")
             else (SagaStepStateEnum_ExecutionSucceeded, "EXECUTION_SUCCEEDED")) ∨
       resultTransition comp (er_Status res) =
       Some (if comp then (SagaStepStateEnum_CompensationFailed, "COMPENSATION_FAILED")
             else (SagaStepStateEnum_ExecutionFailed, "EXECUTION_FAILED"))).
Proof.
  intros [Hpub _]%reachable_answered Hx.
  rewrite Forall_forall in Hpub.
  destruct (Hpub x Hx) as (msg & Hm & req & s & mp & id & ts & Hr & Hs & ->).
  eexists msg, req, _, _. split; [done|]. split; [done|]. split; [done|].
  split; [done|]. split; [done|]. split; [done|]. split; [done|].
  simpl. destruct s; try done; [right; by left|by left|right; by right|right; by right].
Qed.

(** ** One request *)

(** What an executor has to answer for a key that is not in flight. *)
Definition verdict (comp : bool) (key : string) (s : result SagaIdempotencyKeyStatusEnum)
    (r : result (option IdempotentServiceExecutionResult)) :
    option (ExecutionResultStatusEnum * gmap string string) :=
  let verb := if comp then "compensat" else "execut" in
  match s with
  | Err err =>
      Some (ExecutionResultStatusEnum_Error,
        error_map ("failed to check if saga step instance with idempotent key '" +:+ key +:+
          "' has already been " +:+ verb +:+ "ed: " +:+ error_text err))
  | Ok SagaIdempotencyKeyStatusEnum_NotSeen | Ok SagaIdempotencyKeyStatusEnum_Completed =>
      service_outcome (verb +:+ "e") (if comp then "compensation" else "execution") key r
  | Ok _ => Some (ExecutionResultStatusEnum_InExecution, ∅)
  end.

(** The state after an attempt to publish. *)
Definition sent (mq : MqOutcome) (p : Published) (st : ExState) : ExState :=
  match mq with MqNotSent => st | _ => send p st end.

Definition mq_ok (mq : MqOutcome) : bool := match mq with MqSent => true | _ => false end.

Lemma released comp key s m st :
  inFlight comp st !! key = None →
  set_inFlight comp
    (delete key (inFlight comp (set_inFlight comp
       (alter (complete_entry s m) key (inFlight comp (set_inFlight comp
          (<[key := new_entry]> (inFlight comp st)) st)))
       (set_inFlight comp (<[key := new_entry]> (inFlight comp st)) st))))
    (set_inFlight comp
       (alter (complete_entry s m) key (inFlight comp (set_inFlight comp
          (<[key := new_entry]> (inFlight comp st)) st)))
       (set_inFlight comp (<[key := new_entry]> (inFlight comp st)) st)) = st.
Proof.
  destruct st, comp; simpl; intros Hk; f_equal;
    by rewrite alter_insert_eq, delete_insert_eq, delete_id.
Qed.

Section one_request.
Context (parse : string → option Json) (SubComponent : string) (e : Executor).
Context (ans : nat → Answer) (mq : MqOutcome) (Hmq : ∀ n, ans_mq (ans n) = mq).

Definition response (msg : TraxMessage) (req : SagaStepRequestPayload)
    (status : ExecutionResultStatusEnum) (resultMap : gmap string string) (n : nat) : Published :=
  PubTopic (getStepTopicExchangeName (ex_clusterId e))
    (getStepResponseRoutingKey (ex_clusterId e) (rq_CoordinatorAffinity req)
       (ex_sagaTemplateId e) (ex_sagaStepTemplateId e))
    (result_message SubComponent msg req status resultMap (ans_messageId (ans n)) (ans_now (ans n))).

Lemma run_answerExecution n msg req s m st :
  ∃ r, run ans n (answerExecution SubComponent e msg req s m) st =
    (Ret r, [], sent mq (response msg req s m n) st) ∧ is_ok r = mq_ok mq.
Proof. simpl. rewrite Hmq. destruct mq; by eexists. Qed.

Lemma run_answerCompensation n msg req s m st :
  ∃ r, run ans n (answerCompensation SubComponent e msg req s m) st =
    (Ret r, [], sent mq (response msg req s m n) st) ∧ is_ok r = mq_ok mq.
Proof. simpl. rewrite Hmq. destruct mq; by eexists. Qed.

(** The run of a request ends with the answer [s], [m], or in a panic. *)
Definition answered_by (o : outcome (result unit) * list action * ExState) (msg : TraxMessage)
    (req : SagaStepRequestPayload) (st : ExState)
    (v : option (ExecutionResultStatusEnum * gmap string string)) : Prop :=
  match v with
  | Some (s, m) => ∃ r n, o = (Ret r, [], sent mq (response msg req s m n) st) ∧ is_ok r = mq_ok mq
  | None => ∃ w st', o = (Panic w, [], st')
  end.

Lemma answered_execution n msg req s m st :
  answered_by (run ans n (answerExecution SubComponent e msg req s m) st) msg req st (Some (s, m)).
Proof. destruct (run_answerExecution n msg req s m st) as (r & ? & ?). by exists r, n. Qed.

Lemma answered_compensation n msg req s m st :
  answered_by (run ans n (answerCompensation SubComponent e msg req s m) st) msg req st (Some (s, m)).
Proof. destruct (run_answerCompensation n msg req s m st) as (r & ? & ?). by exists r, n. Qed.

Lemma run_execution msg req st :
  isSubSagaExecutor e = false → inFlight false st !! request_key e req = None →
  answered_by (run ans 0 (handleExecutionRequest parse SubComponent e msg req) st) msg req st
    (verdict false (request_key e req) (ans_status (ans 0)) (ans_service (ans 2))).
Proof.
  intros Hsub Hk. unfold handleExecutionRequest. cbn [run]. rewrite Hsub.
  destruct (ans_status (ans 0)) as [s|err]; [|apply answered_execution].
  destruct s; cbn -[service_outcome answerExecution executeRegistered inFlight set_inFlight];
    try apply answered_execution; rewrite Hk;
    [|apply answered_execution|];
    unfold executeRegistered; rewrite Hsub; cbn [run];
    (destruct (service_outcome _ _ _ _) as [[s m]|]; [|by do 2 eexists]);
    cbn [run]; rewrite released by done; apply answered_execution.
Qed.

Lemma run_compensation msg req st :
  inFlight true st !! request_key e req = None →
  answered_by (run ans 0 (handleCompensationRequest parse SubComponent e msg req) st) msg req st
    (verdict true (request_key e req) (ans_status (ans 0)) (ans_service (ans 2))).
Proof.
  intros Hk. unfold handleCompensationRequest. cbn [run].
  destruct (ans_status (ans 0)) as [s|err]; [|apply answered_compensation].
  destruct s; cbn -[service_outcome answerCompensation inFlight set_inFlight];
    try apply answered_compensation; rewrite Hk;
    [|apply answered_compensation|];
    (destruct (service_outcome _ _ _ _) as [[s m]|]; [|by do 2 eexists]);
    cbn [run]; rewrite released by done; apply answered_compensation.
Qed.
End one_request.

(** *** What a request is due *)

(** One message with this status and these values has gone to the response
    key of the request, if the broker took it, and nothing else has changed;
    the callback reports an error exactly when the broker does. *)
Definition one_answer (SubComponent : string) (e : Executor) (mq : MqOutcome)
    (o : outcome (result unit) * list action * ExState) (msg : TraxMessage)
    (req : SagaStepRequestPayload) (st : ExState) (status : ExecutionResultStatusEnum)
    (res : gmap string string) : Prop :=
  ∃ r m, o = (Ret r, [], sent mq (PubTopic ("x_" +:+ ex_clusterId e +:+ "_trax_saga_steps")
      (ex_clusterId e +:+ "." +:+ rq_CoordinatorAffinity req +:+ "." +:+ ex_sagaTemplateId e +:+ "." +:+
         ex_sagaStepTemplateId e +:+ ".response") m) st) ∧
    (is_ok r = true ↔ mq = MqSent) ∧
    msg_RefMessageId m = msg_MessageId msg ∧ msg_ExecutionId m = msg_ExecutionId msg ∧
    msg_TraceId m = msg_TraceId msg ∧ msg_ClusterId m = msg_ClusterId msg ∧
    msg_Submitter m = SubComponent ∧ msg_SubmitterAffinityGroup m = rq_CoordinatorAffinity req ∧
    pl_Data <$> msg_Payloads m =
      [SagaPayloadType_SagaStepExecutionResult
         (mkSagaStepExecutionResultPayload (msg_Submitter msg) (rq_SagaInstanceId req)
            (rq_SagaStepInstanceId req) (rq_ZoneId req) status res)].

(** The answer to each pair of what is known of the key and what the service
    says. *)
Definition answered_as_due (comp : bool) SubComponent e mq
    (known : result SagaIdempotencyKeyStatusEnum)
    (service : result (option IdempotentServiceExecutionResult))
    (o : outcome (result unit) * list action * ExState) msg req st : Prop :=
  let answer := one_answer SubComponent e mq o msg req st in
  let key := "'" +:+ request_key e req +:+ "'" in
  let step := " saga step instance with idempotent key " in
  match known, service with
  | Err err, _ =>
      answer ExecutionResultStatusEnum_Error
        {["error" := "failed to check if" +:+ step +:+ key +:+ " has already been " +:+
          (if comp then "compensated" else "executed") +:+ ": " +:+ error_text err]}
  | Ok SagaIdempotencyKeyStatusEnum_NotSeen, Err err
  | Ok SagaIdempotencyKeyStatusEnum_Completed, Err err =>
      answer ExecutionResultStatusEnum_Error
        {["error" := "failed to " +:+ (if comp then "compensate" else "execute") +:+ step +:+ key +:+
          ": " +:+ error_text err]}
  | Ok SagaIdempotencyKeyStatusEnum_NotSeen, Ok (Some (mkIdempotentServiceExecutionResult _ (Some err)))
  | Ok SagaIdempotencyKeyStatusEnum_Completed, Ok (Some (mkIdempotentServiceExecutionResult _ (Some err))) =>
      answer ExecutionResultStatusEnum_Failed
        {["error" := (if comp then "compensation" else "execution") +:+ " error in" +:+ step +:+ key +:+
          ": " +:+ err]}
  | Ok SagaIdempotencyKeyStatusEnum_NotSeen, Ok (Some (mkIdempotentServiceExecutionResult res None))
  | Ok SagaIdempotencyKeyStatusEnum_Completed, Ok (Some (mkIdempotentServiceExecutionResult res None)) =>
      answer ExecutionResultStatusEnum_Success res
  | Ok SagaIdempotencyKeyStatusEnum_NotSeen, Ok None
  | Ok SagaIdempotencyKeyStatusEnum_Completed, Ok None => ∃ w st', o = (Panic w, [], st')
  | Ok SagaIdempotencyKeyStatusEnum_InProgress, _
  | Ok SagaIdempotencyKeyStatusEnum_Unknown, _
  | Ok (SagaIdempotencyKeyStatusEnum_Other _), _ => answer ExecutionResultStatusEnum_InExecution ∅
  end.

Lemma answered_by_one SubComponent e ans mq o msg req st s m :
  answered_by SubComponent e ans mq o msg req st (Some (s, m)) →
  one_answer SubComponent e mq o msg req st s m.
Proof.
  intros (r & n & -> & Hr). eexists r, _. split; [reflexivity|]. split; [|done].
  rewrite Hr. by destruct mq.
Qed.

Lemma answered_by_due comp SubComponent e ans mq known service o msg req st :
  answered_by SubComponent e ans mq o msg req st (verdict comp (request_key e req) known service) →
  answered_as_due comp SubComponent e mq known service o msg req st.
Proof.
  destruct known as [status|err]; simpl; intros H.
  - destruct status, service as [[[res [err'|]]|]|err']; simpl in *; try done;
      apply answered_by_one in H; destruct comp; rewrite ?string_app_assoc; exact H.
  - apply answered_by_one in H. destruct comp; rewrite !string_app_assoc; exact H.
Qed.

(** C21: a request for a key that is not in flight, to execute at an executor
    without sub-sagas or to compensate at any, gets exactly one answer, which
    names the request, the saga and the step: ERROR when the status of the key
    cannot be had or the service reports an error of its own, FAILED when the
    service says that the step failed, SUCCESS with the service's result,
    IN_EXECUTION when the status is that a process that has died was at it, or
    unknown.  The callback reports an error exactly when the broker does, and
    leaves nothing in flight; only a service that returns nothing at all makes
    it panic. *)
Theorem request_answered parse SubComponent e ans mq msg req st :
  (∀ n, ans_mq (ans n) = mq) →
  (inFlight true st !! request_key e req = None →
   answered_as_due true SubComponent e mq (ans_status (ans 0)) (ans_service (ans 2))
     (run ans 0 (handleCompensationRequest parse SubComponent e msg req) st) msg req st) ∧
  (isSubSagaExecutor e = false → inFlight false st !! request_key e req = None →
   answered_as_due false SubComponent e mq (ans_status (ans 0)) (ans_service (ans 2))
     (run ans 0 (handleExecutionRequest parse SubComponent e msg req) st) msg req st).
Proof.
  intros Hmq. split; intros; apply (answered_by_due _ _ _ ans);
    [by apply run_compensation|by apply run_execution].
Qed.

(** A request for a key that is in flight does not reach the service: it
    is answered by IN_EXECUTION, or by ERROR when the status of the key cannot
    be had, and the state is left alone. *)
Theorem in_flight_not_repeated parse SubComponent e ans mq msg req st :
  (∀ n, ans_mq (ans n) = mq) →
  is_Some (inFlight false st !! request_key e req) →
  ∃ s m, (s = ExecutionResultStatusEnum_InExecution ∧ m = ∅ ∨
          s = ExecutionResultStatusEnum_Error ∧ is_ok (ans_status (ans 0)) = false) ∧
    answered_by SubComponent e ans mq
      (run ans 0 (handleExecutionRequest parse SubComponent e msg req) st) msg req st (Some (s, m)).
Proof.
  intros Hmq [en Hk]. unfold handleExecutionRequest. cbn [run].
  destruct (ans_status (ans 0)) as [s|err].
  - exists ExecutionResultStatusEnum_InExecution, ∅. split; [by left|].
    destruct (status_handled s); [|by apply answered_execution].
    cbn [run]. rewrite Hk. by apply answered_execution.
  - eexists ExecutionResultStatusEnum_Error, _. split; [by right|]. by apply answered_execution.
Qed.

(** An executor of sub-sagas answers IN_EXECUTION at once and leaves the
    work to a goroutine, which gives the real answer later: also for a key that
    a process that has died was at. *)
Theorem sub_saga_detached parse SubComponent e ans msg req st status :
  (∀ n, ans_mq (ans n) = MqSent) →
  isSubSagaExecutor e = true → inFlight false st !! request_key e req = None →
  ans_status (ans 0) = Ok status → status_handled status = true →
  ∃ g n, 
    let st' := set_inFlight false (<[request_key e req := new_entry]> (inFlight false st)) st in
    run ans 0 (handleExecutionRequest parse SubComponent e msg req) st =
      (Ret (Ok tt), [g],
       send (response SubComponent e ans msg req ExecutionResultStatusEnum_InExecution ∅ n) st') ∧
    ∀ ans' published, (∀ n, ans_mq (ans' n) = MqSent) →
      answered_by SubComponent e ans' MqSent
        (run ans' 0 g (mkExState (exs_exec st') (exs_comp st') published)) msg req
        (mkExState (exs_exec st) (exs_comp st) published)
        (service_outcome "execute" "execution" (request_key e req) (ans_service (ans' 0))).
Proof.
  intros Hmq Hsub Hk Hs Hh. exists (detachExecution SubComponent e (request_key e req) msg req), 3.
  split.
  - unfold handleExecutionRequest. cbn [run]. rewrite Hs, Hh. cbn [run]. rewrite Hk, Hsub.
    unfold executeRegistered. rewrite Hsub. cbn [orb run].
    cbn [answerExecution publishExecutionResult run]. by rewrite Hmq.
  - intros ans' published Hmq'. unfold detachExecution. cbn [run].
    destruct (service_outcome _ _ _ _) as [[s m]|]; [|by do 2 eexists].
    cbn [run publishExecutionResult]. rewrite Hmq'. exists (Ok tt), 3. split; [|done].
    f_equal. cbn. unfold response, sent, send. cbn. f_equal; [|done..].
    by rewrite alter_insert_eq, delete_insert_eq, delete_id.
Qed.

(** ** A process at work *)

(** A schedule: which message comes in, or which goroutine goes on. *)
Inductive Move := MReceive (msg : TraxMessage) | MPerform (i : nat) (ans : Answer) | MRestart.

Definition move parse SubComponent e (m : Move) (p : Pool) : option Pool :=
  match m with
  | MReceive msg =>
      Some (mkPool (p_state p) (p_goroutines p ++ [handleMessage parse SubComponent e msg])
              (p_received p ++ [msg]))
  | MPerform i ans =>
      if forallb (λ b, negb (crashed b)) (p_goroutines p) then
        match p_goroutines p !! i ≫= λ a, perform ans a (p_state p) with
        | Some (a', started, st') =>
            Some (mkPool st' (take i (p_goroutines p) ++ a' :: drop (S i) (p_goroutines p) ++ started)
                    (p_received p))
        | None => None
        end
      else None
  | MRestart => Some (mkPool (mkExState ∅ ∅ (exs_published (p_state p))) [] (p_received p))
  end.

Fixpoint moves parse SubComponent e (ms : list Move) (p : Pool) : option Pool :=
  match ms with
  | [] => Some p
  | m :: ms => p ← move parse SubComponent e m p; moves parse SubComponent e ms p
  end.

Lemma move_step parse SubComponent e m p p' :
  move parse SubComponent e m p = Some p' → pool_step parse SubComponent e p p'.
Proof.
  destruct m as [msg|i ans|]; simpl.
  - intros [= <-]. constructor.
  - destruct (forallb _ _) eqn:Hc; [|done].
    destruct (p_goroutines p !! i) as [a|] eqn:Hi; [|done]. simpl.
    destruct (perform ans a (p_state p)) as [[[a' started] st']|] eqn:Hp; [|done].
    intros [= <-]. destruct p as [st gs rs]. simpl in *.
    rewrite <-(take_drop_middle _ _ _ Hi) in Hc. rewrite <-(take_drop_middle _ _ _ Hi) at 1.
    by econstructor.
  - intros [= <-]. constructor.
Qed.

Lemma moves_reachable parse SubComponent e ms p :
  moves parse SubComponent e ms initial_pool = Some p → pool_reachable parse SubComponent e p.
Proof.
  unfold pool_reachable. generalize initial_pool.
  induction ms as [|m ms IH]; intros q; simpl; [by intros [= <-]|].
  destruct (move parse SubComponent e m q) as [q'|] eqn:Hm; [|done]. simpl. intros Hms.
  eapply rtc_l; [by eapply move_step|by apply IH].
Qed.

Definition sample_executor : Executor := mkExecutor "main" "order" "order_a" false "".
Definition sample_request : SagaStepRequestPayload :=
  mkSagaStepRequestPayload "sub1" "s1" "a" "z1" "default" {["amount" := "10"]} ∅ ∅ "s1" 0.
Definition sample_request_message : TraxMessage :=
  mkTraxMessage "trax.TraxMessage" "v1.0.0" "m1" "" "e1" "" "t1" "main" "0" ∅ [] "" "" "coord" "" ""
    "" Anonymous [json_payload (SagaPayloadType_SagaStepExecutionRequest sample_request)].
Definition sample_answer : Answer :=
  mkAnswer (Ok SagaIdempotencyKeyStatusEnum_NotSeen)
    (Ok (Some (mkIdempotentServiceExecutionResult {["paid" := "yes"]} None))) MqSent "m2" 5.

(** The request is given out twice while the service is still at it. *)
Definition redelivered : list Move :=
  [MReceive sample_request_message; MPerform 0 sample_answer; MPerform 0 sample_answer;
   MReceive sample_request_message; MPerform 1 sample_answer; MPerform 1 sample_answer;
   MPerform 1 sample_answer].
Definition served : list Move :=
  redelivered ++ replicate 4 (MPerform 0 sample_answer).

Definition no_json : string → option Json := λ _, None.

(** The process after the moves; the initial one if they are not possible. *)
Definition pool_after (ms : list Move) : Pool :=
  match moves no_json "exec" sample_executor ms initial_pool with
  | Some p => p
  | None => initial_pool
  end.

Lemma pool_after_reachable ms : pool_reachable no_json "exec" sample_executor (pool_after ms).
Proof.
  unfold pool_after. destruct (moves _ _ _ ms _) as [p|] eqn:Hm.
  - by eapply moves_reachable.
  - apply rtc_refl.
Qed.

Definition called_key (a : action) : option (bool * string) :=
  match a with CallService comp _ key _ _ => Some (comp, key) | _ => None end.

Lemma called_key_Some (a : action) comp key :
  called_key a = Some (comp, key) → ∃ c input k, a = CallService comp c key input k.
Proof. destruct a; try done. intros [= -> ->]. by do 3 eexists. Qed.

Lemma called_at (gs : list action) (i : nat) comp key :
  gs !! i ≫= called_key = Some (comp, key) →
  ∃ c input k, gs !! i = Some (CallService comp c key input k).
Proof.
  destruct (gs !! i) as [a|]; simpl; [|done].
  intros (c & input & k & ->)%called_key_Some. eauto.
Qed.


Lemma guard_is_released_witness :
  length (p_goroutines (pool_after served)) = 2 ∧
  exs_exec (p_state (pool_after served)) = ∅ ∧ exs_comp (p_state (pool_after served)) = ∅.
Proof.
  split; [vm_compute; reflexivity|].
  apply (guard_is_released no_json "exec" sample_executor);
    [apply pool_after_reachable|vm_compute; reflexivity].
Defined.

Example both_answered : length (exs_published (p_state (pool_after served))) = 2.
Proof. vm_compute. reflexivity. Qed.

(** Both copies are answered, the first one in the end. *)
Lemma answers_fit_requests_witness :
  ∃ x, exs_published (p_state (pool_after served)) !! 1 = Some x ∧
    ∃ msg req m res,
      msg ∈ p_received (pool_after served) ∧ request_of msg = Some req ∧
      x = PubTopic (getStepTopicExchangeName "main")
            (getStepResponseRoutingKey "main" (rq_CoordinatorAffinity req) "order" "order_a") m ∧
      msg_RefMessageId m = msg_MessageId msg ∧
      msg_Payloads m = [json_payload (SagaPayloadType_SagaStepExecutionResult res)] ∧
      er_SagaInstanceId res = rq_SagaInstanceId req ∧
      er_SagaStepInstanceId res = rq_SagaStepInstanceId req ∧
      (er_Status res = ExecutionResultStatusEnum_InExecution ∨
       ∀ comp, resultTransition comp (er_Status res) =
         Some (if comp : bool then (SagaStepStateEnum_CompensationSucceeded, "COMPENSATION_SUCCEEDED")
               else (SagaStepStateEnum_ExecutionSucceeded, "EXECUTION_SUCCEEDED")) ∨
         resultTransition comp (er_Status res) =
         Some (if comp then (SagaStepStateEnum_CompensationFailed, "COMPENSATION_FAILED")
               else (SagaStepStateEnum_ExecutionFailed, "EXECUTION_FAILED"))).
Proof.
  destruct (lookup_lt_is_Some_2 (exs_published (p_state (pool_after served))) 1) as [x Hx].
  { rewrite both_answered. lia. }
  exists x. split; [exact Hx|]. apply (answers_fit_requests no_json "exec" sample_executor);
    [apply pool_after_reachable|by eapply list_elem_of_lookup_2].
Defined.

Lemma request_answered_witness :
  one_answer "exec" sample_executor MqSent
    (run (λ _, sample_answer) 0
       (handleExecutionRequest no_json "exec" sample_executor sample_request_message sample_request)
       (mkExState ∅ ∅ []))
    sample_request_message sample_request (mkExState ∅ ∅ [])
    ExecutionResultStatusEnum_Success {["paid" := "yes"]}.
Proof.
  apply (request_answered no_json "exec" sample_executor (λ _, sample_answer) MqSent
    sample_request_message sample_request (mkExState ∅ ∅ []) (λ _, eq_refl)); reflexivity.
Defined.

Lemma in_flight_not_repeated_witness :
  let st := mkExState {[request_key sample_executor sample_request := new_entry]} ∅ [] in
  ∃ s m, (s = ExecutionResultStatusEnum_InExecution ∧ m = ∅ ∨
          s = ExecutionResultStatusEnum_Error ∧ is_ok (ans_status sample_answer) = false) ∧
    answered_by "exec" sample_executor (λ _, sample_answer) MqSent
      (run (λ _, sample_answer) 0
         (handleExecutionRequest no_json "exec" sample_executor sample_request_message sample_request) st)
      sample_request_message sample_request st (Some (s, m)).
Proof.
  intros st. apply (in_flight_not_repeated no_json "exec" sample_executor (λ _, sample_answer) MqSent);
    [done|]. by eexists.
Defined.

Lemma sub_saga_detached_witness :
  let e := mkExecutor "main" "order" "order_a" true "http://traxctrl" in
  let st := mkExState ∅ ∅ [] in
  let st' := set_inFlight false
    (<[request_key e sample_request := new_entry]> (inFlight false st)) st in
  ∃ g n,
    run (λ _, sample_answer) 0
        (handleExecutionRequest no_json "exec" e sample_request_message sample_request) st =
      (Ret (Ok tt), [g],
       send (response "exec" e (λ _, sample_answer) sample_request_message sample_request
               ExecutionResultStatusEnum_InExecution ∅ n) st') ∧
    ∀ ans' published, (∀ n, ans_mq (ans' n) = MqSent) →
      answered_by "exec" e ans' MqSent
        (run ans' 0 g (mkExState (exs_exec st') (exs_comp st') published)) sample_request_message
        sample_request (mkExState (exs_exec st) (exs_comp st) published)
        (service_outcome "execute" "execution" (request_key e sample_request) (ans_service (ans' 0))).
Proof.
  intros e st st'.
  apply (sub_saga_detached no_json "exec" e (λ _, sample_answer) sample_request_message
    sample_request st SagaIdempotencyKeyStatusEnum_NotSeen); reflexivity.
Defined.
