(* ===== verification/Rules.v ===== *)
(** * Reasoning about calls of a transactional store

    From the contract of Store.v, rules for a client: what it knows outside a
    transaction ([idle]), what it knows in one ([in_tx]), and what each call
    makes of it.  A rule has one premise for the normal return and one for an
    error, in the style of the weakest preconditions of GoMonad.v, so the
    proof of a method follows its text. *)

From S2P Require Import Prelude GoMonad Random Model Naming Sequence Database Focus Messages Store.
From S2P Require Import World.

Section rules.
Context {St : Type} `{!Store St, !StoreLaws St}.
Implicit Types (w : World St) (com d : DB).

Definition wv (w : World St) : view := vw (w_store w).

(** What a call of the store does not touch. *)
Definition same_env w w' : Prop :=
  w_published w' = w_published w ∧ w_spawned w' = w_spawned w ∧ w_tick w' = w_tick w.

#[local] Notation faulty := (faulty (St := St)).

(** No transaction is open, and the committed database is [com]. *)
Definition idle com w : Prop := wv w = View com None.

(** A transaction is open that started when [com] was committed; unless it
    is dead, which takes a fault, its working copy satisfies [P]. *)
Definition in_tx com (P : DB → Prop) w : Prop :=
  ∃ d failed, wv w = View com (Some (d, failed)) ∧
    (failed = false → P d) ∧ (failed = true → faulty).

Lemma in_tx_mono com (P P' : DB → Prop) w :
  (∀ d, P d → P' d) → in_tx com P w → in_tx com P' w.
Proof. intros HP (d & b & Hv & Hd & Hb). exists d, b. auto. Qed.

(** A transaction is open. *)
Definition open_tx com w : Prop := ∃ t, wv w = View com (Some t).

Lemma in_tx_open com P w : in_tx com P w → open_tx com w.
Proof. intros (d & b & Hv & _). by exists (d, b). Qed.

(** An existential inside a transaction can be pulled out: a dead
    transaction says nothing. *)
Lemma in_tx_exists {A} (a0 : A) com (P : A → DB → Prop) w :
  in_tx com (λ d, ∃ a, P a d) w → ∃ a, in_tx com (P a) w.
Proof.
  intros (d & [] & Hv & Hd & Hb).
  - exists a0, d, true. auto with congruence.
  - destruct (Hd eq_refl) as [a Ha]. by exists a, d, false.
Qed.

(** *** Calls *)

Lemma wp_call {A} (m : M St (result A)) (p : spec A) (Q : result A → World St → Prop) w :
  implements vw m p →
  (∀ r w', same_env w w' → p (wv w) r (wv w') → Q r w') →
  wp (call m) (returns Q) w.
Proof.
  intros Hm HQ. specialize (Hm (w_store w)). unfold wp, call in *.
  destruct (m (w_store w)) as [[r|msg|] s]; simpl in *; [|done|done].
  by apply (HQ r (mkWorld s (w_published w) (w_spawned w) (w_tick w))).
Qed.

(** What an error of a statement may mean. *)
Definition explained (harmless : goerror → Prop) e : Prop :=
  harmless e ∨ faulty ∧ ∃ msg, e = Errorf msg.

(** A call asks the surroundings nothing. *)
Lemma wp_call_tick {A} (m : M St A) (Q : A → World St → Prop) w :
  wp (call m) (returns (λ r w', w_tick w' = w_tick w → Q r w')) w → wp (call m) (returns Q) w.
Proof. unfold wp, call. destruct (m (w_store w)) as [[r|msg|] s]; simpl; auto. Qed.

(** What [spec_notify] comes to in a transaction: a notification that fails
    goes unnoticed, even when it takes the transaction with it. *)
Lemma notify_in_tx {A} x st (a : A) com (P : DB → Prop) d b r v' :
  spec_notify faulty x st a (View com (Some (d, b))) r v' →
  (b = false → P d) → (b = true → faulty) →
  (∀ d n, P d → P (set_db_notifications (db_notifications d ++ [n]) d)) →
  r = Ok a ∧ ∃ d' b', v' = View com (Some (d', b')) ∧ (b' = false → P d') ∧ (b' = true → faulty).
Proof.
  intros Hk HP Hb Hn. unfold spec_notify in Hk.
  destruct st; try (destruct Hk as [-> ->]; split; [done|]; by exists d, b).
  all: destruct Hk as (r2 & v2 & Hu & -> & ->); split; [done|].
  all: destruct r2 as [[]|e2]; [destruct Hu as [Ha (d2 & (ts2 & Hd2) & ->)]
                               |destruct Hu as [(_ & [] & _)|(_ & Hx & b' & Hbb & ->)]].
  all: unfold v_alive in *; simpl in *.
  1, 3: subst b; injection Hd2 as <-; eexists _, false; split; [done|]; split; [|done];
        intros _; by apply Hn, HP.
  all: exists d, b'; split; [done|]; split.
  1, 3: intros ->; apply HP; destruct b; [by specialize (Hbb eq_refl)|done].
  all: intros ->; destruct Hx as [?|[Hx|(ts' & e & ?)]]; [done| |done].
  all: by destruct b; auto.
Qed.

Section stmt.
Context {A : Type} (m : M St (result A)) (R : DB → A → DB → Prop)
  (E : DB → goerror → Prop) (bad : DB → Prop).
Context (Hm : implements vw m (stmt faulty R E bad)).

Lemma idle_stmt com w (Q : result A → World St → Prop) :
  idle com w → ¬ bad com →
  (∀ a com' w', R com a com' → idle com' w' → Q (Ok a) w') →
  (∀ e w', explained (E com) e → idle com w' → Q (Err e) w') →
  (∀ a e com' w', faulty → R com a com' → idle com' w' → Q (Err e) w') →
  wp (call m) (returns Q) w.
Proof.
  intros Hi Hb HO HE HL. apply (wp_call _ _ _ _ Hm). intros [a|e] w' _.
  - intros [_ (d & HR & Hv)]. rewrite Hi in HR, Hv. by apply (HO _ _ _ HR).
  - rewrite Hi. intros [(_ & He & Hv)|(He & Hw & Hv)]; [by apply HE; [left|]|].
    assert faulty as Hfa by (destruct Hw as [?|[[]|?]]; [done|done|done]).
    destruct Hv as [Hv|(a & d & HR & Hv)]; [by apply HE; [right|]|by eapply HL].
Qed.

Lemma tx_stmt com P w (Q : result A → World St → Prop) :
  in_tx com P w → (∀ d, P d → ¬ bad d) →
  (∀ a w', in_tx com (λ d', ∃ d, P d ∧ R d a d') w' →
     (∃ d d', wv w' = View com (Some (d', false)) ∧ P d ∧ R d a d') → Q (Ok a) w') →
  (∀ e w', in_tx com P w' → explained (λ e, ∃ d, P d ∧ E d e) e → Q (Err e) w') →
  wp (call m) (returns Q) w.
Proof.
  intros (d & b & Hw & HP & Hd) Hbad HO HE. apply (wp_call _ _ _ _ Hm). intros [a|e] w' _.
  - rewrite Hw. intros [Ha (d' & HR & Hv)]. unfold v_alive in Ha. simpl in Ha. subst b.
    unfold v_put in Hv. simpl in Hv. apply HO.
    + exists d', false. split; [done|]. split; [eauto|done].
    + exists d, d'. auto.
  - rewrite Hw. intros [(Ha & He & Hv)|(He & Hx & b' & Hb & Hv)]; unfold v_alive in *; simpl in *.
    + subst b. apply HE; [by exists d, false|]. left. eauto.
    + assert faulty as Hfa.
      { destruct Hx as [?|[?|?]]; [done|by destruct b; auto|].
        destruct b; [auto|]. destruct (Hbad d); auto. }
      apply HE; [|by right]. exists d, b'. split; [done|]. split; [|done].
      intros ->. destruct b; [by specialize (Hb eq_refl)|auto].
Qed.
End stmt.

Section query.
Context {A : Type} (m : M St (result A)) (R : DB → A → Prop)
  (E : DB → goerror → Prop) (bad : DB → Prop).
Context (Hm : implements vw m (query faulty R E bad)).

Lemma idle_query com w (Q : result A → World St → Prop) :
  idle com w → ¬ bad com →
  (∀ a w', R com a → idle com w' → Q (Ok a) w') →
  (∀ e w', explained (E com) e ∨ faulty → idle com w' → Q (Err e) w') →
  wp (call m) (returns Q) w.
Proof.
  intros Hi Hb HO HE. apply (idle_stmt _ _ _ _ Hm com); [done|done|..].
  - intros a ? w' [HR ->]. by apply HO.
  - intros e w' He. by apply HE; left.
  - intros a e ? w' Hfa [_ ->]. by apply HE; right.
Qed.

(** When the reason of an error does not matter. *)
Lemma idle_query_any com w (Q : result A → World St → Prop) :
  idle com w →
  (∀ a w', R com a → idle com w' → Q (Ok a) w') →
  (∀ e w', idle com w' → Q (Err e) w') →
  wp (call m) (returns Q) w.
Proof.
  intros Hi HO HE. apply (wp_call _ _ _ _ Hm). intros [a|e] w' _; rewrite Hi.
  - intros [_ (d & [HR ->] & Hv)]. by apply HO.
  - intros [(_ & _ & Hv)|(_ & _ & [Hv|(a & d & [_ ->] & Hv)])]; by apply HE.
Qed.

(** An answer means that the transaction is alive. *)
Lemma tx_query com P w (Q : result A → World St → Prop) :
  in_tx com P w → (∀ d, P d → ¬ bad d) →
  (∀ a d w', P d → R d a → wv w' = View com (Some (d, false)) → in_tx com P w' →
     Q (Ok a) w') →
  (∀ e w', in_tx com P w' → explained (λ e, ∃ d, P d ∧ E d e) e → Q (Err e) w') →
  wp (call m) (returns Q) w.
Proof.
  intros Ht Hb HO HE. apply (tx_stmt _ _ _ _ Hm com P); [done|done| |done].
  intros a w' _ (d & d' & Hv & HP & HR & ->). apply (HO _ d); [done..|].
  by exists d, false.
Qed.

Lemma tx_query_any com P w (Q : result A → World St → Prop) :
  in_tx com P w →
  (∀ a d w', P d → R d a → Q (Ok a) w') →
  (∀ e w', open_tx com w' → Q (Err e) w') →
  wp (call m) (returns Q) w.
Proof.
  intros (d & b & Hw & HP & _) HO HE. apply (wp_call _ _ _ _ Hm). intros [a|e] w' _; rewrite Hw.
  - intros [Ha (d' & [HR _] & _)]. unfold v_alive in Ha. simpl in Ha. apply (HO _ d); auto.
  - intros [(_ & _ & Hv)|(_ & _ & b' & _ & Hv)]; apply HE; by eexists.
Qed.
End query.

(** *** The ends of a transaction *)

Lemma idle_begin com w (Q : result unit → World St → Prop) :
  idle com w →
  (∀ w', in_tx com (λ d, d = com) w' → Q (Ok tt) w') →
  (∀ e w', faulty → idle com w' → Q (Err e) w') →
  wp (call BeginTransaction) (returns Q) w.
Proof.
  intros Hi HO HE. apply (wp_call _ _ _ _ law_BeginTransaction). intros [[]|e] w' _; simpl.
  - rewrite Hi. intros [_ Hv]. apply HO. by exists com, false.
  - rewrite Hi. intros (_ & Hv & [?|[? [=]]]). by apply HE; [|unfold idle; rewrite Hv].
Qed.

Lemma tx_rollback com w (Q : result unit → World St → Prop) :
  open_tx com w → (∀ r w', idle com w' → Q r w') →
  wp (call RollbackTransaction) (returns Q) w.
Proof.
  intros [t Hw] HQ. apply (wp_call _ _ _ _ law_RollbackTransaction).
  intros r w' _ (Hv & _). apply HQ. unfold idle. by rewrite Hv, Hw.
Qed.

Lemma idle_rollback com w (Q : result unit → World St → Prop) :
  idle com w → (∀ r w', idle com w' → Q r w') →
  wp (call RollbackTransaction) (returns Q) w.
Proof.
  intros Hi HQ. apply (wp_call _ _ _ _ law_RollbackTransaction).
  intros r w' _ (Hv & _). apply HQ. unfold idle. by rewrite Hv, Hi.
Qed.

Lemma tx_commit com (P : DB → Prop) w (Q : result unit → World St → Prop) :
  in_tx com P w →
  (∀ com' w', P com' → idle com' w' → Q (Ok tt) w') →
  (∀ e com' w', faulty → com' = com ∨ P com' → idle com' w' → Q (Err e) w') →
  wp (call CommitTransaction) (returns Q) w.
Proof.
  intros (d & b & Hw & HP & Hd) HO HE. apply (wp_call _ _ _ _ law_CommitTransaction).
  intros [[]|e] w' _; simpl; rewrite Hw; simpl.
  - intros (d' & [= <- ->] & Hv). apply (HO d); auto.
  - intros (_ & Htx & Hx & Hv). apply (HE _ (v_com (wv w'))).
    + destruct Hx as [?|[?|[? [= -> ->]]]]; auto; done.
    + destruct Hv as [->|[= -> ->]]; auto.
    + unfold idle. destruct (wv w'). simpl in *. by subst.
Qed.

Lemma idle_commit com w (Q : result unit → World St → Prop) :
  idle com w → (∀ e w', idle com w' → Q (Err e) w') →
  wp (call CommitTransaction) (returns Q) w.
Proof.
  intros Hi HE. apply (wp_call _ _ _ _ law_CommitTransaction).
  intros [[]|e] w' _; simpl; rewrite Hi; simpl.
  - by intros (d' & ? & _).
  - intros (_ & Htx & _ & [Hv|?]); [|done]. apply HE. unfold idle.
    destruct (wv w'). simpl in *. by subst.
Qed.

(** *** The surroundings *)

Lemma wp_now env w (Q : Z → World St → Prop) :
  (∀ n w', wv w' = wv w → Q (env_now env n) w') → wp (time_now env) (returns Q) w.
Proof. intros HQ. unfold wp, time_now, bind, tick, ret. simpl. by apply HQ. Qed.

Lemma wp_rand env w (Q : string → World St → Prop) :
  (∀ n w', wv w' = wv w → Q (random_string (env_rand env n) 32) w') →
  wp (SecureRandomString env) (returns Q) w.
Proof. intros HQ. unfold wp, SecureRandomString, bind, tick, ret. simpl. by apply HQ. Qed.

Lemma wp_rand_tick env w (Q : string → World St → Prop) :
  (∀ w', wv w' = wv w → w_tick w' = S (w_tick w) →
     Q (random_string (env_rand env (w_tick w)) 32) w') →
  wp (SecureRandomString env) (returns Q) w.
Proof. intros HQ. unfold wp, SecureRandomString, bind, tick, ret. simpl. by apply HQ. Qed.

Lemma wp_ctx_done env w (Q : bool → World St → Prop) :
  (∀ n w', wv w' = wv w → Q (env_ctx_done env n) w') → wp (ctx_done env) (returns Q) w.
Proof. intros HQ. unfold wp, ctx_done, bind, tick, ret. simpl. by apply HQ. Qed.

Lemma wp_publish env p w (Q : result unit → World St → Prop) :
  (∀ r w', wv w' = wv w → (is_ok r = false → ∃ n, env_mq env n ≠ MqSent) → Q r w') →
  wp (publish env p) (returns Q) w.
Proof.
  intros HQ. unfold wp, publish, bind, tick, ret, add_published, modify. simpl.
  destruct (env_mq env (w_tick w)) eqn:Hmq; simpl; apply HQ; try done.
  all: intros _; exists (w_tick w); by rewrite Hmq.
Qed.

Lemma wp_spawn sp w (Q : unit → World St → Prop) :
  (∀ w', wv w' = wv w → Q tt w') → wp (spawn sp) (returns Q) w.
Proof. intros HQ. unfold wp, spawn, modify. simpl. by apply HQ. Qed.

Lemma idle_wv com w w' : idle com w → wv w' = wv w → idle com w'.
Proof. unfold idle. congruence. Qed.

Lemma in_tx_wv com P w w' : in_tx com P w → wv w' = wv w → in_tx com P w'.
Proof. intros (d & b & Hw & HP) Hv. exists d, b. by rewrite Hv. Qed.

Lemma open_tx_wv com w w' : open_tx com w → wv w' = wv w → open_tx com w'.
Proof. intros [t Hw] Hv. exists t. by rewrite Hv. Qed.
End rules.
