(* ===== verification/Polling.v ===== *)
(** * The polling loop of the coordinator

    One round of [processSagaSteps] of [pkg/trax/coordinator.go]: the wake-up,
    the circuit breaker that keeps the coordinator from asking an unhealthy
    database, the query for the steps to process, and the interval until the
    next round.  Each step found is given to a goroutine that runs
    [processPolledStep] of Coordinator.v.

    Times are in nanoseconds.  The counter of errors is an [int] in the code;
    it counts statements and does not come near its bound. *)

From S2P Require Import Prelude GoMonad Model Database Store World Coordinator Rules.

Local Open Scope go_scope.
Local Open Scope Z_scope.

(** ** The circuit breaker *)

Record Breaker := mkBreaker {
  dbHealthy : bool;
  consecutiveDbErrors : Z;
  lastDbErrorTime : Z;
  lastHealthCheckTime : Z;
}.

(** [5 * time.Second] *)
Definition dbHealthCheckInterval : Z := 5000000000.

Definition newBreaker : Breaker := mkBreaker true 0 0 0.

(** [recordDatabaseError], and what [checkDatabaseHealth] does on an error. *)
Definition recordDatabaseError (now : Z) (c : Breaker) : Breaker :=
  let consecutiveDbErrors := consecutiveDbErrors c + 1 in
  mkBreaker
    (if (3 <=? consecutiveDbErrors) && dbHealthy c then false else dbHealthy c)
    consecutiveDbErrors now (lastHealthCheckTime c).

Definition recordDatabaseSuccess (c : Breaker) : Breaker :=
  mkBreaker true 0 (lastDbErrorTime c) (lastHealthCheckTime c).

Definition isDatabaseHealthy (c : Breaker) : bool := dbHealthy c.

(** [IsReady], given whether the coordinator runs and has a broker. *)
Definition IsReady (isRunning isMQHealthy : bool) (c : Breaker) : bool :=
  isRunning && isDatabaseHealthy c && isMQHealthy.

(** ** The interval *)

Definition minInterval : Z := 500000000.
Definition maxInterval : Z := 3000000000.

(** Twice a [float64] of this size is exact. *)
Definition nextInterval (found : nat) (currentInterval : Z) : Z :=
  if decide (found = 0%nat) then
    let doubled := 2 * currentInterval in
    if maxInterval <? doubled then maxInterval else doubled
  else minInterval.

(** ** One round *)

Definition polledSagaStates : list SagaStateEnum :=
  [SagaStateEnum_Running; SagaStateEnum_CompensationRequested].

Definition polledStepStates : list SagaStepStateEnum :=
  [SagaStepStateEnum_ExecutionCandidate; SagaStepStateEnum_ExecutionRunning;
   SagaStepStateEnum_ExecutionSucceeded; SagaStepStateEnum_ExecutionFailed;
   SagaStepStateEnum_ExecutionDone; SagaStepStateEnum_CompensationCandidate;
   SagaStepStateEnum_CompensationRunning; SagaStepStateEnum_CompensationSucceeded;
   SagaStepStateEnum_CompensationFailed].

(** What ends the wait between two rounds. *)
Inductive WakeUp := Cancelled | Notified | ChannelClosed | TimerFired.

Record Poller := mkPoller { currentInterval : Z; breaker : Breaker }.

Definition newPoller : Poller := mkPoller minInterval newBreaker.

Section polling.
Context {St : Type} `{!Store St} (nanos : nat → Z).

#[local] Notation Go := (M (World St)).

Definition now_nanos : Go Z := n <- tick ;; ret (nanos n).

Definition checkDatabaseHealth (c : Breaker) : Go Breaker :=
  now <- now_nanos ;;
  if now - lastHealthCheckTime c <? dbHealthCheckInterval then ret c
  else
    checked <- now_nanos ;;
    let c := mkBreaker (dbHealthy c) (consecutiveDbErrors c) (lastDbErrorTime c) checked in
    r <- call HealthCheck ;;
    match r with
    | Err _ => now <- now_nanos ;; ret (recordDatabaseError now c)
    | Ok _ => ret (recordDatabaseSuccess c)
    end.

(** The steps found are the ones for which a goroutine is started; [None]
    when the loop ends. *)
Definition pollRound (clusterId affinityGroup : string) (wake : WakeUp) (p : Poller) :
    Go (option (Poller * list SagaStepInstance)) :=
  let query interval :=
    c <- checkDatabaseHealth (breaker p) ;;
    if negb (isDatabaseHealthy c) then ret (Some (mkPoller interval c, []))
    else
      r <- call (GetSagaStepInstancesByAffinityAndOneOfSagaStatesAndOneOfSagaStepStates
                   clusterId affinityGroup polledSagaStates polledStepStates) ;;
      match r with
      | Err _ => now <- now_nanos ;; ret (Some (mkPoller interval (recordDatabaseError now c), []))
      | Ok sagaStepInstances =>
          ret (Some (mkPoller (nextInterval (length sagaStepInstances) interval) c,
                     sagaStepInstances))
      end in
  match wake with
  | Cancelled => ret None
  | ChannelClosed => ret (Some (p, []))
  | Notified => query minInterval
  | TimerFired => query (currentInterval p)
  end.
End polling.

(** ** The breaker *)

(** The circuit is open exactly when the last three attempts have failed. *)
Definition breaker_ok (c : Breaker) : Prop :=
  0 <= consecutiveDbErrors c ∧ dbHealthy c = (consecutiveDbErrors c <? 3).

Definition interval_ok (p : Poller) : Prop := minInterval <= currentInterval p <= maxInterval.

Lemma recordDatabaseError_ok now c : breaker_ok c → breaker_ok (recordDatabaseError now c).
Proof.
  intros [H0 Hc]. unfold breaker_ok, recordDatabaseError. simpl. split; [lia|].
  rewrite Hc. destruct (Z.leb_spec 3 (consecutiveDbErrors c + 1)),
    (Z.ltb_spec (consecutiveDbErrors c) 3), (Z.ltb_spec (consecutiveDbErrors c + 1) 3);
    simpl; lia || done.
Qed.

Lemma nextInterval_ok found interval :
  minInterval <= interval <= maxInterval →
  minInterval <= nextInterval found interval <= maxInterval.
Proof.
  unfold nextInterval, minInterval, maxInterval. intros H. case_decide; [|lia].
  destruct (Z.ltb_spec 3000000000 (2 * interval)); lia.
Qed.

(** After three rounds without work the interval is at its maximum. *)
Lemma nextInterval_saturates interval :
  minInterval <= interval <= maxInterval →
  nextInterval 0 (nextInterval 0 (nextInterval 0 interval)) = maxInterval.
Proof.
  unfold nextInterval, minInterval, maxInterval. intros H. simpl.
  repeat match goal with |- context [if ?a <? ?b then _ else _] =>
    destruct (Z.ltb_spec a b) end; lia.
Qed.

(** Without work the interval reaches its maximum after three rounds and
    stays there; with work it is the minimum again. *)
Theorem interval_saturates interval found :
  minInterval <= interval <= maxInterval →
  nextInterval 0 (nextInterval 0 (nextInterval 0 interval)) = maxInterval ∧
  nextInterval 0 maxInterval = maxInterval ∧
  nextInterval (S found) interval = minInterval.
Proof. intros H. split; [by apply nextInterval_saturates|done]. Qed.

Lemma interval_saturates_witness :
  nextInterval 0 (nextInterval 0 (nextInterval 0 700000000)) = maxInterval ∧
  nextInterval 0 maxInterval = maxInterval ∧
  nextInterval 3 700000000 = minInterval.
Proof. apply (interval_saturates 700000000 2). unfold minInterval, maxInterval. lia. Defined.

Section laws.
Context {St : Type} `{!Store St, !StoreLaws St} (nanos : nat → Z).
Implicit Types (w : World St) (com : DB).

Lemma wp_nanos w (Q : Z → World St → Prop) :
  (∀ n w', wv w' = wv w → Q n w') → wp (now_nanos nanos) (returns Q) w.
Proof. intros HQ. unfold wp, now_nanos, bind, tick, ret. simpl. by apply HQ. Qed.

Lemma wp_HealthCheck com w (Q : result unit → World St → Prop) :
  idle com w → (∀ r w', idle com w' → (is_ok r = false → faulty (St := St)) → Q r w') →
  wp (call HealthCheck) (returns Q) w.
Proof.
  intros Hi HQ. apply (wp_call _ _ _ _ law_HealthCheck). intros r w' _ [Hv Hr].
  apply HQ; [by eapply idle_wv|]. destruct r; [done|]. by destruct Hr.
Qed.

Lemma wp_checkDatabaseHealth c com w (Q : Breaker → World St → Prop) :
  idle com w → breaker_ok c →
  (∀ c' w', idle com w' → breaker_ok c' →
     (dbHealthy c' = false → dbHealthy c = false ∨ faulty (St := St)) → Q c' w') →
  wp (checkDatabaseHealth nanos c) (returns Q) w.
Proof.
  intros Hi [H0 Hc] HQ. unfold checkDatabaseHealth. apply wp_bind_ret, wp_nanos. intros n1 w1 E1.
  eapply idle_wv in Hi; [|exact E1]. apply wp_if; intros _; [apply wp_ret; apply HQ; auto; done|].
  apply wp_bind_ret, wp_nanos. intros n2 w2 E2. eapply idle_wv in Hi; [|exact E2].
  apply wp_bind_ret. eapply wp_HealthCheck; [exact Hi|]. intros [[]|e] w3 Hi3 Hr.
  - apply wp_ret, HQ; done.
  - apply wp_bind_ret, wp_nanos. intros n4 w4 E4.
    apply wp_ret, HQ; [by eapply idle_wv|by apply recordDatabaseError_ok|auto].
Qed.

(** What a round comes to. *)
Definition round_outcome (cid affinityGroup : string) com (p : Poller) (wake : WakeUp)
    (r : option (Poller * list SagaStepInstance)) : Prop :=
  match r with
  | None => wake = Cancelled
  | Some (p', xs) =>
      breaker_ok (breaker p') ∧ interval_ok p' ∧
      (∀ x, x ∈ xs → ∃ k, step_rows cid com !! k = Some x ∧
         poll_selects cid affinityGroup polledSagaStates polledStepStates com x = true) ∧
      (¬ faulty (St := St) → dbHealthy (breaker p) = true → has_tables cid com →
       wake = TimerFired ∨ wake = Notified →
       dbHealthy (breaker p') = true ∧
       ∀ k x, step_rows cid com !! k = Some x →
         poll_selects cid affinityGroup polledSagaStates polledStepStates com x = true → x ∈ xs)
  end.

Lemma pollRound_outcome cid affinityGroup wake p com w :
  idle com w → breaker_ok (breaker p) → interval_ok p →
  wp (pollRound nanos cid affinityGroup wake p)
    (returns (λ r w', idle com w' ∧ round_outcome cid affinityGroup com p wake r)) w.
Proof.
  intros Hi Hb Hv. unfold pollRound.
  assert (∀ A (P : A → Prop) a, a ∈ [] → P a) as Hnil by by intros A P a ?%elem_of_nil.
  assert (∀ interval, minInterval <= interval <= maxInterval →
    wp (c <- checkDatabaseHealth nanos (breaker p) ;;
        if negb (isDatabaseHealthy c) then ret (Some (mkPoller interval c, []))
        else
          r <- call (GetSagaStepInstancesByAffinityAndOneOfSagaStatesAndOneOfSagaStepStates
                       cid affinityGroup polledSagaStates polledStepStates) ;;
          match r with
          | Err _ => now <- now_nanos nanos ;;
                     ret (Some (mkPoller interval (recordDatabaseError now c), []))
          | Ok xs => ret (Some (mkPoller (nextInterval (length xs) interval) c, xs))
          end)%go (returns (λ r w', idle com w' ∧ round_outcome cid affinityGroup com p wake r)) w)
    as Hquery.
  { intros interval Hint. apply wp_bind_ret. eapply wp_checkDatabaseHealth; [done..|].
    intros c w1 Hi1 Hc Hopen. apply wp_if; intros Hh.
    { apply wp_ret. split; [done|]. split; [done|]. split; [done|]. split; [by intros x ?%elem_of_nil|].
      intros Hf Hp. apply negb_true_iff in Hh. destruct (Hopen Hh); [congruence|done]. }
    apply negb_false_iff in Hh. apply wp_bind_ret, (wp_call _ _ _ _ (law_GetSagaStepInstances _ _ _ _)).
    intros [xs|e] w2 _; rewrite Hi1.
    - intros [_ (d & [Hxs ->] & Hw)]. apply wp_ret. split; [done|]. split; [done|].
      split; [by apply nextInterval_ok|]. split; [intros x; apply Hxs|].
      intros _ _ _ _. split; [done|]. intros k x Hk Hs. apply Hxs. eauto.
    - intros [(_ & [] & _)|(_ & Hx & Hw)].
      assert (idle com w2) as Hi2.
      { unfold idle. by destruct Hw as [->|(a & d & [_ ->] & ->)]. }
      apply wp_bind_ret, wp_nanos. intros n w3 E3. apply wp_ret. split; [by eapply idle_wv|].
      split; [by apply recordDatabaseError_ok|]. split; [done|].
      split; [by intros x ?%elem_of_nil|]. intros Hf _ Htab _. by destruct Hx as [?|[Hx|?]]. }
  destruct wake.
  - by apply wp_ret.
  - apply Hquery. by unfold minInterval, maxInterval.
  - apply wp_ret. split; [done|]. split; [done|]. split; [done|]. split; [by intros x ?%elem_of_nil|].
    by intros _ _ _ [].
  - apply Hquery, Hv.
Qed.

End laws.
