(* ===== verification/Startup.v ===== *)
(** * The coordinator around its loops

    [pkg/trax/coordinator.go] outside the processing of sagas: [Start], [Stop]
    and [Restart], the loading of templates and its bookkeeping, the fan-out of
    the store's notifications, and the submitters: their announcement, and
    what makes a coordinator follow them.

    Consumers are known by the context they were started under and their
    queue; the context of [consumerCtx] is a number, and what [consumerCancel]
    cancels is the current one.  The answers of the store are part of the
    surroundings, and so is every goroutine that is only started here. *)

From stdpp Require Import pretty.
From stdpp Require Import relations.
From S2P Require Import Prelude GoMonad Model Random Naming MqPool Json Routing MqBroker Store.
From S2P Require Import Messages World Submitter Polling.
From Stdlib Require Import Strings.Ascii.

#[local] Open Scope go_scope.

(** ** Names that need the broker client *)

Definition getSagaSubmitterInboxNodeNames (clusterId sagaSubmitterId : string) : string * string :=
  let key := saga_submitter_inbox_key clusterId sagaSubmitterId in
  (GetPublishNodeName key, GetSubscribeNodeName key).
Definition getSagaSubmitterOutboxNodeNames (clusterId sagaSubmitterId : string) : string * string :=
  let key := saga_submitter_outbox_key clusterId sagaSubmitterId in
  (GetPublishNodeName key, GetSubscribeNodeName key).
Definition getControlBusPublishNodeName (clusterId : string) : string :=
  GetPublishNodeName (clusterId +:+ "_trax_coordinators_control_bus").
Definition getControlSubscribeNodeNameByAffinity (clusterId affinityGroup : string) : string :=
  GetSubscribeNodeName (clusterId +:+ "_trax_coordinator_" +:+ affinityGroup +:+ "_control_inbox").
Definition getEventBusNodeNames (clusterId : string) : string * string :=
  let nodeKey := clusterId +:+ "_trax_event_bus" in
  (GetPublishNodeName nodeKey, GetSubscribeNodeName nodeKey).

(** ** State *)

(** A notification of the store, and a subscription with what it has not
    read yet. *)
Record Notification := mkNotification { nt_Channel : string; nt_Payload : string }.

Record Subscription := mkSubscription { ns_channel : string; ns_ch : list Notification }.

Inductive Loop := PollingLoop (clusterId : string) | BroadcastLoop | ReloadLoop.

(** A consumer that was started: under which context, on which queue. *)
Record Consumer := mkConsumer { cs_ctx : nat; cs_queue : string }.

(** [followedMap] belongs to the package. *)
Record Coordinator := mkCoordinator {
  co_isRunning : bool;
  co_cancelClosed : bool;               (* [cancelChan] is closed *)
  co_consumerCtx : option nat;
  co_cancelled : gset nat;
  co_initializedSteps : gset string;
  co_followedMap : gset string;
  co_notifSubs : list Subscription;
  co_consumers : list Consumer;
  co_loops : list Loop;
}.

(** [NewSagaCoordinator] in a fresh process. *)
Definition NewSagaCoordinator : Coordinator :=
  mkCoordinator false false None ∅ ∅ ∅ [] [] [].

(** The goroutines that publish follow messages are recorded. *)
Record CoordWorld := mkCoordWorld {
  cw_coordinator : Coordinator;
  cw_broker : BrokerWorld;
  cw_pool : PoolWorld;
  cw_breaker : Breaker;
  cw_follow : list Published;
  cw_tick : nat;
}.

Record CoordEnv := mkCoordEnv {
  ve_env : Env;                                        (* clock, random *)
  ve_broker : BrokerEnv;
  ve_nanos : nat → Z;
  ve_health : nat → bool;                              (* [HealthCheck] *)
  ve_clusters : nat → result (list string);            (* [ListClusterIds] *)
  ve_templates : nat → result (list SagaTemplate);     (* [ListSagaTemplates] *)
  ve_notifies : bool;                                  (* [Notifications() != nil] *)
  ve_connection_closed : nat → bool;
  ve_reconnected : nat → bool;                         (* within thirty seconds *)
}.

Definition set_isRunning (b : bool) (c : Coordinator) : Coordinator :=
  mkCoordinator b (co_cancelClosed c) (co_consumerCtx c) (co_cancelled c) (co_initializedSteps c)
    (co_followedMap c) (co_notifSubs c) (co_consumers c) (co_loops c).
Definition set_cancelClosed (b : bool) (c : Coordinator) : Coordinator :=
  mkCoordinator (co_isRunning c) b (co_consumerCtx c) (co_cancelled c) (co_initializedSteps c)
    (co_followedMap c) (co_notifSubs c) (co_consumers c) (co_loops c).
Definition set_initialized (f : gset string → gset string) (c : Coordinator) : Coordinator :=
  mkCoordinator (co_isRunning c) (co_cancelClosed c) (co_consumerCtx c) (co_cancelled c)
    (f (co_initializedSteps c)) (co_followedMap c) (co_notifSubs c) (co_consumers c) (co_loops c).
Definition set_followed (f : gset string → gset string) (c : Coordinator) : Coordinator :=
  mkCoordinator (co_isRunning c) (co_cancelClosed c) (co_consumerCtx c) (co_cancelled c)
    (co_initializedSteps c) (f (co_followedMap c)) (co_notifSubs c) (co_consumers c) (co_loops c).
Definition set_subs (l : list Subscription) (c : Coordinator) : Coordinator :=
  mkCoordinator (co_isRunning c) (co_cancelClosed c) (co_consumerCtx c) (co_cancelled c)
    (co_initializedSteps c) (co_followedMap c) l (co_consumers c) (co_loops c).
Definition set_consumers (l : list Consumer) (c : Coordinator) : Coordinator :=
  mkCoordinator (co_isRunning c) (co_cancelClosed c) (co_consumerCtx c) (co_cancelled c)
    (co_initializedSteps c) (co_followedMap c) (co_notifSubs c) l (co_loops c).
Definition set_loops (l : list Loop) (c : Coordinator) : Coordinator :=
  mkCoordinator (co_isRunning c) (co_cancelClosed c) (co_consumerCtx c) (co_cancelled c)
    (co_initializedSteps c) (co_followedMap c) (co_notifSubs c) (co_consumers c) l.
(** [context.WithCancel(context.Background())] *)
Definition new_consumerCtx (c : Coordinator) : Coordinator :=
  mkCoordinator (co_isRunning c) (co_cancelClosed c)
    (Some (match co_consumerCtx c with Some n => S n | None => 0 end)) (co_cancelled c)
    (co_initializedSteps c) (co_followedMap c) (co_notifSubs c) (co_consumers c) (co_loops c).
Definition consumerCancel (c : Coordinator) : Coordinator :=
  mkCoordinator (co_isRunning c) (co_cancelClosed c) (co_consumerCtx c)
    (match co_consumerCtx c with Some n => {[n]} ∪ co_cancelled c | None => co_cancelled c end)
    (co_initializedSteps c) (co_followedMap c) (co_notifSubs c) (co_consumers c) (co_loops c).

(** Consumers that consume: their context is not cancelled. *)
Definition live_consumers (c : Coordinator) : list string :=
  cs_queue <$> filter (λ k, cs_ctx k ∉ co_cancelled c) (co_consumers c).

Section startup.
Context (parse : string → option Json) (env : CoordEnv) (SubComponent affinityGroup : string).
#[local] Notation Go := (M CoordWorld).

Definition coord_tick : Go nat := λ w,
  (Ret (cw_tick w), mkCoordWorld (cw_coordinator w) (cw_broker w) (cw_pool w) (cw_breaker w)
    (cw_follow w) (S (cw_tick w))).
Definition with_coord (f : Coordinator → Coordinator) : Go unit :=
  modify (λ w, mkCoordWorld (f (cw_coordinator w)) (cw_broker w) (cw_pool w) (cw_breaker w)
    (cw_follow w) (cw_tick w)).
Definition on_broker {A} (m : M BrokerWorld A) : Go A := λ w,
  match m (cw_broker w) with
  | (o, b) => (o, mkCoordWorld (cw_coordinator w) b (cw_pool w) (cw_breaker w) (cw_follow w)
      (cw_tick w))
  end.
Definition on_pool {A} (m : M PoolWorld A) : Go A := λ w,
  match m (cw_pool w) with
  | (o, p) => (o, mkCoordWorld (cw_coordinator w) (cw_broker w) p (cw_breaker w) (cw_follow w)
      (cw_tick w))
  end.
Definition set_breaker (b : Breaker) : Go unit :=
  modify (λ w, mkCoordWorld (cw_coordinator w) (cw_broker w) (cw_pool w) b (cw_follow w) (cw_tick w)).
Definition spawn_follow (p : Published) : Go unit :=
  modify (λ w, mkCoordWorld (cw_coordinator w) (cw_broker w) (cw_pool w) (cw_breaker w)
    (cw_follow w ++ [p]) (cw_tick w)).

Definition ListClusterIds : Go (result (list string)) :=
  n <- coord_tick ;; ret (ve_clusters env n).
Definition ListSagaTemplates : Go (result (list SagaTemplate)) :=
  n <- coord_tick ;; ret (ve_templates env n).

(** [checkDatabaseHealth], as in Polling.v. *)
Definition startup_health_check : Go unit :=
  n <- coord_tick ;;
  w <- get_state ;;
  let c := cw_breaker w in
  if (ve_nanos env n - lastHealthCheckTime c <? dbHealthCheckInterval)%Z then ret tt
  else
    checked <- coord_tick ;;
    let c := mkBreaker (dbHealthy c) (consecutiveDbErrors c) (lastDbErrorTime c)
               (ve_nanos env checked) in
    answered <- coord_tick ;;
    set_breaker (if ve_health env answered then recordDatabaseSuccess c
                 else recordDatabaseError (ve_nanos env answered) c).

(** ** Templates *)

Definition step_key (clusterId sagaTemplateId stepTemplateId : string) : string :=
  clusterId +:+ ":" +:+ sagaTemplateId +:+ ":" +:+ stepTemplateId.

Definition isStepInitialized (clusterId sagaTemplateId stepTemplateId : string) (c : Coordinator) :
    bool :=
  bool_decide (step_key clusterId sagaTemplateId stepTemplateId ∈ co_initializedSteps c).

Definition markStepInitialized (clusterId sagaTemplateId stepTemplateId : string) :
    Coordinator → Coordinator :=
  set_initialized (λ s, {[step_key clusterId sagaTemplateId stepTemplateId]} ∪ s).

Definition unmarkAllStepsForTemplate (clusterId sagaTemplateId : string) : Coordinator → Coordinator :=
  set_initialized (filter (λ key,
    String.prefix (clusterId +:+ ":" +:+ sagaTemplateId +:+ ":") key = false)).

(** The loops of [reloadSagaTemplates], from the inside. *)
Fixpoint reload_steps (clusterId sagaTemplateId : string) (steps : list string) : Go (result unit) :=
  match steps with
  | [] => ret (Ok tt)
  | sagaStepTemplateId :: steps =>
      w <- get_state ;;
      if isStepInitialized clusterId sagaTemplateId sagaStepTemplateId (cw_coordinator w) then
        reload_steps clusterId sagaTemplateId steps
      else
        _ <-? on_broker (InitQueueWithTopicBinding (ve_broker env)
                (getStepTopicExchangeName clusterId)
                (getExecutorInboxQueueName clusterId sagaTemplateId sagaStepTemplateId)
                (getExecutorInboxBindingKey clusterId sagaTemplateId sagaStepTemplateId))
        else err => ret (Err (Errorf ("failed to initialize executor inbox queue: " +:+ error_text err))) ;;
        with_coord (markStepInitialized clusterId sagaTemplateId sagaStepTemplateId) ;;;
        reload_steps clusterId sagaTemplateId steps
  end.

Fixpoint reload_templates (clusterId : string) (sagaTemplates : list SagaTemplate) : Go (result unit) :=
  match sagaTemplates with
  | [] => ret (Ok tt)
  | sagaTemplate :: sagaTemplates =>
      _ <-? reload_steps clusterId (st_TemplateId sagaTemplate) (st_SagaStepTemplateIds sagaTemplate)
      else err => ret (Err err) ;;
      reload_templates clusterId sagaTemplates
  end.

Fixpoint reload_clusters (clusterIds : list string) : Go (result unit) :=
  match clusterIds with
  | [] => ret (Ok tt)
  | clusterId :: clusterIds =>
      sagaTemplates <-? ListSagaTemplates
      else err => ret (Err (Errorf ("failed to list saga templates: " +:+ error_text err))) ;;
      _ <-? reload_templates clusterId sagaTemplates else err => ret (Err err) ;;
      reload_clusters clusterIds
  end.

Definition reloadSagaTemplates : Go (result unit) :=
  clusterIds <-? ListClusterIds
  else err => ret (Err (Errorf ("failed to list cluster IDs: " +:+ error_text err))) ;;
  reload_clusters clusterIds.

Fixpoint unmark_clusters (clusterIds : list string) (templateId : string) (c : Coordinator) :
    Coordinator :=
  match clusterIds with
  | [] => c
  | clusterId :: clusterIds =>
      unmark_clusters clusterIds templateId (unmarkAllStepsForTemplate clusterId templateId c)
  end.

Definition handleTemplateDeleted (templateId : string) : Go unit :=
  r <- ListClusterIds ;;
  match r with
  | Err _ => ret tt
  | Ok clusterIds => with_coord (unmark_clusters clusterIds templateId)
  end.

(** The event of a template, as the reload loop reads it. *)
Record TemplateEvent := mkTemplateEvent {
  te_Action : string;
  te_Type : string;
  te_TemplateId : string;
}.

Definition TemplateEvent_fields : list (Field TemplateEvent) :=
  [ field "action" te_Action (λ v e, mkTemplateEvent v (te_Type e) (te_TemplateId e)) kept JString
      decode_string;
    field "type" te_Type (λ v e, mkTemplateEvent (te_Action e) v (te_TemplateId e)) kept JString
      decode_string;
    field "template_id" te_TemplateId (λ v e, mkTemplateEvent (te_Action e) (te_Type e) v) kept
      JString decode_string ].

(** What ends the wait of the reload loop, apart from its end. *)
Inductive ReloadWake := ReloadNotified (n : Notification) | ReloadTimer.

(** One turn; the error of the reload is only logged. *)
Definition reload_turn (wake : ReloadWake) : Go unit :=
  (match wake with
   | ReloadTimer => ret tt
   | ReloadNotified notif =>
       match parse (nt_Payload notif) ≫=
               unmarshal (decode_struct TemplateEvent_fields) (mkTemplateEvent "" "" "") with
       | Some event =>
           if bool_decide (te_Action event = "delete") && bool_decide (te_Type event = "saga_template")
           then handleTemplateDeleted (te_TemplateId event) else ret tt
       | None => ret tt
       end
   end) ;;;
  reloadSagaTemplates ;;;
  ret tt.

(** [getTemplateReloadInterval]: what the environment variable parses to. *)
Definition getTemplateReloadInterval (parsed : option Z) : Z :=
  match parsed with
  | Some d => if (0 <? d)%Z then d else 10000000000
  | None => 10000000000
  end.

(** [executionTimeoutMs] of [NewSagaCoordinator]. *)
Definition execution_timeout (parsed : option Z) : Z :=
  match parsed with Some ms => if (0 <? ms)%Z then ms else 900000 | None => 900000 end.

(** ** Notifications *)

Definition subscription_buffer : nat := 100.

Definition subscribeNotifications (channel : string) (c : Coordinator) : Coordinator :=
  set_subs (co_notifSubs c ++ [mkSubscription channel []]) c.

(** One notification from the store, dropped where the buffer is full. *)
Definition offer (n : Notification) (s : Subscription) : Subscription :=
  if (bool_decide (ns_channel s = "") || bool_decide (ns_channel s = nt_Channel n)) &&
     (length (ns_ch s) <? subscription_buffer)
  then mkSubscription (ns_channel s) (ns_ch s ++ [n]) else s.

Definition broadcast (n : Notification) (c : Coordinator) : Coordinator :=
  set_subs (offer n <$> co_notifSubs c) c.

Definition add_loop (l : Loop) (c : Coordinator) : Coordinator := set_loops (co_loops c ++ [l]) c.

(** The goroutines subscribe when they begin. *)
Definition startNotificationBroadcaster : Go unit :=
  if ve_notifies env then with_coord (add_loop BroadcastLoop) else ret tt.
Definition startTemplateReloadLoop : Go unit :=
  with_coord (λ c, add_loop ReloadLoop (subscribeNotifications "trax_template_events" c)).
Definition startProcessing (clusterId : string) : Go unit :=
  with_coord (λ c, add_loop (PollingLoop clusterId) (subscribeNotifications "trax_saga_events" c)).

(** ** Consumers *)

(** [ConsumeQueueAsync] and [ConsumeNodeAsync] with [c.consumerCtx]: a nil
    context has no children. *)
Definition consume (queueName : string) : Go unit :=
  w <- get_state ;;
  match co_consumerCtx (cw_coordinator w) with
  | None => panic "cannot create context from nil parent"
  | Some ctx => with_coord (λ c, set_consumers (co_consumers c ++ [mkConsumer ctx queueName]) c)
  end.

Definition follow_key (clusterId sagaSubmitterId : string) : string :=
  clusterId +:+ "|" +:+ sagaSubmitterId.

(** The look-up is one section under the lock of [followedMap], the mark
    another one; two announcements of a submitter that overlap can both find
    nothing and both go on. *)
Definition alreadyFollowed (followKey : string) : Go bool :=
  w <- get_state ;; ret (bool_decide (followKey ∈ co_followedMap (cw_coordinator w))).

Definition markFollowed (followKey : string) : Go unit :=
  with_coord (set_followed (λ s, {[followKey]} ∪ s)).

(** From the mark on. *)
Definition startFollowing (clusterId sagaSubmitterId : string) : Go unit :=
  markFollowed (follow_key clusterId sagaSubmitterId) ;;;
  consume (getSagaSubmitterOutboxNodeNames clusterId sagaSubmitterId).2.

Definition followSagaSubmitterIfNeeded (clusterId sagaSubmitterId : string) : Go unit :=
  followed <- alreadyFollowed (follow_key clusterId sagaSubmitterId) ;;
  if followed : bool then ret tt else startFollowing clusterId sagaSubmitterId.

(** The callback of the control inbox. *)
Definition consumeControl (msg : TraxMessage) : Go (result unit) :=
  match msg_Payloads msg with
  | [] => panic "index out of range"
  | payload :: _ =>
      match pl_Data payload with
      | SagaPayloadType_FollowSagaSubmitter sagaSubmitterId =>
          if bool_decide (msg_ClusterId msg = "") then panic "No clusterId in message"
          else
            followSagaSubmitterIfNeeded (msg_ClusterId msg) sagaSubmitterId ;;;
            ret (Ok tt)
      | PayloadData_Other type _ =>
          if bool_decide (type = FollowSagaSubmitterType) then
            panic "failed to unmarshal FollowSagaSubmitterPayload"
          else ret (Ok tt)
      | _ => ret (Ok tt)
      end
  end.

(** ** Submitters *)

Definition follow_message (messageId traceId executionId : string) (timestamp : Z)
    (clusterId sagaSubmitterId : string) : TraxMessage :=
  mkTraxMessage "trax.TraxMessage" "v1.0.0" messageId "" executionId "" traceId clusterId
    (FormatInt timestamp) ∅ [] "" "" SubComponent "" "" "" Anonymous
    [json_payload (SagaPayloadType_FollowSagaSubmitter sagaSubmitterId)].

Definition coord_rand : Go string :=
  n <- coord_tick ;; ret (random_string (env_rand (ve_env env) n) 32).
Definition coord_now : Go Z := n <- coord_tick ;; ret (env_now (ve_env env) n).

(** A cluster of [AnnounceSagaSubmitter]. *)
Definition announce_cluster (sagaSubmitterId clusterId : string) : Go (result SubmitterNodeNames) :=
  let '(publishInboxNodeName, subscribeInboxNodeName) :=
    getSagaSubmitterInboxNodeNames clusterId sagaSubmitterId in
  _ <-? on_broker (InitPublisherNodeAndMultipleSubscribeNodes (ve_broker env) publishInboxNodeName
          [subscribeInboxNodeName])
  else err => ret (Err (Errorf
    ("failed to initialize mq pub/sub input node system for saga submitter '" +:+ sagaSubmitterId +:+
     "' [cluster: '" +:+ clusterId +:+ "']: " +:+ error_text err))) ;;
  let '(publishOutboxNodeName, subscribeOutboxNodeName) :=
    getSagaSubmitterOutboxNodeNames clusterId sagaSubmitterId in
  _ <-? on_broker (InitPublisherNodeAndMultipleSubscribeNodes (ve_broker env) publishOutboxNodeName
          [subscribeOutboxNodeName])
  else err => ret (Err (Errorf
    ("failed to initialize mq pub/sub outbox node system for saga submitter '" +:+ sagaSubmitterId +:+
     "' [cluster: '" +:+ clusterId +:+ "']: " +:+ error_text err))) ;;
  followSagaSubmitterIfNeeded clusterId sagaSubmitterId ;;;
  messageId <- coord_rand ;;
  traceId <- coord_rand ;;
  executionId <- coord_rand ;;
  timestamp <- coord_now ;;
  spawn_follow (PubNode (getControlBusPublishNodeName clusterId)
    (follow_message messageId traceId executionId timestamp clusterId sagaSubmitterId)) ;;;
  ret (Ok (mkSubmitterNodeNames subscribeInboxNodeName publishOutboxNodeName)).

Fixpoint announce_clusters (sagaSubmitterId : string) (clusterIds : list string)
    (names : gmap string SubmitterNodeNames) : Go (result (gmap string SubmitterNodeNames)) :=
  match clusterIds with
  | [] => ret (Ok names)
  | clusterId :: clusterIds =>
      n <-? announce_cluster sagaSubmitterId clusterId else err => ret (Err err) ;;
      announce_clusters sagaSubmitterId clusterIds (<[clusterId := n]> names)
  end.

Definition AnnounceSagaSubmitter (sagaSubmitterId : string) :
    Go (result (list string * gmap string SubmitterNodeNames)) :=
  clusterIds <-? ListClusterIds
  else err => ret (Err (Errorf ("failed to get cluster ids: " +:+ error_text err))) ;;
  names <-? announce_clusters sagaSubmitterId clusterIds ∅ else err => ret (Err err) ;;
  ret (Ok (clusterIds, names)).

Definition ForgetSagaSubmitter (submitterId : string) : Go (result unit) :=
  ret (Err (Errorf "not implemented")).

(** ** Start, Stop, Restart *)

Definition init_error (what clusterId : string) (err : goerror) : goerror :=
  Errorf ("failed to initialize " +:+ what +:+ " [cluster: '" +:+ clusterId +:+ "']: " +:+
    error_text err).

Definition start_cluster (clusterId : string) : Go (result unit) :=
  let '(eventBusPublishNodeName, eventBusSubscribeNodeName) := getEventBusNodeNames clusterId in
  _ <-? on_broker (InitPublisherNodeAndMultipleSubscribeNodes (ve_broker env)
          eventBusPublishNodeName [eventBusSubscribeNodeName])
  else err => ret (Err (init_error "mq pub/sub node system for trax events" clusterId err)) ;;
  let controlInboxNodeName := getControlSubscribeNodeNameByAffinity clusterId affinityGroup in
  _ <-? on_broker (InitPublisherNodeAndMultipleSubscribeNodes (ve_broker env)
          (getControlBusPublishNodeName clusterId) [controlInboxNodeName])
  else err => ret (Err (init_error ("mq pub/sub node system for coordinator having affinity group '" +:+
         affinityGroup +:+ "'") clusterId err)) ;;
  let stepExchangeName := getStepTopicExchangeName clusterId in
  _ <-? on_broker (InitTopicExchange (ve_broker env) stepExchangeName)
  else err => ret (Err (init_error ("step topic exchange '" +:+ stepExchangeName +:+ "'") clusterId err)) ;;
  let resultsQueueName := getCoordinatorResultsQueueName clusterId affinityGroup in
  _ <-? on_broker (InitQueueWithTopicBinding (ve_broker env) stepExchangeName resultsQueueName
          (getCoordinatorResultsBindingKey clusterId affinityGroup))
  else err => ret (Err (Errorf ("failed to initialize coordinator results queue '" +:+
    resultsQueueName +:+ "' [cluster: '" +:+ clusterId +:+ "', affinity: '" +:+ affinityGroup +:+
    "']: " +:+ error_text err))) ;;
  consume resultsQueueName ;;;
  consume controlInboxNodeName ;;;
  startProcessing clusterId ;;;
  ret (Ok tt).

Fixpoint start_clusters (clusterIds : list string) : Go (result unit) :=
  match clusterIds with
  | [] => ret (Ok tt)
  | clusterId :: clusterIds =>
      _ <-? start_cluster clusterId else err => ret (Err err) ;;
      start_clusters clusterIds
  end.

Definition Start : Go (result unit) :=
  with_coord new_consumerCtx ;;;
  startup_health_check ;;;
  clusterIds <-? ListClusterIds
  else err => ret (Err (Errorf ("failed to get cluster IDs: " +:+ error_text err))) ;;
  _ <-? start_clusters clusterIds else err => ret (Err err) ;;
  _ <-? reloadSagaTemplates
  else err => ret (Err (Errorf ("failed to load saga templates on startup: " +:+ error_text err))) ;;
  startNotificationBroadcaster ;;;
  startTemplateReloadLoop ;;;
  with_coord (set_isRunning true) ;;;
  ret (Ok tt).

(** [wg.Wait()]: every loop looks at the closed channel and ends. *)
Definition Stop : Go (result unit) :=
  w <- get_state ;;
  if negb (co_isRunning (cw_coordinator w)) then ret (Ok tt)
  else if co_cancelClosed (cw_coordinator w) then panic "close of closed channel"
  else
    with_coord (λ c, set_isRunning false (set_cancelClosed true c)) ;;;
    with_coord consumerCancel ;;;
    with_coord (set_loops []) ;;;
    with_coord (set_followed (λ _, ∅)) ;;;
    with_coord (set_initialized (λ _, ∅)) ;;;
    with_coord (set_subs []) ;;;
    on_pool ClearAllPublishers ;;;
    on_pool DrainPool ;;;
    ret (Ok tt).

Definition Restart : Go (result unit) :=
  _ <-? Stop else err => ret (Err (Errorf ("failed to stop coordinator: " +:+ error_text err))) ;;
  n <- coord_tick ;;
  m <- coord_tick ;;
  if ve_connection_closed env n && negb (ve_reconnected env m) then
    ret (Err (Errorf "failed to restart coordinator: RabbitMQ connection not available after 30s"))
  else
    with_coord (set_cancelClosed false) ;;;
    _ <-? Start else err => ret (Err (Errorf ("failed to start coordinator: " +:+ error_text err))) ;;
    ret (Ok tt).
End startup.

(** ** What the coordinator has set up

    Templates: after a reload without an error every step of every template
    has an inbox that requests reach.  Life: a coordinator that runs has one
    consumer for each of its queues and one for each submitter it follows, and
    none when it is stopped.  Submitters: the answer to an announcement is one
    that a submitter can use, and whoever is answered is also served.
    Notifications: subscribers get them in order, and all of them unless they
    fall a hundred behind. *)

#[local] Open Scope go_scope.

(** ** Steps and their inboxes *)

Abbreviation no_colon := (no_char ":"%char).

Lemma marked_key_inj c t s c' t' s' :
  no_colon c = true → no_colon t = true → no_colon c' = true → no_colon t' = true →
  step_key c t s = step_key c' t' s' → c = c' ∧ t = t' ∧ s = s'.
Proof.
  intros Hc Ht Hc' Ht' Heq. unfold step_key in Heq.
  apply (split_at_char ":") in Heq as [-> Heq]; [|done..].
  by apply (split_at_char ":") in Heq as [-> ->].
Qed.

(** The inbox of a step is bound to the exchange of its cluster. *)
Definition step_binding (c t s : string) : Binding :=
  mkBinding (getStepTopicExchangeName c) (getExecutorInboxBindingKey c t s)
    (getExecutorInboxQueueName c t s).

(** What is marked as initialized is bound. *)
Definition marks_ok (marks : gset string) (t : Topology) : Prop :=
  ∀ key, key ∈ marks → ∃ c tm s, key = step_key c tm s ∧ no_colon c = true ∧ no_colon tm = true ∧
    step_binding c tm s ∈ tp_bindings t.

Lemma marks_ok_extends marks t t' : extends t t' → marks_ok marks t → marks_ok marks t'.
Proof.
  intros He Hm key Hk. destruct (Hm _ Hk) as (c & tm & s & -> & ? & ? & Hb).
  exists c, tm, s. split_and!; [done..|]. by eapply binding_kept.
Qed.

Definition topology (w : CoordWorld) : Topology := bk_topology (cw_broker w).
Definition marks (w : CoordWorld) : gset string := co_initializedSteps (cw_coordinator w).

(** A function that only declares and marks. *)
Record sets_up (w w' : CoordWorld) : Prop := {
  su_extends : extends (topology w) (topology w');
  su_marks : marks_ok (marks w) (topology w) → marks_ok (marks w') (topology w');
  su_rest : ∃ m, cw_coordinator w' = set_initialized (λ _, m) (cw_coordinator w);
  su_world : cw_pool w' = cw_pool w ∧ cw_breaker w' = cw_breaker w ∧ cw_follow w' = cw_follow w;
}.

Lemma sets_up_refl w : sets_up w w.
Proof. split; [done|done|by exists (marks w); destruct w as [[]]|done]. Qed.

Lemma sets_up_trans w1 w2 w3 : sets_up w1 w2 → sets_up w2 w3 → sets_up w1 w3.
Proof.
  intros [He1 Hm1 [m1 Hr1] (Hp1 & Hb1 & Hf1)] [He2 Hm2 [m2 Hr2] (Hp2 & Hb2 & Hf2)].
  split; [by etrans|auto| |by rewrite Hp2, Hb2, Hf2].
  exists m2. by rewrite Hr2, Hr1.
Qed.

Section reload.
Context (env : CoordEnv).

(** The identifiers that the store answers with hold no colon. *)
Definition clean_clusters : Prop :=
  ∀ n cs, ve_clusters env n = Ok cs → Forall (λ c, no_colon c = true) cs.
Definition clean_templates : Prop :=
  ∀ n ts, ve_templates env n = Ok ts → Forall (λ t, no_colon (st_TemplateId t) = true) ts.

Lemma reload_steps_spec c tm steps w :
  no_colon c = true → no_colon tm = true →
  wp (reload_steps env c tm steps) (returns (λ r w',
    sets_up w w' ∧ cw_tick w' = cw_tick w ∧
    match r with
    | Ok _ => marks_ok (marks w) (topology w) →
        ∀ s, s ∈ steps → step_binding c tm s ∈ tp_bindings (topology w')
    | Err _ => True
    end)) w.
Proof.
  intros Hc Htm. revert w. induction steps as [|s steps IH]; intros w.
  { split; [apply sets_up_refl|]. split; [done|]. by intros _ s ?%not_elem_of_nil. }
  simpl. apply wp_bind_ret. unfold wp at 1. simpl.
  unfold isStepInitialized. case_bool_decide as Hin.
  - generalize (IH w). apply wp_returns_mono. intros r w' (Hs & Ht & Hr).
    split; [done|]. split; [done|]. destruct r as [u|e]; [|done]. intros Hm s' [->|Hs']%elem_of_cons.
    + destruct (Hm _ Hin) as (c' & tm' & s'' & Hkey & ? & ? & Hb).
      apply marked_key_inj in Hkey as (<- & <- & <-); [|done..].
      by eapply binding_kept; [apply Hs|].
    + by apply Hr.
  - apply wp_or_else.
    pose proof (InitQueue_declares (ve_broker env) (getStepTopicExchangeName c)
      (getExecutorInboxQueueName c tm s) (getExecutorInboxBindingKey c tm s) (cw_broker w)) as Hd.
    unfold wp in Hd |- *. unfold on_broker.
    destruct (InitQueueWithTopicBinding _ _ _ _ (cw_broker w)) as [[[u|e]|msg|] b]; simpl in *;
      [|destruct Hd as [He _]|done|done].
    2: { split; [|done]. split; simpl; [done|by apply marks_ok_extends| |done].
         exists (marks w). by destruct w as [[]]. }
    destruct Hd as [He Hb]. unfold bind, with_coord, modify. simpl.
    match goal with |- context [reload_steps env c tm steps ?w1] =>
      assert (Hw1 : sets_up w w1); [|generalize (IH w1)] end.
    { split; simpl; [done| |by eexists|done].
      unfold marks_ok. simpl. intros Hm key [->%elem_of_singleton|Hk]%elem_of_union.
      - by exists c, tm, s.
      - by apply (marks_ok_extends _ _ _ He Hm). }
    apply wp_returns_mono. intros r w' (Hs & Ht & Hr). split; [by eapply sets_up_trans|].
    split; [done|]. destruct r as [u'|e]; [|done]. intros Hm s' [->|Hs']%elem_of_cons.
    + eapply binding_kept; [apply Hs|done].
    + apply Hr; [by apply Hw1|done].
Qed.

(** All templates of a cluster. *)
Definition templates_bound (c : string) (ts : list SagaTemplate) (t : Topology) : Prop :=
  ∀ tm s, tm ∈ ts → s ∈ st_SagaStepTemplateIds tm →
    step_binding c (st_TemplateId tm) s ∈ tp_bindings t.

Lemma templates_bound_extends c ts t t' :
  extends t t' → templates_bound c ts t → templates_bound c ts t'.
Proof. intros He Hb tm s Htm Hs. eapply binding_kept; [done|by apply Hb]. Qed.

Lemma reload_templates_spec c ts w :
  no_colon c = true → Forall (λ t, no_colon (st_TemplateId t) = true) ts →
  wp (reload_templates env c ts) (returns (λ r w',
    sets_up w w' ∧ cw_tick w' = cw_tick w ∧
    match r with
    | Ok _ => marks_ok (marks w) (topology w) → templates_bound c ts (topology w')
    | Err _ => True
    end)) w.
Proof.
  intros Hc Hts. revert w. induction Hts as [|tm ts Htm _ IH]; intros w.
  { split; [apply sets_up_refl|]. split; [done|]. by intros _ tm s ?%not_elem_of_nil. }
  simpl. apply wp_or_else. generalize (reload_steps_spec c (st_TemplateId tm)
    (st_SagaStepTemplateIds tm) w Hc Htm). apply wp_returns_mono.
  intros [u|e] w1 (Hs1 & Ht1 & H1); [|by split].
  generalize (IH w1). apply wp_returns_mono. intros r w2 (Hs2 & Ht2 & H2).
  split; [by eapply sets_up_trans|]. split; [by rewrite Ht2|]. destruct r as [u'|e]; [|done].
  intros Hm tm' s [->|Htm']%elem_of_cons Hs.
  - eapply binding_kept; [apply Hs2|by apply H1].
  - apply H2; [by apply Hs1|done|done].
Qed.

(** The templates of the store are asked for once for each cluster. *)
Definition clusters_bound (n : nat) (cs : list string) (t : Topology) : Prop :=
  ∀ i c, cs !! i = Some c → ∃ ts, ve_templates env (n + i) = Ok ts ∧ templates_bound c ts t.

Lemma reload_clusters_spec cs w :
  Forall (λ c, no_colon c = true) cs → clean_templates →
  wp (reload_clusters env cs) (returns (λ r w',
    sets_up w w' ∧
    match r with
    | Ok _ => marks_ok (marks w) (topology w) → clusters_bound (cw_tick w) cs (topology w')
    | Err _ => True
    end)) w.
Proof.
  intros Hcs Hts. revert w. induction Hcs as [|c cs Hc _ IH]; intros w.
  { split; [apply sets_up_refl|]. by intros _ i c ?. }
  simpl. apply wp_or_else. unfold ListSagaTemplates, wp, bind, coord_tick. simpl.
  set (w0 := mkCoordWorld _ _ _ _ _ _). assert (H0 : sets_up w w0).
  { split; [done|done| |done]. exists (marks w). by destruct w as [[]]. }
  destruct (ve_templates env (cw_tick w)) as [ts|e] eqn:Hans; simpl; [|by split].
  enough (Hgoal : wp (or_else (reload_templates env c ts) (λ err, ret (Err err))
    (λ _, reload_clusters env cs)) (returns (λ r w', sets_up w w' ∧
      match r with
      | Ok _ => marks_ok (marks w) (topology w) → clusters_bound (cw_tick w) (c :: cs) (topology w')
      | Err _ => True
      end)) w0) by exact Hgoal.
  apply wp_or_else. generalize (reload_templates_spec c ts w0 Hc (Hts _ _ Hans)).
  apply wp_returns_mono. intros [u|e] w1 (Hs1 & Ht1 & H1).
  2: { split; [by eapply sets_up_trans|done]. }
  generalize (IH w1). apply wp_returns_mono. intros r w2 (Hs2 & H2).
  split; [by eapply sets_up_trans, sets_up_trans|]. destruct r as [u'|e]; [|done].
  intros Hm [|i] c' Hi; simpl in Hi.
  - injection Hi as <-. exists ts. rewrite Nat.add_0_r. split; [done|].
    eapply templates_bound_extends; [apply Hs2|by apply H1].
  - assert (Hm1 : marks_ok (marks w1) (topology w1)) by by apply Hs1.
    destruct (H2 Hm1 i c' Hi) as (ts' & Hans' & Hb). exists ts'. split; [|done].
    rewrite Ht1 in Hans'. simpl in Hans'. by rewrite <- Nat.add_succ_comm.
Qed.

(** [reloadSagaTemplates] returns; what it marks is bound, and without an
    error everything the store listed is. *)
Lemma reloadSagaTemplates_spec w :
  clean_clusters → clean_templates →
  wp (reloadSagaTemplates env) (returns (λ r w',
    sets_up w w' ∧
    match r with
    | Ok _ => ∃ cs, ve_clusters env (cw_tick w) = Ok cs ∧
        (marks_ok (marks w) (topology w) → clusters_bound (S (cw_tick w)) cs (topology w'))
    | Err _ => True
    end)) w.
Proof.
  intros Hcs Hts. unfold reloadSagaTemplates. apply wp_or_else.
  unfold ListClusterIds, wp, bind, coord_tick. simpl.
  set (w0 := mkCoordWorld _ _ _ _ _ _). assert (H0 : sets_up w w0).
  { split; [done|done| |done]. exists (marks w). by destruct w as [[]]. }
  destruct (ve_clusters env (cw_tick w)) as [cs|e] eqn:Hans; simpl; [|by split].
  generalize (reload_clusters_spec cs w0 (Hcs _ _ Hans) Hts). apply wp_returns_mono.
  intros r w' (Hs & H). split; [by eapply sets_up_trans|]. destruct r as [u|e]; [|done].
  exists cs. by split.
Qed.
End reload.


(** ** Notifications

    A subscription between the broadcaster, which offers, and its reader. *)

Inductive FanEvent := Offered (n : Notification) | Taken.

(** The subscription, and what its reader has read. *)
Definition fan_step (s : Subscription * list Notification) (e : FanEvent) :
    Subscription * list Notification :=
  match e with
  | Offered n => (offer n s.1, s.2)
  | Taken =>
      match ns_ch s.1 with
      | [] => s
      | n :: rest => (mkSubscription (ns_channel s.1) rest, s.2 ++ [n])
      end
  end.

Definition fan_out (channel : string) (events : list FanEvent) : Subscription * list Notification :=
  foldl fan_step (mkSubscription channel [], []) events.

Definition concerns (channel : string) (n : Notification) : bool :=
  bool_decide (channel = "") || bool_decide (channel = nt_Channel n).

(** What was offered to a subscriber of the channel. *)
Definition meant_for (channel : string) (events : list FanEvent) : list Notification :=
  omap (λ e, match e with
             | Offered n => if concerns channel n then Some n else None
             | Taken => None
             end) events.

(** The reader was never a whole buffer behind when something came for it. *)
Definition keeps_up (channel : string) (events : list FanEvent) : Prop :=
  ∀ before n after, events = before ++ Offered n :: after → concerns channel n = true →
    length (ns_ch (fan_out channel before).1) < subscription_buffer.

Lemma offer_ch channel n l :
  offer n (mkSubscription channel l) =
    mkSubscription channel (l ++ (if concerns channel n && (length l <? subscription_buffer)
                                  then [n] else [])).
Proof. unfold offer, concerns. simpl. destruct (_ && _); [done|]. by rewrite app_nil_r. Qed.

Lemma fan_channel channel events : ns_channel (fan_out channel events).1 = channel.
Proof.
  unfold fan_out. induction events as [|e events IH] using rev_ind; [done|].
  rewrite foldl_app. simpl. destruct e as [n|]; simpl; [unfold offer; by destruct (_ && _)|].
  by destruct (ns_ch _).
Qed.

(** A subscriber reads its notifications in the order in which they came, no
    more than a hundred are kept for it, and as long as it is never a hundred
    behind it misses none. *)
Theorem notifications_in_order channel events :
  let '(sub, got) := fan_out channel events in
  got ++ ns_ch sub `sublist_of` meant_for channel events ∧
  length (ns_ch sub) ≤ subscription_buffer ∧
  (keeps_up channel events → got ++ ns_ch sub = meant_for channel events).
Proof.
  induction events as [|e events IH] using rev_ind; [simpl; split_and!; [done|lia|done]|].
  unfold meant_for. rewrite omap_app. fold (meant_for channel events).
  unfold fan_out in *. rewrite foldl_app. simpl. pose proof (fan_channel channel events) as Hch.
  unfold fan_out in Hch.
  destruct (foldl fan_step _ events) as [[ch buf] got] eqn:Hfan. simpl in *. subst ch.
  destruct IH as (Hsub & Hlen & Hall).
  assert (Hpre : keeps_up channel (events ++ [e]) → keeps_up channel events).
  { intros Hk before n after ->. apply (Hk before n (after ++ [e])). by rewrite <- app_assoc. }
  destruct e as [n|]; simpl.
  - rewrite offer_ch. simpl. destruct (concerns channel n) eqn:Hc; simpl.
    + destruct (_ <? _) eqn:Hfull; simpl.
      * apply Nat.ltb_lt in Hfull. rewrite length_app, app_assoc. simpl.
        split_and!; [by apply sublist_app|lia|]. intros Hk. by rewrite Hall by auto.
      * apply Nat.ltb_ge in Hfull. rewrite !app_nil_r.
        split_and!; [by apply sublist_inserts_r|done|]. intros Hk. exfalso.
        specialize (Hk events n [] eq_refl Hc). unfold fan_out in Hk. rewrite Hfan in Hk. simpl in Hk. lia.
    + rewrite !app_nil_r. split_and!; auto.
  - rewrite app_nil_r. destruct buf as [|n buf]; simpl in *; [by split_and!; auto|].
    rewrite <- app_assoc. simpl. split_and!; [done|lia|auto].
Qed.
