(* ===== verification/Lifecycle.v ===== *)
(** * The life of a coordinator

    [Start], [Stop] and [Restart], the announcements of submitters, the control
    bus and the reload of templates as steps of one coordinator; whether two
    announcements of one submitter may overlap is a parameter ([overlap]).  A
    coordinator that runs consumes each of its queues once, and the outbox of
    each submitter it follows, once when none overlap; one that is stopped
    consumes nothing and has forgotten whom it followed and what it had set
    up. *)

From stdpp Require Import relations.
From Stdlib Require Import Strings.Ascii.
From S2P Require Import Prelude GoMonad Model Naming Json Routing MqBroker MqPool.
From S2P Require Import Messages World Polling Submitter Startup.
#[local] Open Scope go_scope.

Abbreviation no_bar := (no_char "|"%char).

Lemma follow_key_inj c s c' s' :
  no_bar c = true → no_bar c' = true → follow_key c s = follow_key c' s' → c = c' ∧ s = s'.
Proof. intros Hc Hc' Heq. by apply (split_at_char "|") in Heq. Qed.

(** ** Contexts of consumers *)

(** [n] is the context of now: it is live, every other one that a consumer
    has was cancelled. *)
Record ctx_ok (n : nat) (c : Coordinator) : Prop := {
  cx_now : co_consumerCtx c = Some n;
  cx_cancelled : ∀ m, m ∈ co_cancelled c → m < n;
  cx_others : Forall (λ k, cs_ctx k = n ∨ cs_ctx k ∈ co_cancelled c) (co_consumers c);
}.

(** Nobody consumes. *)
Record quiet_ctx (c : Coordinator) : Prop := {
  qc_cancelled : ∀ m, m ∈ co_cancelled c → ∃ n, co_consumerCtx c = Some n ∧ m ≤ n;
  qc_all : Forall (λ k, cs_ctx k ∈ co_cancelled c) (co_consumers c);
}.

Lemma new_consumerCtx_ok c : quiet_ctx c → ∃ n, ctx_ok n (new_consumerCtx c).
Proof.
  intros [Hc Ha]. eexists. split; [done| |].
  - simpl. intros m (n & -> & ?)%Hc. lia.
  - eapply Forall_impl; [done|]. by right.
Qed.

Lemma consumerCancel_quiet n c : ctx_ok n c → quiet_ctx (consumerCancel c).
Proof.
  intros [Hn Hc Ho]. split; unfold consumerCancel; simpl; rewrite Hn.
  - intros m [->%elem_of_singleton|Hm%Hc]%elem_of_union; eexists; (split; [done|lia]).
  - eapply Forall_impl; [done|]. intros k [<-|Hk]; simpl; set_solver.
Qed.

Lemma quiet_live c : quiet_ctx c → live_consumers c = [].
Proof.
  intros [_ Ha]. unfold live_consumers. induction Ha as [|k ks Hk _ IH]; [done|].
  rewrite filter_cons_False by tauto. done.
Qed.

Definition add_consumer (n : nat) (q : string) (c : Coordinator) : Coordinator :=
  set_consumers (co_consumers c ++ [mkConsumer n q]) c.

Lemma add_consumer_ctx n q c : ctx_ok n c → ctx_ok n (add_consumer n q c).
Proof.
  intros [Hn Hc Ho]. split; simpl; [done|done|].
  apply Forall_app. split; [done|]. constructor; [by left|done].
Qed.

Lemma add_consumer_live n q c :
  ctx_ok n c → live_consumers (add_consumer n q c) = live_consumers c ++ [q].
Proof.
  intros [Hn Hc Ho]. unfold live_consumers. simpl. rewrite filter_app, fmap_app. f_equal.
  rewrite filter_cons_True; [done|]. simpl. intros Hin%Hc. lia.
Qed.

(** ** What a coordinator that runs has *)

Section lifecycle.
Context (parse : string → option Json) (env : CoordEnv) (SubComponent affinityGroup : string).
(** Two announcements of one submitter may be under way at once. *)
Context (overlap : bool).

Abbreviation outbox := (λ p, (getSagaSubmitterOutboxNodeNames p.1 p.2).2).

(** The queues of a cluster. *)
Definition own_queues (c : string) : list string :=
  [getCoordinatorResultsQueueName c affinityGroup;
   getControlSubscribeNodeNameByAffinity c affinityGroup].

(** Context [n], clusters [cs], followed submitters [l] with their clusters. *)
Record consuming (n : nat) (cs : list string) (l : list (string * string)) (c : Coordinator) : Prop := {
  cn_ctx : ctx_ok n c;
  cn_live : live_consumers c = (cs ≫= own_queues) ++ (outbox <$> l);
  cn_followed : co_followedMap c = list_to_set ((λ p, follow_key p.1 p.2) <$> l);
  cn_once : overlap = false → NoDup ((λ p, follow_key p.1 p.2) <$> l);
  cn_clean : Forall (λ p, no_bar p.1 = true) l;
}.

Definition end_loops : list Loop :=
  (if ve_notifies env then [BroadcastLoop] else []) ++ [ReloadLoop].

Record running (n : nat) (cs : list string) (l : list (string * string)) (c : Coordinator) : Prop := {
  rn_on : co_isRunning c = true;
  rn_open : co_cancelClosed c = false;
  rn_consuming : consuming n cs l c;
  rn_loops : co_loops c = (PollingLoop <$> cs) ++ end_loops;
  rn_subs : ns_channel <$> co_notifSubs c =
    ((λ _, "trax_saga_events") <$> cs) ++ ["trax_template_events"];
}.

Record stopped (c : Coordinator) : Prop := {
  sp_off : co_isRunning c = false;
  sp_quiet : quiet_ctx c;
  sp_loops : co_loops c = [];
  sp_followed : co_followedMap c = ∅;
  sp_marks : co_initializedSteps c = ∅;
  sp_subs : co_notifSubs c = [];
}.

(** What [Start] declares for a cluster: events and orders reach their queues,
    and the results are bound to the exchange of the steps. *)
Record cluster_ready (t : Topology) (c : string) : Prop := {
  cr_events : ∀ key, bound t (getEventBusNodeNames c).1 key (getEventBusNodeNames c).2;
  cr_control : ∀ key, bound t (getControlBusPublishNodeName c) key
    (getControlSubscribeNodeNameByAffinity c affinityGroup);
  cr_steps : tp_exchanges t !! getStepTopicExchangeName c = Some "topic";
  cr_results : mkBinding (getStepTopicExchangeName c) (getCoordinatorResultsBindingKey c affinityGroup)
    (getCoordinatorResultsQueueName c affinityGroup) ∈ tp_bindings t;
}.

Lemma cluster_ready_extends t t' c : extends t t' → cluster_ready t c → cluster_ready t' c.
Proof.
  intros He [H1 H2 H3 H4]. split.
  - intros key. by eapply bound_extends.
  - intros key. by eapply bound_extends.
  - by eapply exchange_kept.
  - by eapply binding_kept.
Qed.

(** The coordinator and the broker together. *)
Record serving (cs : list string) (l : list (string * string)) (w : CoordWorld) : Prop := {
  sv_running : ∃ n, running n cs l (cw_coordinator w);
  sv_ready : Forall (cluster_ready (topology w)) cs;
  sv_marks : marks_ok (marks w) (topology w);
}.

(** ** Calls that leave the coordinator alone *)

Record aside (w w' : CoordWorld) : Prop := {
  as_coordinator : cw_coordinator w' = cw_coordinator w;
  as_extends : extends (topology w) (topology w');
  as_follow : cw_follow w' = cw_follow w;
}.

Lemma aside_trans w1 w2 w3 : aside w1 w2 → aside w2 w3 → aside w1 w3.
Proof. intros [Hc1 He1 Hf1] [Hc2 He2 Hf2]. split; [by rewrite Hc2|by etrans|by rewrite Hf2]. Qed.

Lemma on_broker_aside m Q w :
  declares m Q →
  wp (on_broker m) (returns (λ r w', aside w w' ∧
    match r with Ok _ => Q (topology w') | Err _ => True end)) w.
Proof.
  intros Hm. generalize (Hm (cw_broker w)). unfold wp, on_broker.
  destruct (m (cw_broker w)) as [[r|msg|] b]; simpl; [|done|done].
  intros [He HQ]. split; [by split|done].
Qed.

Definition on_coordinator (f : Coordinator → Coordinator) (w : CoordWorld) : CoordWorld :=
  mkCoordWorld (f (cw_coordinator w)) (cw_broker w) (cw_pool w) (cw_breaker w) (cw_follow w)
    (cw_tick w).

Lemma wp_consume n q w (Q : unit → CoordWorld → Prop) :
  ctx_ok n (cw_coordinator w) → Q tt (on_coordinator (add_consumer n q) w) →
  wp (consume q) (returns Q) w.
Proof. intros Hc HQ. unfold wp, consume, bind, get_state. by rewrite (cx_now _ _ Hc). Qed.

(** ** Start *)

(** In the middle of [Start]: the clusters [cs] are done. *)
Record starting (n : nat) (cs : list string) (w : CoordWorld) : Prop := {
  sg_open : co_cancelClosed (cw_coordinator w) = false;
  sg_consuming : consuming n cs [] (cw_coordinator w);
  sg_loops : co_loops (cw_coordinator w) = PollingLoop <$> cs;
  sg_subs : ns_channel <$> co_notifSubs (cw_coordinator w) = (λ _, "trax_saga_events") <$> cs;
  sg_ready : Forall (cluster_ready (topology w)) cs;
  sg_marks : marks_ok (marks w) (topology w);
}.

Lemma starting_aside n cs w w' : aside w w' → starting n cs w → starting n cs w'.
Proof.
  intros [Hc He _] [H1 H2 H3 H4 H5 H6]. unfold marks in *. split; rewrite ?Hc; try done.
  - eapply Forall_impl; [done|]. intros c. by apply cluster_ready_extends.
  - unfold marks. rewrite Hc. by eapply marks_ok_extends.
Qed.

(** The end of the body of the loop: two consumers and a polling loop. *)
Lemma start_consuming n cs c w :
  starting n cs w → cluster_ready (topology w) c →
  wp (_ <- consume (getCoordinatorResultsQueueName c affinityGroup) ;;
      _ <- consume (getControlSubscribeNodeNameByAffinity c affinityGroup) ;;
      _ <- startProcessing c ;; ret (Ok tt))
    (returns (λ r w', starting n (cs ++ [c]) w' ∧ extends (topology w) (topology w'))) w.
Proof.
  intros [H1 [Hctx Hlive Hfol Hnd Hcl] H3 H4 H5 H6] Hr.
  apply wp_bind_ret, (wp_consume n); [done|].
  apply wp_bind_ret, (wp_consume n); [by apply add_consumer_ctx|].
  unfold wp. simpl. split; [|by split_and!]. split; simpl.
  - done.
  - destruct (add_consumer_ctx n (getControlSubscribeNodeNameByAffinity c affinityGroup) _
      (add_consumer_ctx n (getCoordinatorResultsQueueName c affinityGroup) _ Hctx)) as [Hx1 Hx2 Hx3].
    split; [by split| |done|done|done]. simpl. rewrite app_nil_r, bind_app. simpl.
    change (live_consumers _) with (live_consumers (add_consumer n
      (getControlSubscribeNodeNameByAffinity c affinityGroup) (add_consumer n
      (getCoordinatorResultsQueueName c affinityGroup) (cw_coordinator w)))).
    rewrite !add_consumer_live by (done || by apply add_consumer_ctx). rewrite Hlive. simpl.
    by rewrite !app_nil_r, <- app_assoc.
  - by rewrite H3, fmap_app.
  - by rewrite !fmap_app, H4.
  - apply Forall_app. split; [done|]. by constructor.
  - done.
Qed.

(** A cluster: either an error, and then nothing but declarations, or it is
    ready and consumed. *)
Lemma start_cluster_spec n cs c w :
  starting n cs w →
  wp (start_cluster env affinityGroup c) (returns (λ r w',
    match r with Ok _ => starting n (cs ++ [c]) w' | Err _ => True end)) w.
Proof.
  intros Hs. unfold start_cluster. simpl.
  apply wp_or_else. generalize (on_broker_aside _ _ w (InitExchange_declares (ve_broker env)
    (getEventBusNodeNames c).1 [(getEventBusNodeNames c).2])). apply wp_returns_mono.
  intros [u1|e] w1 [Ha1 H1]; [|done].
  apply wp_or_else. generalize (on_broker_aside _ _ w1 (InitExchange_declares (ve_broker env)
    (getControlBusPublishNodeName c) [getControlSubscribeNodeNameByAffinity c affinityGroup])).
  apply wp_returns_mono. intros [u2|e] w2 [Ha2 H2]; [|done].
  apply wp_or_else. generalize (on_broker_aside _ _ w2 (InitTopicExchange_declares (ve_broker env)
    (getStepTopicExchangeName c))). apply wp_returns_mono. intros [u3|e] w3 [Ha3 H3]; [|done].
  apply wp_or_else. generalize (on_broker_aside _ _ w3 (InitQueue_declares (ve_broker env)
    (getStepTopicExchangeName c) (getCoordinatorResultsQueueName c affinityGroup)
    (getCoordinatorResultsBindingKey c affinityGroup))). apply wp_returns_mono.
  intros [u4|e] w4 [Ha4 H4]; [|done].
  assert (Ha : aside w w4) by (eapply aside_trans, aside_trans, aside_trans; done).
  generalize (start_consuming n cs c w4 (starting_aside _ _ _ _ Ha Hs)).
  intros Hc. refine (wp_returns_mono _ _ _ _ _ (Hc _)); [by intros [u|e] w' [? _]|].
  pose proof (as_extends _ _ Ha4) as He4. pose proof (as_extends _ _ Ha3) as He3.
  pose proof (as_extends _ _ Ha2) as He2. split.
  - intros key. eapply bound_extends; [|apply H1; by left]. do 2 (etrans; [|done]). done.
  - intros key. eapply bound_extends; [|apply H2; by left]. by etrans.
  - by eapply exchange_kept.
  - done.
Qed.

Lemma start_clusters_spec n clusterIds : ∀ cs w,
  starting n cs w →
  wp (start_clusters env affinityGroup clusterIds) (returns (λ r w',
    match r with Ok _ => starting n (cs ++ clusterIds) w' | Err _ => True end)) w.
Proof.
  induction clusterIds as [|c clusterIds IH]; intros cs w Hs; simpl.
  { unfold wp. simpl. by rewrite app_nil_r. }
  apply wp_or_else. generalize (start_cluster_spec n cs c w Hs). apply wp_returns_mono.
  intros [u|e] w1 H1; [|done]. generalize (IH _ _ H1). apply wp_returns_mono.
  intros [u'|e] w2 H2; [|done]. by rewrite <- app_assoc in H2.
Qed.

(** ** Reload *)

Context (Hclusters : clean_clusters env) (Htemplates : clean_templates env).

Lemma consuming_marks n cs l f c : consuming n cs l c → consuming n cs l (set_initialized f c).
Proof. intros [[] ? ? ? ?]. by repeat split. Qed.

Lemma reload_starting n cs w :
  starting n cs w →
  wp (reloadSagaTemplates env) (returns (λ _ w', starting n cs w')) w.
Proof.
  intros [H1 H2 H3 H4 H5 H6]. generalize (reloadSagaTemplates_spec env w Hclusters Htemplates).
  apply wp_returns_mono. intros r w' [[He Hm [m Hc] _] _].
  split; rewrite ?Hc; try done; [by apply consuming_marks| |by auto].
  eapply Forall_impl; [done|]. intros c. by apply cluster_ready_extends.
Qed.

Lemma reload_serving cs l w :
  serving cs l w →
  wp (reloadSagaTemplates env) (returns (λ _ w', serving cs l w')) w.
Proof.
  intros [[n [H1 H2 H3 H4 H5]] H6 H7].
  generalize (reloadSagaTemplates_spec env w Hclusters Htemplates).
  apply wp_returns_mono. intros r w' [[He Hm [m Hc] _] _].
  split; [exists n; rewrite Hc; split; try done; by apply consuming_marks| |by auto].
  eapply Forall_impl; [done|]. intros c. by apply cluster_ready_extends.
Qed.

(** ** Start, Stop and Restart *)

Lemma startup_health_check_aside w :
  wp (startup_health_check env) (returns (λ _ w', aside w w')) w.
Proof.
  unfold startup_health_check, wp, bind, coord_tick, get_state. simpl.
  by destruct (_ <? _)%Z.
Qed.

(** The store lists the clusters of a coordinator that has started. *)
Definition started (w : CoordWorld) : Prop :=
  ∃ k cs, ve_clusters env k = Ok cs ∧ serving cs [] w.

(** A coordinator that is not running and whose channel is open: it is new,
    or [Restart] has just made it a new channel. *)
Lemma Start_spec w :
  stopped (cw_coordinator w) → co_cancelClosed (cw_coordinator w) = false →
  wp (Start env affinityGroup) (returns (λ r w', match r with Ok _ => started w' | Err _ => True end)) w.
Proof.
  intros [Hoff Hq Hl Hf Hm Hs] Hopen. destruct (new_consumerCtx_ok _ Hq) as [n Hn].
  unfold Start. apply wp_bind_ret. unfold wp at 1. simpl.
  apply wp_bind_ret. set (w0 := mkCoordWorld _ _ _ _ _ _).
  assert (Hst : starting n [] w0).
  { split; simpl; try done; [|by rewrite Hs|].
    - split; simpl; [done| |by rewrite Hf|intros _; constructor|constructor].
      change (live_consumers _) with (live_consumers (cw_coordinator w)). by apply quiet_live.
    - intros key. unfold marks. simpl. by rewrite Hm, elem_of_empty. }
  generalize (startup_health_check_aside w0). apply wp_returns_mono. intros [] w1 Ha.
  apply (starting_aside _ _ _ _ Ha) in Hst. apply wp_or_else.
  unfold ListClusterIds, wp at 1, bind, coord_tick. simpl.
  destruct (ve_clusters env (cw_tick w1)) as [cs|e] eqn:Hcs; [|done].
  apply wp_or_else. eapply wp_returns_mono, (start_clusters_spec n cs []).
  2: { eapply starting_aside, Hst. by split. }
  intros [u|e] w2 H2; [|done]. simpl in H2.
  apply wp_or_else. generalize (reload_starting _ _ _ H2). apply wp_returns_mono.
  intros [u'|e] w3 [H31 H32 H33 H34 H35 H36]; [|done].
  assert (Hs3 : ∃ n, running n cs [] (set_isRunning true
    (add_loop ReloadLoop (subscribeNotifications "trax_template_events"
      (if ve_notifies env then add_loop BroadcastLoop (cw_coordinator w3) else cw_coordinator w3))))).
  { exists n. destruct H32 as [[] ? ? ? ?].
    destruct (ve_notifies env) eqn:Hnt; split; simpl; try done.
    all: unfold end_loops; rewrite ?Hnt, ?fmap_app, ?H33, ?H34, <- ?app_assoc.
    all: done. }
  unfold startNotificationBroadcaster, started.
  destruct (ve_notifies env); exists (cw_tick w1), cs; (split; [done|]); by split.
Qed.

Lemma DrainPool_returns p : wp DrainPool (returns (λ _ _, True)) p.
Proof.
  unfold DrainPool, wp, bind, get_state. simpl. destruct (cp_closed (pw_pool p)); [done|].
  match goal with |- context [drain_channels ?l ?w1] =>
    generalize (drain_channels_spec l w1) end.
  unfold wp. simpl. by destruct (drain_channels _ _) as [[] ?].
Qed.

Lemma Stop_spec cs l w :
  serving cs l w →
  wp Stop (returns (λ r w', r = Ok tt ∧ stopped (cw_coordinator w') ∧
    topology w' = topology w)) w.
Proof.
  intros [[n [Hon Hopen [Hctx _ _ _ _] _ _]] _ _]. unfold Stop.
  apply wp_bind_ret. unfold wp at 1. simpl. rewrite Hon, Hopen. simpl.
  do 7 (apply wp_bind_ret; unfold wp at 1; simpl).
  apply wp_bind_ret. unfold wp at 1, on_pool. simpl.
  match goal with |- context [DrainPool ?p] => generalize (DrainPool_returns p) end.
  unfold wp. destruct (DrainPool _) as [[[]|msg|] p]; simpl; [|done|done]. intros _.
  split_and!; [done| |done]. split; simpl; try done.
  destruct (consumerCancel_quiet _ _ Hctx) as [Hq1 Hq2]. by split.
Qed.

Lemma Stop_stopped w : stopped (cw_coordinator w) → Stop w = (Ret (Ok tt), w).
Proof. intros [Hoff _ _ _ _ _]. unfold Stop, bind, get_state. by rewrite Hoff. Qed.

Lemma Restart_spec w :
  stopped (cw_coordinator w) ∨ (∃ cs l, serving cs l w) →
  wp (Restart env affinityGroup) (returns (λ r w',
    match r with Ok _ => started w' | Err _ => True end)) w.
Proof.
  intros Hw. unfold Restart. apply wp_or_else.
  assert (Hstop : wp Stop (returns (λ r w', r = Ok tt ∧ stopped (cw_coordinator w'))) w).
  { destruct Hw as [Hs|(cs & l & Hs)].
    - unfold wp. by rewrite Stop_stopped.
    - generalize (Stop_spec _ _ _ Hs). apply wp_returns_mono. by intros r w' (? & ? & _). }
  revert Hstop. apply wp_returns_mono. intros r w1 [-> [H1 [H2 H2'] H3 H4 H5 H6]].
  apply wp_bind_ret. unfold wp at 1. simpl. apply wp_bind_ret. unfold wp at 1. simpl.
  destruct (_ && _); [done|]. apply wp_bind_ret. unfold wp at 1. simpl.
  apply wp_or_else. eapply wp_returns_mono, Start_spec; [|by repeat split|done].
  by intros [u|e] w2 Hst.
Qed.
End lifecycle.
