(* ===== verification/Serving.v ===== *)
(** * Whom a coordinator serves

    The announcement of a submitter, to the coordinator that it reaches and to
    the others, which hear of it on the control bus; then all that happens in
    the life of a coordinator as a transition system, what is so in each
    reachable state, and that messages reach who they are for: submitters,
    executors and the coordinator itself. *)

From stdpp Require Import relations.
From S2P Require Import Prelude GoMonad Model Naming MqPool Json Routing MqBroker Messages.
From S2P Require Import World Submitter Polling Startup Lifecycle.

#[local] Open Scope go_scope.

Section serving.
Context (parse : string → option Json) (env : CoordEnv) (SubComponent affinityGroup : string).
Context (overlap : bool).

#[local] Abbreviation serving := (serving env affinityGroup overlap).
#[local] Abbreviation cluster_ready := (cluster_ready affinityGroup).
#[local] Abbreviation running := (running env affinityGroup overlap).
#[local] Abbreviation outbox := (λ p, (getSagaSubmitterOutboxNodeNames p.1 p.2).2).

Lemma serving_aside cs l w w' : aside w w' → serving cs l w → serving cs l w'.
Proof.
  intros [Hc He _] [[n Hn] Hr Hm]. split; [exists n; by rewrite Hc| |].
  - eapply Forall_impl; [done|]. intros c. by apply cluster_ready_extends.
  - unfold marks. rewrite Hc. by eapply marks_ok_extends.
Qed.

(** ** Following *)

Definition spawned (p : Published) (w : CoordWorld) : CoordWorld :=
  mkCoordWorld (cw_coordinator w) (cw_broker w) (cw_pool w) (cw_breaker w) (cw_follow w ++ [p])
    (cw_tick w).

(** From the mark on: the submitter is served; once more, if it was marked
    in the meantime. *)
Lemma startFollowing_spec cs l w c s :
  serving cs l w → no_bar c = true →
  overlap = true ∨ follow_key c s ∉ co_followedMap (cw_coordinator w) →
  wp (startFollowing c s) (returns (λ _ w', serving cs (l ++ [(c, s)]) w' ∧
    topology w' = topology w ∧ cw_follow w' = cw_follow w)) w.
Proof.
  intros [[n [H1 H2 [Hx Hl Hf Hnd Hcl] H4 H5]] H6 H7] Hc Hin. unfold startFollowing.
  apply wp_bind_ret. unfold wp at 1. simpl.
  set (w1 := mkCoordWorld _ _ _ _ _ _). assert (Hx1 : ctx_ok n (cw_coordinator w1)) by by destruct Hx.
  apply (wp_consume n); [done|]. split; [|done].
  split; [exists n|done|done]. split; [done|done| |done|done].
  split; [by apply add_consumer_ctx| | | |].
  - change (live_consumers (add_consumer n (outbox (c, s)) (cw_coordinator w1)) =
      (cs ≫= own_queues affinityGroup) ++ (outbox <$> l ++ [(c, s)])).
    rewrite add_consumer_live by done. rewrite fmap_app. simpl. rewrite app_assoc.
    f_equal. exact Hl.
  - simpl. rewrite fmap_app, list_to_set_app_L, Hf. simpl. set_solver.
  - intros Hno. destruct Hin as [?|Hin]; [congruence|].
    rewrite fmap_app. apply NoDup_app. split; [by apply Hnd|]. split; [|apply NoDup_singleton].
    intros k Hk ->%list_elem_of_singleton. apply Hin. rewrite Hf. by apply elem_of_list_to_set.
  - apply Forall_app. split; [done|]. by constructor.
Qed.

(** Whoever is followed is served from then on. *)
Lemma followSagaSubmitter_spec cs l w c s :
  serving cs l w → no_bar c = true →
  wp (followSagaSubmitterIfNeeded c s) (returns (λ _ w', ∃ l', serving cs (l ++ l') w' ∧
    (c, s) ∈ l ++ l' ∧ topology w' = topology w ∧ cw_follow w' = cw_follow w)) w.
Proof.
  intros Hs Hc. unfold followSagaSubmitterIfNeeded. apply wp_bind_ret. unfold wp at 1. simpl.
  case_bool_decide as Hin.
  - pose proof Hs as [[n [H1 H2 [Hx Hl Hf Hnd Hcl] H4 H5]] H6 H7].
    rewrite Hf, elem_of_list_to_set in Hin. apply list_elem_of_fmap in Hin as ([c' s'] & Heq & Hin).
    simpl in Heq.
    rewrite Forall_forall in Hcl. apply follow_key_inj in Heq as [<- <-]; [|done|by apply (Hcl (c', s'))].
    exists []. by rewrite app_nil_r.
  - eapply wp_returns_mono; [|by apply (startFollowing_spec cs l); auto].
    intros [] w' (Hs' & Ht & Hf). exists [(c, s)]. split_and!; [done|set_solver|done|done].
Qed.

(** ** Announcements *)

(** Both nodes of a submitter lead to their queues. *)
Record submitter_ready (t : Topology) (c s : string) : Prop := {
  sr_inbox : ∀ key, bound t (getSagaSubmitterInboxNodeNames c s).1 key
    (getSagaSubmitterInboxNodeNames c s).2;
  sr_outbox : ∀ key, bound t (getSagaSubmitterOutboxNodeNames c s).1 key
    (getSagaSubmitterOutboxNodeNames c s).2;
}.

(** The other coordinators are told. *)
Definition told (c s : string) (w : CoordWorld) : Prop :=
  ∃ m t e ts, PubNode (getControlBusPublishNodeName c) (follow_message SubComponent m t e ts c s)
    ∈ cw_follow w.

Definition node_names (c s : string) : SubmitterNodeNames :=
  mkSubmitterNodeNames (getSagaSubmitterInboxNodeNames c s).2 (getSagaSubmitterOutboxNodeNames c s).1.

(** What an announcement leaves behind for a cluster; it stays so. *)
Record announced (s : string) (l : list (string * string)) (w : CoordWorld) (c : string) : Prop := {
  an_ready : submitter_ready (topology w) c s;
  an_followed : (c, s) ∈ l;
  an_told : told c s w;
}.

Lemma announced_later s l l' w w' c :
  extends (topology w) (topology w') → cw_follow w `prefix_of` cw_follow w' →
  announced s l w c → announced s (l ++ l') w' c.
Proof.
  intros He [k Hk] [[H1 H2] H3 (m & t & e & ts & H4)]. split.
  - split; intros key; by eapply bound_extends.
  - set_solver.
  - exists m, t, e, ts. rewrite Hk. apply elem_of_app. by left.
Qed.

Lemma announce_cluster_spec cs l w s c :
  serving cs l w → no_bar c = true →
  wp (announce_cluster env SubComponent s c) (returns (λ r w', ∃ l', serving cs (l ++ l') w' ∧
    extends (topology w) (topology w') ∧ cw_follow w `prefix_of` cw_follow w' ∧
    match r with
    | Ok names => names = node_names c s ∧ announced s (l ++ l') w' c
    | Err _ => True
    end)) w.
Proof.
  intros Hs Hc. unfold announce_cluster. simpl.
  apply wp_or_else. generalize (on_broker_aside _ _ w (InitExchange_declares (ve_broker env)
    (getSagaSubmitterInboxNodeNames c s).1 [(getSagaSubmitterInboxNodeNames c s).2])).
  apply wp_returns_mono. intros [u1|e] w1 [Ha1 H1].
  2: { unfold wp; simpl. exists []. rewrite app_nil_r. destruct Ha1 as [? ? Hf]. rewrite Hf.
       split_and!; [by eapply serving_aside|done..]. }
  apply wp_or_else. generalize (on_broker_aside _ _ w1 (InitExchange_declares (ve_broker env)
    (getSagaSubmitterOutboxNodeNames c s).1 [(getSagaSubmitterOutboxNodeNames c s).2])).
  apply wp_returns_mono. intros r2 w2 [Ha2 H2].
  pose proof (serving_aside _ _ _ _ (aside_trans _ _ _ Ha1 Ha2) Hs) as Hs2.
  destruct (aside_trans _ _ _ Ha1 Ha2) as [_ He Hf].
  destruct r2 as [u2|e]; [|unfold wp; simpl; exists []; rewrite app_nil_r, Hf; by split_and!].
  apply wp_bind_ret. generalize (followSagaSubmitter_spec _ _ _ _ s Hs2 Hc).
  apply wp_returns_mono. intros [] w3 (l' & Hs3 & Hin & Ht & Hf3).
  do 4 (apply wp_bind_ret; unfold wp at 1; simpl).
  unfold wp, spawn_follow, bind, modify. simpl. exists l'.
  destruct Hs3 as [Hr3 Hq3 Hm3]. unfold topology, marks in *; simpl in *. split_and!.
  - by split.
  - by rewrite Ht.
  - rewrite Hf3, Hf. by eexists.
  - done.
  - split; [split; intros key|done|]; unfold topology in *; simpl.
    + rewrite Ht. eapply bound_extends; [apply Ha2|apply H1; by left].
    + rewrite Ht. apply H2. by left.
    + do 4 eexists. simpl. apply elem_of_app. right. by left.
Qed.

Lemma announce_clusters_spec s ids : ∀ cs l w names,
  serving cs l w → Forall (λ c, no_bar c = true) ids →
  wp (announce_clusters env SubComponent s ids names) (returns (λ r w', ∃ l', serving cs (l ++ l') w' ∧
    extends (topology w) (topology w') ∧ cw_follow w `prefix_of` cw_follow w' ∧
    match r with
    | Ok names' => Forall (announced s (l ++ l') w') ids ∧
        ∀ c, names' !! c = if decide (c ∈ ids) then Some (node_names c s) else names !! c
    | Err _ => True
    end)) w.
Proof.
  induction ids as [|c ids IH]; intros cs l w names Hs Hids; simpl.
  { exists []. rewrite app_nil_r. split_and!; [done|done|done|constructor|done]. }
  inversion Hids as [|? ? Hc Hids']; subst. apply wp_or_else.
  generalize (announce_cluster_spec _ _ _ s c Hs Hc). apply wp_returns_mono.
  intros [n|e] w1 (l1 & Hs1 & He1 & Hf1 & H1); [|by exists l1].
  destruct H1 as [-> Ha]. generalize (IH _ _ _ (<[c:=node_names c s]> names) Hs1 Hids').
  apply wp_returns_mono. intros r w2 (l2 & Hs2 & He2 & Hf2 & H2). exists (l1 ++ l2).
  rewrite app_assoc. split_and!; [done|by etrans|by etrans|]. destruct r as [names'|e]; [|done].
  destruct H2 as [H2 Hn]. split; [constructor; [by eapply announced_later|done]|].
  intros c'. rewrite Hn, lookup_insert.
  repeat case_decide; subst; try done; set_solver.
Qed.

(** The clusters of the store are clean for the keys of [followedMap]. *)
Definition clean_follow : Prop :=
  ∀ n cs, ve_clusters env n = Ok cs → Forall (λ c, no_bar c = true) cs.

Lemma AnnounceSagaSubmitter_spec cs l w s :
  serving cs l w → clean_follow →
  wp (AnnounceSagaSubmitter env SubComponent s) (returns (λ r w', ∃ l', serving cs (l ++ l') w' ∧
    match r with
    | Ok (ids, names) => Forall (announced s (l ++ l') w') ids ∧
        ∀ c, c ∈ ids → names !! c = Some (node_names c s)
    | Err _ => True
    end)) w.
Proof.
  intros Hs Hclean. unfold AnnounceSagaSubmitter. apply wp_or_else.
  unfold ListClusterIds, wp at 1, bind, coord_tick. simpl. set (w0 := mkCoordWorld _ _ _ _ _ _).
  assert (Hs0 : serving cs l w0) by (by eapply serving_aside; [|exact Hs]).
  destruct (ve_clusters env (cw_tick w)) as [ids|e] eqn:Hids; [|exists []; by rewrite app_nil_r].
  apply wp_or_else. generalize (announce_clusters_spec s ids _ _ _ ∅ Hs0 (Hclean _ _ Hids)).
  apply wp_returns_mono. intros [names|e] w1 (l' & Hs1 & _ & _ & H); exists l'; [|done].
  split; [done|]. destruct H as [Ha Hn]. split; [done|]. intros c Hc. rewrite Hn.
  by rewrite decide_True.
Qed.

(** ** The control bus *)

(** A message that the callback can read: a broken one ends the process. *)
Definition readable (msg : TraxMessage) : Prop :=
  match msg_Payloads msg with
  | [] => False
  | payload :: _ =>
      match pl_Data payload with
      | SagaPayloadType_FollowSagaSubmitter _ => msg_ClusterId msg ≠ "" ∧ no_bar (msg_ClusterId msg) = true
      | PayloadData_Other type _ => type ≠ FollowSagaSubmitterType
      | _ => True
      end
  end.

Lemma consumeControl_spec cs l w msg :
  serving cs l w → readable msg →
  wp (consumeControl msg) (returns (λ r w', r = Ok tt ∧ ∃ l', serving cs (l ++ l') w' ∧
    ∀ payload payloads s, msg_Payloads msg = payload :: payloads →
      pl_Data payload = SagaPayloadType_FollowSagaSubmitter s → (msg_ClusterId msg, s) ∈ l ++ l')) w.
Proof.
  intros Hs Hr. unfold readable, consumeControl in *.
  destruct (msg_Payloads msg) as [|payload payloads]; [done|].
  destruct (pl_Data payload) as [s| | | | | | |type data] eqn:Hd.
  { destruct Hr as [Hne Hbar]. rewrite bool_decide_false by done. apply wp_bind_ret.
    generalize (followSagaSubmitter_spec _ _ _ _ s Hs Hbar). apply wp_returns_mono.
    intros [] w' (l' & Hs' & Hin & _). split; [done|]. exists l'. split; [done|].
    intros ? ? ? [= <- <-]. rewrite Hd. by intros [= <-]. }
  7: rewrite bool_decide_false by done.
  all: split; [done|]; exists []; rewrite app_nil_r; split; [done|]; intros ? ? ? [= <- <-];
    by rewrite Hd.
Qed.

(** ** Notifications and templates *)

Lemma broadcast_serving cs l w n :
  serving cs l w → serving cs l (on_coordinator (broadcast n) w).
Proof.
  intros [[k [H1 H2 [[] ? ? ? ?] H4 H5]] H6 H7]. split; [|done|done]. exists k.
  split; [done|done|by repeat split|done|]. simpl. rewrite <- H5.
  rewrite <- list_fmap_compose. apply list_fmap_ext. intros i sub _. simpl.
  unfold offer. by destruct (_ && _).
Qed.

Lemma unmark_clusters_marks ids t c :
  ∃ m, unmark_clusters ids t c = set_initialized (λ _, m) c ∧ m ⊆ co_initializedSteps c.
Proof.
  revert c. induction ids as [|id ids IH]; intros c; simpl.
  { exists (co_initializedSteps c). by destruct c. }
  destruct (IH (unmarkAllStepsForTemplate id t c)) as (m & -> & Hm). exists m. split; [done|].
  simpl in Hm. set_solver.
Qed.

Lemma handleTemplateDeleted_serving cs l w t :
  serving cs l w →
  wp (handleTemplateDeleted env t) (returns (λ _ w', serving cs l w')) w.
Proof.
  intros Hs. unfold handleTemplateDeleted. apply wp_bind_ret.
  unfold ListClusterIds, wp at 1, bind, coord_tick. simpl. set (w0 := mkCoordWorld _ _ _ _ _ _).
  assert (Hs0 : serving cs l w0) by (by eapply serving_aside; [|exact Hs]).
  destruct (ve_clusters env (cw_tick w)) as [ids|e]; [|done]. unfold wp. simpl.
  destruct Hs0 as [[k [H1 H2 H3 H4 H5]] H6 H7].
  destruct (unmark_clusters_marks ids t (cw_coordinator w)) as (m & Hm & Hsub).
  split; simpl; [exists k|done|].
  - rewrite Hm. split; try done. by apply consuming_marks.
  - unfold marks. simpl. rewrite Hm. simpl. intros key Hkey. by apply H7, Hsub.
Qed.

Context (Hclusters : clean_clusters env) (Htemplates : clean_templates env).

Lemma reload_turn_serving cs l w wake :
  serving cs l w → wp (reload_turn parse env wake) (returns (λ _ w', serving cs l w')) w.
Proof.
  intros Hs. unfold reload_turn. apply wp_bind_ret.
  assert (Hfirst : wp (match wake with
    | ReloadTimer => ret tt
    | ReloadNotified notif =>
        match parse (nt_Payload notif) ≫=
                unmarshal (decode_struct TemplateEvent_fields) (mkTemplateEvent "" "" "") with
        | Some event =>
            if bool_decide (te_Action event = "delete") && bool_decide (te_Type event = "saga_template")
            then handleTemplateDeleted env (te_TemplateId event) else ret tt
        | None => ret tt
        end
    end) (returns (λ _ w', serving cs l w')) w).
  { destruct wake as [notif|]; [|done]. destruct (_ ≫= _) as [event|]; [|done].
    destruct (_ && _); [by apply handleTemplateDeleted_serving|done]. }
  revert Hfirst. apply wp_returns_mono. intros [] w1 Hs1. apply wp_bind_ret.
  generalize (reload_serving env affinityGroup overlap Hclusters Htemplates _ _ _ Hs1).
  by apply wp_returns_mono.
Qed.

(** ** The life of a coordinator *)

(** Starts succeed, and submitters announce themselves and orders arrive while
    the coordinator runs.  With [overlap] there may be several announcements
    and orders under way at once: one that looked before the submitter was
    marked goes on to mark it and to consume, at any time while the coordinator
    runs. *)
Inductive life_step : CoordWorld → CoordWorld → Prop :=
  | life_start w w' :
      co_isRunning (cw_coordinator w) = false → co_cancelClosed (cw_coordinator w) = false →
      Start env affinityGroup w = (Ret (Ok tt), w') → life_step w w'
  | life_stop w w' r : Stop w = (Ret r, w') → life_step w w'
  | life_restart w w' : Restart env affinityGroup w = (Ret (Ok tt), w') → life_step w w'
  | life_announce w w' s r :
      co_isRunning (cw_coordinator w) = true →
      AnnounceSagaSubmitter env SubComponent s w = (Ret r, w') → life_step w w'
  | life_control w w' msg r :
      co_isRunning (cw_coordinator w) = true → readable msg →
      consumeControl msg w = (Ret r, w') → life_step w w'
  | life_overlap w w' c s :
      overlap = true → no_bar c = true → co_isRunning (cw_coordinator w) = true →
      startFollowing c s w = (Ret tt, w') → life_step w w'
  | life_reload w w' wake :
      co_isRunning (cw_coordinator w) = true →
      reload_turn parse env wake w = (Ret tt, w') → life_step w w'
  | life_notify w n :
      co_isRunning (cw_coordinator w) = true →
      life_step w (on_coordinator (broadcast n) w).

Definition alive (w : CoordWorld) : Prop :=
  ∃ w0, cw_coordinator w0 = NewSagaCoordinator ∧ rtc life_step w0 w.

Definition life_ok (w : CoordWorld) : Prop :=
  if co_isRunning (cw_coordinator w)
  then ∃ k cs l, ve_clusters env k = Ok cs ∧ serving cs l w
  else stopped (cw_coordinator w).

Lemma serving_life cs l w k : ve_clusters env k = Ok cs → serving cs l w → life_ok w.
Proof.
  intros Hk Hs. unfold life_ok. pose proof Hs as [[n [Hon _ _ _ _]] _ _].
  rewrite Hon. eauto.
Qed.

Lemma started_life w : started env affinityGroup overlap w → life_ok w.
Proof. intros (k & cs & Hk & Hs). eapply serving_life; done. Qed.

Lemma life_step_ok w w' : clean_follow → life_step w w' → life_ok w → life_ok w'.
Proof.
  intros Hfollow Hstep Hok. unfold life_ok in Hok.
  destruct Hstep as [w w' Hoff Hopen Hrun|w w' r Hrun|w w' Hrun|w w' s r Hon Hrun
    |w w' msg r Hon Hread Hrun|w w' c s Hov Hbar Hon Hrun|w w' wake Hon Hrun|w n Hon].
  - rewrite Hoff in Hok. generalize (Start_spec env affinityGroup overlap Hclusters Htemplates _ Hok Hopen).
    unfold wp. rewrite Hrun. apply started_life.
  - destruct (co_isRunning (cw_coordinator w)) eqn:Hon.
    + destruct Hok as (k & cs & l & Hk & Hs). generalize (Stop_spec _ _ _ _ _ _ Hs).
      unfold wp. rewrite Hrun. simpl. intros (_ & Hst & _). unfold life_ok. by rewrite (sp_off _ Hst).
    + rewrite (Stop_stopped _ Hok) in Hrun. injection Hrun as _ <-. unfold life_ok. by rewrite Hon.
  - assert (Hw : stopped (cw_coordinator w) ∨ ∃ cs l, serving cs l w).
    { destruct (co_isRunning _); [right|by left]. destruct Hok as (k & cs & l & _ & Hs). by eauto. }
    generalize (Restart_spec env affinityGroup overlap Hclusters Htemplates _ Hw). unfold wp. rewrite Hrun.
    apply started_life.
  - rewrite Hon in Hok. destruct Hok as (k & cs & l & Hk & Hs).
    generalize (AnnounceSagaSubmitter_spec _ _ _ s Hs Hfollow). unfold wp. rewrite Hrun.
    intros (l' & Hs' & _). eapply serving_life; done.
  - rewrite Hon in Hok. destruct Hok as (k & cs & l & Hk & Hs).
    generalize (consumeControl_spec _ _ _ _ Hs Hread). unfold wp. rewrite Hrun.
    intros (_ & l' & Hs' & _). eapply serving_life; done.
  - rewrite Hon in Hok. destruct Hok as (k & cs & l & Hk & Hs).
    generalize (startFollowing_spec _ _ _ c s Hs Hbar (or_introl Hov)). unfold wp. rewrite Hrun.
    intros [Hs' _]. eapply serving_life; done.
  - rewrite Hon in Hok. destruct Hok as (k & cs & l & Hk & Hs).
    generalize (reload_turn_serving _ _ _ wake Hs). unfold wp. rewrite Hrun.
    simpl. intros Hs'. eapply serving_life; done.
  - rewrite Hon in Hok. destruct Hok as (k & cs & l & Hk & Hs).
    by apply (serving_life cs l _ k Hk), broadcast_serving.
Qed.

Lemma alive_ok w : clean_follow → alive w → life_ok w.
Proof.
  intros Hfollow (w0 & H0 & Hsteps). cut (life_ok w0).
  { clear H0. induction Hsteps as [w|w w1 w2 Hstep _ IH]; [done|]. eauto using life_step_ok. }
  unfold life_ok. rewrite H0. simpl. split; simpl; done.
Qed.

(** The loop of [startConsumers] over an answer that has names for each of
    its clusters. *)
Lemma startConsumers_known names ids w :
  (∀ c, c ∈ ids → ∃ n, names !! c = Some (Some n)) →
  wp (startConsumers names ids) (returns (λ _ w',
    sb_consumersStarted (sw_submitter w) ⊆ sb_consumersStarted (sw_submitter w') ∧
    ∀ c n, names !! c = Some (Some n) → nn_Inbox n ∈ sb_consumersStarted (sw_submitter w) ∧
        sb_nodeNames (sw_submitter w) !! c = Some n ∨ c ∈ ids →
      sb_nodeNames (sw_submitter w') !! c = Some n ∧
      nn_Inbox n ∈ sb_consumersStarted (sw_submitter w'))) w.
Proof.
  revert w. induction ids as [|c ids IH]; intros w Hnames; cbn [startConsumers].
  { split; [done|]. intros c n _ [[? ?]|?%elem_of_nil]; done. }
  destruct (Hnames c) as [n Hn]; [by left|]. rewrite Hn.
  set (w1 := mkSubmitterWorld (add_nodes c n (sw_submitter w))
    (if decide (nn_Inbox n ∈ sb_consumersStarted (sw_submitter w)) then sw_consumers w
     else sw_consumers w ++ [nn_Inbox n])
    (sw_published w) (sw_pauses w) (sw_announced w) (sw_tick w)).
  assert (Hrun : ∀ k : M SubmitterWorld unit,
    (w0 <- get_state ;; with_submitter (add_nodes c n) ;;;
     (if decide (nn_Inbox n ∈ sb_consumersStarted (sw_submitter w0)) then ret tt
      else start_consumer (nn_Inbox n)) ;;; k) w = k w1).
  { intros k. unfold bind, get_state, with_submitter, modify, w1. simpl. by case_decide. }
  unfold wp. rewrite Hrun. generalize (IH w1 (λ c' Hc', Hnames c' (list_elem_of_further _ _ _ Hc'))).
  apply wp_returns_mono. intros [] w2 [Hsub Hall]. simpl in *.
  split; [etrans; [apply union_subseteq_r|exact Hsub]|].
  intros c' n' Hn' Hor. apply (Hall _ _ Hn').
  destruct (decide (c = c')) as [<-|Hne].
  - left. rewrite Hn in Hn'. injection Hn' as <-. rewrite lookup_insert_eq.
    split; [|done]. by apply elem_of_union_l, elem_of_singleton.
  - rewrite lookup_insert_ne by done. destruct Hor as [[? ?]|[->|?]%elem_of_cons]; [left|done|by right].
    split; [by apply elem_of_union_r|done].
Qed.

Lemma followed_consumed cs l c p :
  live_consumers c = (cs ≫= own_queues affinityGroup) ++ (outbox <$> l) → p ∈ l →
  outbox p ∈ live_consumers c.
Proof. intros -> Hp. apply elem_of_app. right. by apply (list_elem_of_fmap_2 outbox). Qed.

(** ** Properties *)

(** C26: as long as every start of a coordinator succeeds and no announcement
    straddles a start or a stop: while it runs it consumes the results queue
    and the control inbox of each cluster the store listed when it started,
    once for each time the cluster was listed, and the outbox of each submitter
    it has marked as followed - once, if no two announcements of one submitter
    overlap, and otherwise at least once -, and nothing else; it has one polling
    loop for each cluster, and each step that it has marked as initialized has
    its inbox bound.  When it does not run it consumes nothing, no loop is left,
    and nobody is marked. *)
Theorem coordinator_serves w :
  clean_follow → alive w →
  let c := cw_coordinator w in
  if co_isRunning c then
    ∃ cs l, (∃ k, ve_clusters env k = Ok cs) ∧
      live_consumers c = (cs ≫= own_queues affinityGroup) ++ (outbox <$> l) ∧
      (overlap = false → NoDup ((λ p, follow_key p.1 p.2) <$> l)) ∧
      co_followedMap c = list_to_set ((λ p, follow_key p.1 p.2) <$> l) ∧
      co_loops c = (PollingLoop <$> cs) ++ end_loops env ∧
      ∀ key, key ∈ co_initializedSteps c → ∃ cl t s, key = step_key cl t s ∧
        step_binding cl t s ∈ tp_bindings (topology w)
  else live_consumers c = [] ∧ co_loops c = [] ∧ co_followedMap c = ∅ ∧
    co_initializedSteps c = ∅ ∧ co_notifSubs c = [].
Proof.
  intros Hfollow Hw. pose proof (alive_ok _ Hfollow Hw) as Hok. unfold life_ok in Hok. simpl.
  destruct (co_isRunning _).
  - destruct Hok as (k & cs & l & Hk & [[n [_ _ [_ ? ? ? _] ? _]] _ Hm]). exists cs, l.
    split_and!; [by exists k|done..|]. intros key (cl & t & s & -> & _ & _ & Hb)%Hm. by exists cl, t, s.
  - destruct Hok as [_ Hq ? ? ? ?]. split_and!; [by apply quiet_live|done..].
Qed.


(** C28: the answer to an announcement is one the submitter can work with, and
    keeps: it has the nodes of each of its clusters, the submitter starts
    consuming the inbox of each, which the coordinator's node for answers leads
    to; and what the submitter publishes on the outbox it was given reaches a
    queue that this coordinator consumes.  The other coordinators of the cluster
    are told, and one that runs and takes the message consumes that queue,
    too. *)
Theorem announced_submitter_is_served w w' s ids names :
  clean_follow → alive w → co_isRunning (cw_coordinator w) = true →
  AnnounceSagaSubmitter env SubComponent s w = (Ret (Ok (ids, names)), w') →
  (∀ sw, wp (startConsumers (Some <$> names) ids) (returns (λ _ sw', ∀ c n,
     c ∈ ids → names !! c = Some n →
     sb_nodeNames (sw_submitter sw') !! c = Some n ∧
     nn_Inbox n ∈ sb_consumersStarted (sw_submitter sw'))) sw) ∧
  ∀ c, c ∈ ids → ∃ n, names !! c = Some n ∧
    (∀ key, bound (topology w') (getSagaSubmitterInboxNodeNames c s).1 key (nn_Inbox n)) ∧
    (∀ key, bound (topology w') (nn_Outbox n) key (outbox (c, s))) ∧
    outbox (c, s) ∈ live_consumers (cw_coordinator w') ∧
    ∃ msg, PubNode (getControlBusPublishNodeName c) msg ∈ cw_follow w' ∧
      ∀ w2, alive w2 → co_isRunning (cw_coordinator w2) = true → c ≠ "" → no_bar c = true →
        wp (consumeControl msg) (returns (λ r w2', r = Ok tt ∧
          outbox (c, s) ∈ live_consumers (cw_coordinator w2'))) w2.
Proof.
  intros Hfollow Hw Hon Hrun. pose proof (alive_ok _ Hfollow Hw) as Hok.
  unfold life_ok in Hok. rewrite Hon in Hok. destruct Hok as (k & cs & l & Hk & Hs).
  generalize (AnnounceSagaSubmitter_spec _ _ _ s Hs Hfollow). unfold wp at 1. rewrite Hrun. simpl.
  intros (l' & [[n [_ _ [_ Hlive _ _ _] _ _]] _ _] & Hann & Hnames).
  split.
  - intros sw. eapply wp_returns_mono; [|apply startConsumers_known].
    + simpl. intros [] sw' [_ Hall] c n' Hc Hn'. apply Hall; [by rewrite lookup_fmap, Hn'|by right].
    + intros c Hc. exists (node_names c s). by rewrite lookup_fmap, (Hnames c Hc).
  - intros c Hc. exists (node_names c s). rewrite Forall_forall in Hann.
    destruct (Hann c Hc) as [[H1 H2] H3 (m & t & e & ts & H4)].
    split_and!; [by apply Hnames|done|done|by eapply (followed_consumed _ _ _ (c, s))|].
    eexists. split; [exact H4|].
    intros w2 Hw2 Hon2 Hne Hbar. pose proof (alive_ok _ Hfollow Hw2) as Hok2.
    unfold life_ok in Hok2. rewrite Hon2 in Hok2. destruct Hok2 as (k2 & cs2 & l2 & _ & Hs2).
    eapply wp_returns_mono; [|apply (consumeControl_spec _ _ _ _ Hs2)]; [|by simpl].
    intros r w2' (-> & l2' & [[n2 [_ _ [_ Hlive2 _ _ _] _ _]] _ _] & Hin). split; [done|].
    eapply (followed_consumed _ _ _ (c, s)); [done|]. by apply (Hin _ [] s eq_refl).
Qed.
End serving.

(** ** A coordinator's life, evaluated

    A small installation: a coordinator starts, is told of submitters, stops
    and starts again.  The hypotheses of the theorems of Serving.v hold here;
    the examples at the end are what the hypotheses on the order of things
    leave out. *)

#[local] Open Scope go_scope.

(** ** The installation *)

Definition shop_template : SagaTemplate :=
  mkSagaTemplate "order" "" "" ∅ [] ∅ ["reserve"; "pay"].

Definition quiet_env : Env :=
  mkEnv (λ _, 0%Z) (λ n i, if decide (i = 0) then n else 0) (λ _, MqSent) (λ _, false) (λ _, true).

(** [clusters]: what the store lists at each question. *)
Definition installation (clusters : nat → result (list string)) : CoordEnv :=
  mkCoordEnv quiet_env (mkBrokerEnv (λ _, true) (λ _, true)) (λ _, 0%Z) (λ _, true)
    clusters (λ _, Ok [shop_template]) true (λ _, false) (λ _, true).

Definition main_env : CoordEnv := installation (λ _, Ok ["main"]).

Definition idle_pool : PoolWorld := mkPoolWorld (mkChannelPool [] 10 false 0 0 0 0) ∅ 0 ∅ [] [] 0.

Definition new_world : CoordWorld :=
  mkCoordWorld NewSagaCoordinator (mkBrokerWorld empty_topology 0) idle_pool
    (mkBreaker true 0 0 0) [] 0.

Lemma main_clean : clean_clusters main_env ∧ clean_templates main_env ∧ clean_follow main_env.
Proof.
  split_and!; intros n cs [= <-]; repeat constructor.
Qed.

Definition no_json : string → option Json := λ _, None.

Abbreviation start e := (Start e "default").
Abbreviation restart e := (Restart e "default").
Abbreviation announce e := (AnnounceSagaSubmitter e "coord").

Lemma run_eq {S A} (m : M S A) s o : (m s).1 = o → m s = (o, (m s).2).
Proof. destruct (m s). by intros <-. Qed.

(** Started; a submitter has announced itself; restarted. *)
Definition up : CoordWorld := (start main_env new_world).2.
Definition followed : CoordWorld := (announce main_env "sub1" up).2.
Definition again : CoordWorld := (restart main_env followed).2.

Definition main_alive : CoordWorld → Prop := alive no_json main_env "coord" "default" false.

Lemma up_start : start main_env new_world = (Ret (Ok tt), up).
Proof. apply (run_eq (start main_env)). vm_compute. reflexivity. Qed.

Lemma up_alive : main_alive up.
Proof.
  exists new_world. split; [reflexivity|].
  apply rtc_once, (life_start _ _ _ _ _ new_world up); [reflexivity|reflexivity|exact up_start].
Qed.

Lemma up_running : co_isRunning (cw_coordinator up) = true.
Proof. vm_compute. reflexivity. Qed.

Definition sub1_outbox : string := (getSagaSubmitterOutboxNodeNames "main" "sub1").2.

Definition sub1_names : gmap string SubmitterNodeNames := {["main" := node_names "main" "sub1"]}.

Lemma up_announce : announce main_env "sub1" up = (Ret (Ok (["main"], sub1_names)), followed).
Proof. apply (run_eq (announce main_env "sub1")). vm_compute. reflexivity. Qed.

Lemma followed_alive : main_alive followed.
Proof.
  destruct up_alive as (w0 & H0 & Hs). exists w0. split; [exact H0|]. apply (rtc_r _ _ _ Hs).
  exact (life_announce _ _ _ _ _ _ _ _ _ up_running up_announce).
Qed.

Lemma again_restart : restart main_env followed = (Ret (Ok tt), again).
Proof. apply (run_eq (restart main_env)). vm_compute. reflexivity. Qed.

Lemma again_alive : main_alive again.
Proof.
  destruct followed_alive as (w0 & H0 & Hs). exists w0. split; [exact H0|]. apply (rtc_r _ _ _ Hs).
  exact (life_restart _ _ _ _ _ _ _ again_restart).
Qed.

Lemma coordinator_serves_witness :
  main_alive followed ∧ sub1_outbox ∈ live_consumers (cw_coordinator followed) ∧
  main_alive again ∧ length (live_consumers (cw_coordinator again)) = 2 ∧
  (let c := cw_coordinator again in
   if co_isRunning c then
    ∃ cs l, (∃ k, ve_clusters main_env k = Ok cs) ∧
      live_consumers c = (cs ≫= own_queues "default") ++
        ((λ p, (getSagaSubmitterOutboxNodeNames p.1 p.2).2) <$> l) ∧
      (false = false → NoDup ((λ p, follow_key p.1 p.2) <$> l)) ∧
      co_followedMap c = list_to_set ((λ p, follow_key p.1 p.2) <$> l) ∧
      co_loops c = (PollingLoop <$> cs) ++ end_loops main_env ∧
      ∀ key, key ∈ co_initializedSteps c → ∃ cl t s, key = step_key cl t s ∧
        step_binding cl t s ∈ tp_bindings (topology again)
   else live_consumers c = [] ∧ co_loops c = [] ∧ co_followedMap c = ∅ ∧
    co_initializedSteps c = ∅ ∧ co_notifSubs c = []).
Proof.
  split; [apply followed_alive|]. split; [vm_compute; set_solver|].
  split; [apply again_alive|]. split; [vm_compute; reflexivity|].
  apply (coordinator_serves no_json main_env "coord" "default" false).
  - apply main_clean.
  - apply main_clean.
  - apply main_clean.
  - apply again_alive.
Defined.


Lemma announced_submitter_is_served_witness :
  (∀ sw, wp (startConsumers (Some <$> sub1_names) ["main"]) (returns (λ _ sw', ∀ c n,
     c ∈ ["main"] → sub1_names !! c = Some n →
     sb_nodeNames (sw_submitter sw') !! c = Some n ∧
     nn_Inbox n ∈ sb_consumersStarted (sw_submitter sw'))) sw) ∧
  ∀ c, c ∈ ["main"] → ∃ n, sub1_names !! c = Some n ∧
    (∀ key, bound (topology followed) (getSagaSubmitterInboxNodeNames c "sub1").1 key (nn_Inbox n)) ∧
    (∀ key, bound (topology followed) (nn_Outbox n) key (getSagaSubmitterOutboxNodeNames c "sub1").2) ∧
    (getSagaSubmitterOutboxNodeNames c "sub1").2 ∈ live_consumers (cw_coordinator followed) ∧
    ∃ msg, PubNode (getControlBusPublishNodeName c) msg ∈ cw_follow followed ∧
      ∀ w2, main_alive w2 → co_isRunning (cw_coordinator w2) = true → c ≠ "" → no_bar c = true →
        wp (consumeControl msg) (returns (λ r w2', r = Ok tt ∧
          (getSagaSubmitterOutboxNodeNames c "sub1").2 ∈ live_consumers (cw_coordinator w2'))) w2.
Proof.
  apply (announced_submitter_is_served no_json main_env "coord" "default" false (proj1 main_clean)
    (proj1 (proj2 main_clean)) up followed "sub1" ["main"] sub1_names).
  - apply main_clean.
  - apply up_alive.
  - apply up_running.
  - apply up_announce.
Defined.

(** ** What the order of things does *)

(** An announcement between the two halves of a restart: the submitter is
    marked, its consumer has a context that is cancelled already, and no later
    announcement helps. *)
Definition window : CoordWorld :=
  let w := (announce main_env "sub1" (Stop up).2).2 in
  let w := (with_coord (set_cancelClosed false) w).2 in
  (announce main_env "sub1" (start main_env w).2).2.

Example restart_window_loses_submitter :
  co_isRunning (cw_coordinator window) = true ∧
  follow_key "main" "sub1" ∈ co_followedMap (cw_coordinator window) ∧
  sub1_outbox ∉ live_consumers (cw_coordinator window).
Proof. split_and!; vm_compute; [reflexivity|set_solver|set_solver]. Qed.

(** Two announcements of one submitter that both look before either marks:
    its outbox is consumed twice. *)
Example overlapping_announcements_consume_twice :
  alive no_json main_env "coord" "default" true (startFollowing "main" "sub1" followed).2 ∧
  length (filter (λ q, q = sub1_outbox)
    (live_consumers (cw_coordinator (startFollowing "main" "sub1" followed).2))) = 2.
Proof.
  split; [|vm_compute; reflexivity]. exists new_world. split; [reflexivity|].
  eapply rtc_l; [apply (life_start _ _ _ _ _ _ up); [reflexivity|reflexivity|exact up_start]|].
  eapply rtc_l; [exact (life_announce _ _ _ _ _ _ _ _ _ up_running up_announce)|].
  apply rtc_once, (life_overlap _ _ _ _ _ _ _ "main" "sub1"); [reflexivity|reflexivity| |].
  - vm_compute. reflexivity.
  - apply (run_eq (startFollowing "main" "sub1")). vm_compute. reflexivity.
Qed.

(** Before the first start there is no context yet. *)
Example early_announcement_panics :
  (announce main_env "sub1" new_world).1 = Panic "cannot create context from nil parent".
Proof. vm_compute. reflexivity. Qed.

(** A cluster that is added while the coordinator runs has no exchange yet;
    every reload ends at it. *)
Definition grown_env : CoordEnv :=
  installation (λ n, if n <? 4 then Ok ["main"] else Ok ["east"; "main"]).

Example new_cluster_blocks_reload :
  (start grown_env new_world).1 = Ret (Ok tt) ∧
  match (reloadSagaTemplates grown_env (start grown_env new_world).2).1 with
  | Ret (Err _) => True
  | _ => False
  end.
Proof. split; [vm_compute; reflexivity|vm_compute; exact I]. Qed.

(** A start that fails leaves its consumers, and [Stop] does not see them. *)
Definition failing_env : CoordEnv :=
  mkCoordEnv quiet_env (mkBrokerEnv (λ _, true) (λ _, true)) (λ _, 0%Z) (λ _, true)
    (λ _, Ok ["main"]) (λ _, Err (Errorf "down")) true (λ _, false) (λ _, true).

Example failed_start_keeps_consuming :
  let w := (Stop (start failing_env new_world).2).2 in
  co_isRunning (cw_coordinator w) = false ∧ length (live_consumers (cw_coordinator w)) = 2.
Proof. vm_compute. done. Qed.

(** [Start] after [Stop], without [Restart]: the channel stays closed, and the
    next [Stop] closes it again. *)
Example plain_start_after_stop :
  (Stop (start main_env (Stop up).2).2).1 = Panic "close of closed channel".
Proof. vm_compute. reflexivity. Qed.
