(* ===== verification/Transit.v ===== *)
(** * The coordinator's calls on one saga

    Rules for the pieces the handlers are made of, for a saga in focus: the
    list of its steps, a verified transition of a step or of the saga, an
    update of a step's history, and a transaction with a deferred rollback.
    A verified transition never panics: what it reads back is what it
    wrote. *)

From S2P Require Import Prelude GoMonad Model Naming Sequence Database Focus Messages Store World.
From S2P Require Import Rules Coordinator.

(** The database of a transaction in which only the saga [sid] has changed. *)
Definition at_saga (cid sid : string) (com : DB) (g : SagaInstance)
    (ss : list SagaStepInstance) (d : DB) : Prop :=
  focus cid sid d g ss ∧ outside cid sid com d.

Lemma at_saga_refl cid sid com g ss : focus cid sid com g ss → at_saga cid sid com g ss com.
Proof. done. Qed.

Lemma at_saga_step cid sid com g pre x post f d :
  at_saga cid sid com g (pre ++ x :: post) d → step_update f →
  at_saga cid sid com g (pre ++ f x :: post) (upd_step cid (ssi_InstanceId x) f d).
Proof.
  intros [Hf Ho] Hu. destruct (focus_upd_step _ _ _ _ _ _ _ _ Hf Hu) as [Hf' Ho'].
  split; [done|]. by etrans.
Qed.

Lemma at_saga_saga cid sid com g ss f d :
  at_saga cid sid com g ss d → saga_update f →
  at_saga cid sid com (f g) ss (upd_saga cid sid f d).
Proof.
  intros [Hf Ho] Hu. destruct (focus_upd_saga _ _ _ _ _ _ Hf Hu) as [Hf' Ho'].
  split; [done|]. by etrans.
Qed.

Lemma at_saga_notify cid sid com g ss n d :
  at_saga cid sid com g ss d →
  at_saga cid sid com g ss (set_db_notifications (db_notifications d ++ [n]) d).
Proof. intros [[] []]. by split. Qed.

Lemma sql_update_step_ok cid id f d d' :
  sql_update_step cid id f d = Ok d' → d' = upd_step cid id f d.
Proof. unfold sql_update_step. destruct (step_table cid d); [|done]. by intros [= <-]. Qed.

Lemma sql_update_saga_ok cid id f d d' :
  sql_update_saga cid id f d = Ok d' → d' = upd_saga cid id f d.
Proof. unfold sql_update_saga. destruct (saga_table cid d); [|done]. by intros [= <-]. Qed.

Lemma sql_select_step_ok cid id d x :
  sql_select_step cid id d = Ok x → step_rows cid d !! id = Some x.
Proof.
  unfold sql_select_step. destruct (step_table cid d); [|done].
  destruct (step_rows cid d !! id); [|done]. by intros [= <-].
Qed.

Lemma sql_select_saga_ok cid id d g :
  sql_select_saga cid id d = Ok g → saga_rows cid d !! id = Some g.
Proof.
  unfold sql_select_saga. destruct (saga_table cid d); [|done].
  destruct (saga_rows cid d !! id); [|done]. by intros [= <-].
Qed.

Lemma sql_update_step_err cid id f d e :
  is_Some (step_table cid d) → sql_update_step cid id f d ≠ Err e.
Proof. unfold sql_update_step. by intros [? ->]. Qed.

Lemma sql_update_saga_err cid id f d e :
  is_Some (saga_table cid d) → sql_update_saga cid id f d ≠ Err e.
Proof. unfold sql_update_saga. by intros [? ->]. Qed.

Lemma at_saga_step_table cid sid com g ss d :
  at_saga cid sid com g ss d → is_Some (step_table cid d).
Proof. intros [Hf _]. apply Hf. Qed.

Lemma at_saga_saga_table cid sid com g ss d :
  at_saga cid sid com g ss d → is_Some (saga_table cid d).
Proof. intros [Hf _]. apply Hf. Qed.

(** What is read back after an update. *)
Lemma select_saga_updated cid id st r ts d g :
  sql_select_saga cid id (upd_saga cid id (row_saga_state st r ts) d) = Ok g →
  si_State g = st.
Proof.
  intros Hg%sql_select_saga_ok. rewrite saga_rows_upd in Hg by apply _.
  rewrite lookup_alter_eq in Hg.
  destruct (saga_rows cid d !! id); simplify_eq/=. done.
Qed.

Lemma select_step_at cid sid com g pre x post d id y :
  at_saga cid sid com g (pre ++ x :: post) d → id = ssi_InstanceId x →
  sql_select_step cid id d = Ok y → y = x.
Proof.
  intros [Hf _] -> Hy%sql_select_step_ok.
  rewrite (focus_step_row _ _ _ _ Hf) in Hy; [by simplify_eq|set_solver].
Qed.

Lemma select_step_found cid sid com g pre x post d id e :
  at_saga cid sid com g (pre ++ x :: post) d → id = ssi_InstanceId x →
  sql_select_step cid id d ≠ Err e.
Proof.
  intros Hat ->. destruct (at_saga_step_table _ _ _ _ _ _ Hat) as [t Ht].
  unfold sql_select_step. rewrite Ht. destruct Hat as [Hf _].
  rewrite (focus_step_row _ _ _ _ Hf); [done|set_solver].
Qed.

(** The compensation of some committed sagas has been requested. *)
Definition trigger_step (d d' : DB) : Prop :=
  ∃ cid id g ts, saga_rows cid d !! id = Some g ∧ si_State g = SagaStateEnum_Committed ∧
    d' = upd_saga cid id (row_saga_state_only SagaStateEnum_CompensationRequested ts) d.

Definition triggered : DB → DB → Prop := rtc trigger_step.

Lemma focus_trigger_step cid sid g ss d d' :
  si_State g ≠ SagaStateEnum_Committed → trigger_step d d' →
  focus cid sid d g ss → focus cid sid d' g ss.
Proof.
  intros Hg (c & i & g0 & ts & Hg0 & Hst & ->) Hf. apply focus_upd_saga_ne; [|apply _|done].
  intros [= -> ->]. apply Hg. rewrite (focus_saga _ _ _ _ _ Hf) in Hg0. by simplify_eq.
Qed.

Lemma focus_triggered cid sid g ss d d' :
  si_State g ≠ SagaStateEnum_Committed → triggered d d' →
  focus cid sid d g ss → focus cid sid d' g ss.
Proof. intros Hg. induction 1; [done|]. intros Hf. eauto using focus_trigger_step. Qed.

Section transit.
Context {St : Type} `{!Store St, !StoreLaws St} (env : Env).
#[local] Notation faulty := (faulty (St := St)).
Context (SubComponent affinityGroup : string) (executionTimeoutMs : Z).
Implicit Types (w : World St) (com d : DB) (gm g : SagaInstance)
  (xm x : SagaStepInstance) (pre post ss : list SagaStepInstance).

(** *** The list of the steps *)

Lemma tx_listSteps cid sid com g ss gm w
    (Q : result (list SagaStepInstance) → World St → Prop) :
  in_tx com (at_saga cid sid com g ss) w →
  si_ClusterId gm = cid → si_InstanceId gm = sid →
  (∀ all w', OrderSagaStepsInSequence all = Some ss → all ≡ₚ ss →
     in_tx com (at_saga cid sid com g ss) w' → Q (Ok all) w') →
  (∀ e w', faulty → in_tx com (at_saga cid sid com g ss) w' → Q (Err e) w') →
  wp (listSteps gm) (returns Q) w.
Proof.
  intros Ht <- <- HO HE.
  eapply (tx_query _ _ _ _ (law_ListSagaStepInstancesBySagaInstanceId _ _)); [done|..].
  - intros d Hd%at_saga_step_table. by destruct Hd as [? ->].
  - intros all d w' [Hf Ho] [_ Hp] _ Ht'. apply HO; [by eapply focus_order| |done].
    rewrite Hp, (focus_steps _ _ _ _ _ Hf). apply steps_map_to_list, Hf.
  - intros e w' Ht' [(d & _ & [])|[? _]]. by apply HE.
Qed.

Lemma idle_listSteps cid sid com g ss gm w
    (Q : result (list SagaStepInstance) → World St → Prop) :
  idle com w → focus cid sid com g ss →
  si_ClusterId gm = cid → si_InstanceId gm = sid →
  (∀ all w', OrderSagaStepsInSequence all = Some ss → all ≡ₚ ss → idle com w' →
     Q (Ok all) w') →
  (∀ e w', faulty → idle com w' → Q (Err e) w') →
  wp (listSteps gm) (returns Q) w.
Proof.
  intros Hi Hf <- <- HO HE.
  eapply (idle_query _ _ _ _ (law_ListSagaStepInstancesBySagaInstanceId _ _)); [done|..].
  - destruct (focus_tables _ _ _ _ _ Hf) as [_ [? ->]]. done.
  - intros all w' [_ Hp] Hi'. apply HO; [by eapply focus_order| |done].
    rewrite Hp, (focus_steps _ _ _ _ _ Hf). apply steps_map_to_list, Hf.
  - intros e w' [[[]|[? _]]|?]; by apply HE.
Qed.

Lemma wp_orderSteps all ss w (Q : list SagaStepInstance → World St → Prop) :
  OrderSagaStepsInSequence all = Some ss → Q ss w → wp (orderSteps all) (returns Q) w.
Proof. intros Ho HQ. unfold orderSteps. by rewrite Ho. Qed.

(** *** Steps *)

(** The write of a transition; the notification may fail without a word. *)
Lemma tx_UpdateSagaStepState cid sid com g pre x post xm target w
    (Q : result SagaStepInstance → World St → Prop) :
  in_tx com (at_saga cid sid com g (pre ++ x :: post)) w →
  ssi_ClusterId xm = cid → ssi_InstanceId xm = ssi_InstanceId x →
  (∀ ts w', in_tx com (at_saga cid sid com g (pre ++ row_step_state target ts x :: post)) w' →
     Q (Ok (set_ssi_State target xm)) w') →
  (∀ e w', faulty → open_tx com w' → Q (Err e) w') →
  wp (call (UpdateSagaStepState xm target)) (returns Q) w.
Proof.
  intros (d & b & Hw & HP & Hb) Hxc Hid HO HE.
  apply (wp_call _ _ _ _ (law_UpdateSagaStepState xm target)). intros r w1 _ Hspec.
  rewrite Hw in Hspec. destruct Hspec as (r1 & v1 & Hu & Hk). destruct r1 as [[]|e].
  - destruct Hu as [Ha (d1 & (ts & Hd1%sql_update_step_ok) & ->)].
    unfold v_alive in Ha. simpl in Ha. subst b. simpl in Hd1. rewrite Hid, Hxc in Hd1.
    assert (at_saga cid sid com g (pre ++ row_step_state target ts x :: post) d1) as Hat.
    { subst d1. apply at_saga_step; [by apply HP|apply _]. }
    eapply (notify_in_tx _ _ _ com (at_saga cid sid com g
      (pre ++ row_step_state target ts x :: post))) in Hk as [-> (d2 & b2 & Hv & HP2 & Hb2)];
      [|done|done|by intros; apply at_saga_notify].
    apply (HO ts). by exists d2, b2.
  - destruct Hk as [-> Hv]. destruct Hu as [(_ & [] & _)|(_ & Hx & b' & _ & Hv1)].
    apply HE; [|exists (d, b'); by rewrite Hv, Hv1].
    unfold v_alive in Hx. simpl in Hx. destruct b; [by apply Hb|].
    destruct Hx as [?|[Hx|(ts & e' & Hx)]]; [done|done|exfalso].
    revert Hx. rewrite Hxc. by eapply sql_update_step_err, at_saga_step_table, HP.
Qed.

Lemma tx_transitStep cid sid com g pre x post gm xm target w
    (Q : result unit * SagaStepInstance → World St → Prop) :
  in_tx com (at_saga cid sid com g (pre ++ x :: post)) w →
  si_ClusterId gm = cid → ssi_ClusterId xm = cid → ssi_InstanceId xm = ssi_InstanceId x →
  (∀ ts w', in_tx com (at_saga cid sid com g (pre ++ row_step_state target ts x :: post)) w' →
     Q (Ok tt, row_step_state target ts x) w') →
  (∀ e xm' w', faulty → open_tx com w' → Q (Err e, xm') w') →
  wp (transitSagaStepToState gm xm target) (returns Q) w.
Proof.
  intros Ht Hgc Hxc Hid HO HE. unfold transitSagaStepToState. apply wp_bind_ret.
  eapply tx_UpdateSagaStepState; [done..| |by intros; apply wp_ret, HE].
  intros ts w1 Ht1. apply wp_or_else.
  eapply (tx_query _ _ _ _ (law_GetSagaStepInstance _ _)); [exact Ht1|..].
  - intros d Hd%at_saga_step_table. rewrite Hgc. by destruct Hd as [? ->].
  - intros y d w2 Hat Hy _ Ht2. rewrite Hgc in Hy.
    eapply select_step_at in Hy; [|exact Hat|done]. subst y.
    replace (step_state_eqb _ target) with true
      by (symmetry; by apply bool_decide_eq_true_2).
    simpl. by apply wp_ret, HO.
  - intros e w2 Ht2 He. apply wp_ret, HE; [|by eapply in_tx_open].
    destruct He as [(d & Hat & _ & He)|[? _]]; [exfalso|done]. rewrite Hgc in He.
    by eapply select_step_found in He.
Qed.

Lemma tx_update_step cid sid com g pre x post (f : Z → SagaStepInstance → SagaStepInstance)
    xm (m : M St (result unit)) w (Q : result unit → World St → Prop) :
  implements vw m (spec_update_step faulty xm f) → (∀ ts, step_update (f ts)) →
  in_tx com (at_saga cid sid com g (pre ++ x :: post)) w →
  ssi_ClusterId xm = cid → ssi_InstanceId xm = ssi_InstanceId x →
  (∀ ts w', in_tx com (at_saga cid sid com g (pre ++ f ts x :: post)) w' → Q (Ok tt) w') →
  (∀ e w', faulty → open_tx com w' → Q (Err e) w') →
  wp (call m) (returns Q) w.
Proof.
  intros Hm Hf Ht Hc Hid HO HE. eapply (tx_stmt _ _ _ _ Hm); [done|..].
  - intros d Hd%at_saga_step_table (ts & e & He). revert He. rewrite Hc.
    by apply sql_update_step_err.
  - intros [] w' Ht' _.
    assert (∃ ts, in_tx com (at_saga cid sid com g (pre ++ f ts x :: post)) w') as [ts Ht''].
    { apply (in_tx_exists 0%Z). revert Ht'. apply in_tx_mono.
      intros d' (d & Hat & ts & Hd%sql_update_step_ok). exists ts. rewrite Hd, Hc, Hid.
      by apply at_saga_step. }
    by apply (HO ts).
  - intros e w' Ht' [(d & _ & [])|[? _]]. apply HE; [done|by eapply in_tx_open].
Qed.

(** A loop over a part of the steps whose turn either leaves a related step
    behind or leaves the loop. *)
Lemma tx_range cid sid com g (Rel : SagaStepInstance → SagaStepInstance → Prop)
    (Ex : verdict → World St → Prop) body l pre post w
    (Q : option verdict → World St → Prop) :
  in_tx com (at_saga cid sid com g (pre ++ l ++ post)) w →
  (∀ pre y post w, y ∈ l → in_tx com (at_saga cid sid com g (pre ++ y :: post)) w →
     wp (body y) (returns (λ r w',
       match r with
       | None => ∃ y', Rel y y' ∧ in_tx com (at_saga cid sid com g (pre ++ y' :: post)) w'
       | Some v => Ex v w'
       end)) w) →
  (∀ l' w', Forall2 Rel l l' → in_tx com (at_saga cid sid com g (pre ++ l' ++ post)) w' →
     Q None w') →
  (∀ v w', Ex v w' → Q (Some v) w') →
  wp (range_loop l body) (returns Q) w.
Proof.
  intros Ht Hb HN HS. revert pre w Ht HN. induction l as [|y l IH]; intros pre w Ht HN.
  { apply wp_ret. by apply (HN []). }
  simpl. apply wp_bind_ret. eapply wp_returns_mono; [|apply (Hb pre y (l ++ post)); [by left|done]].
  intros [v|] w1; [intros Hv; by apply wp_ret, HS|]. intros (y' & HR & Ht1).
  apply (IH ltac:(intros; apply Hb; [by right|done]) (pre ++ [y'])).
  { by rewrite <-app_assoc. }
  intros l' w2 Hl' Ht2. apply (HN (y' :: l')); [by constructor|].
  by rewrite <-app_assoc in Ht2.
Qed.

(** *** The saga *)

(** The update, seen as an update of whatever row there is. *)
Lemma tx_UpdateSagaState com P gm st w (Q : result SagaInstance → World St → Prop) :
  in_tx com P w → (∀ d, P d → is_Some (saga_table (si_ClusterId gm) d)) →
  (∀ ts w', in_tx com (λ d', ∃ d, P d ∧
      d' = upd_saga (si_ClusterId gm) (si_InstanceId gm)
             (row_saga_state st (si_CompensationReason gm) ts) d) w' →
     Q (Ok (set_si_State st gm)) w') →
  (∀ e w', faulty → open_tx com w' → Q (Err e) w') →
  wp (call (UpdateSagaState gm st)) (returns Q) w.
Proof.
  intros (d & b & Hw & HP & Hb) Htab HO HE. apply (wp_call _ _ _ _ (law_UpdateSagaState gm st)).
  intros r w1 _ (r1 & v1 & Hu & Hk). rewrite Hw in Hu. destruct r1 as [[]|e].
  - destruct Hu as [Ha (d1 & (ts & Hd1%sql_update_saga_ok) & ->)].
    unfold v_alive in Ha. simpl in *. subst b. destruct Hk as [-> Hv].
    apply (HO ts). exists d1, false. split; [done|]. split; [eauto|done].
  - destruct Hk as [-> Hv]. destruct Hu as [(_ & [] & _)|(_ & Hx & b' & _ & Hv1)].
    apply HE; [|exists (d, b'); by rewrite Hv, Hv1].
    unfold v_alive in Hx. simpl in Hx. destruct b; [by apply Hb|].
    destruct Hx as [?|[Hx|(ts & e' & Hx)]]; [done|done|exfalso].
    revert Hx. by apply sql_update_saga_err, Htab, HP.
Qed.

Lemma tx_transitSaga com P gm st w (Q : result unit * SagaInstance → World St → Prop) :
  in_tx com P w → (∀ d, P d → is_Some (saga_table (si_ClusterId gm) d)) →
  (∀ ts w', in_tx com (λ d', ∃ d, P d ∧
      d' = upd_saga (si_ClusterId gm) (si_InstanceId gm)
             (row_saga_state st (si_CompensationReason gm) ts) d) w' →
     Q (Ok tt, set_si_State st gm) w') →
  (∀ e gm' w', faulty ∨ (∃ d, P d ∧ saga_rows (si_ClusterId gm) d !! si_InstanceId gm = None) →
     open_tx com w' → Q (Err e, gm') w') →
  wp (transitSagaToState gm st) (returns Q) w.
Proof.
  intros Ht Htab HO HE. unfold transitSagaToState. apply wp_bind_ret.
  eapply tx_UpdateSagaState; [done|done|..].
  2: { intros e w' Hfa Ht'. apply wp_ret, HE; [by left|done]. }
  intros ts w1 Ht1. apply wp_or_else.
  eapply (tx_query _ _ _ _ (law_GetSagaInstance _ _)); [exact Ht1|..].
  - intros d' (d & Hd%Htab & ->) Hn. eapply saga_table_upd in Hd. simpl in Hn.
    rewrite Hn in Hd. by destruct Hd.
  - intros y d w2 (d0 & _ & ->) Hy _ Ht2. apply select_saga_updated in Hy.
    replace (saga_state_eqb _ st) with true by (symmetry; by apply bool_decide_eq_true_2).
    simpl. by apply wp_ret, (HO ts).
  - intros e w2 Ht2 He. apply wp_ret, HE; [|by eapply in_tx_open].
    destruct He as [(d' & (d & Hd & ->) & [? Ht'] & He)|[? _]]; [right|by left].
    exists d. split; [done|]. unfold sql_select_saga in He. simpl in *. rewrite Ht' in He.
    destruct (saga_rows _ _ !! _) eqn:Hrow in He; [done|].
    rewrite saga_rows_upd, lookup_alter_eq in Hrow by apply _. by apply fmap_None in Hrow.
Qed.

(** In focus. *)
Lemma tx_transitSaga_at cid sid com g ss gm st w
    (Q : result unit * SagaInstance → World St → Prop) :
  in_tx com (at_saga cid sid com g ss) w →
  si_ClusterId gm = cid → si_InstanceId gm = sid →
  (∀ ts w', in_tx com (at_saga cid sid com
      (row_saga_state st (si_CompensationReason gm) ts g) ss) w' →
     Q (Ok tt, set_si_State st gm) w') →
  (∀ e gm' w', faulty → open_tx com w' → Q (Err e, gm') w') →
  wp (transitSagaToState gm st) (returns Q) w.
Proof.
  intros Ht <- <- HO HE. eapply tx_transitSaga; [done|by intros d ?%at_saga_saga_table|..].
  - intros ts w' Ht'. apply (HO ts). revert Ht'. apply in_tx_mono.
    intros d' (d & Hat & ->). apply at_saga_saga; [done|apply _].
  - intros e gm' w' [?|(d & [Hd _] & Hn)] Ho; [by apply HE|exfalso].
    by rewrite (focus_saga _ _ _ _ _ Hd) in Hn.
Qed.

(** Outside a transaction. *)
Definition marked (st : SagaStateEnum) cid sid com com' : Prop :=
  com' = com ∨ ∃ r ts, com' = upd_saga cid sid (row_saga_state st r ts) com.

Lemma idle_transitSaga com gm st w (Q : result unit * SagaInstance → World St → Prop) :
  idle com w →
  (∀ r gm' com' w', idle com' w' →
     marked st (si_ClusterId gm) (si_InstanceId gm) com com' → Q (r, gm') w') →
  wp (transitSagaToState gm st) (returns Q) w.
Proof.
  intros Hi HQ. unfold transitSagaToState. apply wp_bind_ret.
  apply (wp_call _ _ _ _ (law_UpdateSagaState gm st)).
  intros r w1 _ (r1 & v1 & Hu & Hk). rewrite Hi in Hu. destruct r1 as [[]|e].
  - destruct Hu as [Ha (d1 & (ts & Hd1%sql_update_saga_ok) & ->)]. simpl in *.
    destruct Hk as [-> Hv]. apply wp_or_else.
    eapply (idle_query_any _ _ _ _ (law_GetSagaInstance _ _)); [exact Hv|..].
    + intros y w2 Hy Hi2. simpl in Hy. rewrite Hd1 in Hy. apply select_saga_updated in Hy.
      replace (saga_state_eqb _ st) with true by (symmetry; by apply bool_decide_eq_true_2).
      simpl. apply wp_ret. eapply HQ; [done|]. right. eauto.
    + intros e w2 Hi2. apply wp_ret. eapply HQ; [done|]. right. eauto.
  - destruct Hk as [-> Hv]. apply wp_ret.
    destruct Hu as [(_ & [] & _)|(_ & _ & [->|(a & d1 & (ts & Hd1%sql_update_saga_ok) & ->)])].
    + eapply HQ; [done|]. by left.
    + eapply HQ; [done|]. right. eauto.
Qed.

(** A guarded update: a trigger. *)
Lemma idle_trigger com cid id w (Q : result unit → World St → Prop) :
  idle com w →
  (∀ r com' w', idle com' w' → com' = com ∨ trigger_step com com' → Q r w') →
  wp (call (TriggerSagaCompensation cid id)) (returns Q) w.
Proof.
  intros Hi HQ. apply (wp_call _ _ _ _ (law_TriggerSagaCompensation cid id)).
  assert (∀ ts n d, sql_update_saga_if cid id SagaStateEnum_Committed
      (row_saga_state_only SagaStateEnum_CompensationRequested ts) com = Ok (d, n) →
      d = com ∨ trigger_step com d) as Hup.
  { intros ts n d. unfold sql_update_saga_if. destruct (saga_table cid com) as [t|]; [|done].
    destruct (saga_rows cid com !! id) as [g|] eqn:Hg; [|intros [= <- <-]; by left].
    destruct (saga_state_eqb (si_State g) _) eqn:Hst; intros [= <- <-]; [right|by left].
    exists cid, id, g, ts. split; [done|]. split; [|done].
    by apply bool_decide_eq_true in Hst. }
  intros r w' _ (r1 & v1 & Hu & Hk). rewrite Hi in Hu.
  assert (∃ com', v1 = View com' None ∧ (com' = com ∨ trigger_step com com'))
    as (com' & -> & Hcom').
  { destruct r1 as [n|e].
    - destruct Hu as [_ (d & (ts & Hd) & ->)]. exists d. split; [done|]. by eapply Hup.
    - destruct Hu as [(_ & [] & _)|(_ & _ & [->|(n & d & (ts & Hd) & ->)])]; [by exists com; auto|].
      exists d. split; [done|]. by eapply Hup. }
  destruct r1 as [n|e].
  - destruct (decide (n = 0)); [destruct Hk as (msg & _ & Hv)|destruct Hk as [_ Hv]];
      by eapply HQ.
  - destruct Hk as [_ Hv]. by eapply HQ.
Qed.

(** The loop over the children waits for exactly the unsettled ones. *)
Definition unsettled (id : string) (child : SagaInstance) : bool :=
  bool_decide (si_ParentSagaStepInstanceId child = id) &&
  negb (saga_state_eqb (si_State child) SagaStateEnum_Compensated).

Lemma wp_hasUncompensatedChildren id children com w (Q : bool → World St → Prop) :
  idle com w →
  (∀ com' w', idle com' w' → triggered com com' →
     (existsb (unsettled id) children = false → com' = com) →
     Q (existsb (unsettled id) children) w') →
  wp (hasUncompensatedChildren id children) (returns Q) w.
Proof.
  intros Hi HQ.
  assert (wp (hasUncompensatedChildren id children) (returns (λ b w', ∃ com', idle com' w' ∧
    triggered com com' ∧ b = existsb (unsettled id) children ∧ (b = false → com' = com))) w) as Hwp.
  { clear Q HQ. revert com w Hi. induction children as [|c cs IH]; intros com w Hi; simpl.
    { apply wp_ret. exists com. split; [done|]. split; [by apply rtc_refl|done]. }
    assert (∀ com1 w1, idle com1 w1 → triggered com com1 →
      wp (bind (hasUncompensatedChildren id cs) (λ _, ret true))
        (returns (λ (b : bool) w', ∃ com', idle com' w' ∧
           triggered com com' ∧ b = true ∧ (b = false → com' = com))) w1) as Hwait.
    { intros com1 w1 Hi1 Htr. apply wp_bind_ret. eapply wp_returns_mono; [|by apply IH].
      intros b w2 (com2 & Hi2 & Htr2 & _). apply wp_ret. exists com2.
      split; [done|]. split; [by etrans|done]. }
    unfold unsettled at 1.
    apply wp_if; intros Hp; [apply negb_true_iff in Hp|apply negb_false_iff in Hp];
      rewrite Hp; simpl; [by apply IH|].
    destruct (si_State c); simpl; try (by apply (Hwait com); [|apply rtc_refl]); [|by apply IH].
    apply wp_bind_ret. eapply idle_trigger; [done|]. intros r com1 w1 Hi1 Hc1.
    apply (Hwait com1); [done|]. destruct Hc1 as [->|Hc1]; [by apply rtc_refl|by apply rtc_once]. }
  eapply wp_returns_mono; [|exact Hwp]. intros b w' (com' & ? & ? & -> & ?). eauto.
Qed.

(** *** Transactions *)

Lemma wp_invalidateSaga rb gm com w (Q : SagaInstance → World St → Prop) :
  idle com w → is_Some (saga_table (si_ClusterId gm) com) →
  (∀ gm' com' w', idle com' w' →
     marked SagaStateEnum_InvalidState (si_ClusterId gm) (si_InstanceId gm) com com' →
     Q gm' w') →
  wp (invalidateSaga rb gm) (returns Q) w.
Proof.
  intros Hi Htab HQ. unfold invalidateSaga. apply wp_or_else.
  eapply idle_begin; [done|..].
  2: { intros e w1 _ Hi1. apply wp_ret. apply (HQ _ com); [done|]. by left. }
  intros w1 Ht1. apply wp_bind_ret. eapply tx_transitSaga; [exact Ht1|by intros d ->|..].
  2: { intros e gm' w2 _ Ht2. apply wp_bind_ret. eapply tx_rollback; [done|].
       intros r w3 Hi3. apply wp_ret. apply (HQ _ com); [done|]. by left. }
  intros ts w2 Ht2. apply wp_or_else. eapply tx_commit; [done|..].
  - intros com' w3 (d & -> & ->) Hi3. apply wp_ret. eapply HQ; [done|]. right. eauto.
  - intros e com' w3 _ Hc Hi3.
    assert (marked SagaStateEnum_InvalidState (si_ClusterId gm) (si_InstanceId gm) com com')
      as Hmk by (destruct Hc as [->|(d & -> & ->)]; [by left|right; eauto]).
    destruct rb; [|apply wp_ret; by eapply HQ].
    apply wp_bind_ret. eapply idle_rollback; [done|]. intros r w4 Hi4. apply wp_ret.
    by eapply HQ.
Qed.

(** What the body of a transaction may end in: [Out] is what the handler
    promises of its answer and of the database it leaves.  [kept] is what it
    takes for the body to come to nothing, [wrong] what it takes for it to ask
    for the saga to be marked invalid. *)
Section bodies.
Context (cid sid : string) (com : DB) (kept wrong : Prop) (Out : bool * objects → DB → Prop).

Definition body_post (v : verdict) (o : objects) (w : World St) : Prop :=
  match v with
  | Committed f => ∃ com', idle com' w ∧ Out (f, o) com'
  | Abandoned true => wrong ∧ open_tx com w ∧ si_ClusterId o.1 = cid ∧ si_InstanceId o.1 = sid
  | Abandoned false => kept ∧ open_tx com w ∨ ∃ com', idle com' w ∧ Out (false, o) com'
  end.

Context (Hfault : faulty → kept).
Context (Hkept : kept → ∀ o, Out (false, o) com).

Lemma wp_in_transaction rb o body w :
  idle com w → is_Some (saga_table cid com) →
  (wrong → ∀ o' com', marked SagaStateEnum_InvalidState cid sid com com' →
     Out (false, o') com') →
  (∀ w', in_tx com (λ d, d = com) w' →
     wp body (returns (λ vo w'', body_post vo.1 vo.2 w'')) w') →
  wp (in_transaction rb o body) (returns (λ r w', ∃ com', idle com' w' ∧ Out r com')) w.
Proof.
  intros Hi Htab Hinv Hbody. unfold in_transaction. apply wp_or_else.
  eapply idle_begin; [done|..].
  2: { intros e w1 Hfa Hi1. apply wp_ret. exists com. auto. }
  intros w1 Ht1. apply wp_with_defer. specialize (Hbody _ Ht1). revert Hbody.
  apply wp_returns_mono. intros [[f|[]] o'] w2; simpl.
  - intros (com' & Hi2 & HO). apply wp_ret. by exists com'.
  - intros (Hw & Ht2 & Hc & Hid). apply wp_bind_ret. eapply tx_rollback; [done|].
    intros r w3 Hi3. apply wp_bind_ret. eapply wp_invalidateSaga; [done|by rewrite Hc|].
    intros gm' com' w4 Hi4 Hmk. apply wp_ret. rewrite Hc, Hid in Hmk. exists com'. auto.
  - intros [[Hk Ht2]|(com' & Hi2 & HO)]; apply wp_bind_ret.
    + eapply tx_rollback; [done|]. intros r w3 Hi3. apply wp_ret. exists com. auto.
    + eapply idle_rollback; [done|]. intros r w3 Hi3. apply wp_ret. by exists com'.
Qed.

(** The commit at the end of a body. *)
Lemma wp_commit P f o w :
  in_tx com P w →
  (∀ com', P com' → Out (f, o) com' ∧ (kept → Out (false, o) com')) →
  wp (commit f o) (returns (λ vo w', body_post vo.1 vo.2 w')) w.
Proof.
  intros Ht HP. unfold commit. apply wp_or_else. eapply tx_commit; [done|..].
  - intros com' w' Hc Hi. apply wp_ret. exists com'. split; [done|]. by apply HP.
  - intros e com' w' Hfa Hc Hi. apply wp_ret. right. exists com'. split; [done|].
    destruct Hc as [->|Hc]; [by auto|]. by apply HP; auto.
Qed.

Lemma wp_abandon_false o w :
  kept → open_tx com w →
  wp (abandon false o) (returns (λ vo w', body_post vo.1 vo.2 w')) w.
Proof. intros Hk Ht. apply wp_ret. by left. Qed.

Lemma wp_abandon_true P o w :
  wrong → in_tx com P w → si_ClusterId o.1 = cid → si_InstanceId o.1 = sid →
  wp (abandon true o) (returns (λ vo w', body_post vo.1 vo.2 w')) w.
Proof. intros Hw Ht Hc Hid. apply wp_ret. split; [done|]. split; [by eapply in_tx_open|done]. Qed.
End bodies.

(** Marking the saga outside a transaction. *)
Lemma wp_giveUp o com (Out : bool * objects → DB → Prop) w :
  idle com w →
  (∀ o' com', marked SagaStateEnum_InvalidState (si_ClusterId o.1) (si_InstanceId o.1) com com' →
     Out (false, o') com') →
  wp (giveUp o) (returns (λ r w', ∃ com', idle com' w' ∧ Out r com')) w.
Proof.
  intros Hi Hinv. unfold giveUp. apply wp_bind_ret. eapply idle_transitSaga; [done|].
  intros r gm' com' w' Hi' Hmk. apply wp_ret. exists com'. auto.
Qed.
End transit.
