(* ===== verification/Protocol.v ===== *)
(** * What the handlers do to a saga

    The abstract specification of the coordinator's step processing: a saga
    is its row and the sequence of its steps, and each handler is a relation
    between the saga before and the saga after.  Times, identifiers and
    reasons are left open; what is fixed is which steps change, in which
    state they were and end, what becomes of the saga, what it takes for
    nothing to happen, and what it takes for the saga to be marked invalid.
    HandlerSpecs.v shows that the handlers implement these relations on a
    store that may fail at any statement. *)

From S2P Require Import Prelude GoMonad Model Sequence Validation Database Store.
From S2P Require Import World Coordinator.

(** ** One step *)

(** Equal but for the time of the last update. *)
Definition same_step (x y : SagaStepInstance) : Prop :=
  set_ssi_UpdatedAt (ssi_UpdatedAt y) x = y.

(** The step after it was moved to a state. *)
Definition moved (st : SagaStepStateEnum) (x y : SagaStepInstance) : Prop :=
  ∃ ts, y = row_step_state st ts x.

(** The candidate has become running, with a fresh identifier and log. *)
Definition started (env : Env) (x y : SagaStepInstance) : Prop :=
  ∃ eid n ts, y = row_step_state SagaStepStateEnum_ExecutionRunning ts
    (row_step_history eid [emptyExecutionLog (env_now env n) false] ts x).

(** The compensation candidate has become running, a log appended to the
    history [h]. *)
Definition comp_started (env : Env) (eid : string) (h : list SagaStepExecutionLog)
    (x y : SagaStepInstance) : Prop :=
  ∃ n ts, y = row_step_state SagaStepStateEnum_CompensationRunning ts
    (row_step_history eid (h ++ [emptyExecutionLog (env_now env n) true]) ts x).

(** The history of the step in memory, with its last log changed, has been
    written over the step. *)
Definition logged (f : SagaStepExecutionLog → SagaStepExecutionLog)
    (xm x y : SagaStepInstance) : Prop :=
  ∃ ts, y = row_step_history (ssi_ExecutionId xm) (ssi_ExecutionHistory (updateLastLog f xm)) ts x.

(** The request has been sent, and the time noted by which it must be
    answered. *)
Definition sent (env : Env) (executionTimeoutMs : Z) (xm x y : SagaStepInstance) : Prop :=
  ∃ n, logged (λ log,
    set_log_ExecutionTimeoutTs (int64_add (env_now env n) executionTimeoutMs)
      (set_log_ExecutionRequestSentTs (env_now env n) log)) xm x y.

(** ** One saga *)

Definition saga_moved (st : SagaStateEnum) (g g' : SagaInstance) : Prop :=
  ∃ r ts, g' = row_saga_state st r ts g.

(** What a failed step does to a step after it. *)
Definition aborted (x y : SagaStepInstance) : Prop :=
  if step_state_eqb (ssi_State x) SagaStepStateEnum_ExecutionPending
  then moved SagaStepStateEnum_ExecutionAborted x y else y = x.

(** A handler that works on the step [x], in memory [xm], of the saga [g], in
    memory [gm], with the steps [pre] before and [post] after it.  An effect
    is what may be there afterwards. *)
Section effects.
Context (env : Env) (executionTimeoutMs : Z).
Context (gm g : SagaInstance) (xm : SagaStepInstance).
Context (pre : list SagaStepInstance) (x : SagaStepInstance) (post : list SagaStepInstance).

Definition effect : Type := SagaInstance → list SagaStepInstance → Prop.

Definition no_effect : effect := λ g' ss', False.

Definition block_effect : effect := λ g' ss',
  g' = g ∧ ∃ x', moved SagaStepStateEnum_ExecutionBlocked x x' ∧ ss' = pre ++ x' :: post.

Definition start_effect : effect := λ g' ss',
  g' = g ∧ notInState SagaStepStateEnum_ExecutionDone (last pre) = false ∧
  notInState SagaStepStateEnum_ExecutionPending (head post) = false ∧
  ∃ x', started env x x' ∧ ss' = pre ++ x' :: post.

(** A request was sent. *)
Definition send_effect : effect := λ g' ss',
  g' = g ∧ Forall Done pre ∧ ∃ x', sent env executionTimeoutMs xm x x' ∧ ss' = pre ++ x' :: post.

Definition send_comp_effect : effect := λ g' ss',
  g' = g ∧ ∃ x', sent env executionTimeoutMs xm x x' ∧ ss' = pre ++ x' :: post.

Definition timeout_effect (st : SagaStepStateEnum) : effect := λ g' ss',
  g' = g ∧
  (∃ log, last (ssi_ExecutionHistory xm) = Some log ∧ (0 < log_ExecutionRequestSentTs log)%Z) ∧
  ∃ nowTs x1 x2, logged (set_log_LogConclusionTs nowTs) xm x x1 ∧ moved st x1 x2 ∧
    ss' = pre ++ x2 :: post.

Definition succeed_effect : effect := λ g' ss',
  ∃ x', moved SagaStepStateEnum_ExecutionDone x x' ∧
    match post with
    | [] => Forall Done pre ∧ saga_moved SagaStateEnum_Committed g g' ∧ ss' = pre ++ [x']
    | n :: post' =>
        g' = g ∧ Pending n ∧ ∃ n', moved SagaStepStateEnum_ExecutionCandidate n n' ∧
          ss' = pre ++ x' :: n' :: post'
    end.

Definition fail_effect : effect := λ g' ss',
  saga_moved (si_State gm) g g' ∧ Forall Done pre ∧
  ∃ pre' x' post', Forall2 (moved SagaStepStateEnum_CompensationPending) pre pre' ∧
    moved SagaStepStateEnum_CompensationCandidate x x' ∧ Forall2 aborted post post' ∧
    ss' = pre' ++ x' :: post'.

(** The sagas the step has spawned are compensated. *)
Definition childrenSettled (d : DB) : Prop :=
  ∀ k child, children_of (si_ClusterId g) (si_InstanceId g) d !! k = Some child →
    si_ParentSagaStepInstanceId child = ssi_InstanceId x →
    si_State child = SagaStateEnum_Compensated.

Definition comp_start_effect (d : DB) : effect := λ g' ss',
  g' = g ∧ notInState SagaStepStateEnum_CompensationPending (last pre) = false ∧
  Forall (λ y, Aborted y ∨ CompDone y) post ∧ childrenSettled d ∧
  ∃ x', comp_started env (ssi_ExecutionId x) (ssi_ExecutionHistory xm) x x' ∧
    ss' = pre ++ x' :: post.

Definition comp_succeed_effect : effect := λ g' ss',
  ∃ x', moved SagaStepStateEnum_CompensationDone x x' ∧
    ((pre = [] ∧ saga_moved SagaStateEnum_Compensated g g' ∧
      compensatedSequence false (x' :: post) = true ∧ ss' = x' :: post) ∨
     (g' = g ∧ ∃ pre0 p p', pre = pre0 ++ [p] ∧ CompPending p ∧
        moved SagaStepStateEnum_CompensationCandidate p p' ∧
        ss' = pre0 ++ p' :: x' :: post)).

Definition comp_fail_effect : effect := λ g' ss',
  saga_moved SagaStateEnum_Blocked g g' ∧
  ∃ x', moved SagaStepStateEnum_CompensationBlocked x x' ∧ ss' = pre ++ x' :: post.

(** The compensation of a committed saga starts: [x] is its last step. *)
Definition initiate_effect : effect := λ g' ss',
  saga_moved SagaStateEnum_Running g g' ∧ Forall Done (pre ++ [x]) ∧
  ∃ pre' x', Forall2 (moved SagaStepStateEnum_CompensationPending) pre pre' ∧
    moved SagaStepStateEnum_CompensationCandidate x x' ∧ ss' = pre' ++ [x'].

(** What a handler leaves behind that means to have the effect [en] and stop,
    or the effect [ef] and be called again (the flag).  When [kept] holds it
    may have changed nothing, or not know that it has had its effect; when
    [wrong] holds it may have marked the saga invalid. *)
Inductive leaves (kept wrong : Prop) (en ef : effect) : bool → effect :=
  | leaves_final g' ss' : en g' ss' → leaves kept wrong en ef false g' ss'
  | leaves_follow g' ss' : ef g' ss' → leaves kept wrong en ef true g' ss'
  | leaves_lost g' ss' : kept → ef g' ss' → leaves kept wrong en ef false g' ss'
  | leaves_kept : kept → leaves kept wrong en ef false g (pre ++ x :: post)
  | leaves_invalid g' : wrong → saga_moved SagaStateEnum_InvalidState g g' →
      leaves kept wrong en ef false g' (pre ++ x :: post).
End effects.

(** ** The handler of each step state

    The state is that of the step in memory, [d] the database before. *)

Section handlers.
Context (env : Env) (executionTimeoutMs : Z) (d : DB) (gm g : SagaInstance) (xm : SagaStepInstance).
Context (pre : list SagaStepInstance) (x : SagaStepInstance) (post : list SagaStepInstance).

(** The effect after which the handler stops. *)
Definition final_effect : effect :=
  match ssi_State xm with
  | SagaStepStateEnum_ExecutionCandidate =>
      if decide (ssi_ExecutionHistory xm = []) then no_effect else block_effect g pre x post
  | SagaStepStateEnum_ExecutionRunning =>
      if decide (ssi_ExecutionHistory xm = []) then block_effect g pre x post
      else send_effect env executionTimeoutMs g xm pre x post
  | SagaStepStateEnum_ExecutionSucceeded => succeed_effect g pre x post
  | SagaStepStateEnum_CompensationRunning => send_comp_effect env executionTimeoutMs g xm pre x post
  | SagaStepStateEnum_CompensationFailed => comp_fail_effect g pre x post
  | _ => no_effect
  end.

(** The effect after which it asks to be called again. *)
Definition follow_effect : effect :=
  match ssi_State xm with
  | SagaStepStateEnum_ExecutionCandidate =>
      if decide (ssi_ExecutionHistory xm = []) then start_effect env g pre x post else no_effect
  | SagaStepStateEnum_ExecutionRunning =>
      timeout_effect g xm pre x post SagaStepStateEnum_ExecutionFailed
  | SagaStepStateEnum_ExecutionFailed => fail_effect gm g pre x post
  | SagaStepStateEnum_CompensationCandidate => comp_start_effect env g xm pre x post d
  | SagaStepStateEnum_CompensationRunning =>
      timeout_effect g xm pre x post SagaStepStateEnum_CompensationFailed
  | SagaStepStateEnum_CompensationSucceeded => comp_succeed_effect g pre x post
  | _ => no_effect
  end.

(** The neighbours of the step are not what they should be. *)
Definition anomaly : Prop :=
  match ssi_State xm with
  | SagaStepStateEnum_ExecutionCandidate =>
      notInState SagaStepStateEnum_ExecutionDone (last pre) = true ∨
      notInState SagaStepStateEnum_ExecutionPending (head post) = true
  | SagaStepStateEnum_ExecutionRunning | SagaStepStateEnum_ExecutionFailed => ¬ Forall Done pre
  | SagaStepStateEnum_ExecutionSucceeded =>
      match post with [] => ¬ Forall Done pre | n :: _ => ¬ Pending n end
  | SagaStepStateEnum_CompensationCandidate =>
      notInState SagaStepStateEnum_CompensationPending (last pre) = true ∨
      ¬ Forall (λ y, Aborted y ∨ CompDone y) post
  | SagaStepStateEnum_CompensationRunning =>
      ∀ log, last (ssi_ExecutionHistory xm) = Some log → log_IsCompensation log = false
  | SagaStepStateEnum_CompensationSucceeded =>
      match last pre with
      | Some p => ¬ CompPending p
      | None => compensatedSequence false post = false
      end
  | SagaStepStateEnum_ExecutionDone | SagaStepStateEnum_CompensationDone
  | SagaStepStateEnum_CompensationFailed => False
  | _ => True
  end.

(** There is nothing to do yet: it is not time to send the request or to give
    it up; the children of the step are not settled; the step is done. *)
Definition waits : Prop :=
  match ssi_State xm with
  | SagaStepStateEnum_ExecutionRunning | SagaStepStateEnum_CompensationRunning =>
      ∃ n log, last (ssi_ExecutionHistory xm) = Some log ∧
        timedOut (env_now env n) log = false ∧
        readyToSend (env_now env n) log = false
  | SagaStepStateEnum_CompensationCandidate => ¬ childrenSettled g x d
  | SagaStepStateEnum_ExecutionDone | SagaStepStateEnum_CompensationDone => True
  | _ => False
  end.
End handlers.
