(* ===== verification/HandlerSpecs.v ===== *)
(** * The handlers implement the protocol

    One lemma per handler of [processSagaStep]: from any world in which no
    transaction is open and the saga is in focus, whatever the store, the
    broker and the clock answer, the handler returns, leaves no transaction
    open, and the saga is as Protocol.v says. *)

From S2P Require Import Prelude GoMonad Random Model Naming Sequence Validation Database Focus.
From S2P Require Import Messages.
From S2P Require Import Store World Rules Coordinator Transit Protocol.

(** ** Positions in the sequence *)

Section positions.
Implicit Types (pre post : list SagaStepInstance) (x : SagaStepInstance).

Lemma chain_ids_pre pre x post :
  chain (pre ++ x :: post) →
  Forall (λ y, bool_decide (ssi_InstanceId y = ssi_InstanceId x) = false) pre.
Proof.
  intros [_ Hn _]. rewrite fmap_app in Hn. csimpl in Hn.
  apply NoDup_app in Hn as (_ & Hd & _). apply Forall_forall. intros y Hy.
  apply bool_decide_eq_false. intros Heq. apply (Hd (ssi_InstanceId y)).
  - apply list_elem_of_fmap. eauto.
  - rewrite Heq. by left.
Qed.

Lemma chain_ids_pre_ne pre x post :
  chain (pre ++ x :: post) → Forall (λ y, ssi_InstanceId y ≠ ssi_InstanceId x) pre.
Proof.
  intros Hc%chain_ids_pre. eapply Forall_impl; [exact Hc|]. intros y.
  apply bool_decide_eq_false_1.
Qed.

Lemma currentStepIndexIn_at pre x post id :
  chain (pre ++ x :: post) → id = ssi_InstanceId x →
  currentStepIndexIn (pre ++ x :: post) id = Some (length pre).
Proof.
  intros Hc ->. apply find_index_app_r; [by apply chain_ids_pre in Hc|].
  by apply bool_decide_eq_true.
Qed.

Lemma previousStepOf_at pre x post :
  previousStepOf (pre ++ x :: post) (length pre) = last pre.
Proof.
  destruct pre as [|p pre _] using rev_ind; [done|].
  rewrite length_app, Nat.add_comm, last_snoc. simpl. rewrite <-app_assoc. simpl.
  by rewrite list_lookup_middle.
Qed.

Lemma nextStepOf_at pre x post : nextStepOf (pre ++ x :: post) (length pre) = head post.
Proof.
  unfold nextStepOf. replace (S (length pre)) with (length (pre ++ [x]) + 0)
    by (rewrite length_app; simpl; lia).
  change (x :: post) with ([x] ++ post). rewrite app_assoc, lookup_app_r by lia.
  replace (_ + 0 - _) with 0 by lia. by destruct post.
Qed.

Lemma take_at pre x post : take (length pre) (pre ++ x :: post) = pre.
Proof. by rewrite take_app_length. Qed.

Lemma drop_at pre x post : drop (S (length pre)) (pre ++ x :: post) = post.
Proof.
  replace (S (length pre)) with (length (pre ++ [x])) by (rewrite length_app; simpl; lia).
  change (x :: post) with ([x] ++ post). by rewrite app_assoc, drop_app_length.
Qed.
End positions.

Lemma updateLastLog_id f x : ssi_InstanceId (updateLastLog f x) = ssi_InstanceId x.
Proof. done. Qed.

(** ** What a handler leaves *)

Section settled.
Context (cid sid : string) (com : DB) (g : SagaInstance).
Context (pre : list SagaStepInstance) (x : SagaStepInstance) (post : list SagaStepInstance).
Context (kept wrong : Prop) (en ef : effect).

(** What the handler leaves of the saga, nothing else having changed.  If
    more processing is asked for, the objects in memory are the saga and the
    step. *)
Definition settled (fo : bool * objects) (com' : DB) : Prop :=
  ∃ g' ss', at_saga cid sid com g' ss' com' ∧ leaves g pre x post kept wrong en ef fo.1 g' ss' ∧
    (fo.1 = true →
     si_ClusterId fo.2.1 = cid ∧ si_InstanceId fo.2.1 = sid ∧
     ∃ y, y ∈ ss' ∧ ssi_InstanceId y = ssi_InstanceId x ∧ same_step fo.2.2 y).

Lemma settled_keep o :
  focus cid sid com g (pre ++ x :: post) → kept → settled (false, o) com.
Proof.
  intros Hf Hk. exists g, (pre ++ x :: post). split; [done|]. by split; [apply leaves_kept|].
Qed.

Lemma settled_mark o com' :
  focus cid sid com g (pre ++ x :: post) → kept → wrong →
  marked SagaStateEnum_InvalidState cid sid com com' → settled (false, o) com'.
Proof.
  intros Hf Hk Hw [->|(r & ts & ->)]; [by apply settled_keep|].
  exists (row_saga_state SagaStateEnum_InvalidState r ts g), (pre ++ x :: post).
  split; [apply at_saga_saga; [done|apply _]|].
  split; [|done]. apply leaves_invalid; [done|]. by exists r, ts.
Qed.

Lemma settled_final g' ss' o com' :
  at_saga cid sid com g' ss' com' → en g' ss' → settled (false, o) com'.
Proof. intros Hat He. exists g', ss'. split; [done|]. by split; [apply leaves_final|]. Qed.

Lemma settled_lost g' ss' o com' :
  at_saga cid sid com g' ss' com' → ef g' ss' → kept → settled (false, o) com'.
Proof. intros Hat He Hk. exists g', ss'. split; [done|]. by split; [apply leaves_lost|]. Qed.

Lemma settled_follow g' pre' x' post' o com' :
  at_saga cid sid com g' (pre' ++ x' :: post') com' → ef g' (pre' ++ x' :: post') →
  si_ClusterId o.1 = cid → si_InstanceId o.1 = sid →
  ssi_InstanceId x' = ssi_InstanceId x → same_step o.2 x' → settled (true, o) com'.
Proof.
  intros Hat He Hc Hi Hx Hs. exists g', (pre' ++ x' :: post'). split; [done|].
  split; [by apply leaves_follow|]. intros _. split; [done|]. split; [done|].
  exists x'. split; [set_solver|done].
Qed.

Lemma settled_false o o' com' : settled (false, o) com' → settled (false, o') com'.
Proof. intros (g' & ss' & Hat & Hm & _). exists g', ss'. by split. Qed.
End settled.

(** A handler that asks to be called again has had its effect. *)
Lemma leaves_true g pre x post kept wrong en ef g' ss' :
  leaves g pre x post kept wrong en ef true g' ss' → ef g' ss'.
Proof. inversion 1; subst; done. Qed.

(** ** The handlers *)

Section handlers.
Context {St : Type} `{!Store St, !StoreLaws St} (env : Env).
Context (SubComponent affinityGroup : string) (executionTimeoutMs : Z).
Context (cid sid : string) (com : DB) (g : SagaInstance).
Context (pre : list SagaStepInstance) (x : SagaStepInstance) (post : list SagaStepInstance).
Context (gm : SagaInstance) (xm : SagaStepInstance).
Context (Hf : focus cid sid com g (pre ++ x :: post)).
Context (Hgc : si_ClusterId gm = cid) (Hgi : si_InstanceId gm = sid).
Context (Hxc : ssi_ClusterId xm = cid) (Hxi : ssi_InstanceId xm = ssi_InstanceId x).
Implicit Types (w : World St).

Context (kept wrong : Prop).
Context (Hfault : faulty (St := St) → kept) (Hwrong : wrong → kept).
Context (Hmq : (∃ n, env_mq env n ≠ MqSent) → kept).

#[local] Notation settles en ef :=
  (returns (λ r w', ∃ com', idle com' w' ∧
     settled cid sid com g pre x post kept wrong en ef r com')).

#[local] Notation ends en ef :=
  (returns (λ vo w', body_post cid sid com kept wrong
                       (settled cid sid com g pre x post kept wrong en ef) vo.1 vo.2 w')).

Let Hchain : chain (pre ++ x :: post) := focus_chain _ _ _ _ _ Hf.

Lemma keep_settles en ef o w : kept → idle com w → wp (noFollowUp o) (settles en ef) w.
Proof. intros Hk Hi. apply wp_ret. exists com. split; [done|]. by apply settled_keep. Qed.

Lemma fault_settles en ef o w :
  faulty (St := St) → idle com w → wp (noFollowUp o) (settles en ef) w.
Proof. intros ?. apply keep_settles. auto. Qed.

(** A rollback, and then nothing. *)
Lemma rollback_settles en ef o w :
  faulty (St := St) → open_tx com w →
  wp (bind (call RollbackTransaction) (λ _, noFollowUp o)) (settles en ef) w.
Proof.
  intros Hfa Ht. apply wp_bind_ret. eapply tx_rollback; [done|]. intros r w1 Hi.
  by apply fault_settles.
Qed.

Lemma giveUp_settles en ef o w :
  wrong → si_ClusterId o.1 = cid → si_InstanceId o.1 = sid → idle com w →
  wp (giveUp o) (settles en ef) w.
Proof.
  intros Hw Hc Hid Hi. apply (wp_giveUp _ com); [done|]. intros o' com'. rewrite Hc, Hid.
  apply settled_mark; auto.
Qed.

(** A body that starts from the saga as it is. *)
Lemma in_transaction_settles en ef rb o body w :
  idle com w →
  (∀ w', in_tx com (at_saga cid sid com g (pre ++ x :: post)) w' →
     wp body (ends en ef) w') →
  wp (in_transaction rb o body) (settles en ef) w.
Proof.
  intros Hi Hb. eapply (wp_in_transaction cid sid com kept wrong); [done| |done| | |].
  - intros Hk o'. by apply settled_keep.
  - apply Hf.
  - intros Hw o' com'. apply settled_mark; auto.
  - intros w' Ht. apply Hb. revert Ht. apply in_tx_mono. by intros d ->.
Qed.

(** A body that commits its last effect. *)
Lemma commit_final (en ef : effect) g' ss' o w :
  in_tx com (at_saga cid sid com g' ss') w → en g' ss' →
  wp (commit false o) (ends en ef) w.
Proof.
  intros Ht He. eapply wp_commit; [done| |exact Ht|].
  - intros Hk o'. by apply settled_keep.
  - intros com' Hat. split; [|intros _]; by eapply settled_final.
Qed.

(** A body that commits an effect and asks to be called again. *)
Lemma commit_follow (en ef : effect) g' pre' x' post' o w :
  in_tx com (at_saga cid sid com g' (pre' ++ x' :: post')) w → ef g' (pre' ++ x' :: post') →
  si_ClusterId o.1 = cid → si_InstanceId o.1 = sid →
  ssi_InstanceId x' = ssi_InstanceId x → same_step o.2 x' →
  wp (commit true o) (ends en ef) w.
Proof.
  intros Ht He Hc Hi Hx Hs. eapply wp_commit; [done| |exact Ht|].
  - intros Hk o'. by apply settled_keep.
  - intros com' Hat. split; [by eapply settled_follow|intros Hk; by eapply settled_lost].
Qed.

Lemma fault_ends en ef w o :
  faulty (St := St) → open_tx com w → wp (abandon false o) (ends en ef) w.
Proof. intros ? Ht. apply wp_abandon_false; auto. Qed.

(** Outside a transaction, a step may be moved and the call fail. *)
Lemma block_settles ef xm' w :
  ssi_ClusterId xm' = cid → ssi_InstanceId xm' = ssi_InstanceId x → idle com w →
  wp (transitSagaStepToExecutionBlockedState gm xm')
    (returns (λ _ w', ∃ com', idle com' w' ∧
       settled cid sid com g pre x post kept wrong (block_effect g pre x post) ef
         (false, (gm, x)) com')) w.
Proof.
  intros Hc' Hi' Hi. unfold transitSagaStepToExecutionBlockedState, transitSagaStepToState.
  apply wp_bind_ret. apply (wp_call _ _ _ _ (law_UpdateSagaStepState xm' _)).
  intros r w1 _ (r1 & v1 & Hu & Hk).
  assert (∀ ts, at_saga cid sid com g
      (pre ++ row_step_state SagaStepStateEnum_ExecutionBlocked ts x :: post)
      (upd_step cid (ssi_InstanceId x)
         (row_step_state SagaStepStateEnum_ExecutionBlocked ts) com)) as Hat.
  { intros ts. apply at_saga_step; [done|apply _]. }
  assert (∀ ts, settled cid sid com g pre x post kept wrong (block_effect g pre x post) ef
      (false, (gm, x)) (upd_step cid (ssi_InstanceId x)
                 (row_step_state SagaStepStateEnum_ExecutionBlocked ts) com)) as Hset.
  { intros ts. eapply settled_final; [apply Hat|]. split; [done|]. eexists.
    split; [by exists ts|done]. }
  rewrite Hi in Hu. destruct r1 as [[]|e1].
  - destruct Hu as [_ (d1 & (ts & Hd1%sql_update_step_ok) & ->)]. simpl in *.
    rewrite Hc', Hi' in Hd1. destruct Hk as [-> Hv]. apply wp_or_else.
    eapply (idle_query_any _ _ _ _ (law_GetSagaStepInstance _ _)); [exact Hv|..].
    + intros y w2 Hy Hi2. simpl in Hy. rewrite Hgc, Hi' in Hy.
      eapply (select_step_at _ _ com g pre
        (row_step_state SagaStepStateEnum_ExecutionBlocked ts x) post) in Hy; [subst y| |done].
      2: { rewrite Hd1. apply Hat. }
      apply wp_ret. exists d1. rewrite Hd1 in *. auto.
    + intros e w2 Hi2. apply wp_ret. exists d1. rewrite Hd1 in *. auto.
  - destruct Hk as [-> Hv]. apply wp_ret.
    destruct Hu as [(_ & [] & _)|(_ & Hx & [->|(a & d1 & (ts & Hd1%sql_update_step_ok) & ->)])];
      simpl in *.
    + exists com. split; [done|]. apply settled_keep; [done|].
      destruct Hx as [?|[[]|(ts & e & Hx)]]; [by auto|done|exfalso].
      revert Hx. rewrite Hc'. eapply sql_update_step_err, (focus_tables _ _ _ _ _ Hf).
    + rewrite Hc', Hi' in Hd1. exists d1. rewrite Hd1 in *. auto.
Qed.

(** *** EXECUTION_CANDIDATE *)

Lemma candidate_settles w :
  idle com w → ssi_ExecutionHistory xm = [] →
  (notInState SagaStepStateEnum_ExecutionDone (last pre) = true ∨
   notInState SagaStepStateEnum_ExecutionPending (head post) = true → wrong) →
  wp (processExecutionCandidate env (gm, xm)) (settles no_effect (start_effect env g pre x post)) w.
Proof.
  intros Hi Hh Hwr. unfold processExecutionCandidate. rewrite Hh. apply wp_or_else.
  eapply idle_listSteps; [done..| |by intros; apply fault_settles].
  intros all w1 Ho Hp Hi1. apply wp_bind_ret. eapply wp_orderSteps; [done|].
  rewrite (currentStepIndexIn_at pre x post) by done.
  rewrite previousStepOf_at, nextStepOf_at.
  destruct (notInState _ (last pre)) eqn:Hprev; [by apply giveUp_settles; auto|].
  destruct (notInState _ (head post)) eqn:Hnext; [by apply giveUp_settles; auto|].
  apply wp_bind_ret, wp_rand. intros n2 w2 Hw2. set (eid := random_string _ 32).
  apply wp_bind_ret, wp_now. intros n3 w3 Hw3. 
  assert (idle com w3) as Hi3 by (unfold idle in *; congruence).
  set (xm1 := set_ssi_ExecutionHistory _ _).
  apply wp_or_else. eapply idle_begin; [done| |by intros; apply fault_settles].
  intros w4 Ht4. apply wp_or_else.
  eapply (tx_update_step cid sid com g pre x post); [apply law_UpdateSagaStepInstanceExecutionHistory
    |apply _| |done|done| |by intros; apply rollback_settles].
  { revert Ht4. apply in_tx_mono. by intros d ->. }
  intros ts w5 Ht5. apply wp_bind_ret.
  eapply tx_transitStep; [exact Ht5|done..| |by intros; apply rollback_settles].
  intros ts1 w6 Ht6. apply wp_or_else.
  assert (ssi_ClusterId x = cid) as Hcx by (eapply focus_step_cluster; [done|set_solver]).
  eapply tx_update_step; [apply law_UpdateSagaStepInstanceExecutionHistory
    |apply _|exact Ht6|done|done| |by intros; apply rollback_settles].
  intros ts2 w7 Ht7.
  assert (start_effect env g pre x post g (pre ++ row_step_history eid [emptyExecutionLog (env_now env n3) false]
    ts2 (row_step_state SagaStepStateEnum_ExecutionRunning ts1 x) :: post)) as Heff.
  { split; [done|]. split; [done|]. split; [done|]. eexists. split; [|done].
    by exists eid, n3, ts2. }
  apply wp_or_else. eapply tx_commit; [exact Ht7|..].
  - intros com' w8 Hat Hi8. apply wp_ret. exists com'. split; [done|].
    by eapply settled_follow.
  - intros e com' w8 Hfa Hc Hi8. apply wp_bind_ret. eapply idle_rollback; [done|].
    intros r w9 Hi9. apply wp_ret. exists com'. split; [done|].
    destruct Hc as [->|Hat]; [by apply settled_keep; auto|eapply settled_lost; eauto].
Qed.

Lemma candidate_blocks ef w :
  idle com w → ssi_ExecutionHistory xm ≠ [] →
  wp (processExecutionCandidate env (gm, xm)) (settles (block_effect g pre x post) ef) w.
Proof.
  intros Hi Hh. unfold processExecutionCandidate.
  destruct (ssi_ExecutionHistory xm) as [|l h]; [done|]. apply wp_bind_ret.
  eapply wp_returns_mono; [|by apply block_settles]. intros [r xm'] w1 (com' & Hi1 & Hs).
  apply wp_ret. exists com'. split; [done|]. by eapply settled_false.
Qed.

(** *** The running states *)

(** The send and the timeout branches, for both directions. *)
Lemma publishRequest_ends (en ef : effect) request input w :
  in_tx com (at_saga cid sid com g (pre ++ x :: post)) w →
  (∀ ss', send_comp_effect env executionTimeoutMs g xm pre x post g ss' → en g ss') →
  wp (publishRequest env SubComponent affinityGroup executionTimeoutMs request input (gm, xm))
    (ends en ef) w.
Proof.
  intros Ht He. unfold publishRequest.
  apply wp_bind_ret, wp_rand. intros r1 w1 E1. apply wp_bind_ret, wp_rand. intros r2 w2 E2.
  apply wp_bind_ret, wp_rand. intros r3 w3 E3. apply wp_bind_ret, wp_now. intros n4 w4 E4.
  apply wp_or_else, wp_publish. intros r w5 E5 Hr.
  assert (in_tx com (at_saga cid sid com g (pre ++ x :: post)) w5) as Ht5.
  { eapply in_tx_wv; [done|]. congruence. }
  destruct r as [[]|err].
  2: { apply wp_abandon_false; [|by eapply in_tx_open]. by apply Hmq, Hr. }
  apply wp_bind_ret, wp_now. intros n6 w6 E6. 
  apply wp_or_else.
  eapply tx_update_step; [apply law_UpdateSagaStepInstanceExecutionHistory|apply _| |done|done| |
    by intros; apply fault_ends].
  { by eapply in_tx_wv. }
  intros ts1 w7 Ht7. eapply commit_final; [exact Ht7|]. apply He.
  split; [done|]. eexists. split; [exists n6; by eexists|done].
Qed.

Lemma timeoutBody_ends (en ef : effect) st log nowTs w :
  last (ssi_ExecutionHistory xm) = Some log → timedOut nowTs log = true →
  in_tx com (at_saga cid sid com g (pre ++ x :: post)) w →
  (∀ ss', timeout_effect g xm pre x post st g ss' → ef g ss') →
  wp (timeoutBody (λ gm xm, transitSagaStepToState gm xm st) nowTs (gm, xm)) (ends en ef) w.
Proof.
  intros Hlog Hto Ht He. unfold timeoutBody. apply wp_or_else.
  eapply tx_update_step; [apply law_UpdateSagaStepInstanceExecutionHistory|apply _|done|done|done| |
    by intros; apply fault_ends].
  intros ts1 w1 Ht1. apply wp_bind_ret.
  eapply tx_transitStep; [exact Ht1|done..| |by intros; apply fault_ends].
  intros ts2 w2 Ht2. eapply commit_follow; [exact Ht2| |done..]. apply He.
  split; [done|]. split.
  - exists log. split; [done|]. unfold timedOut, requestSent in Hto.
    rewrite !andb_true_iff, Z.ltb_lt in Hto. tauto.
  - eexists nowTs, _, _. split; [by eexists|]. split; [by eexists|done].
Qed.

Lemma collectInput_done input l :
  is_Some (collectInput input l) ↔ Forall Done l.
Proof.
  revert input. induction l as [|p l IH]; intros input; simpl; [split; [done|by eexists]|].
  destruct (step_state_eqb _ _) eqn:Hs.
  - rewrite IH, Forall_cons. apply step_state_eqb_true in Hs. tauto.
  - split; [by intros [? ?]|]. intros [Hp _]%Forall_cons. exfalso.
    apply step_state_eqb_true in Hp. congruence.
Qed.

Lemma sendExecutionRequest_ends (en ef : effect) w :
  in_tx com (at_saga cid sid com g (pre ++ x :: post)) w →
  (¬ Forall Done pre → wrong) →
  (∀ ss', send_effect env executionTimeoutMs g xm pre x post g ss' → en g ss') →
  wp (sendExecutionRequest env SubComponent affinityGroup executionTimeoutMs (gm, xm))
    (ends en ef) w.
Proof.
  intros Ht Hwr He. unfold sendExecutionRequest. apply wp_or_else.
  eapply tx_listSteps; [done..| |].
  2: { intros e w1 Hfa Ht1. apply fault_ends; [done|by eapply in_tx_open]. }
  intros all w1 Ho Hp Ht1. unfold getPreviousStepsInOrder. rewrite Ho. simpl.
  rewrite Hxi, takeUntilStep_app by apply Hchain.
  pose proof (collectInput_done (si_Input gm) pre) as Hdone.
  destruct (collectInput _ pre) as [input|] eqn:Hin.
  2: { eapply wp_abandon_true; [|done..]. apply Hwr. rewrite <-Hdone. by intros [? [=]]. }
  eapply publishRequest_ends; [done|]. intros ss' (_ & Hss). apply He.
  split; [done|]. split; [|done]. by apply Hdone.
Qed.

Lemma sendCompensationRequest_ends (en ef : effect) w :
  in_tx com (at_saga cid sid com g (pre ++ x :: post)) w →
  (∀ ss', send_comp_effect env executionTimeoutMs g xm pre x post g ss' → en g ss') →
  wp (sendCompensationRequest env SubComponent affinityGroup executionTimeoutMs (gm, xm))
    (ends en ef) w.
Proof.
  intros Ht He. unfold sendCompensationRequest. apply wp_bind_ret.
  eapply tx_listSteps; [done..| |].
  - intros all w1 Ho Hp Ht1. apply wp_bind_ret. eapply wp_orderSteps; [done|].
    by apply publishRequest_ends.
  - intros e w1 Hfa Ht1. by apply publishRequest_ends.
Qed.

(** While a request is out and its time is not up, nothing is to be sent. *)
Lemma withinTimeout_waits nowTs log :
  withinTimeout nowTs log = true → timedOut nowTs log = false ∧ readyToSend nowTs log = false.
Proof.
  unfold withinTimeout, timedOut, readyToSend.
  destruct (requestSent nowTs log) eqn:Hr; [|done]. simpl. unfold requestSent in Hr.
  rewrite !andb_true_iff, !Z.ltb_lt, !Z.leb_le in *. intros [Ht1 Ht2].
  assert ((log_ExecutionTimeoutTs log <? nowTs)%Z = false) as -> by lia.
  assert ((log_ExecutionRequestSentTs log =? 0)%Z = false) as -> by lia.
  by rewrite !andb_false_r.
Qed.

Lemma waitForResult_settles en ef o nowTs log w :
  log_ExecutionResultReceivedTs log = 0%Z → kept → idle com w →
  wp (waitForResult o nowTs log) (settles en ef) w.
Proof. intros Hl Hk Hi. unfold waitForResult. rewrite Hl. by apply keep_settles. Qed.

(** The three branches that depend on the clock. *)
Lemma clock_settles (en ef : effect) log nowTs st (send : M (World St) (verdict * objects)) w :
  idle com w → last (ssi_ExecutionHistory xm) = Some log →
  log_ExecutionResultReceivedTs log = 0%Z →
  (timedOut nowTs log = false → readyToSend nowTs log = false → kept) →
  (∀ ss', timeout_effect g xm pre x post st g ss' → ef g ss') →
  (∀ w', in_tx com (at_saga cid sid com g (pre ++ x :: post)) w' → wp send (ends en ef) w') →
  wp (if withinTimeout nowTs log then waitForResult (gm, xm) nowTs log
      else if timedOut nowTs log
      then in_transaction true (gm, xm)
             (timeoutBody (λ gm xm, transitSagaStepToState gm xm st) nowTs (gm, xm))
      else if readyToSend nowTs log then in_transaction true (gm, xm) send
      else noFollowUp (gm, xm)) (settles en ef) w.
Proof.
  intros Hi Hl Hr Hk Ht Hs.
  apply wp_if; intros Hwi.
  { apply waitForResult_settles; [done| |done]. by apply withinTimeout_waits in Hwi as [? ?]; auto. }
  apply wp_if; intros Hto.
  { apply in_transaction_settles; [done|]. intros w2 Ht2. by eapply timeoutBody_ends. }
  apply wp_if; intros Hre; [by apply in_transaction_settles|apply keep_settles; auto].
Qed.

Lemma running_settles log w :
  idle com w → last (ssi_ExecutionHistory xm) = Some log →
  log_ExecutionResultReceivedTs log = 0%Z →
  ((∃ n, timedOut (env_now env n) log = false ∧ readyToSend (env_now env n) log = false) → kept) →
  (¬ Forall Done pre → wrong) →
  wp (processExecutionRunning env SubComponent affinityGroup executionTimeoutMs (gm, xm))
    (settles (send_effect env executionTimeoutMs g xm pre x post)
       (timeout_effect g xm pre x post SagaStepStateEnum_ExecutionFailed)) w.
Proof.
  intros Hi Hl Hr Hk Hwr. unfold processExecutionRunning. simpl. rewrite Hl.
  apply wp_bind_ret, wp_now. intros n1 w1 E1.
  apply clock_settles; [by eapply idle_wv|done|done|by eauto|done|].
  intros w2 Ht2. by apply sendExecutionRequest_ends.
Qed.

Lemma comp_running_settles log w :
  idle com w → last (ssi_ExecutionHistory xm) = Some log →
  log_ExecutionResultReceivedTs log = 0%Z →
  ((∃ n, timedOut (env_now env n) log = false ∧ readyToSend (env_now env n) log = false) → kept) →
  (log_IsCompensation log = false → wrong) →
  wp (processCompensationRunning env SubComponent affinityGroup executionTimeoutMs (gm, xm))
    (settles (send_comp_effect env executionTimeoutMs g xm pre x post)
       (timeout_effect g xm pre x post SagaStepStateEnum_CompensationFailed)) w.
Proof.
  intros Hi Hl Hr Hk Hwr. unfold processCompensationRunning. simpl. rewrite Hl.
  apply wp_bind_ret, wp_now. intros n1 w1 E1.
  assert (idle com w1) as Hi1 by (by eapply idle_wv).
  apply wp_if; intros Hc; [apply negb_true_iff in Hc; by apply giveUp_settles; auto|].
  apply clock_settles; [done|done|done|by eauto|done|].
  intros w2 Ht2. by apply sendCompensationRequest_ends.
Qed.

(** *** EXECUTION_SUCCEEDED *)

Lemma allOthersDone_at l y k :
  allOthersDone (length l) (l ++ y :: k) = true → Forall Done l ∧ Forall Done k.
Proof.
  unfold allOthersDone. rewrite take_at, drop_at, forallb_in_state. apply Forall_app.
Qed.

Lemma allOthersDone_last l y :
  Forall Done l → allOthersDone (length l) (l ++ [y]) = true.
Proof.
  intros Hl. unfold allOthersDone. rewrite take_at, drop_at, app_nil_r.
  by apply forallb_in_state.
Qed.

(** A failure to list the steps. *)
Lemma list_fault_ends en ef w o P :
  faulty (St := St) → in_tx com P w → wp (abandon false o) (ends en ef) w.
Proof. intros ? ?. by eapply fault_ends, in_tx_open. Qed.

Lemma succeededBody_ends w :
  in_tx com (at_saga cid sid com g (pre ++ x :: post)) w →
  (match post with [] => ¬ Forall Done pre | n :: _ => ¬ Pending n end → wrong) →
  wp (succeededBody (gm, xm)) (ends (succeed_effect g pre x post) no_effect) w.
Proof.
  intros Ht Hwr. unfold succeededBody. apply wp_or_else.
  eapply tx_listSteps; [done..| |by intros; eapply list_fault_ends].
  intros all w1 Ho _ Ht1. apply wp_bind_ret. eapply wp_orderSteps; [done|].
  rewrite (currentStepIndexIn_at pre x post), nextStepOf_at by done.
  apply wp_bind_ret. eapply tx_transitStep; [exact Ht1|done..| |by intros; apply fault_ends].
  intros ts w2 Ht2. set (x' := row_step_state _ ts x) in *.
  destruct (head post) as [n|] eqn:Hhead; simpl.
  - assert (∃ post', post = n :: post') as [post' Hpost].
    { destruct post as [|? post']; [done|]. injection Hhead as ->. by exists post'. }
    rewrite Hpost in Hwr. destruct (step_state_eqb (ssi_State n) _) eqn:Hn; simpl.
    2: { eapply wp_abandon_true; [|done..]. apply Hwr. intros Hp%step_state_eqb_true. congruence. }
    apply step_state_eqb_true in Hn. apply wp_bind_ret.
    assert (ssi_ClusterId n = cid) as Hcn.
    { eapply focus_step_cluster; [done|]. rewrite Hpost. set_solver. }
    eapply (tx_transitStep cid sid com g (pre ++ [x']) n post');
      [by rewrite <-app_assoc, <-Hpost|done..| |by intros; apply fault_ends].
    intros ts3 w3 Ht3. rewrite <-app_assoc in Ht3. eapply commit_final; [exact Ht3|].
    exists x'. split; [by exists ts|]. rewrite Hpost. split; [done|]. split; [done|].
    eexists. split; [by exists ts3|done].
  - assert (post = []) as Hpost by (by destruct post). rewrite Hpost in Hwr.
    destruct (allOthersDone _ _) eqn:Hall; simpl.
    2: { eapply wp_abandon_true; [|done..]. apply Hwr. intros Hpre.
         by rewrite Hpost, allOthersDone_last in Hall. }
    apply allOthersDone_at in Hall as [Hpre _]. apply wp_bind_ret.
    eapply tx_transitSaga_at; [exact Ht2|done..| |by intros; apply fault_ends].
    intros ts3 w3 Ht3. eapply commit_final; [exact Ht3|].
    exists x'. split; [by exists ts|]. rewrite Hpost. split; [done|].
    split; [by eexists _, ts3|done].
Qed.

Lemma succeeded_settles w :
  idle com w →
  (match post with [] => ¬ Forall Done pre | n :: _ => ¬ Pending n end → wrong) →
  wp (processExecutionSucceeded (gm, xm)) (settles (succeed_effect g pre x post) no_effect) w.
Proof.
  intros Hi Hwr. apply in_transaction_settles; [done|]. intros w' Ht.
  by apply succeededBody_ends.
Qed.

(** *** COMPENSATION_FAILED *)

Lemma comp_failed_settles w :
  idle com w →
  wp (processCompensationFailed (gm, xm)) (settles (comp_fail_effect g pre x post) no_effect) w.
Proof.
  intros Hi. apply in_transaction_settles; [done|]. intros w1 Ht1.
  unfold compensationFailedBody. apply wp_bind_ret.
  eapply tx_transitStep; [exact Ht1|done..| |by intros; apply fault_ends].
  intros ts w2 Ht2. apply wp_bind_ret.
  eapply tx_transitSaga_at; [exact Ht2|done..| |by intros; apply fault_ends].
  intros ts3 w3 Ht3. eapply commit_final; [exact Ht3|].
  split; [by eexists _, ts3|]. eexists. split; [by exists ts|done].
Qed.

(** *** COMPENSATION_SUCCEEDED *)

Lemma compensationDoneBody_ends (e : effect) g1 pre1 w :
  in_tx com (at_saga cid sid com g1 (pre1 ++ x :: post)) w →
  (pre = [] → pre1 = []) → (pre = [] → compensatedSequence false post = false → wrong) →
  (∀ x', moved SagaStepStateEnum_CompensationDone x x' →
     (pre = [] → ∀ g', saga_moved SagaStateEnum_Compensated g1 g' →
        compensatedSequence false (x' :: post) = true → e g' (x' :: post)) ∧
     (pre ≠ [] → e g1 (pre1 ++ x' :: post))) →
  wp (compensationDoneBody (length pre) (pre ++ x :: post) (gm, xm)) (ends no_effect e) w.
Proof.
  intros Ht Hnil Hwr He. unfold compensationDoneBody. apply wp_bind_ret.
  eapply tx_transitStep; [exact Ht|done..| |by intros; apply fault_ends].
  intros ts w2 Ht2. set (x' := row_step_state _ ts x) in *.
  destruct (He x' ltac:(by exists ts)) as [He0 He1].
  destruct (length pre) eqn:Hlen.
  - apply nil_length_inv in Hlen as Hpre. rewrite (Hnil Hpre) in Ht2. simpl.
    assert (<[0:=x']> (pre ++ x :: post) = x' :: post) as -> by by rewrite Hpre.
    destruct (compensatedSequence false (x' :: post)) eqn:Hseq; simpl in Hseq |- *.
    2: { eapply wp_abandon_true; [|done..]. by apply Hwr. }
    apply wp_bind_ret.
    eapply tx_transitSaga_at; [exact Ht2|done..| |by intros; apply fault_ends].
    intros ts3 w3 Ht3. eapply (commit_follow _ _ _ []); [exact Ht3| |done..].
    apply He0; [done|by eexists _, ts3|done].
  - eapply commit_follow; [exact Ht2|apply He1; by intros ->|done..].
Qed.

Lemma compensationSucceededBody_ends w :
  in_tx com (at_saga cid sid com g (pre ++ x :: post)) w →
  (match last pre with
   | Some p => ¬ CompPending p
   | None => compensatedSequence false post = false
   end → wrong) →
  wp (compensationSucceededBody (gm, xm)) (ends no_effect (comp_succeed_effect g pre x post)) w.
Proof.
  intros Ht Hwr. unfold compensationSucceededBody. apply wp_or_else.
  eapply tx_listSteps; [done..| |by intros; eapply list_fault_ends].
  intros all w1 Ho _ Ht1. apply wp_bind_ret. eapply wp_orderSteps; [done|].
  rewrite (currentStepIndexIn_at pre x post), previousStepOf_at by done.
  destruct (last pre) as [p|] eqn:Hlast.
  - destruct (step_state_eqb (ssi_State p) _) eqn:Hp; simpl.
    2: { eapply wp_abandon_true; [|done..]. apply Hwr. intros ?%step_state_eqb_true. congruence. }
    apply step_state_eqb_true in Hp. apply wp_bind_ret.
    apply last_Some in Hlast as [pre0 Hpre].
    assert (ssi_ClusterId p = cid) as Hcp.
    { eapply focus_step_cluster; [done|]. rewrite Hpre. set_solver. }
    eapply (tx_transitStep cid sid com g pre0 p (x :: post)).
    { by rewrite Hpre, <-app_assoc in Ht1. }
    1-3: done.
    2: { intros e xm' w2 Hfa Ht2. apply wp_bind_ret. eapply tx_rollback; [done|].
         intros r w3 Hi3. apply wp_ret. right. exists com. split; [done|].
         apply settled_keep; auto. }
    intros ts w2 Ht2. set (p' := row_step_state _ ts p) in *.
    apply (compensationDoneBody_ends _ g (pre0 ++ [p'])).
    + by rewrite <-app_assoc.
    + rewrite Hpre. by destruct pre0.
    + rewrite Hpre. by destruct pre0.
    + intros x' Hx'. split; [rewrite Hpre; by destruct pre0|]. intros _.
      exists x'. split; [done|]. right. split; [done|]. exists pre0, p, p'.
      split; [done|]. split; [done|]. split; [by exists ts|by rewrite <-app_assoc].
  - apply last_None in Hlast. apply (compensationDoneBody_ends _ g pre); [done|done|by auto|].
    intros x' Hx'. split; [|by rewrite Hlast]. intros _ g' Hg' Hseq.
    exists x'. split; [done|]. by left.
Qed.

Lemma comp_succeeded_settles w :
  idle com w →
  (match last pre with
   | Some p => ¬ CompPending p
   | None => compensatedSequence false post = false
   end → wrong) →
  wp (processCompensationSucceeded (gm, xm))
    (settles no_effect (comp_succeed_effect g pre x post)) w.
Proof.
  intros Hi Hwr. apply in_transaction_settles; [done|]. intros w' Ht.
  by apply compensationSucceededBody_ends.
Qed.

(** *** EXECUTION_FAILED *)

Lemma focus_cluster_all : Forall (λ y, ssi_ClusterId y = cid) (pre ++ x :: post).
Proof. apply Forall_forall. intros y Hy. by eapply focus_step_cluster. Qed.

(** A turn of a loop that moves the step, or gives up. *)
Lemma tx_turn g1 gm1 (Rel : SagaStepInstance → SagaStepInstance → Prop) st y pre1 post1 w :
  si_ClusterId gm1 = cid → ssi_ClusterId y = cid → (∀ y', moved st y y' → Rel y y') →
  in_tx com (at_saga cid sid com g1 (pre1 ++ y :: post1)) w →
  wp (bind (transitSagaStepToState gm1 y st)
        (λ '(r, _), ret (match r with Err _ => Some (Abandoned false) | Ok _ => None end)))
    (returns (λ r w', match r with
       | None => ∃ y', Rel y y' ∧ in_tx com (at_saga cid sid com g1 (pre1 ++ y' :: post1)) w'
       | Some v => v = Abandoned false ∧ faulty (St := St) ∧ open_tx com w'
       end)) w.
Proof.
  intros Hc Hy HR Ht. apply wp_bind_ret. eapply tx_transitStep; [exact Ht|done..| |].
  - intros ts w1 Ht1. apply wp_ret. exists (row_step_state st ts y).
    split; [apply HR; by exists ts|done].
  - intros e xm' w1 Hfa Ht1. by apply wp_ret.
Qed.

Lemma abortNextSteps_ends en ef g' gm' o k w :
  si_ClusterId gm' = cid → in_tx com (at_saga cid sid com g' (pre ++ x :: post)) w →
  (∀ post' w', Forall2 aborted post post' →
     in_tx com (at_saga cid sid com g' (pre ++ x :: post')) w' → wp (k None) (ends en ef) w') →
  (∀ v, k (Some v) = ret (v, o)) →
  wp (bind (abortNextSteps gm' post) k) (ends en ef) w.
Proof.
  intros Hc Ht Hk Hv. apply wp_bind_ret.
  eapply (tx_range cid sid com g' aborted
    (λ v w', v = Abandoned false ∧ faulty (St := St) ∧ open_tx com w') _ post (pre ++ [x]) []).
  { by rewrite app_nil_r, <-app_assoc. }
  - intros pre1 y post1 w3 Hy Ht3. apply wp_if; intros Hab.
    { apply wp_ret. exists y. split; [|done]. unfold aborted.
      apply step_state_eqb_true in Hab. by rewrite Hab. }
    apply wp_if; intros Hpe; [apply negb_true_iff in Hpe|apply negb_false_iff in Hpe].
    + apply wp_ret. exists y. split; [|done]. unfold aborted. by rewrite Hpe.
    + apply (tx_turn g' gm'); [done| | |done].
      * pose proof focus_cluster_all as Hcl. rewrite Forall_forall in Hcl. apply Hcl. set_solver.
      * intros y' Hm. unfold aborted. by rewrite Hpe.
  - intros post' w3 Hpost' Ht3. rewrite app_nil_r, <-app_assoc in Ht3. by eapply Hk.
  - intros v w3 (-> & Hfa & Ht3). rewrite Hv. by apply fault_ends.
Qed.

Lemma compensatePreviousSteps_ends en ef g' gm' o post' k w :
  (¬ Forall Done pre → wrong) → si_ClusterId gm' = cid →
  si_ClusterId o.1 = cid → si_InstanceId o.1 = sid →
  in_tx com (at_saga cid sid com g' (pre ++ x :: post')) w →
  (∀ pre' w', Forall Done pre → Forall2 (moved SagaStepStateEnum_CompensationPending) pre pre' →
     in_tx com (at_saga cid sid com g' (pre' ++ x :: post')) w' → wp (k None) (ends en ef) w') →
  (∀ v, k (Some v) = ret (v, o)) →
  wp (bind (compensatePreviousSteps gm' pre) k) (ends en ef) w.
Proof.
  intros Hwr Hc Hoc Hoi Ht Hk Hv. apply wp_bind_ret.
  eapply (tx_range cid sid com g'
    (λ y y', Done y ∧ moved SagaStepStateEnum_CompensationPending y y')
    (λ v w', v = Abandoned true ∧ wrong ∧ open_tx com w' ∨
             v = Abandoned false ∧ faulty (St := St) ∧ open_tx com w') _ pre [] (x :: post')).
  { done. }
  - intros pre1 y post1 w4 Hy Ht4. apply wp_if; intros Hd;
      [apply negb_true_iff in Hd|apply negb_false_iff in Hd].
    + apply wp_ret. left. split; [done|]. split; [|by eapply in_tx_open]. apply Hwr.
      intros Hpre. rewrite Forall_forall in Hpre. apply Hpre, step_state_eqb_true in Hy. congruence.
    + eapply wp_returns_mono; [|apply (tx_turn g' gm' (λ y y', Done y ∧
          moved SagaStepStateEnum_CompensationPending y y')); [done| | |exact Ht4]].
      * intros [v|] w5; [by right|done].
      * pose proof focus_cluster_all as Hcl. rewrite Forall_forall in Hcl. apply Hcl. set_solver.
      * intros y' Hm. split; [by apply step_state_eqb_true|done].
  - intros pre' w4 Hpre' Ht4. simpl in Ht4. apply (Hk pre'); [| |done].
    + eapply Forall2_Forall_l; [exact Hpre'|]. apply Forall_true. by intros y' y [? _].
    + by eapply Forall2_impl; [exact Hpre'|intros ?? [_ ?]].
  - intros v w4 [(-> & Hw & Ht4)|(-> & Hfa & Ht4)]; rewrite Hv; [|by apply fault_ends].
    by apply wp_ret.
Qed.

Lemma failedBody_ends w :
  in_tx com (at_saga cid sid com g (pre ++ x :: post)) w →
  (¬ Forall Done pre → wrong) →
  wp (failedBody (gm, xm)) (ends no_effect (fail_effect gm g pre x post)) w.
Proof.
  intros Ht Hwr. unfold failedBody. apply wp_or_else.
  eapply tx_listSteps; [done..| |by intros; eapply list_fault_ends].
  intros all w1 Ho _ Ht1. apply wp_bind_ret. eapply wp_orderSteps; [done|].
  rewrite (currentStepIndexIn_at pre x post), take_at, drop_at by done.
  set (gm1 := set_si_CompensationReason _ gm). apply wp_or_else.
  eapply tx_UpdateSagaState; [exact Ht1| | |by intros; apply fault_ends].
  { simpl. rewrite Hgc. by intros d ?%at_saga_saga_table. }
  intros ts w2 Ht2. set (gm2 := set_si_State _ gm1) in *.
  set (g' := row_saga_state (si_State gm) (si_CompensationReason gm1) ts g).
  assert (in_tx com (at_saga cid sid com g' (pre ++ x :: post)) w2) as Ht2'.
  { revert Ht2. apply in_tx_mono. intros d' (d & Hat & ->). simpl. rewrite Hgc, Hgi.
    by apply at_saga_saga; [|apply _]. }
  eapply (abortNextSteps_ends _ _ g' gm2 (gm2, xm)); [done|done| |done].
  intros post' w3 Hpost' Ht3.
  eapply (compensatePreviousSteps_ends _ _ g' gm2 (gm2, xm) post'); [done..| |done].
  intros pre' w4 Hpre Hpre' Ht4. apply wp_bind_ret.
  eapply tx_transitStep; [exact Ht4|done..| |by intros; apply fault_ends].
  intros ts5 w5 Ht5. eapply commit_follow; [exact Ht5| |done..].
  split; [by eexists _, ts|]. split; [done|]. eexists pre', _, post'. split; [done|].
  split; [by exists ts5|done].
Qed.

Lemma failed_settles w :
  idle com w → (¬ Forall Done pre → wrong) →
  wp (processExecutionFailed (gm, xm)) (settles no_effect (fail_effect gm g pre x post)) w.
Proof.
  intros Hi Hwr. apply in_transaction_settles; [done|]. intros w' Ht. by apply failedBody_ends.
Qed.

(** *** COMPENSATION_CANDIDATE *)

(** Looking for an unsettled child among the children. *)
Lemma unsettled_children children :
  children ≡ₚ (map_to_list (children_of cid sid com)).*2 →
  existsb (unsettled (ssi_InstanceId x)) children = false ↔ childrenSettled g x com.
Proof.
  intros Hp. rewrite <-not_true_iff_false, existsb_exists. unfold childrenSettled.
  rewrite (focus_saga_cluster _ _ _ Hf), (focus_id _ _ _ _ _ Hf).
  assert (∀ c, In c children ↔ ∃ k, children_of cid sid com !! k = Some c) as Hin.
  { intros c. rewrite <-list_elem_of_In, Hp, list_elem_of_fmap. split.
    - intros ([k ?] & -> & Hk%elem_of_map_to_list). by exists k.
    - intros (k & Hk%elem_of_map_to_list). by exists (k, c). }
  unfold unsettled. split.
  - intros Hn k c Hk Hc. destruct (decide (si_State c = SagaStateEnum_Compensated)) as [|Hne]; [done|].
    destruct Hn. exists c. split; [apply Hin; by exists k|].
    rewrite bool_decide_eq_true_2 by done. simpl. apply negb_true_iff.
    by apply bool_decide_eq_false_2.
  - intros Hs (c & [k Hk]%Hin & Hc). apply andb_true_iff in Hc as [Hc1%bool_decide_eq_true Hc2].
    rewrite negb_true_iff in Hc2. apply bool_decide_eq_false in Hc2. by eapply Hc2, Hs.
Qed.

(** The transaction of the handler. *)
Lemma comp_start_settles (h : list SagaStepExecutionLog) n w :
  h = ssi_ExecutionHistory xm ++ [emptyExecutionLog (env_now env n) true] → idle com w →
  notInState SagaStepStateEnum_CompensationPending (last pre) = false →
  Forall (λ y, Aborted y ∨ CompDone y) post → childrenSettled g x com →
  wp (_ <-? call BeginTransaction else _ => noFollowUp (gm, xm) ;;
      ' (r, xm') <- transitSagaStepToCompensationRunningState gm xm ;;
      match r with
      | Err _ => call RollbackTransaction ;;; noFollowUp (gm, xm')
      | Ok _ =>
          _ <-? call (UpdateSagaStepInstanceExecutionHistory (set_ssi_ExecutionHistory h xm'))
          else _ => (call RollbackTransaction ;;;
                     noFollowUp (gm, set_ssi_ExecutionHistory h xm')) ;;
          _ <-? call CommitTransaction else _ => noFollowUp (gm, set_ssi_ExecutionHistory h xm') ;;
          ret (true, (gm, set_ssi_ExecutionHistory h xm'))
      end)%go
    (settles no_effect (comp_start_effect env g xm pre x post com)) w.
Proof.
  intros -> Hi Hprev Hpost Hset. apply wp_or_else.
  eapply idle_begin; [done| |by intros; apply fault_settles].
  intros w5 Ht5. apply wp_bind_ret.
  eapply (tx_transitStep cid sid com g pre x post); [|done..| |by intros; apply rollback_settles].
  { revert Ht5. apply in_tx_mono. by intros d ->. }
  intros ts w6 Ht6. apply wp_or_else.
  assert (ssi_ClusterId x = cid) as Hcx by (eapply focus_step_cluster; [done|set_solver]).
  eapply tx_update_step; [apply law_UpdateSagaStepInstanceExecutionHistory
    |apply _|exact Ht6|done|done| |by intros; apply rollback_settles].
  intros ts2 w7 Ht7. simpl in Ht7.
  assert (comp_start_effect env g xm pre x post com g (pre ++ row_step_history (ssi_ExecutionId x)
    (ssi_ExecutionHistory xm ++ [emptyExecutionLog (env_now env n) true]) ts2
    (row_step_state SagaStepStateEnum_CompensationRunning ts x) :: post)) as Heff.
  { split; [done|]. split; [done|]. split; [done|]. split; [done|]. eexists. split; [|done].
    by exists n, ts2. }
  apply wp_or_else. eapply tx_commit; [exact Ht7|..].
  - intros com' w8 Hat Hi8. apply wp_ret. exists com'. split; [done|]. by eapply settled_follow.
  - intros e com' w8 Hfa Hc Hi8. apply wp_ret. exists com'. split; [done|].
    destruct Hc as [->|Hat]; [by apply settled_keep; auto|eapply settled_lost; eauto].
Qed.

Lemma comp_candidate_settles w :
  idle com w → si_State g ≠ SagaStateEnum_Committed →
  (notInState SagaStepStateEnum_CompensationPending (last pre) = true ∨
   ¬ Forall (λ y, Aborted y ∨ CompDone y) post → wrong) →
  (¬ childrenSettled g x com → kept) →
  wp (processCompensationCandidate env (gm, xm))
    (returns (λ r w', ∃ com1, triggered com com1 ∧ (childrenSettled g x com → com1 = com) ∧
       ∃ com', idle com' w' ∧
       settled cid sid com1 g pre x post kept wrong no_effect
         (comp_start_effect env g xm pre x post com) r com')) w.
Proof.
  intros Hi Hg Hwr Hwait.
  assert (∀ m w, wp m (settles no_effect (comp_start_effect env g xm pre x post com)) w →
    wp m (returns (λ r w', ∃ com1, triggered com com1 ∧ (childrenSettled g x com → com1 = com) ∧
       ∃ com', idle com' w' ∧
       settled cid sid com1 g pre x post kept wrong no_effect
         (comp_start_effect env g xm pre x post com) r com')) w)
    as Hup.
  { intros m w1. apply wp_returns_mono. intros r w2 Hr. exists com. split; [apply rtc_refl|]. by split. }
  unfold processCompensationCandidate. apply wp_or_else.
  eapply idle_listSteps; [done..| |by intros; apply Hup, fault_settles].
  intros all w1 Ho Hp Hi1. apply wp_bind_ret. eapply wp_orderSteps; [done|].
  rewrite (currentStepIndexIn_at pre x post) by done.
  rewrite previousStepOf_at, drop_at.
  destruct (notInState _ (last pre)) eqn:Hprev; [by apply Hup, giveUp_settles; auto|].
  assert (forallb (λ y, step_state_eqb (ssi_State y) SagaStepStateEnum_ExecutionAborted ||
    step_state_eqb (ssi_State y) SagaStepStateEnum_CompensationDone) post = true ↔
    Forall (λ y, Aborted y ∨ CompDone y) post) as Hpost.
  { rewrite forallb_forall, Forall_forall.
    split; intros Hall y Hy; specialize (Hall y); rewrite orb_true_iff, !step_state_eqb_true in *;
      apply Hall; by apply list_elem_of_In. }
  apply wp_if; intros Hnext; [apply negb_true_iff in Hnext|apply negb_false_iff in Hnext].
  { apply Hup, giveUp_settles; [|done..]. apply Hwr. right. rewrite <-Hpost. congruence. }
  apply wp_or_else. eapply (idle_query _ _ _ _ (law_GetChildSagaInstances _ _)); [exact Hi1|..].
  { rewrite Hgc. destruct (focus_tables _ _ _ _ _ Hf) as [[? ->] _]. done. }
  2: { intros e w2 Hfa Hi2. apply Hup, fault_settles; [|done].
       by destruct Hfa as [[[]|[? _]]|?]. }
  intros children w2 Hch Hi2. rewrite Hgc, Hgi in Hch. apply wp_bind_ret.
  eapply wp_hasUncompensatedChildren; [exact Hi2|]. intros com1 w3 Hi3 Htr Hb.
  pose proof (unsettled_children _ Hch) as Hset. simpl. rewrite Hxi in *.
  destruct (existsb _ children).
  { apply wp_ret. exists com1. split; [done|]. split; [by intros ?%Hset|].
    exists com1. split; [done|].
    apply settled_keep; [by eapply focus_triggered|]. apply Hwait. by intros ?%Hset. }
  rewrite (Hb eq_refl) in Hi3. apply Hup.
  apply wp_bind_ret, wp_now. intros n4 w4 E4.
  eapply comp_start_settles; [done|by eapply idle_wv|done|by apply Hpost|by apply Hset].
Qed.

(** *** The dispatch *)

(** The log a running step in memory may have: no answer is noted in it, or
    the code panics. *)
Definition unanswered (y : SagaStepInstance) : Prop :=
  ∀ log, last (ssi_ExecutionHistory y) = Some log → log_ExecutionResultReceivedTs log = 0%Z.

Lemma processSagaStep_ends w :
  idle com w →
  (ssi_State xm = SagaStepStateEnum_ExecutionRunning ∨
   ssi_State xm = SagaStepStateEnum_CompensationRunning → unanswered xm) →
  (ssi_State xm = SagaStepStateEnum_CompensationCandidate →
   si_State g ≠ SagaStateEnum_Committed) →
  (anomaly xm pre post → wrong) → (waits env com g xm x → kept) →
  wp (processSagaStep env SubComponent affinityGroup executionTimeoutMs (gm, xm))
    (returns (λ r w', ∃ com1, triggered com com1 ∧ (childrenSettled g x com → com1 = com) ∧
       ∃ com', idle com' w' ∧
       settled cid sid com1 g pre x post kept wrong (final_effect env executionTimeoutMs g xm pre x post)
         (follow_effect env com gm g xm pre x post) r com')) w.
Proof.
  intros Hi Hun Hg Hwr Hk.
  destruct (decide (ssi_State xm = SagaStepStateEnum_CompensationCandidate)) as [Hc|Hc].
  { unfold processSagaStep, final_effect, follow_effect, anomaly, waits in *. simpl.
    rewrite Hc in *. apply comp_candidate_settles; auto. }
  cut (wp (processSagaStep env SubComponent affinityGroup executionTimeoutMs (gm, xm))
    (settles (final_effect env executionTimeoutMs g xm pre x post) (follow_effect env com gm g xm pre x post)) w).
  { apply wp_returns_mono. intros r w2 Hr. exists com. split; [apply rtc_refl|]. by split. }
  unfold processSagaStep, final_effect, follow_effect, unanswered, anomaly, waits in *. simpl.
  destruct (ssi_State xm) eqn:Hst; try (by apply giveUp_settles; auto);
    try (by apply keep_settles; auto).
  - case_decide as Hh; [by apply candidate_settles|by apply candidate_blocks].
  - case_decide as Hh.
    + unfold processExecutionRunning. simpl. rewrite Hh. simpl. apply wp_bind_ret.
      eapply wp_returns_mono; [|by apply block_settles]. intros [r xm'] w1 (com' & Hi1 & Hs).
      apply wp_ret. exists com'. split; [done|]. by eapply settled_false.
    + destruct (last (ssi_ExecutionHistory xm)) as [log|] eqn:Hl.
      2: { by apply last_None in Hl. }
      eapply running_settles; [done|done|by apply Hun; [left|]|..|done].
      intros (n & ? & ?). eauto 6.
  - by apply succeeded_settles.
  - by apply failed_settles.
  - done.
  - destruct (last (ssi_ExecutionHistory xm)) as [log|] eqn:Hl.
    + eapply comp_running_settles; [done|done|by apply Hun; [right|]|..].
      * intros (n & ? & ?). eauto 6.
      * intros Hf'. apply Hwr. by intros log' [= <-].
    + unfold processCompensationRunning. simpl. rewrite Hl.
      apply giveUp_settles; [by apply Hwr|done..].
  - by apply comp_succeeded_settles.
  - by apply comp_failed_settles.
Qed.

(** *** Validation *)

(** The verdict on the steps as they are, unless they could not be read. *)
Lemma isSagaStateValid_spec w (Q : bool → World St → Prop) :
  idle com w →
  (∀ w', idle com w' → Q (validSequence (pre ++ x :: post) (length pre)) w') →
  (∀ w', faulty (St := St) → idle com w' → Q false w') →
  wp (isSagaStateValid (gm, xm)) (returns Q) w.
Proof.
  intros Hi HO HE. unfold isSagaStateValid. apply wp_or_else.
  eapply idle_listSteps; [done..| |by intros; apply wp_ret, HE].
  intros all w1 Ho Hp Hi1. destruct all as [|y all].
  { apply Permutation_nil_l in Hp. by destruct pre. }
  apply wp_bind_ret. eapply wp_orderSteps; [done|].
  rewrite (currentStepIndexIn_at pre x post) by done. by apply wp_ret, HO.
Qed.
End handlers.

(** A statement fails, or a message is not sent. *)
Definition hitch (St : Type) `{!Store St, !StoreLaws St} (env : Env) : Prop :=
  faulty (St := St) ∨ ∃ n, env_mq env n ≠ MqSent.

(** The handlers implement the protocol: a handler comes to nothing only
    because of a hitch, of the neighbours of the step or of something it waits
    for, and marks the saga invalid only because of the neighbours. *)
Lemma processSagaStep_settles {St : Type} `{!Store St, !StoreLaws St} env SubComponent
    affinityGroup executionTimeoutMs cid sid com g pre x post gm xm (w : World St) :
  focus cid sid com g (pre ++ x :: post) →
  si_ClusterId gm = cid → si_InstanceId gm = sid →
  ssi_ClusterId xm = cid → ssi_InstanceId xm = ssi_InstanceId x →
  idle com w →
  (ssi_State xm = SagaStepStateEnum_ExecutionRunning ∨
   ssi_State xm = SagaStepStateEnum_CompensationRunning → unanswered xm) →
  (ssi_State xm = SagaStepStateEnum_CompensationCandidate →
   si_State g ≠ SagaStateEnum_Committed) →
  wp (processSagaStep env SubComponent affinityGroup executionTimeoutMs (gm, xm))
    (returns (λ r w', ∃ com1, triggered com com1 ∧ (childrenSettled g x com → com1 = com) ∧
       ∃ com', idle com' w' ∧
       settled cid sid com1 g pre x post
         (hitch St env ∨ anomaly xm pre post ∨ waits env com g xm x)
         (anomaly xm pre post)
         (final_effect env executionTimeoutMs g xm pre x post) (follow_effect env com gm g xm pre x post) r com')) w.
Proof. unfold hitch. intros. eapply processSagaStep_ends; eauto. Qed.
