(* ===== verification/Invariant.v ===== *)
(** * The invariant of a saga

    Which sequences of step states a saga goes through, and with which saga
    states: the nineteen patterns of the comment in [isSagaStateValid], as
    four shapes.  Every effect of Protocol.v keeps a saga within them. *)

From S2P Require Import Prelude GoMonad Model Naming Sequence Validation Database.
From S2P Require Import Focus Store World Coordinator Transit Protocol.

(** ** Shapes *)

Definition forward_active (st : SagaStepStateEnum) : bool :=
  match st with
  | SagaStepStateEnum_ExecutionCandidate | SagaStepStateEnum_ExecutionRunning
  | SagaStepStateEnum_ExecutionSucceeded | SagaStepStateEnum_ExecutionFailed => true
  | _ => false
  end.

Definition compensation_active (st : SagaStepStateEnum) : bool :=
  match st with
  | SagaStepStateEnum_CompensationCandidate | SagaStepStateEnum_CompensationRunning
  | SagaStepStateEnum_CompensationSucceeded | SagaStepStateEnum_CompensationFailed
  | SagaStepStateEnum_CompensationBlocked => true
  | _ => false
  end.

(** Compensated steps, then aborted ones. *)
Definition undone (l : list SagaStepInstance) : Prop :=
  ∃ ds aa, l = ds ++ aa ∧ Forall CompDone ds ∧ Forall Aborted aa.

(** An operator has overridden a blocked saga. *)
Definition force_marked (g : SagaInstance) : Prop :=
  ∃ reason, si_CompensationReason g = "[FORCE-MARKED] " +:+ reason.

Definition forward_state (g : SagaInstance) : Prop :=
  si_State g = SagaStateEnum_Running ∨ si_State g = SagaStateEnum_InvalidState.

Definition compensating_state (g : SagaInstance) : Prop :=
  si_State g = SagaStateEnum_Running ∨ si_State g = SagaStateEnum_InvalidState ∨
  si_State g = SagaStateEnum_Blocked ∨
  si_State g = SagaStateEnum_Compensated ∧ force_marked g.

Inductive shape (g : SagaInstance) : list SagaStepInstance → Prop :=
  | shape_forward pre x post :
      Forall Done pre → forward_active (ssi_State x) = true → Forall Pending post →
      forward_state g → shape g (pre ++ x :: post)
  | shape_done ss :
      Forall Done ss →
      (si_State g = SagaStateEnum_Committed ∨ si_State g = SagaStateEnum_CompensationRequested ∨
       si_State g = SagaStateEnum_InvalidState ∨ ss = [] ∧ si_State g = SagaStateEnum_Running) →
      shape g ss
  | shape_compensating pre x post :
      Forall CompPending pre → compensation_active (ssi_State x) = true → undone post →
      compensating_state g → shape g (pre ++ x :: post)
  | shape_compensated x post :
      CompDone x → undone post →
      (si_State g = SagaStateEnum_Compensated ∨ si_State g = SagaStateEnum_InvalidState) →
      shape g (x :: post).

(** The history a step in a state may have: none before it starts, and after
    that the last log says in which direction it goes. *)
Definition last_log_is (isCompensation : bool) (x : SagaStepInstance) : Prop :=
  ∃ log, last (ssi_ExecutionHistory x) = Some log ∧ log_IsCompensation log = isCompensation.

Definition history_ok (x : SagaStepInstance) : Prop :=
  match ssi_State x with
  | SagaStepStateEnum_ExecutionPending | SagaStepStateEnum_ExecutionCandidate =>
      ssi_ExecutionHistory x = []
  | SagaStepStateEnum_ExecutionRunning | SagaStepStateEnum_ExecutionSucceeded
  | SagaStepStateEnum_ExecutionFailed => last_log_is false x
  | SagaStepStateEnum_CompensationRunning | SagaStepStateEnum_CompensationSucceeded
  | SagaStepStateEnum_CompensationFailed | SagaStepStateEnum_CompensationBlocked =>
      last_log_is true x
  | _ => True
  end.

Definition saga_inv (g : SagaInstance) (ss : list SagaStepInstance) : Prop :=
  shape g ss ∧ Forall history_ok ss.

(** ** Where the active step is *)

Lemma app_cons_cases {A} (l1 : list A) x1 k1 l2 x2 k2 :
  l1 ++ x1 :: k1 = l2 ++ x2 :: k2 →
  l1 = l2 ∧ x1 = x2 ∧ k1 = k2 ∨ x2 ∈ l1 ∨ x2 ∈ k1.
Proof.
  revert l2. induction l1 as [|a l1 IH]; intros [|b l2] H; simpl in H; injection H as <- H.
  - left. by rewrite H.
  - right. right. rewrite H. set_solver.
  - right. left. by left.
  - destruct (IH _ H) as [(-> & -> & ->)|[?|?]]; [by left|right; left; by right|by right; right].
Qed.

Lemma undone_state l x :
  undone l → x ∈ l → CompDone x ∨ Aborted x.
Proof.
  intros (ds & aa & -> & Hd & Ha) [Hx|Hx]%elem_of_app;
    [left; by eapply Forall_forall in Hd|right; by eapply Forall_forall in Ha].
Qed.

Section at_step.
Context (g : SagaInstance) (pre : list SagaStepInstance) (x : SagaStepInstance)
  (post : list SagaStepInstance).
Context (Hs : shape g (pre ++ x :: post)).

(** A step in the middle of a saga settles the shape. *)
Lemma shape_at :
  forward_active (ssi_State x) = true ∧
    Forall Done pre ∧ Forall Pending post ∧ forward_state g ∨
  compensation_active (ssi_State x) = true ∧
    Forall CompPending pre ∧ undone post ∧ compensating_state g ∨
  forward_active (ssi_State x) = false ∧ compensation_active (ssi_State x) = false.
Proof.
  assert (∀ st, in_state st x → forward_active st = false → compensation_active st = false →
    forward_active (ssi_State x) = false ∧ compensation_active (ssi_State x) = false) as Hin.
  { intros st Hx. unfold in_state in Hx. by rewrite Hx. }
  assert (∀ k, undone k → x ∈ k → forward_active (ssi_State x) = false ∧
    compensation_active (ssi_State x) = false) as Hun.
  { intros k Hk Hx. destruct (undone_state _ _ Hk Hx) as [H|H]; by eapply Hin. }
  inversion Hs as [l y k Hl Hy Hk Hg Heq|l Hl Hg Heq|l y k Hl Hy Hk Hg Heq|y k Hy Hk Hg Heq].
  - apply app_cons_cases in Heq as [(<- & <- & <-)|[Hx|Hx]]; [by left|..]; right; right.
    + eapply Forall_forall in Hl; [|exact Hx]. by eapply Hin.
    + eapply Forall_forall in Hk; [|exact Hx]. by eapply Hin.
  - right; right. subst l. apply Forall_app in Hl as [_ Hl]. apply Forall_cons in Hl as [Hl _].
    by eapply Hin.
  - apply app_cons_cases in Heq as [(<- & <- & <-)|[Hx|Hx]]; [right; by left|..]; right; right.
    + eapply Forall_forall in Hl; [|exact Hx]. by eapply Hin.
    + by apply (Hun k).
  - right; right. change (y :: k) with ([] ++ y :: k) in Heq.
    apply app_cons_cases in Heq as [(_ & <- & _)|[Hx|Hx]]; [by eapply Hin| |by apply (Hun k)].
    by apply elem_of_nil in Hx.
Qed.

Lemma shape_forward_inv :
  forward_active (ssi_State x) = true →
  Forall Done pre ∧ Forall Pending post ∧ forward_state g.
Proof.
  intros Hx. destruct shape_at as [(_ & H)|[(Hc & _)|[Hc _]]]; [done| |congruence].
  by destruct (ssi_State x).
Qed.

Lemma shape_compensating_inv :
  compensation_active (ssi_State x) = true →
  Forall CompPending pre ∧ undone post ∧ compensating_state g.
Proof.
  intros Hx. destruct shape_at as [(Hc & _)|[(_ & H)|[_ Hc]]]; [|done|congruence].
  by destruct (ssi_State x).
Qed.
End at_step.

(** Two states that no step of a well-formed saga is in. *)
Lemma shape_known g pre x post :
  shape g (pre ++ x :: post) →
  ssi_State x ≠ SagaStepStateEnum_Unknown ∧ ssi_State x ≠ SagaStepStateEnum_ExecutionBlocked.
Proof.
  intros Hs. pose (P := λ st, st ≠ SagaStepStateEnum_Unknown ∧
    st ≠ SagaStepStateEnum_ExecutionBlocked). change (P (ssi_State x)).
  assert (∀ l, undone l → Forall (λ y, P (ssi_State y)) l) as Hun.
  { intros l Hl. apply Forall_forall. intros y Hy.
    unfold P. by destruct (undone_state _ _ Hl Hy) as [-> | ->]. }
  assert (∀ st l, P st → Forall (in_state st) l → Forall (λ y, P (ssi_State y)) l) as Hst.
  { intros st l HP Hl. eapply Forall_impl; [exact Hl|]. intros y Hy. unfold in_state in Hy.
    by rewrite Hy. }
  assert (Forall (λ y, P (ssi_State y)) (pre ++ x :: post)) as Hall.
  { inversion Hs as [l y k Hl Hy Hk Hg Heq|l Hl Hg Heq|l y k Hl Hy Hk Hg Heq|y k Hy Hk Hg Heq].
    - apply Forall_app. split; [by eapply Hst; [|exact Hl]; split|]. constructor; [|by eapply Hst; [|exact Hk]; split].
      unfold P. by destruct (ssi_State y).
    - by eapply Hst; [|exact Hl]; split.
    - apply Forall_app. split; [by eapply Hst; [|exact Hl]; split|].
      constructor; [unfold P; by destruct (ssi_State y)|auto].
    - constructor; [|auto]. unfold in_state in Hy. unfold P. by rewrite Hy. }
  by apply Forall_app in Hall as [_ [? _]%Forall_cons].
Qed.

(** A saga all of whose steps are done and that has some. *)
Lemma shape_committed_inv g ss :
  shape g ss →
  si_State g = SagaStateEnum_Committed ∨ si_State g = SagaStateEnum_CompensationRequested →
  Forall Done ss.
Proof.
  intros Hs Hg. inversion Hs as [l y k Hl Hy Hk Hst|l Hl Hst|l y k Hl Hy Hk Hst|y k Hy Hk Hst];
    subst; try done.
  - destruct Hst, Hg; congruence.
  - destruct Hst as [?|[?|[?|[? _]]]], Hg; congruence.
  - destruct Hst, Hg; congruence.
Qed.

(** ** Invalidation *)

Lemma saga_inv_invalid g g' ss :
  saga_moved SagaStateEnum_InvalidState g g' → saga_inv g ss → saga_inv g' ss.
Proof.
  intros (r & ts & ->) [Hs Hh]. split; [|done].
  inversion Hs as [l y k Hl Hy Hk Hst|l Hl Hst|l y k Hl Hy Hk Hst|y k Hy Hk Hst]; subst.
  - apply shape_forward; try done. by right.
  - apply shape_done; [done|]. by right; right; left.
  - apply shape_compensating; try done. by right; left.
  - apply shape_compensated; try done. by right.
Qed.

(** ** Histories *)

Lemma last_alter_last {A} (f : A → A) (l : list A) :
  last (alter f (pred (length l)) l) = f <$> last l.
Proof.
  destruct l as [|a l _] using rev_ind; [done|].
  rewrite length_app, Nat.add_comm. simpl. rewrite last_snoc.
  assert (alter f (length l) (l ++ [a]) = l ++ [f a]) as ->; [|by rewrite last_snoc].
  replace (length l) with (length l + 0) by lia. by rewrite alter_app_r.
Qed.

Lemma last_log_is_logged b f (xm x y : SagaStepInstance) :
  (∀ log, log_IsCompensation (f log) = log_IsCompensation log) →
  last_log_is b xm → logged f xm x y → last_log_is b y.
Proof.
  intros Hf (log & Hl & Hb) (ts & ->). exists (f log). split; [|by rewrite Hf].
  unfold updateLastLog. simpl. by rewrite last_alter_last, Hl.
Qed.

Lemma history_ok_replace (pre post : list SagaStepInstance) x x' :
  Forall history_ok (pre ++ x :: post) → history_ok x' → Forall history_ok (pre ++ x' :: post).
Proof.
  intros [? [_ ?]%Forall_cons]%Forall_app Hx. apply Forall_app. split; [done|by constructor].
Qed.

Lemma history_ok_at (pre post : list SagaStepInstance) x :
  Forall history_ok (pre ++ x :: post) → history_ok x.
Proof. intros [_ [? _]%Forall_cons]%Forall_app. done. Qed.

(** Moved to a state that asks nothing of the history. *)
Lemma history_ok_moved st x y :
  moved st x y →
  match st with
  | SagaStepStateEnum_ExecutionDone | SagaStepStateEnum_ExecutionAborted
  | SagaStepStateEnum_CompensationPending | SagaStepStateEnum_CompensationCandidate
  | SagaStepStateEnum_CompensationDone => True
  | _ => False
  end → history_ok y.
Proof. intros (ts & ->). unfold history_ok. by destruct st. Qed.

Lemma moved_state st x y : moved st x y → ssi_State y = st.
Proof. by intros (ts & ->). Qed.

Lemma moved_history st x y : moved st x y → ssi_ExecutionHistory y = ssi_ExecutionHistory x.
Proof. by intros (ts & ->). Qed.

Lemma Forall2_moved st l l' : Forall2 (moved st) l l' → Forall (in_state st) l'.
Proof. induction 1 as [|x y l l' Hm]; constructor; [by eapply moved_state|done]. Qed.

Lemma Forall2_moved_history st l l' :
  Forall2 (moved st) l l' → st = SagaStepStateEnum_CompensationPending → Forall history_ok l'.
Proof. intros H ->. induction H; constructor; [by eapply history_ok_moved|done]. Qed.

Lemma Forall2_aborted l l' :
  Forall Pending l → Forall2 aborted l l' → Forall Aborted l' ∧ Forall history_ok l'.
Proof.
  intros Hl H. induction H as [|x y l l' Hm _ IH]; [done|].
  apply Forall_cons in Hl as [Hx Hl]. destruct (IH Hl) as [? ?].
  unfold aborted in Hm. unfold in_state in Hx. rewrite Hx in Hm. simpl in Hm.
  split; constructor; try done; [by eapply moved_state|by eapply history_ok_moved].
Qed.

(** ** The effects keep the invariant *)

Lemma compensatedSequence_undone l : undone l → compensatedSequence false l = true.
Proof.
  assert (∀ aa, Forall Aborted aa → compensatedSequence true aa = true) as Ha.
  { induction 1 as [|y aa Hy _ IH]; [done|]. simpl. unfold in_state in Hy. by rewrite Hy. }
  intros (ds & aa & -> & Hd & Haa). induction Hd as [|y ds Hy _ IH]; simpl.
  - destruct Haa as [|y aa Hy Haa]; [done|]. simpl. unfold in_state in Hy. rewrite Hy. simpl. by apply Ha.
  - unfold in_state in Hy. by rewrite Hy.
Qed.

Section preserve.
Context (env : Env) (executionTimeoutMs : Z).
Context (gm g : SagaInstance) (xm : SagaStepInstance).
Context (pre : list SagaStepInstance) (x : SagaStepInstance) (post : list SagaStepInstance).
Context (Hinv : saga_inv g (pre ++ x :: post)).

Let Hshape : shape g (pre ++ x :: post) := proj1 Hinv.
Let Hhist : Forall history_ok (pre ++ x :: post) := proj2 Hinv.

(** The active step goes on in the same direction. *)
Lemma replace_forward x' :
  forward_active (ssi_State x) = true → forward_active (ssi_State x') = true →
  history_ok x' → saga_inv g (pre ++ x' :: post).
Proof.
  intros Hx Hx' Hh. destruct (shape_forward_inv _ _ _ _ Hshape Hx) as (? & ? & ?).
  split; [by apply shape_forward|by eapply history_ok_replace].
Qed.

Lemma replace_compensating x' :
  compensation_active (ssi_State x) = true → compensation_active (ssi_State x') = true →
  history_ok x' → saga_inv g (pre ++ x' :: post).
Proof.
  intros Hx Hx' Hh. destruct (shape_compensating_inv _ _ _ _ Hshape Hx) as (? & ? & ?).
  split; [by apply shape_compensating|by eapply history_ok_replace].
Qed.

Lemma start_effect_inv g' ss' :
  ssi_State x = SagaStepStateEnum_ExecutionCandidate →
  start_effect env g pre x post g' ss' → saga_inv g' ss'.
Proof.
  intros Hx (-> & _ & _ & x' & (eid & now & ts & ->) & ->).
  apply replace_forward; [by rewrite Hx|done|]. by exists (emptyExecutionLog (env_now env now) false).
Qed.

Lemma send_effect_inv g' ss' :
  ssi_State x = SagaStepStateEnum_ExecutionRunning → last_log_is false xm →
  send_effect env executionTimeoutMs g xm pre x post g' ss' → saga_inv g' ss'.
Proof.
  intros Hx Hl (-> & _ & x' & (n & Hlog) & ->).
  assert (ssi_State x' = ssi_State x) as Hx' by (by destruct Hlog as (ts & ->)).
  apply replace_forward; [by rewrite Hx|by rewrite Hx', Hx|].
  unfold history_ok. rewrite Hx', Hx. by eapply last_log_is_logged; [|exact Hl|exact Hlog].
Qed.

Lemma send_comp_effect_inv g' ss' :
  ssi_State x = SagaStepStateEnum_CompensationRunning → last_log_is true xm →
  send_comp_effect env executionTimeoutMs g xm pre x post g' ss' → saga_inv g' ss'.
Proof.
  intros Hx Hl (-> & x' & (n & Hlog) & ->).
  assert (ssi_State x' = ssi_State x) as Hx' by (by destruct Hlog as (ts & ->)).
  apply replace_compensating; [by rewrite Hx|by rewrite Hx', Hx|].
  unfold history_ok. rewrite Hx', Hx. by eapply last_log_is_logged; [|exact Hl|exact Hlog].
Qed.

Lemma succeed_effect_inv g' ss' :
  ssi_State x = SagaStepStateEnum_ExecutionSucceeded →
  succeed_effect g pre x post g' ss' → saga_inv g' ss'.
Proof.
  intros Hx (x' & Hm & He).
  destruct (shape_forward_inv _ _ _ _ Hshape ltac:(by rewrite Hx)) as (Hpre & Hpost & Hst).
  assert (history_ok x') as Hh' by by eapply history_ok_moved.
  apply (history_ok_replace _ _ _ _ Hhist) in Hh' as Hh.
  apply moved_state in Hm as Hd. destruct post as [|n post'].
  - destruct He as (_ & (r & ts & ->) & ->). split; [|done].
    apply shape_done; [|by left]. by rewrite Forall_app, Forall_singleton.
  - destruct He as (-> & Hn & n' & Hmn & ->).
    change (pre ++ x' :: ?k) with (pre ++ [x'] ++ k) in *. rewrite app_assoc in *.
    apply Forall_cons in Hpost as [_ Hpost]. split.
    + apply shape_forward; [|by rewrite (moved_state _ _ _ Hmn)|done|done].
      by rewrite Forall_app, Forall_singleton.
    + eapply history_ok_replace; [done|]. unfold history_ok. rewrite (moved_state _ _ _ Hmn).
      rewrite (moved_history _ _ _ Hmn). apply history_ok_at in Hh. unfold history_ok in Hh.
      by rewrite Hn in Hh.
Qed.

Lemma fail_effect_inv g' ss' :
  ssi_State x = SagaStepStateEnum_ExecutionFailed → forward_state gm →
  fail_effect gm g pre x post g' ss' → saga_inv g' ss'.
Proof.
  intros Hx Hgm ((r & ts & ->) & _ & pre' & x' & post' & Hpre' & Hm & Hpost' & ->).
  destruct (shape_forward_inv _ _ _ _ Hshape ltac:(by rewrite Hx)) as (Hpre & Hpost & Hst).
  destruct (Forall2_aborted _ _ Hpost Hpost') as [Ha Hha]. split.
  - apply shape_compensating.
    + by eapply Forall2_moved.
    + by rewrite (moved_state _ _ _ Hm).
    + by exists [], post'.
    + destruct Hgm as [Hgm|Hgm]; [by left|by right; left].
  - apply Forall_app. split; [by eapply Forall2_moved_history|].
    constructor; [by eapply history_ok_moved|done].
Qed.

Lemma comp_start_effect_inv d g' ss' :
  ssi_State x = SagaStepStateEnum_CompensationCandidate →
  comp_start_effect env g xm pre x post d g' ss' → saga_inv g' ss'.
Proof.
  intros Hx (-> & _ & _ & _ & x' & (now & ts & ->) & ->).
  apply replace_compensating; [by rewrite Hx|done|]. exists (emptyExecutionLog (env_now env now) true).
  simpl. by rewrite last_snoc.
Qed.

Lemma comp_succeed_effect_inv g' ss' :
  ssi_State x = SagaStepStateEnum_CompensationSucceeded →
  comp_succeed_effect g pre x post g' ss' → saga_inv g' ss'.
Proof.
  intros Hx (x' & Hm & He).
  destruct (shape_compensating_inv _ _ _ _ Hshape ltac:(by rewrite Hx)) as (Hpre & Hpost & Hst).
  assert (history_ok x') as Hh' by by eapply history_ok_moved.
  apply (history_ok_replace _ _ _ _ Hhist) in Hh' as Hh.
  apply moved_state in Hm as Hd. destruct He as [(-> & (r & ts & ->) & _ & ->)|He].
  - split; [|done]. apply shape_compensated; [done|done|by left].
  - destruct He as (-> & pre0 & p & p' & -> & Hp & Hmp & ->).
    rewrite <-app_assoc in Hh. apply Forall_app in Hpre as [Hpre _]. split.
    + apply shape_compensating; [done|by rewrite (moved_state _ _ _ Hmp)| |done].
      destruct Hpost as (ds & aa & -> & Hds & Haa). exists (x' :: ds), aa.
      split; [done|]. split; [by constructor|done].
    + eapply history_ok_replace; [exact Hh|by eapply history_ok_moved].
Qed.

Lemma comp_fail_effect_inv g' ss' :
  ssi_State x = SagaStepStateEnum_CompensationFailed →
  comp_fail_effect g pre x post g' ss' → saga_inv g' ss'.
Proof.
  intros Hx ((r & ts & ->) & x' & Hm & ->).
  destruct (shape_compensating_inv _ _ _ _ Hshape ltac:(by rewrite Hx)) as (Hpre & Hpost & _).
  apply moved_state in Hm as Hd. split.
  - apply shape_compensating; [done|by rewrite Hd|done|]. by right; right; left.
  - eapply history_ok_replace; [done|]. unfold history_ok, last_log_is.
    rewrite Hd, (moved_history _ _ _ Hm). apply history_ok_at in Hhist.
    unfold history_ok in Hhist. by rewrite Hx in Hhist.
Qed.

(** *** All of them *)

(** The step in memory is the step of the saga... *)
Definition in_sync : Prop :=
  ssi_State xm = ssi_State x ∧ ssi_ExecutionHistory xm = ssi_ExecutionHistory x.

(** ... and what the handlers rely on besides: the request of a running
    step was not sent yet, and the saga in memory of a failed step is in a
    state that goes with a failed step. *)
Definition memory_ok : Prop :=
  (ssi_State xm = SagaStepStateEnum_ExecutionRunning ∨
   ssi_State xm = SagaStepStateEnum_CompensationRunning →
   ∀ log, last (ssi_ExecutionHistory xm) = Some log →
     log_ExecutionRequestSentTs log = 0%Z ∧ log_ExecutionResultReceivedTs log = 0%Z) ∧
  (ssi_State xm = SagaStepStateEnum_ExecutionFailed → forward_state gm).

Lemma timeout_effect_unsent st g' ss' :
  (∀ log, last (ssi_ExecutionHistory xm) = Some log → log_ExecutionRequestSentTs log = 0%Z) →
  ¬ timeout_effect g xm pre x post st g' ss'.
Proof. intros H (_ & (log & Hl & Hpos) & _). specialize (H log Hl). lia. Qed.

Lemma final_effect_inv g' ss' :
  in_sync → final_effect env executionTimeoutMs g xm pre x post g' ss' → saga_inv g' ss'.
Proof.
  intros [Hst Hh]. unfold final_effect.
  apply history_ok_at in Hhist as Hok. unfold history_ok in Hok.
  destruct (ssi_State xm) eqn:Hx; rewrite <-Hst in Hok; try done.
  - by rewrite Hh, Hok.
  - case_decide as Hnil.
    { destruct Hok as (log & Hl & _). by rewrite <-Hh, Hnil in Hl. }
    apply send_effect_inv; [by rewrite <-Hst|]. unfold last_log_is. by rewrite Hh.
  - apply succeed_effect_inv. by rewrite <-Hst.
  - apply send_comp_effect_inv; [by rewrite <-Hst|]. unfold last_log_is. by rewrite Hh.
  - apply comp_fail_effect_inv. by rewrite <-Hst.
Qed.

Lemma follow_effect_inv d g' ss' :
  in_sync → memory_ok → follow_effect env d gm g xm pre x post g' ss' → saga_inv g' ss'.
Proof.
  intros [Hst Hh] [Hrun Hfail]. unfold follow_effect.
  destruct (ssi_State xm) eqn:Hx; try done.
  - case_decide; [|done]. apply start_effect_inv. by rewrite <-Hst.
  - intros He. apply timeout_effect_unsent in He; [done|]. intros log Hl. apply Hrun; auto.
  - apply fail_effect_inv; [by rewrite <-Hst|auto].
  - apply comp_start_effect_inv. by rewrite <-Hst.
  - intros He. apply timeout_effect_unsent in He; [done|]. intros log Hl. apply Hrun; auto.
  - apply comp_succeed_effect_inv. by rewrite <-Hst.
Qed.

Lemma leaves_inv kept wrong (en ef : effect) f g' ss' :
  (en g' ss' → saga_inv g' ss') → (ef g' ss' → saga_inv g' ss') →
  leaves g pre x post kept wrong en ef f g' ss' → saga_inv g' ss'.
Proof.
  intros Hn He Hm. destruct Hm; auto. by eapply saga_inv_invalid.
Qed.

(** A saga that is well formed has no anomaly: when the step in memory is up
    to date, its neighbours are what its handler expects. *)
Lemma saga_inv_no_anomaly :
  in_sync → forward_active (ssi_State x) = true ∨ compensation_active (ssi_State x) = true →
  ssi_State x ≠ SagaStepStateEnum_CompensationBlocked →
  ¬ anomaly xm pre post.
Proof.
  intros [Hst Hh] Hact Hnb. unfold anomaly. rewrite Hst.
  apply history_ok_at in Hhist as Hok. unfold history_ok in Hok.
  assert (∀ st (o : option SagaStepInstance), notInState st o = true →
    ∃ y, o = Some y ∧ ssi_State y ≠ st) as Hnot.
  { intros st [y|]; [|done]. simpl. intros Hn%negb_true_iff. exists y. split; [done|].
    intros He%step_state_eqb_true. congruence. }
  destruct Hact as [Hx|Hx].
  - destruct (shape_forward_inv _ _ _ _ Hshape Hx) as (Hpre & Hpost & _).
    destruct (ssi_State x) eqn:Hsx; try done; try tauto.
    + intros [Hp|Hn]; [apply Hnot in Hp as (y & Hy & Hne)|apply Hnot in Hn as (y & Hy & Hne)].
      * apply Hne. apply last_Some_elem_of in Hy. by eapply Forall_forall in Hpre.
      * apply Hne. destruct post as [|z k]; [done|]. injection Hy as ->.
        by apply Forall_cons in Hpost as [? _].
    + destruct post as [|n k]; [tauto|]. apply Forall_cons in Hpost as [? _]. tauto.
  - destruct (shape_compensating_inv _ _ _ _ Hshape Hx) as (Hpre & Hpost & _).
    assert (Forall (λ y, Aborted y ∨ CompDone y) post) as Hun.
    { apply Forall_forall. intros y Hy. destruct (undone_state _ _ Hpost Hy); auto. }
    destruct (ssi_State x) eqn:Hsx; try done; try tauto.
    + intros [Hp|Hn]; [apply Hnot in Hp as (y & Hy & Hne)|done]. apply Hne.
      apply last_Some_elem_of in Hy. by eapply Forall_forall in Hpre.
    + intros Hlog. destruct Hok as (log & Hl & Hc). rewrite <-Hh in Hl.
      apply Hlog in Hl. congruence.
    + destruct (last pre) as [p|] eqn:Hl.
      * apply last_Some_elem_of in Hl. eapply Forall_forall in Hpre; [|done]. tauto.
      * rewrite not_false_iff_true. apply compensatedSequence_undone. done.
Qed.
End preserve.

(** The start of the compensation of a committed saga. *)
Lemma initiate_effect_inv g pre x g' ss' :
  initiate_effect g pre x g' ss' → saga_inv g' ss'.
Proof.
  intros ((r & ts & ->) & _ & pre' & x' & Hpre' & Hm & ->). split.
  - apply shape_compensating; [by eapply Forall2_moved|by rewrite (moved_state _ _ _ Hm)| |by left].
    by exists [], [].
  - apply Forall_app. split; [by eapply Forall2_moved_history|].
    constructor; [by eapply history_ok_moved|done].
Qed.

(** ** The properties *)

Lemma undone_compensating post :
  undone post → ∃ l1 l2, post = l1 ++ l2 ∧ Forall Compensating l1 ∧ Forall Aborted l2.
Proof.
  intros (ds & aa & -> & Hd & Ha). exists ds, aa. split; [done|]. split; [|done].
  eapply Forall_impl; [exact Hd|]. intros x Hx. unfold Compensating, in_state in *. by rewrite Hx.
Qed.

Lemma no_compensation st l :
  isCompensationState st = false → Forall (in_state st) l → ¬ Exists Compensating l.
Proof.
  intros Hst Hl [x [Hx Hc]]%Exists_exists. eapply Forall_forall in Hl; [|exact Hx].
  unfold Compensating, in_state in *. congruence.
Qed.

Lemma validSequence_shape g pre x post :
  shape g (pre ++ x :: post) →
  forward_active (ssi_State x) = true ∨ compensation_active (ssi_State x) = true →
  validSequence (pre ++ x :: post) (length pre) = true.
Proof.
  intros Hs Hx. unfold validSequence. destruct (existsb _ _) eqn:He.
  - apply existsb_compensation in He. destruct Hx as [Hx|Hx].
    + destruct (shape_forward_inv _ _ _ _ Hs Hx) as (Hpre & Hpost & _).
      apply Exists_app in He as [He|He]; [by destruct (no_compensation SagaStepStateEnum_ExecutionDone pre)|].
      apply Exists_cons in He as [He|He]; [|by destruct (no_compensation SagaStepStateEnum_ExecutionPending post)].
      unfold Compensating in He. by destruct (ssi_State x).
    + destruct (shape_compensating_inv _ _ _ _ Hs Hx) as (Hpre & Hpost & _).
      apply validate_compensating_spec. split; [|split; [done|]].
      * unfold Compensating. by destruct (ssi_State x).
      * by apply compensating_next_false, undone_compensating.
  - destruct Hx as [Hx|Hx].
    + destruct (shape_forward_inv _ _ _ _ Hs Hx) as (Hpre & Hpost & _).
      apply validate_forward_spec. split; [by destruct (ssi_State x)|]. split; [done|].
      apply forward_next_false. by left.
    + apply not_true_iff_false in He. destruct He. apply existsb_compensation.
      apply Exists_app. right. apply Exists_cons_hd. unfold Compensating. by destruct (ssi_State x).
Qed.

(** The validation that decides whether a saga is marked invalid accepts
    every well-formed saga at its active step. *)
Theorem validSequence_well_formed g pre x post :
  shape g (pre ++ x :: post) →
  forward_active (ssi_State x) = true ∨ compensation_active (ssi_State x) = true →
  validSequence (pre ++ x :: post) (length pre) = true.
Proof. apply validSequence_shape. Qed.

Lemma validSequence_well_formed_witness :
  validSequence (sample_steps SagaStepStateEnum_ExecutionDone
    SagaStepStateEnum_ExecutionRunning SagaStepStateEnum_ExecutionPending) 1 = true.
Proof.
  apply (validSequence_well_formed (sample_saga SagaStateEnum_Running "")
    [sample_step "a" "" "b" SagaStepStateEnum_ExecutionDone []]
    (sample_step "b" "a" "c" SagaStepStateEnum_ExecutionRunning [])
    [sample_step "c" "b" "" SagaStepStateEnum_ExecutionPending []]); [|by left].
  apply shape_forward; [by repeat constructor|done|by repeat constructor|by left].
Defined.

(** ** The invariant of the database

    Every saga of every cluster is well formed: its steps form one chain, it
    has one of the shapes of Invariant.v; and every step belongs to a saga.
    What a transaction on one saga leaves, a trigger and a mark keep it. *)

Record db_ok (d : DB) : Prop := {
  ok_sagas : ∀ cid sid g, saga_rows cid d !! sid = Some g →
    ∃ ss, focus cid sid d g ss ∧ saga_inv g ss;
  ok_steps : ∀ cid k x, step_rows cid d !! k = Some x →
    is_Some (saga_rows cid d !! ssi_SagaInstanceId x);
  ok_tables : ∀ cid, is_Some (saga_table cid d) ↔ is_Some (step_table cid d);
}.

Lemma focus_outside cid sid d d' c i g ss :
  outside cid sid d d' → (c, i) ≠ (cid, sid) → focus c i d g ss → focus c i d' g ss.
Proof.
  intros Ho Hne [Ht1 Hg1 Hid Hs1 Hc Hd]. pose proof (out_tables _ _ _ _ c Ho) as Ht.
  destruct Ho as [_ _ _ _ _ Hg Hs]. split; try done.
  - by apply Ht.
  - by rewrite Hg.
  - by rewrite Hs.
Qed.

Lemma outside_lookup cid sid d d' c i g :
  outside cid sid d d' → (c, i) ≠ (cid, sid) →
  saga_rows c d' !! i = Some g ↔ saga_rows c d !! i = Some g.
Proof. intros [_ _ _ _ _ Hg _] Hne. by rewrite Hg. Qed.

Lemma steps_of_lookup cid d k x :
  step_rows cid d !! k = Some x ↔ steps_of cid (ssi_SagaInstanceId x) d !! k = Some x.
Proof.
  unfold steps_of. rewrite map_lookup_filter_Some. simpl. split; [done|by intros [? _]].
Qed.

(** The saga of a step. *)
Lemma db_ok_step d cid k x :
  db_ok d → step_rows cid d !! k = Some x →
  ∃ g pre post, focus cid (ssi_SagaInstanceId x) d g (pre ++ x :: post) ∧
    saga_inv g (pre ++ x :: post) ∧ k = ssi_InstanceId x.
Proof.
  intros [Hs Ht _] Hx. destruct (Ht _ _ _ Hx) as [g Hg].
  destruct (Hs _ _ _ Hg) as (ss & Hf & Hinv).
  apply steps_of_lookup in Hx. rewrite (focus_steps _ _ _ _ _ Hf) in Hx.
  apply steps_map_lookup in Hx as [Hx <-]; [|apply Hf].
  apply list_elem_of_split in Hx as (pre & post & ->). by exists g, pre, post.
Qed.

(** A transaction on one saga. *)
Lemma db_ok_at cid sid com com' g' ss' :
  db_ok com → at_saga cid sid com g' ss' com' → saga_inv g' ss' → db_ok com'.
Proof.
  intros [Hs Ht Htab] [Hf Ho] Hinv. split.
  3: { intros c. by rewrite (out_saga_tables _ _ _ _ Ho), (out_step_tables _ _ _ _ Ho). }
  - intros c i g Hg. destruct (decide ((c, i) = (cid, sid))) as [[= -> ->]|Hne].
    + exists ss'. rewrite (focus_saga _ _ _ _ _ Hf) in Hg. by injection Hg as <-.
    + apply (outside_lookup _ _ _ _ _ _ _ Ho Hne) in Hg.
      destruct (Hs _ _ _ Hg) as (ss & Hf' & Hinv'). exists ss. split; [|done].
      by eapply focus_outside.
  - intros c k x Hx. destruct (decide ((c, ssi_SagaInstanceId x) = (cid, sid)))
      as [[= -> Heq]|Hne].
    + rewrite Heq, (focus_saga _ _ _ _ _ Hf). by eexists.
    + apply steps_of_lookup in Hx. rewrite (out_steps _ _ _ _ Ho _ _ Hne) in Hx.
      apply steps_of_lookup in Hx. destruct (Ht _ _ _ Hx) as [g Hg].
      exists g. by apply (outside_lookup _ _ _ _ _ _ _ Ho Hne).
Qed.

(** An update of a saga that is not there. *)
Lemma upd_saga_absent cid sid f d : saga_rows cid d !! sid = None → upd_saga cid sid f d = d.
Proof.
  intros Hn. unfold upd_saga. destruct d as [c t st si ss n]. simpl.
  unfold set_db_saga_instances. simpl. f_equal. apply map_eq. intros k.
  rewrite lookup_alter. case_decide as Hk; [|done]. subst k.
  unfold saga_rows, saga_table in Hn. simpl in Hn.
  destruct (si !! getSagaInstancesTableName cid) as [m|]; simpl in *; [|done].
  rewrite lookup_fmap, fmap_None in Hn. by rewrite alter_absent.
Qed.

Lemma db_ok_mark cid sid com com' :
  db_ok com → marked SagaStateEnum_InvalidState cid sid com com' → db_ok com'.
Proof.
  intros Hok [->|(r & ts & ->)]; [done|].
  destruct (saga_rows cid com !! sid) as [g|] eqn:Hg; [|by rewrite upd_saga_absent].
  destruct (ok_sagas _ Hok _ _ _ Hg) as (ss & Hf & Hinv).
  eapply db_ok_at; [done|apply at_saga_saga; [by apply at_saga_refl|apply _]|].
  eapply saga_inv_invalid; [|done]. by exists r, ts.
Qed.

Lemma saga_inv_triggered g ss ts :
  si_State g = SagaStateEnum_Committed → saga_inv g ss →
  saga_inv (row_saga_state_only SagaStateEnum_CompensationRequested ts g) ss.
Proof.
  intros Hg [Hs Hh]. split; [|done]. apply shape_done; [|by right; left].
  eapply shape_committed_inv; [done|by left].
Qed.

Lemma db_ok_trigger_step com com' : db_ok com → trigger_step com com' → db_ok com'.
Proof.
  intros Hok (cid & sid & g & ts & Hg & Hst & ->).
  destruct (ok_sagas _ Hok _ _ _ Hg) as (ss & Hf & Hinv).
  eapply db_ok_at; [done|apply at_saga_saga; [by apply at_saga_refl|apply _]|].
  by apply saga_inv_triggered.
Qed.

Lemma db_ok_triggered com com' : triggered com com' → db_ok com → db_ok com'.
Proof. induction 1; eauto using db_ok_trigger_step. Qed.

(** An operator's override. *)
Lemma db_ok_force_mark cid sid reason ts g com :
  db_ok com → saga_rows cid com !! sid = Some g → si_State g = SagaStateEnum_Blocked →
  db_ok (upd_saga cid sid
    (row_saga_state SagaStateEnum_Compensated ("[FORCE-MARKED] " +:+ reason) ts) com).
Proof.
  intros Hok Hg Hst. destruct (ok_sagas _ Hok _ _ _ Hg) as (ss & Hf & [Hs Hh]).
  eapply db_ok_at; [done|apply at_saga_saga; [by apply at_saga_refl|apply _]|].
  split; [|done]. inversion Hs as [l y k Hl Hy Hk Hg'|l Hl Hg'|l y k Hl Hy Hk Hg'|y k Hy Hk Hg'];
    subst.
  - destruct Hg'; congruence.
  - destruct Hg' as [?|[?|[?|[? ?]]]]; congruence.
  - apply shape_compensating; try done. right; right; right. split; [done|]. by exists reason.
  - destruct Hg'; congruence.
Qed.
