(* ===== verification/Building.v ===== *)
(** * A saga being created

    What the inserts of a submission do to the database: the saga's row
    first, then its steps one after the other.  A saga is being built when
    its row is there with the steps saved so far, and nothing else has
    changed since [com] was committed. *)

From Stdlib Require Import Strings.Ascii Strings.String.
From S2P Require Import Prelude GoMonad Random Model Naming Sequence Database Focus.
From S2P Require Import Invariant.
#[local] Arguments String.append !_ _ / : simpl nomatch.

(** The rows the inserts write. *)
Definition saga_inserted (ts : Z) (g : SagaInstance) : SagaInstance :=
  set_si_CreatedAt ts (set_si_UpdatedAt ts g).
Definition step_inserted (ts : Z) (x : SagaStepInstance) : SagaStepInstance :=
  set_ssi_CreatedAt ts (set_ssi_UpdatedAt ts x).

Record building (cid sid : string) (com : DB) (g : SagaInstance)
    (ss : list SagaStepInstance) (d : DB) : Prop := {
  bu_outside : outside cid sid com d;
  bu_tables : has_tables cid d;
  bu_saga : saga_rows cid d !! sid = Some g;
  bu_steps : steps_of cid sid d = steps_map ss;
  bu_ids : NoDup (ssi_InstanceId <$> ss);
}.

(** ** The key of a step

    The identifier is what follows its last dot, when it has none itself. *)

Lemma no_dot_app s t : no_dot (s +:+ String "."%char t) = false.
Proof. induction s as [|c s IH]; simpl; [done|]. case_decide; done. Qed.

Lemma split_last_dot s s' i i' :
  no_dot i = true → no_dot i' = true → s +:+ "." +:+ i = s' +:+ "." +:+ i' → i = i'.
Proof.
  intros Hi Hi'. revert s'. induction s as [|c s IH]; intros [|c' s']; simpl.
  - congruence.
  - intros [= _ ->]. by rewrite no_dot_app in Hi.
  - intros [= _ <-]. by rewrite no_dot_app in Hi'.
  - intros [= _ Heq]. by eapply IH.
Qed.

(** Random identifiers have no dots. *)
Lemma random_string_no_dot draws n : no_dot (random_string draws n) = true.
Proof.
  pose proof (random_string_alphanumeric draws n) as Ha. revert Ha.
  generalize (random_string draws n). induction s as [|c s IH]; simpl; [done|].
  intros [Hc Hs]%andb_true_iff. case_decide as Hd; [by subst c|by apply IH].
Qed.

Lemma step_key_split x :
  step_SagaIdempotencyKey x =
  ("ssidk:" +:+ ssi_ClusterId x +:+ "." +:+ ssi_ZoneId x +:+ "." +:+ ssi_SagaTemplateId x +:+
   "." +:+ ssi_SagaStepTemplateId x) +:+ "." +:+ ssi_InstanceId x.
Proof.
  unfold step_SagaIdempotencyKey, getSagaStepIdempotencyKey. by rewrite !string_app_assoc.
Qed.

Lemma step_key_inj x y :
  no_dot (ssi_InstanceId x) = true → no_dot (ssi_InstanceId y) = true →
  step_SagaIdempotencyKey x = step_SagaIdempotencyKey y → ssi_InstanceId x = ssi_InstanceId y.
Proof. intros Hx Hy. rewrite !step_key_split. by apply split_last_dot. Qed.

(** ** The inserts, seen by the reads *)

Section inserts.
Implicit Types (d com : DB) (g : SagaInstance) (x y : SagaStepInstance).

Lemma step_rows_insert c k y t d :
  step_rows c (set_db_saga_step_instances
    (<[getSagaStepInstancesTableName c := <[k := y]> t]> (db_saga_step_instances d)) d) =
  <[k := set_ssi_ClusterId c y]> (set_ssi_ClusterId c <$> t).
Proof. unfold step_rows, step_table. simpl. rewrite lookup_insert_eq. simpl. by rewrite fmap_insert. Qed.

Lemma step_rows_insert_ne c c' m d :
  c ≠ c' →
  step_rows c (set_db_saga_step_instances
    (<[getSagaStepInstancesTableName c' := m]> (db_saga_step_instances d)) d) = step_rows c d.
Proof.
  intros Hne. unfold step_rows, step_table. simpl. rewrite lookup_insert_ne; [done|].
  intros Heq. simplify_eq.
Qed.

Lemma saga_rows_insert c k g t d :
  saga_rows c (set_db_saga_instances
    (<[getSagaInstancesTableName c := <[k := g]> t]> (db_saga_instances d)) d) =
  <[k := set_si_ClusterId c g]> (set_si_ClusterId c <$> t).
Proof. unfold saga_rows, saga_table. simpl. rewrite lookup_insert_eq. simpl. by rewrite fmap_insert. Qed.

Lemma saga_rows_insert_ne c c' m d :
  c ≠ c' →
  saga_rows c (set_db_saga_instances
    (<[getSagaInstancesTableName c' := m]> (db_saga_instances d)) d) = saga_rows c d.
Proof.
  intros Hne. unfold saga_rows, saga_table. simpl. rewrite lookup_insert_ne; [done|].
  intros Heq. simplify_eq.
Qed.

Lemma is_Some_insert_present {A} (m : gmap string A) k k' v :
  is_Some (m !! k') → is_Some (<[k' := v]> m !! k) ↔ is_Some (m !! k).
Proof.
  intros Hk. rewrite lookup_insert. case_decide as He; [|done]. rewrite <-He. naive_solver.
Qed.

(** The saga's row. *)
Lemma building_saga cid sid com g ts d :
  db_ok com → si_ClusterId g = cid → si_InstanceId g = sid →
  sql_insert_saga ts g com = Ok d →
  building cid sid com (saga_inserted ts g) [] d.
Proof.
  intros Hok <- <- Hd. unfold sql_insert_saga in Hd.
  destruct (saga_table _ com) as [t|] eqn:Ht; [|done].
  destruct (_ || _) eqn:Hn; [done|]. apply insert_checked in Hn as [Hn _].
  destruct (db_saga_templates com !! _); [|done]. injection Hd as <-.
  assert (saga_rows (si_ClusterId g) com = set_si_ClusterId (si_ClusterId g) <$> t) as Hrows
    by (unfold saga_rows; by rewrite Ht).
  split.
  - split; try done.
    + intros c. unfold saga_table. simpl. apply is_Some_insert_present. by exists t.
    + intros c i Hne. destruct (decide (c = si_ClusterId g)) as [->|Hc].
      * rewrite saga_rows_insert, Hrows. apply lookup_insert_ne. congruence.
      * by rewrite saga_rows_insert_ne.
  - split.
    + unfold saga_table. simpl. rewrite lookup_insert_eq. by eexists.
    + apply (ok_tables _ Hok). by exists t.
  - by rewrite saga_rows_insert, lookup_insert_eq.
  - apply map_eq. intros k. unfold steps_map. simpl. rewrite lookup_empty.
    apply map_lookup_filter_None. right. intros x Hx Hxs. simpl in Hxs.
    apply (ok_steps _ Hok) in Hx as [g' Hg']. rewrite Hxs, Hrows, lookup_fmap, Hn in Hg'. done.
  - constructor.
Qed.

Lemma steps_map_snoc ss x :
  NoDup (ssi_InstanceId <$> ss ++ [x]) →
  steps_map (ss ++ [x]) = <[ssi_InstanceId x := x]> (steps_map ss).
Proof.
  intros Hnd. unfold steps_map. rewrite fmap_app. simpl. apply list_to_map_snoc.
  rewrite steps_map_ids. rewrite fmap_app in Hnd. apply NoDup_app in Hnd as (_ & Hd & _).
  intros Hin. apply (Hd _ Hin). by left.
Qed.

(** A step's row. *)
Lemma building_step cid sid com g ss d x ts d' :
  building cid sid com g ss d → ssi_ClusterId x = cid → ssi_SagaInstanceId x = sid →
  sql_insert_step ts x d = Ok d' →
  building cid sid com g (ss ++ [step_inserted ts x]) d'.
Proof.
  intros [Ho [Ht1 Ht2] Hg Hs Hnd] <- <- Hd. unfold sql_insert_step in Hd.
  destruct (step_table _ d) as [t|] eqn:Ht; [|done].
  destruct (_ || _) eqn:Hn; [done|]. apply insert_checked in Hn as [Hn _].
  destruct (saga_rows _ d !! _) as [?|] eqn:Hrow; [|done].
  destruct (db_saga_templates d !! _) as [?|]; [|done].
  destruct (db_saga_step_templates d !! _) as [?|]; [|done]. injection Hd as <-.
  set (x' := set_ssi_CreatedAt ts (set_ssi_UpdatedAt ts x)). change x' with (step_inserted ts x) in *.
  assert (step_rows (ssi_ClusterId x) d = set_ssi_ClusterId (ssi_ClusterId x) <$> t) as Hrows
    by (unfold step_rows; by rewrite Ht).
  assert (set_ssi_ClusterId (ssi_ClusterId x) (step_inserted ts x) = step_inserted ts x) as Hsame
    by by destruct x.
  assert (step_rows (ssi_ClusterId x) d !! ssi_InstanceId x = None) as Hnone.
  { by rewrite Hrows, lookup_fmap, Hn. }
  assert (NoDup (ssi_InstanceId <$> ss ++ [step_inserted ts x])) as Hnd'.
  { rewrite fmap_app. apply NoDup_app. split; [done|]. split; [|apply NoDup_singleton].
    intros i Hi ->%list_elem_of_singleton. simpl in Hi.
    apply list_elem_of_fmap in Hi as (y & Hy & Hin).
    assert (steps_map ss !! ssi_InstanceId x = Some y) as Hl by by apply steps_map_lookup.
    rewrite <-Hs in Hl. apply map_lookup_filter_Some in Hl as [Hl _]. congruence. }
  split; [| | |  |done].
  - etrans; [exact Ho|]. split; try done.
    + intros c. unfold step_table. simpl. apply is_Some_insert_present. by exists t.
    + intros c i Hne. destruct (decide (c = ssi_ClusterId x)) as [->|Hc].
      * unfold steps_of. rewrite step_rows_insert, Hsame, <-Hrows.
        rewrite map_filter_insert_False by (simpl; congruence).
        by rewrite delete_id.
      * unfold steps_of. by rewrite step_rows_insert_ne.
  - split; [done|]. unfold step_table. simpl. rewrite lookup_insert_eq. by eexists.
  - rewrite <-Hg. exact Hrow.
  - unfold steps_of. rewrite step_rows_insert, Hsame, <-Hrows.
    rewrite map_filter_insert_True by done. rewrite steps_map_snoc by done. f_equal. exact Hs.
Qed.
End inserts.

(** ** Fresh identifiers *)

Section fresh.
Context {cid sid : string} {com : DB} {g : SagaInstance}.
Implicit Types (d : DB) (x y : SagaStepInstance).

(** The rows there are: the steps saved so far, and those of before. *)
Lemma building_rows ss d k y :
  building cid sid com g ss d → step_rows cid d !! k = Some y →
  y ∈ ss ∧ ssi_InstanceId y = k ∨ step_rows cid com !! k = Some y.
Proof.
  intros Hb Hy. apply steps_of_lookup in Hy.
  destruct (decide (ssi_SagaInstanceId y = sid)) as [He|Hne].
  - left. rewrite He, (bu_steps _ _ _ _ _ _ Hb) in Hy.
    apply steps_map_lookup in Hy; [done|]. apply Hb.
  - right. rewrite (out_steps _ _ _ _ (bu_outside _ _ _ _ _ _ Hb)) in Hy by congruence.
    by apply steps_of_lookup in Hy.
Qed.

(** The identifier of [x] is new. *)
Definition fresh_id (ss : list SagaStepInstance) x : Prop :=
  ssi_InstanceId x ∉ ssi_InstanceId <$> ss ∧ step_rows cid com !! ssi_InstanceId x = None.

(** Then so is its key. *)
Lemma building_key_fresh ss d x :
  db_ok com → building cid sid com g ss d → fresh_id ss x →
  ssi_ClusterId x = cid → no_dot (ssi_InstanceId x) = true →
  Forall (λ y, no_dot (ssi_InstanceId y) = true) ss →
  step_key_taken cid (step_SagaIdempotencyKey x) d = false.
Proof.
  intros Hok Hb [Hn1 Hn2] Hxc Hx Hss. apply not_true_is_false. intros He%bool_decide_eq_true.
  apply Exists_exists in He as (y & Hy & Hkey). apply list_elem_of_fmap in Hy as ([k z] & -> & Hy).
  apply elem_of_map_to_list in Hy. simpl in *.
  destruct (building_rows _ _ _ _ Hb Hy) as [[Hin Hid]|Hrow].
  - rewrite Forall_forall in Hss. apply step_key_inj in Hkey; [|by apply Hss|done].
    apply Hn1. rewrite <-Hkey. apply list_elem_of_fmap. eauto.
  - destruct (db_ok_step _ _ _ _ Hok Hrow) as (g' & pre & post & Hf & _ & ->).
    pose proof (focus_dots _ _ _ _ _ Hf) as Hd. rewrite Forall_forall in Hd.
    apply step_key_inj in Hkey; [|apply Hd; set_solver|done]. congruence.
Qed.

(** The insert goes through. *)
Lemma building_insert_ok ss d x ts :
  building cid sid com g ss d → fresh_id ss x →
  step_key_taken cid (step_SagaIdempotencyKey x) d = false →
  ssi_ClusterId x = cid → ssi_SagaInstanceId x = sid →
  is_Some (db_saga_templates com !! ssi_SagaTemplateId x) →
  is_Some (db_saga_step_templates com !! ssi_SagaStepTemplateId x) →
  ∃ d', sql_insert_step ts x d = Ok d'.
Proof.
  intros Hb [Hn1 Hn2] Hkey Hxc Hxs [t1 Ht1] [t2 Ht2]. unfold sql_insert_step. rewrite Hxc, Hxs.
  destruct (bu_tables _ _ _ _ _ _ Hb) as [_ [t Ht]]. rewrite Ht.
  assert (step_rows cid d !! ssi_InstanceId x = None) as Hn.
  { destruct (step_rows cid d !! _) as [y|] eqn:Hy; [|done]. exfalso.
    destruct (building_rows _ _ _ _ Hb Hy) as [[Hin Hid]|Hrow]; [|congruence].
    apply Hn1. rewrite <-Hid. apply list_elem_of_fmap. eauto. }
  unfold step_rows in Hn. rewrite Ht in Hn. simpl in Hn. rewrite lookup_fmap in Hn.
  apply fmap_None in Hn. rewrite Hn, Hkey. simpl.
  rewrite (bu_saga _ _ _ _ _ _ Hb).
  destruct (bu_outside _ _ _ _ _ _ Hb) as [_ -> -> _ _ _ _]. rewrite Ht1, Ht2. by eexists.
Qed.
End fresh.

(** The saga is complete when the links are right. *)
Lemma building_focus cid sid com g ss d :
  building cid sid com g ss d → si_InstanceId g = sid → linked "" ss →
  Forall (λ x, ssi_InstanceId x ≠ "") ss → Forall (λ x, no_dot (ssi_InstanceId x) = true) ss →
  focus cid sid d g ss.
Proof. intros [Ho Ht Hg Hs Hnd] Hid Hl Hne Hd. by repeat split; try apply Ht. Qed.
