(* ===== verification/SubmissionSpecs.v ===== *)
(** * What a submission does to the database

    One saga is created, with all the steps of its template, the first of them
    a candidate, or nothing is; and a submitter that is told of a success has
    its saga in the database. *)

From S2P Require Import Prelude GoMonad Random Model Naming Sequence Validation Database Focus.
From S2P Require Import Messages Store World Coordinator Results Rules Transit Protocol.
From S2P Require Import Invariant Building.

(** ** The steps in memory *)

(** What the loop over the links makes. *)
Lemma linkSteps_fields {A} (f : SagaStepInstance → A) prev xs :
  (∀ p n x, f (set_ssi_NextSagaStepInstanceId n (set_ssi_PreviousSagaStepInstanceId p x)) = f x) →
  f <$> linkSteps prev xs = f <$> xs.
Proof.
  intros Hf. revert prev. induction xs as [|x xs IH]; intros prev; csimpl; [done|].
  by rewrite Hf, IH.
Qed.

Lemma linkSteps_linked prev xs :
  Forall (λ x, ssi_NextSagaStepInstanceId x = "") xs → linked prev (linkSteps prev xs).
Proof.
  intros Hn. revert prev. induction Hn as [|x xs Hx Hn IH]; intros prev; [done|].
  simpl. split; [done|]. split; [|apply IH]. by destruct xs.
Qed.

Section submission.
Context {St : Type} `{!Store St, !StoreLaws St} (env : Env).
Context (affinityGroup : string).
Context (com : DB) (msg : TraxMessage) (payload : SagaSubmissionRequestPayload).
Implicit Types (w : World St) (xs ss : list SagaStepInstance).
#[local] Notation faulty := (faulty (St := St)).
#[local] Notation cid := (msg_ClusterId msg).
#[local] Notation iid := (sr_SagaInstanceId payload).

(** The identifier drawn at the [n]-th question. *)
Definition drawn (n : nat) : string := random_string (env_rand env n) 32.

(** The identifiers drawn at the next [count] questions are different, and
    are not the identifiers of steps of the database. *)
Definition fresh_draws (from count : nat) : Prop :=
  (∀ n m, from ≤ n < from + count → from ≤ m < from + count → drawn n = drawn m → n = m) ∧
  (∀ n c, from ≤ n < from + count → step_rows c com !! drawn n = None).

(** The steps that [buildSteps] makes from the question [t] on. *)
Fixpoint built (t : nat) (state : SagaStepStateEnum) (tids : list string) xs : Prop :=
  match tids, xs with
  | [], [] => True
  | tid :: tids, x :: xs =>
      (∃ eid tmpl, db_saga_step_templates com !! tid = Some tmpl ∧
         x = newSagaStepInstance affinityGroup (drawn t) eid msg payload tid tmpl state) ∧
      built (S (S t)) SagaStepStateEnum_ExecutionPending tids xs
  | _, _ => False
  end.

Lemma built_length t state tids xs : built t state tids xs → length xs = length tids.
Proof.
  revert t state xs. induction tids as [|tid tids IH]; intros t state [|x xs]; simpl; try done.
  intros [_ H]. by rewrite (IH _ _ _ H).
Qed.

Lemma built_ids t state tids xs :
  built t state tids xs → ssi_InstanceId <$> xs = (λ i, drawn (t + 2 * i)) <$> seq 0 (length tids).
Proof.
  revert t state xs. induction tids as [|tid tids IH]; intros t state [|x xs]; try done.
  intros [(eid & tmpl & _ & ->) H]. csimpl. f_equal; [by rewrite Nat.add_0_r|].
  rewrite (IH _ _ _ H), <-(fmap_S_seq 0), <-list_fmap_compose. apply list_fmap_ext.
  intros i k _. simpl. f_equal. lia.
Qed.

(** What all of them have in common. *)
Lemma built_all (P : SagaStepInstance → Prop) t state tids xs :
  (∀ n eid tid tmpl st, db_saga_step_templates com !! tid = Some tmpl →
     P (newSagaStepInstance affinityGroup (drawn n) eid msg payload tid tmpl st)) →
  built t state tids xs → Forall P xs.
Proof.
  intros HP. revert t state xs. induction tids as [|tid tids IH]; intros t state [|x xs]; try done.
  intros [(eid & tmpl & Ht & ->) H]. constructor; [by apply HP|by eapply IH].
Qed.

Lemma built_templates t state tids xs :
  built t state tids xs → ssi_SagaStepTemplateId <$> xs = tids.
Proof.
  revert t state xs. induction tids as [|tid tids IH]; intros t state [|x xs]; try done.
  intros [(eid & tmpl & _ & ->) H]. csimpl. by rewrite (IH _ _ _ H).
Qed.

Lemma built_states t state tids xs :
  built t state tids xs →
  ssi_State <$> xs = match tids with
                     | [] => []
                     | _ :: tids => state :: replicate (length tids) SagaStepStateEnum_ExecutionPending
                     end.
Proof.
  revert t state xs. induction tids as [|tid tids IH]; intros t state [|x xs]; try done.
  intros [(eid & tmpl & _ & ->) H]. csimpl. rewrite (IH _ _ _ H). by destruct tids.
Qed.

(** [buildSteps], in the transaction. *)
Lemma buildSteps_spec state tids w (Q : result (list SagaStepInstance) → World St → Prop) :
  in_tx com (λ d, d = com) w →
  (∀ xs w', built (w_tick w) state tids xs → in_tx com (λ d, d = com) w' → Q (Ok xs) w') →
  (∀ e w', faulty ∨ Exists (λ tid, db_saga_step_templates com !! tid = None) tids →
     idle com w' → Q (Err e) w') →
  wp (buildSteps env affinityGroup msg payload state tids) (returns Q) w.
Proof.
  revert state w Q. induction tids as [|tid tids IH]; intros state w Q Ht HO HE.
  { apply wp_ret. by apply HO. }
  simpl. apply wp_or_else, wp_call_tick.
  eapply (tx_query _ _ _ _ (law_GetSagaStepTemplate _)); [exact Ht|by intros d _ []|..].
  2: { intros e w1 Ht1 He _. apply wp_bind_ret. eapply tx_rollback; [by eapply in_tx_open|].
       intros r w2 Hi2. apply wp_ret. apply HE; [|done].
       destruct He as [(d & -> & Hn & _)|[? _]]; [right; by left|by left]. }
  intros tmpl d w1 -> Htm _ Ht1 Hk1.
  apply wp_bind_ret, wp_rand_tick. intros w2 E2 Hk2.
  apply wp_bind_ret, wp_rand_tick. intros w3 E3 Hk3. apply wp_or_else.
  eapply IH; [by eapply in_tx_wv; [exact Ht1|congruence]|..].
  - intros xs w4 Hb Ht4. apply wp_ret. apply HO; [|done]. split.
    + exists (drawn (w_tick w2)), tmpl. split; [done|]. unfold drawn. by rewrite Hk1.
    + by rewrite Hk3, Hk2, Hk1 in Hb.
  - intros e w4 He Hi4. apply wp_ret, HE; [|done]. destruct He as [?|He]; [by left|right].
    by apply Exists_cons_tl.
Qed.

(** ** The rows *)

(** [SaveSagaInstanceIdempotently] *)
Lemma tx_SaveSagaInstance g w (Q : result bool → World St → Prop) :
  db_ok com → si_ClusterId g = cid → si_InstanceId g = iid → in_tx com (λ d, d = com) w →
  (∀ w', (∃ k g', saga_rows cid com !! k = Some g' ∧
            saga_SagaIdempotencyKey g' = saga_SagaIdempotencyKey g) →
     in_tx com (λ d, d = com) w' → Q (Ok false) w') →
  (∀ ts w', saga_rows cid com !! iid = None →
     ¬ (∃ k g', saga_rows cid com !! k = Some g' ∧
          saga_SagaIdempotencyKey g' = saga_SagaIdempotencyKey g) →
     in_tx com (building cid iid com (saga_inserted ts g) []) w' → Q (Ok true) w') →
  (∀ e w', faulty ∨ ¬ has_tables cid com ∨ is_Some (saga_rows cid com !! iid) ∨
             db_saga_templates com !! si_SagaTemplateId g = None → open_tx com w' → Q (Err e) w') →
  wp (call (SaveSagaInstanceIdempotently g)) (returns Q) w.
Proof.
  intros Hok Hgc Hgi (d & b & Hw & HP & Hb) HF HT HE.
  apply (wp_call _ _ _ _ (law_SaveSagaInstanceIdempotently g)). intros r w1 _ (r1 & v1 & Hq & Hk).
  rewrite Hw in Hq. rewrite Hgc in *. destruct r1 as [ex|e].
  2: { destruct Hk as [-> Hv]. destruct Hq as [(_ & [] & _)|(_ & Hx & b' & _ & Hv1)].
       apply HE; [|exists (d, b'); by rewrite Hv, Hv1]. unfold v_alive, v_cur in Hx. simpl in Hx.
       destruct b; [left; auto|]. rewrite (HP eq_refl) in Hx.
       destruct Hx as [?|[Hx|Hx]]; [by left|done|right; left].
       intros [[? ?] _]. congruence. }
  destruct Hq as [Ha (d1 & [Hex ->] & ->)]. unfold v_alive, v_cur in *. simpl in *. subst b.
  rewrite (HP eq_refl) in *. clear HP Hb. unfold sql_saga_key_exists in Hex.
  destruct (saga_table cid com) as [t|] eqn:Ht; [|done]. injection Hex as <-.
  destruct (saga_key_taken _ _ _) eqn:Hkt; unfold saga_key_taken in Hkt; rename Hkt into Hexi.
  - destruct Hk as [-> Hv]. apply HF; [|by exists com, false].
    apply bool_decide_eq_true, Exists_exists in Hexi as (g' & Hg' & Hkey).
    apply list_elem_of_fmap in Hg' as ([k z] & -> & Hz%elem_of_map_to_list). eauto.
  - destruct Hk as (r2 & v2 & Hu & Hk). destruct r2 as [[]|e].
    + destruct Hk as [-> Hv]. destruct Hu as [_ (d2 & (ts & Hd2) & ->)]. unfold v_cur, v_put in *. simpl in *.
      apply (HT ts).
      * unfold sql_insert_saga in Hd2. rewrite Hgc, Ht in Hd2. unfold saga_rows. rewrite Ht. simpl.
        rewrite lookup_fmap. rewrite Hgi in Hd2. by destruct (t !! iid).
      * intros (k & g' & Hg' & Hkey). apply bool_decide_eq_false in Hexi. apply Hexi, Exists_exists. exists g'. split; [|done].
        apply list_elem_of_fmap. exists (k, g'). split; [done|]. by apply elem_of_map_to_list.
      * exists d2, false. split; [done|]. split; [|done]. intros _. by apply building_saga.
    + destruct Hk as [-> Hv]. destruct Hu as [(_ & [] & _)|(_ & Hx & b' & _ & ->)].
      apply HE; [|exists (com, b'); by rewrite Hv]. unfold v_alive, v_cur in Hx. simpl in Hx.
      destruct Hx as [?|[Hx|(ts & e' & Hx)]]; [by left|done|right; right].
      unfold sql_insert_saga in Hx. rewrite Hgc, Hgi, Ht in Hx. unfold saga_rows. rewrite Ht. simpl.
      rewrite lookup_fmap. destruct (t !! iid) as [?|]; [left; by eexists|right].
      unfold saga_key_taken in Hx. rewrite Hexi in Hx. simpl in Hx.
      by destruct (db_saga_templates com !! _).
Qed.

(** [SaveSagaStepInstanceIdempotently] for a step whose identifier is new. *)
Lemma tx_SaveSagaStepInstance g ss x w (Q : result bool → World St → Prop) :
  db_ok com → in_tx com (building cid iid com g ss) w →
  ssi_ClusterId x = cid → ssi_SagaInstanceId x = iid →
  fresh_id (cid := cid) (com := com) ss x → no_dot (ssi_InstanceId x) = true →
  Forall (λ y, no_dot (ssi_InstanceId y) = true) ss →
  is_Some (db_saga_templates com !! ssi_SagaTemplateId x) →
  is_Some (db_saga_step_templates com !! ssi_SagaStepTemplateId x) →
  (∀ ts w', in_tx com (building cid iid com g (ss ++ [step_inserted ts x])) w' →
     Q (Ok true) w') →
  (∀ e w', faulty → open_tx com w' → Q (Err e) w') →
  wp (call (SaveSagaStepInstanceIdempotently x)) (returns Q) w.
Proof.
  intros Hok (d & b & Hw & HP & Hb) Hxc Hxs Hfr Hdx Hds Ht1 Ht2 HT HE.
  apply (wp_call _ _ _ _ (law_SaveSagaStepInstanceIdempotently x)).
  intros r w1 _ (r1 & v1 & Hq & Hk). rewrite Hw in Hq. rewrite Hxc in *. destruct r1 as [ex|e].
  2: { destruct Hk as [-> Hv]. destruct Hq as [(_ & [] & _)|(_ & Hx & b' & _ & Hv1)].
       apply HE; [|exists (d, b'); by rewrite Hv, Hv1]. unfold v_alive, v_cur in Hx. simpl in Hx.
       destruct b; [auto|]. destruct Hx as [?|[Hx|Hx]]; [done|done|exfalso].
       destruct (bu_tables _ _ _ _ _ _ (HP eq_refl)) as [_ [? ?]]. congruence. }
  destruct Hq as [Ha (d1 & [Hex ->] & ->)]. unfold v_alive, v_cur in *. simpl in *. subst b.
  specialize (HP eq_refl).
  assert (step_key_taken cid (step_SagaIdempotencyKey x) d = false) as Hkt by by eapply building_key_fresh.
  destruct ex; [unfold sql_step_key_exists in Hex; destruct (step_table cid d); [congruence|done]|].
  destruct Hk as (r2 & v2 & Hu & Hk). destruct r2 as [[]|e].
  - destruct Hu as [_ (d2 & (ts & Hd2) & ->)]. unfold v_cur, v_put in *. simpl in *.
    assert (building cid iid com g (ss ++ [step_inserted ts x]) d2) as Hb2
      by by eapply building_step.
    eapply (notify_in_tx _ _ _ com (building cid iid com g (ss ++ [step_inserted ts x])))
      in Hk as [-> (d3 & b3 & Hv & HP3 & Hb3)]; [| |done|].
    + apply (HT ts). by exists d3, b3.
    + done.
    + intros d' n [[] [] ? ?]. by split.
  - destruct Hk as [-> Hv]. destruct Hu as [(_ & [] & _)|(_ & Hx & b' & _ & ->)].
    apply HE; [|exists (d, b'); by rewrite Hv]. unfold v_alive, v_cur in Hx. simpl in Hx.
    destruct Hx as [?|[Hx|(ts & e' & Hx)]]; [done|done|exfalso].
    destruct (building_insert_ok ss d x ts HP Hfr) as [d' Hd']; try done. congruence.
Qed.

(** The loop over the steps. *)
Lemma saveSteps_spec g ss xs w (Q : result unit → World St → Prop) :
  db_ok com → in_tx com (building cid iid com g ss) w →
  Forall (λ y, no_dot (ssi_InstanceId y) = true) (ss ++ xs) →
  NoDup (ssi_InstanceId <$> ss ++ xs) →
  Forall (λ x, ssi_ClusterId x = cid ∧ ssi_SagaInstanceId x = iid ∧
    step_rows cid com !! ssi_InstanceId x = None ∧
    is_Some (db_saga_templates com !! ssi_SagaTemplateId x) ∧
    is_Some (db_saga_step_templates com !! ssi_SagaStepTemplateId x)) xs →
  (∀ ss' w', Forall2 (λ x y, ∃ ts, y = step_inserted ts x) xs ss' →
     in_tx com (building cid iid com g (ss ++ ss')) w' → Q (Ok tt) w') →
  (∀ e w', faulty → idle com w' → Q (Err e) w') →
  wp (saveSteps xs) (returns Q) w.
Proof.
  intros Hok. revert ss w. induction xs as [|x xs IH]; intros ss w Ht Hd Hn Hx HO HE.
  { apply wp_ret. apply (HO []); [done|]. by rewrite app_nil_r. }
  apply Forall_cons in Hx as [(Hxc & Hxs & Hxr & Ht1 & Ht2) Hx]. simpl. apply wp_or_else.
  apply Forall_app in Hd as Hd2. destruct Hd2 as [Hds [Hdx Hdr]%Forall_cons].
  eapply tx_SaveSagaStepInstance; try done.
  { split; [|done]. rewrite fmap_app in Hn. apply NoDup_app in Hn as (_ & Hn & _).
    intros Hin. apply (Hn _ Hin). csimpl. by left. }
  2: { intros e w1 Hfa Ht1'. apply wp_bind_ret. eapply tx_rollback; [done|].
       intros r w2 Hi2. by apply wp_ret, HE. }
  intros ts w1 Ht1'. eapply (IH (ss ++ [step_inserted ts x])); [done| | |done| |done].
  - rewrite <-app_assoc. apply Forall_app. split; [done|]. by constructor.
  - rewrite fmap_app in Hn. rewrite <-app_assoc, fmap_app. done.
  - intros ss' w2 Hss Ht2'. apply (HO (step_inserted ts x :: ss')).
    + constructor; [by exists ts|done].
    + by rewrite <-app_assoc in Ht2'.
Qed.
(** ** The submission *)

(** The state of the steps of a new saga. *)
Definition initial_states (tids : list string) : list SagaStepStateEnum :=
  match tids with
  | [] => []
  | _ :: tids =>
      SagaStepStateEnum_ExecutionCandidate ::
        replicate (length tids) SagaStepStateEnum_ExecutionPending
  end.

Definition submission_key : string :=
  getSagaIdempotencyKey cid (sr_ZoneId payload) (sr_SagaTemplateId payload) iid.

(** A saga with the key of the request is in the database. *)
Definition known (d : DB) : Prop :=
  ∃ k g, saga_rows cid d !! k = Some g ∧ saga_SagaIdempotencyKey g = submission_key.

(** The saga is there, complete, as the template and the request say. *)
Definition created (com' : DB) : Prop :=
  ∃ tmpl eid ts ss,
    db_saga_templates com !! sr_SagaTemplateId payload = Some tmpl ∧
    saga_rows cid com !! iid = None ∧ ¬ known com ∧
    at_saga cid iid com
      (saga_inserted ts (set_si_SagaInstanceIds (ssi_InstanceId <$> ss)
                           (newSagaInstance eid msg payload tmpl))) ss com' ∧
    ssi_SagaStepTemplateId <$> ss = st_SagaStepTemplateIds tmpl ∧
    ssi_State <$> ss = initial_states (st_SagaStepTemplateIds tmpl) ∧
    Forall (λ y, ssi_ExecutionHistory y = [] ∧ ssi_Affinity y = affinityGroup) ss.

(** The request cannot be met. *)
Definition rejects : Prop :=
  ¬ has_tables cid com ∨ is_Some (saga_rows cid com !! iid) ∨
  db_saga_templates com !! sr_SagaTemplateId payload = None ∨
  ∃ tmpl, db_saga_templates com !! sr_SagaTemplateId payload = Some tmpl ∧
    Exists (λ tid, db_saga_step_templates com !! tid = None) (st_SagaStepTemplateIds tmpl).

Lemma created_inv com' : db_ok com → created com' → db_ok com'.
Proof.
  intros Hok (tmpl & eid & ts & ss & _ & _ & _ & Hat & Htid & Hst & Hh).
  eapply db_ok_at; [done|done|]. rewrite Forall_and in Hh. destruct Hh as [Hh _].
  assert (Forall history_ok ss ∧ match ss with
    | [] => True
    | x :: post => ssi_State x = SagaStepStateEnum_ExecutionCandidate ∧ Forall Pending post
    end) as [Hok' Hss].
  { assert (∀ n l, ssi_State <$> l = replicate n SagaStepStateEnum_ExecutionPending →
      Forall Pending l) as Hrep.
    { intros n l. revert n. induction l as [|y l IH]; intros [|n]; try done.
      csimpl. intros [= Hy Hl]. constructor; [done|by eapply IH]. }
    rewrite <-Htid in Hst. destruct ss as [|x post]; [done|]. csimpl in Hst.
    injection Hst as Hx Hpost. apply Hrep in Hpost. split; [|done].
    apply Forall_forall. intros y Hy. rewrite Forall_forall in Hh. apply Hh in Hy as Hhy.
    unfold history_ok. apply elem_of_cons in Hy as [->|Hy]; [by rewrite Hx|].
    rewrite Forall_forall in Hpost. apply Hpost in Hy. unfold in_state in Hy. by rewrite Hy. }
  split; [|done]. destruct ss as [|x post].
  - apply shape_done; [done|]. by right; right; right.
  - destruct Hss as [Hx Hpost]. apply (shape_forward _ []); [done|by rewrite Hx|done|by left].
Qed.

(** The steps in memory when the links are set. *)
Lemma linked_steps_ok t tmpl xs :
  db_saga_templates com !! sr_SagaTemplateId payload = Some tmpl →
  built t SagaStepStateEnum_ExecutionCandidate (st_SagaStepTemplateIds tmpl) xs →
  fresh_draws t (2 * length (st_SagaStepTemplateIds tmpl)) →
  let ys := linkSteps "" xs in
  Forall (λ y, no_dot (ssi_InstanceId y) = true ∧ ssi_InstanceId y ≠ "") ys ∧
  NoDup (ssi_InstanceId <$> ys) ∧
  Forall (λ x, ssi_ClusterId x = cid ∧ ssi_SagaInstanceId x = iid ∧
    step_rows cid com !! ssi_InstanceId x = None ∧
    is_Some (db_saga_templates com !! ssi_SagaTemplateId x) ∧
    is_Some (db_saga_step_templates com !! ssi_SagaStepTemplateId x)) ys ∧
  Forall (λ y, ssi_ExecutionHistory y = [] ∧ ssi_Affinity y = affinityGroup) ys ∧
  linked "" ys ∧ ssi_InstanceId <$> ys = ssi_InstanceId <$> xs ∧
  ssi_SagaStepTemplateId <$> ys = st_SagaStepTemplateIds tmpl ∧
  ssi_State <$> ys = initial_states (st_SagaStepTemplateIds tmpl).
Proof.
  intros Htmpl Hb [Hinj Hnew] ys.
  assert (∀ (P : SagaStepInstance → Prop), (∀ p n x, P x →
      P (set_ssi_NextSagaStepInstanceId n (set_ssi_PreviousSagaStepInstanceId p x))) →
    Forall P xs → Forall P ys) as Hlink.
  { intros P HP. unfold ys. generalize "". induction xs as [|x xs' IH]; intros p; [done|].
    intros [Hx Hxs]%Forall_cons. simpl. constructor; [by apply HP|]. clear IH Hb.
    generalize (ssi_InstanceId x). clear p Hx. induction Hxs as [|y l Hy Hl IH]; intros p; [done|].
    simpl. constructor; [by apply HP|apply IH]. }
  assert (ssi_InstanceId <$> ys = ssi_InstanceId <$> xs) as Hids by by apply linkSteps_fields.
  pose proof (built_ids _ _ _ _ Hb) as Hdr.
  assert (Forall (λ i, ∃ n, t ≤ n < t + 2 * length (st_SagaStepTemplateIds tmpl) ∧ i = drawn n)
    (ssi_InstanceId <$> xs)) as Hall.
  { rewrite Hdr. apply Forall_forall. intros i (k & -> & Hk)%list_elem_of_fmap.
    apply elem_of_seq in Hk. exists (t + 2 * k). split; [lia|done]. }
  split; [|split; [|split; [|split; [|split; [|split; [done|split]]]]]].
  - apply Hlink; [done|]. eapply built_all; [|exact Hb]. intros n eid tid st tm _.
    change (no_dot (drawn n) = true ∧ drawn n ≠ "").
    split; [apply random_string_no_dot|apply random_string_nonempty; lia].
  - rewrite Hids, Hdr. apply NoDup_fmap_2_strong; [|apply NoDup_seq].
    intros a b Ha Hb' Heq. apply elem_of_seq in Ha, Hb'. apply Hinj in Heq; lia.
  - rewrite <-Hids in Hall. rewrite Forall_fmap in Hall.
    assert (Forall (λ x, ssi_ClusterId x = cid ∧ ssi_SagaInstanceId x = iid ∧
      is_Some (db_saga_templates com !! ssi_SagaTemplateId x) ∧
      is_Some (db_saga_step_templates com !! ssi_SagaStepTemplateId x)) ys) as Hf.
    { apply Hlink; [done|]. eapply built_all; [|exact Hb]. intros n eid tid st tm Ht. simpl.
      split; [done|]. split; [done|]. rewrite Htmpl, Ht. split; by eexists. }
    eapply Forall_impl; [apply Forall_and; split; [exact Hall|exact Hf]|].
    intros y [(n & Hn & Hy) (H1 & H2 & H3 & H4)]. simpl in Hy. rewrite Hy.
    split; [done|]. split; [done|]. split; [by apply Hnew|done].
  - apply Hlink; [done|]. by eapply built_all; [|exact Hb].
  - apply linkSteps_linked. by eapply built_all; [|exact Hb].
  - rewrite <-(built_templates _ _ _ _ Hb). by apply linkSteps_fields.
  - unfold ys. rewrite linkSteps_fields by done. by eapply built_states.
Qed.
Lemma inserted_fields {A} (f : SagaStepInstance → A) xs ss :
  (∀ ts x, f (step_inserted ts x) = f x) →
  Forall2 (λ x y, ∃ ts, y = step_inserted ts x) xs ss → f <$> ss = f <$> xs.
Proof.
  intros Hf. induction 1 as [|x y xs ss (ts & ->) _ IH]; csimpl; [done|]. by rewrite Hf, IH.
Qed.

Lemma inserted_linked prev xs ss :
  Forall2 (λ x y, ∃ ts, y = step_inserted ts x) xs ss → linked prev xs → linked prev ss.
Proof.
  intros H. revert prev. induction H as [|x y xs ss (ts & ->) H IH]; intros prev; [done|].
  simpl. intros (Hp & Hn & Hl). split; [done|]. split; [|by apply IH].
  rewrite Hn. by destruct H as [|? ? ? ? (? & ->) _].
Qed.

Lemma inserted_all (P : SagaStepInstance → Prop) xs ss :
  (∀ ts x, P x → P (step_inserted ts x)) →
  Forall2 (λ x y, ∃ ts, y = step_inserted ts x) xs ss → Forall P xs → Forall P ss.
Proof.
  intros HP. induction 1 as [|x y xs ss (ts & ->) _ IH]; [done|].
  intros [Hx Hxs]%Forall_cons. constructor; auto.
Qed.

(** The saved rows make the saga complete. *)
Lemma built_created t tmpl eid ts xs ss d :
  db_saga_templates com !! sr_SagaTemplateId payload = Some tmpl →
  saga_rows cid com !! iid = None → ¬ known com →
  built t SagaStepStateEnum_ExecutionCandidate (st_SagaStepTemplateIds tmpl) xs →
  fresh_draws t (2 * length (st_SagaStepTemplateIds tmpl)) →
  Forall2 (λ x y, ∃ ts, y = step_inserted ts x) (linkSteps "" xs) ss →
  building cid iid com (saga_inserted ts (set_si_SagaInstanceIds (ssi_InstanceId <$> xs)
    (newSagaInstance eid msg payload tmpl))) ss d →
  created d ∧ known d.
Proof.
  intros Htmpl Hn Hkn Hb Hfr Hins Hbu.
  destruct (linked_steps_ok _ _ _ Htmpl Hb Hfr) as (Hd & _ & _ & Hh & Hl & Hids & Htids & Hst).
  split.
  - exists tmpl, eid, ts, ss. split; [done|]. split; [done|]. split; [done|].
    split; [|split; [|split]].
    + assert (ssi_InstanceId <$> ss = ssi_InstanceId <$> xs) as ->.
      { rewrite <-Hids. by apply inserted_fields. }
      split; [|apply Hbu]. apply Forall_and in Hd as [Hd Hne]. eapply building_focus; [done|done|..].
      * by eapply inserted_linked.
      * by eapply inserted_all.
      * by eapply inserted_all; [|done|exact Hd].
    + rewrite <-Htids. by apply inserted_fields.
    + rewrite <-Hst. by apply inserted_fields.
    + by eapply inserted_all.
  - eexists iid, _. split; [apply Hbu|done].
Qed.

Definition submission_outcome (ready : bool) (r : result unit) (com' : DB) : Prop :=
  ((faulty ∨ ready = false ∨ rejects ∨ known com) ∧ com' = com ∨ created com') ∧
  (is_ok r = true → known com').

(** The whole call. *)
Lemma submitSaga_outcome (ready : bool) w :
  idle com w → db_ok com →
  (∀ tmpl, db_saga_templates com !! sr_SagaTemplateId payload = Some tmpl →
     fresh_draws (S (w_tick w)) (2 * length (st_SagaStepTemplateIds tmpl))) →
  wp (submitSaga env affinityGroup ready msg (Some payload))
    (returns (λ r w', ∃ com', idle com' w' ∧ submission_outcome ready r com')) w.
Proof.
  intros Hi Hok Hfr.
  assert (∀ e w', faulty ∨ ready = false ∨ rejects → idle com w' →
    wp (ret (Err e) : M (World St) (result unit))
      (returns (λ r w', ∃ com', idle com' w' ∧ submission_outcome ready r com')) w') as Hkeep.
  { intros e w' Hk Hi'. apply wp_ret. exists com. split; [done|]. split; [left|done].
    split; [|done]. destruct Hk as [?|[?|?]]; auto. }
  assert (∀ (e : goerror) w', faulty ∨ rejects → open_tx com w' →
    wp (bind (call RollbackTransaction) (λ _, ret (Err e)) : M (World St) (result unit))
      (returns (λ r w', ∃ com', idle com' w' ∧ submission_outcome ready r com')) w') as Hback.
  { intros e w' Hk Ho. apply wp_bind_ret. eapply tx_rollback; [done|]. intros r w2 Hi2.
    apply Hkeep; [|done]. destruct Hk; auto. }
  unfold submitSaga. apply wp_if; intros Hr; [apply Hkeep; [|done]; right; left; by destruct ready|].
  apply wp_or_else, wp_call_tick. eapply idle_begin; [done| |by intros; apply Hkeep; [left|]].
  intros w1 Ht1 Hk1. apply wp_or_else, wp_call_tick.
  eapply (tx_query _ _ _ _ (law_GetSagaTemplate _)); [exact Ht1|by intros d _ []|..].
  2: { intros e w2 Ht2 He _. apply Hback; [|by eapply in_tx_open].
       destruct He as [(d & -> & Hn & _)|[? _]]; [right|by left]. by right; right; left. }
  intros tmpl d w2 -> Htmpl _ Ht2 Hk2. specialize (Hfr _ Htmpl).
  apply wp_bind_ret, wp_rand_tick. intros w3 E3 Hk3. set (eid := random_string _ 32).
  assert (S (w_tick w) = w_tick w3) as Htick by congruence. rewrite Htick in Hfr.
  pose proof (in_tx_wv _ _ _ _ Ht2 E3) as Ht3. apply wp_or_else.
  eapply buildSteps_spec; [exact Ht3|..].
  2: { intros e w4 He Hi4. apply Hkeep; [|done]. destruct He as [?|He]; [by left|].
       right; right. right; right; right. by exists tmpl. }
  intros xs w4 Hb Ht4. set (g := set_si_SagaInstanceIds _ _).
  destruct (linked_steps_ok _ _ _ Htmpl Hb Hfr) as (Hd & Hnd & Hx & _).
  apply wp_or_else. eapply (tx_SaveSagaInstance g); [done|done|done|exact Ht4|..].
  3: { intros e w5 He Ho. apply Hback; [|done]. destruct He as [?|[?|[?|?]]]; [by left|right..].
       - by left.
       - by right; left.
       - by right; right; left. }
  - intros w5 Hex Ht5. apply wp_bind_ret, wp_ret.
    apply wp_or_else. eapply tx_commit; [exact Ht5|..].
    + intros com' w6 -> Hi6. apply wp_ret. exists com. split; [done|].
      split; [left; by auto|intros _; by apply Hex].
    + intros e com' w6 Hfa Hc Hi6. assert (com' = com) as -> by (by destruct Hc).
      apply Hkeep; [by left|done].
  - intros ts w5 Hn Hkn Ht5. apply wp_bind_ret. apply Forall_and in Hd as Hd'.
    eapply (saveSteps_spec _ []); [done|exact Ht5|apply Hd'|done|done|..].
    2: { intros e w6 Hfa Hi6. apply Hkeep; [by left|done]. }
    intros ss w6 Hins Ht6. simpl in Ht6. apply wp_or_else. eapply tx_commit; [exact Ht6|..].
    + intros com' w7 Hc Hi7. destruct (built_created _ _ _ _ _ _ _ Htmpl Hn Hkn Hb Hfr Hins Hc).
      apply wp_ret. exists com'. split; [done|]. by split; [right|].
    + intros e com' w7 Hfa [->|Hc] Hi7; [by apply Hkeep; [left|]|].
      destruct (built_created _ _ _ _ _ _ _ Htmpl Hn Hkn Hb Hfr Hins Hc).
      apply wp_ret. exists com'. split; [done|]. by split; [right|].
Qed.

Lemma submission_outcome_ok ready r com' :
  db_ok com → submission_outcome ready r com' → db_ok com'.
Proof. intros Hok [[[_ ->]|Hc] _]; [done|by apply created_inv]. Qed.
End submission.
