(* ===== verification/Locked.v ===== *)
(** * What the coordinator's methods do to the database

    Every method that runs under a saga's lock, and the processing of a
    result, takes a database that satisfies the invariant to one that does:
    with any store that honours the contract, any clock, any broker.  It
    always returns: no panic and no endless loop. *)

From S2P Require Import Prelude GoMonad Model Naming Sequence Validation Database Focus Messages.
From S2P Require Import Store World Rules Coordinator Results Protocol Invariant Transit.
From S2P Require Import HandlerSpecs.

(** ** The step after a handler that asks to be called again *)

Definition unsent (x : SagaStepInstance) : Prop :=
  ∀ log, last (ssi_ExecutionHistory x) = Some log →
    log_ExecutionRequestSentTs log = 0%Z ∧ log_ExecutionResultReceivedTs log = 0%Z.

(** What [memory_ok] needs of the step. *)
Definition ready (x : SagaStepInstance) : Prop :=
  (ssi_State x = SagaStepStateEnum_ExecutionRunning ∨
   ssi_State x = SagaStepStateEnum_CompensationRunning → unsent x) ∧
  ssi_State x ≠ SagaStepStateEnum_ExecutionFailed.

(** States in which no handler raises an alarm. *)
Definition calm (st : SagaStepStateEnum) : Prop :=
  (forward_active st = true ∨ compensation_active st = true) ∧
    st ≠ SagaStepStateEnum_CompensationBlocked ∨
  st = SagaStepStateEnum_CompensationDone.

Lemma ready_moved st x y :
  moved st x y →
  st ≠ SagaStepStateEnum_ExecutionRunning → st ≠ SagaStepStateEnum_CompensationRunning →
  st ≠ SagaStepStateEnum_ExecutionFailed → calm st → ready y ∧ calm (ssi_State y).
Proof. intros ->%moved_state%eq_sym ????. by split; [split; [naive_solver|]|]. Qed.

Lemma follow_effect_ready env d gm g xm pre x post g' ss' :
  memory_ok gm xm → follow_effect env d gm g xm pre x post g' ss' →
  ∃ x', x' ∈ ss' ∧ ssi_InstanceId x' = ssi_InstanceId x ∧ ready x' ∧ calm (ssi_State x').
Proof.
  intros [Hrun _]. unfold follow_effect.
  destruct (ssi_State xm) eqn:Hx; try done.
  - case_decide; [|done]. intros (_ & _ & _ & x' & (eid & now & ts & ->) & ->). eexists.
    split; [apply elem_of_app; right; by left|]. split; [done|].
    split; [|by left; split; [left|]]. split; [|done]. intros _ log. simpl. by intros [= <-].
  - intros He. apply timeout_effect_unsent in He; [done|]. intros log Hl. apply Hrun; auto.
  - intros (_ & _ & pre' & x' & post' & _ & Hm & _ & ->). exists x'.
    split; [apply elem_of_app; right; by left|]. split; [by destruct Hm as (ts & ->)|].
    eapply ready_moved; [done..|]. by left; split; [right|].
  - intros (_ & _ & _ & _ & x' & (now & ts & ->) & ->). eexists.
    split; [apply elem_of_app; right; by left|]. split; [done|].
    split; [|by left; split; [right|]]. split; [|done].
    intros _ log. simpl. rewrite last_snoc. by intros [= <-].
  - intros He. apply timeout_effect_unsent in He; [done|]. intros log Hl. apply Hrun; auto.
  - intros (x' & Hm & He). exists x'. split.
    { destruct He as [(_ & _ & _ & ->)|(_ & pre0 & p & p' & _ & _ & _ & ->)]; [by left|].
      apply elem_of_app. right. right. by left. }
    split; [by destruct Hm as (ts & ->)|]. eapply ready_moved; [done..|]. by right.
Qed.

(** ** Alarms *)

(** No saga has become invalid. *)
Definition spared (d d' : DB) : Prop :=
  ∀ c i g', saga_rows c d' !! i = Some g' → si_State g' = SagaStateEnum_InvalidState →
    ∃ g, saga_rows c d !! i = Some g ∧ si_State g = SagaStateEnum_InvalidState.

#[export] Instance spared_refl : Reflexive spared.
Proof. intros d c i g. eauto. Qed.

#[export] Instance spared_trans : Transitive spared.
Proof.
  intros d1 d2 d3 H12 H23 c i g' Hg Hst. destruct (H23 _ _ _ Hg Hst) as (g & Hg2 & Hst2).
  by apply (H12 _ _ _ Hg2).
Qed.

Lemma spared_at cid sid d d1 g ss g' ss' d' :
  focus cid sid d g ss → spared d d1 → at_saga cid sid d1 g' ss' d' →
  (si_State g' = SagaStateEnum_InvalidState → si_State g = SagaStateEnum_InvalidState) →
  spared d d'.
Proof.
  intros Hf Hsp [Hf' Ho] Hst c i h Hh Hs. destruct (decide ((c, i) = (cid, sid))) as [[= -> ->]|Hne].
  - rewrite (focus_saga _ _ _ _ _ Hf') in Hh. injection Hh as <-. exists g.
    split; [apply Hf|auto].
  - rewrite (out_saga _ _ _ _ Ho) in Hh by done. eauto.
Qed.

Lemma spared_trigger_step d d' : db_ok d → trigger_step d d' → spared d d'.
Proof.
  intros Hok (cid & sid & g & ts & Hg & Hst & ->).
  destruct (ok_sagas _ Hok _ _ _ Hg) as (ss & Hf & Hinv).
  eapply spared_at; [done|done|apply at_saga_saga; [by apply at_saga_refl|apply _]|done].
Qed.

Lemma spared_triggered d d' : triggered d d' → db_ok d → spared d d'.
Proof.
  induction 1 as [|d1 d2 d3 H12 _ IH]; intros Hok; [done|].
  transitivity d2; [by apply spared_trigger_step|]. apply IH. by eapply db_ok_trigger_step.
Qed.

Lemma calm_no_anomaly g pre x post xm :
  saga_inv g (pre ++ x :: post) → in_sync xm x → calm (ssi_State xm) → ¬ anomaly xm pre post.
Proof.
  intros Hinv Hsync [[Hact Hnb]|Hd].
  - rewrite (proj1 Hsync) in *. by eapply saga_inv_no_anomaly.
  - unfold anomaly. rewrite Hd. by intros [].
Qed.

(** No effect makes a saga invalid that was not. *)
Lemma leaves_spares env tmo d gm g xm pre x post kept (wrong : Prop) f g' ss' :
  ¬ wrong →
  (ssi_State xm = SagaStepStateEnum_ExecutionFailed → si_State gm = SagaStateEnum_InvalidState →
   si_State g = SagaStateEnum_InvalidState) →
  leaves g pre x post kept wrong (final_effect env tmo g xm pre x post)
    (follow_effect env d gm g xm pre x post) f g' ss' →
  si_State g' = SagaStateEnum_InvalidState → si_State g = SagaStateEnum_InvalidState.
Proof.
  intros Hw Hgm Hl Hg'.
  assert (∀ st, saga_moved st g g' → si_State g' = st) as Hmv by by intros st (r & ts & ->).
  assert (follow_effect env d gm g xm pre x post g' ss' →
    si_State g = SagaStateEnum_InvalidState) as Hfol.
  { unfold follow_effect. destruct (ssi_State xm) eqn:Hx; try done.
    - case_decide; [|done]. by intros (<- & _).
    - by intros (<- & _).
    - intros (He & _). apply Hmv in He. apply Hgm; [done|congruence].
    - by intros (<- & _).
    - by intros (<- & _).
    - intros (x' & _ & [(_ & He & _)|(<- & _)]); [apply Hmv in He; congruence|done]. }
  assert (final_effect env tmo g xm pre x post g' ss' →
    si_State g = SagaStateEnum_InvalidState) as Hfin.
  { unfold final_effect. destruct (ssi_State xm) eqn:Hx; try done.
    - case_decide; [done|]. by intros (<- & _).
    - case_decide; by intros (<- & _).
    - intros (x' & _ & He). destruct post; [|by destruct He as (<- & _)].
      destruct He as (_ & He & _). apply Hmv in He. congruence.
    - by intros (<- & _).
    - intros (He & _). apply Hmv in He. congruence. }
  destruct Hl; auto; done.
Qed.

Lemma chain_same_id ss x y :
  chain ss → x ∈ ss → y ∈ ss → ssi_InstanceId x = ssi_InstanceId y → x = y.
Proof.
  intros Hc Hx Hy Heq.
  assert (steps_map ss !! ssi_InstanceId x = Some x) as H1 by (by apply steps_map_lookup; [apply Hc|]).
  assert (steps_map ss !! ssi_InstanceId y = Some y) as H2 by (by apply steps_map_lookup; [apply Hc|]).
  rewrite Heq in H1. congruence.
Qed.

Lemma same_step_sync xm y :
  same_step xm y →
  ssi_ClusterId xm = ssi_ClusterId y ∧ ssi_InstanceId xm = ssi_InstanceId y ∧ in_sync xm y.
Proof. intros <-. by repeat split. Qed.

Section methods.
Context {St : Type} `{!Store St, !StoreLaws St} (env : Env).
Context (SubComponent affinityGroup : string) (executionTimeoutMs : Z).
Implicit Types (w : World St).

(** A saga may become invalid when a statement fails, or for another reason
    to raise an alarm. *)
Context (com0 : DB) (alarm : Prop) (Halarm : faulty (St := St) → alarm).

Definition raises com : Prop := spared com0 com ∨ alarm.

(** No transaction is open and the database is well formed. *)
Definition sound w : Prop := ∃ com, idle com w ∧ db_ok com ∧ raises com.

Lemma raises_at cid sid com com1 g ss g' ss' com' :
  raises com → db_ok com → triggered com com1 → focus cid sid com g ss →
  at_saga cid sid com1 g' ss' com' →
  (si_State g' = SagaStateEnum_InvalidState → si_State g = SagaStateEnum_InvalidState) ∨ alarm →
  raises com'.
Proof.
  intros [Hr|?] Hok Ht Hf Hat [Hst|?]; try by right. left. transitivity com; [done|].
  eapply spared_at; [exact Hf| |exact Hat|done]. by apply spared_triggered.
Qed.

#[local] Notation keeps := (returns (λ _ w', sound w')).

(** *** The loop *)

Lemma snoc_view {A} (pre : list A) x post : ∃ l z, pre ++ x :: post = l ++ [z].
Proof.
  destruct post as [|z l _] using rev_ind; [by exists pre, x|].
  exists (pre ++ x :: l), z. by rewrite <-app_assoc.
Qed.

Lemma followUpLoop_sound n cid sid com g pre x post gm xm w :
  idle com w → db_ok com → raises com → focus cid sid com g (pre ++ x :: post) →
  saga_inv g (pre ++ x :: post) →
  si_ClusterId gm = cid → si_InstanceId gm = sid →
  ssi_ClusterId xm = cid → ssi_InstanceId xm = ssi_InstanceId x →
  in_sync xm x → memory_ok gm xm → calm (ssi_State xm) ∨ alarm →
  (ssi_State xm = SagaStepStateEnum_ExecutionFailed → gm = g) →
  wp (followUpLoop env SubComponent affinityGroup executionTimeoutMs n (gm, xm)) keeps w.
Proof.
  revert com g pre x post gm xm w. induction n as [|n IH];
    intros com g pre x post gm xm w Hi Hok Hal Hf Hinv Hgc Hgi Hxc Hxi Hsync Hmem Hcalm Hgm.
  { apply wp_ret. by exists com. }
  simpl. apply wp_bind_ret.
  assert (ssi_State xm = SagaStepStateEnum_CompensationCandidate →
    si_State g ≠ SagaStateEnum_Committed) as Hng.
  { intros Hx Hg. destruct Hinv as [Hs _]. rewrite (proj1 Hsync) in Hx.
    destruct (shape_compensating_inv _ _ _ _ Hs ltac:(by rewrite Hx)) as (_ & _ & Hst).
    destruct Hst as [?|[?|[?|[? _]]]]; congruence. }
  eapply wp_returns_mono; [|eapply processSagaStep_settles; try done].
  2: { intros Hr log Hl. by apply Hmem. }
  intros [f [gm' xm']] w1 (com1 & Htr & _ & com' & Hi1 & g' & ss' & Hat & Hmay & Hfol).
  assert (db_ok com1) as Hok1 by by eapply db_ok_triggered.
  assert (saga_inv g' ss') as Hinv'.
  { eapply leaves_inv; [done| | |exact Hmay]; [by apply final_effect_inv|].
    by apply follow_effect_inv. }
  assert (db_ok com') as Hok' by by eapply db_ok_at.
  assert (raises com') as Hal'.
  { eapply raises_at; [exact Hal|exact Hok|exact Htr|exact Hf|exact Hat|].
    destruct Hcalm as [Hcalm|?]; [left|by right]. simpl in Hmay.
    eapply leaves_spares; [by eapply calm_no_anomaly| |exact Hmay]. by intros ->%Hgm. }
  apply wp_if; intros Hft; [|apply wp_ret; by exists com'].
  destruct (Hfol Hft) as (Hgc' & Hgi' & y & Hy & Hyid & Hsame). simpl in *. subst f.
  apply leaves_true in Hmay as He.
  destruct Hat as [Hf' _].
  destruct (follow_effect_ready _ _ _ _ _ _ _ _ _ _ Hmem He)
    as (x' & Hx' & Hid' & Hready & Hcalm').
  assert (x' = y) as ->. { eapply chain_same_id; [apply Hf'|done..|]. congruence. }
  destruct (same_step_sync _ _ Hsame) as (Hc & Hi' & [Hst Hh]).
  assert (ssi_ClusterId y = cid) as Hyc by by eapply focus_step_cluster.
  apply list_elem_of_split in Hy as (pre' & post' & ->).
  destruct Hready as [Hr Hnf]. rewrite <-Hst in Hcalm', Hnf.
  eapply (IH com' g' pre' y post'); try done; [congruence| |by left].
  split; [|done]. rewrite Hst, Hh. apply Hr.
Qed.

Lemma validateAndProcess_sound cid sid com g pre x post w :
  idle com w → db_ok com → raises com → focus cid sid com g (pre ++ x :: post) →
  saga_inv g (pre ++ x :: post) →
  ssi_State x ≠ SagaStepStateEnum_ExecutionRunning →
  ssi_State x ≠ SagaStepStateEnum_CompensationRunning →
  (forward_active (ssi_State x) = true ∨ compensation_active (ssi_State x) = true) ∧
    ssi_State x ≠ SagaStepStateEnum_CompensationBlocked ∨ alarm →
  wp (validateAndProcess env SubComponent affinityGroup executionTimeoutMs (g, x)) keeps w.
Proof.
  intros Hi Hok Hal Hf Hinv HR Hr Hact. unfold validateAndProcess.
  assert (ssi_ClusterId x = cid) as Hxc by (eapply focus_step_cluster; [done|set_solver]).
  pose proof (focus_saga_cluster _ _ _ Hf) as Hgc. pose proof (focus_id _ _ _ _ _ Hf) as Hgi.
  assert (∀ b w, idle com w → b = true ∨ alarm →
    wp (if negb b then bind (transitSagaToInvalidState g) (λ _, ret tt)
        else followUpLoop env SubComponent affinityGroup executionTimeoutMs 11 (g, x)) keeps w)
    as Hgo.
  { intros b w1 Hi1 Hb. apply wp_if; intros Hn.
    - apply wp_bind_ret. eapply idle_transitSaga; [done|].
      intros r gm' com' w2 Hi2 Hmk. apply wp_ret. exists com'. split; [done|].
      split; [by eapply db_ok_mark|]. destruct Hb as [->|?]; [done|by right].
    - eapply followUpLoop_sound; try done.
      + split; [naive_solver|].
        intros Hx. by apply (shape_forward_inv _ _ _ _ (proj1 Hinv)); rewrite Hx.
      + destruct Hact as [?|?]; [by left; left|by right]. }
  apply wp_bind_ret. eapply isSagaStateValid_spec; try done; intros w'.
  - intros Hi'. apply Hgo; [done|]. destruct Hact as [[Hact _]|?]; [left|by right].
    eapply validSequence_shape; [apply Hinv|done].
  - intros Hfa Hi'. apply Hgo; auto.
Qed.

(** *** The compensation of a committed saga *)

Lemma compensationReasonFor_in_tx gm com P w (Q : string → World St → Prop) :
  in_tx com P w → (∀ d, P d → is_Some (saga_table (si_ClusterId gm) d)) →
  (∀ r w', in_tx com P w' → Q r w') →
  wp (compensationReasonFor gm) (returns Q) w.
Proof.
  intros Ht Htab HQ. unfold compensationReasonFor. apply wp_if; intros _; [by apply wp_ret, HQ|].
  apply wp_bind_ret. destruct Ht as (d & b & Hw & HP & Hb).
  apply (wp_call _ _ _ _ (law_GetSagaInstance _ _)). intros r w1 _ Hspec.
  apply wp_ret, HQ. rewrite Hw in Hspec. destruct r as [a|e].
  - destruct Hspec as [Ha (d' & [_ ->] & Hv)]. by exists d, b.
  - destruct Hspec as [(Ha & _ & Hv)|(_ & Hx & b' & Hb' & Hv)]; [by exists d, b|].
    exists d, b'. split; [done|]. split; [intros ->; destruct b; [by specialize (Hb' eq_refl)|auto]|].
    intros ->. destruct b; [auto|]. destruct Hx as [?|[Hx|Hx]]; [done|done|exfalso].
    destruct (Htab d (HP eq_refl)) as [t Ht]. unfold v_cur in Hx. simpl in Hx. congruence.
Qed.

Lemma initiateCompensationBody_ends cid sid com g pre x (kept wrong : Prop) w :
  (faulty (St := St) → kept) →
  focus cid sid com g (pre ++ [x]) → Forall Done (pre ++ [x]) →
  in_tx com (at_saga cid sid com g (pre ++ [x])) w →
  wp (initiateCompensationBody g (pre ++ [x]) x)
    (returns (λ vo w', body_post cid sid com kept wrong
       (settled cid sid com g pre x [] kept wrong (initiate_effect g pre x) no_effect)
       vo.1 vo.2 w')) w.
Proof.
  intros Hk Hf Hdone Ht. unfold initiateCompensationBody. apply wp_bind_ret.
  pose proof (focus_saga_cluster _ _ _ Hf) as Hgc. pose proof (focus_id _ _ _ _ _ Hf) as Hgi.
  pose proof (focus_cluster_all cid sid com g pre x [] Hf) as Hcl.
  apply Forall_app in Hcl as [Hclpre Hclx]. apply Forall_cons in Hclx as [Hclx _].
  eapply compensationReasonFor_in_tx; [exact Ht|by intros d ?%at_saga_saga_table; rewrite Hgc|].
  intros reason w1 Ht1.
  set (gm := set_si_CompensationReason reason g). apply wp_bind_ret.
  eapply tx_transitStep; [exact Ht1|done..| |by intros; apply wp_abandon_false; auto].
  intros ts w2 Ht2. set (x' := row_step_state _ ts x) in *. apply wp_bind_ret.
  assert (take (pred (length (pre ++ [x]))) (pre ++ [x]) = pre) as ->.
  { rewrite length_app, Nat.add_comm. simpl. apply take_app_length. }
  eapply (tx_range cid sid com g (moved SagaStepStateEnum_CompensationPending)
    (λ v w', v = Abandoned false ∧ faulty (St := St) ∧ open_tx com w') _ pre [] [x']); [done|..].
  { intros pre1 y post1 w3 Hy Ht3. apply (tx_turn cid sid com g gm); [done| |done|done].
    by eapply Forall_forall in Hclpre. }
  2: { intros v w3 (-> & Hfa & Ht3). by apply wp_abandon_false; auto. }
  intros pre' w3 Hpre' Ht3. simpl in Ht3. apply wp_or_else.
  eapply tx_UpdateSagaState; [exact Ht3| | |by intros; apply wp_abandon_false; auto].
  { simpl. rewrite Hgc. by intros d ?%at_saga_saga_table. }
  intros ts4 w4 Ht4. apply (commit_final cid sid com g pre x [] Hf kept wrong Hk _ _
    (row_saga_state SagaStateEnum_Running reason ts4 g) (pre' ++ [x'])).
  - revert Ht4. apply in_tx_mono. intros d' (d & Hat & ->). simpl. rewrite Hgc, Hgi.
    by apply at_saga_saga; [|apply _].
  - split; [by eexists _, ts4|]. split; [done|]. exists pre', x'.
    split; [done|]. split; [by exists ts|done].
Qed.

Lemma initiateCompensation_settles cid sid com g pre x w :
  idle com w → focus cid sid com g (pre ++ [x]) → Forall Done (pre ++ [x]) →
  wp (initiateCompensationForCommittedSaga g)
    (returns (λ _ w', ∃ o com', idle com' w' ∧
       settled cid sid com g pre x [] (faulty (St := St)) False
         (initiate_effect g pre x) no_effect o com')) w.
Proof.
  intros Hi Hf Hdone. unfold initiateCompensationForCommittedSaga.
  pose proof (focus_saga_cluster _ _ _ Hf) as Hgc. pose proof (focus_id _ _ _ _ _ Hf) as Hgi.
  apply wp_or_else. eapply idle_listSteps; [done..| |].
  2: { intros e w1 Hfa Hi1. apply wp_ret. exists (false, (g, x)), com. split; [done|].
       by apply settled_keep. }
  intros all w1 Ho Hp Hi1. destruct all as [|y all].
  { apply Permutation_nil_l in Hp. by destruct pre. }
  apply wp_bind_ret. eapply wp_orderSteps; [done|].
  apply wp_if; intros Hd; [|clear Hd].
  { apply negb_true_iff, not_true_iff_false in Hd. by destruct Hd; apply forallb_in_state. }
  rewrite last_snoc. apply wp_bind_ret. eapply wp_returns_mono.
  2: { eapply (in_transaction_settles cid sid com g pre x [] Hf faulty False); [done..|].
       intros w2 Ht2. by apply initiateCompensationBody_ends. }
  intros fo w2 (com' & Hi2 & Hs). apply wp_ret. by exists fo, com'.
Qed.

Lemma initiate_spares g pre x (kept : Prop) f g' ss' :
  leaves g pre x [] kept False (initiate_effect g pre x) no_effect f g' ss' →
  si_State g' = SagaStateEnum_InvalidState → si_State g = SagaStateEnum_InvalidState.
Proof. by destruct 1 as [? ? ((r & ts & ->) & _)| | | |]. Qed.

Lemma initiateCompensation_sound cid sid com g pre x w :
  idle com w → db_ok com → raises com → focus cid sid com g (pre ++ [x]) → saga_inv g (pre ++ [x]) →
  Forall Done (pre ++ [x]) →
  wp (initiateCompensationForCommittedSaga g) keeps w.
Proof.
  intros Hi Hok Hal Hf Hinv Hdone.
  eapply wp_returns_mono; [|by eapply initiateCompensation_settles].
  intros [] w' ([f o] & com' & Hi' & g' & ss' & Hat & Hmay & _). exists com'. split; [done|].
  split; [|eapply raises_at; [done|done|apply rtc_refl|done|done|left];
    by eapply initiate_spares].
  eapply db_ok_at; [done|done|]. eapply leaves_inv; [exact Hinv| | |exact Hmay]; [|done].
  apply initiate_effect_inv.
Qed.

(** *** Under the lock *)

Lemma wp_Mutex_at com (cb : M (World St) unit) w :
  idle com w → sound w → (∀ w, idle com w → wp cb keeps w) → wp (Mutex env cb) keeps w.
Proof.
  intros Hi Hs Hcb. unfold Mutex. apply wp_bind_ret.
  unfold wp, tick. simpl. destruct (env_lock env (w_tick w)).
  - apply wp_bind_ret. eapply wp_returns_mono; [|by apply Hcb].
    intros u w' Hs'. by apply wp_ret.
  - by apply wp_ret.
Qed.

Lemma wp_Mutex (cb : M (World St) unit) w :
  sound w → (∀ w, sound w → wp cb keeps w) → wp (Mutex env cb) keeps w.
Proof.
  intros Hs Hcb. destruct (Hs) as (com & Hi & Hok & Hal). apply (wp_Mutex_at com); [done|done|].
  intros w' Hi'. apply Hcb. by exists com.
Qed.

Lemma refresh_spec cid sid xid com w (Q : option objects → World St → Prop) :
  idle com w → db_ok com →
  (∀ w', idle com w' → Q None w') →
  (∀ g pre x post w', idle com w' → focus cid sid com g (pre ++ x :: post) →
     saga_inv g (pre ++ x :: post) → ssi_InstanceId x = xid → Q (Some (g, x)) w') →
  wp (refresh cid sid xid) (returns Q) w.
Proof.
  intros Hi Hok HN HS. unfold refresh. apply wp_or_else.
  eapply (idle_query_any _ _ _ _ (law_GetSagaInstance _ _)); [exact Hi|..].
  2: { intros e w1 Hi1. by apply wp_ret, HN. }
  intros g w1 Hg%sql_select_saga_ok Hi1. destruct (ok_sagas _ Hok _ _ _ Hg) as (ss & Hf & Hinv).
  apply wp_or_else.
  eapply (idle_query_any _ _ _ _ (law_ListSagaStepInstancesBySagaInstanceId _ _)); [exact Hi1|..].
  2: { intros e w2 Hi2. by apply wp_ret, HN. }
  intros all w2 [_ Hp] Hi2. apply wp_ret.
  destruct (list_find _ all) as [[i x]|] eqn:Hfind; [|by apply HN].
  apply list_find_Some in Hfind as (Hx & Hid & _).
  assert (x ∈ ss) as Hin.
  { apply list_elem_of_lookup_2 in Hx. rewrite Hp, (focus_steps _ _ _ _ _ Hf) in Hx.
    by rewrite steps_map_to_list in Hx by apply Hf. }
  apply list_elem_of_split in Hin as (pre & post & ->). by eapply HS.
Qed.

Lemma processPolledStep_sound cid x w :
  sound w →
  wp (processPolledStep env SubComponent affinityGroup executionTimeoutMs cid x) keeps w.
Proof.
  intros Hs. unfold processPolledStep. apply wp_bind_ret.
  eapply wp_returns_mono; [|apply wp_Mutex; [exact Hs|]].
  { intros r w' H. by apply wp_ret. }
  clear w Hs. intros w (com & Hi & Hok & Hal). apply wp_bind_ret. eapply refresh_spec; [done..| |].
  { intros w1 Hi1. apply wp_ret. by exists com. }
  intros g pre y post w1 Hi1 Hf Hinv Hid.
  apply wp_if; intros Hg.
  { apply bool_decide_eq_true in Hg. destruct (snoc_view pre y post) as (l & z & Hz).
    rewrite Hz in *. eapply initiateCompensation_sound; [done..|].
    eapply shape_committed_inv; [apply Hinv|by right]. }
  simpl.
  destruct (ssi_State y) eqn:Hy; try (apply wp_ret; by exists com).
  all: try by destruct (shape_known _ _ _ _ (proj1 Hinv)).
  all: eapply validateAndProcess_sound; try done; rewrite ?Hy; try done; left; split; auto.
Qed.

(** States in which the polling loop skips a step and the immediate
    processing does not. *)
Definition overlooked (st : SagaStepStateEnum) : bool :=
  match st with
  | SagaStepStateEnum_ExecutionPending | SagaStepStateEnum_ExecutionAborted
  | SagaStepStateEnum_CompensationPending | SagaStepStateEnum_CompensationBlocked => true
  | _ => false
  end.


Lemma processStepWithMutex_sound sp w :
  sound w →
  (∀ com y, idle com w → step_rows (sp_ClusterId sp) com !! sp_SagaStepInstanceId sp = Some y →
     overlooked (ssi_State y) = true → alarm) →
  wp (processStepWithMutex env SubComponent affinityGroup executionTimeoutMs sp) keeps w.
Proof.
  intros (com & Hi & Hok & Hal) Hlook. unfold processStepWithMutex. apply wp_bind_ret.
  assert (∀ y, step_rows (sp_ClusterId sp) com !! sp_SagaStepInstanceId sp = Some y →
    overlooked (ssi_State y) = true → alarm) as Hl by (intros y; by apply Hlook).
  clear Hlook. eapply wp_returns_mono; [|apply (wp_Mutex_at com); [done|by exists com|]].
  { intros r w' H. by apply wp_ret. }
  clear w Hi. intros w1 Hi. apply wp_bind_ret. eapply refresh_spec; [done..| |].
  { intros w2 Hi2. apply wp_ret. by exists com. }
  intros g pre y post w2 Hi2 Hf Hinv Hid. simpl.
  assert (step_rows (sp_ClusterId sp) com !! sp_SagaStepInstanceId sp = Some y) as Hrow.
  { rewrite <-Hid. eapply focus_step_row; [done|set_solver]. }
  destruct (ssi_State y) eqn:Hy; try (apply wp_ret; by exists com).
  all: try by destruct (shape_known _ _ _ _ (proj1 Hinv)).
  all: eapply validateAndProcess_sound; try done; rewrite ?Hy; try done.
  all: first [right; eapply Hl; [done|by rewrite Hy]|left; split; auto].
Qed.
End methods.
