(* ===== verification/ResultSpecs.v ===== *)
(** * What a result does to the database

    The processing of a result, seen from outside: the step it names is left
    alone, or takes the result as [result_effect] says, or the saga it names
    is marked invalid.  A result may be late, a duplicate, or name a step and
    a saga that do not belong together. *)

From S2P Require Import Prelude GoMonad Model Naming Sequence Validation Database Focus Messages.
From S2P Require Import Store World Rules Coordinator Results Protocol Invariant Transit.
From S2P Require Import HandlerSpecs.

(** The change of the last log. *)
Definition answered (nowTs : Z) (res : gmap string string) (log : SagaStepExecutionLog) :
    SagaStepExecutionLog :=
  set_log_LogConclusionTs nowTs
    (set_log_ExecutionResult res (set_log_ExecutionResultReceivedTs nowTs log)).

(** The step [x] after the result: the result is kept in the field of its
    direction, noted in the last log, and moves the step to the state the
    status asks for. *)
Definition result_effect (executionResult : SagaStepExecutionResultPayload)
    (x y : SagaStepInstance) : Prop :=
  let res := er_ExecutionResult executionResult in
  ∃ log nowTs x1 x2 ts,
    last (ssi_ExecutionHistory x) = Some log ∧
    x1 = (if log_IsCompensation log then row_step_compensation_result res ts x
          else row_step_result res ts x) ∧
    logged (answered nowTs res) x1 x1 x2 ∧
    match resultTransition (log_IsCompensation log) (er_Status executionResult) with
    | None => y = x2
    | Some (st, _) => moved st x2 y
    end.

(** ** The invariant *)

(** A step that takes a result and has a history is running, or blocked in
    its compensation. *)
Lemma takes_result g pre x post log :
  saga_inv g (pre ++ x :: post) → ignoresResult (ssi_State x) = false →
  last (ssi_ExecutionHistory x) = Some log →
  ssi_State x = SagaStepStateEnum_ExecutionRunning ∧ log_IsCompensation log = false ∨
  compensation_active (ssi_State x) = true ∧ log_IsCompensation log = true.
Proof.
  intros [Hs Hh] Hi Hl. apply history_ok_at in Hh. unfold history_ok in Hh.
  destruct (shape_known _ _ _ _ Hs) as [Hk _].
  destruct (ssi_State x); try done; try (by rewrite Hh in Hl);
    destruct Hh as (log' & Hl' & Hc); rewrite Hl' in Hl; injection Hl as <-; auto.
Qed.

Lemma result_effect_inv executionResult g pre x post y :
  saga_inv g (pre ++ x :: post) → ignoresResult (ssi_State x) = false →
  result_effect executionResult x y → saga_inv g (pre ++ y :: post).
Proof.
  intros Hinv Hi (log & now & x1 & x2 & ts & Hl & Hx1 & Hlog & Hy).
  assert (ssi_State x2 = ssi_State x) as Hst2.
  { destruct Hlog as (ts' & ->). subst x1. by destruct (log_IsCompensation log). }
  assert (last_log_is (log_IsCompensation log) y) as Hly.
  { assert (last_log_is (log_IsCompensation log) x2) as (log2 & Hl2 & Hc2).
    { eapply last_log_is_logged; [|  |exact Hlog]; [done|]. exists log. split; [|done].
      subst x1. by destruct (log_IsCompensation log). }
    exists log2. split; [|done].
    destruct (resultTransition _ _) as [[st r]|]; [|by subst y].
    by rewrite (moved_history _ _ _ Hy). }
  destruct (takes_result _ _ _ _ _ Hinv Hi Hl) as [[Hx Hc]|[Hx Hc]]; rewrite Hc in *.
  - assert (forward_active (ssi_State y) = true ∧ history_ok y) as [Ha Hok].
    { unfold history_ok. destruct (resultTransition _ _) as [[st r]|] eqn:Hr.
      - rewrite (moved_state _ _ _ Hy). unfold resultTransition in Hr.
        by destruct (er_Status executionResult); simplify_eq.
      - subst y. by rewrite Hst2, Hx. }
    apply (replace_forward g pre x post Hinv); [by rewrite Hx|done|done].
  - assert (compensation_active (ssi_State y) = true ∧ history_ok y) as [Ha Hok].
    { unfold history_ok. destruct (resultTransition _ _) as [[st r]|] eqn:Hr.
      - rewrite (moved_state _ _ _ Hy). unfold resultTransition in Hr.
        by destruct (er_Status executionResult); simplify_eq.
      - subst y. rewrite Hst2. by destruct (ssi_State x). }
    by apply (replace_compensating g pre x post Hinv).
Qed.

(** ** The code *)

Section results.
Context {St : Type} `{!Store St, !StoreLaws St} (env : Env).
Context (cid : string) (executionResult : SagaStepExecutionResultPayload).
Context (com : DB).
Implicit Types (w : World St).
#[local] Notation faulty := (faulty (St := St)).

(** The result is not for a step that takes one. *)
Definition ignored : Prop :=
  step_rows cid com !! er_SagaStepInstanceId executionResult = None ∨
  (∃ x, step_rows cid com !! er_SagaStepInstanceId executionResult = Some x ∧
        ignoresResult (ssi_State x) = true) ∨
  saga_rows cid com !! er_SagaInstanceId executionResult = None.

(** The result is for a step that was never started. *)
Definition unexpected : Prop :=
  ∃ x, step_rows cid com !! er_SagaStepInstanceId executionResult = Some x ∧
       ignoresResult (ssi_State x) = false ∧ ssi_ExecutionHistory x = [].

(** The step takes the result. *)
Definition applied (com' : DB) : Prop :=
  ∃ sid g pre x post y, focus cid sid com g (pre ++ x :: post) ∧
    ssi_InstanceId x = er_SagaStepInstanceId executionResult ∧
    ignoresResult (ssi_State x) = false ∧ result_effect executionResult x y ∧
    at_saga cid sid com g (pre ++ y :: post) com'.

(** What may be committed. *)
Definition result_outcome (com' : DB) : Prop :=
  (faulty ∨ (∃ n, env_ctx_done env n = true) ∨ ignored) ∧ com' = com ∨
  unexpected ∧ marked SagaStateEnum_InvalidState cid (er_SagaInstanceId executionResult) com com' ∨
  applied com'.

#[local] Notation kept := (faulty ∨ (∃ n, env_ctx_done env n = true) ∨ ignored).

(** How the body may end. *)
Definition result_post (re : result unit * ending) (w : World St) : Prop :=
  match re.2 with
  | WasCommitted => ∃ com', idle com' w ∧ result_outcome com'
  | NotCommitted None => kept ∧ open_tx com w ∨ ∃ com', idle com' w ∧ result_outcome com'
  | NotCommitted (Some gm) => unexpected ∧ is_Some (saga_table cid com) ∧ open_tx com w ∧
      si_ClusterId gm = cid ∧ si_InstanceId gm = er_SagaInstanceId executionResult
  end.

Lemma failWith_post msg w :
  kept → open_tx com w → wp (failWith msg) (returns result_post) w.
Proof. intros Hk Ht. apply wp_ret. by left. Qed.

Lemma fault_post msg w :
  faulty → open_tx com w → wp (failWith msg) (returns result_post) w.
Proof. intros ?. apply failWith_post. by left. Qed.

Lemma unlessCancelled_post k P w :
  in_tx com P w → (∀ w', in_tx com P w' → wp k (returns result_post) w') →
  wp (unlessCancelled env k) (returns result_post) w.
Proof.
  intros Ht Hk. unfold unlessCancelled. apply wp_bind_ret, wp_ctx_done. intros n w' E.
  assert (in_tx com P w') as Ht' by by eapply in_tx_wv.
  apply wp_if; intros Hn; [|by apply Hk]. apply failWith_post; [|by eapply in_tx_open].
  right; left. by exists n.
Qed.

Lemma commitResult_post P w :
  in_tx com P w → (∀ d, P d → result_outcome d) →
  wp commitResult (returns result_post) w.
Proof.
  intros Ht HP. unfold commitResult. apply wp_or_else. eapply tx_commit; [exact Ht|..].
  - intros com' w' Hc Hi. apply wp_ret. exists com'. auto.
  - intros e com' w' Hfa Hc Hi. apply wp_ret. right. exists com'. split; [done|].
    destruct Hc as [->|Hc]; [left; by auto|auto].
Qed.

Lemma transitByResult_post sid g pre x post x1 x2 gm xm log nowTs ts w :
  focus cid sid com g (pre ++ x :: post) →
  ssi_InstanceId x = er_SagaStepInstanceId executionResult →
  ignoresResult (ssi_State x) = false →
  last (ssi_ExecutionHistory x) = Some log →
  x1 = (if log_IsCompensation log
        then row_step_compensation_result (er_ExecutionResult executionResult) ts x
        else row_step_result (er_ExecutionResult executionResult) ts x) →
  logged (answered nowTs (er_ExecutionResult executionResult)) x1 x1 x2 →
  si_ClusterId gm = cid → ssi_ClusterId xm = cid → ssi_InstanceId xm = ssi_InstanceId x →
  in_tx com (at_saga cid sid com g (pre ++ x2 :: post)) w →
  wp (transitByResult env (log_IsCompensation log) executionResult gm xm)
    (returns result_post) w.
Proof.
  intros Hf Hid Hi Hl Hx1 Hlog Hgc Hxc Hxi Ht. unfold transitByResult.
  assert (ssi_InstanceId x2 = ssi_InstanceId x) as Hid2.
  { destruct Hlog as (ts' & ->). subst x1. by destruct (log_IsCompensation log). }
  assert (∀ y, match resultTransition (log_IsCompensation log) (er_Status executionResult) with
               | None => y = x2 | Some (st, _) => moved st x2 y end →
    ∀ w, in_tx com (at_saga cid sid com g (pre ++ y :: post)) w →
    wp (unlessCancelled env commitResult) (returns result_post) w) as Hend.
  { intros y Hy w' Ht'. eapply unlessCancelled_post; [exact Ht'|]. intros w'' Ht''.
    eapply commitResult_post; [exact Ht''|]. intros d Hat. right; right.
    exists sid, g, pre, x, post, y. do 3 (split; [done|]). split; [|done].
    by exists log, nowTs, x1, x2, ts. }
  destruct (resultTransition _ _) as [[st reason]|]; [|by eapply Hend].
  apply wp_bind_ret.
  eapply tx_transitStep; [exact Ht|done|done|by rewrite Hid2| |by intros; apply fault_post].
  intros ts' w' Ht'. apply wp_bind_ret, wp_spawn. intros w'' E.
  eapply Hend; [by exists ts'|]. by eapply in_tx_wv.
Qed.

(** Storing the result: the object in memory, and the row. *)
Lemma storeResult_post sid g pre x post (isc : bool) w
    (Q : result unit * SagaStepInstance → World St → Prop) :
  ssi_ClusterId x = cid → in_tx com (at_saga cid sid com g (pre ++ x :: post)) w →
  (∀ ts w', let res := er_ExecutionResult executionResult in
     in_tx com (at_saga cid sid com g (pre ++
       (if isc then row_step_compensation_result res ts x else row_step_result res ts x)
         :: post)) w' →
     Q (Ok tt, if isc then set_ssi_CompensationResult res x else set_ssi_Result res x) w') →
  (∀ e xm w', faulty → open_tx com w' → Q (Err e, xm) w') →
  wp (storeResult isc executionResult x) (returns Q) w.
Proof.
  intros Hxc Ht HO HE. unfold storeResult. destruct isc; apply wp_bind_ret;
    (eapply tx_update_step;
      [apply law_UpdateSagaStepCompensationResult||apply law_UpdateSagaStepResult
      |apply _|exact Ht|done|done| |]).
  1, 3: intros ts w' Ht'; apply wp_ret; by apply (HO ts).
  all: intros e w' Hfa Ho; apply wp_ret; by apply HE.
Qed.

Lemma applyResult_post sid g pre x post gm w :
  focus cid sid com g (pre ++ x :: post) →
  step_rows cid com !! er_SagaStepInstanceId executionResult = Some x →
  ssi_InstanceId x = er_SagaStepInstanceId executionResult →
  ignoresResult (ssi_State x) = false →
  si_ClusterId gm = cid → si_InstanceId gm = er_SagaInstanceId executionResult →
  in_tx com (at_saga cid sid com g (pre ++ x :: post)) w →
  wp (applyResult env executionResult gm x) (returns result_post) w.
Proof.
  intros Hf Hrow Hid Hi Hgc Hgi Ht. unfold applyResult.
  assert (ssi_ClusterId x = cid) as Hxc by (eapply focus_step_cluster; [done|set_solver]).
  set (isc := match last (ssi_ExecutionHistory x) with Some log => _ | None => _ end).
  set (res := er_ExecutionResult executionResult).
  apply wp_bind_ret. eapply storeResult_post; [done|exact Ht| |by intros; apply fault_post].
  cbv zeta. fold res. intros ts w1 Ht1.
  set (xm := if isc then set_ssi_CompensationResult res x else set_ssi_Result res x).
  assert (ssi_ClusterId xm = cid ∧ ssi_InstanceId xm = ssi_InstanceId x ∧
    ssi_ExecutionId xm = ssi_ExecutionId x ∧
    ssi_ExecutionHistory xm = ssi_ExecutionHistory x) as (Hmc & Hmi & Hme & Hmh)
    by by unfold xm; destruct isc.
  simpl. rewrite Hmh.
  destruct (last (ssi_ExecutionHistory x)) as [log|] eqn:Hl.
  2: { apply wp_ret. split; [|split; [apply Hf|split; [by eapply in_tx_open|done]]].
       exists x. split; [done|]. split; [done|]. by apply last_None. }
  apply wp_bind_ret, wp_now. intros n2 w2 E2. apply wp_or_else.
  pose proof (in_tx_wv _ _ _ _ Ht1 E2) as Ht2.
  eapply tx_update_step; [apply law_UpdateSagaStepInstanceExecutionHistory|apply _|exact Ht2|done
    |by destruct isc| |by intros; apply fault_post].
  intros ts3 w3 Ht3. eapply unlessCancelled_post; [exact Ht3|]. intros w4 Ht4.
  eapply (transitByResult_post sid g pre x post); try done.
  exists ts3. unfold updateLastLog. simpl. rewrite Hmh, Hme. unfold isc.
  by destruct (log_IsCompensation log).
Qed.

(** Reading the step and the saga. *)
Lemma getStep_post w (Q : result SagaStepInstance → World St → Prop) :
  db_ok com → in_tx com (λ d, d = com) w →
  (∀ x w', step_rows cid com !! er_SagaStepInstanceId executionResult = Some x →
     in_tx com (λ d, d = com) w' → Q (Ok x) w') →
  (∀ e w', kept → open_tx com w' → Q (Err e) w') →
  wp (call (GetSagaStepInstance cid (er_SagaStepInstanceId executionResult))) (returns Q) w.
Proof.
  intros Hok Ht HO HE. destruct (step_table cid com) as [t|] eqn:Htab.
  - eapply (tx_query _ _ _ _ (law_GetSagaStepInstance _ _)); [exact Ht|by intros d ->; rewrite Htab|..].
    + intros x d w1 -> Hx%sql_select_step_ok _ Ht1. by apply HO.
    + intros e w1 Ht1 He. apply HE; [|by eapply in_tx_open].
      destruct He as [(d & -> & _ & He)|[? _]]; [|by left]. right; right; left.
      unfold sql_select_step in He. rewrite Htab in He. by destruct (step_rows _ _ !! _).
  - assert (step_rows cid com = ∅) as Hn by (unfold step_rows; by rewrite Htab).
    eapply (tx_query_any _ _ _ _ (law_GetSagaStepInstance _ _)); [exact Ht|..].
    + intros x d w1 -> Hx%sql_select_step_ok. by rewrite Hn in Hx.
    + intros e w1 Ht1. apply HE; [|done]. right; right; left. by rewrite Hn.
Qed.

Lemma getSaga_post w (Q : result SagaInstance → World St → Prop) :
  in_tx com (λ d, d = com) w →
  (∀ g w', saga_rows cid com !! er_SagaInstanceId executionResult = Some g →
     in_tx com (λ d, d = com) w' → Q (Ok g) w') →
  (∀ e w', kept → open_tx com w' → Q (Err e) w') →
  wp (call (GetSagaInstance cid (er_SagaInstanceId executionResult))) (returns Q) w.
Proof.
  intros Ht HO HE. destruct (saga_table cid com) as [t|] eqn:Htab.
  - eapply (tx_query _ _ _ _ (law_GetSagaInstance _ _)); [exact Ht|by intros d ->; rewrite Htab|..].
    + intros x d w1 -> Hx%sql_select_saga_ok _ Ht1. by apply HO.
    + intros e w1 Ht1 He. apply HE; [|by eapply in_tx_open].
      destruct He as [(d & -> & _ & He)|[? _]]; [|by left]. right; right; right; right.
      unfold sql_select_saga in He. rewrite Htab in He. by destruct (saga_rows _ _ !! _).
  - assert (saga_rows cid com = ∅) as Hn by (unfold saga_rows; by rewrite Htab).
    eapply (tx_query_any _ _ _ _ (law_GetSagaInstance _ _)); [exact Ht|..].
    + intros x d w1 -> Hx%sql_select_saga_ok. by rewrite Hn in Hx.
    + intros e w1 Ht1. apply HE; [|done]. right; right; right; right. by rewrite Hn.
Qed.

Lemma resultBody_post w :
  db_ok com → in_tx com (λ d, d = com) w →
  wp (resultBody env cid executionResult) (returns result_post) w.
Proof.
  intros Hok Ht. unfold resultBody. apply wp_bind_ret. eapply getStep_post; [done|exact Ht|..].
  2: { intros e w1 Hk Ht1. destruct e; apply wp_ret; by left. }
  intros x w1 Hx Ht1.
  destruct (db_ok_step _ _ _ _ Hok Hx) as (g & pre & post & Hf & Hinv & Hid).
  eapply unlessCancelled_post; [exact Ht1|]. intros w2 Ht2. apply wp_if; intros Hi.
  { eapply commitResult_post; [exact Ht2|]. intros d ->. left. split; [|done].
    right; right; right; left. by exists x. }
  apply wp_bind_ret. eapply getSaga_post; [exact Ht2|..].
  2: { intros e w3 Hk Ht3. destruct e; apply wp_ret; by left. }
  intros gm w3 Hgm Ht3. destruct (ok_sagas _ Hok _ _ _ Hgm) as (ss & Hfm & _).
  eapply unlessCancelled_post; [exact Ht3|]. intros w4 Ht4.
  eapply (applyResult_post (ssi_SagaInstanceId x) g pre x post); [done|done|done|done| | |].
  - by eapply focus_saga_cluster.
  - by apply (focus_id _ _ _ _ _ Hfm).
  - revert Ht4. apply in_tx_mono. by intros d ->.
Qed.

(** The whole call.  A context that is done too early leaves the transaction
    of the goroutine open, with nothing done in it. *)
Lemma processResult_post w :
  db_ok com → idle com w →
  wp (processSagaStepExecutionResult env cid executionResult)
    (returns (λ _ w', (∃ com', idle com' w' ∧ result_outcome com') ∨
       (∃ n, env_ctx_done env n = true) ∧ in_tx com (λ d, d = com) w')) w.
Proof.
  intros Hok Hi. unfold processSagaStepExecutionResult. apply wp_or_else.
  assert (kept → result_outcome com) as Hkeep by by left.
  eapply idle_begin; [exact Hi| |].
  2: { intros e w1 Hfa Hi1. apply wp_ret. left. exists com. auto. }
  intros w1 Ht1. apply wp_bind_ret, wp_ctx_done. intros n w2 E.
  assert (in_tx com (λ d, d = com) w2) as Ht2 by by eapply in_tx_wv.
  apply wp_if; intros Hn; [apply wp_ret; right; by split; [exists n|]|]. apply wp_with_defer.
  eapply wp_returns_mono; [|by apply resultBody_post].
  intros [r [|[gm|]]] w3 Hp; unfold result_post in Hp; simpl in Hp.
  - apply wp_ret. by left.
  - destruct Hp as (Hu & Htab & Ht3 & Hc & Hid). apply wp_bind_ret.
    eapply tx_rollback; [exact Ht3|]. intros r' w4 Hi4. apply wp_bind_ret.
    eapply wp_invalidateSaga; [exact Hi4|by rewrite Hc|].
    intros gm' com' w5 Hi5 Hmk. apply wp_ret. left. exists com'. split; [done|].
    right; left. rewrite Hc, Hid in Hmk. done.
  - apply wp_bind_ret. destruct Hp as [[Hk Ht3]|(com' & Hi3 & Ho)].
    + eapply tx_rollback; [exact Ht3|]. intros r' w4 Hi4. apply wp_ret. left. exists com. auto.
    + eapply idle_rollback; [exact Hi3|]. intros r' w4 Hi4. apply wp_ret. left. by exists com'.
Qed.

Lemma result_outcome_ok com' : db_ok com → result_outcome com' → db_ok com'.
Proof.
  intros Hok [[_ ->]|[[_ Hmk]|(sid & g & pre & x & post & y & Hf & _ & Hi & He & Hat)]]; [done|..].
  - by eapply db_ok_mark.
  - destruct (ok_sagas _ Hok _ _ _ (focus_saga _ _ _ _ _ Hf)) as (ss & Hf' & Hinv).
    destruct (focus_det _ _ _ _ _ Hf Hf') as [_ ->].
    eapply db_ok_at; [done|done|]. by eapply result_effect_inv.
Qed.
End results.
