(* ===== verification/Progress.v ===== *)
(** * The coordinator as a transition system

    A step of the system is one run of one of the coordinator's entry points
    on the committed database: the processing of a polled step, the immediate
    processing that a result starts, the callback of the results queue, the
    callback of a submitter's outbox, and the two operations of an operator.
    Everything a run asks its surroundings is arbitrary: the faults of the
    store, the clock, the broker, the lock, the deadline; only the random
    identifiers of a submission are taken to be new.  Runs do not overlap:
    two runs on one saga are kept apart by its lock, and a run on another saga
    touches other rows. *)

From S2P Require Import Prelude GoMonad Model Random Naming Sequence Validation Database Focus.
From S2P Require Import Store Messages World Coordinator Results Rules Transit Protocol.
From S2P Require Import HandlerSpecs Invariant SubmissionSpecs Locked ResultSpecs.

Section system.
Context (St : Type) `{!Store St, !StoreLaws St}.
Implicit Types (w : World St) (d com : DB).

(** [m], run by a goroutine without a transaction on the committed database
    [d], leaves [d'] committed. *)
Definition runs {A} (m : M (World St) A) d d' : Prop :=
  ∃ w o w', idle d w ∧ m w = (o, w') ∧ v_com (wv w') = d'.

(** The saga template a submission asks for has steps whose identifiers are
    about to be drawn. *)
Definition draws_new (env : Env) d (msg : TraxMessage) w : Prop :=
  match msg_Payloads msg with
  | p :: _ =>
      match pl_Data p with
      | SagaPayloadType_SagaSubmissionRequest payload =>
          ∀ tmpl, db_saga_templates d !! sr_SagaTemplateId payload = Some tmpl →
            fresh_draws env d (S (w_tick w)) (2 * length (st_SagaStepTemplateIds tmpl))
      | _ => True
      end
  | [] => True
  end.

Inductive system_step d d' : Prop :=
  | step_poll env SubComponent affinityGroup executionTimeoutMs cid x :
      runs (processPolledStep env SubComponent affinityGroup executionTimeoutMs cid x) d d' →
      system_step d d'
  | step_immediate env SubComponent affinityGroup executionTimeoutMs sp :
      runs (processStepWithMutex env SubComponent affinityGroup executionTimeoutMs sp) d d' →
      system_step d d'
  | step_result env cid isTraxMessage body :
      runs (consumeResult env cid isTraxMessage body) d d' → system_step d d'
  | step_submission env SubComponent affinityGroup inbox ready msg w o w' :
      idle d w → draws_new env d msg w →
      consumeSubmission env SubComponent affinityGroup inbox ready msg w = (o, w') →
      v_com (wv w') = d' → system_step d d'
  | step_trigger cid sid : runs (call (TriggerSagaCompensation cid sid)) d d' → system_step d d'
  | step_force_mark cid sid reason :
      runs (call (ForceMarkSagaCompensated cid sid reason)) d d' → system_step d d'.

Definition reachable : DB → DB → Prop := rtc system_step.

(** ** Every run returns and keeps the invariant *)

(** A method that returns, and leaves a well-formed database committed. *)
Definition well_behaved {A} (m : M (World St) A) d : Prop :=
  ∀ w, idle d w → wp m (returns (λ _ w', db_ok (v_com (wv w')))) w.

Lemma well_behaved_runs {A} (m : M (World St) A) d d' :
  well_behaved m d → runs m d d' → db_ok d'.
Proof.
  intros Hm (w & o & w' & Hi & Hr & <-). specialize (Hm w Hi). unfold wp in Hm.
  rewrite Hr in Hm. simpl in Hm. by destruct o.
Qed.

Lemma sound_well_behaved {A} (m : M (World St) A) d :
  db_ok d → (∀ w, sound d True w → wp m (returns (λ _ w', sound d True w')) w) → well_behaved m d.
Proof.
  intros Hok Hm w Hi. eapply wp_returns_mono; [|apply Hm].
  - intros a w' (com & Hi' & Hok' & _). by rewrite Hi'.
  - exists d. split; [done|]. split; [done|]. by right.
Qed.

Lemma poll_well_behaved env SubComponent affinityGroup executionTimeoutMs cid x d :
  db_ok d →
  well_behaved (processPolledStep env SubComponent affinityGroup executionTimeoutMs cid x) d.
Proof. intros Hok. apply sound_well_behaved; [done|]. intros w. by apply processPolledStep_sound. Qed.

Lemma immediate_well_behaved env SubComponent affinityGroup executionTimeoutMs sp d :
  db_ok d →
  well_behaved (processStepWithMutex env SubComponent affinityGroup executionTimeoutMs sp) d.
Proof.
  intros Hok. apply sound_well_behaved; [done|]. intros w Hs. by apply processStepWithMutex_sound.
Qed.

(** Which sagas a poll and the immediate processing may make invalid: none,
    unless a statement fails, or the step is in one of the states that only
    the polling loop skips. *)
Lemma poll_spares env SubComponent affinityGroup executionTimeoutMs cid x d w :
  db_ok d → idle d w →
  wp (processPolledStep env SubComponent affinityGroup executionTimeoutMs cid x)
    (returns (λ _ w', spared d (v_com (wv w')) ∨ faulty (St := St))) w.
Proof.
  intros Hok Hi. eapply wp_returns_mono; [|apply (processPolledStep_sound _ _ _ _ d); [by intros|]].
  - intros a w' (com & Hi' & _ & Hr). by rewrite Hi'.
  - exists d. split; [done|]. split; [done|]. by left.
Qed.

Lemma immediate_spares env SubComponent affinityGroup executionTimeoutMs sp d w :
  db_ok d → idle d w →
  (∀ y, step_rows (sp_ClusterId sp) d !! sp_SagaStepInstanceId sp = Some y →
     overlooked (ssi_State y) = false) →
  wp (processStepWithMutex env SubComponent affinityGroup executionTimeoutMs sp)
    (returns (λ _ w', spared d (v_com (wv w')) ∨ faulty (St := St))) w.
Proof.
  intros Hok Hi Hlook.
  eapply wp_returns_mono; [|apply (processStepWithMutex_sound _ _ _ _ d); [by intros|..]].
  - intros a w' (com & Hi' & _ & Hr). by rewrite Hi'.
  - exists d. split; [done|]. split; [done|]. by left.
  - intros com y Hi' Hy Hov. unfold idle in *. assert (com = d) as -> by congruence.
    by rewrite (Hlook _ Hy) in Hov.
Qed.

Lemma result_well_behaved env cid isTraxMessage body d :
  db_ok d → well_behaved (consumeResult env cid isTraxMessage body) d.
Proof.
  intros Hok w Hi.
  assert (∀ r, wp (ret r : M (World St) (result unit))
    (returns (λ _ w', db_ok (v_com (wv w')))) w) as Hret.
  { intros r. apply wp_ret. simpl. by rewrite Hi. }
  unfold consumeResult. apply wp_if; intros _; [apply Hret|].
  destruct body as [msg|]; [|apply Hret]. destruct (msg_Payloads msg) as [|p ps]; [apply Hret|].
  destruct (pl_Data p); try apply Hret. case_decide; [apply Hret|].
  eapply wp_returns_mono; [|by apply processResult_post].
  intros r w' [(com' & Hi' & Ho)|[_ (d' & b & Hw & _)]].
  - rewrite Hi'. by eapply result_outcome_ok.
  - by rewrite Hw.
Qed.

Lemma reply_wv env SubComponent affinityGroup inbox msg pd w :
  wp (reply env SubComponent affinityGroup inbox msg pd) (returns (λ _ w', wv w' = wv w)) w.
Proof.
  unfold reply. apply wp_bind_ret, wp_rand. intros n1 w1 E1.
  apply wp_bind_ret, wp_rand. intros n2 w2 E2. apply wp_bind_ret, wp_rand. intros n3 w3 E3.
  apply wp_bind_ret, wp_now. intros n4 w4 E4. apply wp_publish. intros r w5 E5 _. congruence.
Qed.

(** A message without payloads is the one thing that makes a run panic. *)
Lemma submission_well_behaved env SubComponent affinityGroup inbox ready msg d w :
  db_ok d → idle d w → draws_new env d msg w → msg_Payloads msg ≠ [] →
  wp (consumeSubmission env SubComponent affinityGroup inbox ready msg)
    (returns (λ _ w', db_ok (v_com (wv w')))) w.
Proof.
  intros Hok Hi Hnew Hp. unfold draws_new in Hnew. unfold consumeSubmission.
  destruct (msg_Payloads msg) as [|p ps]; [done|].
  destruct (pl_Data p) as [|payload| | | | | |type data]; try (apply wp_ret; simpl; by rewrite Hi).
  - apply wp_bind_ret. eapply wp_returns_mono; [|by apply submitSaga_outcome].
    intros r w1 (com' & Hi1 & Ho). apply submission_outcome_ok in Ho; [|done].
    eapply wp_returns_mono; [|apply reply_wv]; intros r' w2 Hw; by rewrite Hw, Hi1.
  - case_bool_decide; [|apply wp_ret; simpl; by rewrite Hi].
    apply wp_bind_ret, wp_if; intros _; apply wp_ret;
      (eapply wp_returns_mono; [|apply reply_wv]; intros r' w2 Hw; by rewrite Hw, Hi).
Qed.

Lemma trigger_well_behaved cid sid d :
  db_ok d → well_behaved (call (TriggerSagaCompensation cid sid)) d.
Proof.
  intros Hok w Hi. eapply idle_trigger; [done|]. intros r com' w' Hi' Hc. rewrite Hi'. simpl.
  destruct Hc as [->|Hc]; [done|by eapply db_ok_trigger_step].
Qed.

(** What [ForceMarkSagaCompensated] may do. *)
Definition force_mark_step (cid sid reason : string) d d' : Prop :=
  ∃ g ts, saga_rows cid d !! sid = Some g ∧ si_State g = SagaStateEnum_Blocked ∧ reason ≠ "" ∧
    d' = upd_saga cid sid (row_saga_state SagaStateEnum_Compensated
           ("[FORCE-MARKED] " +:+ reason) ts) d.

Lemma idle_force_mark com cid sid reason w (Q : result unit → World St → Prop) :
  idle com w →
  (∀ r com' w', idle com' w' → com' = com ∨ force_mark_step cid sid reason com com' → Q r w') →
  wp (call (ForceMarkSagaCompensated cid sid reason)) (returns Q) w.
Proof.
  intros Hi HQ. apply (wp_call _ _ _ _ (law_ForceMarkSagaCompensated cid sid reason)).
  assert (reason ≠ "" → ∀ ts n d, sql_update_saga_if cid sid SagaStateEnum_Blocked
      (row_saga_state SagaStateEnum_Compensated ("[FORCE-MARKED] " +:+ reason) ts) com =
      Ok (d, n) → d = com ∨ force_mark_step cid sid reason com d) as Hup.
  { intros Hre ts n d. unfold sql_update_saga_if. destruct (saga_table cid com) as [t|]; [|done].
    destruct (saga_rows cid com !! sid) as [g|] eqn:Hg; [|intros [= <- <-]; by left].
    destruct (saga_state_eqb (si_State g) _) eqn:Hst; intros [= <- <-]; [right|by left].
    exists g, ts. split; [done|]. split; [by apply bool_decide_eq_true in Hst|done]. }
  intros r w' _ Hs. case_decide as Hre.
  { destruct Hs as (msg & _ & Hv). apply (HQ _ com); [by unfold idle; rewrite Hv, Hi|by left]. }
  destruct Hs as (r1 & v1 & Hu & Hk). rewrite Hi in Hu.
  assert (∃ com', v1 = View com' None ∧ (com' = com ∨ force_mark_step cid sid reason com com'))
    as (com' & -> & Hcom').
  { destruct r1 as [n|e].
    - destruct Hu as [_ (d & (ts & Hd) & ->)]. exists d. split; [done|]. by eapply Hup.
    - destruct Hu as [(_ & [] & _)|(_ & _ & [->|(n & d & (ts & Hd) & ->)])];
        [by exists com; auto|].
      exists d. split; [done|]. by eapply Hup. }
  destruct r1 as [n|e].
  - destruct (decide (n = 0)); [destruct Hk as (msg & _ & Hv)|destruct Hk as [_ Hv]];
      by eapply HQ.
  - destruct Hk as [_ Hv]. by eapply HQ.
Qed.

Lemma force_mark_well_behaved cid sid reason d :
  db_ok d → well_behaved (call (ForceMarkSagaCompensated cid sid reason)) d.
Proof.
  intros Hok w Hi. eapply idle_force_mark; [done|]. intros r com' w' Hi' Hc. rewrite Hi'. simpl.
  destruct Hc as [->|(g & ts & Hg & Hst & _ & ->)]; [done|by eapply db_ok_force_mark].
Qed.

Lemma system_step_ok d d' : db_ok d → system_step d d' → db_ok d'.
Proof.
  intros Hok [env SC ag tmo cid x Hr|env SC ag tmo sp Hr|env cid isT body Hr
    |env SC ag inbox ready msg w o w' Hi Hnew Hr <-|cid sid Hr|cid sid reason Hr].
  - eapply well_behaved_runs; [|exact Hr]. by apply poll_well_behaved.
  - eapply well_behaved_runs; [|exact Hr]. by apply immediate_well_behaved.
  - eapply well_behaved_runs; [|exact Hr]. by apply result_well_behaved.
  - destruct (msg_Payloads msg) as [|p ps] eqn:Hp.
    + unfold consumeSubmission in Hr. rewrite Hp in Hr. injection Hr as <- <-. by rewrite Hi.
    + pose proof (submission_well_behaved env SC ag inbox ready msg d w Hok Hi Hnew) as Hw.
      unfold wp in Hw. rewrite Hr, Hp in Hw. simpl in Hw. specialize (Hw ltac:(done)).
      by destruct o.
  - eapply well_behaved_runs; [|exact Hr]. by apply trigger_well_behaved.
  - eapply well_behaved_runs; [|exact Hr]. by apply force_mark_well_behaved.
Qed.

Lemma reachable_ok d d' : db_ok d → reachable d d' → db_ok d'.
Proof. intros Hok Hr. induction Hr; [done|]. eauto using system_step_ok. Qed.
End system.

(** ** A saga makes progress

    What the methods do when nothing gets in their way: no statement fails,
    every message is sent, the lock is free, no deadline passes and the clock
    stands still during a run.  Then a poll carries the active step as far as
    it goes by itself, a result moves it on, and a saga whose steps answer is
    committed, or compensated, after finitely many runs. *)

(** ** Positions *)

Lemma chain_split l1 a k1 l2 b k2 :
  chain (l1 ++ a :: k1) → l1 ++ a :: k1 = l2 ++ b :: k2 →
  ssi_InstanceId a = ssi_InstanceId b → l1 = l2 ∧ a = b ∧ k1 = k2.
Proof.
  intros Hc Heq Hid. destruct (app_cons_cases _ _ _ _ _ _ Heq) as [?|Hb]; [done|exfalso].
  pose proof (chain_ids _ Hc) as Hn. rewrite fmap_app in Hn. csimpl in Hn.
  apply NoDup_app in Hn as (_ & Hd & Hk). apply NoDup_cons in Hk as [Hk _].
  destruct Hb as [Hb|Hb].
  - apply (Hd (ssi_InstanceId b)); [apply list_elem_of_fmap; eauto|]. rewrite <-Hid. by left.
  - apply Hk. rewrite Hid. apply list_elem_of_fmap. eauto.
Qed.

Lemma final_effect_parent env tmo g xm pre x post g' ss' :
  final_effect env tmo g xm pre x post g' ss' →
  si_ParentSagaInstanceId g' = si_ParentSagaInstanceId g.
Proof.
  assert (∀ st, saga_moved st g g' →
    si_ParentSagaInstanceId g' = si_ParentSagaInstanceId g) as Hm by by intros st (r & ts & ->).
  unfold final_effect. destruct (ssi_State xm); try done.
  - case_decide; [done|]. by intros (-> & _).
  - case_decide; by intros (-> & _).
  - intros (x' & _ & He). destruct post; [by destruct He as (_ & He & _); eapply Hm|].
    by destruct He as (-> & _).
  - by intros (-> & _).
  - intros (He & _). by eapply Hm.
Qed.

Lemma follow_effect_parent env d gm g xm pre x post g' ss' :
  follow_effect env d gm g xm pre x post g' ss' →
  si_ParentSagaInstanceId g' = si_ParentSagaInstanceId g.
Proof.
  assert (∀ st, saga_moved st g g' →
    si_ParentSagaInstanceId g' = si_ParentSagaInstanceId g) as Hm by by intros st (r & ts & ->).
  unfold follow_effect. destruct (ssi_State xm); try done.
  - case_decide; [|done]. by intros (-> & _).
  - by intros (-> & _).
  - intros (He & _). by eapply Hm.
  - by intros (-> & _).
  - by intros (-> & _).
  - intros (x' & _ & [(_ & He & _)|(-> & _)]); [by eapply Hm|done].
Qed.

(** The surroundings of a run in which nothing goes wrong. *)
Record quiet (St : Type) `{!Store St, !StoreLaws St} (env : Env) : Prop := {
  quiet_hitch : ¬ hitch St env;
  quiet_lock : ∀ n, env_lock env n = true;
  quiet_ctx : ∀ n, env_ctx_done env n = false;
  quiet_clock : ∀ n m, env_now env n = env_now env m;
  quiet_time : ∀ n, (0 < env_now env n)%Z;
}.

Section progress.
Context {St : Type} `{!Store St, !StoreLaws St}.
Context (cid sid : string).
Implicit Types (w : World St) (d com : DB) (g gm : SagaInstance) (x xm : SagaStepInstance).

(** The saga [sid] is [g] with the steps [ss], in a well-formed database, and
    has no child sagas. *)
Record holds (g : SagaInstance) (ss : list SagaStepInstance) (d : DB) : Prop := {
  h_ok : db_ok d;
  h_focus : focus cid sid d g ss;
  h_children : children_of cid sid d = ∅;
}.

Lemma holds_inv g ss d : holds g ss d → saga_inv g ss.
Proof.
  intros [Hok Hf _]. destruct (ok_sagas _ Hok _ _ _ (focus_saga _ _ _ _ _ Hf)) as (ss' & Hf' & Hi).
  by destruct (focus_det _ _ _ _ _ Hf Hf') as [_ ->].
Qed.

Lemma holds_settled g ss x d : holds g ss d → childrenSettled g x d.
Proof.
  intros [_ Hf Hc] k child Hk. rewrite (focus_saga_cluster _ _ _ Hf), (focus_id _ _ _ _ _ Hf), Hc in Hk.
  done.
Qed.

(** A change of the saga alone. *)
Lemma holds_at g ss d g' ss' d' :
  holds g ss d → at_saga cid sid d g' ss' d' → saga_inv g' ss' →
  si_ParentSagaInstanceId g' = si_ParentSagaInstanceId g → holds g' ss' d'.
Proof.
  intros [Hok Hf Hc] Hat Hinv Hp. split; [by eapply db_ok_at|apply Hat|].
  apply map_eq. intros k. rewrite lookup_empty. apply map_lookup_filter_None.
  right. intros c Hk [Hpc Hne]. simpl in *.
  assert (∃ c0, saga_rows cid d !! k = Some c0 ∧ si_ParentSagaInstanceId c0 = sid)
    as (c0 & Hk0 & Hp0).
  { destruct (decide (k = sid)) as [->|Hks].
    - exists g. split; [apply Hf|]. destruct Hat as [Hf' _].
      rewrite (focus_saga _ _ _ _ _ Hf') in Hk. injection Hk as <-. congruence.
    - exists c. split; [|done]. destruct Hat as [_ Ho].
      by rewrite (out_saga _ _ _ _ Ho) in Hk by congruence. }
  assert (children_of cid sid d !! k = Some c0) as Hch by by apply map_lookup_filter_Some.
  by rewrite Hc in Hch.
Qed.

(** The objects in memory are the saga and its step. *)
Definition synced gm xm x : Prop :=
  si_ClusterId gm = cid ∧ si_InstanceId gm = sid ∧ ssi_ClusterId xm = cid ∧
  ssi_InstanceId xm = ssi_InstanceId x ∧ in_sync xm x.

Lemma synced_self g pre x post d : holds g (pre ++ x :: post) d → synced g x x.
Proof.
  intros [_ Hf _]. split; [by eapply focus_saga_cluster|]. split; [apply Hf|].
  split; [eapply focus_step_cluster; [done|set_solver]|done].
Qed.

(** *** One handler *)

Context (env : Env) (SubComponent affinityGroup : string) (executionTimeoutMs : Z).
Context (Hq : quiet St env).

Let Hfaulty : ¬ faulty (St := St).
Proof. intros Hf. apply (quiet_hitch _ _ Hq). by left. Qed.

#[local] Notation leaves_saga R :=
  (returns (λ _ w', ∃ d' g' ss', idle d' w' ∧ holds g' ss' d' ∧ R g' ss')).

Lemma handler_acts d g pre x post gm xm w :
  idle d w → holds g (pre ++ x :: post) d → synced gm xm x →
  forward_active (ssi_State x) = true ∨ compensation_active (ssi_State x) = true →
  ssi_State x ≠ SagaStepStateEnum_CompensationBlocked →
  memory_ok gm xm → ¬ waits env d g xm x →
  wp (processSagaStep env SubComponent affinityGroup executionTimeoutMs (gm, xm))
    (returns (λ r w', ∃ d' g' ss', idle d' w' ∧ holds g' ss' d' ∧
       (r.1 = false ∧ final_effect env executionTimeoutMs g xm pre x post g' ss' ∨
        r.1 = true ∧ follow_effect env d gm g xm pre x post g' ss' ∧
          ∀ pre' x' post', ss' = pre' ++ x' :: post' → ssi_InstanceId x' = ssi_InstanceId x →
            synced r.2.1 r.2.2 x'))) w.
Proof.
  intros Hi Hh (Hgc & Hgi & Hxc & Hxi & Hsync) Hact Hnb Hmem Hw.
  pose proof (holds_inv _ _ _ Hh) as Hinv.
  assert (ssi_State xm = SagaStepStateEnum_CompensationCandidate →
    si_State g ≠ SagaStateEnum_Committed) as Hng.
  { intros Hx Hg. rewrite (proj1 Hsync) in Hx.
    destruct (shape_compensating_inv _ _ _ _ (proj1 Hinv) ltac:(by rewrite Hx)) as (_ & _ & Hst).
    destruct Hst as [?|[?|[?|[? _]]]]; congruence. }
  eapply wp_returns_mono; [|eapply processSagaStep_settles; try done; [apply Hh|]].
  2: { intros Hr log Hl. by apply Hmem. }
  intros [f o] w1 (com1 & _ & Hcom & d' & Hi1 & g' & ss' & Hat & Hl & Hfol).
  rewrite Hcom in Hat by by eapply holds_settled.
  pose proof (saga_inv_no_anomaly _ _ _ _ _ Hinv Hsync Hact Hnb) as Hna.
  assert (¬ (hitch St env ∨ anomaly xm pre post ∨ waits env d g xm x)) as Hnk.
  { intros [H|[H|H]]; [by eapply quiet_hitch|done|done]. }
  assert (final_effect env executionTimeoutMs g xm pre x post g' ss' ∧ f = false ∨
    follow_effect env d gm g xm pre x post g' ss' ∧ f = true) as He.
  { simpl in Hl. destruct Hl; [by left|by right|exfalso; by auto..]. }
  exists d', g', ss'. split; [done|]. destruct He as [[He ->]|[He ->]].
  - split; [|by left]. eapply holds_at; [done|done| |by eapply final_effect_parent].
    by eapply final_effect_inv.
  - assert (holds g' ss' d') as Hh'.
    { eapply holds_at; [done|done| |by eapply follow_effect_parent].
      by eapply follow_effect_inv. }
    split; [done|]. right. split; [done|]. split; [done|]. intros pre' x' post' -> Hid.
    destruct (Hfol eq_refl) as (Hgc' & Hgi' & y & Hy & Hyid & Hsame). simpl in *.
    assert (y = x') as ->.
    { eapply chain_same_id; [apply (h_focus _ _ _ Hh')|done|set_solver|congruence]. }
    destruct (same_step_sync _ _ Hsame) as (Hc & Hi' & Hs).
    split; [done|]. split; [done|]. split; [|by split].
    rewrite Hc. eapply focus_step_cluster; [apply Hh'|done].
Qed.
(** *** The loop *)

#[local] Notation loop n o :=
  (followUpLoop env SubComponent affinityGroup executionTimeoutMs n o).

Lemma loop_acts n d g pre x post gm xm w (R : SagaInstance → list SagaStepInstance → Prop) :
  idle d w → holds g (pre ++ x :: post) d → synced gm xm x →
  forward_active (ssi_State x) = true ∨ compensation_active (ssi_State x) = true →
  ssi_State x ≠ SagaStepStateEnum_CompensationBlocked →
  memory_ok gm xm → ¬ waits env d g xm x →
  (∀ g' ss', final_effect env executionTimeoutMs g xm pre x post g' ss' → R g' ss') →
  (∀ d' g' ss' o w', idle d' w' → holds g' ss' d' →
     follow_effect env d gm g xm pre x post g' ss' →
     (∀ pre' x' post', ss' = pre' ++ x' :: post' → ssi_InstanceId x' = ssi_InstanceId x →
        synced o.1 o.2 x') →
     wp (loop n o) (leaves_saga R) w') →
  wp (loop (S n) (gm, xm)) (leaves_saga R) w.
Proof.
  intros Hi Hh Hs Hact Hnb Hmem Hw HR HF. simpl. apply wp_bind_ret.
  eapply wp_returns_mono; [|by eapply handler_acts].
  intros [f o] w1 (d' & g' & ss' & Hi1 & Hh' & He). simpl in He.
  destruct He as [[-> He]|(-> & He & Hsy)]; [|by eapply HF].
  apply wp_ret. exists d', g', ss'. auto.
Qed.

(** The log of a step that was just started. *)
Definition unsent_log (x : SagaStepInstance) : Prop :=
  ∃ n b, last (ssi_ExecutionHistory x) = Some (emptyExecutionLog (env_now env n) b).

Lemma unsent_log_ready x xm :
  unsent_log x → in_sync xm x → ∀ n log, last (ssi_ExecutionHistory xm) = Some log →
  readyToSend (env_now env n) log = true ∧ log_ExecutionRequestSentTs log = 0%Z ∧
  log_ExecutionResultReceivedTs log = 0%Z.
Proof.
  intros (m & b & Hl) [_ Hh] n log Hlog. rewrite Hh, Hl in Hlog. injection Hlog as <-.
  split; [|done]. unfold readyToSend. simpl. rewrite (quiet_clock _ _ Hq m n), Z.leb_refl. done.
Qed.

(** The request of a running step has been sent. *)
Definition request_sent (x : SagaStepInstance) : Prop :=
  ∃ log, last (ssi_ExecutionHistory x) = Some log ∧ (0 < log_ExecutionRequestSentTs log)%Z.

Lemma sent_request_sent xm x x' : unsent_log x → in_sync xm x →
  sent env executionTimeoutMs xm x x' → request_sent x'.
Proof.
  intros (m & b & Hl) [_ Hh] (k & ts & ->). unfold request_sent. simpl.
  rewrite last_alter_last, Hh, Hl. eexists. split; [done|]. apply (quiet_time _ _ Hq).
Qed.

(** The step goes on alone; when it becomes running its request has been
    sent. *)
Definition alone (st : SagaStepStateEnum) g pre x post g' (ss' : list SagaStepInstance) : Prop :=
  ∃ x', g' = g ∧ ss' = pre ++ x' :: post ∧ ssi_InstanceId x' = ssi_InstanceId x ∧
    ssi_State x' = st ∧
    (st = SagaStepStateEnum_ExecutionRunning ∨ st = SagaStepStateEnum_CompensationRunning →
     request_sent x').

Lemma loop_running n d g pre x post gm xm w :
  idle d w → holds g (pre ++ x :: post) d → synced gm xm x → unsent_log x →
  ssi_State x = SagaStepStateEnum_ExecutionRunning →
  wp (loop (S n) (gm, xm)) (leaves_saga (alone SagaStepStateEnum_ExecutionRunning g pre x post)) w.
Proof.
  intros Hi Hh Hs Hu Hx. destruct (Hs) as (_ & _ & _ & _ & Hsync). pose proof (proj1 Hsync) as Hst.
  pose proof (unsent_log_ready _ _ Hu Hsync) as Hready.
  eapply loop_acts; [done|done|done|left; by rewrite Hx|by rewrite Hx| | | |].
  - split; [|by rewrite Hst, Hx]. intros _ log Hl. by apply (Hready 0) in Hl as (_ & ? & ?).
  - unfold waits. rewrite Hst, Hx. intros (k & log & Hl & _ & Hr). apply (Hready k) in Hl as [Hl _].
    congruence.
  - unfold final_effect. rewrite Hst, Hx. intros g' ss'. case_decide as Hnil.
    { destruct Hu as (k & b & Hl). by rewrite <-(proj2 Hsync), Hnil in Hl. }
    intros (-> & _ & x' & Hx' & ->). pose proof (sent_request_sent _ _ _ Hu Hsync Hx').
    destruct Hx' as (k & ts & ->). eexists. by repeat split.
  - unfold follow_effect. rewrite Hst, Hx. intros d' g' ss' o w' _ _ He.
    apply timeout_effect_unsent in He; [done|]. intros log Hl. by apply (Hready 0) in Hl as (_ & ? & _).
Qed.

Lemma loop_comp_running n d g pre x post gm xm w :
  idle d w → holds g (pre ++ x :: post) d → synced gm xm x → unsent_log x →
  ssi_State x = SagaStepStateEnum_CompensationRunning →
  wp (loop (S n) (gm, xm))
    (leaves_saga (alone SagaStepStateEnum_CompensationRunning g pre x post)) w.
Proof.
  intros Hi Hh Hs Hu Hx. destruct (Hs) as (_ & _ & _ & _ & Hsync). pose proof (proj1 Hsync) as Hst.
  pose proof (unsent_log_ready _ _ Hu Hsync) as Hready.
  eapply loop_acts; [done|done|done|right; by rewrite Hx|by rewrite Hx| | | |].
  - split; [|by rewrite Hst, Hx]. intros _ log Hl. by apply (Hready 0) in Hl as (_ & ? & ?).
  - unfold waits. rewrite Hst, Hx. intros (k & log & Hl & _ & Hr). apply (Hready k) in Hl as [Hl _].
    congruence.
  - unfold final_effect. rewrite Hst, Hx. intros g' ss' (-> & x' & Hx' & ->).
    pose proof (sent_request_sent _ _ _ Hu Hsync Hx').
    destruct Hx' as (k & ts & ->). eexists. by repeat split.
  - unfold follow_effect. rewrite Hst, Hx. intros d' g' ss' o w' _ _ He.
    apply timeout_effect_unsent in He; [done|]. intros log Hl. by apply (Hready 0) in Hl as (_ & ? & _).
Qed.

(** A step that is not running and has not failed needs nothing of memory. *)
Lemma memory_ok_other gm xm x :
  in_sync xm x → ssi_State x ≠ SagaStepStateEnum_ExecutionRunning →
  ssi_State x ≠ SagaStepStateEnum_CompensationRunning →
  ssi_State x ≠ SagaStepStateEnum_ExecutionFailed → memory_ok gm xm.
Proof. intros [Hst _] ???. unfold memory_ok. rewrite Hst. split; [naive_solver|done]. Qed.

Lemma loop_candidate n d g pre x post gm xm w :
  idle d w → holds g (pre ++ x :: post) d → synced gm xm x →
  ssi_State x = SagaStepStateEnum_ExecutionCandidate →
  wp (loop (S (S n)) (gm, xm))
    (leaves_saga (alone SagaStepStateEnum_ExecutionRunning g pre x post)) w.
Proof.
  intros Hi Hh Hs Hx. destruct (Hs) as (_ & _ & _ & _ & Hsync). pose proof (proj1 Hsync) as Hst.
  assert (ssi_ExecutionHistory xm = []) as Hnil.
  { rewrite (proj2 Hsync). pose proof (proj2 (holds_inv _ _ _ Hh)) as Hok. apply history_ok_at in Hok.
    unfold history_ok in Hok. by rewrite Hx in Hok. }
  eapply loop_acts; [done|done|done|left; by rewrite Hx|by rewrite Hx| | | |].
  - by eapply memory_ok_other; [done|rewrite Hx..].
  - unfold waits. rewrite Hst, Hx. by intros [].
  - unfold final_effect. rewrite Hst, Hx, Hnil. by intros ? ? [].
  - unfold follow_effect. rewrite Hst, Hx, decide_True by done.
    intros d' g' ss' o w' Hi' Hh' (-> & _ & _ & x' & (eid & k & ts & ->) & ->) Hsy.
    destruct o as [gm' xm']. eapply wp_returns_mono; [|eapply loop_running; [done|done|by eapply Hsy|..]].
    + intros [] w'' (d'' & g'' & ss'' & Hi'' & Hh'' & y & -> & -> & Hy & Hys & Hsent).
      exists d'', g. eexists. split; [done|]. split; [done|]. exists y. done.
    + by exists k, false.
    + done.
Qed.

Lemma loop_comp_candidate n d g pre x post gm xm w :
  idle d w → holds g (pre ++ x :: post) d → synced gm xm x →
  ssi_State x = SagaStepStateEnum_CompensationCandidate →
  wp (loop (S (S n)) (gm, xm))
    (leaves_saga (alone SagaStepStateEnum_CompensationRunning g pre x post)) w.
Proof.
  intros Hi Hh Hs Hx. destruct (Hs) as (_ & _ & _ & _ & Hsync). pose proof (proj1 Hsync) as Hst.
  eapply loop_acts; [done|done|done|right; by rewrite Hx|by rewrite Hx| | | |].
  - by eapply memory_ok_other; [done|rewrite Hx..].
  - unfold waits. rewrite Hst, Hx. intros Hn. apply Hn. by eapply holds_settled.
  - unfold final_effect. rewrite Hst, Hx. by intros ? ? [].
  - unfold follow_effect. rewrite Hst, Hx.
    intros d' g' ss' o w' Hi' Hh' (-> & _ & _ & _ & x' & (k & ts & ->) & ->) Hsy.
    destruct o as [gm' xm'].
    eapply wp_returns_mono; [|eapply loop_comp_running; [done|done|by eapply Hsy|..]].
    + intros [] w'' (d'' & g'' & ss'' & Hi'' & Hh'' & y & -> & -> & Hy & Hys & Hsent).
      exists d'', g. eexists. split; [done|]. split; [done|]. exists y. done.
    + exists k, true. simpl. by rewrite last_snoc.
    + done.
Qed.

Lemma loop_succeeded n d g pre x post gm xm w :
  idle d w → holds g (pre ++ x :: post) d → synced gm xm x →
  ssi_State x = SagaStepStateEnum_ExecutionSucceeded →
  wp (loop (S n) (gm, xm)) (leaves_saga (succeed_effect g pre x post)) w.
Proof.
  intros Hi Hh Hs Hx. destruct (Hs) as (_ & _ & _ & _ & Hsync). pose proof (proj1 Hsync) as Hst.
  eapply loop_acts; [done|done|done|left; by rewrite Hx|by rewrite Hx| | | |].
  - by eapply memory_ok_other; [done|rewrite Hx..].
  - unfold waits. rewrite Hst, Hx. by intros [].
  - unfold final_effect. by rewrite Hst, Hx.
  - unfold follow_effect. by rewrite Hst, Hx.
Qed.

(** The step is done: nothing more to do. *)
Lemma loop_done n d g pre x post gm xm w R :
  idle d w → holds g (pre ++ x :: post) d → synced gm xm x →
  ssi_State x = SagaStepStateEnum_CompensationDone → R g (pre ++ x :: post) →
  wp (loop (S n) (gm, xm)) (leaves_saga R) w.
Proof.
  intros Hi Hh (_ & _ & _ & _ & Hst & _) Hx HR. simpl. unfold processSagaStep. simpl.
  rewrite Hst, Hx. apply wp_bind_ret, wp_ret, wp_ret. exists d, g, (pre ++ x :: post). done.
Qed.

Lemma loop_comp_succeeded n d g pre x post gm xm w :
  idle d w → holds g (pre ++ x :: post) d → synced gm xm x →
  ssi_State x = SagaStepStateEnum_CompensationSucceeded →
  wp (loop (S (S n)) (gm, xm)) (leaves_saga (comp_succeed_effect g pre x post)) w.
Proof.
  intros Hi Hh Hs Hx. destruct (Hs) as (_ & _ & _ & _ & Hsync). pose proof (proj1 Hsync) as Hst.
  eapply loop_acts; [done|done|done|right; by rewrite Hx|by rewrite Hx| | | |].
  - by eapply memory_ok_other; [done|rewrite Hx..].
  - unfold waits. rewrite Hst, Hx. by intros [].
  - unfold final_effect. rewrite Hst, Hx. by intros ? ? [].
  - unfold follow_effect. rewrite Hst, Hx. intros d' g' ss' [gm' xm'] w' Hi' Hh' He Hsy.
    destruct (He) as (x' & (ts & Hm) & Hcase).
    assert (∃ pre', ss' = pre' ++ x' :: post) as [pre' ->].
    { destruct Hcase as [(_ & _ & _ & ->)|(_ & pre0 & p & p' & _ & _ & _ & ->)]; [by exists []|].
      exists (pre0 ++ [p']). by rewrite <-app_assoc. }
    eapply loop_done; [done|done|eapply Hsy; [done|by subst x']|by subst x'|done].
Qed.

(** A failed step starts its own compensation. *)
Definition turned g (pre : list SagaStepInstance) x g' (ss' : list SagaStepInstance) : Prop :=
  ∃ pre' x' post', ss' = pre' ++ x' :: post' ∧ saga_moved (si_State g) g g' ∧
    length pre' = length pre ∧ ssi_State x' = SagaStepStateEnum_CompensationRunning ∧
    request_sent x' ∧
    ssi_InstanceId x' = ssi_InstanceId x.

Lemma loop_failed n d g pre x post xm w :
  idle d w → holds g (pre ++ x :: post) d → synced g xm x →
  ssi_State x = SagaStepStateEnum_ExecutionFailed →
  wp (loop (S (S (S n))) (g, xm)) (leaves_saga (turned g pre x)) w.
Proof.
  intros Hi Hh Hs Hx. destruct (Hs) as (_ & _ & _ & _ & Hsync). pose proof (proj1 Hsync) as Hst.
  eapply loop_acts; [done|done|done|left; by rewrite Hx|by rewrite Hx| | | |].
  - split; [rewrite Hst, Hx; naive_solver|]. intros _.
    by apply (shape_forward_inv _ _ _ _ (proj1 (holds_inv _ _ _ Hh))); rewrite Hx.
  - unfold waits. rewrite Hst, Hx. by intros [].
  - unfold final_effect. rewrite Hst, Hx. by intros ? ? [].
  - unfold follow_effect. rewrite Hst, Hx.
    intros d' g' ss' [gm' xm'] w' Hi' Hh' (Hg & _ & pre' & x' & post' & Hpre & (ts & ->) & _ & ->) Hsy.
    eapply wp_returns_mono; [|eapply loop_comp_candidate; [done|done|by eapply Hsy|done]].
    intros [] w'' (d'' & g'' & ss'' & Hi'' & Hh'' & y & -> & -> & Hy & Hys & Hsent).
    exists d'', g'. eexists. split; [done|]. split; [done|]. exists pre', y, post'.
    split; [done|]. split; [done|]. split; [symmetry; by eapply Forall2_length|].
    split; [done|]. split; [auto|done].
Qed.
End progress.
