(* ===== verification/Liveness.v ===== *)
(** * A saga comes to its end

    [leads_to]: from a database, a finite number of polls and results, each
    run in quiet surroundings, leads to a database with some property,
    whatever the runs choose and whatever the participants answer among the
    answers allowed.  If every request is answered by success, a running saga
    is committed; if a forward request may be answered by anything and a
    compensation is answered by success, it is committed or compensated. *)

From S2P Require Import Prelude GoMonad Random Model Naming Sequence Validation Database Focus.
From S2P Require Import Messages Store World Coordinator Results Rules Polling Transit.
From S2P Require Import Protocol HandlerSpecs Invariant Locked ResultSpecs Progress.


(** ** What a quiet run may do *)

(** A method always returns from [d], and what it commits satisfies [Q]. *)
Definition achieves {St A} `{!Store St, !StoreLaws St} (m : M (World St) A) d (Q : DB → Prop) :=
  ∀ w, idle d w → wp m (returns (λ _ w', Q (v_com (wv w')))) w.

(** The step is one the polling loop finds. *)
Definition polled (cid : string) d x : Prop :=
  step_rows cid d !! ssi_InstanceId x = Some x ∧
  poll_selects cid (ssi_Affinity x) polledSagaStates polledStepStates d x = true.

(** The message carries a result for the step. *)
Definition carries (x : SagaStepInstance) (status : ExecutionResultStatusEnum)
    (msg : TraxMessage) : Prop :=
  ∃ p ps r, msg_Payloads msg = p :: ps ∧ pl_Data p = SagaPayloadType_SagaStepExecutionResult r ∧
    er_SagaInstanceId r = ssi_SagaInstanceId x ∧ er_SagaStepInstanceId r = ssi_InstanceId x ∧
    er_Status r = status.

(** A request has gone out for the step and no result has come. *)
Definition awaits (x : SagaStepInstance) : Prop :=
  (ssi_State x = SagaStepStateEnum_ExecutionRunning ∨
   ssi_State x = SagaStepStateEnum_CompensationRunning) ∧ request_sent x.

Section leads.
Context (St : Type) `{!Store St, !StoreLaws St} (cid : string).
Context (answers : SagaStepInstance → ExecutionResultStatusEnum → Prop).

Inductive leads_to (P : DB → Prop) (d : DB) : Prop :=
  | leads_now : P d → leads_to P d
  | leads_poll x (Q : DB → Prop) :
      polled cid d x →
      (∀ env SubComponent affinityGroup executionTimeoutMs, quiet St env →
         achieves (processPolledStep env SubComponent affinityGroup executionTimeoutMs cid x) d Q) →
      (∀ d', Q d' → leads_to P d') → leads_to P d
  | leads_result x (Q : DB → Prop) :
      step_rows cid d !! ssi_InstanceId x = Some x → awaits x →
      (∃ status, answers x status) →
      (∀ env status msg, quiet St env → answers x status → carries x status msg →
         achieves (consumeResult env cid true (Some msg)) d Q) →
      (∀ d', Q d' → leads_to P d') → leads_to P d.
End leads.

(** ** The rounds of a saga *)

Section rounds.
Context {St : Type} `{!Store St, !StoreLaws St}.
Context (cid sid : string).
Implicit Types (w : World St) (d : DB) (g : SagaInstance) (x : SagaStepInstance).

#[local] Notation holds := (holds cid sid).
#[local] Notation leaves_saga R :=
  (returns (λ _ w', ∃ d' g' ss', idle d' w' ∧ holds g' ss' d' ∧ R g' ss')).

(** States from which a poll carries a step on. *)
Definition actionable (st : SagaStepStateEnum) : bool :=
  match st with
  | SagaStepStateEnum_ExecutionCandidate | SagaStepStateEnum_ExecutionSucceeded
  | SagaStepStateEnum_ExecutionFailed | SagaStepStateEnum_CompensationCandidate
  | SagaStepStateEnum_CompensationSucceeded => true
  | _ => false
  end.

Lemma actionable_active st :
  actionable st = true → forward_active st = true ∨ compensation_active st = true.
Proof. destruct st; auto. Qed.

Lemma active_not_requested g pre x post :
  shape g (pre ++ x :: post) →
  forward_active (ssi_State x) = true ∨ compensation_active (ssi_State x) = true →
  si_State g ≠ SagaStateEnum_CompensationRequested.
Proof.
  intros Hs Hx Hg. eapply shape_committed_inv in Hs; [|by right].
  apply Forall_app in Hs as [_ [Hd _]%Forall_cons]. unfold Done, in_state in Hd.
  rewrite Hd in Hx. by destruct Hx.
Qed.

Lemma refresh_acts env d g pre x post w :
  quiet St env → idle d w → holds g (pre ++ x :: post) d →
  wp (refresh cid sid (ssi_InstanceId x)) (returns (λ o w', o = Some (g, x) ∧ idle d w')) w.
Proof.
  intros Hq Hi [Hok Hf _]. unfold refresh.
  assert (¬ faulty (St := St)) as Hnf by (intros ?; apply (quiet_hitch _ _ Hq); by left).
  pose proof (focus_tables _ _ _ _ _ Hf) as [[ti Hti] [ts Hts]].
  assert (sql_select_saga cid sid d = Ok g) as Hg.
  { unfold sql_select_saga. by rewrite Hti, (focus_saga _ _ _ _ _ Hf). }
  apply wp_or_else. eapply (idle_query _ _ _ _ (law_GetSagaInstance _ _)); [exact Hi|congruence|..].
  2: { intros e w1 [[[_ He]|[? _]]|?]; congruence || done. }
  intros g1 w1 Hg1 Hi1. rewrite Hg in Hg1. injection Hg1 as <-. apply wp_or_else.
  eapply (idle_query _ _ _ _ (law_ListSagaStepInstancesBySagaInstanceId _ _)); [exact Hi1|congruence|..].
  2: { intros e w2 [[[]|[? _]]|?]; done. }
  intros all w2 [_ Hp] Hi2. apply wp_ret. split; [|done].
  rewrite (focus_steps _ _ _ _ _ Hf), steps_map_to_list in Hp by apply Hf.
  assert (x ∈ all) as Hx by (rewrite Hp; set_solver).
  destruct (list_find_elem_of (λ step, ssi_InstanceId step = ssi_InstanceId x) all x Hx eq_refl)
    as [[i y] Hy]. rewrite Hy. apply list_find_Some in Hy as (Hy & Hid & _).
  apply list_elem_of_lookup_2 in Hy. rewrite Hp in Hy.
  assert (y = x) as -> by (eapply chain_same_id; [apply Hf|done|set_solver|done]). done.
Qed.

Lemma Mutex_acts env (cb : M (World St) unit) (Q : World St → Prop) d w :
  quiet St env → idle d w → (∀ w, idle d w → wp cb (returns (λ _ w', Q w')) w) →
  wp (bind (Mutex env cb) (λ _, ret tt)) (returns (λ _ w', Q w')) w.
Proof.
  intros Hq Hi Hcb. apply wp_bind_ret. unfold Mutex. apply wp_bind_ret.
  unfold wp at 1, tick. simpl. rewrite (quiet_lock _ _ Hq). apply wp_bind_ret.
  eapply wp_returns_mono; [|by apply Hcb]. intros u w' HQ. by apply wp_ret, wp_ret.
Qed.

Lemma poll_acts env SC ag tmo d g pre x post w (R : SagaInstance → list SagaStepInstance → Prop) :
  quiet St env → idle d w → holds g (pre ++ x :: post) d → actionable (ssi_State x) = true →
  (∀ w, idle d w → wp (followUpLoop env SC ag tmo 11 (g, x)) (leaves_saga R) w) →
  wp (processPolledStep env SC ag tmo cid x) (leaves_saga R) w.
Proof.
  intros Hq Hi Hh Ha HR. pose proof (actionable_active _ Ha) as Hact.
  pose proof (proj1 (holds_inv _ _ _ _ _ Hh)) as Hs.
  eapply Mutex_acts; [done..|]. clear w Hi. intros w Hi. apply wp_bind_ret.
  rewrite (focus_step_saga _ _ _ x (h_focus _ _ _ _ _ Hh)) by set_solver.
  eapply wp_returns_mono; [|by eapply refresh_acts].
  intros o w1 [-> Hi1]. simpl.
  destruct (saga_state_eqb (si_State g) _) eqn:Hreq.
  { apply bool_decide_eq_true in Hreq. by destruct (active_not_requested _ _ _ _ Hs Hact). }
  assert (wp (validateAndProcess env SC ag tmo (g, x)) (leaves_saga R) w1) as Hgo.
  { unfold validateAndProcess. apply wp_bind_ret.
    eapply (isSagaStateValid_spec cid sid d g pre x post); try done.
    - apply Hh.
    - eapply focus_saga_cluster, Hh.
    - apply Hh.
    - intros w2 Hi2. rewrite (validSequence_shape _ _ _ _ Hs Hact). by apply HR.
    - intros w2 Hfa. by destruct (quiet_hitch _ _ Hq); left. }
  destruct (ssi_State x); done.
Qed.

(** A result for a step that awaits one. *)
Lemma result_effect_state r x y log st reason :
  result_effect r x y → last (ssi_ExecutionHistory x) = Some log →
  resultTransition (log_IsCompensation log) (er_Status r) = Some (st, reason) →
  ssi_State y = st ∧ ssi_InstanceId y = ssi_InstanceId x.
Proof.
  intros (log' & now & x1 & x2 & ts & Hl & -> & (ts' & ->) & Hy) Hl' Hr.
  rewrite Hl in Hl'. injection Hl' as <-. rewrite Hr in Hy. destruct Hy as (ts2 & ->).
  by destruct (log_IsCompensation log').
Qed.

Lemma result_applied env r msg p ps d g pre x post w log :
  quiet St env → idle d w → holds g (pre ++ x :: post) d → awaits x →
  last (ssi_ExecutionHistory x) = Some log →
  msg_Payloads msg = p :: ps → pl_Data p = SagaPayloadType_SagaStepExecutionResult r →
  er_SagaInstanceId r = ssi_SagaInstanceId x → er_SagaStepInstanceId r = ssi_InstanceId x →
  er_Status r ≠ ExecutionResultStatusEnum_InExecution →
  wp (consumeResult env cid true (Some msg))
    (returns (λ _ w', ∃ d' y, idle d' w' ∧ result_effect r x y ∧
       at_saga cid sid d g (pre ++ y :: post) d')) w.
Proof.
  intros Hq Hi Hh Hw Hl Hp Hd Hsid Hxid Hst. pose proof (h_focus _ _ _ _ _ Hh) as Hf.
  pose proof (focus_step_row _ _ _ x Hf ltac:(set_solver)) as Hrow.
  pose proof (focus_step_saga _ _ _ x Hf ltac:(set_solver)) as Hxs.
  assert (ignoresResult (ssi_State x) = false) as Hni.
  { by destruct Hw as [[->| ->] _]. }
  unfold consumeResult. simpl. rewrite Hp, Hd, decide_False by done.
  eapply wp_returns_mono; [|apply (processResult_post env cid r d); [apply Hh|done]].
  intros _ w' [(d' & Hi' & Ho)|[[n Hn] _]]; [|by rewrite (quiet_ctx _ _ Hq) in Hn].
  destruct Ho as [[Hno _]|[[(y & Hy & _ & Hnil) _]|Ho]].
  - exfalso. destruct Hno as [Hfa|[[n Hn]|[Hno|[(y & Hy & Hyi)|Hno]]]].
    + apply (quiet_hitch _ _ Hq). by left.
    + by rewrite (quiet_ctx _ _ Hq) in Hn.
    + congruence.
    + congruence.
    + by rewrite Hsid, Hxs, (focus_saga _ _ _ _ _ Hf) in Hno.
  - rewrite Hxid, Hrow in Hy. injection Hy as <-. by rewrite Hnil in Hl.
  - destruct Ho as (sid' & g' & pre' & x' & post' & y & Hf' & Hid' & _ & He & Hat).
    pose proof (focus_step_row _ _ _ x' Hf' ltac:(set_solver)) as Hrow'.
    assert (x' = x) as -> by congruence.
    rewrite (focus_step_saga _ _ _ x Hf') in Hxs by set_solver. subst sid'.
    destruct (focus_det _ _ _ _ _ Hf Hf') as [-> Heq].
    destruct (chain_split _ _ _ _ _ _ (focus_chain _ _ _ _ _ Hf') Heq eq_refl) as (-> & _ & ->).
    by exists d', y.
Qed.

Lemma result_acts env status msg d g pre x post w log st reason :
  quiet St env → idle d w → holds g (pre ++ x :: post) d → awaits x →
  last (ssi_ExecutionHistory x) = Some log →
  resultTransition (log_IsCompensation log) status = Some (st, reason) →
  carries x status msg →
  wp (consumeResult env cid true (Some msg)) (leaves_saga (alone st g pre x post)) w.
Proof.
  intros Hq Hi Hh Hw Hl Hr (p & ps & r & Hp & Hd & Hsid & Hxid & <-).
  eapply wp_returns_mono; [|eapply (result_applied env r); try done].
  2: { intros He. rewrite He in Hr. by destruct (log_IsCompensation log). }
  intros _ w' (d' & y & Hi' & He & Hat).
  destruct (result_effect_state _ _ _ _ _ _ He Hl Hr) as [Hys Hyi].
  assert (ignoresResult (ssi_State x) = false) as Hni by (by destruct Hw as [[->| ->] _]).
  exists d', g, (pre ++ y :: post). split; [done|]. split.
  - eapply holds_at; [done|exact Hat| |done]. by eapply result_effect_inv; [eapply holds_inv| |].
  - exists y. do 4 (split; [done|]). unfold resultTransition in Hr. clear -Hr.
    destruct (er_Status r), (log_IsCompensation log); simplify_eq; intros [?|?]; done.
Qed.

(** *** In the terms of [leads_to] *)

Context (answers : SagaStepInstance → ExecutionResultStatusEnum → Prop).
#[local] Notation leads_to := (leads_to St cid answers).

(** A poll of the active step. *)
Lemma leads_by_poll P d g pre x post (R : SagaInstance → list SagaStepInstance → Prop) :
  holds g (pre ++ x :: post) d → si_State g = SagaStateEnum_Running →
  actionable (ssi_State x) = true →
  (∀ env SC ag tmo w, quiet St env → idle d w →
     wp (followUpLoop env SC ag tmo 11 (g, x)) (leaves_saga R) w) →
  (∀ d' g' ss', holds g' ss' d' → R g' ss' → leads_to P d') → leads_to P d.
Proof.
  intros Hh Hg Ha HR HP.
  apply (leads_poll _ _ _ _ _ x (λ d', ∃ g' ss', holds g' ss' d' ∧ R g' ss')).
  - pose proof (h_focus _ _ _ _ _ Hh) as Hf. split; [eapply focus_step_row; [done|set_solver]|].
    unfold poll_selects. rewrite bool_decide_true by done.
    rewrite (focus_step_saga _ _ _ x Hf), (focus_saga _ _ _ _ _ Hf), Hg by set_solver.
    by destruct (ssi_State x).
  - intros env SC ag tmo Hq w Hi. eapply wp_returns_mono; [|eapply poll_acts; eauto].
    intros [] w' (d' & g' & ss' & Hi' & Hh' & HR'). rewrite Hi'. simpl. eauto.
  - intros d' (g' & ss' & Hh' & HR'). by eapply HP.
Qed.

Lemma leads_by_result P d g pre x post log :
  holds g (pre ++ x :: post) d → awaits x →
  last (ssi_ExecutionHistory x) = Some log →
  (∃ status, answers x status) →
  (∀ status, answers x status → ∃ st reason,
     resultTransition (log_IsCompensation log) status = Some (st, reason) ∧
     ∀ d' x', holds g (pre ++ x' :: post) d' → ssi_InstanceId x' = ssi_InstanceId x →
       ssi_State x' = st → leads_to P d') →
  leads_to P d.
Proof.
  intros Hh Hw Hl Hex HP.
  apply (leads_result _ _ _ _ _ x (λ d', ∃ status st reason x', answers x status ∧
    resultTransition (log_IsCompensation log) status = Some (st, reason) ∧
    holds g (pre ++ x' :: post) d' ∧ ssi_InstanceId x' = ssi_InstanceId x ∧ ssi_State x' = st)).
  - eapply focus_step_row; [apply Hh|set_solver].
  - done.
  - done.
  - intros env status msg Hq Ha Hc w Hi. destruct (HP _ Ha) as (st & reason & Hr & _).
    eapply wp_returns_mono; [|by eapply result_acts].
    intros _ w' (d' & g' & ss' & Hi' & Hh' & x' & -> & -> & Hid & Hst & _). rewrite Hi'. simpl.
    by exists status, st, reason, x'.
  - intros d' (status & st & reason & x' & Ha & Hr & Hh' & Hid & Hst).
    destruct (HP _ Ha) as (st' & reason' & Hr' & Hk). rewrite Hr in Hr'. injection Hr' as <- <-.
    by eapply Hk.
Qed.

(** ** To the end *)

Definition committed d : Prop :=
  ∃ g ss, holds g ss d ∧ si_State g = SagaStateEnum_Committed ∧ Forall Done ss.

Definition compensated d : Prop :=
  ∃ g ss, holds g ss d ∧ si_State g = SagaStateEnum_Compensated ∧ undone ss.

Lemma holds_last_log g pre x post d (b : bool) :
  holds g (pre ++ x :: post) d →
  ssi_State x = (if b then SagaStepStateEnum_CompensationRunning
                 else SagaStepStateEnum_ExecutionRunning) →
  ∃ log, last (ssi_ExecutionHistory x) = Some log ∧ log_IsCompensation log = b.
Proof.
  intros Hh Hx. pose proof (history_ok_at _ _ _ (proj2 (holds_inv _ _ _ _ _ Hh))) as Hok.
  unfold history_ok in Hok. by destruct b; rewrite Hx in Hok.
Qed.

Section compensation.
Context (P : DB → Prop) (HP : ∀ d, compensated d → leads_to P d).
Context (Hans : ∀ x status, ssi_State x = SagaStepStateEnum_CompensationRunning →
  answers x status ↔ status = ExecutionResultStatusEnum_Success).

(** A compensation that has not started is started by the next poll... *)
Lemma comp_candidate_leads g pre x post d :
  holds g (pre ++ x :: post) d → si_State g = SagaStateEnum_Running →
  ssi_State x = SagaStepStateEnum_CompensationCandidate →
  (∀ d' y, holds g (pre ++ y :: post) d' →
     ssi_State y = SagaStepStateEnum_CompensationRunning → request_sent y → leads_to P d') →
  leads_to P d.
Proof.
  intros Hh Hg Hx Hk.
  eapply (leads_by_poll _ _ _ _ _ _ (alone SagaStepStateEnum_CompensationRunning g pre x post) Hh);
    [done|by rewrite Hx|..].
  - intros env SC ag tmo w Hq Hi. eapply loop_comp_candidate; eauto. by eapply synced_self.
  - intros d' g' ss' Hh' (y & -> & -> & _ & Hy & Hs). eapply Hk; eauto.
Qed.

(** ... one that has succeeded hands over to the step before, or ends the
    saga... *)
Lemma comp_succeeded_next g pre x post d :
  holds g (pre ++ x :: post) d → si_State g = SagaStateEnum_Running →
  ssi_State x = SagaStepStateEnum_CompensationSucceeded →
  (∀ d' pre' y post', holds g (pre' ++ y :: post') d' → length pre' < length pre →
     ssi_State y = SagaStepStateEnum_CompensationRunning → request_sent y → leads_to P d') →
  leads_to P d.
Proof using HP.
  intros Hh Hg Hx Hnext.
  eapply (leads_by_poll _ _ _ _ _ _ (comp_succeed_effect g pre x post) Hh); [done|by rewrite Hx|..].
  { intros env SC ag tmo w Hq Hi. eapply loop_comp_succeeded; eauto. by eapply synced_self. }
  intros d2 g2 ss2 Hh2 (x2 & Hm & [(-> & (r & ts & ->) & _ & ->)
    |(-> & pre0 & p & p' & -> & Hp & Hmp & ->)]).
  - apply HP. eexists _, _. split; [done|]. split; [done|].
    destruct (shape_compensating_inv _ _ _ _ (proj1 (holds_inv _ _ _ _ _ Hh)) ltac:(by rewrite Hx))
      as (_ & (ds & aa & -> & Hd & Ha) & _).
    exists (x2 :: ds), aa. split; [done|]. split; [|done]. constructor; [|done].
    by apply (moved_state _ _ _ Hm).
  - eapply comp_candidate_leads; [exact Hh2|done|by apply (moved_state _ _ _ Hmp)|].
    intros d' y Hh' Hy Hs. eapply Hnext; [done| |done..]. rewrite length_app. simpl. lia.
Qed.

(** ... and one that is running, once answered, takes the saga back through
    all the steps before it. *)
Lemma compensation_leads g pre x post d :
  holds g (pre ++ x :: post) d → si_State g = SagaStateEnum_Running →
  ssi_State x = SagaStepStateEnum_CompensationRunning → request_sent x → leads_to P d.
Proof using HP Hans.
  remember (length pre) as n eqn:Hn. revert pre x post d Hn.
  induction (lt_wf n) as [n _ IH]. intros pre x post d -> Hh Hg Hx Hsent.
  destruct (holds_last_log _ _ _ _ _ true Hh Hx) as (log & Hl & Hlc).
  eapply (leads_by_result _ _ _ _ _ _ _ Hh); [by split; [right|]|exact Hl|..].
  { exists ExecutionResultStatusEnum_Success. by apply Hans. }
  intros status ->%Hans; [|done]. rewrite Hlc. eexists _, _. split; [done|].
  intros d1 x1 Hh1 _ Hx1. eapply comp_succeeded_next; eauto.
Qed.

(** A committed saga whose compensation was asked for. *)
Lemma requested_leads g ss d :
  holds g ss d → ss ≠ [] → si_State g = SagaStateEnum_CompensationRequested → leads_to P d.
Proof using HP Hans.
  intros Hh Hne Hg. pose proof (h_focus _ _ _ _ _ Hh) as Hf.
  pose proof (shape_committed_inv _ _ (proj1 (holds_inv _ _ _ _ _ Hh)) (or_intror Hg)) as Hd.
  destruct ss as [|x pre _] using rev_ind; [done|clear Hne].
  apply (leads_poll _ _ _ _ _ x (λ d', ∃ g' ss', holds g' ss' d' ∧ initiate_effect g pre x g' ss')).
  - split; [eapply focus_step_row; [done|set_solver]|]. unfold poll_selects.
    rewrite bool_decide_true by done.
    rewrite (focus_step_saga _ _ _ x Hf), (focus_saga _ _ _ _ _ Hf), Hg by set_solver.
    apply Forall_app in Hd as [_ [Hx _]%Forall_cons]. unfold Done, in_state in Hx. by rewrite Hx.
  - intros env SC ag tmo Hq w Hi. eapply (Mutex_acts env _ (λ w', ∃ g' ss',
      holds g' ss' (v_com (wv w')) ∧ initiate_effect g pre x g' ss')); [done..|].
    clear w Hi. intros w Hi. apply wp_bind_ret.
    rewrite (focus_step_saga _ _ _ x Hf) by set_solver.
    eapply wp_returns_mono; [|by eapply (refresh_acts env d g pre x [])].
    intros o w1 [-> Hi1]. simpl. rewrite Hg.
    eapply wp_returns_mono; [|by eapply initiateCompensation_settles].
    intros [] w2 ([f o] & d' & Hi2 & g' & ss' & Hat & Hmay & _). rewrite Hi2. simpl.
    assert (initiate_effect g pre x g' ss') as He.
    { simpl in Hmay. inversion Hmay; subst; try done; by destruct (quiet_hitch _ _ Hq); left. }
    exists g', ss'. split; [|done]. eapply holds_at; [done|done|by eapply initiate_effect_inv|].
    by destruct He as ((r & ts & ->) & _).
  - intros d1 (g1 & ss1 & Hh1 & (r & ts & ->) & _ & pre1 & x1 & Hpre1 & Hm & ->).
    eapply comp_candidate_leads; [exact Hh1|done|by apply (moved_state _ _ _ Hm)|].
    intros d' y Hh' Hy Hs. by eapply compensation_leads.
Qed.
End compensation.

(** *** Forward *)

Section forward.
Context (P : DB → Prop) (HP : ∀ d, committed d → leads_to P d).
Context (Hans : ∀ x, ssi_State x = SagaStepStateEnum_ExecutionRunning →
  ∃ status, answers x status).
Context (Hturn : ∀ x status, ssi_State x = SagaStepStateEnum_ExecutionRunning →
  answers x status → status = ExecutionResultStatusEnum_Success ∨
  status ≠ ExecutionResultStatusEnum_InExecution ∧
  ∀ g pre y post d, holds g (pre ++ y :: post) d → si_State g = SagaStateEnum_Running →
    ssi_State y = SagaStepStateEnum_CompensationRunning → request_sent y → leads_to P d).

(** A step that has succeeded hands over to the next one, or ends the saga. *)
Lemma succeeded_leads g pre x post d :
  holds g (pre ++ x :: post) d → si_State g = SagaStateEnum_Running →
  ssi_State x = SagaStepStateEnum_ExecutionSucceeded →
  (∀ d' pre' y post', holds g (pre' ++ y :: post') d' → length post' < length post →
     ssi_State y = SagaStepStateEnum_ExecutionCandidate → leads_to P d') →
  leads_to P d.
Proof using HP.
  intros Hh Hg Hx Hnext.
  eapply (leads_by_poll _ _ _ _ _ _ (succeed_effect g pre x post) Hh);
    [done|by rewrite Hx| |].
  - intros env SC ag tmo w Hq Hi. eapply loop_succeeded; eauto. by eapply synced_self.
  - intros d' g' ss' Hh' (x' & Hm & He). destruct post as [|y post].
    + destruct He as (Hd & (r & ts & ->) & ->). apply HP. eexists _, _. split; [done|].
      split; [done|]. apply Forall_app. split; [done|]. constructor; [|done].
      by apply (moved_state _ _ _ Hm).
    + destruct He as (-> & _ & y' & Hmy & ->). eapply (Hnext _ (pre ++ [x']) y' post).
      * by rewrite <-app_assoc.
      * simpl. lia.
      * by apply (moved_state _ _ _ Hmy).
Qed.

Lemma failed_leads g pre x post d :
  holds g (pre ++ x :: post) d → si_State g = SagaStateEnum_Running →
  ssi_State x = SagaStepStateEnum_ExecutionFailed →
  (∀ g pre y post d, holds g (pre ++ y :: post) d → si_State g = SagaStateEnum_Running →
     ssi_State y = SagaStepStateEnum_CompensationRunning → request_sent y → leads_to P d) →
  leads_to P d.
Proof.
  intros Hh Hg Hx Hk. eapply (leads_by_poll _ _ _ _ _ _ (turned g pre x) Hh);
    [done|by rewrite Hx| |].
  - intros env SC ag tmo w Hq Hi. eapply loop_failed; eauto. by eapply synced_self.
  - intros d' g' ss' Hh' (pre' & x' & post' & -> & (r & ts & ->) & _ & Hx' & Hs' & _).
    by eapply Hk.
Qed.

Lemma running_leads g pre x post d :
  holds g (pre ++ x :: post) d → si_State g = SagaStateEnum_Running →
  ssi_State x = SagaStepStateEnum_ExecutionRunning → request_sent x →
  (∀ d' pre' y post', holds g (pre' ++ y :: post') d' → length post' < length post →
     ssi_State y = SagaStepStateEnum_ExecutionCandidate → leads_to P d') →
  leads_to P d.
Proof using HP Hans Hturn.
  intros Hh Hg Hx Hsent Hnext. destruct (holds_last_log _ _ _ _ _ false Hh Hx) as (log & Hl & Hlc).
  eapply (leads_by_result _ _ _ _ _ _ _ Hh); [by split; [left|]|exact Hl|by apply Hans|].
  intros status Ha. rewrite Hlc.
  destruct (Hturn _ _ Hx Ha) as [->|[Hne Hk]].
  { eexists _, _. split; [done|]. intros d' x' Hh' _ Hx'. by eapply succeeded_leads. }
  destruct (decide (status = ExecutionResultStatusEnum_Success)) as [->|Hs].
  { eexists _, _. split; [done|]. intros d' x' Hh' _ Hx'. by eapply succeeded_leads. }
  assert (∃ reason, resultTransition false status =
    Some (SagaStepStateEnum_ExecutionFailed, reason)) as [reason Hr].
  { destruct status; try done; by eexists. }
  exists SagaStepStateEnum_ExecutionFailed, reason. split; [done|].
  intros d' x' Hh' _ Hx'. by eapply failed_leads.
Qed.

Lemma candidate_leads g pre x post d :
  holds g (pre ++ x :: post) d → si_State g = SagaStateEnum_Running →
  ssi_State x = SagaStepStateEnum_ExecutionCandidate → leads_to P d.
Proof using HP Hans Hturn.
  remember (length post) as n eqn:Hn. revert pre x post d Hn.
  induction (lt_wf n) as [n _ IH]. intros pre x post d -> Hh Hg Hx.
  eapply (leads_by_poll _ _ _ _ _ _ (alone SagaStepStateEnum_ExecutionRunning g pre x post) Hh);
    [done|by rewrite Hx| |].
  - intros env SC ag tmo w Hq Hi. eapply loop_candidate; eauto. by eapply synced_self.
  - intros d' g' ss' Hh' (x' & -> & -> & _ & Hx' & Hs'). eapply running_leads; eauto.
Qed.
End forward.
End rounds.

(** ** Properties *)

(** Every request is answered by success. *)
Definition all_succeed (x : SagaStepInstance) (status : ExecutionResultStatusEnum) : Prop :=
  status = ExecutionResultStatusEnum_Success.

(** A forward request may be answered by anything that is a result, a
    compensation is answered by success. *)
Definition compensations_succeed (x : SagaStepInstance) (status : ExecutionResultStatusEnum) :
    Prop :=
  status ≠ ExecutionResultStatusEnum_InExecution ∧
  (ssi_State x = SagaStepStateEnum_CompensationRunning →
   status = ExecutionResultStatusEnum_Success).

(** A step on its way forward that nothing holds up. *)
Definition goes_forward (x : SagaStepInstance) : Prop :=
  ssi_State x = SagaStepStateEnum_ExecutionCandidate ∨
  ssi_State x = SagaStepStateEnum_ExecutionSucceeded ∨
  ssi_State x = SagaStepStateEnum_ExecutionRunning ∧ request_sent x.

Definition goes_back (x : SagaStepInstance) : Prop :=
  ssi_State x = SagaStepStateEnum_ExecutionFailed ∨
  ssi_State x = SagaStepStateEnum_CompensationCandidate ∨
  ssi_State x = SagaStepStateEnum_CompensationSucceeded ∨
  ssi_State x = SagaStepStateEnum_CompensationRunning ∧ request_sent x.

Section theorems.
Context {St : Type} `{!Store St, !StoreLaws St} (cid sid : string).

(** A running saga whose requests are all answered by success is
    committed with every step done, after finitely many polls and results,
    whatever the runs do. *)
Theorem saga_commits d g pre x post :
  holds cid sid g (pre ++ x :: post) d → si_State g = SagaStateEnum_Running → goes_forward x →
  leads_to St cid all_succeed (committed cid sid) d.
Proof.
  intros Hh Hg Hx.
  assert (∀ d, committed cid sid d → leads_to St cid all_succeed (committed cid sid) d) as HP
    by by intros; apply leads_now.
  assert (∀ d pre y post, holds cid sid g (pre ++ y :: post) d →
    ssi_State y = SagaStepStateEnum_ExecutionCandidate →
    leads_to St cid all_succeed (committed cid sid) d) as Hc.
  { intros. eapply (candidate_leads cid sid all_succeed); eauto; intros; by eexists. }
  destruct Hx as [Hx|[Hx|[Hx Hs]]]; [by eapply Hc|eapply (succeeded_leads cid sid); eauto|].
  eapply (running_leads cid sid all_succeed); eauto; intros; by eexists.
Qed.

(** C1: where nothing goes wrong ([quiet]: in each run no statement and no message
    fails, the lock is had, the context is not done and the clock stands still),
    a running saga without child sagas whose step at work is a candidate, has
    ended, or runs with its request sent ([request_sent]; a step whose request
    could not be sent is never looked at again) comes to an end: when its forward
    requests are answered in any way but by IN_EXECUTION, and its compensations by
    success, it is committed with every step done or compensated with every step
    compensated or aborted, after finitely many polls and results. *)
Theorem saga_ends d g pre x post :
  holds cid sid g (pre ++ x :: post) d → si_State g = SagaStateEnum_Running →
  goes_forward x ∨ goes_back x →
  leads_to St cid compensations_succeed (λ d, committed cid sid d ∨ compensated cid sid d) d.
Proof.
  intros Hh Hg Hx. set (P := λ d, committed cid sid d ∨ compensated cid sid d).
  assert (∀ d, committed cid sid d → leads_to St cid compensations_succeed P d) as HP
    by by intros; apply leads_now; left.
  assert (∀ d, compensated cid sid d → leads_to St cid compensations_succeed P d) as HQ
    by by intros; apply leads_now; right.
  assert (∀ x status, ssi_State x = SagaStepStateEnum_CompensationRunning →
    compensations_succeed x status ↔ status = ExecutionResultStatusEnum_Success) as Hback.
  { intros y status Hy. split; [by intros [_ ?]; auto|by intros ->]. }
  assert (∀ x, ssi_State x = SagaStepStateEnum_ExecutionRunning →
    ∃ status, compensations_succeed x status) as Hex.
  { intros y Hy. exists ExecutionResultStatusEnum_Success. by split. }
  assert (∀ g pre y post d, holds cid sid g (pre ++ y :: post) d →
    si_State g = SagaStateEnum_Running → ssi_State y = SagaStepStateEnum_CompensationRunning →
    request_sent y → leads_to St cid compensations_succeed P d) as Hk.
  { intros. by eapply (compensation_leads cid sid). }
  assert (∀ x status, ssi_State x = SagaStepStateEnum_ExecutionRunning →
    compensations_succeed x status → status = ExecutionResultStatusEnum_Success ∨
    status ≠ ExecutionResultStatusEnum_InExecution ∧
    ∀ g pre y post d, holds cid sid g (pre ++ y :: post) d → si_State g = SagaStateEnum_Running →
      ssi_State y = SagaStepStateEnum_CompensationRunning → request_sent y →
      leads_to St cid compensations_succeed P d) as Ht.
  { intros y status _ [Hne _]. by right. }
  assert (∀ d pre y post, holds cid sid g (pre ++ y :: post) d →
    ssi_State y = SagaStepStateEnum_ExecutionCandidate →
    leads_to St cid compensations_succeed P d) as Hc.
  { intros. by eapply (candidate_leads cid sid). }
  destruct Hx as [[Hx|[Hx|[Hx Hs]]]|[Hx|[Hx|[Hx|[Hx Hs]]]]].
  - by eapply Hc.
  - eapply (succeeded_leads cid sid); eauto.
  - eapply (running_leads cid sid); eauto.
  - eapply (failed_leads cid sid); eauto.
  - eapply (comp_candidate_leads cid sid); eauto.
  - eapply (comp_succeeded_next cid sid); eauto.
  - eauto.
Qed.

(** C5: under the same conditions ([quiet] runs, no child sagas, and a database
    that is well-formed) a committed saga whose compensation is requested is
    compensated, every step of it, after finitely many polls and results, when
    its compensations are answered by success. *)
Theorem requested_compensation_completes d g ss :
  holds cid sid g ss d → ss ≠ [] → si_State g = SagaStateEnum_CompensationRequested →
  leads_to St cid all_succeed (compensated cid sid) d.
Proof.
  intros Hh Hne Hg. eapply (requested_leads cid sid); [|done|exact Hh|done|done].
  intros. by apply leads_now.
Qed.
End theorems.
