(* ===== verification/Demo.v ===== *)
(** * A concrete server and database

    The surroundings in which the examples of the development run: a server
    that carries out every statement and returns rows in the order of their
    keys, a broker that takes every message, a clock that stands still, and a
    database with the tables of one cluster and the template of a saga of two
    steps. *)

From S2P Require Import Prelude GoMonad Model Random Naming Sequence Database Focus Store.
From S2P Require Import PsqlStore PsqlLaws Messages World Coordinator Results Rules Protocol.
From S2P Require Import HandlerSpecs Invariant SubmissionSpecs Locked Progress Liveness.

(** ** The server and the surroundings *)

Notation CalmStore := (psqlStore calm_server).

Lemma calm_not_faulty : ¬ faulty (St := CalmStore).
Proof. by intros [n Hn]. Qed.


(** The first character of the string drawn at a question tells the
    question. *)
Definition calm_env : Env :=
  mkEnv (λ _, 1000%Z) (λ n i, if decide (i = 0) then n else 0) (λ _, MqSent) (λ _, false)
    (λ _, true).

Definition fresh_world (d : DB) : World CalmStore := mkWorld (mkPsqlStore d ∅ 0 0) [] [] 0.

Lemma fresh_world_idle d : idle d (fresh_world d).
Proof. reflexivity. Qed.

(** The database a method leaves. *)
Definition after {A} (m : M (World CalmStore) A) (d : DB) : DB := v_com (wv (m (fresh_world d)).2).

(** ** The database *)

Definition order_template : SagaTemplate := mkSagaTemplate "order" "" "" ∅ [] ∅ ["reserve"; "pay"].

Definition step_template (id : string) : SagaStepTemplate :=
  mkSagaStepTemplate id "order" "" "" ∅ [] ∅.

(** The tables of the cluster [main] with one saga in them. *)
Definition main_db (gs : gmap string SagaInstance) (xs : gmap string SagaStepInstance) : DB :=
  mkDB {["main" := mkCluster "main" "" "" ∅ [] ∅]} {["order" := order_template]}
    (<["reserve" := step_template "reserve"]> {["pay" := step_template "pay"]})
    {[getSagaInstancesTableName "main" := gs]} {[getSagaStepInstancesTableName "main" := xs]}
    {[getSagaAnnexesTableName "main" := ∅]} [].

Definition empty_db : DB := main_db ∅ ∅.

Definition saga_db (g : SagaInstance) (ss : list SagaStepInstance) : DB :=
  main_db {[si_InstanceId g := g]} (steps_map ss).

Lemma saga_table_main gs xs c :
  saga_table c (main_db gs xs) = if decide (c = "main") then Some gs else None.
Proof.
  unfold saga_table, main_db. simpl. case_decide as Hc; [by subst; rewrite lookup_singleton_eq|].
  apply lookup_singleton_ne. intros Heq. by apply Hc, getSagaInstancesTableName_inj.
Qed.

Lemma step_table_main gs xs c :
  step_table c (main_db gs xs) = if decide (c = "main") then Some xs else None.
Proof.
  unfold step_table, main_db. simpl. case_decide as Hc; [by subst; rewrite lookup_singleton_eq|].
  apply lookup_singleton_ne. intros Heq. by apply Hc, getSagaStepInstancesTableName_inj.
Qed.

Lemma saga_db_focus g ss :
  si_ClusterId g = "main" → chain ss →
  Forall (λ x, ssi_ClusterId x = "main" ∧ ssi_SagaInstanceId x = si_InstanceId g ∧
    no_dot (ssi_InstanceId x) = true) ss →
  focus "main" (si_InstanceId g) (saga_db g ss) g ss.
Proof.
  intros Hg Hc Hss.
  assert (step_rows "main" (saga_db g ss) = steps_map ss) as Hrows.
  { unfold step_rows, saga_db. rewrite step_table_main, decide_True by done. simpl.
    apply map_eq. intros k. rewrite lookup_fmap. destruct (steps_map ss !! k) as [x|] eqn:Hx; [|done].
    apply steps_map_lookup in Hx as [Hx _]; [|apply Hc]. simpl. f_equal.
    rewrite Forall_forall in Hss. destruct (Hss _ Hx) as [Hxc _]. by destruct x; simpl in *; subst. }
  split.
  - unfold saga_db. split; [rewrite saga_table_main|rewrite step_table_main];
      rewrite decide_True by done; by eexists.
  - unfold saga_rows, saga_db. rewrite saga_table_main, decide_True by done. simpl.
    rewrite lookup_fmap, lookup_singleton_eq. simpl. f_equal. by destruct g; simpl in *; subst.
  - done.
  - unfold steps_of. rewrite Hrows. apply map_filter_id. intros k x Hx. simpl.
    apply steps_map_lookup in Hx as [Hx _]; [|apply Hc]. rewrite Forall_forall in Hss.
    by apply Hss.
  - done.
  - eapply Forall_impl; [exact Hss|]. by intros x (_ & _ & ?).
Qed.

Lemma saga_db_ok g ss :
  si_ClusterId g = "main" → chain ss →
  Forall (λ x, ssi_ClusterId x = "main" ∧ ssi_SagaInstanceId x = si_InstanceId g ∧
    no_dot (ssi_InstanceId x) = true) ss →
  saga_inv g ss → db_ok (saga_db g ss).
Proof.
  intros Hg Hc Hss Hinv. pose proof (saga_db_focus g ss Hg Hc Hss) as Hf. split.
  - intros c sid g' Hg'. assert (c = "main") as ->.
    { unfold saga_rows, saga_db in Hg'. rewrite saga_table_main in Hg'. case_decide; [done|].
      by rewrite lookup_fmap in Hg'. }
    assert (sid = si_InstanceId g) as ->.
    { unfold saga_rows, saga_db in Hg'. rewrite saga_table_main, decide_True in Hg' by done.
      rewrite lookup_fmap in Hg'. simpl in Hg'.
      by apply fmap_Some in Hg' as (y & [<- _]%lookup_singleton_Some & _). }
    rewrite (focus_saga _ _ _ _ _ Hf) in Hg'. injection Hg' as <-. by exists ss.
  - intros c k x Hx. assert (c = "main") as ->.
    { unfold step_rows, saga_db in Hx. rewrite step_table_main in Hx. case_decide; [done|].
      by rewrite lookup_fmap in Hx. }
    assert (x ∈ ss) as Hin.
    { unfold step_rows, saga_db in Hx. rewrite step_table_main, decide_True in Hx by done.
      rewrite lookup_fmap in Hx. simpl in Hx. apply fmap_Some in Hx as (y & Hy & ->).
      apply steps_map_lookup in Hy as [Hy _]; [|apply Hc].
      rewrite Forall_forall in Hss. destruct (Hss _ Hy) as [Hyc _].
      by destruct y; simpl in *; subst. }
    rewrite Forall_forall in Hss. destruct (Hss _ Hin) as (_ & -> & _).
    rewrite (focus_saga _ _ _ _ _ Hf). by eexists.
  - intros c. unfold saga_db. rewrite saga_table_main, step_table_main. by case_decide.
Qed.

Lemma empty_db_ok : db_ok empty_db.
Proof.
  split.
  - intros c sid g. unfold empty_db, saga_rows. rewrite saga_table_main, lookup_fmap.
    by case_decide.
  - intros c k x. unfold empty_db, step_rows. rewrite step_table_main, lookup_fmap.
    by case_decide.
  - intros c. unfold empty_db. rewrite saga_table_main, step_table_main. by case_decide.
Qed.

(** ** Two sagas from submission to end

    The coordinator on the PostgreSQL store of Demo.v: a saga of two
    steps is submitted, and every entry point is run on the database that the
    one before left.  Once both steps succeed, and once the second one
    fails. *)

(** ** What is submitted and answered *)

Definition order_request : SagaSubmissionRequestPayload :=
  mkSagaSubmissionRequestPayload "sub1" "order" "s1" "z1" (<["amount" := "10"]> ∅) "" "" "" 0.

Definition message_with (d : PayloadData) : TraxMessage :=
  mkTraxMessage "trax.TraxMessage" "v1.0.0" "m1" "" "" "" "t1" "main" "0" ∅ [] "shop" "k1" "shop"
    "sub1" "" "" Anonymous [json_payload d].

Definition order_message : TraxMessage :=
  message_with (SagaPayloadType_SagaSubmissionRequest order_request).

Definition answer_message (sid xid : string) (status : ExecutionResultStatusEnum) : TraxMessage :=
  message_with (SagaPayloadType_SagaStepExecutionResult
    (mkSagaStepExecutionResultPayload "sub1" sid xid "z1" status (<["done" := xid]> ∅))).

Definition submit : M (World CalmStore) (result unit) :=
  consumeSubmission calm_env "coordinator" "default" (λ c s, c +:+ "." +:+ s) true order_message.

Definition poll_of (sid xid : string) : M (World CalmStore) unit :=
  processPolledStep calm_env "coordinator" "default" 900000 "main"
    (set_ssi_State SagaStepStateEnum_ExecutionCandidate
       (mkSagaStepInstance xid "main" "z1" sid "" "" ∅ [] ∅ "default"
          SagaStepStateEnum_ExecutionCandidate ∅ ∅ "" "" "" "" [] 0 0)).

Definition answer_of (sid xid : string) (status : ExecutionResultStatusEnum) :
    M (World CalmStore) (result unit) :=
  consumeResult calm_env "main" true (Some (answer_message sid xid status)).

(** The identifiers of the steps: what is drawn at the second and the fourth
    question. *)
Definition first_id : string := "baaaaaaaaaaaaaaaaaaaaaaaaaaaaaaa".
Definition second_id : string := "daaaaaaaaaaaaaaaaaaaaaaaaaaaaaaa".

(** ** The runs *)

Inductive event :=
  | Poll (xid : string)
  | Answer (xid : string) (status : ExecutionResultStatusEnum)
  | Trigger.

Definition perform (e : event) (d : DB) : DB :=
  match e with
  | Poll xid => after (poll_of "s1" xid) d
  | Answer xid status => after (answer_of "s1" xid status) d
  | Trigger => after (call (TriggerSagaCompensation "main" "s1")) d
  end.

Definition play (es : list event) : DB := foldl (λ d e, perform e d) (after submit empty_db) es.

(** The state of the saga and of its steps. *)
Definition picture (d : DB) : option SagaStateEnum * list SagaStepStateEnum :=
  (si_State <$> saga_rows "main" d !! "s1",
   ssi_State <$> (map_to_list (steps_of "main" "s1" d)).*2).

Definition Success := ExecutionResultStatusEnum_Success.
Definition Failed := ExecutionResultStatusEnum_Failed.

Definition both_succeed : list event :=
  [Poll first_id; Answer first_id Success; Poll first_id;
   Poll second_id; Answer second_id Success; Poll second_id].

Definition second_fails : list event :=
  [Poll first_id; Answer first_id Success; Poll first_id;
   Poll second_id; Answer second_id Failed; Poll second_id;
   Answer second_id Success; Poll second_id;
   Poll first_id; Answer first_id Success; Poll first_id].

Definition undone_later : list event :=
  both_succeed ++ [Trigger; Poll second_id; Poll second_id; Answer second_id Success; Poll second_id;
                   Poll first_id; Answer first_id Success; Poll first_id].

Example submitted_picture :
  picture (play []) =
    (Some SagaStateEnum_Running,
     [SagaStepStateEnum_ExecutionCandidate; SagaStepStateEnum_ExecutionPending]).
Proof. vm_compute. reflexivity. Qed.

Example both_succeed_picture :
  picture (play both_succeed) =
    (Some SagaStateEnum_Committed,
     [SagaStepStateEnum_ExecutionDone; SagaStepStateEnum_ExecutionDone]).
Proof. vm_compute. reflexivity. Qed.

Example second_fails_picture :
  picture (play second_fails) =
    (Some SagaStateEnum_Compensated,
     [SagaStepStateEnum_CompensationDone; SagaStepStateEnum_CompensationDone]).
Proof. vm_compute. reflexivity. Qed.

Example undone_later_picture :
  picture (play undone_later) =
    (Some SagaStateEnum_Compensated,
     [SagaStepStateEnum_CompensationDone; SagaStepStateEnum_CompensationDone]).
Proof. vm_compute. reflexivity. Qed.

(** ** They are runs of the system *)

Lemma runs_after {A} (m : M (World CalmStore) A) d : runs CalmStore m d (after m d).
Proof.
  exists (fresh_world d), (m (fresh_world d)).1, (m (fresh_world d)).2.
  split; [done|]. split; [apply surjective_pairing|done].
Qed.

Lemma perform_step e d : system_step CalmStore d (perform e d).
Proof.
  destruct e.
  - by eapply step_poll, runs_after.
  - by eapply step_result, runs_after.
  - by eapply step_trigger, runs_after.
Qed.

Lemma calm_drawn_inj n m : n < 10 → m < 10 → drawn calm_env n = drawn calm_env m → n = m.
Proof.
  intros Hn Hm.
  assert (Forall (λ n, Forall (λ m, drawn calm_env n = drawn calm_env m → n = m) (seq 0 10))
    (seq 0 10)) as Hall by (apply (bool_decide_unpack _); vm_compute; done).
  rewrite Forall_forall in Hall. specialize (Hall n ltac:(apply elem_of_seq; lia)).
  rewrite Forall_forall in Hall. apply Hall. apply elem_of_seq. lia.
Qed.

Lemma submit_draws_new : draws_new CalmStore calm_env empty_db order_message (fresh_world empty_db).
Proof.
  intros tmpl Ht. vm_compute in Ht. injection Ht as <-. split.
  - intros n m Hn Hm. simpl in Hn, Hm. apply calm_drawn_inj; lia.
  - intros n c _. unfold step_rows, empty_db. rewrite step_table_main.
    case_decide; simpl; by rewrite ?fmap_empty, lookup_empty.
Qed.

Lemma submit_step : system_step CalmStore empty_db (after submit empty_db).
Proof.
  eapply (step_submission _ _ _ calm_env "coordinator" "default" (λ c s, c +:+ "." +:+ s) true
    order_message (fresh_world empty_db)); [done|apply submit_draws_new|apply surjective_pairing|done].
Qed.

Lemma play_reachable es : reachable CalmStore empty_db (play es).
Proof.
  unfold play. eapply rtc_l; [apply submit_step|]. generalize (after submit empty_db).
  induction es as [|e es IH]; intros d; [apply rtc_refl|]. simpl.
  eapply rtc_l; [apply perform_step|apply IH].
Qed.

(** ** Sagas in the middle *)

Lemma calm_quiet : quiet CalmStore calm_env.
Proof.
  split; try done. intros [[n Hn]|[n Hn]]; [by apply Hn|by apply Hn].
Qed.

(** The saga alone in its cluster. *)
Lemma saga_holds g ss :
  si_ClusterId g = "main" → chain ss →
  Forall (λ x, ssi_ClusterId x = "main" ∧ ssi_SagaInstanceId x = si_InstanceId g ∧
    no_dot (ssi_InstanceId x) = true) ss →
  saga_inv g ss → si_ParentSagaInstanceId g = "" → si_InstanceId g ≠ "" →
  holds "main" (si_InstanceId g) g ss (saga_db g ss).
Proof.
  intros Hg Hc Hss Hinv Hp Hne. pose proof (saga_db_focus g ss Hg Hc Hss) as Hf.
  split; [by apply saga_db_ok|done|]. apply map_eq. intros k. rewrite lookup_empty.
  apply map_lookup_filter_None. right. intros h Hh [Hph _]. simpl in *.
  unfold saga_rows, saga_db in Hh. rewrite saga_table_main, decide_True in Hh by done.
  rewrite lookup_fmap in Hh. simpl in Hh.
  apply fmap_Some in Hh as (y & [<- <-]%lookup_singleton_Some & ->). simpl in Hph. congruence.
Qed.

Lemma sample_chain a b c : chain (sample_steps a b c).
Proof. split; [by repeat split|apply (bool_decide_unpack _); by vm_compute|by repeat constructor]. Qed.

Definition forward_steps : list SagaStepInstance :=
  sample_steps SagaStepStateEnum_ExecutionDone SagaStepStateEnum_ExecutionCandidate
    SagaStepStateEnum_ExecutionPending.

Definition forward_db : DB := saga_db (sample_saga SagaStateEnum_Running "") forward_steps.

Lemma forward_holds :
  holds "main" "s1" (sample_saga SagaStateEnum_Running "") forward_steps forward_db.
Proof.
  apply (saga_holds (sample_saga SagaStateEnum_Running "")); try done.
  - apply sample_chain.
  - by repeat constructor.
  - split; [|by repeat constructor].
    apply (shape_forward _ [_] _ [_]); [by repeat constructor|done|by repeat constructor|by left].
Qed.

Lemma forward_draws_new tmpl :
  db_saga_templates forward_db !! sr_SagaTemplateId order_request = Some tmpl →
  fresh_draws calm_env forward_db 1 (2 * length (st_SagaStepTemplateIds tmpl)).
Proof.
  intros Ht. vm_compute in Ht. injection Ht as <-. split.
  - intros n m Hn Hm. simpl in Hn, Hm. apply calm_drawn_inj; lia.
  - intros n c Hn. unfold step_rows, forward_db, saga_db. rewrite step_table_main.
    case_decide; simpl; [|by rewrite fmap_empty, lookup_empty].
    rewrite lookup_fmap. simpl in Hn.
    do 5 (destruct n as [|n]; [lia || (vm_compute; done)|]). lia.
Qed.

(** The middle step has been asked to run. *)
Definition running_steps : list SagaStepInstance :=
  [sample_step "a" "" "b" SagaStepStateEnum_ExecutionDone [];
   sample_step "b" "a" "c" SagaStepStateEnum_ExecutionRunning [sample_log 5 10 false];
   sample_step "c" "b" "" SagaStepStateEnum_ExecutionPending []].

Definition running_db : DB := saga_db (sample_saga SagaStateEnum_Running "") running_steps.

Lemma running_holds :
  holds "main" "s1" (sample_saga SagaStateEnum_Running "") running_steps running_db.
Proof.
  apply (saga_holds (sample_saga SagaStateEnum_Running "")); try done.
  - split; [by repeat split|apply (bool_decide_unpack _); by vm_compute|by repeat constructor].
  - by repeat constructor.
  - split; [|repeat constructor; by eexists].
    apply (shape_forward _ [_] _ [_]); [by repeat constructor|done|by repeat constructor|by left].
Qed.

Definition done_steps : list SagaStepInstance :=
  sample_steps SagaStepStateEnum_ExecutionDone SagaStepStateEnum_ExecutionDone
    SagaStepStateEnum_ExecutionDone.

Definition requested_db : DB :=
  saga_db (sample_saga SagaStateEnum_CompensationRequested "") done_steps.

Lemma requested_holds :
  holds "main" "s1" (sample_saga SagaStateEnum_CompensationRequested "") done_steps requested_db.
Proof.
  apply (saga_holds (sample_saga SagaStateEnum_CompensationRequested "")); try done.
  - apply sample_chain.
  - by repeat constructor.
  - split; [|by repeat constructor]. apply shape_done; [by repeat constructor|by right; left].
Qed.

(** ** They come to an end *)

Lemma saga_commits_witness :
  leads_to CalmStore "main" all_succeed (committed "main" "s1") forward_db.
Proof.
  apply (saga_commits "main" "s1" forward_db (sample_saga SagaStateEnum_Running "")
    [sample_step "a" "" "b" SagaStepStateEnum_ExecutionDone []]
    (sample_step "b" "a" "c" SagaStepStateEnum_ExecutionCandidate [])
    [sample_step "c" "b" "" SagaStepStateEnum_ExecutionPending []]);
    [apply forward_holds|reflexivity|left; reflexivity].
Defined.

Lemma saga_ends_witness :
  leads_to CalmStore "main" compensations_succeed
    (λ d, committed "main" "s1" d ∨ compensated "main" "s1" d) running_db.
Proof.
  apply (saga_ends "main" "s1" running_db (sample_saga SagaStateEnum_Running "")
    [sample_step "a" "" "b" SagaStepStateEnum_ExecutionDone []]
    (sample_step "b" "a" "c" SagaStepStateEnum_ExecutionRunning [sample_log 5 10 false])
    [sample_step "c" "b" "" SagaStepStateEnum_ExecutionPending []]);
    [apply running_holds|reflexivity|left; right; right].
  split; [reflexivity|]. exists (sample_log 5 10 false). split; [reflexivity|]. simpl. lia.
Defined.

Lemma requested_compensation_completes_witness :
  leads_to CalmStore "main" all_succeed (compensated "main" "s1") requested_db.
Proof.
  apply (requested_compensation_completes "main" "s1" requested_db
    (sample_saga SagaStateEnum_CompensationRequested "") done_steps);
    [apply requested_holds|discriminate|reflexivity].
Defined.
