(* ===== verification/Guarantees.v ===== *)
(** * What the coordinator guarantees

    The properties of the system of Progress.v: what every reachable database
    looks like, what every run does whatever its surroundings do, and which
    sagas it may mark invalid.  Each is followed by its instance on a run of
    Demo.v. *)

From S2P Require Import Prelude GoMonad Model Random Naming Json Sequence Validation.
From S2P Require Import Database Focus Store PsqlStore PsqlLaws Messages World Executor.
From S2P Require Import Coordinator Results ExecutorPool Rules Polling Transit.
From S2P Require Import Protocol HandlerSpecs Invariant Demo SubmissionSpecs Locked.
From S2P Require Import ResultSpecs Progress Liveness.

Section guarantees.
Context (St : Type) `{!Store St, !StoreLaws St}.
Implicit Types (d : DB) (w : World St) (g : SagaInstance) (x : SagaStepInstance).

(** ** Reachable databases *)

(** C4: every database the system reaches is well formed: the steps of each
    saga form one chain, its states are one of the patterns the validation
    accepts, and every step belongs to a saga. *)
Theorem reachable_well_formed d d' : db_ok d → reachable St d d' → db_ok d'.
Proof. apply reachable_ok. Qed.

(** C6: a saga is reported as committed, and its compensation can be asked
    for, only when every step of it is done. *)
Theorem committed_means_done d d' c sid g :
  db_ok d → reachable St d d' → saga_rows c d' !! sid = Some g →
  si_State g = SagaStateEnum_Committed ∨ si_State g = SagaStateEnum_CompensationRequested →
  ∃ ss, focus c sid d' g ss ∧ Forall Done ss.
Proof.
  intros Hok Hr Hg Hst. destruct (ok_sagas _ (reachable_ok _ _ _ Hok Hr) _ _ _ Hg) as (ss & Hf & Hs & _).
  exists ss. split; [done|]. by eapply shape_committed_inv.
Qed.

(** C7: a saga is reported as compensated only when no step of it has an
    effect left, each being compensated or never started, unless an operator
    has overridden it. *)
Theorem compensated_means_undone d d' c sid g :
  db_ok d → reachable St d d' → saga_rows c d' !! sid = Some g →
  si_State g = SagaStateEnum_Compensated →
  (∃ ss, focus c sid d' g ss ∧ undone ss) ∨ force_marked g.
Proof.
  intros Hok Hr Hg Hst. destruct (ok_sagas _ (reachable_ok _ _ _ Hok Hr) _ _ _ Hg) as (ss & Hf & Hs & _).
  inversion Hs as [l y k Hl Hy Hk Hg'|l Hl Hg'|l y k Hl Hy Hk Hg'|y k Hy Hk Hg']; subst.
  - destruct Hg'; congruence.
  - destruct Hg' as [?|[?|[?|[_ ?]]]]; congruence.
  - destruct Hg' as [?|[?|[?|[_ ?]]]]; [congruence..|by right].
  - left. exists (y :: k). split; [done|]. destruct Hk as (ds & aa & -> & Hd & Ha).
    exists (y :: ds), aa. split; [done|]. split; [by constructor|done].
Qed.

(** C8: the steps of a saga are worked on one at a time and in order: while one
    goes forward the steps before it are done and those after it have not
    started, while one is compensated the steps before it wait for their
    compensation and those after it are compensated or never started. *)
Theorem one_step_at_a_time d d' c sid g pre x post :
  db_ok d → reachable St d d' → focus c sid d' g (pre ++ x :: post) →
  (forward_active (ssi_State x) = true → Forall Done pre ∧ Forall Pending post) ∧
  (compensation_active (ssi_State x) = true → Forall CompPending pre ∧ undone post).
Proof.
  intros Hok Hr Hf.
  destruct (ok_sagas _ (reachable_ok _ _ _ Hok Hr) _ _ _ (focus_saga _ _ _ _ _ Hf))
    as (ss & Hf' & Hs & _).
  destruct (focus_det _ _ _ _ _ Hf Hf') as [_ ->].
  split; intros Hx; [destruct (shape_forward_inv _ _ _ _ Hs Hx) as (? & ? & _)
                    |destruct (shape_compensating_inv _ _ _ _ Hs Hx) as (? & ? & _)]; done.
Qed.

(** ** The handlers *)


(** ** Every run *)

(** C3: whatever the store, the broker, the clock and the lock do, every one of
    the six entry points over the store (the work on a polled step, the
    immediate work on a step, a result, the two operator's overrides, a
    submission) returns, without a panic and without an endless loop, and
    leaves the committed database well formed, on a store that keeps its
    contract; a submission has to draw new identifiers, and one without
    payloads panics. *)
Theorem every_run_returns d env SubComponent affinityGroup executionTimeoutMs :
  db_ok d →
  (∀ cid x, well_behaved St
     (processPolledStep env SubComponent affinityGroup executionTimeoutMs cid x) d) ∧
  (∀ sp, well_behaved St
     (processStepWithMutex env SubComponent affinityGroup executionTimeoutMs sp) d) ∧
  (∀ cid isTraxMessage body, well_behaved St (consumeResult env cid isTraxMessage body) d) ∧
  (∀ cid sid, well_behaved St (call (TriggerSagaCompensation cid sid)) d) ∧
  (∀ cid sid reason, well_behaved St (call (ForceMarkSagaCompensated cid sid reason)) d) ∧
  (∀ inbox ready msg w, idle d w → draws_new St env d msg w → msg_Payloads msg ≠ [] →
     wp (consumeSubmission env SubComponent affinityGroup inbox ready msg)
       (returns (λ _ w', db_ok (v_com (wv w')))) w) ∧
  (∀ inbox ready msg w, msg_Payloads msg = [] →
     consumeSubmission env SubComponent affinityGroup inbox ready msg w =
       (Panic "index out of range", w)).
Proof.
  intros Hok. repeat split; intros.
  - by apply poll_well_behaved.
  - by apply immediate_well_behaved.
  - by apply result_well_behaved.
  - by apply trigger_well_behaved.
  - by apply force_mark_well_behaved.
  - by apply (submission_well_behaved St) with d.
  - unfold consumeSubmission. by case_match.
Qed.

(** C9: the processing of a polled step marks a saga invalid only when a
    statement of the store fails. *)
Theorem poll_raises_no_false_alarm d env SubComponent affinityGroup executionTimeoutMs cid x w :
  ¬ faulty (St := St) → db_ok d → idle d w →
  wp (processPolledStep env SubComponent affinityGroup executionTimeoutMs cid x)
    (returns (λ _ w', spared d (v_com (wv w')))) w.
Proof.
  intros Hnf Hok Hi. eapply wp_returns_mono; [|by apply poll_spares]. by intros a w' [?|?].
Qed.

(** The immediate processing after a result marks a saga invalid only when
    a statement of the store fails or the step is, by the time the lock is
    had, in one of the four states that only the polling loop skips. *)
Theorem immediate_raises_no_false_alarm d env SubComponent affinityGroup executionTimeoutMs sp w :
  ¬ faulty (St := St) → db_ok d → idle d w →
  (∀ y, step_rows (sp_ClusterId sp) d !! sp_SagaStepInstanceId sp = Some y →
     overlooked (ssi_State y) = false) →
  wp (processStepWithMutex env SubComponent affinityGroup executionTimeoutMs sp)
    (returns (λ _ w', spared d (v_com (wv w')))) w.
Proof.
  intros Hnf Hok Hi Hl. eapply wp_returns_mono; [|by apply immediate_spares]. by intros a w' [?|?].
Qed.

(** Neither the polling loop nor the immediate processing moves a step that
    is running.  The polling query selects such a step, but its state is
    skipped under the lock, so a request that was never sent or never answered
    is neither repeated nor given up. *)
Theorem running_step_is_stuck d env SubComponent affinityGroup executionTimeoutMs cid x w :
  db_ok d → idle d w → step_rows cid d !! ssi_InstanceId x = Some x →
  ssi_State x = SagaStepStateEnum_ExecutionRunning ∨
  ssi_State x = SagaStepStateEnum_CompensationRunning →
  wp (processPolledStep env SubComponent affinityGroup executionTimeoutMs cid x)
    (returns (λ _ w', v_com (wv w') = d)) w ∧
  wp (processStepWithMutex env SubComponent affinityGroup executionTimeoutMs
        (mkSpawn cid (ssi_SagaInstanceId x) (ssi_InstanceId x) ""))
    (returns (λ _ w', v_com (wv w') = d)) w.
Proof.
  intros Hok Hi Hx Hst.
  assert (∀ (cb : M (World St) unit) w, idle d w →
    (∀ w, idle d w → wp cb (returns (λ _ w', idle d w')) w) →
    wp (bind (Mutex env cb) (λ _, ret tt)) (returns (λ _ w', v_com (wv w') = d)) w) as Hmutex.
  { intros cb w1 Hi1 Hcb. apply wp_bind_ret. unfold Mutex. apply wp_bind_ret.
    unfold wp at 1, tick. simpl. destruct (env_lock env (w_tick w1)).
    - apply wp_bind_ret. eapply wp_returns_mono; [|by apply Hcb]. intros u w2 Hi2.
      apply wp_ret, wp_ret. simpl. by rewrite Hi2.
    - apply wp_ret, wp_ret. simpl. by rewrite Hi1. }
  assert (∀ g pre y post, focus cid (ssi_SagaInstanceId x) d g (pre ++ y :: post) →
    ssi_InstanceId y = ssi_InstanceId x → y = x) as Hsame.
  { intros g pre y post Hf Hid.
    pose proof (focus_step_row _ _ _ y Hf ltac:(set_solver)) as Hy. congruence. }
  split; apply Hmutex; try done; clear w Hi; intros w Hi; apply wp_bind_ret;
    (eapply refresh_spec; [done..| |]); try (by intros w1 Hi1; apply wp_ret); simpl.
  - intros g pre y post w1 Hi1 Hf Hinv Hid. rewrite (Hsame _ _ _ _ Hf Hid) in *.
    destruct (saga_state_eqb (si_State g) _) eqn:Hg.
    + apply bool_decide_eq_true in Hg. exfalso.
      eapply active_not_requested; [apply Hinv| |exact Hg]. destruct Hst as [-> | ->]; auto.
    + destruct Hst as [-> | ->]; by apply wp_ret.
  - intros g pre y post w1 Hi1 Hf Hinv Hid. rewrite (Hsame _ _ _ _ Hf Hid) in *.
    destruct Hst as [-> | ->]; by apply wp_ret.
Qed.

(** ** Results *)

(** The states of a step whose last request has been answered, or that was
    given up or blocked before it was to be compensated. *)
Definition past_answer : list SagaStepStateEnum :=
  [SagaStepStateEnum_ExecutionSucceeded; SagaStepStateEnum_ExecutionDone;
   SagaStepStateEnum_ExecutionFailed; SagaStepStateEnum_ExecutionAborted;
   SagaStepStateEnum_ExecutionBlocked; SagaStepStateEnum_CompensationPending;
   SagaStepStateEnum_CompensationCandidate; SagaStepStateEnum_CompensationSucceeded;
   SagaStepStateEnum_CompensationDone; SagaStepStateEnum_CompensationFailed].

(** C12: a result for a step that has been answered in its direction, that was
    aborted or blocked while executing, that waits for its compensation or has
    had it, or that names no step, changes nothing, even when statements
    fail. *)
Theorem late_result_ignored d env cid r w :
  db_ok d → idle d w →
  (∀ x, step_rows cid d !! er_SagaStepInstanceId r = Some x → ssi_State x ∈ past_answer) →
  wp (processSagaStepExecutionResult env cid r) (returns (λ _ w', v_com (wv w') = d)) w.
Proof.
  intros Hok Hi Hx.
  assert (∀ x, step_rows cid d !! er_SagaStepInstanceId r = Some x →
    ignoresResult (ssi_State x) = true) as Hig.
  { intros x Hxr. specialize (Hx x Hxr). revert Hx. generalize (ssi_State x).
    apply Forall_forall, (bool_decide_unpack _). by vm_compute. }
  eapply wp_returns_mono; [|by apply processResult_post].
  intros _ w' [(d' & Hi' & Ho)|[_ (d' & b & -> & _)]]; [|done]. rewrite Hi'. simpl.
  destruct Ho as [[_ ->]|[[(x & Hxr & Hni & _) _]|Ho]]; [done|..].
  - by rewrite (Hig _ Hxr) in Hni.
  - destruct Ho as (sid & g & pre & x & post & y & Hf & Hid & Hni & _).
    assert (step_rows cid d !! er_SagaStepInstanceId r = Some x) as Hxr
      by (rewrite <-Hid; eapply focus_step_row; [done|set_solver]).
    by rewrite (Hig _ Hxr) in Hni.
Qed.

(** A step after the answer to its request: the step that executes keeps the
    answer as its result and has succeeded or failed; the step that is being
    compensated keeps it as the result of its compensation, and that has
    succeeded or failed; the last log has the answer and the two times. *)
Definition after_answer (status : ExecutionResultStatusEnum) (res : gmap string string)
    (logs : list SagaStepExecutionLog) (log : SagaStepExecutionLog) (now ts : Z)
    (x : SagaStepInstance) : SagaStepInstance :=
  set_ssi_UpdatedAt ts
    (set_ssi_ExecutionHistory
       (logs ++ [set_log_LogConclusionTs now
                   (set_log_ExecutionResult res (set_log_ExecutionResultReceivedTs now log))])
       (match ssi_State x with
        | SagaStepStateEnum_ExecutionRunning =>
            set_ssi_Result res (set_ssi_State
              (if decide (status = ExecutionResultStatusEnum_Success)
               then SagaStepStateEnum_ExecutionSucceeded
               else SagaStepStateEnum_ExecutionFailed) x)
        | _ =>
            set_ssi_CompensationResult res (set_ssi_State
              (if decide (status = ExecutionResultStatusEnum_Success)
               then SagaStepStateEnum_CompensationSucceeded
               else SagaStepStateEnum_CompensationFailed) x)
        end)).

Lemma effect_after_answer r x y logs log :
  ssi_State x = (if log_IsCompensation log then SagaStepStateEnum_CompensationRunning
                 else SagaStepStateEnum_ExecutionRunning) →
  ssi_ExecutionHistory x = logs ++ [log] →
  er_Status r ≠ ExecutionResultStatusEnum_InExecution → result_effect r x y →
  ∃ now ts, y = after_answer (er_Status r) (er_ExecutionResult r) logs log now ts x.
Proof.
  intros Hx Hlogs Hne (log' & now & x1 & x2 & ts & Hl & -> & (ts' & ->) & Hy).
  rewrite Hlogs, last_snoc in Hl. injection Hl as <-. exists now.
  assert (∀ f, alter f (pred (length (logs ++ [log]))) (logs ++ [log]) = logs ++ [f log]) as Halter.
  { intros f. rewrite length_app. simpl. rewrite Nat.add_1_r. simpl.
    clear. induction logs as [|l logs IH]; [done|]. simpl. by f_equal. }
  destruct x as [? ? ? ? ? ? ? ? ? ? st ? ? ? ? ? ? hist ? ?]. simpl in *. subst st hist.
  unfold after_answer. simpl.
  destruct (log_IsCompensation log), (er_Status r); try done; simpl in Hy; destruct Hy as (ts2 & ->);
    exists ts2; unfold row_step_state, row_step_history, updateLastLog; simpl; by rewrite Halter.
Qed.


(** ** Submissions *)

(** C10: a submission creates the whole saga or nothing: afterwards the saga is
    there with one step per template, linked in the order of the template, the
    first one a candidate; or the database is what it was, for one of four
    reasons: a statement failed, the coordinator is not ready, the request
    cannot be met, or a saga with its key is there already.  It is answered
    with success only if a saga with its key is there. *)
Theorem submission_all_or_nothing env affinityGroup d msg payload (ready : bool) w :
  idle d w → db_ok d →
  (∀ tmpl, db_saga_templates d !! sr_SagaTemplateId payload = Some tmpl →
     fresh_draws env d (S (w_tick w)) (2 * length (st_SagaStepTemplateIds tmpl))) →
  wp (submitSaga env affinityGroup ready msg (Some payload))
    (returns (λ r w', ∃ d', idle d' w' ∧
       ((faulty (St := St) ∨ ready = false ∨ rejects d msg payload ∨ known msg payload d) ∧ d' = d ∨
        created affinityGroup d msg payload d') ∧
       (is_ok r = true → known msg payload d'))) w.
Proof.
  intros Hi Hok Hfr. by apply submitSaga_outcome.
Qed.

(** C11: a submission whose key is already there creates nothing, however often
    it is repeated. *)
Theorem submission_idempotent env affinityGroup d msg payload (ready : bool) w :
  idle d w → db_ok d →
  (∀ tmpl, db_saga_templates d !! sr_SagaTemplateId payload = Some tmpl →
     fresh_draws env d (S (w_tick w)) (2 * length (st_SagaStepTemplateIds tmpl))) →
  known msg payload d →
  wp (submitSaga env affinityGroup ready msg (Some payload))
    (returns (λ _ w', v_com (wv w') = d)) w.
Proof.
  intros Hi Hok Hfr Hkn. eapply wp_returns_mono; [|by apply submitSaga_outcome].
  intros r w' (d' & Hi' & [[[_ ->]|Hc] _]); rewrite Hi'; [done|].
  by destruct Hc as (? & ? & ? & ? & _ & _ & Hnk & _).
Qed.
End guarantees.

(** ** On concrete runs *)

Lemma reachable_well_formed_witness : db_ok (play second_fails).
Proof.
  apply (reachable_well_formed CalmStore empty_db); [apply empty_db_ok|apply play_reachable].
Defined.

(** The saga of Demo.v. *)
Definition the_saga (d : DB) : SagaInstance :=
  default (sample_saga SagaStateEnum_Running "") (saga_rows "main" d !! "s1").

Lemma committed_means_done_witness :
  ∃ ss, focus "main" "s1" (play both_succeed) (the_saga (play both_succeed)) ss ∧ Forall Done ss.
Proof.
  apply (committed_means_done CalmStore empty_db);
    [apply empty_db_ok|apply play_reachable|vm_compute; reflexivity|left; vm_compute; reflexivity].
Defined.

Lemma compensated_means_undone_witness :
  (∃ ss, focus "main" "s1" (play second_fails) (the_saga (play second_fails)) ss ∧ undone ss) ∨
  force_marked (the_saga (play second_fails)).
Proof.
  apply (compensated_means_undone CalmStore empty_db);
    [apply empty_db_ok|apply play_reachable|vm_compute; reflexivity|vm_compute; reflexivity].
Defined.

Lemma one_step_at_a_time_witness :
  Forall Done [sample_step "a" "" "b" SagaStepStateEnum_ExecutionDone []] ∧
  Forall Pending [sample_step "c" "b" "" SagaStepStateEnum_ExecutionPending []].
Proof.
  apply (one_step_at_a_time CalmStore forward_db forward_db "main" "s1"
    (sample_saga SagaStateEnum_Running "")
    [sample_step "a" "" "b" SagaStepStateEnum_ExecutionDone []]
    (sample_step "b" "a" "c" SagaStepStateEnum_ExecutionCandidate [])
    [sample_step "c" "b" "" SagaStepStateEnum_ExecutionPending []]);
    [apply forward_holds|apply rtc_refl|apply forward_holds|reflexivity].
Defined.

(** A handler that starts the middle step of three. *)
Definition demo_saga : SagaInstance := sample_saga SagaStateEnum_Running "".
Definition demo_pre : list SagaStepInstance :=
  [sample_step "a" "" "b" SagaStepStateEnum_ExecutionDone []].
Definition demo_step : SagaStepInstance :=
  sample_step "b" "a" "c" SagaStepStateEnum_ExecutionCandidate [].
Definition demo_post : list SagaStepInstance :=
  [sample_step "c" "b" "" SagaStepStateEnum_ExecutionPending []].


Lemma every_run_returns_witness :
  well_behaved CalmStore (poll_of "s1" first_id) (play []).
Proof.
  destruct (every_run_returns CalmStore (play []) calm_env "coordinator" "default" 900000) as [Hp _];
    [|apply Hp].
  eapply (reachable_ok CalmStore); [apply empty_db_ok|apply play_reachable].
Defined.

Lemma poll_raises_no_false_alarm_witness :
  wp (poll_of "s1" first_id) (returns (λ _ w', spared (play []) (v_com (wv w'))))
    (fresh_world (play [])).
Proof.
  apply (poll_raises_no_false_alarm CalmStore); [apply calm_not_faulty| |apply fresh_world_idle].
  eapply (reachable_ok CalmStore); [apply empty_db_ok|apply play_reachable].
Defined.

Lemma immediate_raises_no_false_alarm_witness :
  wp (processStepWithMutex calm_env "coordinator" "default" 900000
        (mkSpawn "main" "s1" first_id "EXECUTION_SUCCEEDED"))
    (returns (λ _ w', spared (play [Poll first_id; Answer first_id Success]) (v_com (wv w'))))
    (fresh_world (play [Poll first_id; Answer first_id Success])).
Proof.
  apply (immediate_raises_no_false_alarm CalmStore);
    [apply calm_not_faulty| |apply fresh_world_idle|].
  - eapply (reachable_ok CalmStore); [apply empty_db_ok|apply play_reachable].
  - intros y Hy. vm_compute in Hy. injection Hy as <-. reflexivity.
Defined.

Lemma late_result_ignored_witness :
  wp (processSagaStepExecutionResult calm_env "main"
        (mkSagaStepExecutionResultPayload "sub1" "s1" first_id "z1" Failed ∅))
    (returns (λ _ w', v_com (wv w') = play both_succeed)) (fresh_world (play both_succeed)).
Proof.
  apply (late_result_ignored CalmStore); [|apply fresh_world_idle|].
  - eapply (reachable_ok CalmStore); [apply empty_db_ok|apply play_reachable].
  - intros y Hy. vm_compute in Hy. injection Hy as <-. apply (bool_decide_unpack _). reflexivity.
Defined.


Lemma submission_all_or_nothing_witness :
  wp (submitSaga calm_env "default" true order_message (Some order_request))
    (returns (λ r w', ∃ d', idle d' w' ∧
       ((faulty (St := CalmStore) ∨ true = false ∨ rejects empty_db order_message order_request ∨
         known order_message order_request empty_db) ∧ d' = empty_db ∨
        created "default" empty_db order_message order_request d') ∧
       (is_ok r = true → known order_message order_request d'))) (fresh_world empty_db).
Proof.
  apply (submission_all_or_nothing CalmStore);
    [apply fresh_world_idle|apply empty_db_ok|apply submit_draws_new].
Defined.

Lemma submission_idempotent_witness :
  wp (submitSaga calm_env "default" true order_message (Some order_request))
    (returns (λ _ w', v_com (wv w') = forward_db)) (fresh_world forward_db).
Proof.
  apply (submission_idempotent CalmStore);
    [apply fresh_world_idle|apply forward_holds|apply forward_draws_new|].
  exists "s1", (sample_saga SagaStateEnum_Running ""). split; vm_compute; reflexivity.
Defined.

Lemma running_step_is_stuck_witness :
  wp (processPolledStep calm_env "coordinator" "default" 900000 "main"
        (sample_step "b" "a" "c" SagaStepStateEnum_ExecutionRunning [sample_log 5 10 false]))
    (returns (λ _ w', v_com (wv w') = running_db)) (fresh_world running_db) ∧
  wp (processStepWithMutex calm_env "coordinator" "default" 900000 (mkSpawn "main" "s1" "b" ""))
    (returns (λ _ w', v_com (wv w') = running_db)) (fresh_world running_db).
Proof.
  apply (running_step_is_stuck CalmStore running_db calm_env "coordinator" "default" 900000 "main"
    (sample_step "b" "a" "c" SagaStepStateEnum_ExecutionRunning [sample_log 5 10 false]));
    [apply running_holds|apply fresh_world_idle|vm_compute; reflexivity|left; reflexivity].
Defined.


(** ** A step, from the request to the result

    The coordinator and an executor together: the request the coordinator
    sends for a step, the executor's work on it, and the coordinator's
    processing of the executor's answer. *)

(** The executor of a step. *)
Definition executor_of (x : SagaStepInstance) : Executor :=
  mkExecutor (ssi_ClusterId x) (ssi_SagaTemplateId x) (ssi_SagaStepTemplateId x) false "".

(** The message the coordinator sends for the attempt that [log] records. *)
Definition request_for (SubComponent affinityGroup messageId : string) (timestamp : Z)
    (g : SagaInstance) (x : SagaStepInstance) (input : gmap string string)
    (log : SagaStepExecutionLog) : TraxMessage :=
  let payload := step_request_payload affinityGroup g x input in
  step_request_message SubComponent messageId timestamp g x
    (if log_IsCompensation log then SagaPayloadType_SagaStepCompensationRequest payload
     else SagaPayloadType_SagaStepExecutionRequest payload).

Lemma run_request parse sub sub' x aff id ts g input log ans st s m :
  let e := executor_of x in
  let req := step_request_payload aff g x input in
  let msg := request_for sub aff id ts g x input log in
  (∀ n, ans_mq (ans n) = MqSent) →
  inFlight (log_IsCompensation log) st !! request_key e req = None →
  verdict (log_IsCompensation log) (request_key e req) (ans_status (ans 0)) (ans_service (ans 2)) =
    Some (s, m) →
  ∃ n, run ans 0 (handleMessage parse sub' e msg) st =
    (Ret (Ok tt), [], send (response sub' e ans msg req s m n) st).
Proof.
  intros e req msg Hmq Hk Hv.
  assert (Ha : answered_by sub' e ans MqSent (run ans 0 (handleMessage parse sub' e msg) st) msg req st
    (verdict (log_IsCompensation log) (request_key e req) (ans_status (ans 0)) (ans_service (ans 2)))).
  { unfold handleMessage, msg, request_for. simpl.
    destruct (log_IsCompensation log); [by apply run_compensation|by apply run_execution]. }
  rewrite Hv in Ha. destruct Ha as ([[]|err] & n & Hr & Hok); [by exists n|done].
Qed.

Lemma verdict_status comp key r v s m : verdict comp key r v = Some (s, m) → executor_status s = true.
Proof.
  unfold verdict. destruct r as [[]|err]; intros Hv; simplify_eq; try done;
    by apply service_outcome_status in Hv.
Qed.

Section round_trip.
Context (St : Type) `{!Store St, !StoreLaws St}.

(** C22: a step that awaits its result, the executor that gets the coordinator's
    request for it, and the coordinator that gets the executor's answer: unless
    the verdict is that the work is in progress, the step ends up succeeded if
    the service returned a result and failed if it did not, as an execution or
    as a compensation, and nothing else in the saga changes. *)
Theorem step_round_trip parse sub sub' aff id ts input cid sid env d g pre x post w log ans st s m :
  let e := executor_of x in
  let req := step_request_payload aff g x input in
  let msg := request_for sub aff id ts g x input log in
  quiet St env → idle d w → holds cid sid g (pre ++ x :: post) d → awaits x →
  last (ssi_ExecutionHistory x) = Some log →
  (∀ n, ans_mq (ans n) = MqSent) →
  inFlight (log_IsCompensation log) st !! request_key e req = None →
  verdict (log_IsCompensation log) (request_key e req) (ans_status (ans 0)) (ans_service (ans 2)) =
    Some (s, m) → s ≠ ExecutionResultStatusEnum_InExecution →
  ∃ exchange routingKey answer,
    run ans 0 (handleMessage parse sub' e msg) st =
      (Ret (Ok tt), [], send (PubTopic exchange routingKey answer) st) ∧
    wp (consumeResult env cid true (Some answer))
      (returns (λ _ w', ∃ d' x', idle d' w' ∧ holds cid sid g (pre ++ x' :: post) d' ∧
         ssi_InstanceId x' = ssi_InstanceId x ∧
         ssi_State x' =
           match s, log_IsCompensation log with
           | ExecutionResultStatusEnum_Success, false => SagaStepStateEnum_ExecutionSucceeded
           | ExecutionResultStatusEnum_Success, true => SagaStepStateEnum_CompensationSucceeded
           | _, false => SagaStepStateEnum_ExecutionFailed
           | _, true => SagaStepStateEnum_CompensationFailed
           end)) w.
Proof.
  intros e req msg Hq Hi Hh Ha Hl Hmq Hk Hv Hne.
  destruct (run_request parse sub sub' x aff id ts g input log ans st s m Hmq Hk Hv) as [n Hrun].
  do 3 eexists. split; [exact Hrun|].
  set (y := match s, log_IsCompensation log with
    | ExecutionResultStatusEnum_Success, false => SagaStepStateEnum_ExecutionSucceeded
    | ExecutionResultStatusEnum_Success, true => SagaStepStateEnum_CompensationSucceeded
    | _, false => SagaStepStateEnum_ExecutionFailed
    | _, true => SagaStepStateEnum_CompensationFailed
    end).
  assert (Ht : ∃ reason, resultTransition (log_IsCompensation log) s = Some (y, reason)).
  { apply verdict_status in Hv. unfold y.
    by destruct s; try done; destruct (log_IsCompensation log); eexists. }
  destruct Ht as [reason Ht]. pose proof (h_focus _ _ _ _ _ Hh) as Hf.
  eapply wp_returns_mono; [|eapply (result_acts _ _ env s); eauto].
  - intros _ w' (d' & g' & ss' & Hi' & Hh' & x' & -> & -> & Hid & Hst & _). eauto 10.
  - do 3 eexists. split; [done|]. split; [done|]. simpl.
    rewrite (focus_step_saga _ _ _ x Hf), (focus_id _ _ _ _ _ Hf) by set_solver. done.
Qed.
End round_trip.

(** The second step of the sample saga is executed. *)
Lemma step_round_trip_witness :
  let x := sample_step "b" "a" "c" SagaStepStateEnum_ExecutionRunning [sample_log 5 10 false] in
  let g := sample_saga SagaStateEnum_Running "" in
  ∃ exchange routingKey answer,
    run (λ _, sample_answer) 0
        (handleMessage no_json "exec" (executor_of x)
           (request_for "coord" "default" "m9" 3 g x ∅ (sample_log 5 10 false)))
        (mkExState ∅ ∅ []) =
      (Ret (Ok tt), [], send (PubTopic exchange routingKey answer) (mkExState ∅ ∅ [])) ∧
    wp (consumeResult calm_env "main" true (Some answer))
      (returns (λ _ w', ∃ d' x', idle d' w' ∧
         holds "main" "s1" g
           ([sample_step "a" "" "b" SagaStepStateEnum_ExecutionDone []] ++ x' ::
            [sample_step "c" "b" "" SagaStepStateEnum_ExecutionPending []]) d' ∧
         ssi_InstanceId x' = "b" ∧ ssi_State x' = SagaStepStateEnum_ExecutionSucceeded))
      (fresh_world running_db).
Proof.
  intros x g.
  apply (step_round_trip CalmStore no_json "coord" "exec" "default" "m9" 3 ∅ "main" "s1" calm_env
    running_db g [sample_step "a" "" "b" SagaStepStateEnum_ExecutionDone []] x
    [sample_step "c" "b" "" SagaStepStateEnum_ExecutionPending []] (fresh_world running_db)
    (sample_log 5 10 false) (λ _, sample_answer) (mkExState ∅ ∅ [])
    ExecutionResultStatusEnum_Success {["paid" := "yes"]});
    [apply calm_quiet|apply fresh_world_idle|apply running_holds|..|done].
  - split; [by left|]. exists (sample_log 5 10 false). split; [done|]. simpl. lia.
  - reflexivity.
  - reflexivity.
  - reflexivity.
  - reflexivity.
Defined.
