(* ===== verification/WireSpecs.v ===== *)
(** * What arrives is what was sent

    The round trip of the messages of Wire.v through text, and that the chains
    of builder calls in the coordinator, the executor and the submitter build
    the messages that the rest of the development takes them to build. *)

From stdpp Require Import pretty countable.
From S2P Require Import Prelude GoMonad Model Json Messages World Executor Builders Wire.
From S2P Require Import Submitter.

(** ** The round trip *)

Section round_trip.
Context `{!JsonText, !JsonTextLaws}.

Lemma Unmarshal_Marshal {A} `{!Codec A, !CodecLaws A} (a : A) :
  in_range a → printable (encode_as a) = true → Unmarshal (Marshal a) = Some a.
Proof.
  intros Hr Hp. unfold Unmarshal, Marshal, unmarshal. rewrite parse_print by done.
  by rewrite decode_encode_as.
Qed.

Lemma Marshal_utf8 {A} `{!Codec A} (a : A) :
  printable (encode_as a) = true → utf8_string (Marshal a) = true.
Proof. apply print_utf8. Qed.

Lemma read_data_text d : clean_data d → read_data (data_type d) (data_text d) = d.
Proof.
  intros Hd. destruct d as [sid|p|target req errs extra|target req extra|p|p|p|type text];
    simpl in Hd; try done; cbn [data_type data_text]; unfold read_data.
  - rewrite bool_decide_true by done. by rewrite Unmarshal_Marshal.
  - rewrite bool_decide_false, bool_decide_true by done. destruct Hd. by rewrite Unmarshal_Marshal.
  - rewrite !bool_decide_false, bool_decide_true by done. destruct Hd. by rewrite Unmarshal_Marshal.
  - rewrite !bool_decide_false, bool_decide_true by done. destruct Hd. by rewrite Unmarshal_Marshal.
  - rewrite !bool_decide_false, bool_decide_true by done. destruct Hd. by rewrite Unmarshal_Marshal.
  - destruct Hd as (_ & _ & Hd). by rewrite !bool_decide_false by set_solver.
Qed.

Lemma data_text_utf8 d : clean_data d → utf8_string (data_text d) = true.
Proof.
  destruct d; cbn [clean_data data_text]; try done; try (intros [_ Hd]; by apply Marshal_utf8).
  - intros Hd. by apply Marshal_utf8.
  - by intros (_ & Ht & _).
Qed.

Lemma data_type_utf8 d : clean_data d → utf8_string (data_type d) = true.
Proof. destruct d; try done. by intros [? _]. Qed.

Lemma read_wire_payload p : clean_payload p → read_payload (wire_payload p) = p.
Proof.
  destruct p as [m c e d]. intros (_ & _ & _ & Hd). cbn [wire_payload]. unfold read_payload.
  cbn [wp_Metadata wp_Type wp_ContentType wp_Encoding wp_Data]. by rewrite read_data_text.
Qed.

Lemma wire_payload_printable p :
  clean_payload p → printable (encode_as (wire_payload p)) = true.
Proof.
  destruct p as [m c e d]. intros (Hm & Hc & He & Hd). cbn [pl_Metadata pl_ContentType pl_Encoding pl_Data] in *.
  pose proof (data_text_utf8 d Hd) as Ht. pose proof (data_type_utf8 d Hd) as Hy.
  cbn -[utf8_string data_text data_type]. by rewrite Hm, Hy, Hc, He, Ht.
Qed.

Lemma printable_list {A} (f : A → Json) l :
  Forall (λ a, printable (f a) = true) l → printable (marshal_list f l) = true.
Proof. unfold marshal_list. simpl. induction 1 as [|a l Ha _ IH]; csimpl; [done|]. by rewrite Ha. Qed.

(** A structure is printable when each of its written fields is. *)
Definition printable_field {A} (r : A) (f : Field A) : Prop :=
  f_omit f r = true ∨ (utf8_string (f_name f) = true ∧ printable (f_marshal f r) = true).

Lemma printable_struct {A} (fs : list (Field A)) r :
  printable (marshal_struct fs r) = true ↔ Forall (printable_field r) fs.
Proof.
  unfold marshal_struct, printable_field. simpl.
  induction fs as [|f fs IH]; csimpl; [by split|].
  rewrite Forall_cons, <-IH. destruct (f_omit f r); simpl.
  - split; [intros Hl; split; [by left|done]|by intros [_ Hl]].
  - rewrite !andb_true_iff. split; [intros [Hf Hl]; split; [by right|done]|].
    by intros [[?|Hf] Hl].
Qed.

(** The message and its envelope differ in the last field only. *)
Lemma wire_message_printable m : clean m → printable (encode_as (wire_message m)) = true.
Proof.
  intros [He Hp].
  assert (Hps : printable (marshal_list encode_as (wire_payload <$> msg_Payloads m)) = true).
  { apply printable_list, Forall_fmap. eapply Forall_impl; [exact Hp|].
    intros p. apply wire_payload_printable. }
  apply printable_struct. apply printable_struct in He. cbn [fields WireMessage_codec] in *.
  repeat (apply Forall_cons in He as [Hf He]; constructor; [exact Hf|clear Hf]).
  constructor; [|constructor]. right. split; [reflexivity|exact Hps].
Qed.

Lemma receive_send_clean m : clean m → receive (send m) = Some m.
Proof.
  intros Hm. unfold receive, send. rewrite Unmarshal_Marshal by (done || by apply wire_message_printable).
  simpl. destruct Hm as [_ Hp]. f_equal. destruct m. unfold read_message, wire_message. simpl in *.
  f_equal. rewrite <-list_fmap_compose. rewrite <-(list_fmap_id msg_Payloads) at 2.
  apply Forall_fmap_ext. eapply Forall_impl; [exact Hp|]. intros p. apply read_wire_payload.
Qed.
End round_trip.


(** ** A small text format

    Values as trees, trees as numbers, numbers in binary. *)

Fixpoint to_tree (j : Json) : gen_tree (string + Z) :=
  match j with
  | JNull => GenNode 0 []
  | JBool true => GenNode 1 []
  | JBool false => GenNode 2 []
  | JInt z => GenNode 3 [GenLeaf (inr z)]
  | JFraction s => GenNode 4 [GenLeaf (inl s)]
  | JString s => GenLeaf (inl s)
  | JArray l => GenNode 5 (to_tree <$> l)
  | JObject l => GenNode 6 ((λ m, GenNode 7 [GenLeaf (inl m.1); to_tree m.2]) <$> l)
  end.

Fixpoint of_tree (t : gen_tree (string + Z)) : option Json :=
  match t with
  | GenLeaf (inl s) => Some (JString s)
  | GenNode 0 [] => Some JNull
  | GenNode 1 [] => Some (JBool true)
  | GenNode 2 [] => Some (JBool false)
  | GenNode 3 [GenLeaf (inr z)] => Some (JInt z)
  | GenNode 4 [GenLeaf (inl s)] => Some (JFraction s)
  | GenNode 5 l => JArray <$> mapM of_tree l
  | GenNode 6 l =>
      JObject <$> mapM (λ t, match t with
        | GenNode 7 [GenLeaf (inl k); v] => pair k <$> of_tree v
        | _ => None
        end) l
  | _ => None
  end.

Lemma Json_tree_ind (P : Json → Prop) :
  P JNull → (∀ b, P (JBool b)) → (∀ z, P (JInt z)) → (∀ s, P (JFraction s)) →
  (∀ s, P (JString s)) → (∀ l, Forall P l → P (JArray l)) →
  (∀ l, Forall (λ m, P m.2) l → P (JObject l)) → ∀ j, P j.
Proof.
  intros Hn Hb Hi Hf Hs Ha Ho. fix IH 1.
  intros [|b|z|s|s|l|l]; [exact Hn|apply Hb|apply Hi|apply Hf|apply Hs| |].
  - apply Ha. induction l; constructor; [apply IH|done].
  - apply Ho. induction l; constructor; [apply IH|done].
Qed.

Lemma of_to_tree j : of_tree (to_tree j) = Some j.
Proof.
  induction j as [|[]| | | |l Hl|l Hl] using Json_tree_ind; try done; simpl.
  - assert (mapM of_tree (to_tree <$> l) = Some l) as ->; [|done].
    by apply mapM_Some_2, Forall2_fmap_l, Forall_Forall2_diag.
  - match goal with |- _ <$> mapM ?f ?k = _ => assert (mapM f k = Some l) as ->; [|done] end.
    apply mapM_Some_2, Forall2_fmap_l, Forall_Forall2_diag. eapply Forall_impl; [exact Hl|].
    intros [k v] Hv. simpl in *. by rewrite Hv.
Qed.

Definition zero_char : Ascii.ascii := Ascii.ascii_of_N 48.
Definition one_char : Ascii.ascii := Ascii.ascii_of_N 49.

Fixpoint binary (p : positive) : string :=
  match p with
  | xH => ""
  | xO p => String zero_char (binary p)
  | xI p => String one_char (binary p)
  end.

Fixpoint of_binary (s : string) : positive :=
  match s with
  | EmptyString => xH
  | String c s => if Ascii.eqb c one_char then xI (of_binary s) else xO (of_binary s)
  end.

Lemma of_binary_binary p : of_binary (binary p) = p.
Proof. induction p as [p IH|p IH|]; simpl; by rewrite ?IH. Qed.

Lemma binary_utf8 p n : String.length (binary p) < n → utf8 n (bytes (binary p)) = true.
Proof.
  unfold bytes. revert n.
  induction p as [p IH|p IH|]; intros [|n] Hn; simpl in *; try lia; try done; apply IH; lia.
Qed.

#[export] Instance test_text : JsonText := {
  print j := binary (encode (to_tree j));
  parse s := decode (of_binary s) ≫= of_tree;
}.

#[export] Instance test_text_laws : JsonTextLaws.
Proof.
  split; intros j _; simpl.
  - by rewrite of_binary_binary, decode_encode, <-of_to_tree.
  - apply binary_utf8. lia.
Qed.

Definition sample_request_sent : TraxMessage :=
  step_request_message "coordinator" "m1" 1700000000000
    (mkSagaInstance "s1" "main" "z1" "t1" "e1" "sub1" "shop" "k1" ∅ [] ∅ SagaStateEnum_Running
       "order" (<["amount" := "10"]> ∅) [] "" "" "s1" 0 "" None 0 0)
    (sample_step "x1" "" "" SagaStepStateEnum_ExecutionRunning [])
    (SagaPayloadType_SagaStepExecutionRequest
       (mkSagaStepRequestPayload "sub1" "s1" "x1" "z1" "default" (<["amount" := "10"]> ∅) ∅ ∅ "s1" 3)).


(** ** The chains of the program

    Each chain of builder calls as it is written in the code; the random
    identifiers and the clock reading of the fresh builder come first. *)

Section chains.
Context `{!JsonText} (SubComponent affinityGroup : string).
Context (messageId traceId executionId : string) (now : Z).

#[local] Notation New := (TraxMessageBuilder.New messageId traceId executionId now).

Definition typed_json (type data : string) : WirePayload :=
  PayloadBuilder.New |> PayloadBuilder.Type_ type |> PayloadBuilder.Json data |> PayloadBuilder.Build.

(** [processSagaStep], the execution request. *)
Definition execution_request_chain (sagaInstance : SagaInstance) (sagaStepInstance : SagaStepInstance)
    (sagaStepInput : gmap string string) : WireMessage :=
  New |> TraxMessageBuilder.ClusterId (si_ClusterId sagaInstance)
    |> TraxMessageBuilder.TraceId (si_TraceId sagaInstance)
    |> TraxMessageBuilder.ExecutionId (ssi_ExecutionId sagaStepInstance)
    |> TraxMessageBuilder.Origin (si_Origin sagaInstance)
    |> TraxMessageBuilder.OriginIdempotencyKey (si_OriginIdempotencyKey sagaInstance)
    |> TraxMessageBuilder.Issuer SubComponent
    |> TraxMessageBuilder.AnonymousSession
    |> TraxMessageBuilder.AddPayload (typed_json SagaStepExecutionRequestType (Marshal
        (SagaStepExecutionRequestPayloadBuilder.New
         |> SagaStepExecutionRequestPayloadBuilder.SagaSubmitterId (si_SagaSubmitterId sagaInstance)
         |> SagaStepExecutionRequestPayloadBuilder.SagaInstanceId (si_InstanceId sagaInstance)
         |> SagaStepExecutionRequestPayloadBuilder.SagaStepInstanceId (ssi_InstanceId sagaStepInstance)
         |> SagaStepExecutionRequestPayloadBuilder.ZoneId (si_ZoneId sagaInstance)
         |> SagaStepExecutionRequestPayloadBuilder.CoordinatorAffinity affinityGroup
         |> SagaStepExecutionRequestPayloadBuilder.Input sagaStepInput
         |> SagaStepExecutionRequestPayloadBuilder.Extra ∅
         |> SagaStepExecutionRequestPayloadBuilder.Metadata (ssi_Metadata sagaStepInstance)
         |> SagaStepExecutionRequestPayloadBuilder.RootSagaInstanceId (si_RootSagaInstanceId sagaInstance)
         |> SagaStepExecutionRequestPayloadBuilder.SagaDepth (si_SagaDepth sagaInstance)
         |> SagaStepExecutionRequestPayloadBuilder.Build)))
    |> TraxMessageBuilder.Build.

(** [processSagaStep], the compensation request. *)
Definition compensation_request_chain (sagaInstance : SagaInstance)
    (sagaStepInstance : SagaStepInstance) (compensationInput : gmap string string) : WireMessage :=
  New |> TraxMessageBuilder.ClusterId (si_ClusterId sagaInstance)
    |> TraxMessageBuilder.TraceId (si_TraceId sagaInstance)
    |> TraxMessageBuilder.ExecutionId (ssi_ExecutionId sagaStepInstance)
    |> TraxMessageBuilder.Origin (si_Origin sagaInstance)
    |> TraxMessageBuilder.OriginIdempotencyKey (si_OriginIdempotencyKey sagaInstance)
    |> TraxMessageBuilder.Issuer SubComponent
    |> TraxMessageBuilder.AnonymousSession
    |> TraxMessageBuilder.AddPayload (typed_json SagaStepCompensationRequestType (Marshal
        (SagaStepCompensationRequestPayloadBuilder.New
         |> SagaStepCompensationRequestPayloadBuilder.SagaSubmitterId (si_SagaSubmitterId sagaInstance)
         |> SagaStepCompensationRequestPayloadBuilder.SagaInstanceId (si_InstanceId sagaInstance)
         |> SagaStepCompensationRequestPayloadBuilder.SagaStepInstanceId (ssi_InstanceId sagaStepInstance)
         |> SagaStepCompensationRequestPayloadBuilder.ZoneId (si_ZoneId sagaInstance)
         |> SagaStepCompensationRequestPayloadBuilder.CoordinatorAffinity affinityGroup
         |> SagaStepCompensationRequestPayloadBuilder.Input compensationInput
         |> SagaStepCompensationRequestPayloadBuilder.Extra ∅
         |> SagaStepCompensationRequestPayloadBuilder.Metadata (ssi_Metadata sagaStepInstance)
         |> SagaStepCompensationRequestPayloadBuilder.RootSagaInstanceId
              (si_RootSagaInstanceId sagaInstance)
         |> SagaStepCompensationRequestPayloadBuilder.SagaDepth (si_SagaDepth sagaInstance)
         |> SagaStepCompensationRequestPayloadBuilder.Build)))
    |> TraxMessageBuilder.Build.

(** [publishExecutionResult] and [publishCompensationResult]. *)
Definition result_chain (msg : TraxMessage) (req : SagaStepRequestPayload)
    (status : ExecutionResultStatusEnum) (resultMap : gmap string string) : WireMessage :=
  New |> TraxMessageBuilder.RefMessageId (msg_MessageId msg)
    |> TraxMessageBuilder.ExecutionId (msg_ExecutionId msg)
    |> TraxMessageBuilder.ClusterId (msg_ClusterId msg)
    |> TraxMessageBuilder.TraceId (msg_TraceId msg)
    |> TraxMessageBuilder.Origin (msg_Origin msg)
    |> TraxMessageBuilder.Issuer SubComponent
    |> TraxMessageBuilder.Referrer ""
    |> TraxMessageBuilder.Submitter SubComponent
    |> TraxMessageBuilder.SubmitterAffinityGroup (rq_CoordinatorAffinity req)
    |> TraxMessageBuilder.Session (msg_Session msg)
    |> TraxMessageBuilder.AddPayload (typed_json SagaStepExecutionResultType (Marshal
        (SagaStepExecutionResultPayloadBuilder.New
         |> SagaStepExecutionResultPayloadBuilder.SagaSubmitterId (msg_Submitter msg)
         |> SagaStepExecutionResultPayloadBuilder.SagaInstanceId (rq_SagaInstanceId req)
         |> SagaStepExecutionResultPayloadBuilder.SagaStepInstanceId (rq_SagaStepInstanceId req)
         |> SagaStepExecutionResultPayloadBuilder.ZoneId (rq_ZoneId req)
         |> SagaStepExecutionResultPayloadBuilder.Status status
         |> SagaStepExecutionResultPayloadBuilder.ExecutionResult resultMap
         |> SagaStepExecutionResultPayloadBuilder.Build)))
    |> TraxMessageBuilder.Build.

(** [followSagaSubmitterIfNeeded], the two answers. *)
Definition reply_chain (msg : TraxMessage) (type data : string) : WireMessage :=
  New |> TraxMessageBuilder.RefMessageId (msg_MessageId msg)
    |> TraxMessageBuilder.ExecutionId (msg_ExecutionId msg)
    |> TraxMessageBuilder.ClusterId (msg_ClusterId msg)
    |> TraxMessageBuilder.TraceId (msg_TraceId msg)
    |> TraxMessageBuilder.Origin (msg_Origin msg)
    |> TraxMessageBuilder.OriginIdempotencyKey (msg_OriginIdempotencyKey msg)
    |> TraxMessageBuilder.Issuer SubComponent
    |> TraxMessageBuilder.Referrer ""
    |> TraxMessageBuilder.Submitter SubComponent
    |> TraxMessageBuilder.SubmitterAffinityGroup affinityGroup
    |> TraxMessageBuilder.Session (msg_Session msg)
    |> TraxMessageBuilder.AddPayload (typed_json type data)
    |> TraxMessageBuilder.Build.

Definition failure_chain (msg : TraxMessage) (request : Payload) (errors : list string) : WireMessage :=
  reply_chain msg SagaSubmissionFailureType (Marshal
    (SagaSubmissionFailurePayloadBuilder.New
     |> SagaSubmissionFailurePayloadBuilder.SagaTargetSubmitterId (msg_Submitter msg)
     |> SagaSubmissionFailurePayloadBuilder.SagaSubmissionRequestPayload (wire_payload request)
     |> SagaSubmissionFailurePayloadBuilder.Errors errors
     |> SagaSubmissionFailurePayloadBuilder.Extra "{}"
     |> SagaSubmissionFailurePayloadBuilder.Build)).

Definition success_chain (msg : TraxMessage) (request : Payload) : WireMessage :=
  reply_chain msg SagaSubmissionSuccessType (Marshal
    (SagaSubmissionSuccessPayloadBuilder.New
     |> SagaSubmissionSuccessPayloadBuilder.SagaTargetSubmitterId (msg_Submitter msg)
     |> SagaSubmissionSuccessPayloadBuilder.SagaSubmissionRequestPayload (wire_payload request)
     |> SagaSubmissionSuccessPayloadBuilder.Extra "{}"
     |> SagaSubmissionSuccessPayloadBuilder.Build)).

(** [SubmitSubSaga]; [SubmitSaga] leaves out the four calls for the parent. *)
Definition submission_chain (id sagaInstanceId : string) (a : SagaArgs) (parent : option ParentArgs) :
    WireMessage :=
  let messageBuilder :=
    New |> TraxMessageBuilder.ClusterId (sa_participantId a)
      |> TraxMessageBuilder.TraceId (sa_traceId a)
      |> TraxMessageBuilder.Origin (sa_origin a)
      |> TraxMessageBuilder.Issuer (sa_issuer a)
      |> TraxMessageBuilder.Referrer (sa_referrer a)
      |> TraxMessageBuilder.Submitter id
      |> TraxMessageBuilder.Tags (sa_tags a)
      |> TraxMessageBuilder.Metadata (sa_metadata a)
      |> TraxMessageBuilder.AnonymousSession in
  let messageBuilder :=
    if bool_decide (sa_originIdempotencyKey a = "") then messageBuilder
    else messageBuilder |> TraxMessageBuilder.OriginIdempotencyKey (sa_originIdempotencyKey a) in
  let payload :=
    SagaSubmissionRequestPayloadBuilder.New
      |> SagaSubmissionRequestPayloadBuilder.SagaSubmitterId id
      |> SagaSubmissionRequestPayloadBuilder.SagaTemplateId (sa_sagaTemplateId a)
      |> SagaSubmissionRequestPayloadBuilder.SagaInstanceId sagaInstanceId
      |> SagaSubmissionRequestPayloadBuilder.ZoneId (sa_zoneId a)
      |> SagaSubmissionRequestPayloadBuilder.SagaInput (sa_sagaInput a) in
  let payload :=
    match parent with
    | None => payload
    | Some p =>
        payload
          |> SagaSubmissionRequestPayloadBuilder.ParentSagaInstanceId (pa_parentSagaInstanceId p)
          |> SagaSubmissionRequestPayloadBuilder.ParentSagaStepInstanceId (pa_parentSagaStepInstanceId p)
          |> SagaSubmissionRequestPayloadBuilder.RootSagaInstanceId (pa_rootSagaInstanceId p)
          |> SagaSubmissionRequestPayloadBuilder.SagaDepth (pa_sagaDepth p)
    end in
  messageBuilder
    |> TraxMessageBuilder.AddPayload (typed_json SagaSubmissionRequestType (Marshal payload))
    |> TraxMessageBuilder.Build.
End chains.

(** The chains of builder calls make the messages that the coordinator, the
    executor and the submitter are taken to send: requests, results, answers
    to submissions, and submissions with and without a parent. *)
Theorem chains_build_messages `{!JsonText} SubComponent affinityGroup m t x now g y input msg req
    status res request errors id sid a p :
  execution_request_chain SubComponent affinityGroup m t x now g y input =
    wire_message (step_request_message SubComponent m now g y
      (SagaPayloadType_SagaStepExecutionRequest (step_request_payload affinityGroup g y input))) ∧
  compensation_request_chain SubComponent affinityGroup m t x now g y input =
    wire_message (step_request_message SubComponent m now g y
      (SagaPayloadType_SagaStepCompensationRequest (step_request_payload affinityGroup g y input))) ∧
  result_chain SubComponent m t x now msg req status res =
    wire_message (result_message SubComponent msg req status res m now) ∧
  failure_chain SubComponent affinityGroup m t x now msg request errors =
    wire_message (submission_reply_message SubComponent affinityGroup m now msg
      (SagaPayloadType_SagaSubmissionFailure (msg_Submitter msg) request errors "{}")) ∧
  success_chain SubComponent affinityGroup m t x now msg request =
    wire_message (submission_reply_message SubComponent affinityGroup m now msg
      (SagaPayloadType_SagaSubmissionSuccess (msg_Submitter msg) request "{}")) ∧
  submission_chain m t x now id sid a (Some p) =
    wire_message (submission_message id sid m x now a p) ∧
  submission_chain m t x now id sid a None =
    wire_message (submission_message id sid m x now a no_parent).
Proof.
  split_and!; try reflexivity.
  - unfold submission_chain. case_bool_decide as Hk; [|reflexivity].
    unfold submission_message. by rewrite Hk.
  - unfold submission_chain. case_bool_decide as Hk; [|reflexivity].
    unfold submission_message. by rewrite Hk.
Qed.
