(* ===== verification/CliService.v ===== *)
(** * The executor of the command line: its service

    [pkg/clis/traxcli/executor.go]: the options of [traxcli executor] with
    their checks, and the [IdempotentService] it runs, which either simulates a
    step as the options say or runs a shell command for it, and remembers what
    came of each key.  Time, the commands that were run and the two maps are
    the state; what a command or a child saga comes to is up to the environment.
    The maps are not guarded by a lock: here a call is taken as a whole, see
    CliServiceSpecs.v for calls that overlap. *)

From stdpp Require Import numbers gmap sorting functions.
From S2P Require Import Prelude GoMonad GoStrings Model Json Wire Executor SubSaga.
Local Open Scope go_scope.

(** ** The options *)

(** The fields of [ExecutorConfig], all of them strings. *)
Inductive ConfigField :=
  | TraxClusterId | SagaTemplateId | SagaStepTemplateId | MqEventPubNode
  | RabbitmqURL | RedisURL | PgsqlURL
  | ExecSimStatus | ExecSimDelay | ExecSimError | ExecSimResult
  | CompSimStatus | CompSimDelay | CompSimError | CompSimResult
  | ExecShell | ExecShellPreDelay | ExecShellPostDelay
  | CompShell | CompShellPreDelay | CompShellPostDelay
  | SubSagaTemplateId | TraxCtrlURL | IdempotencyBackend.

#[export] Instance ConfigField_eq_dec : EqDecision ConfigField.
Proof. solve_decision. Defined.

Definition ExecutorConfig : Type := ConfigField → string.

Definition no_config : ExecutorConfig := λ _, "".

Definition unset (cfg : ExecutorConfig) (f : ConfigField) : bool := String.eqb (cfg f) "".

(** [if cfg.F == "" { cfg.F = value }] *)
Definition default_to (f : ConfigField) (value : string) (cfg : ExecutorConfig) : ExecutorConfig :=
  if unset cfg f then <[f := value]> cfg else cfg.

(** ** Values as texts: [%v] *)

(** How a number is shown that is no integer below 2^53. *)
Class FloatText := { float_text : Json → string }.

(** An integer read as a float: above six digits it is shown with an exponent. *)
Definition show_integer `{!FloatText} (z : Z) : string :=
  if (Z.abs z <? 1000000)%Z then FormatInt z
  else if (Z.abs z <? 2 ^ 53)%Z then
    let digits := FormatInt (strip_zeros 20 (Z.abs z)) in
    (if (z <? 0)%Z then "-" else "") +:+
    match digits with
    | String c EmptyString => String c ""
    | String c rest => String c ("." +:+ rest)
    | EmptyString => ""
    end +:+ "e+" +:+ padded_digits 2 (Z.of_nat (String.length (FormatInt (Z.abs z)) - 1))
  else float_text (JInt z).

(** The members of a map, where a later one overwrites an earlier one, in the
    order of their keys. *)
Definition sorted_members (l : list (string * string)) : list (string * string) :=
  merge_sort key_le (map_to_list (foldl (λ m e, <[e.1 := e.2]> m) (∅ : gmap string string) l)).

Definition map_text (shown : list (string * string)) : string :=
  "map[" +:+ Join ((λ e, e.1 +:+ ":" +:+ e.2) <$> sorted_members shown) " " +:+ "]".

Fixpoint show_value `{!FloatText} (j : Json) : string :=
  match j with
  | JNull => "<nil>"
  | JBool b => if b then "true" else "false"
  | JInt z => show_integer z
  | JFraction _ => float_text j
  | JString s => s
  | JArray l => "[" +:+ Join ((fix go l := match l with [] => [] | j :: l => show_value j :: go l end) l) " " +:+ "]"
  | JObject members =>
      map_text ((fix go l := match l with [] => [] | (k, j) :: l => (k, show_value j) :: go l end) members)
  end.

(** ** What the program sees and does *)

Record ServiceWorld := mkServiceWorld {
  sv_executionResults : gmap string (option IdempotentServiceExecutionResult);
  sv_compensationResults : gmap string (option IdempotentServiceExecutionResult);
  sv_now : Z;
  (** The commands given to the shell, with what was added to the environment. *)
  sv_commands : list (string * list string);
  sv_tick : nat;
}.

(** [newIdempotentService] *)
Definition new_service (now : Z) : ServiceWorld := mkServiceWorld ∅ ∅ now [] 0.

Record ServiceEnv := mkServiceEnv {
  (** The output of a command and its error, if it failed. *)
  se_shell : nat → string → list string → string * option string;
  se_spawn : nat → string → gmap string string → string → Completion;
}.

Section service.
Context `{!JsonText, !FloatText} (env : ServiceEnv) (cfg : ExecutorConfig).
#[local] Notation Go := (M ServiceWorld).

(** *** [validateExecutorConfig] *)

(** [json.Unmarshal] into a map of any values. *)
Definition parse_object (text : string) : option (list (string * Json)) :=
  match parse text with
  | Some (JObject members) => Some members
  | Some JNull => Some []
  | _ => None
  end.

(** An option that is to be JSON when it is given. *)
Definition json_option (c : ExecutorConfig) (f : ConfigField) (name : string) : result unit :=
  if unset c f then Ok tt
  else match parse_object (c f) with
       | Some _ => Ok tt
       | None => Err (Errorf ("invalid --" +:+ name +:+ " JSON format"))
       end.

Definition duration_option (c : ExecutorConfig) (f : ConfigField) (name : string) : result unit :=
  match ParseDuration (c f) with
  | Some _ => Ok tt
  | None => Err (Errorf ("invalid --" +:+ name +:+ " format"))
  end.

Definition require (b : bool) (msg : string) : result unit := if b then Ok tt else Err (Errorf msg).

Definition and_then {A} (r : result unit) (k : result A) : result A :=
  match r with Ok _ => k | Err e => Err e end.

Definition one_of (l : list string) (s : string) : bool := existsb (String.eqb s) l.

#[local] Notation "r >>> k" := (and_then r k) (at level 99, right associativity).

(** The checks of a simulated compensation. *)
Definition validate_comp_sim (c : ExecutorConfig) : result ExecutorConfig :=
  require (one_of ["ok"; "error"; "noreturn"] (c CompSimStatus))
    "--comp-sim-status must be one of: ok, error, noreturn" >>>
  require (negb (String.eqb (c CompSimStatus) "error" && unset c CompSimError))
    "--comp-sim-error is required when --comp-sim-status is error" >>>
  json_option c CompSimResult "comp-sim-result" >>>
  json_option c CompSimError "comp-sim-error" >>>
  let c := default_to CompSimDelay "0s" c in
  duration_option c CompSimDelay "comp-sim-delay" >>>
  Ok c.

(** The checks of simulation mode. *)
Definition validate_sim (c : ExecutorConfig) : result ExecutorConfig :=
  let status := c ExecSimStatus in
  require (one_of ["ok"; "error"; "noreturn"; "sub-saga"] status)
    "--exec-sim-status must be one of: ok, error, noreturn, sub-saga" >>>
  require (negb (String.eqb status "sub-saga" && unset c SubSagaTemplateId))
    "--sub-saga-template-id is required when --exec-sim-status is sub-saga" >>>
  require (negb (String.eqb status "sub-saga" && unset c TraxCtrlURL))
    "--traxctrl-url is required when --exec-sim-status is sub-saga" >>>
  let c := default_to ExecSimDelay "0s" c in
  duration_option c ExecSimDelay "exec-sim-delay" >>>
  require (negb (String.eqb status "ok" && unset c ExecSimResult))
    "--exec-sim-result is required when --exec-sim-status is ok" >>>
  require (negb (String.eqb status "error" && unset c ExecSimError))
    "--exec-sim-error is required when --exec-sim-status is error" >>>
  json_option c ExecSimResult "exec-sim-result" >>>
  json_option c ExecSimError "exec-sim-error" >>>
  require (String.eqb status "sub-saga" || negb (unset c CompSimStatus) || negb (unset c CompShell))
    "either compensation simulation mode (--comp-sim-status) or compensation shell mode (--comp-shell) must be specified" >>>
  require (unset c CompSimStatus || unset c CompShell)
    "cannot specify both compensation simulation mode and compensation shell mode" >>>
  if unset c CompSimStatus then Ok c else validate_comp_sim c.

(** The delays around commands. *)
Definition shell_delays (c : ExecutorConfig) : ExecutorConfig :=
  default_to CompShellPostDelay "0s" (default_to CompShellPreDelay "0s"
    (default_to ExecShellPostDelay "0s" (default_to ExecShellPreDelay "0s" c))).

Definition validate_delays (c : ExecutorConfig) : result unit :=
  duration_option c ExecShellPreDelay "exec-shell-predelay" >>>
  duration_option c ExecShellPostDelay "exec-shell-postdelay" >>>
  duration_option c CompShellPreDelay "comp-shell-predelay" >>>
  duration_option c CompShellPostDelay "comp-shell-postdelay".

(** The backend is named, though nothing is kept there. *)
Definition validate_backend (c : ExecutorConfig) : result unit :=
  require (one_of ["inmem"; "redis"; "pgsql"] (c IdempotencyBackend))
    "--idempotency-storage-backend must be one of: inmem, redis, pgsql" >>>
  require (negb (String.eqb (c IdempotencyBackend) "redis" && unset c RedisURL))
    "--redis-addr is required when --idempotency-storage-backend is redis" >>>
  require (negb (String.eqb (c IdempotencyBackend) "pgsql" && unset c PgsqlURL))
    "--pgsql-url is required when --idempotency-storage-backend is pgsql".

(** One of the two modes, and what simulation mode asks for. *)
Definition validate_mode : result ExecutorConfig :=
  let hasSimMode := negb (unset cfg ExecSimStatus) in
  let hasShellMode := negb (unset cfg ExecShell) in
  require (hasSimMode || hasShellMode)
    "either simulation mode (--exec-sim-status) or shell execution mode (--exec-shell) must be specified" >>>
  require (negb (hasSimMode && hasShellMode))
    "cannot specify both simulation mode and shell execution mode" >>>
  if hasSimMode then validate_sim cfg else Ok cfg.

(** The options with their defaults; no backend at all is a panic. *)
Definition validateExecutorConfig : outcome (result ExecutorConfig) :=
  match validate_mode with
  | Err e => Ret (Err e)
  | Ok c =>
      let c := shell_delays c in
      match validate_delays c with
      | Err e => Ret (Err e)
      | Ok _ =>
          if unset c IdempotencyBackend then Panic "CRITICAL: --idempotency-storage-backend is REQUIRED. "
          else Ret (validate_backend c >>> Ok c)
      end
  end.

(** *** Time, the shell, child sagas *)

Definition get_world : Go ServiceWorld := get_state.
Definition service_tick : Go nat := λ w,
  (Ret (sv_tick w), mkServiceWorld (sv_executionResults w) (sv_compensationResults w) (sv_now w)
                      (sv_commands w) (S (sv_tick w))).

(** [time.Sleep]; a duration that is not positive passes at once. *)
Definition Sleep (d : Z) : Go unit :=
  modify (λ w, mkServiceWorld (sv_executionResults w) (sv_compensationResults w) (sv_now w + Z.max 0 d)
                 (sv_commands w) (sv_tick w)).

(** A delay that cannot be parsed is none. *)
Definition delay (f : ConfigField) : Z := default 0%Z (ParseDuration (cfg f)).

Definition environment (input : gmap string string) : list string :=
  (λ e, "INPUT_" +:+ e.1 +:+ "=" +:+ e.2) <$> map_to_list input.

(** [sh -c command] *)
Definition run_command (command : string) (input : gmap string string) : Go (string * option string) :=
  n <- service_tick ;;
  modify (λ w, mkServiceWorld (sv_executionResults w) (sv_compensationResults w) (sv_now w)
                 (sv_commands w ++ [(command, environment input)]) (sv_tick w)) ;;;
  ret (se_shell env n command (environment input)).

(** The members of an output that is a JSON object, or else the output. *)
Definition output_map (output : string) : gmap string string :=
  match parse_object output with
  | Some members => foldl (λ m e, <[e.1 := show_value e.2]> m) ∅ members
  | None => {["output" := output]}
  end.

Definition shell_result (what : string) (r : string * option string) : IdempotentServiceExecutionResult :=
  match r.2 with
  | Some err => mkIdempotentServiceExecutionResult ∅ (Some (what +:+ " failed: " +:+ err +:+ ", output: " +:+ r.1))
  | None => mkIdempotentServiceExecutionResult (output_map r.1) None
  end.

(** A command between its delays. *)
Definition shell (what : string) (command pre post : ConfigField) (input : gmap string string) :
    Go IdempotentServiceExecutionResult :=
  Sleep (delay pre) ;;;
  r <- run_command (cfg command) input ;;
  Sleep (delay post) ;;;
  ret (shell_result what r).

Definition executeShell (key : string) (input : gmap string string) :
    Go (result IdempotentServiceExecutionResult) :=
  r <- shell "shell command" ExecShell ExecShellPreDelay ExecShellPostDelay input ;; ret (Ok r).

Definition compensateShell (key : string) (input : gmap string string) :
    Go (result IdempotentServiceExecutionResult) :=
  r <- shell "compensation shell command" CompShell CompShellPreDelay CompShellPostDelay input ;; ret (Ok r).

(** *** Simulation *)

(** [json.Unmarshal] into a map of strings that is nil, the error ignored. *)
Definition result_option (f : ConfigField) : gmap string string :=
  match parse (cfg f) with Some j => (decode_map j ∅).1 | None => ∅ end.

Definition error_option (what : string) (f : ConfigField) : string :=
  what +:+ ": " +:+ show_value (JObject (default [] (parse_object (cfg f)))).

(** A child saga under the step's key, its outputs before its state. *)
Definition executeSubSaga (ctx : ServiceContext) (key : string) (input : gmap string string) :
    Go IdempotentServiceExecutionResult :=
  match ctx_sagaContext ctx with
  | None =>
      ret (mkIdempotentServiceExecutionResult ∅ (Some "no SagaContext available for sub-saga spawning"))
  | Some _ =>
      n <- service_tick ;;
      match se_spawn env n (cfg SubSagaTemplateId) input key with
      | (_, Some err) =>
          ret (mkIdempotentServiceExecutionResult ∅
            (Some ("sub-saga " +:+ cfg SubSagaTemplateId +:+ " failed: " +:+ err)))
      | (None, None) => panic "invalid memory address or nil pointer dereference"
      | (Some sub, None) =>
          ret (mkIdempotentServiceExecutionResult
            (cr_Outputs sub ∪
              {["sub_saga_instance_id" := cr_SagaInstanceId sub;
                "sub_saga_state" := SagaStateEnum_string (cr_State sub)]}) None)
      end
  end.

(** A status that is none of those known comes to a nil result. *)
Definition executeSimulation (ctx : ServiceContext) (key : string) (input : gmap string string) :
    Go (option IdempotentServiceExecutionResult) :=
  Sleep (delay ExecSimDelay) ;;;
  if String.eqb (cfg ExecSimStatus) "ok" then
    ret (Some (mkIdempotentServiceExecutionResult (result_option ExecSimResult) None))
  else if String.eqb (cfg ExecSimStatus) "error" then
    ret (Some (mkIdempotentServiceExecutionResult ∅ (Some (error_option "simulated error" ExecSimError))))
  else if String.eqb (cfg ExecSimStatus) "sub-saga" then
    r <- executeSubSaga ctx key input ;; ret (Some r)
  else if String.eqb (cfg ExecSimStatus) "noreturn" then hang
  else ret None.

Definition compensateSimulation (key : string) (input : gmap string string) :
    Go (option IdempotentServiceExecutionResult) :=
  Sleep (delay CompSimDelay) ;;;
  if String.eqb (cfg CompSimStatus) "ok" then
    ret (Some (mkIdempotentServiceExecutionResult
      (if unset cfg CompSimResult then ∅ else result_option CompSimResult) None))
  else if String.eqb (cfg CompSimStatus) "error" then
    ret (Some (mkIdempotentServiceExecutionResult ∅
      (Some (error_option "simulated compensation error" CompSimError))))
  else if String.eqb (cfg CompSimStatus) "noreturn" then hang
  else ret None.

(** *** The service *)

Definition results_of (comp : bool) (w : ServiceWorld) : gmap string (option IdempotentServiceExecutionResult) :=
  if comp then sv_compensationResults w else sv_executionResults w.

Definition store_result (comp : bool) (key : string) (r : option IdempotentServiceExecutionResult) : Go unit :=
  modify (λ w,
    if comp
    then mkServiceWorld (sv_executionResults w) (<[key := r]> (sv_compensationResults w)) (sv_now w)
           (sv_commands w) (sv_tick w)
    else mkServiceWorld (<[key := r]> (sv_executionResults w)) (sv_compensationResults w) (sv_now w)
           (sv_commands w) (sv_tick w)).

(** [GetIdempotentKeyExecutionStatus] and [GetIdempotentKeyCompensationStatus] *)
Definition key_status (comp : bool) (key : string) : Go (result SagaIdempotencyKeyStatusEnum) :=
  if unset cfg IdempotencyBackend then ret (Ok SagaIdempotencyKeyStatusEnum_NotSeen)
  else
    w <- get_world ;;
    ret (Ok match results_of comp w !! key with
            | None => SagaIdempotencyKeyStatusEnum_NotSeen
            | Some _ => SagaIdempotencyKeyStatusEnum_Completed
            end).
Definition GetIdempotentKeyExecutionStatus := key_status false.
Definition GetIdempotentKeyCompensationStatus := key_status true.

(** The work itself: simulated or by a command. *)
Definition execute_work (ctx : ServiceContext) (key : string) (input : gmap string string) :
    Go (result (option IdempotentServiceExecutionResult)) :=
  if negb (unset cfg ExecSimStatus) then r <- executeSimulation ctx key input ;; ret (Ok r)
  else r <- executeShell key input ;; ret (result_map Some r).

Definition compensate_work (key : string) (input : gmap string string) :
    Go (result (option IdempotentServiceExecutionResult)) :=
  if negb (unset cfg CompSimStatus) then r <- compensateSimulation key input ;; ret (Ok r)
  else r <- compensateShell key input ;; ret (result_map Some r).

(** The frame of both.  Other goroutines run while the work is done: what
    comes before it, and what comes after, are definitions of their own. *)
Definition look_up (comp : bool) (key : string) : Go (option (option IdempotentServiceExecutionResult)) :=
  w <- get_world ;;
  ret (if unset cfg IdempotencyBackend then None else results_of comp w !! key).

Definition finish_call (comp : bool) (key : string) (r : result (option IdempotentServiceExecutionResult)) :
    Go (result (option IdempotentServiceExecutionResult)) :=
  match r with
  | Err e => ret (Err e)
  | Ok v =>
      (if unset cfg IdempotencyBackend then ret tt else store_result comp key v) ;;;
      ret (Ok v)
  end.

Definition remembered (comp : bool) (key : string)
    (work : Go (result (option IdempotentServiceExecutionResult))) :
    Go (result (option IdempotentServiceExecutionResult)) :=
  found <- look_up comp key ;;
  match found with
  | Some r => ret (Ok r)
  | None => r <- work ;; finish_call comp key r
  end.

Definition ExecuteSync (ctx : ServiceContext) (key : string) (input : gmap string string) :
    Go (result (option IdempotentServiceExecutionResult)) :=
  remembered false key (execute_work ctx key input).

Definition CompensateSync (ctx : ServiceContext) (key : string) (input : gmap string string) :
    Go (result (option IdempotentServiceExecutionResult)) :=
  remembered true key (compensate_work key input).
End service.
