(* ===== verification/CliServiceSpecs.v ===== *)
(** * What the service of the command line promises

    The options that are accepted, and what the service does under them: it
    answers whenever it is not told to block, it says the same of a key for as
    long as it lives, and runs nothing for a key it remembers.  It remembers
    nothing beyond that, whatever backend is named.  At the end it runs under
    the executor of ExecutorPool.v, with calls that overlap. *)

From stdpp Require Import numbers gmap functions.
From stdpp Require Import numbers gmap functions relations.
From S2P Require Import Prelude GoMonad Model GoStrings Json Messages World Executor.
From S2P Require Import Wire SubSaga ExecutorPool WireSpecs CliService.

Local Open Scope go_scope.

(** ** The options that are accepted *)

Lemma and_then_Ok {A} (r : result unit) (k : result A) a :
  and_then r k = Ok a → r = Ok tt ∧ k = Ok a.
Proof. destruct r as [[]|e]; simpl; [by split|done]. Qed.

Lemma require_Ok b msg : require b msg = Ok tt → b = true.
Proof. by destruct b. Qed.

Ltac accepted :=
  repeat match goal with
  | H : and_then _ _ = Ok _ |- _ => apply and_then_Ok in H; destruct H as [? H]
  | H : require _ _ = Ok tt |- _ => apply require_Ok in H
  end.

Section accepted.
Context `{!JsonText}.

Lemma duration_option_Ok c f name : duration_option c f name = Ok tt → is_Some (ParseDuration (c f)).
Proof. unfold duration_option. destruct (ParseDuration (c f)); [by eexists|done]. Qed.

Lemma json_option_Ok c f name :
  json_option c f name = Ok tt → c f = "" ∨ is_Some (parse_object (c f)).
Proof.
  unfold json_option, unset. destruct (String.eqb_spec (c f) ""); [by left|].
  destruct (parse_object (c f)); [right; by eexists|done].
Qed.

Lemma insert_same (f : ConfigField) (v : string) (c : ExecutorConfig) : (<[f := v]> c : ExecutorConfig) f = v.
Proof. exact (fn_lookup_insert c f v). Qed.
Lemma insert_other (f g : ConfigField) (v : string) (c : ExecutorConfig) :
  f ≠ g → (<[f := v]> c : ExecutorConfig) g = c g.
Proof. exact (fn_lookup_insert_ne c f g v). Qed.

Lemma default_to_other f g v c : f ≠ g → default_to f v c g = c g.
Proof. intros Hne. unfold default_to. destruct (unset c f); [by rewrite insert_other|done]. Qed.

Lemma default_to_keeps f g v c : c g = "" ∨ default_to f v c g = c g.
Proof.
  unfold default_to, unset. destruct (String.eqb_spec (c f) ""); [|by right].
  destruct (decide (f = g)) as [->|]; [by left|right; by rewrite insert_other].
Qed.

(** The six delays that have a default. *)
Definition has_default (f : ConfigField) : bool :=
  match f with
  | ExecSimDelay | CompSimDelay | ExecShellPreDelay | ExecShellPostDelay | CompShellPreDelay
  | CompShellPostDelay => true
  | _ => false
  end.

(** Nothing but a default is put in. *)
Definition completes (cfg c : ExecutorConfig) : Prop :=
  ∀ f, c f = cfg f ∨ has_default f = true ∧ cfg f = "" ∧ c f = "0s".

Lemma completes_refl c : completes c c.
Proof. by left. Qed.

Lemma completes_default f cfg c :
  has_default f = true → completes cfg c → completes cfg (default_to f "0s" c).
Proof.
  intros Hf Hc g. unfold default_to, unset. destruct (String.eqb_spec (c f) "") as [He|]; [|apply Hc].
  destruct (decide (f = g)) as [<-|Hne]; [|rewrite insert_other by done; apply Hc].
  rewrite insert_same. destruct (Hc f) as [Heq|(_ & ? & ?)]; [|by right].
  right. by rewrite <- Heq.
Qed.

Lemma shell_delays_completes cfg c : completes cfg c → completes cfg (shell_delays c).
Proof. intros Hc. unfold shell_delays. by repeat apply completes_default. Qed.

Lemma shell_delays_other c f :
  f ∉ [ExecShellPreDelay; ExecShellPostDelay; CompShellPreDelay; CompShellPostDelay] → shell_delays c f = c f.
Proof. intros Hf. unfold shell_delays. rewrite !default_to_other; [done|set_solver..]. Qed.

(** What simulation mode has to have. *)
Record sim_ok (c : ExecutorConfig) : Prop := {
  so_status : c ExecSimStatus ∈ ["ok"; "error"; "noreturn"; "sub-saga"];
  so_delay : is_Some (ParseDuration (c ExecSimDelay));
  so_result : c ExecSimStatus = "ok" → is_Some (parse_object (c ExecSimResult));
  so_error : c ExecSimStatus = "error" → is_Some (parse_object (c ExecSimError));
  so_compensation : c ExecSimStatus = "sub-saga" ∨ c CompSimStatus ≠ "" ∨ c CompShell ≠ "";
  so_one : c CompSimStatus = "" ∨ c CompShell = "";
  so_comp : c CompSimStatus ≠ "" → c CompSimStatus ∈ ["ok"; "error"; "noreturn"] ∧
    is_Some (ParseDuration (c CompSimDelay));
}.

Lemma one_of_elem l s : one_of l s = true → s ∈ l.
Proof.
  unfold one_of. intros (x & Hx & Heq%String.eqb_eq)%existsb_exists. subst x. by apply list_elem_of_In.
Qed.

Lemma unset_false c f : unset c f = false → c f ≠ "".
Proof. unfold unset. by intros ?%String.eqb_neq. Qed.
Lemma unset_true c f : unset c f = true → c f = "".
Proof. unfold unset. by intros ?%String.eqb_eq. Qed.

Lemma validate_comp_sim_Ok c c' :
  validate_comp_sim c = Ok c' →
  completes c c' ∧ c CompSimStatus ∈ ["ok"; "error"; "noreturn"] ∧ is_Some (ParseDuration (c' CompSimDelay)) ∧
  ∀ f, f ≠ CompSimDelay → c' f = c f.
Proof.
  unfold validate_comp_sim. intros Hok. accepted. injection Hok as <-. split_and!.
  - apply completes_default; [done|apply completes_refl].
  - by apply one_of_elem.
  - by eapply duration_option_Ok.
  - intros f Hf. by apply default_to_other.
Qed.

Lemma validate_sim_Ok cfg c : validate_sim cfg = Ok c → sim_ok c ∧ completes cfg c ∧
  c ExecSimStatus = cfg ExecSimStatus ∧ c ExecShell = cfg ExecShell.
Proof.
  unfold validate_sim. intros Hok. accepted.
  set (d := default_to ExecSimDelay "0s" cfg) in *.
  assert (Hd : ∀ f, f ≠ ExecSimDelay → d f = cfg f) by (intros; by apply default_to_other).
  assert (Hc : completes cfg c ∧ (∀ f, f ≠ ExecSimDelay → f ≠ CompSimDelay → c f = cfg f) ∧
    c ExecSimDelay = d ExecSimDelay ∧ (c CompSimStatus ≠ "" →
      c CompSimStatus ∈ ["ok"; "error"; "noreturn"] ∧ is_Some (ParseDuration (c CompSimDelay)))).
  { assert (Hcd : completes cfg d) by (apply completes_default; [done|apply completes_refl]).
    destruct (unset d CompSimStatus) eqn:Hu.
    - injection Hok as <-. apply unset_true in Hu. split_and!; [done|by intros; apply Hd|done|done].
    - destruct (validate_comp_sim_Ok _ _ Hok) as (Hc1 & Hs & Hp & Hsame). split_and!.
      + intros f. destruct (decide (f = CompSimDelay)) as [->|Hne]; [|rewrite Hsame by done; apply Hcd].
        destruct (Hc1 CompSimDelay) as [->|(? & He & ->)]; [apply Hcd|]. right. by rewrite Hd in He.
      + intros f Hf1 Hf2. rewrite Hsame by done. by apply Hd.
      + by apply Hsame.
      + intros _. rewrite Hsame by done. by split. }
  destruct Hc as (Hc1 & Hsame & Hdel & Hcomp). split; [|by rewrite !Hsame].
  unfold unset in *. rewrite !Hd in * by done. split; rewrite ?Hsame by done.
  - by apply one_of_elem.
  - rewrite Hdel. by eapply duration_option_Ok.
  - intros Hst. rewrite Hst in *. simpl in *.
    repeat match goal with H : json_option d _ _ = Ok tt |- _ => apply json_option_Ok in H end.
    destruct (String.eqb_spec (cfg ExecSimResult) ""); [done|].
    rewrite !Hd in * by done. naive_solver.
  - intros Hst. rewrite Hst in *. simpl in *.
    repeat match goal with H : json_option d _ _ = Ok tt |- _ => apply json_option_Ok in H end.
    destruct (String.eqb_spec (cfg ExecSimError) ""); [done|].
    rewrite !Hd in * by done. naive_solver.
  - destruct (String.eqb_spec (cfg ExecSimStatus) "sub-saga"); [by left|].
    destruct (String.eqb_spec (cfg CompSimStatus) ""); [|by right; left].
    destruct (String.eqb_spec (cfg CompShell) ""); [done|by right; right].
  - destruct (String.eqb_spec (cfg CompSimStatus) ""); [by left|].
    destruct (String.eqb_spec (cfg CompShell) ""); [by right|done].
  - rewrite Hsame in Hcomp by done. done.
Qed.
(** What every accepted set of options has. *)
Record config_ok (c : ExecutorConfig) : Prop := {
  co_sim : c ExecSimStatus ≠ "" → sim_ok c;
  co_mode : c ExecSimStatus ≠ "" ↔ c ExecShell = "";
  co_delays f : f ∈ [ExecShellPreDelay; ExecShellPostDelay; CompShellPreDelay; CompShellPostDelay] →
    is_Some (ParseDuration (c f));
  co_backend : c IdempotencyBackend ∈ ["inmem"; "redis"; "pgsql"];
}.

Lemma sim_ok_shell_delays c : sim_ok c → sim_ok (shell_delays c).
Proof.
  intros [H1 H2 H3 H4 H5 H6 H7]. split; rewrite ?shell_delays_other by set_solver; try done.
Qed.

Lemma validate_mode_Ok cfg c :
  validate_mode cfg = Ok c →
  completes cfg c ∧ (c ExecSimStatus ≠ "" → sim_ok c) ∧ (c ExecSimStatus ≠ "" ↔ c ExecShell = "").
Proof.
  unfold validate_mode, unset. intros Hok. accepted.
  destruct (String.eqb_spec (cfg ExecSimStatus) "") as [Hs|Hs], (String.eqb_spec (cfg ExecShell) "") as [Hx|Hx];
    try done; simpl in Hok.
  - injection Hok as <-. split_and!; [apply completes_refl|done|]. naive_solver.
  - destruct (validate_sim_Ok _ _ Hok) as (Hsim & Hc & -> & ->). by split_and!.
Qed.

Lemma validate_Ok cfg c :
  validateExecutorConfig cfg = Ret (Ok c) → config_ok c ∧ completes cfg c.
Proof.
  unfold validateExecutorConfig. destruct (validate_mode cfg) as [d|] eqn:Hm; [|done].
  destruct (validate_mode_Ok _ _ Hm) as (Hc & Hs & Hx). clear Hm.
  destruct (validate_delays (shell_delays d)) as [[]|] eqn:Hd; [|done].
  destruct (unset _ IdempotencyBackend); [done|]. intros [= Hb]. apply and_then_Ok in Hb as [Hb [= <-]].
  split; [|by apply shell_delays_completes]. unfold validate_delays in Hd. unfold validate_backend in Hb. accepted.
  split.
  - rewrite shell_delays_other by set_solver. intros ?. by apply sim_ok_shell_delays, Hs.
  - by rewrite !shell_delays_other by set_solver.
  - intros f Hf.
    repeat match goal with H : duration_option _ _ _ = Ok tt |- _ => apply duration_option_Ok in H end.
    set_solver.
  - match goal with H : one_of _ _ = true |- _ => by apply one_of_elem in H end.
Qed.
End accepted.

Lemma backend_named `{!JsonText} c : config_ok c → c IdempotencyBackend ≠ "".
Proof.
  intros Hok He. pose proof (co_backend _ Hok) as Hin. rewrite He in Hin.
  apply list_elem_of_In in Hin. simpl in Hin. naive_solver.
Qed.

(** Accepted options name one way to execute a step, delays that can be read, a
    backend, and what the simulated outcome needs; they are those that were
    given, up to six delays that are put in where there was none. *)
Theorem accepted_options `{!JsonText} cfg c :
  validateExecutorConfig cfg = Ret (Ok c) → config_ok c ∧ completes cfg c.
Proof. apply validate_Ok. Qed.

(** ** What the service answers *)

Section service.
Context `{!JsonText, !FloatText} (env : ServiceEnv).
#[local] Notation Go := (M ServiceWorld).
Implicit Types (w : ServiceWorld) (comp : bool) (key : string).

(** What a piece of work leaves alone, and what it comes to. *)
Definition works {A} (m : Go A) (Q : outcome A → Prop) : Prop :=
  ∀ w, Q (m w).1 ∧ ∀ comp, results_of comp (m w).2 = results_of comp w.

Lemma works_ret {A} (a : A) (Q : outcome A → Prop) : Q (Ret a) → works (ret a) Q.
Proof. by intros HQ w. Qed.
Lemma works_hang {A} (Q : outcome A → Prop) : Q Hang → works hang Q.
Proof. by intros HQ w. Qed.

Lemma works_bind {A B} (m : Go A) (k : A → Go B) (P : outcome A → Prop) (Q : outcome B → Prop) :
  works m P → (∀ a, P (Ret a) → works (k a) Q) → (∀ msg, P (Panic msg) → Q (Panic msg)) → (P Hang → Q Hang) →
  works (bind m k) Q.
Proof.
  intros Hm Hk Hp Hh w. destruct (Hm w) as [HP Hr]. unfold bind. destruct (m w) as [[a|msg|] w'] eqn:Hw; simpl in *.
  - destruct (Hk a HP w') as [HQ Hr']. split; [done|]. intros comp. by rewrite Hr'.
  - split; [by apply Hp|done].
  - split; [by apply Hh|done].
Qed.

Definition answered {A} (P : A → Prop) (o : outcome A) : Prop := match o with Ret a => P a | _ => False end.

Lemma works_answered {A B} (m : Go A) (k : A → Go B) (P : A → Prop) (Q : outcome B → Prop) :
  works m (answered P) → (∀ a, P a → works (k a) Q) → works (bind m k) Q.
Proof. intros Hm Hk. by eapply works_bind; [apply Hm|apply Hk|..]. Qed.

Definition any {A} : A → Prop := λ _, True.

Lemma works_sleep d : works (Sleep d) (answered any).
Proof. intros w. split; [done|]. by intros []. Qed.
Lemma works_tick : works service_tick (answered any).
Proof. intros w. split; [done|]. by intros []. Qed.

Lemma works_command command input : works (run_command env command input) (answered any).
Proof. intros w. split; [done|]. by intros []. Qed.

Lemma works_shell cfg what command pre post input :
  works (shell env cfg what command pre post input) (answered any).
Proof.
  unfold shell. eapply works_answered; [apply works_sleep|]. intros _ _.
  eapply works_answered; [apply works_command|]. intros r _.
  eapply works_answered; [apply works_sleep|]. intros _ _. by apply works_ret.
Qed.

(** Child sagas come to something. *)
Definition spawn_answers : Prop := ∀ n template input key, se_spawn env n template input key ≠ (None, None).

Lemma works_sub_saga cfg ctx key input :
  spawn_answers → works (executeSubSaga env cfg ctx key input) (answered any).
Proof.
  intros Hsp. unfold executeSubSaga. destruct (ctx_sagaContext ctx); [|by apply works_ret].
  eapply works_answered; [apply works_tick|]. intros n _.
  specialize (Hsp n (cfg SubSagaTemplateId) input key).
  by destruct (se_spawn _ _ _ _ _) as [[sub|] [err|]]; try apply works_ret.
Qed.

(** A result, or nothing for ever when it is to block. *)
Definition result_or_block (status : string) (o : outcome (result (option IdempotentServiceExecutionResult))) : Prop :=
  match o with
  | Ret (Ok (Some _)) => status ≠ "noreturn"
  | Hang => status = "noreturn"
  | _ => False
  end.

Ltac status s :=
  match goal with
  | |- context [String.eqb ?x s] => destruct (String.eqb_spec x s)
  end.

Lemma works_execute cfg ctx key input :
  config_ok cfg → spawn_answers → works (execute_work env cfg ctx key input) (result_or_block (cfg ExecSimStatus)).
Proof.
  intros Hok Hsp. unfold execute_work. destruct (unset cfg ExecSimStatus) eqn:Hu; simpl.
  - apply unset_true in Hu. rewrite Hu. unfold executeShell. eapply works_answered with (P := λ r, is_ok r = true); [|by intros [r|] Hr; apply works_ret].
    eapply works_answered; [apply works_shell|]. intros r _. by apply works_ret.
  - apply unset_false in Hu. destruct (co_sim _ Hok Hu) as [Hst _ _ _ _ _ _].
    unfold executeSimulation. eapply works_bind with (P := λ o, match o with
      | Ret (Some _) => cfg ExecSimStatus ≠ "noreturn" | Hang => cfg ExecSimStatus = "noreturn" | _ => False end).
    + eapply works_answered; [apply works_sleep|]. intros _ _.
      status "ok"; [by apply works_ret; congruence|]. status "error"; [by apply works_ret; congruence|].
      status "sub-saga".
      { eapply works_answered; [by apply works_sub_saga|]. intros r _. apply works_ret. congruence. }
      status "noreturn"; [by apply works_hang|]. set_solver.
    + intros [r|] Hr; [by apply works_ret|done].
    + done.
    + done.
Qed.

Lemma works_compensate cfg key input :
  (cfg CompSimStatus ≠ "" → cfg CompSimStatus ∈ ["ok"; "error"; "noreturn"]) →
  works (compensate_work env cfg key input) (result_or_block (cfg CompSimStatus)).
Proof.
  intros Hst. unfold compensate_work. destruct (unset cfg CompSimStatus) eqn:Hu; simpl.
  - apply unset_true in Hu. rewrite Hu. unfold compensateShell. eapply works_answered with (P := λ r, is_ok r = true); [|by intros [r|] Hr; apply works_ret].
    eapply works_answered; [apply works_shell|]. intros r _. by apply works_ret.
  - apply unset_false in Hu. specialize (Hst Hu).
    unfold compensateSimulation. eapply works_bind with (P := λ o, match o with
      | Ret (Some _) => cfg CompSimStatus ≠ "noreturn" | Hang => cfg CompSimStatus = "noreturn" | _ => False end).
    + eapply works_answered; [apply works_sleep|]. intros _ _.
      status "ok"; [by apply works_ret; congruence|]. status "error"; [by apply works_ret; congruence|].
      status "noreturn"; [by apply works_hang|]. set_solver.
    + intros [r|] Hr; [by apply works_ret|done].
    + done.
    + done.
Qed.

(** ** What the service remembers *)

Lemma works_weaken {A} (m : Go A) (P Q : outcome A → Prop) : (∀ o, P o → Q o) → works m P → works m Q.
Proof. intros HPQ Hm w. destruct (Hm w). split; auto. Qed.

Definition anyway {A} : outcome A → Prop := λ _, True.

Lemma works_then {A B} (m : Go A) (k : A → Go B) :
  works m anyway → (∀ a, works (k a) anyway) → works (bind m k) anyway.
Proof. intros Hm Hk. by eapply works_bind. Qed.

Lemma works_anyway {A} (m : Go A) P : works m (answered P) → works m anyway.
Proof. by apply works_weaken. Qed.

(** No work touches what is remembered. *)
Lemma execute_keeps cfg ctx key input : works (execute_work env cfg ctx key input) anyway.
Proof.
  unfold execute_work. destruct (negb _).
  - apply works_then; [|intros; by apply works_ret]. unfold executeSimulation.
    apply works_then; [eapply works_anyway, works_sleep|]. intros _.
    repeat match goal with |- works (if ?c then _ else _) _ => destruct c end;
      try (by apply works_ret); try by apply works_hang.
    apply works_then; [|intros; by apply works_ret]. unfold executeSubSaga.
    destruct (ctx_sagaContext ctx); [|by apply works_ret].
    apply works_then; [eapply works_anyway, works_tick|]. intros n.
    destruct (se_spawn _ _ _ _ _) as [[sub|] [err|]]; by intros w.
  - apply works_then; [|intros; by apply works_ret]. unfold executeShell.
    apply works_then; [eapply works_anyway, works_shell|]. intros. by apply works_ret.
Qed.

Lemma compensate_keeps cfg key input : works (compensate_work env cfg key input) anyway.
Proof.
  unfold compensate_work. destruct (negb _).
  - apply works_then; [|intros; by apply works_ret]. unfold compensateSimulation.
    apply works_then; [eapply works_anyway, works_sleep|]. intros _.
    repeat match goal with |- works (if ?c then _ else _) _ => destruct c end;
      try (by apply works_ret); by apply works_hang.
  - apply works_then; [|intros; by apply works_ret]. unfold compensateShell.
    apply works_then; [eapply works_anyway, works_shell|]. intros. by apply works_ret.
Qed.

(** A call of the service. *)
Inductive Call :=
  | CallExecute (ctx : ServiceContext) (key : string) (input : gmap string string)
  | CallCompensate (ctx : ServiceContext) (key : string) (input : gmap string string).

Definition call_key (c : Call) : bool * string :=
  match c with CallExecute _ key _ => (false, key) | CallCompensate _ key _ => (true, key) end.

Definition call_work (cfg : ExecutorConfig) (c : Call) : Go (result (option IdempotentServiceExecutionResult)) :=
  match c with
  | CallExecute ctx key input => execute_work env cfg ctx key input
  | CallCompensate _ key input => compensate_work env cfg key input
  end.

Definition serve (cfg : ExecutorConfig) (c : Call) : Go (result (option IdempotentServiceExecutionResult)) :=
  match c with
  | CallExecute ctx key input => ExecuteSync env cfg ctx key input
  | CallCompensate ctx key input => CompensateSync env cfg ctx key input
  end.

(** Any number of calls, whatever each comes to. *)
Definition serve_all (cfg : ExecutorConfig) (calls : list Call) (w : ServiceWorld) : ServiceWorld :=
  foldl (λ w c, (serve cfg c w).2) w calls.

Lemma serve_remembered cfg c :
  serve cfg c = remembered cfg (call_key c).1 (call_key c).2 (call_work cfg c).
Proof. by destruct c. Qed.

Lemma call_keeps cfg c : works (call_work cfg c) anyway.
Proof. destruct c; [apply execute_keeps|apply compensate_keeps]. Qed.

Lemma results_of_store comp comp' key r w :
  results_of comp (store_result comp' key r w).2 =
    if decide (comp = comp') then <[key := r]> (results_of comp w) else results_of comp w.
Proof. by destruct comp, comp'. Qed.

(** A call: what is remembered, or the work and what it comes to. *)
Lemma serve_cases cfg c w :
  cfg IdempotencyBackend ≠ "" →
  let comp := (call_key c).1 in let key := (call_key c).2 in
  match results_of comp w !! key with
  | Some r => serve cfg c w = (Ret (Ok r), w)
  | None =>
      match call_work cfg c w with
      | (Ret (Ok r), w') => serve cfg c w = (Ret (Ok r), (store_result comp key r w').2)
      | (o, w') => serve cfg c w = (o, w')
      end
  end.
Proof.
  intros Hb comp key. rewrite serve_remembered. fold comp key. unfold remembered, look_up, finish_call, bind, get_world, get_state, ret, unset.
  rewrite (proj2 (String.eqb_neq _ _)) by done. cbv beta iota.
  destruct (results_of comp w !! key); [done|].
  destruct (call_work cfg c w) as [[[r|e]|msg|] w']; done.
Qed.

Lemma serve_grows cfg c w comp :
  cfg IdempotencyBackend ≠ "" → results_of comp w ⊆ results_of comp (serve cfg c w).2.
Proof.
  intros Hb. pose proof (serve_cases cfg c w Hb) as Hs. cbv zeta in Hs.
  destruct (results_of (call_key c).1 w !! (call_key c).2) as [r|] eqn:Hr; [by rewrite Hs|].
  pose proof (proj2 (call_keeps cfg c w) comp) as Hk.
  destruct (call_work cfg c w) as [[[r|e]|msg|] w'] eqn:Hw; simpl in Hk; rewrite Hs; cbn [snd]; try by rewrite Hk.
  rewrite results_of_store, Hk. case_decide as Hc; [subst comp|done]. by apply insert_subseteq.
Qed.

Lemma serve_all_grows cfg calls w comp :
  cfg IdempotencyBackend ≠ "" → results_of comp w ⊆ results_of comp (serve_all cfg calls w).
Proof.
  intros Hb. revert w. induction calls as [|c calls IH]; intros w; simpl; [done|].
  etrans; [by apply serve_grows|apply IH].
Qed.

Lemma serve_stores cfg c r w w' :
  cfg IdempotencyBackend ≠ "" → serve cfg c w = (Ret (Ok r), w') →
  results_of (call_key c).1 w' !! (call_key c).2 = Some r.
Proof.
  intros Hb Heq. pose proof (serve_cases cfg c w Hb) as Hs. cbv zeta in Hs.
  destruct (results_of (call_key c).1 w !! (call_key c).2) as [r'|] eqn:Hr; [congruence|].
  destruct (call_work cfg c w) as [[[r'|e]|msg|] w1] eqn:Hw; rewrite Hs in Heq; simplify_eq.
  rewrite results_of_store, decide_True by done. by rewrite lookup_insert_eq.
Qed.
End service.

(** As long as the process lives, a key has one answer: once a call has been
    answered, every later call for the key is given the same answer, whatever its
    input and whatever was called in between, and nothing is run, awaited or
    started for it. *)
Theorem one_answer_per_key `{!JsonText, !FloatText} env cfg first calls later r w w' :
  cfg IdempotencyBackend ≠ "" → call_key later = call_key first →
  serve env cfg first w = (Ret (Ok r), w') →
  serve env cfg later (serve_all env cfg calls w') = (Ret (Ok r), serve_all env cfg calls w').
Proof.
  intros Hb Hk Hf. apply serve_stores in Hf; [|done].
  pose proof (serve_all_grows env cfg calls w' (call_key first).1 Hb) as Hg.
  pose proof (lookup_weaken _ _ _ _ Hf Hg) as Hl.
  pose proof (serve_cases env cfg later (serve_all env cfg calls w') Hb) as Hs. cbv zeta in Hs.
  by rewrite Hk, Hl in Hs.
Qed.

(** The status of a key tells whether a call will do anything. *)
Theorem status_tells `{!JsonText, !FloatText} env cfg c w :
  cfg IdempotencyBackend ≠ "" →
  key_status cfg (call_key c).1 (call_key c).2 w = (Ret (Ok SagaIdempotencyKeyStatusEnum_Completed), w) ↔
  ∃ r, serve env cfg c w = (Ret (Ok r), w) ∧ results_of (call_key c).1 w !! (call_key c).2 = Some r.
Proof.
  intros Hb. pose proof (serve_cases env cfg c w Hb) as Hs. cbv zeta in Hs.
  unfold key_status, unset. rewrite (proj2 (String.eqb_neq _ _)) by done. unfold bind. simpl.
  destruct (results_of _ w !! _) as [r|] eqn:Hr; [|naive_solver]. split; [|done]. by exists r.
Qed.

(** Under accepted options an execution is answered with a result unless it is
    told to block; the executor knows what to make of the answer, so no goroutine
    of it panics. *)
Theorem accepted_options_are_served `{!JsonText, !FloatText} env given cfg ctx key input w :
  validateExecutorConfig given = Ret (Ok cfg) → spawn_answers env →
  (∀ key, results_of false w !! key ≠ Some None) →
  match (ExecuteSync env cfg ctx key input w).1 with
  | Ret r => service_outcome "execute" "execution" key r ≠ None
  | Hang => cfg ExecSimStatus = "noreturn"
  | Panic _ => False
  end.
Proof.
  intros [Hok _]%validate_Ok Hsp Hw.
  pose proof (backend_named _ Hok) as Hb.
  pose proof (serve_cases env cfg (CallExecute ctx key input) w Hb) as Hs. simpl in Hs. simpl.
  destruct (sv_executionResults w !! key) as [[r|]|] eqn:Hr; [|by destruct (Hw key)|].
  - rewrite Hs. simpl. by destruct (isr_Error r).
  - destruct (works_execute env cfg ctx key input Hok Hsp w) as [Hwk _].
    destruct (execute_work env cfg ctx key input w) as [[[[r|]|e]|msg|] w'] eqn:He;
      rewrite Hs; simpl in Hwk |- *; try done. by destruct (isr_Error r).
Qed.

(** ** What is not checked, and what is forgotten *)

Definition shell_options (command status : string) : ExecutorConfig :=
  <[CompSimStatus := status]> (<[ExecShell := command]> (<[IdempotencyBackend := "redis"]>
    (<[RedisURL := "redis:6379"]> no_config))).

(** In shell mode the options of the compensation are accepted whatever they
    are; with a status that is not known the compensation comes to nothing, and
    the goroutine that asked for it panics, which ends the process. *)
Theorem unchecked_compensation_crashes `{!JsonText, !FloatText} env command status ctx key input w :
  command ≠ "" → status ∉ [""; "ok"; "error"; "noreturn"] → results_of true w !! key = None →
  ∃ cfg, validateExecutorConfig (shell_options command status) = Ret (Ok cfg) ∧
    (CompensateSync env cfg ctx key input w).1 = Ret (Ok None) ∧
    service_outcome "compensate" "compensation" key (Ok None) = None.
Proof.
  intros Hne Hst Hw. exists (shell_delays (shell_options command status)).
  assert (Hcs : shell_delays (shell_options command status) CompSimStatus = status).
  { rewrite shell_delays_other by set_solver. apply insert_same. }
  assert (Hib : shell_delays (shell_options command status) IdempotencyBackend = "redis").
  { rewrite shell_delays_other by set_solver. reflexivity. }
  split_and!; [| |done].
  - unfold validateExecutorConfig, validate_mode.
    assert (Hs : unset (shell_options command status) ExecSimStatus = true) by reflexivity.
    assert (Hx : unset (shell_options command status) ExecShell = false) by by apply String.eqb_neq.
    rewrite Hs, Hx. reflexivity.
  - pose proof (serve_cases env (shell_delays (shell_options command status)) (CallCompensate ctx key input) w) as Hs.
    rewrite Hib in Hs. specialize (Hs ltac:(done)). simpl in Hs, Hw. rewrite Hw in Hs.
    unfold compensate_work, unset in Hs. rewrite Hcs in Hs. unfold compensateSimulation in Hs.
    rewrite Hcs in Hs. rewrite !(proj2 (String.eqb_neq _ _)) in Hs by set_solver. simpl in Hs. by rewrite Hs.
Qed.

(** The process is started again: its maps are new, whatever backend is named. *)
Definition restart_service (w : ServiceWorld) : ServiceWorld :=
  mkServiceWorld ∅ ∅ (sv_now w) (sv_commands w) (sv_tick w).

#[export] Instance test_floats : FloatText := { float_text j := match j with JFraction s => s | _ => "?" end }.

Definition test_env : ServiceEnv := {|
  se_shell n command input := ("done", None);
  se_spawn n template input key := (Some (mkCompletionResult "child" SagaStateEnum_Committed ∅ ""), None);
|}.

Definition test_context : ServiceContext := mkServiceContext None ∅ None.

(** A backend that outlives the process is asked for, and a step that was executed
    before the process died is executed again after. *)
Example a_restart_executes_again :
  let cfg := shell_delays (shell_options "charge-card" "ok") in
  let execute := ExecuteSync test_env cfg test_context "key" {["amount" := "10"]} in
  let once := (execute (new_service 0)).2 in
  is_ok (match validateExecutorConfig (shell_options "charge-card" "ok") with Ret r => r | _ => Err (Errorf "") end)
    = true ∧
  sv_commands (execute once).2 = [("charge-card", ["INPUT_amount=10"])] ∧
  sv_commands (execute (restart_service once)).2 =
    [("charge-card", ["INPUT_amount=10"]); ("charge-card", ["INPUT_amount=10"])].
Proof. by vm_compute. Qed.

(** Numbers of six digits and more come out of a command's output as floats. *)
Example outputs_of_commands :
  show_value (JObject [("b", JInt 1234567); ("a", JArray [JInt 1000000; JNull; JInt 999999]); ("b", JInt (-20000000))]) =
    "map[a:[1e+06 <nil> 999999] b:-2e+07]" ∧ show_integer 1234567 = "1.234567e+06".
Proof. by vm_compute. Qed.

Lemma one_answer_per_key_witness :
  let cfg := shell_delays (shell_options "charge-card" "ok") in
  let first := CallExecute test_context "key" ∅ in
  let w' := (serve test_env cfg first (new_service 0)).2 in
  let calls := [CallExecute test_context "other" ∅; CallCompensate test_context "key" ∅] in
  let later := CallExecute test_context "key" {["amount" := "10"]} in
  let r := Some (mkIdempotentServiceExecutionResult {["output" := "done"]} None) in
  serve test_env cfg later (serve_all test_env cfg calls w') = (Ret (Ok r), serve_all test_env cfg calls w').
Proof.
  intros cfg first w' calls later r.
  apply (one_answer_per_key test_env cfg first calls later r (new_service 0) w'); [done|done|by vm_compute].
Defined.

Lemma status_tells_witness :
  let cfg := shell_delays (shell_options "charge-card" "ok") in
  let c := CallExecute test_context "key" ∅ in
  key_status cfg false "key" (new_service 0) = (Ret (Ok SagaIdempotencyKeyStatusEnum_Completed), new_service 0) ↔
  ∃ r, serve test_env cfg c (new_service 0) = (Ret (Ok r), new_service 0) ∧
    results_of false (new_service 0) !! "key" = Some r.
Proof.
  intros cfg c. apply (status_tells test_env cfg c (new_service 0)). done.
Defined.

Definition accepted_test_options : ExecutorConfig := shell_delays (shell_options "charge-card" "ok").

Lemma accepted_test : validateExecutorConfig (shell_options "charge-card" "ok") = Ret (Ok accepted_test_options).
Proof. reflexivity. Qed.

Lemma accepted_options_witness :
  config_ok accepted_test_options ∧ completes (shell_options "charge-card" "ok") accepted_test_options.
Proof. by apply (accepted_options (shell_options "charge-card" "ok")), accepted_test. Defined.

Lemma accepted_options_are_served_witness :
  match (ExecuteSync test_env accepted_test_options test_context "key" ∅ (new_service 0)).1 with
  | Ret r => service_outcome "execute" "execution" "key" r ≠ None
  | Hang => accepted_test_options ExecSimStatus = "noreturn"
  | Panic _ => False
  end.
Proof.
  apply (accepted_options_are_served test_env (shell_options "charge-card" "ok") accepted_test_options);
    [apply accepted_test|done|by intros key].
Defined.

Lemma unchecked_compensation_crashes_witness :
  ∃ cfg, validateExecutorConfig (shell_options "charge-card" "okay") = Ret (Ok cfg) ∧
    (CompensateSync test_env cfg test_context "key" ∅ (new_service 0)).1 = Ret (Ok None) ∧
    service_outcome "compensate" "compensation" "key" (Ok None) = None.
Proof.
  apply (unchecked_compensation_crashes test_env "charge-card" "okay" test_context "key" ∅ (new_service 0));
    [done|set_solver|done].
Defined.

(** ** The executor of the command line: calls that overlap

    The service of CliService.v under the executor of ExecutorPool.v.  A call
    of the service is no single step: it looks for a result, works, and stores
    the result, and other goroutines run in between.  The service has no lock;
    what keeps two goroutines from working for one key is the executor's table
    of keys in flight. *)

Definition is_call (a : action) : bool := match a with CallService _ _ _ _ _ => true | _ => false end.

(** The process: the executor, the service, the goroutines that are at work
    within a call, the work that was begun since the start, and the answers that
    were given. *)
Record Host := mkHost {
  h_pool : Pool;
  h_service : ServiceWorld;
  h_working : list nat;
  h_begun : list (bool * string);
  h_told : list ((bool * string) * result (option IdempotentServiceExecutionResult));
}.

Section host.
Context `{!JsonText, !FloatText} (parseText : string → option Json) (SubComponent : string) (e : Executor).
Context (env : ServiceEnv) (cfg : ExecutorConfig).

Definition no_panic (p : Pool) : Prop := forallb (λ b, negb (crashed b)) (p_goroutines p) = true.

(** A goroutine goes on with an answer of the service. *)
Definition answer_call (i : nat) (a : action) (p : Pool) : Pool :=
  mkPool (p_state p) (<[i := a]> (p_goroutines p)) (p_received p).

Definition service_call (comp : bool) (ctx : ServiceContext) (key : string) (input : gmap string string) : Call :=
  if comp then CallCompensate ctx key input else CallExecute ctx key input.

(** A call is made of what [remembered] is made of: [look_up], the work, which
    finds the clock and the shell as they then are, and [finish_call].  A read
    or a write of a map of the service is one step; the process may die at any
    time, so also of two accesses that meet. *)
Inductive host_step : Host → Host → Prop :=
  | host_receive p sv working begun told msg :
      host_step (mkHost p sv working begun told)
        (mkHost (mkPool (p_state p) (p_goroutines p ++ [handleMessage parseText SubComponent e msg])
                   (p_received p ++ [msg])) sv working begun told)
  | host_act st gs received sv working begun told i a ans a' started st' :
      no_panic (mkPool st gs received) → gs !! i = Some a → is_call a = false →
      perform ans a st = Some (a', started, st') →
      host_step (mkHost (mkPool st gs received) sv working begun told)
        (mkHost (mkPool st' (<[i := a']> gs ++ started) received) sv working begun told)
  | host_hit p sv sv' working begun told i comp ctx key input k r :
      no_panic p → p_goroutines p !! i = Some (CallService comp ctx key input k) →
      i ∉ working → look_up cfg comp key sv = (Ret (Some r), sv') →
      host_step (mkHost p sv working begun told)
        (mkHost (answer_call i (k (Ok r)) p) sv' working begun (told ++ [((comp, key), Ok r)]))
  | host_begin p sv sv' working begun told i comp ctx key input k :
      no_panic p → p_goroutines p !! i = Some (CallService comp ctx key input k) →
      i ∉ working → look_up cfg comp key sv = (Ret None, sv') →
      host_step (mkHost p sv working begun told)
        (mkHost p sv' (i :: working) (begun ++ [(comp, key)]) told)
  | host_end p sv sv' working begun told i comp ctx key input k r r' w w' :
      no_panic p → p_goroutines p !! i = Some (CallService comp ctx key input k) →
      i ∈ working → call_work env cfg (service_call comp ctx key input) w = (Ret r, w') →
      finish_call cfg comp key r sv = (Ret r', sv') →
      host_step (mkHost p sv working begun told)
        (mkHost (answer_call i (k r') p) sv' (filter (λ j, j ≠ i) working) begun
           (told ++ [((comp, key), r')]))
  (** The process dies and is started again. *)
  | host_restart p sv working begun told :
      host_step (mkHost p sv working begun told)
        (mkHost (mkPool (mkExState ∅ ∅ (exs_published (p_state p))) [] (p_received p))
           (new_service (sv_now sv)) [] [] []).

Definition initial_host : Host := mkHost initial_pool (new_service 0) [] [] [].

Definition host_reachable (h : Host) : Prop := rtc host_step initial_host h.

(** ** The executor does what it does *)

Lemma list_insert_mid {A} (l : list A) i a a' :
  l !! i = Some a → ∃ l1 l2, l = l1 ++ a :: l2 ∧ <[i := a']> l = l1 ++ a' :: l2.
Proof.
  intros (l1 & l2 & -> & ->)%list_elem_of_split_length. exists l1, l2. split; [done|].
  by rewrite insert_app_r_alt, Nat.sub_diag by lia.
Qed.

Lemma act_is_pool_step st gs received i a ans a' started st' :
  no_panic (mkPool st gs received) → gs !! i = Some a → perform ans a st = Some (a', started, st') →
  pool_step parseText SubComponent e (mkPool st gs received) (mkPool st' (<[i := a']> gs ++ started) received).
Proof.
  intros Hn Hi Hp. destruct (list_insert_mid gs i a a' Hi) as (l1 & l2 & -> & ->).
  rewrite <- (assoc_L (++)). simpl. eapply step_perform; [exact Hn|exact Hp].
Qed.

Lemma answer_is_pool_step p i comp ctx key input k r :
  no_panic p → p_goroutines p !! i = Some (CallService comp ctx key input k) →
  pool_step parseText SubComponent e p (answer_call i (k r) p).
Proof.
  destruct p as [st gs received]. intros Hn Hi.
  pose proof (act_is_pool_step st gs received i _ (mkAnswer (Ok SagaIdempotencyKeyStatusEnum_NotSeen) r
    MqSent "" 0) _ _ _ Hn Hi eq_refl) as Hs.
  by rewrite app_nil_r in Hs.
Qed.

Lemma host_is_pool h : host_reachable h → pool_reachable parseText SubComponent e (h_pool h).
Proof.
  assert (Hinv : ∀ g g', rtc host_step g g' → pool_reachable parseText SubComponent e (h_pool g) →
    pool_reachable parseText SubComponent e (h_pool g')).
  { induction 1 as [|g g1 g' Hs _ IH]; [done|]. intros Hg. apply IH. clear IH.
    unfold pool_reachable in *. destruct Hs; simpl in *; [| | |exact Hg| |];
      eapply rtc_r; try exact Hg.
    - apply step_receive.
    - by eapply act_is_pool_step.
    - by eapply answer_is_pool_step.
    - by eapply answer_is_pool_step.
    - apply step_restart. }
  intros Hr. apply (Hinv _ _ Hr). apply rtc_refl.
Qed.

(** ** One piece of work per key *)

(** The work comes to a result, which may tell of a failure, or to none. *)
Lemma work_is_ok c w err : (call_work env cfg c w).1 ≠ Ret (Err err).
Proof.
  assert (Hok : ∀ A B (m : M ServiceWorld A) (f : A → B), (bind m (λ r, ret (Ok (f r))) w).1 ≠ Ret (Err err)).
  { intros A B m f. unfold bind. by destruct (m w) as [[r|msg|] w']. }
  assert (Hshell : ∀ m, (r <- (r <- m ;; ret (Ok r)) ;; ret (result_map Some r)) w =
    (bind m (λ r : IdempotentServiceExecutionResult, ret (Ok (Some r))) w)).
  { intros m. unfold bind. by destruct (m w) as [[r|msg|] w']. }
  destruct c as [ctx key input|ctx key input]; simpl; unfold execute_work, compensate_work;
    (destruct (negb _); [apply (Hok _ _ _ id)|]); unfold executeShell, compensateShell;
    rewrite Hshell; apply Hok.
Qed.

Context (Hbackend : cfg IdempotencyBackend ≠ "").

Definition known (h : Host) (x : bool * string) : option (option IdempotentServiceExecutionResult) :=
  results_of x.1 (h_service h) !! x.2.

Lemma look_up_spec comp key sv found sv' :
  look_up cfg comp key sv = (Ret found, sv') → found = results_of comp sv !! key ∧ sv' = sv.
Proof.
  unfold look_up, bind, get_world, get_state, ret, unset.
  rewrite (proj2 (String.eqb_neq _ _)) by done. by intros [= <- <-].
Qed.

Lemma finish_call_spec comp key c w w' r sv r' sv' :
  call_work env cfg c w = (Ret r, w') → finish_call cfg comp key r sv = (Ret r', sv') →
  ∃ v, r' = Ok v ∧ ∀ x : bool * string, results_of x.1 sv' !! x.2 =
    if decide (x = (comp, key)) then Some v else results_of x.1 sv !! x.2.
Proof.
  intros Hw. pose proof (work_is_ok c w) as Hok. rewrite Hw in Hok.
  destruct r as [v|err]; [|by destruct (Hok err)]. unfold finish_call, bind, unset.
  rewrite (proj2 (String.eqb_neq _ _)) by done. intros [= <- <-]. exists v. split; [done|].
  intros [c' k']. pose proof (results_of_store c' comp key v sv) as Hs. unfold store_result, modify in Hs.
  simpl in Hs |- *. rewrite Hs.
  destruct (decide (c' = comp)) as [->|Hne]; [|by rewrite decide_False by congruence].
  destruct (decide ((comp, k') = (comp, key))) as [[= ->]|Hne]; [by rewrite lookup_insert_eq|].
  rewrite lookup_insert_ne; [done|congruence].
Qed.

(** The goroutine at work for a key. *)
Definition works_for (h : Host) (x : bool * string) (i : nat) : Prop :=
  i ∈ h_working h ∧ ∃ ctx input k, p_goroutines (h_pool h) !! i = Some (CallService x.1 ctx x.2 input k).

Record host_ok (h : Host) : Prop := {
  ho_begun : NoDup (h_begun h);
  ho_accounted x : x ∈ h_begun h → is_Some (known h x) ∨ ∃ i, works_for h x i;
  ho_working i : i ∈ h_working h → ∃ x, works_for h x i ∧ known h x = None;
  ho_told x r : (x, r) ∈ h_told h → ∃ v, r = Ok v ∧ known h x = Some v;
}.

Lemma works_for_unique h x y i : works_for h x i → works_for h y i → x = y.
Proof.
  destruct x, y. intros [_ (c & n & k & H1)] [_ (c' & n' & k' & H2)]. simpl in *. congruence.
Qed.

Lemma works_for_once h x i j : host_reachable h → works_for h x i → works_for h x j → i = j.
Proof.
  intros Hr%host_is_pool [_ (c & n & k & H1)] [_ (c' & n' & k' & H2)]. by eapply calls_distinct.
Qed.

(** A step of a goroutine that is not at work leaves those that are. *)
Lemma works_for_other p q sv sv' working begun told begun' told' x j i :
  j ≠ i → (∀ n a, n ≠ i → p_goroutines p !! n = Some a → p_goroutines q !! n = Some a) →
  works_for (mkHost p sv working begun told) x j → works_for (mkHost q sv' working begun' told') x j.
Proof.
  intros Hne Hpq [Hj (c & n & k & Hg)]. split; [done|]. simpl in *. exists c, n, k. by apply Hpq.
Qed.

Lemma answer_call_other i a p n b :
  n ≠ i → p_goroutines p !! n = Some b → p_goroutines (answer_call i a p) !! n = Some b.
Proof. intros Hne Hb. simpl. by rewrite list_lookup_insert_ne. Qed.

(** Goroutines other than [i] are where they were, and [i] is not at work. *)
Lemma host_ok_elsewhere p q sv working begun told i :
  i ∉ working → (∀ n a, n ≠ i → p_goroutines p !! n = Some a → p_goroutines q !! n = Some a) →
  host_ok (mkHost p sv working begun told) → host_ok (mkHost q sv working begun told).
Proof.
  intros Hi Hpq [Hb Ha Hw Ht]. split; simpl in *; [done| | |done].
  - intros x Hx. destruct (Ha x Hx) as [?|[j Hj]]; [by left|right]. exists j.
    eapply works_for_other; [|exact Hpq|exact Hj]. intros ->. by destruct Hj.
  - intros j Hj. destruct (Hw j Hj) as (x & Hx & Hr). exists x. split; [|done].
    eapply works_for_other; [|exact Hpq|exact Hx]. by intros ->.
Qed.

Lemma host_ok_tell p sv working begun told x r :
  results_of x.1 sv !! x.2 = Some r → host_ok (mkHost p sv working begun told) →
  host_ok (mkHost p sv working begun (told ++ [(x, Ok r)])).
Proof.
  intros Hr [Hb Ha Hw Ht]. split; simpl in *; try done.
  intros y s [Hy|Hy]%elem_of_app; [by apply Ht|]. apply list_elem_of_singleton in Hy. simplify_eq.
  by exists r.
Qed.

Lemma host_begin_ok p sv working begun told i comp ctx key input k :
  host_reachable (mkHost p sv working begun told) →
  p_goroutines p !! i = Some (CallService comp ctx key input k) →
  i ∉ working → results_of comp sv !! key = None →
  host_ok (mkHost p sv working begun told) →
  host_ok (mkHost p sv (i :: working) (begun ++ [(comp, key)]) told).
Proof.
  intros Hreach Hi Hni Hr [Hb Ha Hw Ht]. simpl in *.
  assert (Hnew : works_for (mkHost p sv (i :: working) (begun ++ [(comp, key)]) told) (comp, key) i).
  { split; [left|]. simpl. eauto. }
  assert (Hold : ∀ x j, works_for (mkHost p sv working begun told) x j →
    works_for (mkHost p sv (i :: working) (begun ++ [(comp, key)]) told) x j).
  { intros x j [Hj Hx]. split; [by right|done]. }
  split; simpl in *; [| | |done].
  - apply NoDup_app. split_and!; [done| |apply NoDup_singleton].
    intros x Hx ->%list_elem_of_singleton. destruct (Ha _ Hx) as [[r Hk]|[j Hj]].
    { unfold known in Hk. simpl in Hk. congruence. }
    assert (j = i) as ->; [|by destruct Hj].
    destruct Hj as [_ (c & n & k' & Hj)]. apply host_is_pool in Hreach. by eapply calls_distinct.
  - intros x [Hx|Hx]%elem_of_app.
    + destruct (Ha x Hx) as [?|[j Hj]]; [by left|right; eauto].
    + apply list_elem_of_singleton in Hx as ->. right; eauto.
  - intros j [->|Hj]%elem_of_cons; [by exists (comp, key)|].
    destruct (Hw j Hj) as (x & Hx & ?). exists x. split; [by apply Hold|done].
Qed.

Lemma host_end_ok p sv sv' working begun told i comp ctx key input k v :
  host_reachable (mkHost p sv working begun told) →
  p_goroutines p !! i = Some (CallService comp ctx key input k) → i ∈ working →
  (∀ x : bool * string, results_of x.1 sv' !! x.2 =
     if decide (x = (comp, key)) then Some v else results_of x.1 sv !! x.2) →
  host_ok (mkHost p sv working begun told) →
  host_ok (mkHost (answer_call i (k (Ok v)) p) sv' (filter (λ j, j ≠ i) working) begun
    (told ++ [((comp, key), Ok v)])).
Proof.
  intros Hreach Hi Hin Hsv Hok. pose proof Hok as [Hb Ha Hw Ht]. unfold known in *. simpl in *.
  assert (Hme : works_for (mkHost p sv working begun told) (comp, key) i) by (split; simpl; eauto).
  assert (Hnone : results_of comp sv !! key = None).
  { destruct (Hw i Hin) as (x & Hx & Hr). by rewrite <- (works_for_unique _ _ _ _ Hme Hx) in Hr. }
  assert (Hother : ∀ x j, j ≠ i → works_for (mkHost p sv working begun told) x j →
    works_for (mkHost (answer_call i (k (Ok v)) p) sv'
      (filter (λ j, j ≠ i) working) begun (told ++ [((comp, key), Ok v)])) x j).
  { intros x j Hne [Hj (c & n & k' & Hg)]. split; simpl in *; [by apply list_elem_of_filter|].
    exists c, n, k'. by rewrite list_lookup_insert_ne. }
  split; unfold known; simpl; [done|..].
  - intros x Hx. rewrite Hsv. destruct (decide (x = (comp, key))) as [->|Hne]; [by left|].
    destruct (Ha x Hx) as [?|[j Hj]]; [by left|right]. exists j.
    apply Hother; [|done]. intros ->. by rewrite (works_for_unique _ _ _ _ Hme Hj) in Hne.
  - intros j [Hne Hj]%list_elem_of_filter. destruct (Hw j Hj) as (x & Hx & Hr). exists x.
    split; [by apply Hother|]. rewrite Hsv. case_decide as Heq; [|done]. subst x.
    by destruct Hne; eapply works_for_once.
  - intros x s [Hx|Hx]%elem_of_app.
    + destruct (Ht x s Hx) as (v' & -> & Hk). exists v'. split; [done|]. rewrite Hsv.
      case_decide; [|done]. subst x. simpl in Hk. congruence.
    + apply list_elem_of_singleton in Hx. simplify_eq. exists v. split; [done|]. rewrite Hsv.
      by rewrite decide_True.
Qed.

Lemma host_step_ok h h' : host_reachable h → host_step h h' → host_ok h → host_ok h'.
Proof.
  intros Hreach Hs Hok. destruct Hs as
    [p sv working begun told msg|st gs received sv working begun told i a ans a' started st' Hn Hi Ha Hp
    |p sv sv' working begun told i comp ctx key input k r Hn Hi Hni Hr
    |p sv sv' working begun told i comp ctx key input k Hn Hi Hni Hr
    |p sv sv' working begun told i comp ctx key input k r r' w w' Hn Hi Hin Hc Hf|p sv working begun told].
  - destruct Hok as [Hb Hacc Hw Ht]. split; simpl in *; [done| | |done].
    + intros x Hx. destruct (Hacc x Hx) as [?|(j & Hj & c & n & k & Hg)]; [by left|right]. exists j.
      split; [done|]. exists c, n, k. by apply lookup_app_l_Some.
    + intros j Hj. destruct (Hw j Hj) as (x & (_ & c & n & k & Hg) & Hr). exists x. split; [|done].
      split; [done|]. exists c, n, k. by apply lookup_app_l_Some.
  - assert (Hni : i ∉ working).
    { intros Hin. destruct (ho_working _ Hok i Hin) as (x & [_ (c & n & k & Hg)] & _). simpl in Hg.
      rewrite Hi in Hg. injection Hg as ->. done. }
    eapply host_ok_elsewhere; [exact Hni| |exact Hok]. simpl. intros n b Hne Hb.
    apply lookup_app_l_Some. by rewrite list_lookup_insert_ne.
  - apply look_up_spec in Hr as [Hr ->]. apply host_ok_tell; [done|].
    eapply host_ok_elsewhere; [exact Hni| |exact Hok]. intros n b Hne Hb. by apply answer_call_other.
  - apply look_up_spec in Hr as [Hr ->]. by eapply host_begin_ok.
  - destruct (finish_call_spec _ _ _ _ _ _ _ _ _ Hc Hf) as (v & -> & Hsv). by eapply host_end_ok.
  - split; simpl; [constructor|set_solver..].
Qed.

Lemma host_reachable_ok h : host_reachable h → host_ok h.
Proof.
  revert h. apply (rtc_ind_r host_ok).
  - split; simpl; [constructor|set_solver..].
  - intros g h Hg Hs IH. by eapply host_step_ok.
Qed.
End host.

(** C38: with a backend, as the options must have one, and however messages
    come, the goroutines of the executor take turns between the look-up, the
    work and the storing of its result, and however long commands run: the work
    for a key is begun at most once in the life of the process, although the
    service has no lock of its own, and all that ask for a key are given one
    answer.  (A read or a write of a map is one step here; the code leaves the
    accesses of different keys without a lock, and when the runtime notices it
    ends the process, which then forgets.) *)
Theorem work_is_begun_once `{!JsonText, !FloatText} parseText SubComponent e env cfg h :
  cfg IdempotencyBackend ≠ "" → host_reachable parseText SubComponent e env cfg h →
  NoDup (h_begun h) ∧ ∀ x r r', (x, r) ∈ h_told h → (x, r') ∈ h_told h → r = r'.
Proof.
  intros Hb Hr%host_reachable_ok; [|done]. split; [apply (ho_begun _ Hr)|]. intros x r r' H1 H2.
  apply (ho_told _ Hr) in H1 as (v & -> & H1). apply (ho_told _ Hr) in H2 as (v' & -> & H2). congruence.
Qed.

(** ** A request that comes twice *)

Inductive HostMove :=
  | HReceive (msg : TraxMessage)
  | HAct (i : nat) (ans : Answer)
  | HHit (i : nat)
  | HBegin (i : nat)
  | HEnd (i : nat).

Definition remove_working (i : nat) (working : list nat) : list nat := filter (λ j, j ≠ i) working.

(** The move, when it can be made; work is done in a new world. *)
Definition host_move `{!JsonText, !FloatText} (parseText : string → option Json) (SubComponent : string) (e : Executor)
    (env : ServiceEnv) (cfg : ExecutorConfig) (m : HostMove) (h : Host) : option Host :=
  let '(mkHost p sv working begun told) := h in
  let '(mkPool st gs received) := p in
  if negb (forallb (λ b, negb (crashed b)) gs) then None
  else
    match m with
    | HReceive msg =>
        Some (mkHost (mkPool st (gs ++ [handleMessage parseText SubComponent e msg]) (received ++ [msg]))
                sv working begun told)
    | HAct i ans =>
        match gs !! i with
        | Some a =>
            if is_call a then None
            else match perform ans a st with
                 | Some (a', started, st') =>
                     Some (mkHost (mkPool st' (<[i := a']> gs ++ started) received) sv working begun told)
                 | None => None
                 end
        | None => None
        end
    | HHit i =>
        match gs !! i with
        | Some (CallService comp ctx key input k) =>
            match look_up cfg comp key sv with
            | (Ret (Some r), sv') =>
                if decide (i ∈ working) then None
                else Some (mkHost (answer_call i (k (Ok r)) p) sv' working begun (told ++ [((comp, key), Ok r)]))
            | _ => None
            end
        | _ => None
        end
    | HBegin i =>
        match gs !! i with
        | Some (CallService comp ctx key input k) =>
            match look_up cfg comp key sv with
            | (Ret None, sv') =>
                if decide (i ∈ working) then None
                else Some (mkHost p sv' (i :: working) (begun ++ [(comp, key)]) told)
            | _ => None
            end
        | _ => None
        end
    | HEnd i =>
        match gs !! i with
        | Some (CallService comp ctx key input k) =>
            if decide (i ∈ working) then
              match call_work env cfg (service_call comp ctx key input) (new_service 0) with
              | (Ret r, _) =>
                  match finish_call cfg comp key r sv with
                  | (Ret r', sv') =>
                      Some (mkHost (answer_call i (k r') p) sv' (remove_working i working) begun
                              (told ++ [((comp, key), r')]))
                  | _ => None
                  end
              | _ => None
              end
            else None
        | _ => None
        end
    end.

Lemma host_move_step `{!JsonText, !FloatText} parseText SubComponent e env cfg m h h' :
  host_move parseText SubComponent e env cfg m h = Some h' → host_step parseText SubComponent e env cfg h h'.
Proof.
  destruct h as [[st gs received] sv working begun told]. unfold host_move.
  destruct (forallb _ gs) eqn:Hn; [|done]. cbn [negb]. intros Hm.
  destruct m as [msg|i ans|i|i|i]; [injection Hm as <-; apply (host_receive _ _ _ _ _ (mkPool _ _ _))|..];
    destruct (gs !! i) as [a|] eqn:Hi; try done.
  - destruct (is_call a) eqn:Ha; [done|]. destruct (perform ans a st) as [[[a' started] st']|] eqn:Hp; [|done].
    injection Hm as <-. by eapply host_act.
  - destruct a as [| | | |comp ctx key input k| | | |]; try done.
    destruct (look_up _ _ _ _) as [[[r|]|?|] sv'] eqn:Hr; try done. case_decide; [done|].
    injection Hm as <-. by eapply (host_hit _ _ _ _ _ (mkPool _ _ _)).
  - destruct a as [| | | |comp ctx key input k| | | |]; try done.
    destruct (look_up _ _ _ _) as [[[r|]|?|] sv'] eqn:Hr; try done. case_decide; [done|].
    injection Hm as <-. by eapply (host_begin _ _ _ _ _ (mkPool _ _ _)).
  - destruct a as [| | | |comp ctx key input k| | | |]; try done. case_decide; [|done].
    destruct (call_work _ _ _ _) as [[r|?|] w'] eqn:Hw; try done.
    destruct (finish_call _ _ _ _ _) as [[r'|?|] sv'] eqn:Hf; try done.
    injection Hm as <-. by eapply (host_end _ _ _ _ _ (mkPool _ _ _)).
Qed.

Fixpoint host_moves `{!JsonText, !FloatText} parseText SubComponent e env cfg (ms : list HostMove) (h : Host) :
    option Host :=
  match ms with
  | [] => Some h
  | m :: ms =>
      match host_move parseText SubComponent e env cfg m h with
      | Some h' => host_moves parseText SubComponent e env cfg ms h'
      | None => None
      end
  end.

Lemma host_moves_reachable `{!JsonText, !FloatText} parseText SubComponent e env cfg ms h h' :
  host_moves parseText SubComponent e env cfg ms h = Some h' → host_reachable parseText SubComponent e env cfg h →
  host_reachable parseText SubComponent e env cfg h'.
Proof.
  revert h. induction ms as [|m ms IH]; intros h; simpl; [by intros [= ->]|].
  destruct (host_move _ _ _ _ _ m h) as [g|] eqn:Hm; [|done]. intros Hms Hr.
  apply (IH g Hms). eapply rtc_r; [exact Hr|]. by eapply host_move_step.
Qed.

(** The second request finds the first at work, and is told that the step is in
    execution; a third, after the end, is given what is remembered. *)
Definition twice : list HostMove :=
  [HReceive sample_request_message; HReceive sample_request_message;
   HAct 0 sample_answer; HAct 0 sample_answer; HBegin 0;
   HAct 1 sample_answer; HAct 1 sample_answer; HAct 1 sample_answer; HEnd 0;
   HAct 0 sample_answer; HAct 0 sample_answer; HAct 0 sample_answer;
   HReceive sample_request_message; HAct 2 sample_answer; HAct 2 sample_answer; HHit 2].

Definition host_after : Host :=
  match host_moves no_json "exec" sample_executor test_env accepted_test_options twice initial_host with
  | Some h => h
  | None => initial_host
  end.

Lemma host_after_reachable :
  host_reachable no_json "exec" sample_executor test_env accepted_test_options host_after.
Proof.
  unfold host_after. destruct (host_moves _ _ _ _ _ _ _) as [h|] eqn:Hm; [|apply rtc_refl].
  eapply host_moves_reachable; [exact Hm|apply rtc_refl].
Qed.

Lemma work_is_begun_once_witness :
  length (h_begun host_after) = 1 ∧ length (h_told host_after) = 2 ∧
  (NoDup (h_begun host_after) ∧
   ∀ x r r', (x, r) ∈ h_told host_after → (x, r') ∈ h_told host_after → r = r').
Proof.
  split; [by vm_compute|]. split; [by vm_compute|].
  apply (work_is_begun_once no_json "exec" sample_executor test_env accepted_test_options);
    [by vm_compute|apply host_after_reachable].
Defined.
