(* ===== verification/ApiTypes.v ===== *)
(** * The control service's requests and responses

    The structures of [pkg/daemons/traxctrl/api/v1/types.go], how a request
    body is bound to them, and the conversions of [utils.go] between them and
    the store's records.  A response structure is written once and never read,
    so it has its JSON and no decoder.  Maps and slices that may be nil in the
    store's records are taken for empty ones. *)

From S2P Require Import Prelude GoMonad Model Naming GoStrings Json Messages Builders Wire.

(** ** Requests *)

(** What a handler reads of a request: the parameters of the path, those of
    the query, and the body, if it is JSON. *)
Record Request := mkRequest {
  rq_Param : string → string;
  rq_Query : string → string;
  rq_body : option Json;
}.

(** [c.ShouldBindJSON]: the body is decoded, and the fields that are
    [required] must not be empty. *)
Definition ShouldBindJSON {A} `{!Codec A} (required : list (A → string)) (r : Request) : option A :=
  match rq_body r with
  | None => None
  | Some j =>
      match unmarshal decode_as zero j with
      | Some a => if existsb (λ f, is_empty (f a)) required then None else Some a
      | None => None
      end
  end.

(** [listSagaInstanceIdsRequest], [getSagaInstanceRequest],
    [getSagaInstanceChildrenRequest], [getSagaInstanceTreeRequest],
    [listSagaStepInstanceIdsRequest], [getSagaStepInstanceRequest] *)
Record clusterIdRequest := mkClusterIdRequest { cir_ClusterId : string }.

#[export] Instance clusterIdRequest_codec : Codec clusterIdRequest := {
  fields := [string_field "cluster_id" cir_ClusterId (λ v _, mkClusterIdRequest v)];
  zero := mkClusterIdRequest "";
  in_range _ := True;
}.

Record sortFieldRequest := mkSortFieldRequest { sf_Field : string; sf_Direction : string }.

#[export] Instance sortFieldRequest_codec : Codec sortFieldRequest := {
  fields :=
    [ string_field "field" sf_Field (λ v r, mkSortFieldRequest v (sf_Direction r));
      optional_string "direction" sf_Direction (λ v r, mkSortFieldRequest (sf_Field r) v) ];
  zero := mkSortFieldRequest "" "";
  in_range _ := True;
}.

(** [*int] with [omitempty] *)
Definition decode_int_pointer : decoder (option Z) := λ j old,
  match j with
  | JNull => (None, true)
  | _ => let '(z, ok) := decode_int64 j (default 0%Z old) in (Some z, ok)
  end.
Definition int_pointer_field {R} (name : string) (get : R → option Z) (set : option Z → R → R) :
    Field R :=
  field name get set (λ z, bool_decide (z = None)) (λ z, JInt (default 0%Z z)) decode_int_pointer.

Record listSagaInstancesRequest := mkListSagaInstancesRequest {
  lr_ClusterId : string;
  lr_PageNr : option Z;
  lr_PageSize : option Z;
  lr_Search : string;
  lr_SortFields : list sortFieldRequest;
  lr_State : string;
  lr_SagaTemplateId : string;
  lr_SagaSubmitterId : string;
}.

#[export] Instance listSagaInstancesRequest_codec : Codec listSagaInstancesRequest := {
  fields :=
    [ string_field "cluster_id" lr_ClusterId (λ v r, mkListSagaInstancesRequest v (lr_PageNr r)
        (lr_PageSize r) (lr_Search r) (lr_SortFields r) (lr_State r) (lr_SagaTemplateId r)
        (lr_SagaSubmitterId r));
      int_pointer_field "page_nr" lr_PageNr (λ v r, mkListSagaInstancesRequest (lr_ClusterId r) v
        (lr_PageSize r) (lr_Search r) (lr_SortFields r) (lr_State r) (lr_SagaTemplateId r)
        (lr_SagaSubmitterId r));
      int_pointer_field "page_size" lr_PageSize (λ v r, mkListSagaInstancesRequest
        (lr_ClusterId r) (lr_PageNr r) v (lr_Search r) (lr_SortFields r) (lr_State r)
        (lr_SagaTemplateId r) (lr_SagaSubmitterId r));
      optional_string "search" lr_Search (λ v r, mkListSagaInstancesRequest (lr_ClusterId r)
        (lr_PageNr r) (lr_PageSize r) v (lr_SortFields r) (lr_State r) (lr_SagaTemplateId r)
        (lr_SagaSubmitterId r));
      field "sort_fields" lr_SortFields (λ v r, mkListSagaInstancesRequest (lr_ClusterId r)
        (lr_PageNr r) (lr_PageSize r) (lr_Search r) v (lr_State r) (lr_SagaTemplateId r)
        (lr_SagaSubmitterId r)) (λ l, bool_decide (length l = 0)) (marshal_list encode_as)
        (decode_list decode_as zero);
      optional_string "state" lr_State (λ v r, mkListSagaInstancesRequest (lr_ClusterId r)
        (lr_PageNr r) (lr_PageSize r) (lr_Search r) (lr_SortFields r) v (lr_SagaTemplateId r)
        (lr_SagaSubmitterId r));
      optional_string "saga_template_id" lr_SagaTemplateId (λ v r, mkListSagaInstancesRequest
        (lr_ClusterId r) (lr_PageNr r) (lr_PageSize r) (lr_Search r) (lr_SortFields r)
        (lr_State r) v (lr_SagaSubmitterId r));
      optional_string "saga_submitter_id" lr_SagaSubmitterId (λ v r, mkListSagaInstancesRequest
        (lr_ClusterId r) (lr_PageNr r) (lr_PageSize r) (lr_Search r) (lr_SortFields r)
        (lr_State r) (lr_SagaTemplateId r) v) ];
  zero := mkListSagaInstancesRequest "" None None "" [] "" "" "";
  in_range r := from_option in_int64 True (lr_PageNr r) ∧ from_option in_int64 True (lr_PageSize r);
}.

Record listSagaStepInstancesRequest := mkListSagaStepInstancesRequest {
  lsr_ClusterId : string;
  lsr_SagaInstanceId : string;
}.

#[export] Instance listSagaStepInstancesRequest_codec : Codec listSagaStepInstancesRequest := {
  fields :=
    [ string_field "cluster_id" lsr_ClusterId
        (λ v r, mkListSagaStepInstancesRequest v (lsr_SagaInstanceId r));
      optional_string "saga_instance_id" lsr_SagaInstanceId
        (λ v r, mkListSagaStepInstancesRequest (lsr_ClusterId r) v) ];
  zero := mkListSagaStepInstancesRequest "" "";
  in_range _ := True;
}.

Record createClusterRequest := mkCreateClusterRequest {
  ccr_Id : string;
  ccr_DisplayName : string;
  ccr_Description : string;
  ccr_Labels : gmap string string;
  ccr_Tags : list string;
  ccr_Metadata : string;
}.

Definition optional_strings {R} (name : string) (get : R → list string)
    (set : list string → R → R) : Field R :=
  field name get set (λ l, bool_decide (l = [])) (marshal_list JString) (decode_list decode_string "").

#[export] Instance createClusterRequest_codec : Codec createClusterRequest := {
  fields :=
    [ string_field "id" ccr_Id (λ v r, mkCreateClusterRequest v (ccr_DisplayName r)
        (ccr_Description r) (ccr_Labels r) (ccr_Tags r) (ccr_Metadata r));
      string_field "display_name" ccr_DisplayName (λ v r, mkCreateClusterRequest (ccr_Id r) v
        (ccr_Description r) (ccr_Labels r) (ccr_Tags r) (ccr_Metadata r));
      optional_string "description" ccr_Description (λ v r, mkCreateClusterRequest (ccr_Id r)
        (ccr_DisplayName r) v (ccr_Labels r) (ccr_Tags r) (ccr_Metadata r));
      optional_map "labels" ccr_Labels (λ v r, mkCreateClusterRequest (ccr_Id r)
        (ccr_DisplayName r) (ccr_Description r) v (ccr_Tags r) (ccr_Metadata r));
      optional_strings "tags" ccr_Tags (λ v r, mkCreateClusterRequest (ccr_Id r)
        (ccr_DisplayName r) (ccr_Description r) (ccr_Labels r) v (ccr_Metadata r));
      optional_string "metadata" ccr_Metadata (λ v r, mkCreateClusterRequest (ccr_Id r)
        (ccr_DisplayName r) (ccr_Description r) (ccr_Labels r) (ccr_Tags r) v) ];
  zero := mkCreateClusterRequest "" "" "" ∅ [] "";
  in_range _ := True;
}.

Record updateClusterRequest := mkUpdateClusterRequest {
  ucr_DisplayName : string;
  ucr_Description : string;
  ucr_Labels : gmap string string;
  ucr_Tags : list string;
  ucr_Metadata : string;
}.

#[export] Instance updateClusterRequest_codec : Codec updateClusterRequest := {
  fields :=
    [ string_field "display_name" ucr_DisplayName (λ v r, mkUpdateClusterRequest v
        (ucr_Description r) (ucr_Labels r) (ucr_Tags r) (ucr_Metadata r));
      optional_string "description" ucr_Description (λ v r, mkUpdateClusterRequest
        (ucr_DisplayName r) v (ucr_Labels r) (ucr_Tags r) (ucr_Metadata r));
      optional_map "labels" ucr_Labels (λ v r, mkUpdateClusterRequest (ucr_DisplayName r)
        (ucr_Description r) v (ucr_Tags r) (ucr_Metadata r));
      optional_strings "tags" ucr_Tags (λ v r, mkUpdateClusterRequest (ucr_DisplayName r)
        (ucr_Description r) (ucr_Labels r) v (ucr_Metadata r));
      optional_string "metadata" ucr_Metadata (λ v r, mkUpdateClusterRequest
        (ucr_DisplayName r) (ucr_Description r) (ucr_Labels r) (ucr_Tags r) v) ];
  zero := mkUpdateClusterRequest "" "" ∅ [] "";
  in_range _ := True;
}.

Record updateSagaTemplateRequest := mkUpdateSagaTemplateRequest {
  utr_DisplayName : string;
  utr_Description : string;
  utr_Labels : gmap string string;
  utr_Tags : list string;
  utr_Metadata : gmap string string;
  utr_SagaStepTemplateIds : list string;
}.

#[export] Instance updateSagaTemplateRequest_codec : Codec updateSagaTemplateRequest := {
  fields :=
    [ string_field "display_name" utr_DisplayName (λ v r, mkUpdateSagaTemplateRequest v
        (utr_Description r) (utr_Labels r) (utr_Tags r) (utr_Metadata r)
        (utr_SagaStepTemplateIds r));
      optional_string "description" utr_Description (λ v r, mkUpdateSagaTemplateRequest
        (utr_DisplayName r) v (utr_Labels r) (utr_Tags r) (utr_Metadata r)
        (utr_SagaStepTemplateIds r));
      optional_map "labels" utr_Labels (λ v r, mkUpdateSagaTemplateRequest (utr_DisplayName r)
        (utr_Description r) v (utr_Tags r) (utr_Metadata r) (utr_SagaStepTemplateIds r));
      optional_strings "tags" utr_Tags (λ v r, mkUpdateSagaTemplateRequest (utr_DisplayName r)
        (utr_Description r) (utr_Labels r) v (utr_Metadata r) (utr_SagaStepTemplateIds r));
      optional_map "metadata" utr_Metadata (λ v r, mkUpdateSagaTemplateRequest
        (utr_DisplayName r) (utr_Description r) (utr_Labels r) (utr_Tags r) v
        (utr_SagaStepTemplateIds r));
      strings_field "saga_step_template_ids" utr_SagaStepTemplateIds (λ v r,
        mkUpdateSagaTemplateRequest (utr_DisplayName r) (utr_Description r) (utr_Labels r)
        (utr_Tags r) (utr_Metadata r) v) ];
  zero := mkUpdateSagaTemplateRequest "" "" ∅ [] ∅ [];
  in_range _ := True;
}.

Record updateSagaStepTemplateRequest := mkUpdateSagaStepTemplateRequest {
  usr_SagaTemplateId : string;
  usr_DisplayName : string;
  usr_Description : string;
  usr_Labels : gmap string string;
  usr_Tags : list string;
  usr_Metadata : gmap string string;
}.

#[export] Instance updateSagaStepTemplateRequest_codec : Codec updateSagaStepTemplateRequest := {
  fields :=
    [ string_field "saga_template_id" usr_SagaTemplateId (λ v r, mkUpdateSagaStepTemplateRequest v
        (usr_DisplayName r) (usr_Description r) (usr_Labels r) (usr_Tags r) (usr_Metadata r));
      string_field "display_name" usr_DisplayName (λ v r, mkUpdateSagaStepTemplateRequest
        (usr_SagaTemplateId r) v (usr_Description r) (usr_Labels r) (usr_Tags r) (usr_Metadata r));
      optional_string "description" usr_Description (λ v r, mkUpdateSagaStepTemplateRequest
        (usr_SagaTemplateId r) (usr_DisplayName r) v (usr_Labels r) (usr_Tags r) (usr_Metadata r));
      optional_map "labels" usr_Labels (λ v r, mkUpdateSagaStepTemplateRequest
        (usr_SagaTemplateId r) (usr_DisplayName r) (usr_Description r) v (usr_Tags r)
        (usr_Metadata r));
      optional_strings "tags" usr_Tags (λ v r, mkUpdateSagaStepTemplateRequest
        (usr_SagaTemplateId r) (usr_DisplayName r) (usr_Description r) (usr_Labels r) v
        (usr_Metadata r));
      optional_map "metadata" usr_Metadata (λ v r, mkUpdateSagaStepTemplateRequest
        (usr_SagaTemplateId r) (usr_DisplayName r) (usr_Description r) (usr_Labels r)
        (usr_Tags r) v) ];
  zero := mkUpdateSagaStepTemplateRequest "" "" "" ∅ [] ∅;
  in_range _ := True;
}.

Record forceMarkSagaCompensatedRequest := mkForceMarkSagaCompensatedRequest {
  fr_ClusterId : string;
  fr_Reason : string;
}.

#[export] Instance forceMarkSagaCompensatedRequest_codec : Codec forceMarkSagaCompensatedRequest := {
  fields :=
    [ string_field "cluster_id" fr_ClusterId
        (λ v r, mkForceMarkSagaCompensatedRequest v (fr_Reason r));
      string_field "reason" fr_Reason (λ v r, mkForceMarkSagaCompensatedRequest (fr_ClusterId r) v) ];
  zero := mkForceMarkSagaCompensatedRequest "" "";
  in_range _ := True;
}.

Record createSagaAnnexRequest := mkCreateSagaAnnexRequest {
  car_ClusterId : string;
  car_Iid : string;
  car_ContentType : string;
  car_ContentDataBase64 : string;
  car_Notes : string;
}.

#[export] Instance createSagaAnnexRequest_codec : Codec createSagaAnnexRequest := {
  fields :=
    [ string_field "cluster_id" car_ClusterId (λ v r, mkCreateSagaAnnexRequest v (car_Iid r)
        (car_ContentType r) (car_ContentDataBase64 r) (car_Notes r));
      string_field "iid" car_Iid (λ v r, mkCreateSagaAnnexRequest (car_ClusterId r) v
        (car_ContentType r) (car_ContentDataBase64 r) (car_Notes r));
      string_field "content_type" car_ContentType (λ v r, mkCreateSagaAnnexRequest
        (car_ClusterId r) (car_Iid r) v (car_ContentDataBase64 r) (car_Notes r));
      string_field "content_data_base64" car_ContentDataBase64 (λ v r, mkCreateSagaAnnexRequest
        (car_ClusterId r) (car_Iid r) (car_ContentType r) v (car_Notes r));
      optional_string "notes" car_Notes (λ v r, mkCreateSagaAnnexRequest (car_ClusterId r)
        (car_Iid r) (car_ContentType r) (car_ContentDataBase64 r) v) ];
  zero := mkCreateSagaAnnexRequest "" "" "" "" "";
  in_range _ := True;
}.

(** ** Responses *)

Inductive Body :=
  | BJson (j : Json)
  | BData (contentType : string) (data : list Byte.byte)
  | BNothing.

Record Response := mkResponse {
  rs_code : nat;
  rs_body : Body;
}.

(** A slice that was declared and appended to is nil when it is empty. *)
Definition nil_or_array {A} (f : A → Json) (l : list A) : Json :=
  match l with [] => JNull | _ => marshal_list f l end.

Definition member (name : string) (j : Json) : list (string * Json) := [(name, j)].
Definition member_unless_empty (name : string) (s : string) : list (string * Json) :=
  if is_empty s then [] else [(name, JString s)].

Record sagaStepTemplateResponse := mkSagaStepTemplateResponse {
  stt_TemplateId : string;
  stt_SagaTemplateId : string;
  stt_DisplayName : string;
  stt_Description : string;
  stt_Labels : gmap string string;
  stt_Tags : list string;
  stt_Metadata : string;
}.

Definition json_sagaStepTemplateResponse (r : sagaStepTemplateResponse) : Json :=
  JObject
    [("template_id", JString (stt_TemplateId r));
     ("saga_template_id", JString (stt_SagaTemplateId r));
     ("display_name", JString (stt_DisplayName r));
     ("description", JString (stt_Description r));
     ("labels", marshal_map (stt_Labels r));
     ("tags", marshal_list JString (stt_Tags r));
     ("metadata", JString (stt_Metadata r))].

Record sagaTemplateResponse := mkSagaTemplateResponse {
  str_TemplateId : string;
  str_DisplayName : string;
  str_Description : string;
  str_Labels : gmap string string;
  str_Tags : list string;
  str_Metadata : string;
  str_SagaStepTemplateIds : list string;
  str_SagaStepTemplates : list sagaStepTemplateResponse;
}.

Definition json_sagaTemplateResponse (r : sagaTemplateResponse) : Json :=
  JObject
    [("template_id", JString (str_TemplateId r));
     ("display_name", JString (str_DisplayName r));
     ("description", JString (str_Description r));
     ("labels", marshal_map (str_Labels r));
     ("tags", marshal_list JString (str_Tags r));
     ("metadata", JString (str_Metadata r));
     ("saga_step_template_ids", marshal_list JString (str_SagaStepTemplateIds r));
     ("saga_step_templates", nil_or_array json_sagaStepTemplateResponse (str_SagaStepTemplates r))].

Record sagaInstanceResponse := mkSagaInstanceResponse {
  sir_InstanceId : string;
  sir_ClusterId : string;
  sir_ZoneId : string;
  sir_TraceId : string;
  sir_ExecutionId : string;
  sir_SagaSubmitterId : string;
  sir_Labels : gmap string string;
  sir_Tags : list string;
  sir_Metadata : string;
  sir_State : string;
  sir_SagaTemplateId : string;
  sir_Input : string;
  sir_SagaInstanceIds : list string;
  sir_SagaIdempotencyKey : string;
  sir_CreatedAt : Z;
  sir_UpdatedAt : Z;
  sir_ParentSagaInstanceId : string;
  sir_ParentSagaStepInstanceId : string;
  sir_RootSagaInstanceId : string;
  sir_SagaDepth : Z;
  sir_CompensationReason : string;
  sir_AnnexIids : list string;
}.

Definition json_sagaInstanceResponse (r : sagaInstanceResponse) : Json :=
  JObject
    ([("instance_id", JString (sir_InstanceId r));
      ("cluster_id", JString (sir_ClusterId r));
      ("zone_id", JString (sir_ZoneId r));
      ("trace_id", JString (sir_TraceId r));
      ("execution_id", JString (sir_ExecutionId r));
      ("saga_submitter_id", JString (sir_SagaSubmitterId r));
      ("labels", marshal_map (sir_Labels r));
      ("tags", marshal_list JString (sir_Tags r));
      ("metadata", JString (sir_Metadata r));
      ("state", JString (sir_State r));
      ("saga_template_id", JString (sir_SagaTemplateId r));
      ("input_data", JString (sir_Input r));
      ("saga_instance_ids", marshal_list JString (sir_SagaInstanceIds r));
      ("saga_idempotency_key", JString (sir_SagaIdempotencyKey r));
      ("created_at", JInt (sir_CreatedAt r));
      ("updated_at", JInt (sir_UpdatedAt r))] ++
     member_unless_empty "parent_saga_instance_id" (sir_ParentSagaInstanceId r) ++
     member_unless_empty "parent_saga_step_instance_id" (sir_ParentSagaStepInstanceId r) ++
     member_unless_empty "root_saga_instance_id" (sir_RootSagaInstanceId r) ++
     member "saga_depth" (JInt (sir_SagaDepth r)) ++
     member_unless_empty "compensation_reason" (sir_CompensationReason r) ++
     match sir_AnnexIids r with
     | [] => []
     | iids => member "annex_iids" (marshal_list JString iids)
     end).

Record sagaStepInstanceResponse := mkSagaStepInstanceResponse {
  ssr_InstanceId : string;
  ssr_ClusterId : string;
  ssr_ZoneId : string;
  ssr_SagaInstanceId : string;
  ssr_TraceId : string;
  ssr_ExecutionId : string;
  ssr_Labels : gmap string string;
  ssr_Tags : list string;
  ssr_Metadata : string;
  ssr_Affinity : string;
  ssr_State : string;
  ssr_Result : string;
  ssr_CompensationResult : string;
  ssr_SagaTemplateId : string;
  ssr_SagaStepTemplateId : string;
  ssr_PreviousSagaStepInstanceId : string;
  ssr_NextSagaStepInstanceId : string;
  ssr_ExecutionHistory : string;
  ssr_SagaIdempotencyKey : string;
  ssr_ExecutionError : string;
}.

Definition json_sagaStepInstanceResponse (r : sagaStepInstanceResponse) : Json :=
  JObject
    ([("instance_id", JString (ssr_InstanceId r));
      ("cluster_id", JString (ssr_ClusterId r));
      ("zone_id", JString (ssr_ZoneId r));
      ("saga_instance_id", JString (ssr_SagaInstanceId r));
      ("trace_id", JString (ssr_TraceId r));
      ("execution_id", JString (ssr_ExecutionId r));
      ("labels", marshal_map (ssr_Labels r));
      ("tags", marshal_list JString (ssr_Tags r));
      ("metadata", JString (ssr_Metadata r));
      ("affinity", JString (ssr_Affinity r));
      ("state", JString (ssr_State r));
      ("result_data", JString (ssr_Result r));
      ("compensation_result_data", JString (ssr_CompensationResult r));
      ("saga_template_id", JString (ssr_SagaTemplateId r));
      ("saga_step_template_id", JString (ssr_SagaStepTemplateId r));
      ("previous_saga_step_instance_id", JString (ssr_PreviousSagaStepInstanceId r));
      ("next_saga_step_instance_id", JString (ssr_NextSagaStepInstanceId r));
      ("execution_history", JString (ssr_ExecutionHistory r));
      ("saga_idempotency_key", JString (ssr_SagaIdempotencyKey r))] ++
     member_unless_empty "execution_error" (ssr_ExecutionError r)).

Record clusterResponse := mkClusterResponse {
  clr_Id : string;
  clr_DisplayName : string;
  clr_Description : string;
  clr_Labels : gmap string string;
  clr_Tags : list string;
  clr_Metadata : string;
}.

Definition json_clusterResponse (r : clusterResponse) : Json :=
  JObject
    [("id", JString (clr_Id r));
     ("display_name", JString (clr_DisplayName r));
     ("description", JString (clr_Description r));
     ("labels", marshal_map (clr_Labels r));
     ("tags", marshal_list JString (clr_Tags r));
     ("metadata", JString (clr_Metadata r))].

(** The bytes are never part of it. *)
Record sagaAnnexResponse := mkSagaAnnexResponse {
  sar_Iid : string;
  sar_SagaInstanceId : string;
  sar_ContentType : string;
  sar_ContentLength : Z;
  sar_Notes : string;
  sar_CreatedAt : Z;
  sar_UpdatedAt : Z;
}.

Definition json_sagaAnnexResponse (r : sagaAnnexResponse) : Json :=
  JObject
    ([("iid", JString (sar_Iid r));
      ("saga_instance_id", JString (sar_SagaInstanceId r));
      ("content_type", JString (sar_ContentType r));
      ("content_length", JInt (sar_ContentLength r))] ++
     member_unless_empty "notes" (sar_Notes r) ++
     [("created_at", JInt (sar_CreatedAt r)); ("updated_at", JInt (sar_UpdatedAt r))]).

(** The logs of a step, with the tags of [SagaStepExecutionLog]. *)
Definition json_SagaStepExecutionLog (l : SagaStepExecutionLog) : Json :=
  JObject
    [("next_execution_ts", JInt (log_NextExecutionTs l));
     ("execution_request_sent_ts", JInt (log_ExecutionRequestSentTs l));
     ("execution_timeout_ts", JInt (log_ExecutionTimeoutTs l));
     ("execution_result_received_ts", JInt (log_ExecutionResultReceivedTs l));
     ("log_conclusion_ts", JInt (log_LogConclusionTs l));
     ("execution_result", marshal_map (log_ExecutionResult l));
     ("execution_error", JString (log_ExecutionError l));
     ("is_compensation", JBool (log_IsCompensation l));
     ("metadata", marshal_map (log_Metadata l))].

(** ** Conversions *)

Section conversions.
Context `{!JsonText}.

Definition convertSagaStepTemplate (stepTemplate : SagaStepTemplate) : sagaStepTemplateResponse :=
  mkSagaStepTemplateResponse (sst_TemplateId stepTemplate) (sst_SagaTemplateId stepTemplate)
    (sst_DisplayName stepTemplate) (sst_Description stepTemplate) (sst_Labels stepTemplate)
    (sst_Tags stepTemplate) (print (marshal_map (sst_Metadata stepTemplate))).

Definition convertSagaInstanceToResponse (sagaInstance : SagaInstance) : sagaInstanceResponse :=
  mkSagaInstanceResponse (si_InstanceId sagaInstance) (si_ClusterId sagaInstance)
    (si_ZoneId sagaInstance) (si_TraceId sagaInstance) (si_ExecutionId sagaInstance)
    (si_SagaSubmitterId sagaInstance) (si_Labels sagaInstance) (si_Tags sagaInstance)
    (print (marshal_map (si_Metadata sagaInstance)))
    (SagaStateEnum_string (si_State sagaInstance)) (si_SagaTemplateId sagaInstance)
    (print (marshal_map (si_Input sagaInstance))) (si_SagaInstanceIds sagaInstance)
    (saga_SagaIdempotencyKey sagaInstance) (si_CreatedAt sagaInstance)
    (si_UpdatedAt sagaInstance) (si_ParentSagaInstanceId sagaInstance)
    (si_ParentSagaStepInstanceId sagaInstance) (si_RootSagaInstanceId sagaInstance)
    (si_SagaDepth sagaInstance) (si_CompensationReason sagaInstance)
    (default [] (si_AnnexIids sagaInstance)).

(** The first error of the history that is not empty: that of the log, or
    else the one among its results. *)
Fixpoint first_error (history : list SagaStepExecutionLog) : string :=
  match history with
  | [] => ""
  | log :: history =>
      if negb (is_empty (log_ExecutionError log)) then log_ExecutionError log
      else
        match log_ExecutionResult log !! "error" with
        | Some errMsg => if is_empty errMsg then first_error history else errMsg
        | None => first_error history
        end
  end.

Definition convertSagaStepInstanceToResponse (sagaStepInstance : SagaStepInstance) :
    sagaStepInstanceResponse :=
  mkSagaStepInstanceResponse (ssi_InstanceId sagaStepInstance) (ssi_ClusterId sagaStepInstance)
    (ssi_ZoneId sagaStepInstance) (ssi_SagaInstanceId sagaStepInstance)
    (ssi_TraceId sagaStepInstance) (ssi_ExecutionId sagaStepInstance)
    (ssi_Labels sagaStepInstance) (ssi_Tags sagaStepInstance)
    (print (marshal_map (ssi_Metadata sagaStepInstance))) (ssi_Affinity sagaStepInstance)
    (SagaStepStateEnum_string (ssi_State sagaStepInstance))
    (print (marshal_map (ssi_Result sagaStepInstance)))
    (print (marshal_map (ssi_CompensationResult sagaStepInstance)))
    (ssi_SagaTemplateId sagaStepInstance) (ssi_SagaStepTemplateId sagaStepInstance)
    (ssi_PreviousSagaStepInstanceId sagaStepInstance)
    (ssi_NextSagaStepInstanceId sagaStepInstance)
    (print (marshal_list json_SagaStepExecutionLog (ssi_ExecutionHistory sagaStepInstance)))
    (step_SagaIdempotencyKey sagaStepInstance)
    (first_error (ssi_ExecutionHistory sagaStepInstance)).

Definition convertClusterToResponse (cluster : Cluster) : clusterResponse :=
  mkClusterResponse (cl_Id cluster) (cl_DisplayName cluster) (cl_Description cluster)
    (cl_Labels cluster) (cl_Tags cluster) (print (marshal_map (cl_Metadata cluster))).

(** [json.Unmarshal] into a map that is nil. *)
Definition unmarshal_metadata (text : string) : result (gmap string string) :=
  if is_empty text then Ok ∅
  else
    match parse text with
    | Some j =>
        match unmarshal decode_map ∅ j with
        | Some m => Ok m
        | None => Err (Errorf "failed to unmarshal metadata")
        end
    | None => Err (Errorf "failed to unmarshal metadata")
    end.

Definition convertCreateRequestToCluster (req : createClusterRequest) : result Cluster :=
  result_map
    (mkCluster (ccr_Id req) (ccr_DisplayName req) (ccr_Description req) (ccr_Labels req)
       (ccr_Tags req)) (unmarshal_metadata (ccr_Metadata req)).

Definition convertUpdateRequestToCluster (clusterId : string) (req : updateClusterRequest) :
    result Cluster :=
  result_map
    (mkCluster clusterId (ucr_DisplayName req) (ucr_Description req) (ucr_Labels req)
       (ucr_Tags req)) (unmarshal_metadata (ucr_Metadata req)).
End conversions.
