(* ===== verification/Api.v ===== *)
(** * The control service

    The handlers of [pkg/daemons/traxctrl/api/v1]: what each answers to a
    request and what it asks of the store.  The store is behind the class
    [ControlStore], which the PostgreSQL store implements.  The text of gin's
    own binding errors and the decoding of base64 are parameters.

    [postSagaStepInstances] orders whatever steps it has found with the
    coordinator's [OrderSagaStepsInSequence], whose loop may never end
    (Sequence.v). *)

From Stdlib Require Import Strings.Ascii.
From S2P Require Import Prelude GoMonad Model Naming GoStrings Query Json Sequence Database Store.
From S2P Require Import PsqlStore Catalogue Messages Builders Wire ApiTypes.

Local Open Scope go_scope.

(** ** The store as the handlers see it *)

Class ControlStore (St : Type) := {
  control_store :: Store St;
  UpdateSagaTemplate (t : SagaTemplate) : M St (result unit);
  DeleteSagaTemplate (templateId : string) : M St (result unit);
  UpdateSagaStepTemplate (t : SagaStepTemplate) : M St (result unit);
  DeleteSagaStepTemplate (templateId : string) : M St (result unit);
  ListSagaInstancesPaginated (clusterId : string) (opts : option QueryOptions) :
    M St (result (list SagaInstance * nat));
  ListSagaInstanceIds (clusterId : string) : M St (result (list string));
  GetSagaHierarchy (clusterId rootSagaInstanceId : string) : M St (result (list SagaInstance));
  ListSagaStepInstances (clusterId : string) : M St (result (list SagaStepInstance));
  ListSagaStepInstanceIds (clusterId : string) : M St (result (list string));
  SaveClusterIdempotently (cluster : Cluster) : M St (result bool);
  GetCluster (id : string) : M St (result Cluster);
  UpdateCluster (cluster : Cluster) : M St (result unit);
  DeleteCluster (id : string) : M St (result unit);
  ListClusters : M St (result (list Cluster));
  CreateSagaAnnex (annex : SagaAnnex) : M St (result unit);
  ListSagaAnnexes (clusterId sagaInstanceId : string) : M St (result (list SagaAnnex));
  GetSagaAnnexBytes (clusterId annexIid : string) : M St (result SagaAnnex);
}.

Definition psql_ControlStore (srv : Server) (int : Interpreter)
    (range : gmap string string → list (string * string)) : ControlStore (psqlStore srv) := {|
  UpdateSagaTemplate := psql_UpdateSagaTemplate;
  DeleteSagaTemplate := psql_DeleteSagaTemplate;
  UpdateSagaStepTemplate := psql_UpdateSagaStepTemplate;
  DeleteSagaStepTemplate := psql_DeleteSagaStepTemplate;
  ListSagaInstancesPaginated := psql_ListSagaInstancesPaginated int range;
  ListSagaInstanceIds := psql_ListSagaInstanceIds;
  GetSagaHierarchy := psql_GetSagaHierarchy;
  ListSagaStepInstances := psql_ListSagaStepInstances;
  ListSagaStepInstanceIds := psql_ListSagaStepInstanceIds;
  SaveClusterIdempotently := psql_SaveClusterIdempotently;
  GetCluster := psql_GetCluster;
  UpdateCluster := psql_UpdateCluster;
  DeleteCluster := psql_DeleteCluster;
  ListClusters := psql_ListClusters;
  CreateSagaAnnex := psql_CreateSagaAnnex;
  ListSagaAnnexes := psql_ListSagaAnnexes;
  GetSagaAnnexBytes := psql_GetSagaAnnexBytes;
|}.

(** ** The options of a listing *)

Definition Allowlist_SortableFields (field : string) : option string :=
  snd <$> List.find (λ f : string * string, String.eqb f.1 field) SagaInstancesSortableFields.

Definition sort_column (sf : sortFieldRequest) : result SortColumn :=
  let field := TrimSpace (sf_Field sf) in
  if String.eqb field "" then Err (Errorf "sort_fields contains an entry with empty field")
  else
    match Allowlist_SortableFields field with
    | None =>
        Err (Errorf ("sort_fields[" +:+ Quote field +:+
                     "] is not a sortable column on saga_instances"))
    | Some col =>
        Ok (mkSortColumn col (if EqualFold (sf_Direction sf) "desc" then "DESC" else "ASC"))
    end.

(** The first field that is rejected ends the loop. *)
Fixpoint sort_columns (fields : list sortFieldRequest) : result (list SortColumn) :=
  match fields with
  | [] => Ok []
  | sf :: fields =>
      match sort_column sf with
      | Err e => Err e
      | Ok col => result_map (cons col) (sort_columns fields)
      end
  end.

Definition positive_or_default (p : option Z) (d : Z) : Z :=
  match p with Some z => if (0 <? z)%Z then z else d | None => d end.

Definition request_filters (req : listSagaInstancesRequest) : gmap string string :=
  let put key value (m : gmap string string) :=
    if String.eqb value "" then m else <[key := value]> m in
  put "saga_submitter_id" (lr_SagaSubmitterId req)
    (put "saga_template_id" (lr_SagaTemplateId req) (put "state" (lr_State req) ∅)).

(** [(pageNr - 1) * pageSize] wraps round. *)
Definition buildSagaListQueryOptions (req : listSagaInstancesRequest) : result QueryOptions :=
  let pageNr := positive_or_default (lr_PageNr req) 1 in
  let pageSize := positive_or_default (lr_PageSize req) 50 in
  let pageSize := if (500 <? pageSize)%Z then 500%Z else pageSize in
  match sort_columns (lr_SortFields req) with
  | Err e => Err e
  | Ok sortCols =>
      Ok (mkQueryOptions (wrap64 ((pageNr - 1) * pageSize)) pageSize "" "" sortCols
            (lr_Search req) (request_filters req))
  end.

(** ** The handlers *)

Section handlers.
Context `{!ControlStore St, !JsonText}.
Context (binding_error : Request → string).
Context (base64 : string → option (list Byte.byte)).
#[local] Notation Handler := (M St Response).

Definition respond (code : nat) (j : Json) : Handler := ret (mkResponse code (BJson j)).
Definition respond_text (code : nat) (msg : string) : Handler := respond code (JString msg).
Definition respond_error (code : nat) (msg : string) : Handler :=
  respond code (JObject [("error", JString msg)]).
Definition respond_message (msg : string) : Handler :=
  respond 200 (JObject [("message", JString msg)]).

(** [if err := c.ShouldBindJSON(&req); err != nil { ... return }] *)
Definition bind_or {A} `{!Codec A} (required : list (A → string)) (r : Request)
    (failure : string → Handler) (k : A → Handler) : Handler :=
  match ShouldBindJSON required r with
  | Some req => k req
  | None => failure (binding_error r)
  end.

Definition invalid_body (err : string) : Handler :=
  respond_text 400 ("invalid request body: " +:+ err).

(** A path parameter that may not be empty. *)
Definition param_or (r : Request) (name : string) (missing : Handler) (k : string → Handler) :
    Handler :=
  let id := rq_Param r name in if String.eqb id "" then missing else k id.

(** *** Clusters *)

Definition postCreateCluster (r : Request) : Handler :=
  bind_or [ccr_Id; ccr_DisplayName] r invalid_body (λ req,
    match convertCreateRequestToCluster req with
    | Err err =>
        respond_text 400 ("failed to convert request to cluster: " +:+ error_text err)
    | Ok cluster =>
        created <-? SaveClusterIdempotently cluster
        else err => respond_text 500 ("failed to save cluster: " +:+ error_text err) ;;
        if negb created
        then respond_text 409 ("cluster " +:+ Quote (cl_Id cluster) +:+ " already exists")
        else respond 201 (json_clusterResponse (convertClusterToResponse cluster))
    end).

Definition cluster_error (verb clusterId : string) (err : goerror) : Handler :=
  respond_text (if String.eqb (error_text err) "cluster not found" then 404 else 500)
    ("failed to " +:+ verb +:+ " cluster " +:+ Quote clusterId +:+ ": " +:+ error_text err).

Definition getCluster (r : Request) : Handler :=
  param_or r "clusterId" (respond_text 400 "cluster ID is required") (λ clusterId,
    cluster <-? GetCluster clusterId else err => cluster_error "get" clusterId err ;;
    respond 200 (json_clusterResponse (convertClusterToResponse cluster))).

Definition putUpdateCluster (r : Request) : Handler :=
  param_or r "clusterId" (respond_text 400 "cluster ID is required") (λ clusterId,
    bind_or [ucr_DisplayName] r invalid_body (λ req,
      match convertUpdateRequestToCluster clusterId req with
      | Err err =>
          respond_text 400 ("failed to convert request to cluster: " +:+ error_text err)
      | Ok cluster =>
          _ <-? UpdateCluster cluster else err => cluster_error "update" clusterId err ;;
          respond 200 (json_clusterResponse (convertClusterToResponse cluster))
      end)).

Definition deleteCluster (r : Request) : Handler :=
  param_or r "clusterId" (respond_text 400 "cluster ID is required") (λ clusterId,
    _ <-? DeleteCluster clusterId else err => cluster_error "delete" clusterId err ;;
    ret (mkResponse 204 BNothing)).

Definition getClusterList (r : Request) : Handler :=
  clusters <-? ListClusters
  else err => respond_text 500 ("failed to list clusters: " +:+ error_text err) ;;
  respond 200 (JObject [("clusters",
    nil_or_array (λ c, json_clusterResponse (convertClusterToResponse c)) clusters)]).

Definition getClusters (r : Request) : Handler :=
  clusterIds <-? ListClusterIds
  else err => respond_text 500 ("failed to list cluster IDs: " +:+ error_text err) ;;
  respond 200 (JObject [("cluster_ids", marshal_list JString clusterIds)]).

(** *** Templates *)

Fixpoint step_templates (ids : list string) : M St (result (list sagaStepTemplateResponse)) :=
  match ids with
  | [] => ret (Ok [])
  | stepTemplateId :: ids =>
      stepTemplate <-? GetSagaStepTemplate stepTemplateId
      else err => ret (Err (Errorf ("failed to get step template " +:+ Quote stepTemplateId +:+
                                    ": " +:+ error_text err))) ;;
      rest <-? step_templates ids else err => ret (Err err) ;;
      ret (Ok (convertSagaStepTemplate stepTemplate :: rest))
  end.

Definition convertSagaTemplateToResponse (sagaTemplate : SagaTemplate) :
    M St (result sagaTemplateResponse) :=
  stepTemplates <-? step_templates (st_SagaStepTemplateIds sagaTemplate)
  else err => ret (Err err) ;;
  ret (Ok (mkSagaTemplateResponse (st_TemplateId sagaTemplate) (st_DisplayName sagaTemplate)
    (st_Description sagaTemplate) (st_Labels sagaTemplate) (st_Tags sagaTemplate)
    (print (marshal_map (st_Metadata sagaTemplate))) (st_SagaStepTemplateIds sagaTemplate)
    stepTemplates)).

Definition postSagaTemplate (r : Request) : Handler :=
  param_or r "sagaTemplateId" (respond_text 400 "saga template ID is required") (λ sagaTemplateId,
    sagaTemplate <-? GetSagaTemplate sagaTemplateId
    else err => respond_text 404 ("failed to get saga template " +:+ Quote sagaTemplateId +:+
                                  ": " +:+ error_text err) ;;
    templateResp <-? convertSagaTemplateToResponse sagaTemplate
    else err => respond_text 500 ("failed to convert saga template " +:+ Quote sagaTemplateId +:+
                                  ": " +:+ error_text err) ;;
    respond 200 (json_sagaTemplateResponse templateResp)).

(** The first template that cannot be converted, with the error. *)
Fixpoint convert_templates (l : list SagaTemplate) :
    M St (sum (string * goerror) (list sagaTemplateResponse)) :=
  match l with
  | [] => ret (inr [])
  | t :: l =>
      templateResp <-? convertSagaTemplateToResponse t
      else err => ret (inl (st_TemplateId t, err)) ;;
      rest <- convert_templates l ;;
      ret (match rest with inl e => inl e | inr rest => inr (templateResp :: rest) end)
  end.

Definition postSagaTemplates (r : Request) : Handler :=
  sagaTemplateList <-? ListSagaTemplates
  else err => respond_text 500 ("failed to list saga templates: " +:+ error_text err) ;;
  sagaTemplates <- convert_templates sagaTemplateList ;;
  match sagaTemplates with
  | inl (id, err) =>
      respond_text 500 ("failed to convert saga template " +:+ Quote id +:+ ": " +:+ error_text err)
  | inr sagaTemplates =>
      respond 200 (JObject [("saga_templates", nil_or_array json_sagaTemplateResponse sagaTemplates)])
  end.

(** The store is not asked. *)
Definition postSagaTemplateIds (r : Request) : Handler :=
  respond 200 (JObject [("saga_template_ids",
    marshal_list JString ["new_account_under_participant"])]).

Definition putSagaTemplate (r : Request) : Handler :=
  param_or r "sagaTemplateId" (respond_error 400 "saga template ID is required") (λ sagaTemplateId,
    bind_or [] r (respond_error 400) (λ req,
      _ <-? UpdateSagaTemplate (mkSagaTemplate sagaTemplateId (utr_DisplayName req)
              (utr_Description req) (utr_Labels req) (utr_Tags req) (utr_Metadata req)
              (utr_SagaStepTemplateIds req))
      else err => respond_error 500 ("failed to update saga template " +:+ Quote sagaTemplateId +:+
                                     ": " +:+ error_text err) ;;
      respond_message ("saga template '" +:+ sagaTemplateId +:+ "' updated"))).

Definition deleteSagaTemplate (r : Request) : Handler :=
  param_or r "sagaTemplateId" (respond_error 400 "saga template ID is required") (λ sagaTemplateId,
    _ <-? DeleteSagaTemplate sagaTemplateId
    else err => respond_error 500 ("failed to delete saga template " +:+ Quote sagaTemplateId +:+
                                   ": " +:+ error_text err) ;;
    respond_message ("saga template '" +:+ sagaTemplateId +:+ "' deleted")).

Definition putSagaStepTemplate (r : Request) : Handler :=
  param_or r "sagaStepTemplateId" (respond_error 400 "saga step template ID is required") (λ id,
    bind_or [usr_SagaTemplateId] r (respond_error 400) (λ req,
      _ <-? UpdateSagaStepTemplate (mkSagaStepTemplate id (usr_SagaTemplateId req)
              (usr_DisplayName req) (usr_Description req) (usr_Labels req) (usr_Tags req)
              (usr_Metadata req))
      else err => respond_error 500 ("failed to update saga step template " +:+ Quote id +:+
                                     ": " +:+ error_text err) ;;
      respond_message ("saga step template '" +:+ id +:+ "' updated"))).

Definition deleteSagaStepTemplate (r : Request) : Handler :=
  param_or r "sagaStepTemplateId" (respond_error 400 "saga step template ID is required") (λ id,
    _ <-? DeleteSagaStepTemplate id
    else err => respond_error 500 ("failed to delete saga step template " +:+ Quote id +:+
                                   ": " +:+ error_text err) ;;
    respond_message ("saga step template '" +:+ id +:+ "' deleted")).

(** *** Sagas *)

Definition json_saga (g : SagaInstance) : Json :=
  json_sagaInstanceResponse (convertSagaInstanceToResponse g).

(** A body with nothing but a cluster. *)
Definition cluster_or (r : Request) (k : string → Handler) : Handler :=
  bind_or [cir_ClusterId] r invalid_body (λ req,
    if String.eqb (cir_ClusterId req) "" then respond_text 400 "cluster ID is required"
    else k (cir_ClusterId req)).

Definition postSagaInstances (r : Request) : Handler :=
  bind_or [lr_ClusterId] r invalid_body (λ req,
    if String.eqb (lr_ClusterId req) "" then respond_text 400 "cluster ID is required"
    else
      match buildSagaListQueryOptions req with
      | Err err => respond_text 400 (error_text err)
      | Ok opts =>
          found <-? ListSagaInstancesPaginated (lr_ClusterId req) (Some opts)
          else err => respond_text 500 ("failed to list saga instances for cluster " +:+
                        Quote (lr_ClusterId req) +:+ ": " +:+ error_text err) ;;
          respond 200 (JObject [("saga_instances", marshal_list json_saga found.1);
                                ("total_count", JInt (Z.of_nat found.2))])
      end).

Definition postSagaInstanceIds (r : Request) : Handler :=
  cluster_or r (λ clusterId,
    instanceIds <-? ListSagaInstanceIds clusterId
    else err => respond_text 500 ("failed to list saga instance IDs for cluster " +:+
                                  Quote clusterId +:+ ": " +:+ error_text err) ;;
    respond 200 (JObject [("saga_instance_ids", nil_or_array JString instanceIds)])).

Definition postSagaInstance (r : Request) : Handler :=
  param_or r "sagaInstanceId" (respond_text 400 "saga instance ID is required") (λ sagaInstanceId,
    cluster_or r (λ clusterId,
      sagaInstance <-? GetSagaInstance clusterId sagaInstanceId
      else err => respond_text 404 ("failed to get saga instance " +:+ Quote sagaInstanceId +:+
                                    ": " +:+ error_text err) ;;
      respond 200 (json_saga sagaInstance))).

Definition postSagaInstanceChildren (r : Request) : Handler :=
  param_or r "sagaInstanceId" (respond_error 400 "sagaInstanceId is required") (λ sagaInstanceId,
    bind_or [cir_ClusterId] r (respond_error 400) (λ req,
      children <-? GetChildSagaInstances (cir_ClusterId req) sagaInstanceId
      else err => respond_error 500 (error_text err) ;;
      respond 200 (JObject [("saga_instances", marshal_list json_saga children)]))).

Definition postSagaInstanceTree (r : Request) : Handler :=
  param_or r "sagaInstanceId" (respond_error 400 "sagaInstanceId is required") (λ sagaInstanceId,
    bind_or [cir_ClusterId] r (respond_error 400) (λ req,
      hierarchy <-? GetSagaHierarchy (cir_ClusterId req) sagaInstanceId
      else err => respond_error 500 (error_text err) ;;
      respond 200 (JObject [("saga_instances", marshal_list json_saga hierarchy)]))).

Definition putForceMarkSagaCompensated (r : Request) : Handler :=
  param_or r "sagaInstanceId" (respond_error 400 "sagaInstanceId is required") (λ sagaInstanceId,
    bind_or [fr_ClusterId; fr_Reason] r (λ err, respond_error 400 ("invalid request body: " +:+ err))
      (λ req,
        if String.eqb (TrimSpace (fr_Reason req)) "" then respond_error 400 "reason is required"
        else
          _ <-? ForceMarkSagaCompensated (fr_ClusterId req) sagaInstanceId (fr_Reason req)
          else err =>
            (if contains "not in BLOCKED state" (error_text err)
             then respond_error 400 (error_text err)
             else if contains "not found" (error_text err)
             then respond_error 404 (error_text err)
             else respond_error 500 "failed to force-mark saga compensated") ;;
          respond 200 (JObject
            [("cluster_id", JString (fr_ClusterId req));
             ("message", JString "saga force-marked as compensated");
             ("saga_instance_id", JString sagaInstanceId);
             ("state", JString "COMPENSATED")]))).

(** *** Steps *)

Definition json_step (x : SagaStepInstance) : Json :=
  json_sagaStepInstanceResponse (convertSagaStepInstanceToResponse x).

Definition postSagaStepInstances (r : Request) : Handler :=
  bind_or [lsr_ClusterId] r invalid_body (λ req,
    let clusterId := lsr_ClusterId req in
    if String.eqb clusterId "" then respond_text 400 "cluster ID is required"
    else
      let sid := lsr_SagaInstanceId req in
      found <-? (if negb (String.eqb sid "")
                 then ListSagaStepInstancesBySagaInstanceId clusterId sid
                 else ListSagaStepInstances clusterId)
      else err => respond_text 500 ("failed to list saga step instances for " +:+
                    (if negb (String.eqb sid "")
                     then "saga instance " +:+ Quote sid +:+ " in cluster " else "cluster ") +:+
                    Quote clusterId +:+ ": " +:+ error_text err) ;;
      match OrderSagaStepsInSequence found with
      | None => hang
      | Some sagaStepInstances =>
          respond 200 (JObject [("saga_step_instances", nil_or_array json_step sagaStepInstances)])
      end).

Definition postSagaStepInstanceIds (r : Request) : Handler :=
  cluster_or r (λ clusterId,
    instanceIds <-? ListSagaStepInstanceIds clusterId
    else err => respond_text 500 ("failed to list saga step instance IDs for cluster " +:+
                                  Quote clusterId +:+ ": " +:+ error_text err) ;;
    respond 200 (JObject [("saga_step_instance_ids", nil_or_array JString instanceIds)])).

Definition postSagaStepInstance (r : Request) : Handler :=
  param_or r "sagaStepInstanceId" (respond_text 400 "saga step instance ID is required") (λ id,
    cluster_or r (λ clusterId,
      sagaStepInstance <-? GetSagaStepInstance clusterId id
      else err => respond_text 404 ("failed to get saga step instance " +:+ Quote id +:+
                                    ": " +:+ error_text err) ;;
      respond 200 (json_step sagaStepInstance))).

(** *** Annexes *)

Definition postSagaAnnex (r : Request) : Handler :=
  param_or r "sagaInstanceId" (respond_error 400 "saga instance ID is required") (λ sagaInstanceId,
    bind_or [car_ClusterId; car_Iid; car_ContentDataBase64] r
      (λ err, respond_error 400 ("invalid request body: " +:+ err)) (λ req,
        match base64 (car_ContentDataBase64 req) with
        | None => respond_error 400 "content_data_base64 is not valid base64"
        | Some bytes =>
            let annex := mkSagaAnnex (car_Iid req) (car_ClusterId req) sagaInstanceId
              (car_ContentType req) (Z.of_nat (length bytes)) (car_Notes req) bytes 0 0 in
            _ <-? CreateSagaAnnex annex
            else err =>
              (if decide (err = ErrSagaInstanceNotFound)
               then respond_error 404 "saga instance not found"
               else respond_error 500 ("failed to create saga annex: " +:+ error_text err)) ;;
            respond 200 (json_sagaAnnexResponse (mkSagaAnnexResponse (an_Iid annex)
              (an_SagaInstanceId annex) (an_ContentType annex) (an_ContentLength annex)
              (an_Notes annex) 0 0))
        end)).

Definition annex_response (a : SagaAnnex) : sagaAnnexResponse :=
  mkSagaAnnexResponse (an_Iid a) (an_SagaInstanceId a) (an_ContentType a) (an_ContentLength a)
    (an_Notes a) (an_CreatedAt a) (an_UpdatedAt a).

Definition getSagaAnnexes (r : Request) : Handler :=
  let sagaInstanceId := rq_Param r "sagaInstanceId" in
  let clusterId := rq_Query r "cluster_id" in
  if String.eqb sagaInstanceId "" || String.eqb clusterId ""
  then respond_error 400 "saga instance ID and cluster_id are required"
  else
    rows <-? ListSagaAnnexes clusterId sagaInstanceId
    else err => respond_error 500 ("failed to list saga annexes: " +:+ error_text err) ;;
    respond 200 (JObject
      [("saga_instance_id", JString sagaInstanceId);
       ("annexes", nil_or_array (λ a, json_sagaAnnexResponse (annex_response a)) rows)]).

Definition getSagaAnnexBytes (r : Request) : Handler :=
  let sagaInstanceId := rq_Param r "sagaInstanceId" in
  let annexIid := rq_Param r "annexIid" in
  let clusterId := rq_Query r "cluster_id" in
  if String.eqb sagaInstanceId "" || String.eqb annexIid "" || String.eqb clusterId ""
  then respond_error 400 "saga instance ID, annex iid, and cluster_id are required"
  else
    annex <-? GetSagaAnnexBytes clusterId annexIid
    else err => respond_error 404 "annex not found" ;;
    if negb (String.eqb (an_SagaInstanceId annex) sagaInstanceId)
    then respond_error 404 "annex not found"
    else
      let contentType :=
        if String.eqb (an_ContentType annex) "" then "application/octet-stream"
        else an_ContentType annex in
      ret (mkResponse 200 (BData contentType (an_ContentData annex))).
End handlers.

(** ** Switching the database *)

(** The last of the parts between slashes is replaced, up to its first
    question mark; what follows a second one is lost. *)
Definition replaceDatabase (pgsqlURL newDBName : string) : string :=
  let parts := Split pgsqlURL "/"%char in
  if length parts <? 4 then pgsqlURL
  else
    let lastPart := default "" (last parts) in
    let newPart :=
      if contains "?" lastPart
      then newDBName +:+ "?" +:+ nth 1 (Split lastPart "?"%char) "" else newDBName in
    Join (take (length parts - 1) parts ++ [newPart]) "/".

Definition maskPassword (pgsqlURL : string) : string :=
  match cut pgsqlURL "://" with
  | None => pgsqlURL
  | Some (scheme, afterScheme) =>
      match cut afterScheme "@" with
      | None => pgsqlURL
      | Some (userInfo, rest) =>
          match cut userInfo ":" with
          | None => pgsqlURL
          | Some (user, _) => scheme +:+ "://" +:+ user +:+ ":****@" +:+ rest
          end
      end
  end.

Example connection_strings :
  replaceDatabase "postgres://u:p@db:5432/trax?sslmode=disable" "trax_e2e" =
    "postgres://u:p@db:5432/trax_e2e?sslmode=disable" ∧
  maskPassword "postgres://u:secret@db:5432/trax" = "postgres://u:****@db:5432/trax".
Proof. by vm_compute. Qed.
