(* ===== verification/ApiSpecs.v ===== *)
(** * What the control service answers

    The clusters behind the service are a map; what a listing sends to the
    database; whom the operator's override touches; annexes come back as they
    were sent; and what a listing of steps leaves out. *)

From stdpp Require Import pretty.
From S2P Require Import Prelude GoMonad Model Naming GoStrings Query Json Sequence Database Store.
From S2P Require Import PsqlStore Catalogue Integrity CatalogueSpec.
From S2P Require Import PsqlCatalogueSpecs Messages Builders Wire ApiTypes Api.

Local Open Scope go_scope.

(** ** The options of a listing *)

(** The columns of an order that can be asked for. *)
Definition sort_choices : list SortColumn :=
  SagaInstancesSortableFields ≫= λ f, [mkSortColumn f.2 "ASC"; mkSortColumn f.2 "DESC"].

Lemma sort_column_choice sf col : sort_column sf = Ok col → col ∈ sort_choices.
Proof.
  unfold sort_column. destruct (String.eqb _ ""); [done|].
  unfold Allowlist_SortableFields. destruct (List.find _ _) as [[f c]|] eqn:Hf; [|done].
  apply List.find_some in Hf as [Hin _]. intros [= <-].
  apply (list_elem_of_bind (λ f, [mkSortColumn f.2 "ASC"; mkSortColumn f.2 "DESC"])).
  exists (f, c). split; [|by apply list_elem_of_In]. simpl. destruct (EqualFold _ _); [right; left|left].
Qed.

Lemma sort_columns_choices fields cols :
  sort_columns fields = Ok cols → Forall (λ c, c ∈ sort_choices) cols.
Proof.
  revert cols. induction fields as [|sf fields IH]; intros cols; simpl; [by intros [= <-]|].
  destruct (sort_column sf) as [c|e] eqn:Hc; [|done].
  destruct (sort_columns fields) as [cs|e]; [|done]. simpl. intros [= <-].
  constructor; [by eapply sort_column_choice|by apply IH].
Qed.

Lemma sort_choices_direction c :
  c ∈ sort_choices → sort_clause "" c = sc_Column c +:+ " " +:+ sc_Direction c.
Proof.
  revert c. apply Forall_forall, (bool_decide_unpack _). by vm_compute.
Qed.

Lemma default_sort_choices : Forall (λ c, c ∈ sort_choices) SagaInstancesDefaultSort.
Proof. apply (bool_decide_unpack _). by vm_compute. Qed.

Lemma positive_or_default_spec p d : (0 < d)%Z → (0 < positive_or_default p d)%Z.
Proof. destruct p as [z|]; simpl; [|done]. by destruct (0 <? z)%Z eqn:Hz; [apply Z.ltb_lt in Hz|]. Qed.

(** ** Several sagas in a listing of steps *)

Lemma first_of_chains sss (all : list SagaStepInstance) :
  Forall chain sss → all ≡ₚ concat sss → all ≠ [] →
  ∃ x ss, firstStep all = Some x ∧ x :: ss ∈ sss.
Proof.
  intros Hc Hp Hne. rewrite Forall_forall in Hc.
  destruct (firstStep all) as [y|] eqn:Hf.
  - unfold firstStep in Hf. destruct (list_find _ all) as [[i z]|] eqn:Hl; [|done].
    simplify_eq/=. apply list_find_Some in Hl as (Hy & Hprev & _).
    assert (y ∈ concat sss) as (ss & Hss & Hin)%list_elem_of_In%in_concat
      by (rewrite <-Hp; by eapply list_elem_of_lookup_2).
    apply list_elem_of_In in Hss, Hin. exists y. destruct ss as [|x ss]; [by apply not_elem_of_nil in Hin|].
    exists ss. split; [done|]. apply elem_of_cons in Hin as [->|Hin]; [done|].
    destruct (Hc _ Hss) as [Hlink _ Hids]. simpl in Hlink. apply Forall_cons in Hids as [Hx Hids].
    destruct Hlink as (_ & _ & Hlink). exfalso. by eapply (linked_prev (ssi_InstanceId x) ss y).
  - exfalso. unfold firstStep in Hf. destruct (list_find _ all) eqn:Hl; [done|].
    apply list_find_None in Hl. rewrite Forall_forall in Hl.
    destruct all as [|y all]; [done|].
    assert (y ∈ concat sss) as (ss & Hss & Hin)%list_elem_of_In%in_concat by (rewrite <-Hp; left).
    apply list_elem_of_In in Hss. destruct ss as [|x ss]; [done|].
    destruct (Hc _ Hss) as [[Hprev _] _ _]. apply (Hl x); [|done]. rewrite Hp.
    apply list_elem_of_In, in_concat. exists (x :: ss). split; [by apply list_elem_of_In|by left].
Qed.

(** Of the steps of several sagas the order is that of one of them. *)
Lemma order_chains sss (all : list SagaStepInstance) :
  Forall chain sss → NoDup (ssi_InstanceId <$> concat sss) → all ≡ₚ concat sss → all ≠ [] →
  ∃ ss, ss ∈ sss ∧ OrderSagaStepsInSequence all = Some ss.
Proof.
  intros Hc Hnd Hp Hne. destruct (first_of_chains sss all) as (x & ss & Hf & Hss); [done..|].
  exists (x :: ss). split; [done|].
  unfold OrderSagaStepsInSequence. destruct all as [|y all]; [done|]. rewrite Hf.
  rewrite Forall_forall in Hc. destruct (Hc _ Hss) as [Hl Hn Hids].
  assert (NoDup (ssi_InstanceId <$> y :: all)) as Hnd' by (by rewrite Hp).
  rewrite stepMap_steps_map by done.
  assert (∀ z, z ∈ x :: ss → z ∈ y :: all) as Hin.
  { intros z Hz. rewrite Hp. apply list_elem_of_In, in_concat. exists (x :: ss).
    split; by apply list_elem_of_In. }
  apply (walk_linked _ ""); [done|by apply Forall_cons in Hids as [_ ?]| |].
  - apply Forall_forall. intros z Hz. apply steps_map_lookup; [done|]. split; [|done]. apply Hin.
    by right.
  - unfold steps_map. rewrite map_size_list_to_map by by rewrite steps_map_ids.
    rewrite length_fmap. apply Nat.lt_succ_r. transitivity (length (x :: ss)); [simpl; lia|].
    apply submseteq_length, NoDup_submseteq; [by eapply NoDup_fmap_1|done].
Qed.

(** The clause of the order, and that of the page. *)
Lemma order_text o :
  Forall (λ c, c ∈ sort_choices) (qo_SortBy o) →
  ∃ sorts, Forall (λ c, c ∈ sort_choices) sorts ∧
    BuildOrderByClause (Some (local_options (Some o))) "" =
      "ORDER BY " +:+ Join ((λ c, sc_Column c +:+ " " +:+ sc_Direction c) <$> sorts) ", ".
Proof.
  intros Hsorts. set (local := local_options _). exists (qo_SortBy local).
  assert (qo_SortBy local ≠ [] ∧ Forall (λ c, c ∈ sort_choices) (qo_SortBy local)) as [Hne Hall].
  { unfold local, local_options. simpl. destruct (qo_SortBy o) eqn:Hs; simpl; rewrite ?Hs.
    - split; [done|]. apply default_sort_choices.
    - done. }
  split; [done|]. unfold BuildOrderByClause. destruct local as [? ? ? ? [|c cs] ? ?]; [done|].
  f_equal. f_equal. apply list_fmap_ext. intros i c' Hc'.
  apply sort_choices_direction. rewrite Forall_lookup in Hall. by eapply Hall.
Qed.

Lemma page_text o :
  (0 < qo_Limit o)%Z →
  BuildPaginationClause (Some (local_options (Some o))) =
    "LIMIT " +:+ pretty (qo_Limit o) +:+
    (if (0 <? qo_Offset o)%Z then " OFFSET " +:+ pretty (qo_Offset o) else "").
Proof.
  intros Hl. unfold BuildPaginationClause, local_options. simpl.
  destruct (qo_SortBy o); simpl; by rewrite (proj2 (Z.leb_gt _ _)) by lia.
Qed.

(** The name of a table, character by character. *)
Definition table_char (c : Ascii.ascii) : bool := name_char c || Ascii.eqb c (Ascii.ascii_of_nat 46).

Lemma all_chars_map f g s :
  (∀ c, f c = true → f (g c) = true) → all_chars f s = true → all_chars f (map_string g s) = true.
Proof.
  intros Hg. induction s as [|c s IH]; simpl; [done|]. intros [Hc Hs]%andb_prop.
  by rewrite Hg, IH.
Qed.

Lemma all_chars_impl (f g : Ascii.ascii → bool) s :
  (∀ c, f c = true → g c = true) → all_chars f s = true → all_chars g s = true.
Proof.
  intros Hg. induction s as [|c s IH]; simpl; [done|]. intros [Hc Hs]%andb_prop. by rewrite Hg, IH.
Qed.

Lemma plain_table_name cid :
  plain_cluster cid = true →
  all_chars (λ c, table_char c) (getSagaInstancesTableName cid) = true.
Proof.
  unfold plain_cluster. intros [[Hc _]%andb_prop _]%andb_prop.
  assert (∀ g, (∀ c, name_char c = true → name_char (g c) = true) →
    all_chars (λ c, table_char c) (map_string g cid) = true) as Hmap.
  { intros g Hg. eapply all_chars_impl; [|by eapply all_chars_map].
    intros c Hn. unfold table_char. by rewrite Hn. }
  unfold getSagaInstancesTableName, transformStringWithCaseMask.
  rewrite !all_chars_app, !Hmap; [done|..].
  - intros c _. unfold case_mask. by destruct (is_upper c).
  - intros [[] [] [] [] [] [] [] []]; by vm_compute.
Qed.

Section listing.
Context (range : gmap string string → list (string * string)).

(** C37: what a request makes of the two statements that are sent to the
    database: they are put together from fixed words and columns, whatever the
    filters, the search and the fields to sort by are, and from the name of the
    cluster's table, which holds the cluster's identifier as it was sent, so
    that it is one name only when the identifier is plain; a page has at most
    500 rows; up to page 2^54 it begins where the pages before it end. *)
Theorem listing_request_is_safe req o :
  buildSagaListQueryOptions req = Ok o →
  let cid := lr_ClusterId req in
  let local := local_options (Some o) in
  let text := (where_clause range local).1 in
  ∃ sorts cols,
    Forall (λ c, c ∈ sort_choices) sorts ∧ Forall (λ c, c ∈ allowed_columns) cols ∧
    countQuery cid text =
      "SELECT COUNT(*) FROM " +:+ getSagaInstancesTableName cid +:+ " " +:+
      where_text cols (searching o) ∧
    pageQuery cid text (BuildOrderByClause (Some local) "") (BuildPaginationClause (Some local)) =
      "SELECT " +:+ listing_columns +:+ " FROM " +:+ getSagaInstancesTableName cid +:+ " " +:+
      where_text cols (searching o) +:+
      " ORDER BY " +:+ Join ((λ c, sc_Column c +:+ " " +:+ sc_Direction c) <$> sorts) ", " +:+
      " LIMIT " +:+ pretty (qo_Limit o) +:+
      (if (0 <? qo_Offset o)%Z then " OFFSET " +:+ pretty (qo_Offset o) else "") ∧
    (plain_cluster cid = true →
       all_chars (λ c, table_char c) (getSagaInstancesTableName cid) = true) ∧
    (1 ≤ qo_Limit o ≤ 500)%Z ∧
    ((positive_or_default (lr_PageNr req) 1 ≤ 2 ^ 54)%Z →
       qo_Offset o = ((positive_or_default (lr_PageNr req) 1 - 1) * qo_Limit o)%Z).
Proof.
  unfold buildSagaListQueryOptions.
  pose proof (positive_or_default_spec (lr_PageNr req) 1 eq_refl) as Hnr.
  pose proof (positive_or_default_spec (lr_PageSize req) 50 eq_refl) as Hsize.
  set (nr := positive_or_default _ 1) in *. set (size := positive_or_default _ 50) in *.
  destruct (sort_columns _) as [sorts|e] eqn:Hsorts; [|done]. intros [= <-]. cbv zeta.
  apply sort_columns_choices in Hsorts.
  set (limit := if (500 <? size)%Z then 500%Z else size).
  assert (1 ≤ limit ≤ 500)%Z as Hlimit.
  { unfold limit. destruct (Z.ltb_spec 500 size); lia. }
  set (o := mkQueryOptions _ _ _ _ _ _ _).
  destruct (order_text o) as (cs & Hcs & Horder); [done|].
  exists cs, (applied_filters range (local_options (Some o))).*1.
  rewrite where_clause_shape, Horder, (page_text o) by (simpl; lia).
  replace (searching (local_options (Some o))) with (searching o)
    by (unfold local_options, searching; simpl; by destruct sorts).
  split; [done|]. split.
  { eapply Forall_impl; [apply applied_allowed|]. intros c Hc.
    apply existsb_exists in Hc as (c' & Hin & ->%String.eqb_eq). by apply list_elem_of_In. }
  split; [done|]. split; [unfold pageQuery; cbn [fst]; by rewrite !string_app_assoc|].
  split; [apply plain_table_name|]. split; [done|].
  intros Hle. simpl. apply wrap64_id. unfold in_int64. nia.
Qed.
End listing.

Definition sample_listing : listSagaInstancesRequest :=
  mkListSagaInstancesRequest "c1" (Some 2%Z) None "" [mkSortFieldRequest " state " "Desc"]
    "BLOCKED" "" "".

Lemma listing_request_is_safe_witness :
  match buildSagaListQueryOptions sample_listing with
  | Ok o => (1 ≤ qo_Limit o ≤ 500)%Z
  | Err _ => False
  end.
Proof.
  destruct (buildSagaListQueryOptions sample_listing) as [o|e] eqn:Ho.
  - by destruct (listing_request_is_safe map_to_list sample_listing o Ho)
      as (sorts & cols & _ & _ & _ & _ & _ & H & _).
  - apply (f_equal (λ r, match r with Ok _ => true | Err _ => false end)) in Ho. by vm_compute in Ho.
Defined.

(** The cluster's identifier is part of the text. *)
Example cluster_id_is_pasted :
  countQuery "x; delete from trax.clusters; --" "" =
    "SELECT COUNT(*) FROM trax.x; delete from trax.clusters; --_llllllllllllllllllllllllllllllll_saga_instances ".
Proof. reflexivity. Qed.

(** ** Clusters *)

Section clusters.
Context {srv : Server} (int : Interpreter) (range : gmap string string → list (string * string)).
Context `{!JsonText} (binding_error : Request → string).
Context (Hquiet : ∀ n, srv_fault srv n = NoFault).
Context (Horder : ∀ n A (l : list A), srv_order srv n A l ≡ₚ l).
#[local] Instance control : ControlStore (psqlStore srv) := psql_ControlStore srv int range.
#[local] Notation St := (psqlStore srv).
Implicit Types (s : psqlStore srv) (C : Cat).

Definition cluster_body (c : Cluster) : Json := json_clusterResponse (convertClusterToResponse c).

(** The handler answers with the code and, if one is given, the body, and
    leaves the catalogue [C]. *)
Definition answers (h : M St Response) s (code : nat) (body : option Json) (C : Cat) : Prop :=
  ∃ rsp s', h s = (Ret rsp, s') ∧ rs_code rsp = code ∧ psql_shows s' C ∧
    match body with Some j => rs_body rsp = BJson j | None => True end.

Lemma law_result {A} op (m : M St (result A)) f s C :
  psql_op op = answer m f → psql_shows s C → psql_admits s op →
  ∃ r s', m s = (Ret r, s') ∧
    same_answer (match r with Ok a => f a | Err e => Failed e end) (a_step op C).1 ∧
    psql_shows s' (a_step op C).2.
Proof.
  intros Hop Hs Ha. pose proof (psql_law Hquiet Horder op s C Hs Ha) as Hlaw.
  rewrite Hop in Hlaw. unfold wp, answer, bind in Hlaw.
  destruct (m s) as [[r|msg|] s'] eqn:Hm; simpl in Hlaw; [|done..].
  by exists r, s'.
Qed.

(** Running the call of the store behind a handler. *)
#[local] Ltac call op :=
  let res := fresh "res" in let s' := fresh "s'" in
  let Hm := fresh "Hm" in let Ha := fresh "Ha" in let Hs' := fresh "Hs'" in
  match goal with Hs : psql_shows ?s ?C |- _ =>
    destruct (law_result op _ _ s C eq_refl Hs I) as (res & s' & Hm & Ha & Hs'); simpl in Ha, Hs' end.
#[local] Ltac answered :=
  unfold answers, or_else, bind; simpl;
  match goal with Hm : _ = (Ret _, _) |- _ => rewrite Hm end;
  eexists _, _; split; [reflexivity|]; split; [reflexivity|]; by split.

(** C36: the four handlers of a cluster are the operations of a map from
    identifiers to clusters, with the codes of each case. *)
Theorem clusters_are_a_map r s C :
  psql_shows s C →
  let id := rq_Param r "clusterId" in
  (∀ req c, ShouldBindJSON [ccr_Id; ccr_DisplayName] r = Some req →
     convertCreateRequestToCluster req = Ok c →
     match c_clusters C !! cl_Id c with
     | Some _ => answers (postCreateCluster binding_error r) s 409 None C
     | None => answers (postCreateCluster binding_error r) s 201 (Some (cluster_body c))
                 (with_clusters (<[cl_Id c := c]> (c_clusters C)) C)
     end) ∧
  (id ≠ "" →
     match c_clusters C !! id with
     | Some c => answers (getCluster r) s 200 (Some (cluster_body c)) C
     | None => answers (getCluster r) s 404 None C
     end) ∧
  (∀ req c, id ≠ "" → ShouldBindJSON [ucr_DisplayName] r = Some req →
     convertUpdateRequestToCluster id req = Ok c →
     match c_clusters C !! id with
     | Some _ => answers (putUpdateCluster binding_error r) s 200 (Some (cluster_body c))
                   (with_clusters (<[id := c]> (c_clusters C)) C)
     | None => answers (putUpdateCluster binding_error r) s 404 None C
     end) ∧
  (id ≠ "" →
     match c_clusters C !! id with
     | Some _ => answers (deleteCluster r) s 204 None (with_clusters (delete id (c_clusters C)) C)
     | None => answers (deleteCluster r) s 404 None C
     end).
Proof.
  intros Hs id. split; [|split; [|split]].
  - intros req c Hreq Hc. call (CatalogueSpec.SaveCluster c).
    unfold postCreateCluster, bind_or. rewrite Hreq, Hc. unfold a_save in *.
    by destruct (c_clusters C !! cl_Id c), res as [[]|e]; simplify_eq/=; answered.
  - intros Hid. call (CatalogueSpec.GetCluster id). unfold getCluster, param_or. fold id.
    rewrite (proj2 (String.eqb_neq _ _) Hid). unfold a_get in *.
    by destruct (c_clusters C !! id), res; simplify_eq/=; answered.
  - intros req c Hid Hreq Hc. call (CatalogueSpec.UpdateCluster c).
    unfold putUpdateCluster, bind_or, param_or. fold id.
    rewrite (proj2 (String.eqb_neq _ _) Hid), Hreq, Hc.
    assert (cl_Id c = id) as Hcid.
    { unfold convertUpdateRequestToCluster in Hc. by destruct (unmarshal_metadata _); simplify_eq/=. }
    unfold a_change in *. rewrite Hcid in *.
    by destruct (c_clusters C !! id), res as [[]|e]; simplify_eq/=; answered.
  - intros Hid. call (CatalogueSpec.DeleteCluster id). unfold deleteCluster, param_or. fold id.
    rewrite (proj2 (String.eqb_neq _ _) Hid). unfold a_change in *.
    by destruct (c_clusters C !! id), res as [[]|e]; simplify_eq/=; answered.
Qed.
End clusters.

(** A server, a text of values and a store for the examples. *)
#[local] Instance sample_text : JsonText := {| print := Json.json_print; parse := λ _, None |}.
Definition no_error (r : Request) : string := "".
Definition some_page (order page : string) (l : list SagaInstance) : list SagaInstance := l.
Definition sample_int : Interpreter :=
  mkInterpreter (λ _ _ _, true) some_page (λ _ _ _, Err (Errorf "syntax error"))
    (λ _ _ _, Err (Errorf "syntax error")).

Definition sample_request : Request :=
  mkRequest (λ _, "c1") (λ _, "c1")
    (Some (JObject [("id", JString "c1"); ("display_name", JString "One")])).

Lemma clusters_are_a_map_witness :
  answers (srv := calm_server)
    (@postCreateCluster _ (psql_ControlStore calm_server sample_int map_to_list) _ no_error sample_request)
    (fresh_store calm_server) 201 (Some (cluster_body (mkCluster "c1" "One" "" ∅ [] ∅)))
    (with_clusters {["c1" := mkCluster "c1" "One" "" ∅ [] ∅]} (mkCat ∅ ∅ ∅)).
Proof.
  destruct (clusters_are_a_map sample_int map_to_list no_error (srv := calm_server)
    (λ _, eq_refl) (λ _ _ _, reflexivity _) sample_request (fresh_store calm_server)
    (mkCat ∅ ∅ ∅)) as [H _].
  - split; [reflexivity|]. split; [apply fresh_intact|reflexivity].
  - exact (H (mkCreateClusterRequest "c1" "One" "" ∅ [] "") (mkCluster "c1" "One" "" ∅ [] ∅)
             eq_refl eq_refl).
Defined.

(** ** The operator's override *)

Section override.
Context {srv : Server} (int : Interpreter) (range : gmap string string → list (string * string)).
Context (binding_error : Request → string).
Context (Hquiet : ∀ n, srv_fault srv n = NoFault).
#[local] Instance control' : ControlStore (psqlStore srv) := psql_ControlStore srv int range.
Implicit Types (s : psqlStore srv).

Lemma not_blocked_text sid :
  contains "not in BLOCKED state"
    ("saga instance " +:+ sid +:+ " is not in BLOCKED state, cannot force-mark compensated") = true.
Proof. by apply contains_app, contains_app. Qed.

(** No row was changed. *)
#[local] Ltac refused :=
  cbv beta iota; rewrite decide_True by done; apply wp_ret; unfold returns at 1; cbv beta iota;
  cbn [error_text]; rewrite not_blocked_text; apply wp_ret; unfold returns; by rewrite ?decide_False by done.

(** The override answers 200 and stamps the saga exactly when the saga is
    there and BLOCKED; otherwise it answers 400, also when there is no such
    saga, and changes nothing. *)
Theorem override_needs_blocked r req s :
  ShouldBindJSON [fr_ClusterId; fr_Reason] r = Some req →
  let cid := fr_ClusterId req in
  let sid := rq_Param r "sagaInstanceId" in
  sid ≠ "" → TrimSpace (fr_Reason req) ≠ "" → ps_tx s = None → is_Some (saga_table cid (ps_db s)) →
  ∃ rsp s', putForceMarkSagaCompensated binding_error r s = (Ret rsp, s') ∧
    match saga_rows cid (ps_db s) !! sid with
    | Some g =>
        if decide (si_State g = SagaStateEnum_Blocked)
        then rs_code rsp = 200 ∧
          saga_rows cid (ps_db s') !! sid =
            Some (row_saga_state SagaStateEnum_Compensated ("[FORCE-MARKED] " +:+ fr_Reason req)
                    (srv_now srv (ps_n s)) g)
        else rs_code rsp = 400 ∧ ps_db s' = ps_db s
    | None => rs_code rsp = 400 ∧ ps_db s' = ps_db s
    end.
Proof.
  intros Hreq cid sid Hsid Hreason Htx [t Htab]. unfold putForceMarkSagaCompensated, param_or, bind_or.
  fold sid. rewrite (proj2 (String.eqb_neq _ _) Hsid), Hreq, (proj2 (String.eqb_neq _ _) Hreason).
  fold cid. cbn [ForceMarkSagaCompensated control_store control' psql_ControlStore psqlStore_Store].
  assert (fr_Reason req ≠ "") as Hne by (intros He; by rewrite He in Hreason).
  set (f := row_saga_state SagaStateEnum_Compensated _).
  apply ret_wp, wp_or_else. unfold psql_ForceMarkSagaCompensated. rewrite decide_False by done. fold f.
  apply wp_or_else, (wp_exec_idle Hquiet); [done|]. unfold sql_update_saga_if. rewrite Htab.
  destruct (saga_rows cid (ps_db s) !! sid) as [g|] eqn:Hg; [|refused].
  unfold saga_state_eqb. case_bool_decide as Hb; [|refused].
  apply wp_ret, wp_ret. unfold returns. rewrite decide_True by done. split; [done|]. simpl.
  rewrite saga_rows_upd by apply _.
  by rewrite lookup_alter_eq, Hg.
Qed.
End override.

(** ** Annexes *)

Section annexes.
Context {srv : Server} (int : Interpreter) (range : gmap string string → list (string * string)).
Context (binding_error : Request → string) (base64 : string → option (list Byte.byte)).
Context (Hquiet : ∀ n, srv_fault srv n = NoFault).
#[local] Instance control'' : ControlStore (psqlStore srv) := psql_ControlStore srv int range.
Implicit Types (s : psqlStore srv).

Lemma bound_required {A} `{!Codec A} required r (a : A) f :
  ShouldBindJSON required r = Some a → f ∈ required → f a ≠ "".
Proof.
  unfold ShouldBindJSON. destruct (rq_body r) as [j|]; [|done].
  destruct (unmarshal _ _ j) as [b|]; [|done]. destruct (existsb _ required) eqn:He; [done|].
  intros [= ->] Hf Hempty. apply not_true_iff_false in He. apply He, existsb_exists. exists f.
  split; [by apply list_elem_of_In|]. unfold is_empty. by apply bool_decide_eq_true.
Qed.

(** What the bytes of an annex are served as. *)
Definition served_type (contentType : string) : string :=
  if String.eqb contentType "" then "application/octet-stream" else contentType.

(** C39: an annex that is uploaded for a saga comes back with its bytes and its
    type, to a request for that saga and to no other.  The upload is answered
    with 200, and the saga lists the annex once and last, if the saga was saved
    with a list of annexes; if it was saved with nil, as every saga is that the
    coordinator creates, the answer is 500, the saga lists nothing, and the annex
    is there all the same. *)
Theorem annex_round_trip r req bytes s :
  ShouldBindJSON [car_ClusterId; car_Iid; car_ContentDataBase64] r = Some req →
  base64 (car_ContentDataBase64 req) = Some bytes →
  let cid := car_ClusterId req in
  let sid := rq_Param r "sagaInstanceId" in
  sid ≠ "" → ps_tx s = None → is_Some (annex_table cid (ps_db s)) →
  ∀ g, saga_rows cid (ps_db s) !! sid = Some g →
  ∃ rsp s', postSagaAnnex binding_error base64 r s = (Ret rsp, s') ∧
    match si_AnnexIids g with
    | Some iids => rs_code rsp = 200 ∧ si_AnnexIids <$> (saga_rows cid (ps_db s') !! sid) =
        Some (Some (filter (λ i, i ≠ car_Iid req) iids ++ [car_Iid req]))
    | None => rs_code rsp = 500 ∧ si_AnnexIids <$> (saga_rows cid (ps_db s') !! sid) = Some None
    end ∧
    ∀ r' sid', rq_Param r' "annexIid" = car_Iid req → rq_Query r' "cluster_id" = cid →
      rq_Param r' "sagaInstanceId" = sid' → sid' ≠ "" →
      ∃ rsp' s'', getSagaAnnexBytes r' s' = (Ret rsp', s'') ∧
        if decide (sid' = sid)
        then rsp' = mkResponse 200 (BData (served_type (car_ContentType req)) bytes)
        else rs_code rsp' = 404.
Proof.
  intros Hreq Hbytes cid sid Hsid Htx Htab g Hg.
  pose proof (bound_required _ _ _ car_ClusterId Hreq ltac:(left)) as Hcid.
  pose proof (bound_required _ _ _ car_Iid Hreq ltac:(right; left)) as Hiid.
  set (annex := mkSagaAnnex (car_Iid req) cid sid (car_ContentType req) (Z.of_nat (length bytes))
    (car_Notes req) bytes 0 0).
  pose proof (annex_is_attached Hquiet annex s Hiid Hsid Hcid Htx Htab) as Hatt.
  change (an_ClusterId annex) with cid in Hatt. change (an_SagaInstanceId annex) with sid in Hatt.
  rewrite Hg in Hatt. destruct Hatt as (s1 & created & updated & Hc & Htx1 & Hrow & g' & Hg' & Hiids).
  assert (∃ rsp, postSagaAnnex binding_error base64 r s = (Ret rsp, s1) ∧
    rs_code rsp = if si_AnnexIids g then 200 else 500) as (rsp & Hpost & Hcode).
  { unfold postSagaAnnex, param_or, bind_or. fold sid.
    rewrite (proj2 (String.eqb_neq _ _) Hsid), Hreq, Hbytes. fold cid. fold annex.
    unfold or_else, bind. simpl. rewrite Hc. destruct (si_AnnexIids g); by eexists. }
  exists rsp, s1. split; [exact Hpost|]. split; [|intros r' sid' Hi Hq Hp Hs'].
  - rewrite Hg', Hcode. simpl. rewrite Hiids. by destruct (si_AnnexIids g).
  - apply ret_wp. unfold getSagaAnnexBytes. rewrite Hi, Hq, Hp.
    rewrite !(proj2 (String.eqb_neq _ _)) by done.
    apply wp_or_else, (wp_query_row_idle Hquiet); [done|].
    assert (is_Some (annex_table cid (ps_db s1))) as [t Ht].
    { unfold annex_rows in Hrow. destruct (annex_table cid (ps_db s1)); [by eexists|].
      simpl in Hrow. by rewrite fmap_empty, lookup_empty in Hrow. }
    rewrite Ht. simpl. change (an_Iid annex) with (car_Iid req) in Hrow. rewrite Hrow. simpl.
    destruct (decide (sid' = sid)) as [->|Hne]; [by rewrite String.eqb_refl; apply wp_ret|].
    rewrite (proj2 (String.eqb_neq _ _)) by done. by apply wp_ret.
Qed.
End annexes.

(** ** Steps *)

Section steps.
Context {srv : Server} (int : Interpreter) (range : gmap string string → list (string * string)).
Context `{!JsonText} (binding_error : Request → string).
Context (Hquiet : ∀ n, srv_fault srv n = NoFault).
Context (Horder : ∀ n A (l : list A), srv_order srv n A l ≡ₚ l).
#[local] Instance control_steps : ControlStore (psqlStore srv) := psql_ControlStore srv int range.
Implicit Types (s : psqlStore srv).

(** The rows a request for steps is about. *)
Definition requested_steps (req : listSagaStepInstancesRequest) (d : DB) :
    gmap string SagaStepInstance :=
  if String.eqb (lsr_SagaInstanceId req) "" then step_rows (lsr_ClusterId req) d
  else steps_of (lsr_ClusterId req) (lsr_SagaInstanceId req) d.

(** When the steps that are asked for are those of several sagas, the
    response has the steps of one of them, in order, and no others; the steps
    of one saga come complete and in order. *)
Theorem step_listing_shows_one_chain r req s sss :
  ShouldBindJSON [lsr_ClusterId] r = Some req →
  ps_tx s = None → is_Some (step_table (lsr_ClusterId req) (ps_db s)) →
  (map_to_list (requested_steps req (ps_db s))).*2 ≡ₚ concat sss →
  Forall chain sss → NoDup (ssi_InstanceId <$> concat sss) → concat sss ≠ [] →
  ∃ ss s', ss ∈ sss ∧
    postSagaStepInstances binding_error r s =
      (Ret (mkResponse 200 (BJson (JObject
         [("saga_step_instances", nil_or_array json_step ss)]))), s').
Proof.
  intros Hreq Htx [t Htab] Hp Hc Hnd Hne.
  pose proof (bound_required _ _ _ lsr_ClusterId Hreq ltac:(left)) as Hcid.
  assert (∃ all s', all ≡ₚ concat sss ∧
    (if negb (String.eqb (lsr_SagaInstanceId req) "")
     then psql_ListSagaStepInstancesBySagaInstanceId (lsr_ClusterId req) (lsr_SagaInstanceId req)
     else psql_ListSagaStepInstances (lsr_ClusterId req)) s = (Ret (Ok all), s'))
    as (all & s' & Hall & Hrun).
  { unfold requested_steps in Hp.
    destruct (String.eqb (lsr_SagaInstanceId req) ""); simpl;
      (match goal with |- ∃ _ _, _ ∧ ?op s = _ =>
         assert (wp op (returns (λ r _, ∃ all, r = Ok all ∧ all ≡ₚ concat sss)) s) as Hw;
         [apply (wp_query_idle Hquiet); [done|]; unfold sql_select_steps_of; rewrite Htab; simpl;
          eexists; split; [reflexivity|by rewrite Horder]|] end);
      destruct (ret_wp _ _ _ Hw) as (? & s' & Heq & all & -> & Hall); by exists all, s'. }
  destruct (order_chains sss all) as (ss & Hss & Hord); [done..| |].
  { intros ->. apply Hne, Permutation_nil_r. by symmetry. }
  exists ss, s'. split; [done|]. unfold postSagaStepInstances, bind_or. rewrite Hreq.
  rewrite (proj2 (String.eqb_neq _ _) Hcid). unfold or_else, bind. simpl.
  rewrite Hrun, Hord. reflexivity.
Qed.
End steps.

(** ** The service on a small store *)

(** A cluster with a blocked saga of three steps and another saga of one. *)
Definition other_step : SagaStepInstance :=
  mkSagaStepInstance "d" "main" "z1" "s2" "t1" "" ∅ [] ∅ "default" SagaStepStateEnum_ExecutionCandidate
    ∅ ∅ "order" "order_d" "" "" [] 0 0.

Definition blocked_steps : list SagaStepInstance :=
  sample_steps SagaStepStateEnum_CompensationBlocked SagaStepStateEnum_ExecutionAborted
    SagaStepStateEnum_ExecutionAborted.

Definition small_store : psqlStore calm_server :=
  mkPsqlStore
    (mkDB ∅ ∅ ∅ {[getSagaInstancesTableName "main" := {["s1" := sample_saga SagaStateEnum_Blocked ""]}]}
       {[getSagaStepInstancesTableName "main" := steps_map (blocked_steps ++ [other_step])]}
       {[getSagaAnnexesTableName "main" := ∅]} []) ∅ 0 0.

Definition small_request (members : list (string * string)) (annex : string) : Request :=
  mkRequest (λ name, if String.eqb name "annexIid" then annex else "s1") (λ _, "main")
    (Some (JObject (prod_map id JString <$> ("cluster_id", "main") :: members))).

Definition small_control : ControlStore (psqlStore calm_server) :=
  psql_ControlStore calm_server sample_int map_to_list.

Lemma override_needs_blocked_witness :
  ∃ rsp s',
    @putForceMarkSagaCompensated _ small_control no_error (small_request [("reason", "gone")] "")
      small_store = (Ret rsp, s') ∧ rs_code rsp = 200 ∧
    si_State <$> (saga_rows "main" (ps_db s') !! "s1") = Some SagaStateEnum_Compensated.
Proof.
  destruct (override_needs_blocked sample_int map_to_list no_error (srv := calm_server) (λ _, eq_refl)
    (small_request [("reason", "gone")] "") (mkForceMarkSagaCompensatedRequest "main" "gone")
    small_store) as (rsp & s' & Hrun & Hcode & Hrow).
  - vm_compute. reflexivity.
  - done.
  - vm_compute. discriminate.
  - reflexivity.
  - by eexists.
  - exists rsp, s'. split; [exact Hrun|]. split; [exact Hcode|].
    exact (f_equal (fmap si_State) Hrow).
Defined.

(** The same saga, saved with the list [iids]. *)
Definition annex_store (iids : option (list string)) : psqlStore calm_server :=
  mkPsqlStore
    (mkDB ∅ ∅ ∅ {[getSagaInstancesTableName "main" :=
        {["s1" := set_si_AnnexIids iids (sample_saga SagaStateEnum_Running "")]}]} ∅
       {[getSagaAnnexesTableName "main" := ∅]} []) ∅ 0 0.

Lemma annex_round_trip_witness :
  ∃ rsp s' s'',
    @postSagaAnnex _ small_control no_error (λ _, Some [Byte.x41; Byte.x42])
      (small_request [("iid", "a1"); ("content_data_base64", "QUI=")] "a1") (annex_store (Some [])) =
      (Ret rsp, s') ∧ rs_code rsp = 200 ∧
    @getSagaAnnexBytes _ small_control (small_request [] "a1") s' =
      (Ret (mkResponse 200 (BData "application/octet-stream" [Byte.x41; Byte.x42])), s'').
Proof.
  destruct (annex_round_trip sample_int map_to_list no_error (λ _, Some [Byte.x41; Byte.x42])
    (srv := calm_server) (λ _, eq_refl)
    (small_request [("iid", "a1"); ("content_data_base64", "QUI=")] "a1")
    (mkCreateSagaAnnexRequest "main" "a1" "" "QUI=" "") [Byte.x41; Byte.x42] (annex_store (Some [])))
    with (g := set_si_AnnexIids (Some []) (sample_saga SagaStateEnum_Running ""))
    as (rsp & s' & Hrun & [Hcode _] & Hget).
  - vm_compute. reflexivity.
  - reflexivity.
  - done.
  - reflexivity.
  - by eexists.
  - vm_compute. reflexivity.
  - destruct (Hget (small_request [] "a1") "s1") as (rsp' & s'' & Hrun' & Hr); [done..|].
    simpl in Hr. subst rsp'. exists rsp, s', s''. split; [exact Hrun|]. split; [exact Hcode|exact Hrun'].
Defined.

(** The upload to a saga of the coordinator. *)
Example upload_to_a_new_saga :
  (let '(r, s) := @postSagaAnnex _ small_control no_error (λ _, Some [Byte.x41; Byte.x42])
      (small_request [("iid", "a1"); ("content_data_base64", "QUI=")] "a1") (annex_store None) in
   (match r with Ret rsp => rs_code rsp | _ => 0 end, dom (annex_rows "main" (ps_db s)))) =
  (500, {["a1"]}).
Proof. by vm_compute. Qed.

Lemma step_listing_shows_one_chain_witness :
  ∃ ss s', ss ∈ [blocked_steps; [other_step]] ∧
    @postSagaStepInstances _ small_control _ no_error (small_request [] "") small_store =
      (Ret (mkResponse 200 (BJson (JObject
         [("saga_step_instances", nil_or_array json_step ss)]))), s').
Proof.
  apply (step_listing_shows_one_chain sample_int map_to_list no_error (srv := calm_server)
    (λ _, eq_refl) (λ _ _ _, reflexivity _) (small_request [] "")
    (mkListSagaStepInstancesRequest "main" "") small_store).
  - vm_compute. reflexivity.
  - reflexivity.
  - by eexists.
  - apply (bool_decide_unpack _). by vm_compute.
  - apply (bool_decide_unpack _). by vm_compute.
  - apply (bool_decide_unpack _). by vm_compute.
  - done.
Defined.
