(* ===== verification/WatchFetch.v ===== *)
(** * Watching a saga: child sagas from the control service

    [NewChildSagaFetcher] of [pkg/trax/watch/watcher.go]: one request for the
    child sagas, one for the steps of each, and what it reads of the answers.
    A poster answers the n-th request of a fetch with a body, [None] when it is
    no JSON, or with an error.  What the watcher is then shown are the sagas and
    steps as the control service (Api.v) has them. *)

From S2P Require Import Prelude Model GoStrings Json Builders Wire WireSpecs Watch ApiTypes Api.

(** ** What is read of an answer *)

(** [interface{}]: any value. *)
Definition decode_any : decoder Json := λ j _, (j, true).

Definition StepStatus_fields : list (Field StepStatus) :=
  [ field "instance_id" st_StepInstanceID
      (λ v s, mkStepStatus v (st_StepTemplateID s) (st_Status s) (st_Result s) (st_CompensationResult s)
        (st_ExecutionError s)) kept JString decode_string;
    field "saga_step_template_id" st_StepTemplateID
      (λ v s, mkStepStatus (st_StepInstanceID s) v (st_Status s) (st_Result s) (st_CompensationResult s)
        (st_ExecutionError s)) kept JString decode_string;
    field "state" st_Status
      (λ v s, mkStepStatus (st_StepInstanceID s) (st_StepTemplateID s) v (st_Result s)
        (st_CompensationResult s) (st_ExecutionError s)) kept JString decode_string;
    field "result_data" st_Result
      (λ v s, mkStepStatus (st_StepInstanceID s) (st_StepTemplateID s) (st_Status s) v
        (st_CompensationResult s) (st_ExecutionError s)) kept (λ j, j) decode_any;
    field "compensation_result_data" st_CompensationResult
      (λ v s, mkStepStatus (st_StepInstanceID s) (st_StepTemplateID s) (st_Status s) (st_Result s) v
        (st_ExecutionError s)) (λ j, match j with JNull => true | _ => false end) (λ j, j) decode_any;
    field "execution_error" st_ExecutionError
      (λ v s, mkStepStatus (st_StepInstanceID s) (st_StepTemplateID s) (st_Status s) (st_Result s)
        (st_CompensationResult s) v) is_empty JString decode_string ].

Definition no_step_status : StepStatus := mkStepStatus "" "" "" JNull JNull "".

(** The structure declared within the fetcher. *)
Record child_row := mkChildRow {
  cw_InstanceID : string;
  cw_SagaTemplateID : string;
  cw_State : string;
  cw_ParentSagaStepInstanceID : string;
}.

Definition child_row_fields : list (Field child_row) :=
  [ field "instance_id" cw_InstanceID
      (λ v c, mkChildRow v (cw_SagaTemplateID c) (cw_State c) (cw_ParentSagaStepInstanceID c))
      kept JString decode_string;
    field "saga_template_id" cw_SagaTemplateID
      (λ v c, mkChildRow (cw_InstanceID c) v (cw_State c) (cw_ParentSagaStepInstanceID c))
      kept JString decode_string;
    field "state" cw_State
      (λ v c, mkChildRow (cw_InstanceID c) (cw_SagaTemplateID c) v (cw_ParentSagaStepInstanceID c))
      kept JString decode_string;
    field "parent_saga_step_instance_id" cw_ParentSagaStepInstanceID
      (λ v c, mkChildRow (cw_InstanceID c) (cw_SagaTemplateID c) (cw_State c) v)
      kept JString decode_string ].

(** A structure with one field, a list. *)
Definition list_of {A} (name : string) (fs : list (Field A)) (zero : A) : decoder (list A) :=
  decode_struct
    [field name (λ l : list A, l) (λ v _, v) kept (λ _, JNull) (decode_list (decode_struct fs) zero)].

(** [json.Unmarshal] of a body. *)
Definition read_list {A} (name : string) (fs : list (Field A)) (zero : A) (body : option Json) :
    option (list A) :=
  match body with
  | Some j => unmarshal (list_of name fs zero) [] j
  | None => None
  end.

(** ** The fetcher *)

Section fetcher.
Context (poster : nat → string → list (string * string) → option Json + string) (clusterID : string).

(** No steps when they cannot be had. *)
Definition child_steps (n : nat) (child : child_row) : list StepStatus :=
  match poster n "/saga-step-instances/list"
          [("cluster_id", clusterID); ("saga_instance_id", cw_InstanceID child)] with
  | inl body => default [] (read_list "saga_step_instances" StepStatus_fields no_step_status body)
  | inr _ => []
  end.

Fixpoint child_infos (n : nat) (children : list child_row) : list ChildSagaInfo :=
  match children with
  | [] => []
  | child :: children =>
      mkChildSagaInfo (cw_InstanceID child) (cw_SagaTemplateID child) (cw_State child)
        (cw_ParentSagaStepInstanceID child) (child_steps n child) :: child_infos (S n) children
  end.

Definition NewChildSagaFetcher (parentSagaInstanceID : string) : list ChildSagaInfo + string :=
  match poster 0 ("/saga-instances/" +:+ parentSagaInstanceID +:+ "/children")
          [("cluster_id", clusterID)] with
  | inr err => inr err
  | inl body =>
      match read_list "saga_instances" child_row_fields (mkChildRow "" "" "" "") body with
      | None => inr "failed to parse children response"
      | Some children => inl (child_infos 1 children)
      end
  end.
End fetcher.

(** ** What the service says of a step and of a saga *)

Section answers.
Context `{!JsonText}.

Definition step_shown (x : SagaStepInstance) : StepStatus :=
  mkStepStatus (ssi_InstanceId x) (ssi_SagaStepTemplateId x) (SagaStepStateEnum_string (ssi_State x))
    (JString (print (marshal_map (ssi_Result x))))
    (JString (print (marshal_map (ssi_CompensationResult x))))
    (first_error (ssi_ExecutionHistory x)).

Definition saga_shown (s : SagaInstance) (steps : list SagaStepInstance) : ChildSagaInfo :=
  mkChildSagaInfo (si_InstanceId s) (si_SagaTemplateId s) (SagaStateEnum_string (si_State s))
    (si_ParentSagaStepInstanceId s) (step_shown <$> steps).

(** Whatever other members an answer has, those of a step are read. *)
Lemma step_is_read x :
  decode_struct StepStatus_fields (json_step x) no_step_status = (step_shown x, true).
Proof.
  unfold json_step, step_shown. destruct x. unfold convertSagaStepInstanceToResponse. simpl.
  unfold json_sagaStepInstanceResponse, member_unless_empty. simpl. unfold first_error.
  match goal with |- context [is_empty ?e] => destruct e end; reflexivity.
Qed.

Definition row_of (s : SagaInstance) : child_row :=
  mkChildRow (si_InstanceId s) (si_SagaTemplateId s) (SagaStateEnum_string (si_State s))
    (si_ParentSagaStepInstanceId s).

Lemma saga_is_read s :
  decode_struct child_row_fields (json_saga s) (mkChildRow "" "" "" "") = (row_of s, true).
Proof.
  unfold json_saga, row_of. destruct s. unfold convertSagaInstanceToResponse. simpl.
  unfold json_sagaInstanceResponse, member_unless_empty. simpl.
  repeat match goal with |- context [is_empty ?e] => destruct e; simpl end;
    match goal with |- context [match ?l with [] => _ | _ => _ end] => destruct l end; reflexivity.
Qed.
End answers.

Lemma decode_elements_map {A B} (d : decoder A) (zero : A) (f : B → Json) (g : B → A) l :
  (∀ b, d (f b) zero = (g b, true)) → decode_elements d zero (f <$> l) = (g <$> l, true).
Proof. intros Hd. induction l as [|b l IH]; [done|]. cbn [fmap list_fmap decode_elements]. by rewrite Hd, IH. Qed.

Lemma read_list_map {A B} name (fs : list (Field A)) zero (f : B → Json) (g : B → A) l :
  (∀ b, decode_struct fs (f b) zero = (g b, true)) →
  read_list name fs zero (Some (JObject [(name, marshal_list f l)])) = Some (g <$> l) ∧
  read_list name fs zero (Some (JObject [(name, nil_or_array f l)])) = Some (g <$> l).
Proof.
  intros Hd.
  assert (H : read_list name fs zero (Some (JObject [(name, marshal_list f l)])) = Some (g <$> l)).
  { unfold read_list, unmarshal, list_of, decode_struct at 1. simpl. unfold find_field. simpl.
    rewrite String.eqb_refl. simpl. unfold marshal_list. simpl. by rewrite (decode_elements_map _ _ _ g l Hd). }
  split; [done|]. destruct l as [|b l]; [|exact H].
  unfold read_list, unmarshal, list_of, decode_struct at 1. simpl. unfold find_field. simpl.
  by rewrite String.eqb_refl.
Qed.

(** A poster that answers as the control service does when these are the
    children of the saga, each with its steps. *)
Definition serves `{!JsonText} (poster : nat → string → list (string * string) → option Json + string)
    (clusterID parent : string) (family : list (SagaInstance * list SagaStepInstance)) : Prop :=
  poster 0 ("/saga-instances/" +:+ parent +:+ "/children") [("cluster_id", clusterID)] =
    inl (Some (JObject [("saga_instances", marshal_list json_saga family.*1)])) ∧
  ∀ i child steps, family !! i = Some (child, steps) →
    poster (S i) "/saga-step-instances/list"
      [("cluster_id", clusterID); ("saga_instance_id", si_InstanceId child)] =
    inl (Some (JObject [("saga_step_instances", nil_or_array json_step steps)])).

Lemma child_infos_served `{!JsonText} poster clusterID family n :
  (∀ i child steps, family !! i = Some (child, steps) →
    poster (n + i) "/saga-step-instances/list"
      [("cluster_id", clusterID); ("saga_instance_id", si_InstanceId child)] =
    inl (Some (JObject [("saga_step_instances", nil_or_array json_step steps)]))) →
  child_infos poster clusterID n (row_of <$> family.*1) = (λ x, saga_shown x.1 x.2) <$> family.
Proof.
  revert n. induction family as [|[child steps] family IH]; intros n Hs; [done|]. simpl. f_equal.
  - unfold saga_shown. f_equal. unfold child_steps. simpl.
    specialize (Hs 0 child steps eq_refl). rewrite Nat.add_0_r in Hs. rewrite Hs.
    destruct (read_list_map "saga_step_instances" _ _ _ _ steps step_is_read) as [_ ->]. done.
  - apply IH. intros i c ss Hi. specialize (Hs (S i) c ss Hi).
    by replace (S n + i) with (n + S i) by lia.
Qed.

(** The watcher shows every child of the saga with its steps, in the order of
    the service, each with its state and the first error of its history; a result
    is shown as the text the service made of it. *)
Theorem children_are_shown `{!JsonText} poster clusterID parent family :
  serves poster clusterID parent family →
  NewChildSagaFetcher poster clusterID parent = inl ((λ x, saga_shown x.1 x.2) <$> family).
Proof.
  intros [H0 Hs]. unfold NewChildSagaFetcher. rewrite H0.
  destruct (read_list_map "saga_instances" _ _ _ _ family.*1 saga_is_read) as [-> _].
  by rewrite (child_infos_served poster clusterID family 1 Hs).
Qed.

(** A child whose steps cannot be had is shown all the same, without steps. *)
Theorem child_without_steps poster clusterID n child children err :
  poster n "/saga-step-instances/list"
    [("cluster_id", clusterID); ("saga_instance_id", cw_InstanceID child)] = inr err →
  ∃ rest, child_infos poster clusterID n (child :: children) =
    mkChildSagaInfo (cw_InstanceID child) (cw_SagaTemplateID child) (cw_State child)
      (cw_ParentSagaStepInstanceID child) [] :: rest ∧
    length rest = length children.
Proof.
  intros He. eexists. split; [simpl; unfold child_steps; by rewrite He|].
  generalize (S n) as m. induction children as [|c children IH]; intros m; [done|]. simpl. by rewrite IH.
Qed.

(** ** A saga with one child *)

Definition demo_child : SagaInstance :=
  mkSagaInstance "c1" "main" "z1" "t1" "e1" "sub1" "shop" "k1" ∅ [] ∅ SagaStateEnum_Running
    "part" ∅ [] "p1" "i1" "p1" 1 "" None 0 0.
Definition demo_family : list (SagaInstance * list SagaStepInstance) :=
  [(demo_child, [sample_step "x1" "" "" SagaStepStateEnum_ExecutionRunning []])].

(** The service, as far as it is asked. *)
Definition demo_poster (n : nat) (path : string) (body : list (string * string)) : option Json + string :=
  match n with
  | 0 => inl (Some (JObject [("saga_instances", marshal_list json_saga demo_family.*1)]))
  | 1 => inl (Some (JObject [("saga_step_instances", nil_or_array json_step
           [sample_step "x1" "" "" SagaStepStateEnum_ExecutionRunning []])]))
  | _ => inr "HTTP 404"
  end.

Lemma children_are_shown_witness :
  NewChildSagaFetcher demo_poster "main" "p1" = inl ((λ x, saga_shown x.1 x.2) <$> demo_family).
Proof.
  apply children_are_shown. split; [reflexivity|].
  intros [|[|i]] child steps H; [injection H as <- <-; reflexivity|discriminate H..].
Defined.

Lemma child_without_steps_witness :
  ∃ rest, child_infos demo_poster "main" 2 [row_of demo_child] =
    mkChildSagaInfo "c1" "part" "SAGA_STATE_ENUM_RUNNING" "i1" [] :: rest ∧ length rest = 0.
Proof. by apply (child_without_steps demo_poster "main" 2 (row_of demo_child) [] "HTTP 404"). Defined.
