(* ===== verification/Cli.v ===== *)
(** * The command line of the control service

    [pkg/clis/traxcli/main.go]: the words of a line, the options of a command,
    the commands with the one request each of them sends, what is printed of the
    answer, the interactive loop and its history file.  The HTTP client, the
    terminal and the file system are the environment; a printed text is an entry
    of a list. *)

From stdpp Require Import numbers gmap sorting functions.
From stdpp Require Import numbers gmap.
From S2P Require Import Prelude GoMonad Model GoStrings Helpers Json Wire.
From S2P Require Import CliService.
From Stdlib Require Import Strings.Ascii.

Local Open Scope go_scope.

Definition DefaultTraxCtrlURL : string := "http://host.docker.internal:17202".

(** ** Words *)

(** [\s] of a regular expression. *)
Definition is_blank (c : ascii) : bool :=
  let n := nat_of_ascii c in (n =? 9) || (n =? 10) || (n =? 12) || (n =? 13) || (n =? 32).

Definition double_quote : ascii := "034"%char.
Definition single_quote : ascii := "'"%char.
Definition is_quote (c : ascii) : bool := Ascii.eqb c double_quote || Ascii.eqb c single_quote.

(** What stands before the next blank or quote. *)
Fixpoint leading_word (s : string) : string * string :=
  match s with
  | EmptyString => ("", "")
  | String c s' =>
      if is_blank c || is_quote c then ("", s)
      else let '(w, rest) := leading_word s' in (String c w, rest)
  end.

(** What stands before the next [q], and what comes after it. *)
Fixpoint until_quote (q : ascii) (s : string) : option (string * string) :=
  match s with
  | EmptyString => None
  | String c s' =>
      if Ascii.eqb c q then Some ("", s')
      else match until_quote q s' with Some (w, rest) => Some (String c w, rest) | None => None end
  end.

(** The matches of the expression from left to right: a run without blanks and
    quotes, or what stands between two quotes of a kind; a quote that is not
    closed is passed over. *)
Fixpoint words (fuel : nat) (s : string) : list string :=
  match fuel with
  | O => []
  | S fuel =>
      match s with
      | EmptyString => []
      | String c s' =>
          if is_blank c then words fuel s'
          else if is_quote c then
            match until_quote c s' with
            | Some (w, rest) => w :: words fuel rest
            | None => words fuel s'
            end
          else let '(w, rest) := leading_word s in w :: words fuel rest
      end
  end.

Definition parseCommand (line : string) : list string := words (String.length line) line.

(** ** Options *)

Record Flags := mkFlags {
  fl_url : string;
  fl_traceId : string;
  fl_id : string;
  fl_clusterId : string;
  fl_json : bool;
  fl_verbose : bool;
  fl_rest : list string;
}.

(** [strings.TrimPrefix(arg, name)] if the argument begins with it. *)
Definition option_value (name arg : string) : option string :=
  if String.prefix name arg then Some (TrimPrefix arg name) else None.

Definition add_flag (f : Flags) (arg : string) : Flags :=
  match option_value "--url=" arg, option_value "--trace-id=" arg, option_value "--id=" arg,
        option_value "--cluster-id=" arg with
  | Some v, _, _, _ => mkFlags v (fl_traceId f) (fl_id f) (fl_clusterId f) (fl_json f) (fl_verbose f) (fl_rest f)
  | _, Some v, _, _ => mkFlags (fl_url f) v (fl_id f) (fl_clusterId f) (fl_json f) (fl_verbose f) (fl_rest f)
  | _, _, Some v, _ => mkFlags (fl_url f) (fl_traceId f) v (fl_clusterId f) (fl_json f) (fl_verbose f) (fl_rest f)
  | _, _, _, Some v => mkFlags (fl_url f) (fl_traceId f) (fl_id f) v (fl_json f) (fl_verbose f) (fl_rest f)
  | None, None, None, None =>
      if String.eqb arg "--json" then
        mkFlags (fl_url f) (fl_traceId f) (fl_id f) (fl_clusterId f) true (fl_verbose f) (fl_rest f)
      else if String.eqb arg "--verbose" || String.eqb arg "-v" then
        mkFlags (fl_url f) (fl_traceId f) (fl_id f) (fl_clusterId f) (fl_json f) true (fl_rest f)
      else mkFlags (fl_url f) (fl_traceId f) (fl_id f) (fl_clusterId f) (fl_json f) (fl_verbose f) (fl_rest f ++ [arg])
  end.

Definition or_default (s default : string) : string := if String.eqb s "" then default else s.

Definition extractFlags (baseURL traceId : string) (args : list string) : Flags :=
  let f := foldl add_flag (mkFlags "" "" "" "" false false []) args in
  mkFlags (or_default (fl_url f) baseURL) (or_default (fl_traceId f) traceId) (fl_id f) (fl_clusterId f)
    (fl_json f) (fl_verbose f) (fl_rest f).

(** The last value of an option among the remaining arguments. *)
Definition rest_option (name : string) (args : list string) : string :=
  foldl (λ v arg, default v (option_value name arg)) "" args.

(** ** What the program sees and does *)

Record HttpRequest := mkHttpRequest {
  hq_method : string;
  hq_url : string;
  hq_headers : list (string * string);
  hq_body : option string;
}.

(** An answer: its body, as far as it could be read, and the error if not. *)
Record HttpReply := mkHttpReply {
  hp_code : Z;
  hp_body : string;
  hp_error : option string;
}.

Record CliWorld := mkCliWorld {
  cw_baseURL : string;
  cw_out : list string;
  cw_requests : list HttpRequest;
  cw_tick : nat;
}.

Record CliEnv := mkCliEnv {
  (** The error of [http.NewRequest]. *)
  ce_bad_request : string → string → option string;
  ce_do : nat → HttpRequest → HttpReply + string;
  (** An executor that was started, until it is interrupted. *)
  ce_executor : ExecutorConfig → option string;
}.

(** *** JSON on several lines *)

(** [json.MarshalIndent] of a value that was read, with two blanks. *)
Fixpoint json_indent `{!FloatText} (pad : string) (j : Json) : string :=
  let inner := pad +:+ "  " in
  let block (opening closing : string) (l : list string) : string :=
    match l with
    | [] => opening +:+ closing
    | _ => opening +:+ String "010" "" +:+ Join ((λ s, inner +:+ s) <$> l) ("," +:+ String "010" "") +:+
             String "010" "" +:+ pad +:+ closing
    end in
  match j with
  | JNull => "null"
  | JBool b => if b then "true" else "false"
  | JInt z => if (Z.abs z <? 2 ^ 53)%Z then FormatInt z else float_text j
  | JFraction _ => float_text j
  | JString s => json_string s
  | JArray l =>
      block "[" "]" ((fix go l := match l with [] => [] | j :: l => json_indent inner j :: go l end) l)
  | JObject members =>
      block "{" "}" ((λ e, json_string e.1 +:+ ": " +:+ e.2) <$> sorted_members
        ((fix go l := match l with [] => [] | (k, j) :: l => (k, json_indent inner j) :: go l end) members))
  end.

(** *** The templates that are shown *)

Record CliStepTemplate := mkCliStepTemplate {
  ct_TemplateId : string;
  ct_DisplayName : string;
  ct_Description : string;
  ct_SagaTemplateId : string;
  ct_Tags : list string;
}.

Record CliTemplate := mkCliTemplate {
  tp_TemplateId : string;
  tp_DisplayName : string;
  tp_Description : string;
  tp_Tags : list string;
  tp_SagaStepTemplateIds : list string;
  tp_SagaStepTemplates : list CliStepTemplate;
}.

Definition strings_decoder : decoder (list string) := decode_list decode_string "".

Definition CliStepTemplate_fields : list (Field CliStepTemplate) :=
  [ field "template_id" ct_TemplateId (λ v t, mkCliStepTemplate v (ct_DisplayName t) (ct_Description t)
      (ct_SagaTemplateId t) (ct_Tags t)) kept JString decode_string;
    field "display_name" ct_DisplayName (λ v t, mkCliStepTemplate (ct_TemplateId t) v (ct_Description t)
      (ct_SagaTemplateId t) (ct_Tags t)) kept JString decode_string;
    field "description" ct_Description (λ v t, mkCliStepTemplate (ct_TemplateId t) (ct_DisplayName t) v
      (ct_SagaTemplateId t) (ct_Tags t)) kept JString decode_string;
    field "saga_template_id" ct_SagaTemplateId (λ v t, mkCliStepTemplate (ct_TemplateId t) (ct_DisplayName t)
      (ct_Description t) v (ct_Tags t)) kept JString decode_string;
    field "tags" ct_Tags (λ v t, mkCliStepTemplate (ct_TemplateId t) (ct_DisplayName t) (ct_Description t)
      (ct_SagaTemplateId t) v) kept (marshal_list JString) strings_decoder ].

Definition no_step_template : CliStepTemplate := mkCliStepTemplate "" "" "" "" [].
Definition no_template : CliTemplate := mkCliTemplate "" "" "" [] [] [].

Definition CliTemplate_fields : list (Field CliTemplate) :=
  [ field "template_id" tp_TemplateId (λ v t, mkCliTemplate v (tp_DisplayName t) (tp_Description t) (tp_Tags t)
      (tp_SagaStepTemplateIds t) (tp_SagaStepTemplates t)) kept JString decode_string;
    field "display_name" tp_DisplayName (λ v t, mkCliTemplate (tp_TemplateId t) v (tp_Description t) (tp_Tags t)
      (tp_SagaStepTemplateIds t) (tp_SagaStepTemplates t)) kept JString decode_string;
    field "description" tp_Description (λ v t, mkCliTemplate (tp_TemplateId t) (tp_DisplayName t) v (tp_Tags t)
      (tp_SagaStepTemplateIds t) (tp_SagaStepTemplates t)) kept JString decode_string;
    field "tags" tp_Tags (λ v t, mkCliTemplate (tp_TemplateId t) (tp_DisplayName t) (tp_Description t) v
      (tp_SagaStepTemplateIds t) (tp_SagaStepTemplates t)) kept (marshal_list JString) strings_decoder;
    field "saga_step_template_ids" tp_SagaStepTemplateIds (λ v t, mkCliTemplate (tp_TemplateId t)
      (tp_DisplayName t) (tp_Description t) (tp_Tags t) v (tp_SagaStepTemplates t)) kept
      (marshal_list JString) strings_decoder;
    field "saga_step_templates" tp_SagaStepTemplates (λ v t, mkCliTemplate (tp_TemplateId t) (tp_DisplayName t)
      (tp_Description t) (tp_Tags t) (tp_SagaStepTemplateIds t) v) kept (λ _, JNull)
      (decode_list (decode_struct CliStepTemplate_fields) no_step_template) ].

(** A structure with one list. *)
Definition one_list {A} (name : string) (d : decoder (list A)) : decoder (list A) :=
  decode_struct [field name (λ l : list A, l) (λ v _, v) kept (λ _, JNull) d].

Section cli.
Context `{!JsonText, !FloatText} (env : CliEnv) (traceId : string).
#[local] Notation Go := (M CliWorld).

Definition Print (text : string) : Go unit :=
  modify (λ w, mkCliWorld (cw_baseURL w) (cw_out w ++ [text]) (cw_requests w) (cw_tick w)).
Definition newline : string := String "010" "".
Definition Println (text : string) : Go unit := Print (text +:+ newline).
Definition when (b : bool) (m : Go unit) : Go unit := if b then m else ret tt.

Definition get_url : Go string := w <- get_state ;; ret (cw_baseURL w).
Definition set_url (url : string) : Go unit :=
  modify (λ w, mkCliWorld url (cw_out w) (cw_requests w) (cw_tick w)).

(** [originalURL := cli.baseURL; cli.baseURL = url; defer func() { cli.baseURL = originalURL }()] *)
Definition with_url {A} (url : string) (body : Go A) : Go A :=
  originalURL <- get_url ;;
  set_url url ;;;
  with_defer body (λ a, set_url originalURL ;;; ret a) (set_url originalURL).

(** [cli.client.Do(req)] *)
Definition client_do (req : HttpRequest) : Go (HttpReply + string) := λ w,
  (Ret (ce_do env (cw_tick w) req),
   mkCliWorld (cw_baseURL w) (cw_out w) (cw_requests w ++ [req]) (S (cw_tick w))).

Definition makeRequest (method endpoint : string) (body : option string) (traceId : string) :
    Go (HttpReply + string) :=
  baseURL <- get_url ;;
  match ce_bad_request env method (baseURL +:+ endpoint) with
  | Some err => ret (inr ("failed to create request: " +:+ err))
  | None =>
      client_do (mkHttpRequest method (baseURL +:+ endpoint)
        (("Content-Type", "application/json") ::
           (if String.eqb traceId "" then [] else [("x-trace-id", traceId)])) body)
  end.

(** ** Printing answers *)

(** [label] goes before the text. *)
Definition print_json (labels : string * string) (data : string) : Go unit :=
  match parse data with
  | None => Println (labels.1 +:+ data)
  | Some j => Println (labels.2 +:+ json_indent "" j)
  end.
Definition prettyPrintJSON (data : string) : Go unit :=
  print_json ("Response: ", "Response:" +:+ newline) data.
Definition printJSONOnly (data : string) : Go unit := print_json ("", "") data.

Definition shortened (n : nat) (description : string) : string :=
  if n <? String.length description then first_chars n description +:+ "..." else description.

(** What [json.Unmarshal] makes of a text; [None] is an error. *)
Definition read_as {A} (d : decoder A) (zero : A) (data : string) : option A :=
  match parse data with Some j => unmarshal d zero j | None => None end.

(** The reason is left out. *)
Definition cannot_parse : Go unit := Println "Error parsing response".

Definition table_line (a b c d : string) : string :=
  pad_right 40 a +:+ " " +:+ pad_right 30 b +:+ " " +:+ pad_right 50 c +:+ " " +:+ pad_right 15 d.

Fixpoint print_all (l : list string) : Go unit :=
  match l with [] => ret tt | s :: l => Println s ;;; print_all l end.

Definition formatSagaTemplateTable (data : string) : Go unit :=
  match read_as (one_list "saga_templates" (decode_list (decode_struct CliTemplate_fields) no_template)) [] data with
  | None => cannot_parse
  | Some [] => Println "No saga templates found."
  | Some templates =>
      Println (table_line "TEMPLATE ID" "DISPLAY NAME" "DESCRIPTION" "STEP COUNT") ;;;
      Println (table_line (Repeat "-" 40) (Repeat "-" 30) (Repeat "-" 50) (Repeat "-" 15)) ;;;
      print_all ((λ t, table_line (tp_TemplateId t) (tp_DisplayName t) (shortened 47 (tp_Description t))
        (FormatInt (Z.of_nat (length (tp_SagaStepTemplates t))))) <$> templates)
  end.

Definition step_table_line (a b c : string) : string :=
  "  " +:+ pad_right 35 a +:+ " " +:+ pad_right 25 b +:+ " " +:+ pad_right 40 c.

Definition formatSagaTemplateDetails (data : string) : Go unit :=
  match read_as (decode_struct CliTemplate_fields) no_template data with
  | None => cannot_parse
  | Some t =>
      Println ("Template ID:    " +:+ tp_TemplateId t) ;;;
      Println ("Display Name:   " +:+ tp_DisplayName t) ;;;
      Println ("Description:    " +:+ tp_Description t) ;;;
      Println ("Tags:           " +:+ Join (tp_Tags t) ", ") ;;;
      Println ("Step Count:     " +:+ FormatInt (Z.of_nat (length (tp_SagaStepTemplates t)))) ;;;
      match tp_SagaStepTemplates t with
      | [] => ret tt
      | steps =>
          Println (newline +:+ "Steps:") ;;;
          Println (step_table_line "STEP ID" "DISPLAY NAME" "DESCRIPTION") ;;;
          Println (step_table_line (Repeat "-" 35) (Repeat "-" 25) (Repeat "-" 40)) ;;;
          print_all ((λ s, step_table_line (ct_TemplateId s) (ct_DisplayName s)
            (shortened 37 (ct_Description s))) <$> steps)
      end
  end.

Definition formatSagaTemplateIds (data : string) : Go unit :=
  match read_as (one_list "saga_template_ids" strings_decoder) [] data with
  | None => cannot_parse
  | Some [] => Println "No saga template IDs found."
  | Some ids =>
      let sorted := merge_sort String.le ids in
      Println "Saga Template IDs:" ;;;
      print_all ((λ ni, FormatInt (Z.of_nat ni.1) +:+ ". " +:+ ni.2) <$> zip (seq 1 (length sorted)) sorted)
  end.

(** ** Commands *)

Definition flags_of (args : list string) : Go Flags :=
  baseURL <- get_url ;; ret (extractFlags baseURL traceId args).

Definition fails (msg : string) : Go (option string) := ret (Some msg).
Definition ok : Go (option string) := ret None.

(** [format]: what is printed when no JSON is asked for. *)
Definition print_reply (f : Flags) (format : string → Go unit) (resp : HttpReply) : Go unit :=
  when (fl_verbose f) (Println ("Status: " +:+ FormatInt (hp_code resp))) ;;;
  if (hp_code resp =? 200)%Z then
    if fl_json f then (if fl_verbose f then prettyPrintJSON (hp_body resp) else printJSONOnly (hp_body resp))
    else format (hp_body resp)
  else Println ((if fl_verbose f then "Response: " else "") +:+ hp_body resp).

(** The frame of the commands that ask for something. *)
Definition query (f : Flags) (verbose : string) (endpoint : string) (body : option string)
    (format : string → Go unit) : Go (option string) :=
  when (fl_verbose f)
    (Println verbose ;;;
     when (negb (String.eqb (fl_traceId f) "")) (Println ("Using trace-id: " +:+ fl_traceId f))) ;;;
  with_url (fl_url f)
    (r <- makeRequest "POST" endpoint body (fl_traceId f) ;;
     match r with
     | inr err => fails ("request failed: " +:+ err)
     | inl resp =>
         match hp_error resp with
         | Some err => fails ("failed to read response: " +:+ err)
         | None => print_reply f format resp ;;; ok
         end
     end).

Definition cmdHealth (args : list string) : Go (option string) :=
  f <- flags_of args ;;
  when (fl_verbose f)
    (Println ("Checking health at " +:+ fl_url f +:+ "...") ;;;
     when (negb (String.eqb (fl_traceId f) "")) (Println ("Using trace-id: " +:+ fl_traceId f))) ;;;
  with_url (fl_url f)
    (r <- makeRequest "GET" "/api/v1/health" None (fl_traceId f) ;;
     match r with
     | inr err => fails ("health check failed: " +:+ err)
     | inl resp =>
         match hp_error resp with
         | Some err => fails ("failed to read response: " +:+ err)
         | None =>
             when (fl_verbose f) (Println ("Status: " +:+ FormatInt (hp_code resp))) ;;;
             Println ("Response: " +:+ hp_body resp) ;;;
             ok
         end
     end).

(** Unlike the other commands it changes the address for good. *)
Definition cmdConnect (args : list string) : Go (option string) :=
  match args with
  | _ :: _ :: _ => fails ("usage: connect [url] (defaults to " +:+ DefaultTraxCtrlURL +:+ ")")
  | _ =>
      let url := match args with [url] => url | _ => DefaultTraxCtrlURL end in
      Println ("Connecting to " +:+ url +:+ "...") ;;;
      match ce_bad_request env "GET" (url +:+ "/api/v1/health") with
      | Some err => fails ("failed to create request: " +:+ err)
      | None =>
          r <- client_do (mkHttpRequest "GET" (url +:+ "/api/v1/health") [] None) ;;
          match r with
          | inr err => fails ("failed to connect: " +:+ err)
          | inl resp =>
              if negb (hp_code resp =? 200)%Z then
                fails ("server returned status " +:+ FormatInt (hp_code resp))
              else
                set_url url ;;;
                Println "Connected successfully!" ;;;
                ok
          end
      end
  end.

(** [required value name k]: an option that must be there. *)
Definition required (value name : string) (k : Go (option string)) : Go (option string) :=
  if String.eqb value "" then fails (name +:+ " is required") else k.

Definition cmdSagaTemplate (args : list string) : Go (option string) :=
  f <- flags_of args ;;
  required (fl_id f) "--id"
    (query f ("Getting saga template: " +:+ fl_id f) ("/api/v1/saga-templates/" +:+ fl_id f) None
       formatSagaTemplateDetails).

Definition cmdSagaTemplates (args : list string) : Go (option string) :=
  f <- flags_of args ;;
  query f "Getting all saga templates..." "/api/v1/saga-templates/list" None formatSagaTemplateTable.

Definition cmdSagaTemplateIds (args : list string) : Go (option string) :=
  f <- flags_of args ;;
  query f "Getting saga template IDs..." "/api/v1/saga-templates/list/ids" None formatSagaTemplateIds.

(** The body of a request for a cluster: nothing in it is escaped. *)
Definition cluster_body (clusterId : string) : string := json_text [("cluster_id", clusterId)].

Definition cmdSagaInstance (args : list string) : Go (option string) :=
  f <- flags_of args ;;
  required (fl_id f) "--id" (required (fl_clusterId f) "--cluster-id"
    (query f ("Getting saga instance: " +:+ fl_id f +:+ " (cluster: " +:+ fl_clusterId f +:+ ")")
       ("/api/v1/saga-instances/" +:+ fl_id f) (Some (cluster_body (fl_clusterId f))) prettyPrintJSON)).

Definition cmdSagaInstances (args : list string) : Go (option string) :=
  f <- flags_of args ;;
  required (fl_clusterId f) "--cluster-id"
    (query f ("Getting all saga instances for cluster: " +:+ fl_clusterId f) "/api/v1/saga-instances/list"
       (Some (cluster_body (fl_clusterId f))) prettyPrintJSON).

Definition cmdSagaInstanceIds (args : list string) : Go (option string) :=
  f <- flags_of args ;;
  required (fl_clusterId f) "--cluster-id"
    (query f ("Getting saga instance IDs for cluster: " +:+ fl_clusterId f) "/api/v1/saga-instances/list/ids"
       (Some (cluster_body (fl_clusterId f))) prettyPrintJSON).

Definition cmdSagaStepInstance (args : list string) : Go (option string) :=
  f <- flags_of args ;;
  required (fl_id f) "--id" (required (fl_clusterId f) "--cluster-id"
    (query f ("Getting saga step instance: " +:+ fl_id f +:+ " (cluster: " +:+ fl_clusterId f +:+ ")")
       ("/api/v1/saga-step-instances/" +:+ fl_id f) (Some (cluster_body (fl_clusterId f))) prettyPrintJSON)).

Definition cmdSagaStepInstances (args : list string) : Go (option string) :=
  f <- flags_of args ;;
  required (fl_clusterId f) "--cluster-id"
    (query f ("Getting all saga step instances for cluster: " +:+ fl_clusterId f)
       "/api/v1/saga-step-instances/list" (Some (cluster_body (fl_clusterId f))) prettyPrintJSON).

Definition cmdSagaStepInstanceIds (args : list string) : Go (option string) :=
  f <- flags_of args ;;
  required (fl_clusterId f) "--cluster-id"
    (query f ("Getting saga step instance IDs for cluster: " +:+ fl_clusterId f)
       "/api/v1/saga-step-instances/list/ids" (Some (cluster_body (fl_clusterId f))) prettyPrintJSON).

(** *** Changes *)

(** A member for an option that was given. *)
Definition given (name value : string) : list (string * Json) :=
  if String.eqb value "" then [] else [(name, JString value)].

(** The frame of the commands that change something; an error of reading the
    answer is ignored. *)
Definition change (f : Flags) (verbose method endpoint : string) (body : option string) (done_ failed : string) :
    Go (option string) :=
  when (fl_verbose f) (Println verbose) ;;;
  with_url (fl_url f)
    (r <- makeRequest method endpoint body (fl_traceId f) ;;
     match r with
     | inr err => fails ("request failed: " +:+ err)
     | inl resp =>
         (if (hp_code resp =? 200)%Z then Println ("✓ " +:+ done_)
          else Println ("✗ " +:+ failed +:+ " failed (" +:+ FormatInt (hp_code resp) +:+ "): " +:+ hp_body resp)) ;;;
         ok
     end).

(** [json.Marshal] of a map writes the members in the order of their names. *)
Definition template_payload (args : list string) : list (string * Json) :=
  given "description" (rest_option "--description=" args) ++
  given "display_name" (rest_option "--display-name=" args).

Definition cmdSagaTemplateUpdate (args : list string) : Go (option string) :=
  f <- flags_of args ;;
  required (fl_id f) "--id"
    (match template_payload (fl_rest f) with
     | [] => fails "at least one of --display-name or --description is required"
     | payload =>
         change f ("Updating saga template: " +:+ fl_id f) "PUT" ("/api/v1/saga-templates/" +:+ fl_id f)
           (Some (print (JObject payload))) ("Saga template '" +:+ fl_id f +:+ "' updated") "Update"
     end).

Definition cmdSagaTemplateDelete (args : list string) : Go (option string) :=
  f <- flags_of args ;;
  required (fl_id f) "--id"
    (change f ("Deleting saga template: " +:+ fl_id f) "DELETE" ("/api/v1/saga-templates/" +:+ fl_id f) None
       ("Saga template '" +:+ fl_id f +:+ "' deleted") "Delete").

Definition cmdSagaStepTemplateUpdate (args : list string) : Go (option string) :=
  f <- flags_of args ;;
  required (fl_id f) "--id"
    (let sagaTemplateId := rest_option "--saga-template-id=" (fl_rest f) in
     match template_payload (fl_rest f) ++ given "saga_template_id" sagaTemplateId with
     | [] => fails "at least one of --display-name, --description, or --saga-template-id is required"
     | payload =>
         if String.eqb sagaTemplateId "" then fails "--saga-template-id is required for step template update"
         else
           change f ("Updating saga step template: " +:+ fl_id f) "PUT"
             ("/api/v1/saga-step-templates/" +:+ fl_id f) (Some (print (JObject payload)))
             ("Saga step template '" +:+ fl_id f +:+ "' updated") "Update"
     end).

Definition cmdSagaStepTemplateDelete (args : list string) : Go (option string) :=
  f <- flags_of args ;;
  required (fl_id f) "--id"
    (change f ("Deleting saga step template: " +:+ fl_id f) "DELETE"
       ("/api/v1/saga-step-templates/" +:+ fl_id f) None
       ("Saga step template '" +:+ fl_id f +:+ "' deleted") "Delete").

(** *** Executors *)

Definition executor_flags : list (string * ConfigField) :=
  [("--trax-cluster-id=", TraxClusterId); ("--rabbitmq-url=", RabbitmqURL); ("--saga-template-id=", SagaTemplateId);
   ("--saga-step-template-id=", SagaStepTemplateId); ("--exec-sim-status=", ExecSimStatus);
   ("--exec-sim-delay=", ExecSimDelay); ("--exec-sim-error=", ExecSimError); ("--exec-sim-result=", ExecSimResult);
   ("--mq-event-pub-node=", MqEventPubNode); ("--exec-shell=", ExecShell);
   ("--idempotency-storage-backend=", IdempotencyBackend); ("--redis-url=", RedisURL); ("--pgsql-url=", PgsqlURL)].

Definition executor_flag (cfg : ExecutorConfig) (arg : string) : ExecutorConfig :=
  match List.find (λ p, String.prefix p.1 arg) executor_flags with
  | Some (name, f) => <[f := TrimPrefix arg name]> cfg
  | None => cfg
  end.

Definition executor_config (args : list string) : ExecutorConfig := foldl executor_flag no_config args.

(** [RunExecutor]: the checks, and then the executor. *)
Definition RunExecutor (cfg : ExecutorConfig) : Go (option string) :=
  match validateExecutorConfig cfg with
  | Panic msg => panic msg
  | Hang => hang
  | Ret (Err e) => fails (error_text e)
  | Ret (Ok cfg) => ret (ce_executor env cfg)
  end.

Definition cmdExecutor (args : list string) : Go (option string) :=
  let cfg := executor_config args in
  required (cfg TraxClusterId) "--trax-cluster-id"
    (required (cfg RabbitmqURL) "--rabbitmq-url"
      (required (cfg SagaTemplateId) "--saga-template-id"
        (required (cfg SagaStepTemplateId) "--saga-step-template-id" (RunExecutor cfg)))).
End cli.

(** ** The command line: lines, the loop, the history

    The rest of [pkg/clis/traxcli/main.go]: which command a line is for, one
    command given on the command line, the interactive loop with its terminal,
    and the file of earlier lines. *)

Local Open Scope go_scope.

(** The text of [cmdHelp]. *)
Definition help_lines : list string :=
  ["Available commands:";
   "  connect [url]                           - Connect to traxctrl server (defaults to http://host.docker.internal:17202)";
   "  health [--url=URL] [--trace-id=ID] [-v|--verbose] - Check server health";
   "  saga-template --id=<id> [--url=URL] [--trace-id=ID] [--json] [-v|--verbose] - Get saga template by ID";
   "  saga-templates [--url=URL] [--trace-id=ID] [--json] [-v|--verbose] - Get all saga templates";
   "  saga-template-ids [--url=URL] [--trace-id=ID] [--json] [-v|--verbose] - Get all saga template IDs only";
   "  saga-instance --id=<id> --cluster-id=<cluster_id> [--url=URL] [--trace-id=ID] [--json] [-v|--verbose] - Get saga instance by ID";
   "  saga-instances --cluster-id=<cluster_id> [--url=URL] [--trace-id=ID] [--json] [-v|--verbose] - Get all saga instances";
   "  saga-instance-ids --cluster-id=<cluster_id> [--url=URL] [--trace-id=ID] [--json] [-v|--verbose] - Get all saga instance IDs only";
   "  saga-step-instance --id=<id> --cluster-id=<cluster_id> [--url=URL] [--trace-id=ID] [--json] [-v|--verbose] - Get saga step instance by ID";
   "  saga-step-instances --cluster-id=<cluster_id> [--url=URL] [--trace-id=ID] [--json] [-v|--verbose] - Get all saga step instances";
   "  saga-step-instance-ids --cluster-id=<cluster_id> [--url=URL] [--trace-id=ID] [--json] [-v|--verbose] - Get all saga step instance IDs only";
   "  executor [options]                      - Run a saga step executor (type 'executor --help' for details)";
   "  help                                    - Show this help";
   "  exit                                    - Exit CLI";
   "";
   "Options:";
   "  --json                                  - Output in JSON format (default: table format)";
   "  -v, --verbose                           - Show verbose output (status, trace info)";
   "                                          - For JSON output: shows 'Status:', 'Response:' headers";
   "                                          - For table output: shows connection/request info";
   "";
   "URL options:";
   "  --url=http://server:port  - Override default server URL";
   "  (uses connected server if not specified)";
   "";
   "Trace ID options:";
   "  --trace-id=myid  - Use custom trace ID (sent as x-trace-id header)";
   "  (uses default context if not specified)";
   "";
   "Terminal features:";
   "  Up/Down arrows   - Navigate command history";
   "  Left/Right arrows - Move cursor in current line";
   "  Tab              - Auto-complete commands and arguments";
   "  Ctrl+C           - Clear line (double Ctrl+C to exit)";
   "  Ctrl+D           - Exit CLI";
   "  History file     - Auto-located (max 100K entries)";
   "";
   "History file locations (in order of preference):";
   "  $TRAXCLI_HISTORY_DIR/.traxcli_history - Custom directory";
   "  /data/.traxcli_history                - Container volume mount";
   "  /tmp/.traxcli_history                 - Container fallback";
   "  ~/.traxcli_history                    - Local development";
   "";
   "Container usage:";
   "  docker run -v /host/path:/data ... traxcli";
   "  docker run -e TRAXCLI_HISTORY_DIR=/custom ... traxcli";
   "";
   "Examples:";
   "  connect http://localhost:17202";
   "  health --trace-id=test123";
   "  saga-template --id=new_account_under_participant";
   "  saga-templates --url=http://prod-server:17202";
   "  saga-template-ids"].

Section loop.
Context `{!JsonText, !FloatText} (env : CliEnv) (traceId : string).
#[local] Notation Go := (M CliWorld).

Definition cmdHelp (args : list string) : Go (option string) := print_all help_lines ;;; ok.

(** The commands by their names. *)
Definition commands : list (string * (list string → Go (option string))) :=
  [("connect", cmdConnect env); ("health", cmdHealth env traceId);
   ("saga-template", cmdSagaTemplate env traceId); ("saga-templates", cmdSagaTemplates env traceId);
   ("saga-template-ids", cmdSagaTemplateIds env traceId);
   ("saga-instance", cmdSagaInstance env traceId); ("saga-instances", cmdSagaInstances env traceId);
   ("saga-instance-ids", cmdSagaInstanceIds env traceId);
   ("saga-step-instance", cmdSagaStepInstance env traceId);
   ("saga-step-instances", cmdSagaStepInstances env traceId);
   ("saga-step-instance-ids", cmdSagaStepInstanceIds env traceId);
   ("saga-template-update", cmdSagaTemplateUpdate env traceId);
   ("saga-template-delete", cmdSagaTemplateDelete env traceId);
   ("saga-step-template-update", cmdSagaStepTemplateUpdate env traceId);
   ("saga-step-template-delete", cmdSagaStepTemplateDelete env traceId);
   ("executor", cmdExecutor env); ("help", cmdHelp); ("exit", λ _, ok)].

Definition find_command (name : string) : option (list string → Go (option string)) :=
  match List.find (λ c, String.eqb c.1 name) commands with Some c => Some c.2 | None => None end.

Definition processCommand (line : string) : Go (option string) :=
  match parseCommand line with
  | [] => ok
  | cmd :: args =>
      match find_command cmd with
      | Some run => run args
      | None => fails ("unknown command: " +:+ cmd)
      end
  end.

(** ** One command: whether the process ends with an error *)

Definition RunNonInteractive (command : string) (args : list string) : Go bool :=
  let commandLine := match args with [] => command | _ => command +:+ " " +:+ Join args " " end in
  Println ("Executing: " +:+ commandLine) ;;;
  when (negb (String.eqb traceId "")) (Println ("Trace ID: " +:+ traceId)) ;;;
  err <- processCommand commandLine ;;
  match err with
  | Some e => Println ("Error: " +:+ e) ;;; ret true
  | None => ret false
  end.

(** ** The interactive loop *)

Fixpoint print_each (l : list string) : Go unit :=
  match l with [] => ret tt | s :: l => Print s ;;; print_each l end.

(** What the terminal gives: a line, the end of the input, an interrupt at a
    time, another error. *)
Inductive Typed :=
  | TLine (line : string)
  | TEnd
  | TInterrupt (now : Z)
  | TError (err : string).

(** [lastInterrupt]; the result tells whether the loop has ended. *)
Fixpoint runInteractiveLoop (lastInterrupt : option Z) (input : list Typed) : Go bool :=
  match input with
  | [] => ret false
  | TEnd :: _ => ret true
  | TError err :: _ => Println ("Error reading input: " +:+ err) ;;; ret true
  | TInterrupt now :: input =>
      if match lastInterrupt with Some t => (now - t <? 2 * second)%Z | None => false end then
        Println (newline +:+ "Exiting...") ;;; ret true
      else
        Println "Press Ctrl+C again to exit, or type 'exit'" ;;;
        runInteractiveLoop (Some now) input
  | TLine line :: input =>
      let line := TrimSpace line in
      if String.eqb line "" then runInteractiveLoop None input
      else
        err <- processCommand line ;;
        match err with Some e => Println ("Error: " +:+ e) | None => ret tt end ;;;
        if String.eqb line "exit" then ret true else runInteractiveLoop None input
  end.
(** *** The session *)

(** What the terminal completes: commands with their options. *)
Definition completer : list (string * list string) :=
  [("connect", []);
   ("health", ["--url="; "--trace-id="]);
   ("saga-template", ["--url="; "--trace-id="; "--id="]);
   ("saga-templates", ["--url="; "--trace-id="]);
   ("saga-template-ids", ["--url="; "--trace-id="]);
   ("saga-instance", ["--url="; "--trace-id="; "--id="; "--cluster-id="]);
   ("saga-instances", ["--url="; "--trace-id="; "--cluster-id="]);
   ("saga-instance-ids", ["--url="; "--trace-id="; "--cluster-id="]);
   ("saga-step-instance", ["--url="; "--trace-id="; "--id="; "--cluster-id="]);
   ("saga-step-instances", ["--url="; "--trace-id="; "--cluster-id="]);
   ("saga-step-instance-ids", ["--url="; "--trace-id="; "--cluster-id="]);
   ("help", []);
   ("exit", [])].

Definition banner : list string :=
  ["=== TraxCtrl CLI v1 ===";
   "Commands:";
   "  connect [url]                    - Connect to traxctrl server (defaults to http://host.docker.internal:17202)";
   "  health [--trace-id=ID]           - Check server health";
   "  saga-template --id=<id> [--trace-id=ID] - Get saga template by ID";
   "  saga-templates [--trace-id=ID]   - Get all saga templates";
   "  saga-template-ids [--trace-id=ID] - Get all saga template IDs only";
   "  saga-instance --id=<id> --cluster-id=<cluster_id> [--trace-id=ID] - Get saga instance by ID";
   "  saga-instances --cluster-id=<cluster_id> [--trace-id=ID] - Get all saga instances";
   "  saga-instance-ids --cluster-id=<cluster_id> [--trace-id=ID] - Get all saga instance IDs only";
   "  saga-step-instance --id=<id> --cluster-id=<cluster_id> [--trace-id=ID] - Get saga step instance by ID";
   "  saga-step-instances --cluster-id=<cluster_id> [--trace-id=ID] - Get all saga step instances";
   "  saga-step-instance-ids --cluster-id=<cluster_id> [--trace-id=ID] - Get all saga step instance IDs only";
   "  executor [options]               - Run a saga step executor";
   "  help                             - Show this help";
   "  exit                             - Exit CLI";
   "Features:";
   "  - Up/Down arrows for command history";
   "  - Tab completion for commands and arguments";
   "  - Left/Right arrows for cursor navigation"].

(** [historyPath] as [getTraxHistoryFilePath] found it; [trim] is
    [trimTraxHistoryFile] with what it prints; [terminal] is the error of the
    terminal's library, after which the process exits with 1. *)
Definition RunInteractive (historyPath : option string) (trim : string → option string * list string)
    (terminal : option string) (input : list Typed) : Go bool :=
  match historyPath with
  | None => Println "Warning: Could not get history file path"
  | Some _ => ret tt
  end ;;;
  let historyPath := default "/tmp/traxcli_history" historyPath in
  print_each (trim historyPath).2 ;;;
  match (trim historyPath).1 with
  | Some err => Println ("Warning: Could not trim history file: " +:+ err)
  | None => ret tt
  end ;;;
  match terminal with
  | Some err => Println ("Error initializing readline: " +:+ err) ;;; ret true
  | None =>
      set_url DefaultTraxCtrlURL ;;;
      print_all banner ;;;
      Println ("History file: " +:+ historyPath) ;;;
      when (negb (String.eqb traceId "")) (Println ("Trace ID: " +:+ traceId)) ;;;
      Println "" ;;;
      runInteractiveLoop None input
  end.
End loop.

(** ** The history *)

Definition TraxHistoryFileName : string := ".traxcli_history".

(** [filepath.Clean]: empty parts and [.] are dropped, [..] takes the part
    before it away, unless there is none. *)
Definition clean_part (rooted : bool) (out : list string) (part : string) : list string :=
  if String.eqb part "" || String.eqb part "." then out
  else if String.eqb part ".." then
    match out with
    | [] => if rooted then [] else [".."]
    | o :: out' => if String.eqb o ".." then ".." :: out else out'
    end
  else part :: out.
Definition Clean (path : string) : string :=
  let rooted := String.prefix "/" path in
  let out := rev (foldl (clean_part rooted) [] (Split path "/")) in
  let cleaned := (if rooted then "/" else "") +:+ Join out "/" in
  if String.eqb cleaned "" then "." else cleaned.

(** [filepath.Join] of a directory that is not empty and the name. *)
Definition history_in (dir : string) : string := Clean (dir +:+ "/" +:+ TraxHistoryFileName).

(** The directory that is named, the volume of a container, or the directory
    for temporary files, which is never empty. *)
Definition getTraxHistoryFilePath (environment : Environment) (data_exists : bool) (tmpDir : string)
    (homeDir : option string) : option string :=
  let dir := Getenv environment "TRAXCLI_HISTORY_DIR" in
  if negb (String.eqb dir "") then Some (history_in dir)
  else if data_exists then Some (history_in "/data")
  else if negb (String.eqb tmpDir "") then Some (history_in tmpDir)
  else history_in <$> homeDir.

Definition MaxTraxHistoryEntries : N := 100000.

(** The longest line that [bufio.Scanner] takes, with its end. *)
Definition max_token : N := 65536.

(** The lines of a text; a carriage return before the end is dropped, and
    nothing comes after the last end. *)
Fixpoint split_lines (s : string) : list string :=
  match s with
  | EmptyString => []
  | String c s' =>
      if Ascii.eqb c "010" then "" :: split_lines s'
      else match split_lines s' with
           | [] => [String c ""]
           | l :: ls => String c l :: ls
           end
  end.

Definition drop_cr (line : string) : string :=
  match rev_string line with String "013" rest => rev_string rest | _ => line end.

Definition scan_lines (content : string) : option (list string) :=
  let lines := split_lines content in
  if existsb (λ l, (max_token <=? N.of_nat (String.length l))%N) lines then None else Some (drop_cr <$> lines).

Definition unlines (lines : list string) : string := Join ((λ l, l +:+ newline) <$> lines) "".

(** An operation on files that fails gives its error. *)
Inductive FileOp := FOpen | FCreate | FWrite | FFlush | FRename.

(** [trimTraxHistoryFile] for a limit: the error, what is printed, the files.
    [written]: how much of the new file was written before an error. *)
Definition trim_history (max : N) (written : nat) (fails : FileOp → option string) (path : string) (fs : gmap string string) :
    option string * list string * gmap string string :=
  match fs !! path with
  | None => (None, [], fs)
  | Some content =>
      match fails FOpen with
      | Some err => (Some ("failed to open history file: " +:+ err), [], fs)
      | None =>
          match scan_lines content with
          | None => (Some "failed to read history file: bufio.Scanner: token too long", [], fs)
          | Some lines =>
              if (N.of_nat (length lines) <=? max)%N then (None, [], fs)
              else
                let linesToKeep := drop (length lines - N.to_nat max) lines in
                let tmpFile := path +:+ ".tmp" in
                match fails FCreate with
                | Some err => (Some ("failed to create temporary history file: " +:+ err), [], fs)
                | None =>
                    let partly := <[tmpFile := first_chars written (unlines linesToKeep)]> fs in
                    match fails FWrite, fails FFlush with
                    | Some err, _ => (Some ("failed to write to temporary history file: " +:+ err), [], partly)
                    | None, Some err => (Some ("failed to flush temporary history file: " +:+ err), [], partly)
                    | None, None =>
                        match fails FRename with
                        | Some err => (Some ("failed to replace history file: " +:+ err), [], delete tmpFile fs)
                        | None =>
                            (None, ["History file trimmed to " +:+ FormatInt (Z.of_N max) +:+ " entries" +:+ newline],
                             <[path := unlines linesToKeep]> (delete tmpFile fs))
                        end
                    end
                end
          end
      end
  end.

Definition trimTraxHistoryFile := trim_history MaxTraxHistoryEntries.
