(* ===== verification/CliSpecs.v ===== *)
(** * What the command line comes to

    Which words a line has, what a command sends and to whom, which executors
    it can start, what an update does to a template, and the history file. *)

From stdpp Require Import numbers gmap functions.
From Stdlib Require Import Strings.Ascii.
From S2P Require Import Prelude GoMonad Model Naming GoStrings Helpers Json Builders Wire.
From S2P Require Import WireSpecs.
From S2P Require Import CliService CliServiceSpecs Cli.
Local Open Scope go_scope.

(** ** Words *)

(** A word without blanks and quotes. *)
Definition plain_char (c : ascii) : bool := negb (is_blank c || is_quote c).
Definition plain_word (s : string) : bool := negb (String.eqb s "") && all_chars plain_char s.

Lemma leading_word_plain w rest :
  all_chars plain_char w = true → (∀ c r, rest = String c r → plain_char c = false) →
  leading_word (w +:+ rest) = (w, rest).
Proof.
  intros Hw Hr. induction w as [|c w IH]; cbn [all_chars] in Hw.
  - change ("" +:+ rest) with rest. destruct rest as [|c r]; [done|]. cbn [leading_word].
    specialize (Hr c r eq_refl). unfold plain_char in Hr. apply negb_false_iff in Hr. by rewrite Hr.
  - apply andb_true_iff in Hw as [Hc Hw]. change (String c w +:+ rest) with (String c (w +:+ rest)).
    cbn [leading_word]. unfold plain_char in Hc. apply negb_true_iff in Hc. by rewrite Hc, IH.
Qed.

Lemma words_plain fuel w rest :
  plain_word w = true → (∀ c r, rest = String c r → plain_char c = false) →
  words (S fuel) (w +:+ rest) = w :: words fuel rest.
Proof.
  unfold plain_word. intros [Hne Hw]%andb_true_iff Hr. destruct w as [|c w]; [done|].
  pose proof (leading_word_plain _ _ Hw Hr) as Hl. cbn [all_chars] in Hw.
  apply andb_true_iff in Hw as [Hc _]. unfold plain_char in Hc.
  apply negb_true_iff, orb_false_iff in Hc as [Hb Hq].
  change (String c w +:+ rest) with (String c (w +:+ rest)) in *. cbn [words]. by rewrite Hb, Hq, Hl.
Qed.

Lemma words_empty fuel : words fuel "" = [].
Proof. by destruct fuel. Qed.

Lemma Join_cons a b l sep : Join (a :: b :: l) sep = a +:+ (sep +:+ Join (b :: l) sep).
Proof. reflexivity. Qed.

Lemma length_append a b : String.length (a +:+ b) = String.length a + String.length b.
Proof. induction a as [|c a IH]; [done|]. simpl. by f_equal. Qed.

Lemma append_nil w : w +:+ "" = w.
Proof. induction w as [|c w IH]; [done|]. change (String c w +:+ "") with (String c (w +:+ "")). by rewrite IH. Qed.

Lemma words_of_plain l fuel :
  Forall (λ w, plain_word w = true) l → String.length (Join l " ") ≤ fuel → words fuel (Join l " ") = l.
Proof.
  intros Hl. revert fuel. induction Hl as [|w l Hw Hl IH]; intros fuel Hf; [apply words_empty|].
  assert (Hlen : 0 < String.length w) by (destruct w; [done|simpl; lia]).
  destruct l as [|v l].
  - change (Join [w] " ") with w in *. destruct fuel as [|fuel]; [lia|].
    pose proof (words_plain fuel w "" Hw) as H. rewrite words_empty in H.
    rewrite append_nil in H. by apply H.
  - rewrite Join_cons in *. rewrite !length_append in Hf.
    destruct fuel as [|fuel]; [lia|].
    rewrite words_plain; [|done|by intros c r [= <- <-]]. f_equal.
    change (String.length " ") with 1 in Hf. destruct fuel as [|fuel]; [lia|].
    change (" " +:+ Join (v :: l) " ") with (String " " (Join (v :: l) " ")). cbn [words is_blank].
    change (is_blank " ") with true. cbv iota. apply IH. lia.
Qed.

(** Words without blanks and quotes come through as they are: a command given on
    the command line gets the arguments it was given. *)
Theorem plain_words_come_through command args :
  Forall (λ w, plain_word w = true) (command :: args) →
  parseCommand (match args with [] => command | _ => command +:+ " " +:+ Join args " " end) = command :: args.
Proof.
  intros H. pose proof (words_of_plain (command :: args) _ H (le_n _)) as Hw.
  unfold parseCommand. by destruct args.
Qed.

(** What stands between quotes is one word, with its blanks. *)
Theorem quoted_word_comes_through q s :
  is_quote q = true → all_chars (λ c, negb (Ascii.eqb c q)) s = true →
  parseCommand (String q (s +:+ String q "")) = [s].
Proof.
  intros Hq Hs. unfold parseCommand.
  assert (Hu : until_quote q (s +:+ String q "") = Some (s, "")).
  { clear Hq. induction s as [|c s IH]; cbn [all_chars] in Hs; simpl.
    - by rewrite Ascii.eqb_refl.
    - apply andb_true_iff in Hs as [Hc%negb_true_iff Hs]. by rewrite Hc, IH. }
  set (line := String q (s +:+ String q "")).
  assert (Hlen : ∃ n, String.length line = S n) by by eexists.
  destruct Hlen as [n ->]. subst line. cbn [words].
  assert (Hb : is_blank q = false).
  { unfold is_quote in Hq. apply orb_true_iff in Hq as [->%Ascii.eqb_eq| ->%Ascii.eqb_eq]; reflexivity. }
  rewrite Hb, Hq, Hu. by rewrite words_empty.
Qed.

(** An option whose value is quoted, as the comments and the shell have it, is
    broken in two, its value lost; and words that the shell has put together are
    taken apart again. *)
Example quoted_values_are_lost :
  parseCommand ("saga-template-update --display-name=" +:+ quoted "New Name") =
    ["saga-template-update"; "--display-name="; "New Name"] ∧
  parseCommand ("saga-template-update " +:+ Join ["--id=t"; "--display-name=New Name"] " ") =
    ["saga-template-update"; "--id=t"; "--display-name=New"; "Name"].
Proof. by vm_compute. Qed.

(** ** What a command sends *)

Section commands.
Context `{!JsonText, !FloatText} (env : CliEnv) (traceId : string).
#[local] Notation Go := (M CliWorld).
Implicit Types (P : string → HttpRequest → Prop).

(** [sends n P m]: [m] returns, leaves the address as it was, and sends at most
    [n] requests, of which [P] says, given the address, what they are. *)
Definition sends {A} (n : nat) P (m : Go A) : Prop := ∀ w, ∃ a w' l,
  m w = (Ret a, w') ∧ cw_baseURL w' = cw_baseURL w ∧ cw_requests w' = cw_requests w ++ l ∧
  length l ≤ n ∧ Forall (P (cw_baseURL w)) l.

Lemma sends_ret {A} P (a : A) : sends 0 P (ret a).
Proof. intros w. exists a, w, []. split_and!; [done|done|by rewrite app_nil_r|done|done]. Qed.

Lemma sends_bind {A B} i j P (m : Go A) (k : A → Go B) :
  sends i P m → (∀ a, sends j P (k a)) → sends (i + j) P (bind m k).
Proof.
  intros Hm Hk w. destruct (Hm w) as (a & w1 & l1 & H1 & Hu1 & Hr1 & Hn1 & Hp1).
  destruct (Hk a w1) as (b & w2 & l2 & H2 & Hu2 & Hr2 & Hn2 & Hp2).
  exists b, w2, (l1 ++ l2). split_and!.
  - unfold bind. by rewrite H1.
  - congruence.
  - by rewrite Hr2, Hr1, (assoc_L (++)).
  - rewrite length_app. lia.
  - apply Forall_app. split; [done|]. by rewrite <- Hu1.
Qed.

(** Prints send nothing. *)
Lemma sends_then {A B} n P (m : Go A) (k : A → Go B) :
  sends 0 P m → (∀ a, sends n P (k a)) → sends n P (bind m k).
Proof. intros Hm Hk. change n with (0 + n). by apply sends_bind. Qed.
Lemma sends_last {A B} n P (m : Go A) (k : A → Go B) :
  sends n P m → (∀ a, sends 0 P (k a)) → sends n P (bind m k).
Proof. intros Hm Hk. rewrite <- (Nat.add_0_r n). by apply sends_bind. Qed.

Lemma sends_weaken {A} i j P P' (m : Go A) :
  i ≤ j → (∀ b r, P b r → P' b r) → sends i P m → sends j P' m.
Proof.
  intros Hij HP Hm w. destruct (Hm w) as (a & w1 & l1 & H1 & Hu1 & Hr1 & Hn1 & Hp1).
  exists a, w1, l1. split_and!; [done..|lia|]. eapply Forall_impl; [exact Hp1|]. apply HP.
Qed.

Lemma sends_print P s : sends 0 P (Print s).
Proof. intros w. eexists _, _, []. split_and!; [done|done|by rewrite app_nil_r|done|done]. Qed.
Lemma sends_println P s : sends 0 P (Println s).
Proof. apply sends_print. Qed.

Lemma sends_when P b m : sends 0 P m → sends 0 P (when b m).
Proof. intros Hm. destruct b; [done|apply sends_ret]. Qed.

Lemma sends_flags P args : sends 0 P (flags_of traceId args).
Proof. intros w. eexists _, w, []. split_and!; [done|done|by rewrite app_nil_r|done|done]. Qed.

(** Within [with_url] the address is another one. *)
Lemma sends_with_url {A} n (P : string → HttpRequest → Prop) url (m : Go A) :
  sends n P m → sends n (λ _, P url) (with_url url m).
Proof.
  intros Hm w. set (w0 := mkCliWorld url (cw_out w) (cw_requests w) (cw_tick w)).
  destruct (Hm w0) as (a & w1 & l & H1 & Hu & Hr & Hn & Hp). exists a. do 2 eexists. split_and!.
  - unfold with_url, bind, get_url, set_url, modify, get_state, with_defer. simpl. unfold bind. simpl.
    fold w0. by rewrite H1.
  - done.
  - exact Hr.
  - done.
  - exact Hp.
Qed.

(** What a request for an endpoint looks like. *)
Definition request_for (method endpoint : string) (body : option string) (url : string) (r : HttpRequest) : Prop :=
  hq_method r = method ∧ hq_url r = url +:+ endpoint ∧ hq_body r = body.

Lemma sends_request method endpoint body tid :
  sends 1 (request_for method endpoint body) (makeRequest env method endpoint body tid).
Proof.
  intros w. unfold makeRequest, bind, get_url, bind, get_state, ret. simpl.
  destruct (ce_bad_request _ _ _).
  - eexists _, w, []. split_and!; [done|done|by rewrite app_nil_r|simpl; lia|done].
  - eexists _, _, [_]. unfold client_do. split_and!; [done|done|done|done|]. by repeat constructor.
Qed.

Lemma sends_print_all P l : sends 0 P (print_all l).
Proof.
  induction l as [|s l IH]; [apply sends_ret|]. cbn [print_all].
  apply sends_then; [apply sends_println|]. intros _. exact IH.
Qed.

Create HintDb sends discriminated.
#[local] Hint Resolve sends_ret sends_println sends_print_all sends_flags : sends.

(** Cuts a sequence of prints apart. *)
Ltac prints :=
  repeat first
    [ progress intros
    | progress cbv zeta
    | lazymatch goal with
      | |- sends 0 _ (bind _ _) => apply sends_then
      | |- sends 0 _ (when _ _) => apply sends_when
      | |- sends 0 _ (if ?c then _ else _) => destruct c
      | |- sends 0 _ (match ?x with _ => _ end) => destruct x
      | |- _ => solve [eauto with sends]
      end ].

Lemma sends_pretty P d : sends 0 P (prettyPrintJSON d).
Proof. unfold prettyPrintJSON, print_json. prints. Qed.
Lemma sends_only P d : sends 0 P (printJSONOnly d).
Proof. unfold printJSONOnly, print_json. prints. Qed.
#[local] Hint Resolve sends_pretty sends_only : sends.
Lemma sends_table P d : sends 0 P (formatSagaTemplateTable d).
Proof. unfold formatSagaTemplateTable, cannot_parse. prints. Qed.
Lemma sends_details P d : sends 0 P (formatSagaTemplateDetails d).
Proof. unfold formatSagaTemplateDetails, cannot_parse. prints. Qed.
Lemma sends_ids P d : sends 0 P (formatSagaTemplateIds d).
Proof. unfold formatSagaTemplateIds, cannot_parse. prints. Qed.
#[local] Hint Resolve sends_table sends_details sends_ids : sends.

Lemma sends_reply P f format resp :
  (∀ d, sends 0 P (format d)) → sends 0 P (print_reply f format resp).
Proof. intros Hf. unfold print_reply. prints. Qed.

Lemma sends_query f verbose endpoint body format :
  (∀ P d, sends 0 P (format d)) →
  sends 1 (λ _, request_for "POST" endpoint body (fl_url f)) (query env f verbose endpoint body format).
Proof.
  intros Hf. unfold query. apply sends_then; [prints|]. intros _.
  apply sends_with_url, sends_last; [apply sends_request|].
  intros [resp|err]; [|apply sends_ret]. destruct (hp_error resp); [apply sends_ret|].
  apply sends_then; [by apply sends_reply|]. intros _. apply sends_ret.
Qed.

Lemma sends_change f verbose method endpoint body d e :
  sends 1 (λ _, request_for method endpoint body (fl_url f)) (change env f verbose method endpoint body d e).
Proof.
  unfold change. apply sends_then; [prints|]. intros _.
  apply sends_with_url, sends_last; [apply sends_request|]. unfold fails, ok. prints.
Qed.

(** A request with this method, for something at this address. *)
Definition asks (method url : string) (r : HttpRequest) : Prop :=
  hq_method r = method ∧ ∃ endpoint, hq_url r = url +:+ endpoint.

Lemma request_asks method endpoint body url r : request_for method endpoint body url r → asks method url r.
Proof. intros (Hm & Hu & _). split; [done|by exists endpoint]. Qed.

Lemma asks_query f verbose endpoint body format :
  (∀ P d, sends 0 P (format d)) → sends 1 (λ _, asks "POST" (fl_url f)) (query env f verbose endpoint body format).
Proof.
  intros Hf. eapply sends_weaken; [done| |by apply sends_query]. intros b r. apply request_asks.
Qed.

Lemma asks_change f verbose method endpoint body d e :
  sends 1 (λ _, asks method (fl_url f)) (change env f verbose method endpoint body d e).
Proof. eapply sends_weaken; [done| |by apply sends_change]. intros b r. apply request_asks. Qed.

Lemma sends_fails n P msg : sends n P (fails msg).
Proof. eapply (sends_weaken 0 n P); [lia|done|apply sends_ret]. Qed.
Lemma sends_ok n P : sends n P ok.
Proof. eapply (sends_weaken 0 n P); [lia|done|apply sends_ret]. Qed.

Lemma sends_required n P value name (m : Go (option string)) :
  sends n P m → sends n P (required value name m).
Proof. intros Hm. unfold required. destruct (String.eqb _ _); [apply sends_fails|done]. Qed.

(** How a command asks. *)
Definition method_of (name : string) : string :=
  if String.eqb name "health" then "GET"
  else if bool_decide (name ∈ ["saga-template-update"; "saga-step-template-update"]) then "PUT"
  else if bool_decide (name ∈ ["saga-template-delete"; "saga-step-template-delete"]) then "DELETE"
  else "POST".

(** A request of a command: how, and to the address of the options or else the
    current one. *)
Definition command_request (name : string) (args : list string) (base : string) : HttpRequest → Prop :=
  asks (method_of name) (fl_url (extractFlags base traceId args)).

(** The options are read, and then the command is run for their address. *)
Lemma sends_command name args method (k : Flags → Go (option string)) :
  method_of name = method → (∀ f, sends 1 (λ _, asks method (fl_url f)) (k f)) →
  sends 1 (command_request name args) (f <- flags_of traceId args ;; k f).
Proof.
  intros <- Hk w. destruct (Hk (extractFlags (cw_baseURL w) traceId args) w) as (a & w1 & l & H1 & Hrest).
  exists a, w1, l. split; [exact H1|exact Hrest].
Qed.

#[local] Hint Resolve asks_query asks_change sends_fails : sends.

(** A command that reads options, demands some of them, and sends. *)
Ltac command :=
  eapply sends_command; [reflexivity|]; intros ?; repeat apply sends_required; eauto with sends.

Lemma health_sends args : sends 1 (command_request "health" args) (cmdHealth env traceId args).
Proof.
  eapply sends_command; [reflexivity|]. intros f. apply sends_then; [prints|]. intros _.
  apply sends_with_url, sends_last.
  - eapply sends_weaken; [done| |apply sends_request]. intros b r. apply request_asks.
  - unfold fails, ok. prints.
Qed.

Lemma template_update_sends args :
  sends 1 (command_request "saga-template-update" args) (cmdSagaTemplateUpdate env traceId args).
Proof. command. destruct (template_payload _); eauto with sends. Qed.

Lemma step_template_update_sends args :
  sends 1 (command_request "saga-step-template-update" args) (cmdSagaStepTemplateUpdate env traceId args).
Proof.
  command. cbv zeta. destruct (_ ++ _); [eauto with sends|]. destruct (String.eqb _ _); eauto with sends.
Qed.

(** Two commands have laws of their own. *)
Definition changes_address (name : string) : Prop := name ∈ ["connect"; "executor"].

Lemma commands_send :
  Forall (λ c, changes_address c.1 ∨ ∀ args, sends 1 (command_request c.1 args) (c.2 args)) (commands env traceId).
Proof.
  unfold commands, changes_address. repeat apply Forall_cons_2; cbn [fst snd]; try apply Forall_nil_2.
  all: try (left; set_solver).
  all: right; intros args; eauto using health_sends, template_update_sends, step_template_update_sends.
  all: try (command; fail).
  - unfold cmdHelp. apply sends_then; [apply sends_print_all|]. intros _. apply sends_ok.
  - apply sends_ok.
Qed.

(** Whatever line is typed, its command comes to an end; unless it is [connect]
    or [executor] it sends at most one request, to the address that is given with
    it or else to the current one, which stays as it is, and only the commands
    that change or delete something ask for that. *)
Theorem line_sends_one_request line name args :
  parseCommand line = name :: args → ¬ changes_address name →
  sends 1 (command_request name args) (processCommand env traceId line).
Proof.
  intros Hline Hname. unfold processCommand. rewrite Hline. unfold find_command.
  destruct (List.find _ _) as [c|] eqn:Hfind; [|apply sends_fails].
  apply find_some in Hfind as [Hin Heq%String.eqb_eq].
  pose proof (proj1 (List.Forall_forall _ _) commands_send c Hin) as [Hc|Hc]; subst name; [done|apply Hc].
Qed.

(** A line without words does nothing. *)
Lemma line_without_words line : parseCommand line = [] → sends 0 (λ _ _, False) (processCommand env traceId line).
Proof. intros Hline. unfold processCommand. rewrite Hline. apply sends_ok. Qed.

(** *** Executors *)

(** [cmdExecutor] reads no option of a compensation or of a sub-saga. *)
Lemma executor_config_field args f :
  f ∉ (snd <$> executor_flags) → executor_config args f = "".
Proof.
  intros Hf. unfold executor_config. enough (∀ cfg, cfg f = "" → foldl executor_flag cfg args f = "") as Hall
    by by apply Hall.
  induction args as [|arg args IH]; intros cfg Hcfg; [done|]. cbn [foldl]. apply IH.
  unfold executor_flag. destruct (List.find _ _) as [[name g]|] eqn:Hfind; [|done].
  apply find_some in Hfind as [Hin%list_elem_of_In _]. rewrite insert_other; [done|]. intros ->.
  apply Hf. by apply (list_elem_of_fmap_2 snd _ (name, f)).
Qed.

Lemma sim_mode_refused cfg :
  cfg ExecSimStatus ≠ "" → cfg SubSagaTemplateId = "" → cfg CompSimStatus = "" → cfg CompShell = "" →
  ∃ e, validateExecutorConfig cfg = Ret (Err e).
Proof.
  intros Hs Ht Hc Hsh. unfold validateExecutorConfig.
  destruct (validate_mode cfg) as [c|e] eqn:Hmode; [exfalso|by exists e].
  unfold validate_mode, unset in Hmode. rewrite (proj2 (String.eqb_neq _ _) Hs) in Hmode.
  unfold validate_sim, unset in Hmode. cbv zeta in Hmode. rewrite !(default_to_other ExecSimDelay), Ht, Hc, Hsh in Hmode by done.
  cbn [negb] in Hmode. accepted.
  repeat match goal with x : unit |- _ => destruct x end; accepted.
  destruct (String.eqb (cfg ExecSimStatus) "sub-saga"); done.
Qed.

(** A simulated step cannot be served: [--exec-sim-status] asks for options of
    the compensation or of a sub-saga, of which [cmdExecutor] reads none, so that
    it ends with an error before any executor is started, whatever else is
    given. *)
Theorem simulation_is_refused args :
  executor_config args ExecSimStatus ≠ "" →
  ∃ err, ∀ (env : CliEnv) w, cmdExecutor env args w = (Ret (Some err), w).
Proof.
  intros Hs. unfold cmdExecutor, required, RunExecutor.
  destruct (sim_mode_refused (executor_config args)) as [e He];
    [done|apply executor_config_field; by apply (bool_decide_unpack _)..|]. rewrite He.
  repeat case_match; by (eexists; intros; reflexivity).
Qed.
End commands.

(** ** The history *)

(** A line as the scanner gives it back: no end within, no carriage return at
    the end, not too long. *)
Definition history_line (l : string) : Prop :=
  all_chars (λ c, negb (Ascii.eqb c "010")) l = true ∧ drop_cr l = l ∧ (N.of_nat (String.length l) < max_token)%N.

Lemma unlines_cons l ls : unlines (l :: ls) = l +:+ String "010" (unlines ls).
Proof.
  unfold unlines. destruct ls as [|k ls].
  - cbn [fmap list_fmap]. change (Join [l +:+ newline] "") with (l +:+ newline). done.
  - cbn [fmap list_fmap]. rewrite Join_cons. unfold newline. by rewrite string_app_assoc.
Qed.

Lemma split_lines_unlines ls : Forall history_line ls → split_lines (unlines ls) = ls.
Proof.
  intros Hls. induction Hls as [|l ls (Hl & _ & _) _ IH]; [done|]. rewrite unlines_cons.
  induction l as [|c l IHl].
  - change (split_lines (String "010" (unlines ls)) = "" :: ls). cbn [split_lines]. by rewrite IH.
  - cbn [all_chars] in Hl. apply andb_true_iff in Hl as [Hc%negb_true_iff Hl].
    change (split_lines (String c (l +:+ String "010" (unlines ls))) = String c l :: ls).
    cbn [split_lines]. by rewrite Hc, IHl.
Qed.

Lemma scan_lines_unlines ls : Forall history_line ls → scan_lines (unlines ls) = Some ls.
Proof.
  intros Hls. unfold scan_lines. rewrite split_lines_unlines by done.
  assert (existsb (λ l, (max_token <=? N.of_nat (String.length l))%N) ls = false) as ->.
  { apply not_true_iff_false. rewrite existsb_exists. intros (l & Hin & Hlen).
    rewrite List.Forall_forall in Hls. destruct (Hls l Hin) as (_ & _ & Hlt).
    apply N.leb_le in Hlen. lia. }
  f_equal. induction Hls as [|l ls (_ & Hl & _) _ IH]; [done|]. cbn. by rewrite Hl, IH.
Qed.

(** A history within the limits of the scanner is cut to its last [max] lines,
    and left alone when it has no more; whatever goes wrong, the history itself
    is what it was. *)
Theorem history_is_trimmed max written fails path fs ls :
  Forall history_line ls → fs !! path = Some (unlines ls) →
  let '(err, _, fs') := trim_history max written fails path fs in
  fs' !! path = Some (unlines (match err with
                               | None => drop (length ls - N.to_nat max) ls
                               | Some _ => ls
                               end)) ∧
  ((∀ op, fails op = None) → err = None).
Proof.
  intros Hls Hpath. unfold trim_history. rewrite Hpath, scan_lines_unlines by done.
  assert (path ≠ path +:+ ".tmp") as Htmp.
  { intros Heq. apply (f_equal String.length) in Heq. rewrite length_append in Heq. simpl in Heq. lia. }
  assert (∀ op err, fails op = Some err → ¬ ∀ op, fails op = None) as Hno by (intros op err He Hall; by rewrite Hall in He).
  destruct (fails FOpen) eqn:Ho; [by split; [|intros H%(Hno _ _ Ho)]|].
  destruct (N.of_nat (length ls) <=? max)%N eqn:Hlen.
  { apply N.leb_le in Hlen. split; [|done]. replace (length ls - N.to_nat max) with 0 by lia. done. }
  destruct (fails FCreate) eqn:Hc; [by split; [|intros H%(Hno _ _ Hc)]|].
  destruct (fails FWrite) eqn:Hw; [split; [by rewrite lookup_insert_ne|by intros H%(Hno _ _ Hw)]|].
  destruct (fails FFlush) eqn:Hf; [split; [by rewrite lookup_insert_ne|by intros H%(Hno _ _ Hf)]|].
  destruct (fails FRename) eqn:Hr; [split; [by rewrite lookup_delete_ne|by intros H%(Hno _ _ Hr)]|].
  split; [by rewrite lookup_insert_eq|done].
Qed.

(** One line that is too long for the scanner, and nothing is trimmed any more. *)
Lemma long_line_stops_trimming max written fails path fs content l :
  fs !! path = Some content → l ∈ split_lines content → (max_token ≤ N.of_nat (String.length l))%N →
  ∃ err, trim_history max written fails path fs = (Some err, [], fs).
Proof.
  intros Hpath Hl Hlen. unfold trim_history. rewrite Hpath. destruct (fails FOpen); [by eexists|].
  unfold scan_lines. assert (existsb (λ l, (max_token <=? N.of_nat (String.length l))%N) (split_lines content) = true) as ->.
  { apply existsb_exists. exists l. split; [by apply list_elem_of_In|by apply N.leb_le]. }
  by eexists.
Qed.

Example cleaned_directories :
  history_in "/tmp//" = "/tmp/.traxcli_history" ∧ history_in "a/../.." = "../.traxcli_history" ∧
  history_in "/../x/./y/.." = "/x/.traxcli_history" ∧ history_in "." = ".traxcli_history".
Proof. by vm_compute. Qed.

(** ** Help *)

(** The commands that no line of the help begins with, and those that the
    terminal does not complete. *)
Definition mentioned (name : string) (lines : list string) : bool :=
  existsb (λ l, String.prefix ("  " +:+ name +:+ " ") l) lines.

Example undocumented_commands `{!JsonText, !FloatText} (env : CliEnv) :
  List.filter (λ name, negb (mentioned name help_lines)) (fst <$> commands env "") =
    ["saga-template-update"; "saga-template-delete"; "saga-step-template-update"; "saga-step-template-delete"] ∧
  List.filter (λ name, negb (existsb (String.eqb name) (fst <$> completer))) (fst <$> commands env "") =
    ["saga-template-update"; "saga-template-delete"; "saga-step-template-update"; "saga-step-template-delete";
     "executor"].
Proof. by vm_compute. Qed.
