(* ===== verification/CliUpdate.v ===== *)
(** * What an update of the command line does to a template

    [cmdSagaTemplateUpdate] (pkg/clis/traxcli/main.go), the handler
    [putSagaTemplate] (pkg/daemons/traxctrl) and [UpdateSagaTemplate] of the
    PostgreSQL store, put together: the request has the fields that were named,
    the handler fills in the zero values of the others, and the statement writes
    all of them. *)

From stdpp Require Import gmap strings.
From S2P Require Import Prelude GoMonad Model Naming Json Store PsqlStore Catalogue Integrity.
From S2P Require Import CatalogueSpec Wire.
From S2P Require Import WireSpecs ApiTypes Api ApiSpecs CliService CliServiceSpecs Cli CliSpecs.

Section update.
Context {srv : Server} (int : Interpreter) (range : gmap string string → list (string * string)).
Context `{!JsonText, !JsonTextLaws, !FloatText} (env : CliEnv) (traceId : string).
Context (binding_error : Request → string).
Context (Hquiet : ∀ n, srv_fault srv n = NoFault).
Context (Horder : ∀ n A (l : list A), srv_order srv n A l ≡ₚ l).
#[local] Instance control_update : ControlStore (psqlStore srv) := psql_ControlStore srv int range.
Implicit Types (s : psqlStore srv) (C : Cat).

(** The request [q] for a template, sent to [url], is the request [r] that the
    handler is given. *)
Definition delivered (url : string) (q : HttpRequest) (r : Request) : Prop :=
  hq_url q = url +:+ ("/api/v1/saga-templates/" +:+ rq_Param r "sagaTemplateId") ∧
  rq_body r = hq_body q ≫= parse.

(** What is left of a template: the two texts that can be given. *)
Definition updated_template (id : string) (args : list string) : SagaTemplate :=
  mkSagaTemplate id (rest_option "--display-name=" args) (rest_option "--description=" args) ∅ [] ∅ [].

(** The fields that are not in the body are the zero values. *)
Lemma payload_is_bound args r :
  rq_body r = Some (JObject (template_payload args)) →
  ShouldBindJSON [] r = Some (mkUpdateSagaTemplateRequest (rest_option "--display-name=" args)
    (rest_option "--description=" args) ∅ [] ∅ []).
Proof.
  intros Hr. unfold ShouldBindJSON. rewrite Hr. unfold template_payload, given.
  generalize (rest_option "--description=" args) as d, (rest_option "--display-name=" args) as n. intros d n.
  destruct (String.eqb_spec d ""), (String.eqb_spec n ""); subst; reflexivity.
Qed.

Lemma update_replaces r s C t :
  psql_shows s C → rq_Param r "sagaTemplateId" ≠ "" →
  c_templates C !! rq_Param r "sagaTemplateId" = Some t →
  ∀ req, ShouldBindJSON [] r = Some req →
  answers (putSagaTemplate binding_error r) s 200 None
    (with_templates (<[rq_Param r "sagaTemplateId" := mkSagaTemplate (rq_Param r "sagaTemplateId")
       (utr_DisplayName req) (utr_Description req) (utr_Labels req) (utr_Tags req) (utr_Metadata req)
       (utr_SagaStepTemplateIds req)]> (c_templates C)) C).
Proof.
  intros Hs Hid Ht req Hreq. set (id := rq_Param r "sagaTemplateId") in *.
  set (t' := mkSagaTemplate id _ _ _ _ _ _).
  destruct (law_result Hquiet Horder (UpdateTemplate t') _ _ s C eq_refl Hs I) as (res & s' & Hm & Ha & Hs').
  unfold answers, putSagaTemplate, param_or, bind_or. fold id.
  rewrite (proj2 (String.eqb_neq _ _) Hid), Hreq. fold t'.
  cbn [a_step] in Ha, Hs'. unfold a_change in Ha, Hs'. change (st_TemplateId t') with id in Ha, Hs'.
  rewrite Ht in Ha, Hs'. destruct res as [[]|e]; [|done].
  unfold or_else, bind. cbn [UpdateSagaTemplate control_update psql_ControlStore]. rewrite Hm.
  by eexists _, _.
Qed.

(** [saga-template-update] sends at most one request; when it arrives, the two
    texts are those of the options, be they given or not, and the labels, the
    tags, the metadata and the steps of the template are gone. *)
Theorem update_drops_the_rest args w s C t :
  let f := extractFlags (cw_baseURL w) traceId args in
  fl_id f ≠ "" → printable (JObject (template_payload (fl_rest f))) = true →
  psql_shows s C → c_templates C !! fl_id f = Some t →
  ∃ err w' l, cmdSagaTemplateUpdate env traceId args w = (Ret err, w') ∧
    cw_requests w' = cw_requests w ++ l ∧ length l ≤ 1 ∧
    ∀ q r, q ∈ l → delivered (fl_url f) q r →
      answers (putSagaTemplate binding_error r) s 200 None
        (with_templates (<[fl_id f := updated_template (fl_id f) (fl_rest f)]> (c_templates C)) C).
Proof.
  intros f Hid Hp Hs Ht.
  enough (sends 1 (λ _ q, hq_url q = fl_url f +:+ ("/api/v1/saga-templates/" +:+ fl_id f) ∧
      hq_body q = Some (print (JObject (template_payload (fl_rest f)))))
    (required (fl_id f) "--id" match template_payload (fl_rest f) with
       | [] => fails "at least one of --display-name or --description is required"
       | payload => change env f ("Updating saga template: " +:+ fl_id f) "PUT"
           ("/api/v1/saga-templates/" +:+ fl_id f) (Some (print (JObject payload)))
           ("Saga template '" +:+ fl_id f +:+ "' updated") "Update" end)) as Hsend.
  { destruct (Hsend w) as (err & w' & l & Hrun & _ & Hreq & Hlen & Hall). exists err, w', l.
    split_and!; [exact Hrun|done|done|]. intros q r Hq [Hurl Hbody].
    rewrite List.Forall_forall in Hall. destruct (Hall q) as [Hurl' Hbody']; [by apply list_elem_of_In|].
    rewrite Hurl' in Hurl. apply (inj _), (inj _) in Hurl. rewrite Hbody' in Hbody. simpl in Hbody.
    rewrite parse_print in Hbody by done. rewrite Hurl in Hid, Ht |- *.
    exact (update_replaces r s C t Hs Hid Ht _ (payload_is_bound _ r Hbody)). }
  apply sends_required. destruct (template_payload (fl_rest f)) eqn:Hpay; [apply sends_fails|].
  eapply sends_weaken; [done| |apply sends_change]. by intros b q (_ & Hu & Hb).
Qed.
End update.

(** A template with a step, whose name is changed. *)
Definition named_template : SagaTemplate :=
  mkSagaTemplate "t1" "Old" "About" {["k" := "v"]} ["a"] ∅ ["step1"].
Definition answering_env : CliEnv :=
  mkCliEnv (λ _ _, None) (λ _ _, inl (mkHttpReply 200 "{}" None)) (λ _, None).

Lemma update_drops_the_rest_witness :
  ∃ s : psqlStore calm_server,
    psql_shows s (with_templates {["t1" := named_template]} (mkCat ∅ ∅ ∅)) ∧
    ∃ err w' l, cmdSagaTemplateUpdate answering_env "" ["--id=t1"; "--display-name=New"]
        (mkCliWorld "http://ctl" [] [] 0) = (Ret err, w') ∧
      cw_requests w' = l ∧ length l ≤ 1 ∧
      ∀ q r, q ∈ l → delivered "http://ctl" q r →
        @answers calm_server (@putSagaTemplate _ (psql_ControlStore calm_server sample_int map_to_list) no_error r) s 200 None
          (with_templates {["t1" := mkSagaTemplate "t1" "New" "" ∅ [] ∅ []]} (mkCat ∅ ∅ ∅)).
Proof.
  destruct (law_result (srv := calm_server) (λ _, eq_refl) (λ _ _ _, reflexivity _) (SaveTemplate named_template)
    _ _ (fresh_store calm_server) (mkCat ∅ ∅ ∅) eq_refl) as (res & s & _ & _ & Hs).
  - split; [reflexivity|]. split; [apply fresh_intact|reflexivity].
  - exact I.
  - exists s. split; [exact Hs|].
    destruct (update_drops_the_rest sample_int map_to_list answering_env "" no_error (srv := calm_server)
      (λ _, eq_refl) (λ _ _ _, reflexivity _) ["--id=t1"; "--display-name=New"] (mkCliWorld "http://ctl" [] [] 0)
      s (with_templates {["t1" := named_template]} (mkCat ∅ ∅ ∅)) named_template) as (err & w' & l & Hrun & Hreq & Hlen & Hall).
    + done.
    + vm_compute. reflexivity.
    + exact Hs.
    + reflexivity.
    + exists err, w', l. split; [exact Hrun|]. split; [exact Hreq|]. split; [exact Hlen|exact Hall].
Defined.
