(* ===== verification/CliCommands.v ===== *)
(** * Commands given on the command line

    [cmd/traxcli/cmd/cmd.go] and [executor.go]: which arguments the subcommands
    of [traxcli] make of their flags before the command is put into one line and
    taken apart again (Cli.v), and which flags an executor has.  The parsing of
    the command line into flags is cobra's. *)

From stdpp Require Import numbers gmap functions.
From S2P Require Import Prelude GoMonad Model Naming GoStrings Helpers Json Wire.
From S2P Require Import CliService CliServiceSpecs Cli CliSpecs.
From Stdlib Require Import Strings.Ascii.

(** ** The subcommands *)

(** The flags of the subcommands as cobra has read them. *)
Record CobraFlags := mkCobraFlags {
  cb_url : string;
  cb_id : string;
  cb_clusterId : string;
  cb_sagaTemplateId : string;
  cb_displayName : string;
  cb_description : string;
  cb_json : bool;
  cb_verbose : bool;
}.

(** [if value != "" { finalArgs = append(finalArgs, name+value) }] *)
Definition append_option (name value : string) : list string :=
  if String.eqb value "" then [] else [name +:+ value].
Definition append_switch (name : string) (b : bool) : list string := if b then [name] else [].

Definition append_url (f : CobraFlags) : list string := append_option "--url=" (cb_url f).
Definition append_verbose (f : CobraFlags) : list string := append_switch "--verbose" (cb_verbose f).
Definition append_output (f : CobraFlags) : list string :=
  append_url f ++ append_switch "--json" (cb_json f) ++ append_verbose f.
Definition append_texts (f : CobraFlags) : list string :=
  append_option "--display-name=" (cb_displayName f) ++ append_option "--description=" (cb_description f).

Definition id_arg (f : CobraFlags) : string := "--id=" +:+ cb_id f.
Definition cluster_arg (f : CobraFlags) : string := "--cluster-id=" +:+ cb_clusterId f.

Definition newHealthCommand (f : CobraFlags) : list string := append_url f.
Definition newSagaTemplateCommand (f : CobraFlags) : list string := id_arg f :: append_output f.
Definition newSagaTemplatesCommand (f : CobraFlags) : list string := append_output f.
Definition newSagaTemplateIdsCommand (f : CobraFlags) : list string := append_output f.
Definition newSagaTemplateUpdateCommand (f : CobraFlags) : list string :=
  id_arg f :: append_texts f ++ append_url f ++ append_verbose f.
Definition newSagaTemplateDeleteCommand (f : CobraFlags) : list string :=
  id_arg f :: append_url f ++ append_verbose f.
Definition newSagaStepTemplateUpdateCommand (f : CobraFlags) : list string :=
  id_arg f :: ("--saga-template-id=" +:+ cb_sagaTemplateId f) :: append_texts f ++ append_url f ++ append_verbose f.
Definition newSagaStepTemplateDeleteCommand (f : CobraFlags) : list string :=
  id_arg f :: append_url f ++ append_verbose f.
Definition newSagaInstanceCommand (f : CobraFlags) : list string := id_arg f :: cluster_arg f :: append_output f.
Definition newSagaInstancesCommand (f : CobraFlags) : list string := cluster_arg f :: append_output f.
Definition newSagaInstanceIdsCommand (f : CobraFlags) : list string := cluster_arg f :: append_output f.
Definition newSagaStepInstanceCommand (f : CobraFlags) : list string := id_arg f :: cluster_arg f :: append_output f.
Definition newSagaStepInstancesCommand (f : CobraFlags) : list string := cluster_arg f :: append_output f.
Definition newSagaStepInstanceIdsCommand (f : CobraFlags) : list string := cluster_arg f :: append_output f.

(** Which flags a subcommand has: [true] for those it passes on. *)
Record HasFlags := mkHasFlags {
  hf_id : bool;
  hf_clusterId : bool;
  hf_sagaTemplateId : bool;
  hf_texts : bool;
  hf_json : bool;
  hf_verbose : bool;
}.

(** [NewTraxCli]: the subcommands that end in [RunTraxCliCommandWithTraceId],
    but for [connect], which passes its one argument on. *)
Definition subcommands : list (string * (CobraFlags → list string) * HasFlags) :=
  [("health", newHealthCommand, mkHasFlags false false false false false false);
   ("saga-template", newSagaTemplateCommand, mkHasFlags true false false false true true);
   ("saga-templates", newSagaTemplatesCommand, mkHasFlags false false false false true true);
   ("saga-template-ids", newSagaTemplateIdsCommand, mkHasFlags false false false false true true);
   ("saga-instance", newSagaInstanceCommand, mkHasFlags true true false false true true);
   ("saga-instances", newSagaInstancesCommand, mkHasFlags false true false false true true);
   ("saga-instance-ids", newSagaInstanceIdsCommand, mkHasFlags false true false false true true);
   ("saga-step-instance", newSagaStepInstanceCommand, mkHasFlags true true false false true true);
   ("saga-step-instances", newSagaStepInstancesCommand, mkHasFlags false true false false true true);
   ("saga-step-instance-ids", newSagaStepInstanceIdsCommand, mkHasFlags false true false false true true);
   ("saga-template-update", newSagaTemplateUpdateCommand, mkHasFlags true false false true false true);
   ("saga-template-delete", newSagaTemplateDeleteCommand, mkHasFlags true false false false false true);
   ("saga-step-template-update", newSagaStepTemplateUpdateCommand, mkHasFlags true false true true false true);
   ("saga-step-template-delete", newSagaStepTemplateDeleteCommand, mkHasFlags true false false false false true)].

(** The line that a command and its arguments are put into. *)
Definition command_line (command : string) (args : list string) : string :=
  match args with [] => command | _ => command +:+ " " +:+ Join args " " end.

(** ** What the command is given *)

(** What a command should see of its flags: the address and the trace if given,
    or else the defaults, and the texts among the arguments that are left. *)
Definition intended (baseURL traceId : string) (h : HasFlags) (f : CobraFlags) : Flags :=
  let has (b : bool) v := if b then v else "" in
  mkFlags (or_default (cb_url f) baseURL) traceId (has (hf_id h) (cb_id f)) (has (hf_clusterId h) (cb_clusterId f))
    (hf_json h && cb_json f) (hf_verbose h && cb_verbose f)
    ((if hf_sagaTemplateId h then ["--saga-template-id=" +:+ cb_sagaTemplateId f] else []) ++
     (if hf_texts h then append_texts f else [])).

(** A value without blanks and quotes. *)
Definition plain_value (s : string) : Prop := all_chars plain_char s = true.
Definition plain_flags (f : CobraFlags) : Prop :=
  plain_value (cb_url f) ∧ plain_value (cb_id f) ∧ plain_value (cb_clusterId f) ∧
  plain_value (cb_sagaTemplateId f) ∧ plain_value (cb_displayName f) ∧ plain_value (cb_description f).

Lemma plain_arg name v : plain_word name = true → plain_value v → plain_word (name +:+ v) = true.
Proof.
  unfold plain_word, plain_value. intros [Hne Hn]%andb_true_iff Hv. rewrite all_chars_app, Hn, Hv.
  by destruct name.
Qed.

Lemma plain_option name v :
  plain_word name = true → plain_value v → Forall (λ w, plain_word w = true) (append_option name v).
Proof. intros Hn Hv. unfold append_option. destruct (String.eqb v ""); repeat constructor. by apply plain_arg. Qed.

Lemma plain_switch name b : plain_word name = true → Forall (λ w, plain_word w = true) (append_switch name b).
Proof. intros Hn. destruct b; by repeat constructor. Qed.

Lemma plain_subcommand c f :
  c ∈ subcommands → plain_flags f → Forall (λ w, plain_word w = true) (c.1.1 :: c.1.2 f).
Proof.
  intros Hc (Hu & Hi & Hcl & Ht & Hn & Hd).
  assert (Hid : plain_word (id_arg f) = true) by by apply plain_arg.
  assert (Hcluster : plain_word (cluster_arg f) = true) by by apply plain_arg.
  assert (Htid : plain_word ("--saga-template-id=" +:+ cb_sagaTemplateId f) = true) by by apply plain_arg.
  assert (Hurl : Forall (λ w, plain_word w = true) (append_url f)) by by apply plain_option.
  assert (Hverb : Forall (λ w, plain_word w = true) (append_verbose f)) by by apply plain_switch.
  assert (Htexts : Forall (λ w, plain_word w = true) (append_texts f)) by (apply Forall_app; split; by apply plain_option).
  assert (Hout : Forall (λ w, plain_word w = true) (append_output f)).
  { apply Forall_app. split; [done|]. apply Forall_app. split; [by apply plain_switch|done]. }
  unfold subcommands in Hc. rewrite !elem_of_cons, elem_of_nil in Hc.
  destruct_or! Hc; subst c; try done; cbn [fst snd]; constructor; try reflexivity.
  all: unfold newHealthCommand, newSagaTemplateCommand, newSagaTemplatesCommand, newSagaTemplateIdsCommand,
    newSagaTemplateUpdateCommand, newSagaTemplateDeleteCommand, newSagaStepTemplateUpdateCommand,
    newSagaStepTemplateDeleteCommand, newSagaInstanceCommand, newSagaInstancesCommand, newSagaInstanceIdsCommand,
    newSagaStepInstanceCommand, newSagaStepInstancesCommand, newSagaStepInstanceIdsCommand;
    repeat first [assumption | apply Forall_cons; split | apply Forall_app; split].
Qed.

Lemma option_value_app name v : option_value name (name +:+ v) = Some v.
Proof.
  unfold option_value, TrimPrefix.
  assert (String.prefix name (name +:+ v) = true) as ->.
  { induction name as [|c name IH]; [by destruct v|].
    change (String c name +:+ v) with (String c (name +:+ v)). cbn [String.prefix].
    destruct (ascii_dec c c); [exact IH|done]. }
  f_equal. induction name as [|c name IH]; [by destruct v|]. exact IH.
Qed.

Lemma add_url f v : add_flag f ("--url=" +:+ v) =
  mkFlags v (fl_traceId f) (fl_id f) (fl_clusterId f) (fl_json f) (fl_verbose f) (fl_rest f).
Proof. unfold add_flag. by rewrite option_value_app. Qed.
Lemma add_id f v : add_flag f ("--id=" +:+ v) =
  mkFlags (fl_url f) (fl_traceId f) v (fl_clusterId f) (fl_json f) (fl_verbose f) (fl_rest f).
Proof. unfold add_flag. by rewrite (option_value_app "--id="). Qed.
Lemma add_cluster f v : add_flag f ("--cluster-id=" +:+ v) =
  mkFlags (fl_url f) (fl_traceId f) (fl_id f) v (fl_json f) (fl_verbose f) (fl_rest f).
Proof. unfold add_flag. by rewrite (option_value_app "--cluster-id="). Qed.

(** What stands in the remaining arguments. *)
Definition rest_of (f : Flags) (args : list string) : Flags :=
  mkFlags (fl_url f) (fl_traceId f) (fl_id f) (fl_clusterId f) (fl_json f) (fl_verbose f) (fl_rest f ++ args).

Lemma add_name f v : add_flag f ("--display-name=" +:+ v) = rest_of f ["--display-name=" +:+ v].
Proof. reflexivity. Qed.
Lemma add_description f v : add_flag f ("--description=" +:+ v) = rest_of f ["--description=" +:+ v].
Proof. reflexivity. Qed.
Lemma add_template f v : add_flag f ("--saga-template-id=" +:+ v) = rest_of f ["--saga-template-id=" +:+ v].
Proof. reflexivity. Qed.
Lemma rest_of_app f a b : rest_of (rest_of f a) b = rest_of f (a ++ b).
Proof. unfold rest_of. cbn. by rewrite app_assoc. Qed.
Lemma rest_of_nil f : rest_of f [] = f.
Proof. unfold rest_of. rewrite app_nil_r. by destruct f. Qed.

Lemma add_texts f cf : foldl add_flag f (append_texts cf) = rest_of f (append_texts cf).
Proof.
  unfold append_texts, append_option.
  destruct (String.eqb (cb_displayName cf) ""), (String.eqb (cb_description cf) ""); cbn [app foldl];
    rewrite ?add_name, ?add_description, ?rest_of_app, ?rest_of_nil; reflexivity.
Qed.

Lemma add_append_url f cf : foldl add_flag f (append_url cf) =
  mkFlags (if String.eqb (cb_url cf) "" then fl_url f else cb_url cf) (fl_traceId f) (fl_id f) (fl_clusterId f)
    (fl_json f) (fl_verbose f) (fl_rest f).
Proof.
  unfold append_url, append_option. destruct (String.eqb (cb_url cf) ""); [by destruct f|]. apply add_url.
Qed.

Lemma add_append_verbose f cf : foldl add_flag f (append_verbose cf) =
  mkFlags (fl_url f) (fl_traceId f) (fl_id f) (fl_clusterId f) (fl_json f) (fl_verbose f || cb_verbose cf) (fl_rest f).
Proof.
  unfold append_verbose, append_switch. destruct (cb_verbose cf).
  - by rewrite orb_true_r.
  - rewrite orb_false_r. by destruct f.
Qed.

Lemma add_append_output f cf : foldl add_flag f (append_output cf) =
  mkFlags (if String.eqb (cb_url cf) "" then fl_url f else cb_url cf) (fl_traceId f) (fl_id f) (fl_clusterId f)
    (fl_json f || cb_json cf) (fl_verbose f || cb_verbose cf) (fl_rest f).
Proof.
  unfold append_output. rewrite !foldl_app, add_append_url, add_append_verbose. unfold append_switch.
  destruct (cb_json cf); cbn [foldl]; by rewrite ?orb_true_r, ?orb_false_r.
Qed.

Lemma flags_of_subcommand c f baseURL traceId :
  c ∈ subcommands → extractFlags baseURL traceId (c.1.2 f) = intended baseURL traceId c.2 f.
Proof.
  intros Hc. unfold extractFlags.
  assert (Hurl : or_default (if String.eqb (cb_url f) "" then "" else cb_url f) baseURL = or_default (cb_url f) baseURL).
  { destruct (String.eqb_spec (cb_url f) "") as [->|]; reflexivity. }
  unfold subcommands in Hc. rewrite !elem_of_cons, elem_of_nil in Hc.
  destruct_or! Hc; subst c; try done; cbn [fst snd];
    unfold newHealthCommand, newSagaTemplateCommand, newSagaTemplatesCommand, newSagaTemplateIdsCommand,
    newSagaTemplateUpdateCommand, newSagaTemplateDeleteCommand, newSagaStepTemplateUpdateCommand,
    newSagaStepTemplateDeleteCommand, newSagaInstanceCommand, newSagaInstancesCommand, newSagaInstanceIdsCommand,
    newSagaStepInstanceCommand, newSagaStepInstancesCommand, newSagaStepInstanceIdsCommand, id_arg, cluster_arg.
  all: cbn [foldl app]; rewrite ?foldl_app, ?add_id, ?add_cluster, ?add_template, ?add_texts, ?add_append_output,
    ?add_append_verbose, ?add_append_url.
  all: unfold rest_of, intended;
    cbn [fl_url fl_traceId fl_id fl_clusterId fl_json fl_verbose fl_rest orb andb app
         hf_id hf_clusterId hf_sagaTemplateId hf_texts hf_json hf_verbose];
    rewrite ?Hurl; try reflexivity.
Qed.

(** A subcommand whose values have no blanks and quotes comes to the command it
    is for, with the flags it was given: nothing is lost on the way through the
    line. *)
Theorem subcommand_gets_its_flags `{!JsonText, !FloatText} (env : CliEnv) baseURL traceId c f :
  c ∈ subcommands → plain_flags f →
  extractFlags baseURL traceId (c.1.2 f) = intended baseURL traceId c.2 f ∧
  ∃ run, (c.1.1, run) ∈ commands env traceId ∧
    processCommand env traceId (command_line c.1.1 (c.1.2 f)) = run (c.1.2 f).
Proof.
  intros Hc Hf. split; [by apply flags_of_subcommand|].
  assert (∃ run, (c.1.1, run) ∈ commands env traceId ∧ find_command env traceId c.1.1 = Some run) as (run & Hin & Hfind).
  { clear Hf. unfold subcommands in Hc. rewrite !elem_of_cons, elem_of_nil in Hc.
    destruct_or! Hc; subst c; try done; cbn [fst]; eexists; (split; [|reflexivity]); unfold commands; set_solver. }
  exists run. split; [done|]. unfold processCommand, command_line.
  rewrite (plain_words_come_through _ _ (plain_subcommand c f Hc Hf)). by rewrite Hfind.
Qed.

(** The display name that an update sends. *)
Definition updated_name (f : CobraFlags) : string :=
  rest_option "--display-name="
    (fl_rest (extractFlags "" "" (tail (parseCommand (command_line "saga-template-update" (newSagaTemplateUpdateCommand f)))))).

(** A text of several words is cut after the first of them, without an error. *)
Example second_word_is_lost :
  let f := mkCobraFlags "" "t1" "" "" "New Name" "" false false in
  parseCommand (command_line "saga-template-update" (newSagaTemplateUpdateCommand f)) =
    ["saga-template-update"; "--id=t1"; "--display-name=New"; "Name"] ∧
  updated_name f = "New".
Proof. by vm_compute. Qed.

(** ** The executor *)

(** The flags of [newExecutorCommand]. *)
Definition newExecutorCommand_flags : list (string * ConfigField) :=
  [("trax-cluster-id", TraxClusterId); ("rabbitmq-url", RabbitmqURL); ("saga-template-id", SagaTemplateId);
   ("saga-step-template-id", SagaStepTemplateId);
   ("exec-sim-status", ExecSimStatus); ("exec-sim-delay", ExecSimDelay); ("exec-sim-error", ExecSimError);
   ("exec-sim-result", ExecSimResult);
   ("comp-sim-status", CompSimStatus); ("comp-sim-delay", CompSimDelay); ("comp-sim-error", CompSimError);
   ("comp-sim-result", CompSimResult);
   ("exec-shell", ExecShell); ("exec-shell-predelay", ExecShellPreDelay);
   ("exec-shell-postdelay", ExecShellPostDelay); ("comp-shell", CompShell);
   ("comp-shell-predelay", CompShellPreDelay); ("comp-shell-postdelay", CompShellPostDelay);
   ("sub-saga-template-id", SubSagaTemplateId); ("traxctrl-url", TraxCtrlURL);
   ("mq-event-pub-node", MqEventPubNode); ("idempotency-storage-backend", IdempotencyBackend);
   ("redis-addr", RedisURL); ("pgsql-url", PgsqlURL)].

Definition required_flags : list string :=
  ["trax-cluster-id"; "rabbitmq-url"; "saga-template-id"; "saga-step-template-id"].

(** The flags that were given, in their order; cobra refuses what is not a flag
    and a command without those that are required. *)
Definition bind_flag (cfg : ExecutorConfig) (given : string * string) : option ExecutorConfig :=
  match List.find (λ p, String.eqb p.1 given.1) newExecutorCommand_flags with
  | Some (_, f) => Some (<[f := given.2]> cfg)
  | None => None
  end.
Definition newExecutorCommand (given : list (string * string)) : option ExecutorConfig :=
  if forallb (λ name, existsb (λ g, String.eqb g.1 name) given) required_flags
  then foldl (λ cfg g, cfg ← cfg; bind_flag cfg g) (Some no_config) given
  else None.

(** Every option has one flag, unlike in [cmdExecutor]. *)
Lemma every_option_has_a_flag f : length (List.filter (λ p, bool_decide (p.2 = f)) newExecutorCommand_flags) = 1.
Proof. by destruct f. Qed.

(** The options of [cmdExecutor] that have no flag, or one by another name. *)
Example other_names :
  List.filter (λ p, negb (existsb (λ q, String.eqb p.1 ("--" +:+ q.1 +:+ "=") && bool_decide (p.2 = q.2))
    newExecutorCommand_flags)) executor_flags = [("--redis-url=", RedisURL)].
Proof. by vm_compute. Qed.

Definition example_flags (more : list (string * string)) : list (string * string) :=
  [("trax-cluster-id", "my_cluster"); ("rabbitmq-url", "amqp://localhost:5672");
   ("saga-template-id", "process_new_instrument_authorization"); ("saga-step-template-id", "deploy_contract")] ++ more.

(** A text that reads the braces of the examples. *)
#[local] Instance example_text : JsonText := {| print _ := ""; parse _ := Some (JObject []) |}.

(** None of the examples that the command documents starts an executor: those
    in simulation mode ask for a compensation, and the one in shell mode panics
    because no backend is named. *)
Example documented_examples_fail :
  let run more := match newExecutorCommand (example_flags more) with
                  | Some cfg => match validateExecutorConfig cfg with
                                | Ret (Err e) => Some (error_text e)
                                | Panic msg => Some msg
                                | _ => None
                                end
                  | None => Some "flags"
                  end in
  let no_compensation := Some ("either compensation simulation mode (--comp-sim-status) or compensation shell mode (--comp-shell) must be specified") in
  run [("exec-sim-status", "ok"); ("exec-sim-delay", "1s"); ("exec-sim-result", "{}")] = no_compensation ∧
  run [("exec-sim-status", "ok"); ("exec-sim-result", "{}")] = no_compensation ∧
  run [("exec-sim-status", "error"); ("exec-sim-delay", "500ms"); ("exec-sim-error", "{}")] = no_compensation ∧
  run [("exec-shell", "echo 'Deploying contract...'")] = Some "CRITICAL: --idempotency-storage-backend is REQUIRED. " ∧
  run [("exec-sim-status", "ok"); ("exec-sim-delay", "1s"); ("exec-sim-result", "{}");
       ("idempotency-storage-backend", "redis"); ("redis-addr", "localhost:6379")] = no_compensation.
Proof. vm_compute. repeat split; reflexivity. Qed.
