(* ===== verification/Templates.v ===== *)
(** * Templates put into the database by the command line

    [cmd/traxcli/cmd/template.go]: the statements with which [traxcli template]
    writes templates and their steps past the store, one by one and without a
    transaction; an error ends the process.  The identifiers are put into the
    text of a JSON array as they are; those that occur need no escapes, so the
    row has the list. *)

From S2P Require Import Prelude GoMonad Model Naming GoStrings Database Store PsqlStore Catalogue.
From S2P Require Import Integrity.
From S2P Require Import CatalogueSpec.
Local Open Scope go_scope.

(** ** Statements *)

(** [INSERT ... ON CONFLICT (template_id) DO UPDATE SET updated_at = NOW()]: a
    row that is there keeps everything that the model has of it. *)
Definition sql_put_template (t : SagaTemplate) (d : DB) : result DB :=
  match db_saga_templates d !! st_TemplateId t with
  | Some _ => Ok d
  | None => sql_insert_template t d
  end.

Definition sql_put_step_template (x : SagaStepTemplate) (d : DB) : result DB :=
  match db_saga_step_templates d !! sst_TemplateId x with
  | Some _ => Ok d
  | None => sql_insert_step_template x d
  end.

Inductive Put :=
  | PutTemplate (t : SagaTemplate)
  | PutStep (x : SagaStepTemplate).

Definition sql_put (p : Put) : DB → result DB :=
  match p with PutTemplate t => sql_put_template t | PutStep x => sql_put_step_template x end.

(** [createSagaTemplate] and [createSevenStepTemplate] *)

Definition test_labels : gmap string string := {["test" := "e2e"]}.

(** [i]: the number of the step before. *)
Fixpoint step_puts (templateID : string) (i : nat) (stepIDs stepDisplayNames : list string) : list Put :=
  match stepIDs with
  | [] => []
  | stepID :: stepIDs =>
      let name := match stepDisplayNames with
                  | name :: _ => name
                  | [] => "Step " +:+ FormatInt (Z.of_nat (i + 1))
                  end in
      PutStep (mkSagaStepTemplate stepID templateID name
        ("Step " +:+ FormatInt (Z.of_nat (i + 1)) +:+ " of " +:+ templateID) test_labels ["e2e"; "test"]
        {["index" := FormatInt (Z.of_nat (i + 1))]})
      :: step_puts templateID (i + 1) stepIDs (tail stepDisplayNames)
  end.

Definition createSagaTemplate (templateID displayName description : string)
    (stepIDs stepDisplayNames : list string) : list Put :=
  PutTemplate (mkSagaTemplate templateID displayName description (<["category" := "compensation"]> test_labels)
    ["e2e"; "test"; "compensation"] ∅ stepIDs)
  :: step_puts templateID 0 stepIDs stepDisplayNames.

Definition seven_step_id (i : nat) : string := "step" +:+ FormatInt (Z.of_nat i) +:+ "_sleep_1000ms".

Definition createSevenStepTemplate : list Put :=
  PutTemplate (mkSagaTemplate "seven_step_sleep_saga" "Seven Step Sleep Saga"
    "E2E test saga with 7 steps, each sleeping 1000ms" test_labels ["e2e"; "test"; "seven-step"] ∅
    ["step1_sleep_1000ms"; "step2_sleep_1000ms"; "step3_sleep_1000ms"; "step4_sleep_1000ms";
     "step5_sleep_1000ms"; "step6_sleep_1000ms"; "step7_sleep_1000ms"])
  :: ((λ i, PutStep (mkSagaStepTemplate (seven_step_id i) "seven_step_sleep_saga"
        ("Step " +:+ FormatInt (Z.of_nat i) +:+ " (Sleep 1000ms)")
        ("E2E test step " +:+ FormatInt (Z.of_nat i) +:+ " - sleeps for 1000ms and returns success")
        test_labels ["e2e"; "test"; "step"] {["index" := FormatInt (Z.of_nat i)]})) <$> seq 1 7).

Definition createCompensationTestTemplates : list Put :=
  createSagaTemplate "comp_fail_last_saga" "Compensation: Fail at Last Step"
    "3-step saga where last step fails, triggering compensation of completed steps"
    ["cfl_step1"; "cfl_step2"; "cfl_step3"] ["Step 1 (succeed)"; "Step 2 (succeed)"; "Step 3 (fail)"] ++
  createSagaTemplate "comp_fail_first_saga" "Compensation: Fail at First Step"
    "3-step saga where first step fails, nothing to compensate"
    ["cff_step1"; "cff_step2"; "cff_step3"] ["Step 1 (fail)"; "Step 2 (succeed)"; "Step 3 (succeed)"] ++
  createSagaTemplate "comp_blocked_saga" "Compensation: Blocked (compensation failure)"
    "3-step saga where last step fails and first step compensation also fails → BLOCKED"
    ["cbl_step1"; "cbl_step2"; "cbl_step3"]
    ["Step 1 (succeed, comp fail)"; "Step 2 (succeed, comp ok)"; "Step 3 (fail)"].

Definition createSubSagaTestTemplates : list Put :=
  createSagaTemplate "d3ok_l1_saga" "Deep3 Level 1 (success)" "Level 1: step1 ok, step2 spawns d3ok_l2_saga"
    ["d3ok_l1s1"; "d3ok_l1_spawn"] ["L1 Step 1"; "L1 Spawn L2"] ++
  createSagaTemplate "d3ok_l2_saga" "Deep3 Level 2 (success)" "Level 2: step1 ok, step2 spawns d3ok_l3_saga"
    ["d3ok_l2s1"; "d3ok_l2_spawn"] ["L2 Step 1"; "L2 Spawn L3"] ++
  createSagaTemplate "d3ok_l3_saga" "Deep3 Level 3 (leaf, success)" "Level 3 leaf: both steps succeed"
    ["d3ok_l3s1"; "d3ok_l3s2"] ["L3 Step 1"; "L3 Step 2"] ++
  createSagaTemplate "d4f_l1_saga" "Deep4 Level 1 (failure chain)" "Level 1: step1 ok, step2 spawns d4f_l2_saga"
    ["d4f_l1s1"; "d4f_l1_spawn"] ["L1 Step 1"; "L1 Spawn L2"] ++
  createSagaTemplate "d4f_l2_saga" "Deep4 Level 2 (failure chain)" "Level 2: step1 ok, step2 spawns d4f_l3_saga"
    ["d4f_l2s1"; "d4f_l2_spawn"] ["L2 Step 1"; "L2 Spawn L3"] ++
  createSagaTemplate "d4f_l3_saga" "Deep4 Level 3 (failure chain)" "Level 3: step1 ok, step2 spawns d4f_l4_saga"
    ["d4f_l3s1"; "d4f_l3_spawn"] ["L3 Step 1"; "L3 Spawn L4"] ++
  createSagaTemplate "d4f_l4_saga" "Deep4 Level 4 (leaf, fails)"
    "Level 4 leaf: step1 ok, step2 fails → triggers cascading compensation"
    ["d4f_l4s1"; "d4f_l4s2_err"] ["L4 Step 1"; "L4 Step 2 (fail)"].

(** ** Running them *)

Section run.
Context {srv : Server}.
#[local] Notation Sql := (M (psqlStore srv)).

(** [db.Exec] for each, and [common.L.Fatal] at the first error. *)
Fixpoint exec_each (l : list Put) : Sql (result unit) :=
  match l with
  | [] => ret (Ok tt)
  | p :: l =>
      _ <-? exec_update (λ _, sql_put p)
      else e => ret (Err (Errorf match p with
                                 | PutTemplate _ => "Failed to create saga template"
                                 | PutStep _ => "Failed to create step template"
                                 end)) ;;
      exec_each l
  end.
End run.

(** ** What they do to the catalogue *)

(** A row that is there stays as it is. *)
Definition put_row {A} (m : gmap string A) (id : string) (a : A) : gmap string A :=
  match m !! id with Some _ => m | None => <[id := a]> m end.

Definition a_put (p : Put) (C : Cat) : Cat :=
  match p with
  | PutTemplate t => with_templates (put_row (c_templates C) (st_TemplateId t) t) C
  | PutStep x => with_step_templates (put_row (c_step_templates C) (sst_TemplateId x) x) C
  end.
Definition a_puts (l : list Put) (C : Cat) : Cat := foldl (flip a_put) C l.

(** The row of a statement is there, be it that of the statement or not. *)
Definition present (p : Put) (C : Cat) : Prop :=
  match p with
  | PutTemplate t => is_Some (c_templates C !! st_TemplateId t)
  | PutStep x => is_Some (c_step_templates C !! sst_TemplateId x)
  end.

(** Before a step comes its template. *)
Fixpoint in_order (templates : list string) (l : list Put) : bool :=
  match l with
  | [] => true
  | PutTemplate t :: l => in_order (st_TemplateId t :: templates) l
  | PutStep x :: l => existsb (String.eqb (sst_SagaTemplateId x)) templates && in_order templates l
  end.

Lemma put_row_is_Some {A} (m : gmap string A) id a i : is_Some (m !! i) → is_Some (put_row m id a !! i).
Proof.
  intros H. unfold put_row. destruct (m !! id) eqn:Hid; [done|]. apply lookup_insert_is_Some.
  destruct (decide (id = i)); auto.
Qed.

Lemma put_row_present {A} (m : gmap string A) id a : is_Some (put_row m id a !! id).
Proof. unfold put_row. destruct (m !! id) eqn:Hid; [by rewrite Hid|]. by rewrite lookup_insert_eq. Qed.

Lemma present_mono p q C : present p C → present p (a_put q C).
Proof. destruct p, q; simpl; auto using put_row_is_Some. Qed.

Lemma present_put p C : present p (a_put p C).
Proof. destruct p; simpl; apply put_row_present. Qed.

Lemma put_present p C : present p C → a_put p C = C.
Proof. destruct p, C; simpl; intros [a Ha]; unfold put_row; simpl in *; by rewrite Ha. Qed.

Lemma presents_mono p l C : present p C → present p (a_puts l C).
Proof. revert C. induction l as [|q l IH]; intros C H; [done|]. by apply IH, present_mono. Qed.

Lemma presents_puts l C : Forall (λ p, present p (a_puts l C)) l.
Proof.
  revert C. induction l as [|q l IH]; intros C; constructor; [|apply IH].
  exact (presents_mono q l (a_put q C) (present_put q C)).
Qed.

Lemma puts_present l C : Forall (λ p, present p C) l → a_puts l C = C.
Proof. induction 1 as [|p l Hp _ IH]; [done|]. cbn. unfold flip. by rewrite put_present. Qed.

(** Running a beginning of the statements first makes no difference. *)
Lemma puts_resume l l' C : a_puts (l ++ l') (a_puts l C) = a_puts (l ++ l') C.
Proof. unfold a_puts. rewrite !foldl_app. f_equal. apply puts_present, presents_puts. Qed.

(** ** The statements do that *)

Lemma sound_put p : sound_update (sql_put p).
Proof.
  destruct p as [t|x]; intros d d' W; simpl.
  - unfold sql_put_template. destruct (_ !! _); [by intros [= <-]|by apply sound_insert_template].
  - unfold sql_put_step_template. destruct (_ !! _); [by intros [= <-]|by apply sound_insert_step_template].
Qed.

(** The template of a step is there. *)
Definition admits_put (p : Put) (C : Cat) : Prop :=
  match p with PutTemplate _ => True | PutStep x => is_Some (c_templates C !! sst_SagaTemplateId x) end.

Lemma put_runs p d :
  admits_put p (cat_of d) →
  ∃ d', sql_put p d = Ok d' ∧ cat_of d' = a_put p (cat_of d) ∧ db_notifications d' = db_notifications d.
Proof.
  destruct p as [t|x]; simpl.
  - intros _. unfold sql_put_template, put_row, sql_insert_template.
    destruct (db_saga_templates d !! st_TemplateId t) eqn:Ht; eexists; split_and!; reflexivity.
  - intros [u Hu]. unfold sql_put_step_template, put_row, sql_insert_step_template. simpl in Hu. rewrite Hu.
    destruct (db_saga_step_templates d !! sst_TemplateId x) eqn:Hx; eexists; split_and!; reflexivity.
Qed.

Section laws.
Context {srv : Server} (Hquiet : ∀ n, srv_fault srv n = NoFault).
Implicit Types (s : psqlStore srv) (C : Cat).

Lemma exec_each_law l : ∀ templates s C,
  in_order templates l = true → (∀ id, id ∈ templates → is_Some (c_templates C !! id)) →
  psql_shows s C →
  wp (exec_each l) (returns (λ r s', r = Ok tt ∧ psql_shows s' (a_puts l C) ∧
    db_notifications (ps_db s') = db_notifications (ps_db s))) s.
Proof.
  induction l as [|p l IH]; intros templates s C Hord Htp Hs; [by apply wp_ret|].
  destruct Hs as (Ht & Hw & <-).
  assert (Hadm : admits_put p (cat_of (ps_db s))).
  { destruct p as [t|x]; [done|]. simpl in Hord |- *. apply andb_true_iff in Hord as [Hex _].
    apply existsb_exists in Hex as (id & Hin%list_elem_of_In & ->%String.eqb_eq). by apply Htp. }
  destruct (put_runs p _ Hadm) as (d & Hd & Hcat & Hn). cbn [exec_each].
  apply wp_or_else, (wp_exec_update_idle Hquiet); [done|]. rewrite Hd.
  eapply wp_mono; [|eapply (IH (match p with PutTemplate t => st_TemplateId t :: templates | PutStep _ => templates end)
    (after s d) (a_put p (cat_of (ps_db s))))].
  - intros [r| |] s'; [|done..]. intros (-> & Hsh & Hn'). split_and!; [done|exact Hsh|].
    rewrite Hn'. exact Hn.
  - destruct p; [exact Hord|]. simpl in Hord. by apply andb_true_iff in Hord as [_ Hord].
  - intros id Hid. destruct p as [t|x]; simpl.
    + apply elem_of_cons in Hid as [->|Hid]; [apply put_row_present|by apply put_row_is_Some, Htp].
    + by apply Htp.
  - split; [done|]. split; [|exact Hcat]. by eapply (sound_put p).
Qed.
End laws.

(** ** Runs that are cut short *)

(** A statement outside of transactions on any server: what it does is done or
    not, and done when it answers. *)
Lemma wp_exec_update_any {srv : Server} (f : Z → DB → result DB) (Q : result unit → psqlStore srv → Prop) s :
  ps_tx s = None →
  (∀ d, f (srv_now srv (ps_n s)) (ps_db s) = Ok d → Q (Ok tt) (after s d) ∧ ∀ e, Q (Err e) (after s d)) →
  (∀ e, Q (Err e) (after s (ps_db s))) →
  wp (exec_update f) (returns Q) s.
Proof.
  intros Ht Hok Herr. unfold wp, exec_update, exec, bind, get_state, ask, set_db, modify, error, ret. simpl.
  rewrite Ht. unfold result_map. destruct (srv_fault srv (ps_n s)) eqn:Hf, (f _ _) as [d|e] eqn:Hd; simpl;
    first [apply Herr | apply (Hok d eq_refl)].
Qed.

(** On any server the statements that were executed are a beginning, all of them
    when there was no error. *)
Lemma exec_each_beginning {srv : Server} l : ∀ (s : psqlStore srv) C, psql_shows s C →
  wp (exec_each l) (returns (λ r s', ∃ k, psql_shows s' (a_puts (take k l) C) ∧
    (r = Ok tt → k = length l))) s.
Proof.
  induction l as [|p l IH]; intros s C Hs; [apply wp_ret; by exists 0|].
  assert (Hstop : ∀ e : goerror, psql_shows (after s (ps_db s)) (a_puts (take 0 (p :: l)) C) ∧
    (Err e = Ok tt → 0 = length (p :: l))) by (intros e; split; [exact Hs|done]).
  destruct Hs as (Ht & Hw & <-). cbn [exec_each].
  apply wp_or_else, wp_exec_update_any; [done| |intros e; apply wp_ret; exists 0; apply Hstop].
  intros d Hd.
  assert (Hafter : psql_shows (after s d) (a_put p (cat_of (ps_db s)))).
  { split; [done|]. split; [by eapply (sound_put p)|]. simpl. destruct p as [t|x]; simpl in *.
    - unfold sql_put_template, sql_insert_template, put_row in *. simpl.
      destruct (db_saga_templates _ !! _) eqn:E; injection Hd as <-; reflexivity.
    - unfold sql_put_step_template, sql_insert_step_template, put_row in *. simpl.
      destruct (db_saga_step_templates _ !! _) eqn:E; [by injection Hd as <-|].
      destruct (db_saga_templates _ !! _); [|done]. by injection Hd as <-. }
  split; [|intros e; apply wp_ret; exists 1; split; [exact Hafter|done]].
  eapply wp_mono; [|apply (IH _ _ Hafter)]. intros [r| |] s'; [|done..].
  intros (k & Hk & Hr). exists (S k). split; [exact Hk|]. intros Hok. cbn. by rewrite (Hr Hok).
Qed.

(** A run that an error or a lost connection has cut short is finished by
    running the command again, as if it had never been cut short: the second run
    adds what is missing, leaves alone what is there, whatever its steps, and
    tells no coordinator. *)
Theorem interrupted_creation_is_resumed {srv : Server} l (s : psqlStore srv) C :
  in_order [] l = true → psql_shows s C →
  wp (exec_each l) (returns (λ _ s1, ∀ (srv' : Server) (s2 : psqlStore srv'),
    (∀ n, srv_fault srv' n = NoFault) → ps_tx s2 = None → ps_db s2 = ps_db s1 →
    wp (exec_each l) (returns (λ r s3, r = Ok tt ∧ psql_shows s3 (a_puts l C) ∧
      db_notifications (ps_db s3) = db_notifications (ps_db s2))) s2)) s.
Proof.
  intros Hord Hs. eapply wp_mono; [|by apply exec_each_beginning].
  intros [r| |] s1; [|done..]. intros (k & (_ & Hw & Hcat) & _) srv' s2 Hquiet Ht Hdb.
  eapply wp_mono; [|eapply (exec_each_law Hquiet l [] s2 (a_puts (take k l) C)); [done|by intros id ?%not_elem_of_nil|]].
  - intros [r'| |] s3; [|done..]. intros (-> & Hsh & Hn). split_and!; [done| |done].
    rewrite <-(take_drop k l), puts_resume, take_drop in Hsh at 1. exact Hsh.
  - split; [done|]. by rewrite Hdb.
Qed.

(** The rows of the three commands come in order; on an empty catalogue every
    template ends up with the steps it names, and every step with its template. *)
Definition complete (C : Cat) : bool :=
  forallb (λ t, forallb (λ id, match c_step_templates C !! id with
                               | Some x => String.eqb (sst_SagaTemplateId x) (st_TemplateId t)
                               | None => false
                               end) (st_SagaStepTemplateIds t)) (map_to_list (c_templates C)).*2 &&
  forallb (λ x, match c_templates C !! sst_SagaTemplateId x with
                | Some t => existsb (String.eqb (sst_TemplateId x)) (st_SagaStepTemplateIds t)
                | None => false
                end) (map_to_list (c_step_templates C)).*2.

Example created_templates_are_complete :
  Forall (λ l, in_order [] l = true ∧ complete (a_puts l (mkCat ∅ ∅ ∅)) = true)
    [createSevenStepTemplate; createCompensationTestTemplates; createSubSagaTestTemplates].
Proof. repeat constructor; vm_compute; reflexivity. Qed.
